(* ===== verification/_CoqProject ===== *)
-Q . S2P
Prelude.v
Api.v
JobConfig.v
BranchProtection.v
TideTypes.v
TideConfig.v
PjUtil.v
GoText.v
Handler.v
GitHub.v
Samples.v
Trigger.v
Report.v
Reconciler.v
Plank.v
TidePool.v
TideMerge.v
TideCache.v
TideHistory.v
TideBlockers.v
TideStatus.v
TideSync.v
TideLoop.v
Paths.v
RepoOwners.v
OwnersClient.v
Approvers.v
CommentPruner.v
Lgtm.v
ApproveMessage.v
Approve.v
BranchProtector.v
Sinker.v
Horologium.v
JobSpec.v
Decorate.v
Tot.v
JenkinsClient.v
Jenkins.v
Crier.v
Reporters.v
OrgConfig.v
OrgMembers.v
OrgRepos.v
OrgTeams.v
Peribolos.v
OrgDump.v
BugzillaOptions.v
BugzillaClient.v
Bugzilla.v
PluginConfig.v
Webhook.v
Hook.v
Override.v
LabelSpec.v
LabelPlugins.v
Lifecycle.v
LabelChecks.v
NeedsRebase.v
Witnesses.v
