(* ===== verification/Prelude.v ===== *)
(** * A verification library for Prow

    Prow is a Kubernetes based CI system.  Its unit of work is the ProwJob, a
    custom resource; independent controllers share nothing but the API server and
    GitHub.  This library models the controllers that decide what is tested, what
    runs and what is merged, and the configuration they decide by.

    ** The parts and how they interact

    - A configuration (config/) lists the jobs of each repository, the branch
      protection policies and the Tide queries.
    - The trigger plugin (plugins/trigger) answers comments, pull request events and
      pushes: it decides who is trusted and which presubmits to start
      (pjutil/filter.go) and makes ProwJobs of them (pjutil/pjutil.go).  Horologium
      (cmd/horologium, cron/) makes ProwJobs of periodics.
    - Plank (plank/controller.go) turns triggered ProwJobs into pods, within
      concurrency limits, follows the pods and aborts superseded jobs
      (pjutil/abort.go).
    - Tide (tide/) searches GitHub for pull requests that meet a query, divides
      them into pools per branch, tests those that lack results at the current
      head, alone or in batches, by creating ProwJobs, and merges what passed.
      Its status controller reports on each pull request, its history keeps what
      it did, and blocker issues stop it.
    - The status reconciler (statusreconciler/) follows configuration changes: it
      starts jobs that are newly required and retires or moves contexts.
    - Reports (github/report) tell GitHub about ProwJobs; the sinker (cmd/sinker)
      deletes old ProwJobs and pods.
    - OWNERS files (repoowners/) say who may approve what; the approvers of a change
      (plugins/approve/approvers) are computed from them.  The lgtm and approve
      plugins (plugins/lgtm, plugins/approve) turn reviews and comments into the
      labels Tide's queries ask for.
    - The branch protector (cmd/branchprotector) applies the branch protection
      configuration to GitHub.
    - The Jenkins controller (jenkins/) runs the ProwJobs of the Jenkins agent as
      builds on a Jenkins master.  Tot (cmd/tot) hands out build numbers.  Jobs learn
      what to test from their environment (pod-utils/downwardapi) and leave their
      artifacts under paths both sides compute (pod-utils/gcs).
    - Crier (crier/) calls a reporter (github, gerrit, slack, pubsub) for the states of
      each ProwJob, and notes on the ProwJob which one it reported.
    - Peribolos (cmd/peribolos) makes GitHub organizations agree with their
      configuration (config/org): settings, people, repositories and teams; it also
      dumps an organization as a configuration.
    - Hook (hook/) receives the webhooks of GitHub, checks their signatures and hands
      each event to the plugins and external plugins that the plugin configuration
      (plugins/config.go) enables for its repository.  Besides trigger, lgtm and approve
      those are here: bugzilla (with its client, bugzilla/), override, and those that keep
      labels or open and close (hold, wip, shrug, stage, lifecycle, docs-no-retest,
      cherry-pick-unapproved, mergecommitblocker, blockade, require-matching-label and
      the external needs-rebase).
    The controllers interact through ProwJobs only: some create them and read their
    state, Plank advances that state.

    ** Files

    - [Prelude]: Go's errors, strings, [sets.String], map iteration, sorting, and
      effects as computations over a trace; shared lemmas and tactics.
    - [Api] (apis/prowjobs/v1/types.go): ProwJobs, their states, decoration
      defaults, refs.
    - [JobConfig] (config/jobs.go, BranchRequirements of
      config/branch_protection.go): branch and change filters, [ShouldRun],
      required contexts.
    - [BranchProtection] (config/branch_protection.go): policy layers.
    - [TideTypes], [TideConfig] (tide/tide.go types, config/tide.go): the data and
      the configuration of Tide.
    - [PjUtil] (pjutil/, labels of pod-utils/decorate): comment filters, ProwJob
      construction, abortion of superseded jobs.
    - [GoText], [Handler], [GitHub]: strings of package strings; event handlers as
      computations that fail or panic, with a Hoare logic over their traces; the
      calls to GitHub and the answers it gives.
    - [Trigger] (plugins/trigger), [Report] (github/report), [Reconciler]
      (statusreconciler): the handlers that start and report jobs.
    - [Plank] (plank/controller.go): one sync: listing, superseded jobs, its two phases,
      reports.
    - [TidePool], [TideMerge], [TideSync], [TideLoop] (tide/tide.go): from search
      results to classified subpools; batches, merges and triggering; the choice of
      an action and a pass over a subpool; a whole iteration.
    - [TideCache] (tide/tide.go, changedFilesAgent), [TideHistory]
      (tide/history), [TideBlockers] (tide/blockers, tide/search.go),
      [TideStatus] (tide/status.go): what surrounds the pools.
    - [Paths] (package path/filepath as used), [RepoOwners], [OwnersClient]
      (repoowners/repoowners.go): paths; owners and their look-ups; the cache.
    - [Approvers] (plugins/approve/approvers): who has to approve a change.
    - [CommentPruner] (commentpruner/), [Lgtm] (plugins/lgtm), [ApproveMessage] and
      [Approve] (plugins/approve/approve.go, the notification's template): the
      labels of reviews and approvals and the comments that announce them.
    - [BranchProtector] (cmd/branchprotector): the updates of protected branches.
    - [Sinker] (cmd/sinker), [Horologium] (cron/cron.go, cmd/horologium): a cleaning; the
      histories of the scheduler's jobs and a sync.
    - [PluginConfig] (plugins/config.go), [Webhook] (github/webhooks.go, github/hmac.go),
      [Hook] (hook/): loading and validating the configuration of plugins; the check of a
      request; the goroutines of the server and their wait group as a step relation.
    - [BugzillaOptions], [BugzillaClient] (bugzilla/), [Bugzilla] (plugins/bugzilla): the
      options of a branch, the REST client, the plugin.
    - [Override] (plugins/override).
    - [LabelSpec]: what it is to keep a label, shared by [LabelPlugins] (hold, wip, shrug,
      stage, docs-no-retest), [Lifecycle], [LabelChecks] (cherry-pick-unapproved,
      mergecommitblocker, blockade, require-matching-label) and [NeedsRebase].
    - [JobSpec] (pod-utils/downwardapi, pod-utils/gcs), [Decorate]
      (pod-utils/decorate/podspec.go), [Tot] (cmd/tot, pjutil/tot.go): environment and
      artifact paths; the pod of a job with the containers that clone its sources and upload
      its artifacts; build numbers.
    - [JenkinsClient], [Jenkins] (jenkins/): the client with its requests, the sync.
    - [Crier] (crier/controller.go), [Reporters] (the four reporters): the controller
      against the interface of a reporter, and the reporters as its instances.
    - [OrgConfig], [OrgMembers], [OrgRepos], [OrgTeams], [Peribolos], [OrgDump]
      (cmd/peribolos, config/org): the calls and the flags, then each part of an
      organization, the whole run and the dump, and how the two fit together.
    - [Samples], [Witnesses]: sample data; for theorems with hypotheses, inputs that
      meet them (others stand beside their theorem).

    A definition has the name of the Go function; methods whose name is shared
    get the type in front ([TideQuery_Validate]); a loop body or closure is a
    definition of its own, used by the function that contains it.

    ** How Go is modelled

    - Structs are records and typed strings are strings, since the API server and
      GitHub may hand over any value.  A nil-able pointer is an [option]; a slice
      that is compared with nil is an [option (list _)], any other a [list].
    - Errors keep their format and arguments ([error]); a function that may fail
      returns [result]; a panic is [None] where the code can reach one.
    - A Go map is a [gmap]; ranging over it follows the order of the class
      [GoRange], which is left open, so that theorems hold for each order.
    - Calls that change something outside are events of a trace ([M]); what a
      call answers is a function of the trace that ends in it, hence arbitrary,
      failures included.  What only reads is a function, fixed for one sync.
    - Regular expressions, git, the GitHub and Kubernetes clients, URL and pod
      templates are parameters.  Where a theorem relies on them, the hypothesis
      is named and a witness shows it can hold.
    - Loops are structural recursions over the list or the number of attempts.
      Paging searches have fuel; [search_complete] shows that more steps than
      pages give the full answer.  A merge is tried three times, as in the code.
      Nested teams are followed to the height of the configured forest, dumped ones
      to the number of teams, as GitHub's answer may be cyclic.
    - Numbers that count pull requests, jobs or seconds are [Z] or [nat]; none
      is ever near the bounds of [int].

    ** What is shown

    - Tide: only tested pull requests are merged, at the tested head
      ([Sync_merges_tested], [syncSubpool_merges_tested]); there is one action per pass, and
      while a batch is pending at most a successful batch is merged ([takeAction_spec]);
      batches and single pull requests are classified by exactly the required results
      ([accumulateBatch_spec], [accumulate_spec]); a pool keeps exactly the mergeable pull
      requests ([filterSubpool_spec]) and loses none ([dividePool_spec]); merging, retrying,
      triggering and batch picking do what they promise ([mergePRs_spec], [tryMerge_spec],
      [trigger_progress], [pickBatch_spec]).
    - Tide's surroundings: the cache is sound and bounded, the history serves the
      newest records, a search is complete, blockers and statuses are exact.
    - Plank: concurrency limits hold ([triggered_phase_limits]); in a whole sync each report
      and patch follows the state machine or aborts a superseded job
      ([plank_events_legal]); aborting leaves one job per identifier
      ([TerminateOlderJobs_spec]).
    - Configuration: the policy of a branch is that of the most specific levels, its lists
      those of all levels, and the errors are the stated ones ([GetBranchProtection_spec]);
      required contexts are exactly those of the layers and of the always-run jobs; comment
      filters run the named jobs; queries cover and validate as documented.
    - Handlers: tests are started only for people or pull requests that GitHub
      vouched for ([handleGenericComment_trusted], [handlePR_trusted],
      [reconcile_spec]); a report refines the update of a table
      ([Report_refines_table]).
    - Labels: lgtm is added and removed only for those who may ([lgtm_label_spec]); a push
      takes it away unless the tree is the same, or the labels cannot be read
      ([push_dismisses_lgtm]); the approved label follows the approvers
      ([approve_label_spec], [addApprovers_spec]); the plugins for labels keep theirs as the
      pull request requires ([label_checks_spec]).
    - Branch protection is applied to the branches the policies cover, each update
      as its policy says ([protect_spec]).
    - Owners: the cache answers with the owners of a commit that was checked out, and with
      those of the current one unless a branch moved meanwhile or the aliases alone were
      loaded for a newer commit ([LoadRepoOwners_fresh]); look-ups find exactly the inherited
      entries and the closest ones ([lookups_spec]); without filters in OWNERS files approval
      means an approver for every file ([IsApproved_spec]); suggestions end
      ([GetSuggestedApprovers_spec]).
    - Periodics: jobs and scheduler entries agree in every history, each firing is reported
      by one read, and a launched function misses its job only if a configuration left it
      out meanwhile ([Cron_reachable]); exactly the due periodics start ([sync_spec]); a
      cleaning deletes garbage only ([clean_spec]).
    - Jenkins: a sync acts only on account of the jobs and builds it listed
      ([jenkins_sync_spec]); build numbers increase over restarts and crashes
      ([build_numbers_increase]).
    - Pods: a decorated pod is well formed, and the options of its utilities agree
      ([ProwJobToPod_spec]); plank takes the pod it starts as given.
    - Crier reports a state that the lister's copy does not have as reported, and retries at
      most five times, for every lawful reporter ([crier_spec]).
    - Organizations: only flagged parts are changed, as configured and within the
      limits on removals ([configureOrg_spec], [configureOrgMembers_spec]); an
      organization configured by its own dump stays as it is ([dump_roundtrip]).
    - Hook delivers each signed event exactly to whom it is due, once its goroutines have
      ended, on every schedule ([hook_spec]); a plugin configuration is loaded exactly if it
      is valid, and has its defaults ([Load_spec]).
    - Bugzilla: the first entry that sets an option decides, if none excludes defaults
      ([OptionsForBranch_spec]); bugs are moved only on account of their validation or of all
      merges ([bugzilla_spec]).  Statuses are overridden by authorized people only
      ([override_spec]).

    Where the code does something else than a comment near it says, an [Example] of the file
    shows the case, and the theorem names the condition under which it does not arise.

    ** What is not modelled

    Logging, metrics, HTTP serving, tickers and start-up, and file access are left out;
    the goroutines per ProwJob or pool run one after another, those of hook and of cron
    entries are interleaved.  The rest of config/config.go, the pod utilities themselves,
    Deck, Gerrit's adapter, generated clients and the remaining plugins are not modelled.
    Between the two calls of a horologium sync to the scheduler no entry fires. *)

From stdpp Require Export base gmap strings list fin_maps fin_sets sorting pretty.
From Stdlib Require Export ZArith Lia Ascii.
From Stdlib Require Import SpecFloat.



Declare Scope go_scope.
Delimit Scope go_scope with go.
Create HintDb prow discriminated.

(** ** Errors and fallible results

    A Go [error] built by [fmt.Errorf] is kept as its format string and its
    arguments; [errors.New msg] is [Errorf msg nil]. *)

Inductive error : Type :=
| Errorf (format : string) (args : list errarg)
with errarg : Type :=
| AStr (s : string)
| AInt (z : Z)
| AStrs (l : list string)
| AInts (l : list Z)
| AFloat (f : spec_float)
| AErr (e : error)
| AErrs (l : list error).

Definition errors_New (msg : string) : error := Errorf msg [].

Inductive result (A : Type) : Type :=
| Ok (a : A)
| Err (e : error).
Arguments Ok {A} a.
Arguments Err {A} e.

Definition rbind {A B} (m : result A) (k : A → result B) : result B :=
  match m with Ok a => k a | Err e => Err e end.

Notation "'let?' x ':=' m 'in' k" := (rbind m (fun x => k))
  (at level 10, x pattern, m at level 100, k at level 200) : go_scope.

(** Wrapping the error of a call: [if err != nil { return fmt.Errorf(fmt, err) }]. *)
Definition wrap_err {A} (format : string) (m : result A) : result A :=
  match m with Ok a => Ok a | Err e => Err (Errorf format [AErr e]) end.

(** The same for a call whose error message has arguments before the error. *)
Definition wrap_args {A} (format : string) (args : list errarg) (m : result A) : result A :=
  match m with Ok a => Ok a | Err e => Err (Errorf format (args ++ [AErr e])) end.

Definition is_ok {A} (m : result A) : bool :=
  match m with Ok _ => true | Err _ => false end.

Section result_lemmas.
Context {A B : Type}.

Lemma rbind_Ok_inv (m : result A) (k : A → result B) b :
  rbind m k = Ok b → ∃ a, m = Ok a ∧ k a = Ok b.
Proof. destruct m as [a|e]; cbn; [by exists a | done]. Qed.

Lemma rbind_Err_inv (m : result A) (k : A → result B) e :
  rbind m k = Err e → m = Err e ∨ ∃ a, m = Ok a ∧ k a = Err e.
Proof. destruct m as [a|e']; cbn; [right; by exists a | intros [= ->]; by left]. Qed.

Lemma wrap_err_Ok_inv fmt (m : result A) a : wrap_err fmt m = Ok a → m = Ok a.
Proof. by destruct m. Qed.

Lemma wrap_args_Ok_inv fmt args (m : result A) a : wrap_args fmt args m = Ok a → m = Ok a.
Proof. by destruct m. Qed.
End result_lemmas.

(** Case analysis on the [rbind]s that a hypothesis says have succeeded. *)
Ltac ok_inv :=
  repeat match goal with
  | H : rbind _ _ = Ok _ |- _ =>
      apply rbind_Ok_inv in H; destruct H as (? & ? & ?)
  | H : wrap_err _ _ = Ok _ |- _ => apply wrap_err_Ok_inv in H
  | H : wrap_args _ _ _ = Ok _ |- _ => apply wrap_args_Ok_inv in H
  | H : Ok _ = Ok _ |- _ => injection H; clear H; intros; subst
  | H : Ok _ = Err _ |- _ => discriminate H
  | H : Err _ = Ok _ |- _ => discriminate H
  end.

(** A closed decidable goal, by evaluating its decision. *)
Ltac decide_by_computing :=
  match goal with |- ?P => apply (bool_decide_unpack P); vm_compute; exact I end.

(** Mapping a fallible function over a list, stopping at the first error. *)
Fixpoint rmap {A B} (f : A → result B) (l : list A) : result (list B) :=
  match l with
  | [] => Ok []
  | a :: l' => rbind (f a) (fun b => rbind (rmap f l') (fun bs => Ok (b :: bs)))
  end.

Lemma rmap_Ok_Forall2 {A B} (f : A → result B) l bs :
  rmap f l = Ok bs → Forall2 (λ a b, f a = Ok b) l bs.
Proof.
  revert bs. induction l as [|a l IH]; simpl; intros bs H; ok_inv; [constructor|].
  constructor; eauto.
Qed.

(** A loop over a list whose body updates a state and may return an error. *)
Fixpoint rfold {A B} (f : B → A → result B) (b : B) (l : list A) : result B :=
  match l with
  | [] => Ok b
  | a :: l' => rbind (f b a) (fun b' => rfold f b' l')
  end.

(** An invariant that relates the state to the elements already visited. *)
Lemma rfold_ind {A B} (f : B → A → result B) (P : B → list A → Prop) l b b' :
  P b [] →
  (∀ b done a b', P b done → f b a = Ok b' → P b' (done ++ [a])) →
  rfold f b l = Ok b' → P b' l.
Proof.
  intros H0 Hstep. change (P b' l) with (P b' ([] ++ l)). revert b H0.
  generalize (@nil A) as seen.
  induction l as [|a l IH]; cbn; intros seen b H0 H; ok_inv; [by rewrite app_nil_r|].
  rewrite cons_middle, app_assoc. eapply IH; eauto.
Qed.

(** The same for a pure loop. *)
Lemma foldl_ind {A B} (f : B → A → B) (P : B → list A → Prop) l b :
  P b [] →
  (∀ b done a, P b done → P (f b a) (done ++ [a])) →
  P (foldl f b l) l.
Proof.
  intros H0 Hstep. change (P (foldl f b l) l) with (P (foldl f b l) ([] ++ l)). revert b H0.
  generalize (@nil A) as seen.
  induction l as [|a l IH]; cbn; intros seen b H0; [by rewrite app_nil_r|].
  rewrite cons_middle, app_assoc. eauto.
Qed.

Lemma filter_id {A} (P : A → Prop) `{∀ x, Decision (P x)} (l : list A) : (∀ x, x ∈ l → P x) → filter P l = l.
Proof.
  induction l as [|x l IH]; [done|]. setoid_rewrite elem_of_cons. intros HP.
  rewrite filter_cons_True by auto. f_equal. auto.
Qed.

Lemma filter_none {A} (P : A → Prop) `{∀ x, Decision (P x)} (l : list A) :
  (∀ x, x ∈ l → ¬ P x) → filter P l = [].
Proof.
  induction l as [|x l IH]; [done|]. setoid_rewrite elem_of_cons. intros HP.
  rewrite filter_cons_False by auto. auto.
Qed.

Lemma filter_ext_in {A} (P Q : A → Prop) `{∀ x, Decision (P x)} `{∀ x, Decision (Q x)} (l : list A) :
  (∀ x, x ∈ l → P x ↔ Q x) → filter P l = filter Q l.
Proof.
  induction l as [|x l IH]; [done|]. setoid_rewrite elem_of_cons. intros HP.
  destruct (decide (P x)) as [Hx|Hx].
  - rewrite !filter_cons_True by naive_solver. f_equal. auto.
  - rewrite !filter_cons_False by naive_solver. auto.
Qed.

Lemma filter_twice {A} (P Q R : A → Prop) `{∀ x, Decision (P x)} `{∀ x, Decision (Q x)}
    `{∀ x, Decision (R x)} (l : list A) :
  (∀ x, R x ↔ P x ∧ Q x) → filter P (filter Q l) = filter R l.
Proof.
  intros HR. induction l as [|x l IH]; [done|]. destruct (decide (Q x)) as [Hq|Hq].
  - rewrite (filter_cons_True Q) by done. destruct (decide (P x)) as [Hp|Hp].
    + rewrite !filter_cons_True by naive_solver. by rewrite IH.
    + rewrite !filter_cons_False by naive_solver. done.
  - rewrite !filter_cons_False by naive_solver. done.
Qed.

Lemma existsb_false {A} (f : A → bool) l : existsb f l = false ↔ ∀ x, x ∈ l → f x = false.
Proof.
  split.
  - intros H x Hx. destruct (f x) eqn:E; [|done]. rewrite <-H. symmetry.
    apply existsb_exists. exists x. by rewrite <-list_elem_of_In.
  - intros H. destruct (existsb f l) eqn:E; [|done].
    apply existsb_exists in E as (x & Hx & Hf). rewrite <-list_elem_of_In in Hx.
    by rewrite H in Hf.
Qed.

(** Keeping the elements that a fallible test accepts. *)
Fixpoint rfilter {A} (f : A → result bool) (l : list A) : result (list A) :=
  match l with
  | [] => Ok []
  | a :: l' => rbind (f a) (fun b =>
                 rbind (rfilter f l') (fun r => Ok (if b then a :: r else r)))
  end.

Lemma rfilter_elem_of {A} (f : A → result bool) l r x :
  rfilter f l = Ok r → x ∈ r ↔ x ∈ l ∧ f x = Ok true.
Proof.
  revert r. induction l as [|a l IH]; cbn; intros r Hr.
  { ok_inv. split; [intros []%not_elem_of_nil | intros [[]%not_elem_of_nil _]]. }
  apply rbind_Ok_inv in Hr as (b & Hb & Hr).
  apply rbind_Ok_inv in Hr as (r' & Hr' & Hr). injection Hr as <-.
  specialize (IH _ Hr'). rewrite elem_of_cons. destruct b.
  - rewrite elem_of_cons, IH. naive_solver.
  - rewrite IH. naive_solver congruence.
Qed.

(** ** Strings *)

Definition dquote : string := String (Ascii.ascii_of_nat 34) EmptyString.
(** [Sprintf("\"%s\"", s)] *)
Definition quoted (s : string) : string := dquote +:+ s +:+ dquote.

(** [strconv.Itoa], the [%d] verb *)
Definition itoa (z : Z) : string := pretty z.

Fixpoint string_join (sep : string) (l : list string) : string :=
  match l with
  | [] => ""
  | [s] => s
  | s :: l' => s +:+ sep +:+ string_join sep l'
  end.

Fixpoint has_prefix (prefix s : string) : bool :=
  match prefix, s with
  | EmptyString, _ => true
  | String a p, String b s' => if decide (a = b) then has_prefix p s' else false
  | String _ _, EmptyString => false
  end.

Fixpoint trim_prefix_go (prefix s : string) : option string :=
  match prefix, s with
  | EmptyString, _ => Some s
  | String a p, String b s' => if decide (a = b) then trim_prefix_go p s' else None
  | String _ _, EmptyString => None
  end.

(** [strings.TrimPrefix] *)
Definition trim_prefix (prefix s : string) : string :=
  from_option id s (trim_prefix_go prefix s).

(** [s] without [suffix] at its end, if it is there *)
Fixpoint trim_suffix_go (suffix s : string) : option string :=
  if decide (s = suffix) then Some EmptyString
  else match s with
       | EmptyString => None
       | String a s' => String a <$> trim_suffix_go suffix s'
       end.

(** [strings.TrimSuffix] and [strings.HasSuffix] *)
Definition trim_suffix (suffix s : string) : string :=
  from_option id s (trim_suffix_go suffix s).
Definition has_suffix (suffix s : string) : bool := bool_decide (is_Some (trim_suffix_go suffix s)).

Fixpoint contains_char (c : ascii) (s : string) : bool :=
  match s with
  | EmptyString => false
  | String a s' => if decide (a = c) then true else contains_char c s'
  end.

(** [strings.Split(s, c)] for a one-byte separator: the pieces between the
    separators, always at least one. *)
Fixpoint split_char (c : ascii) (s : string) : list string :=
  match s with
  | EmptyString => [EmptyString]
  | String a s' =>
      if decide (a = c) then EmptyString :: split_char c s'
      else match split_char c s' with
           | [] => [String a EmptyString]
           | p :: ps => String a p :: ps
           end
  end.

Definition ascii_to_upper (a : ascii) : ascii :=
  let n := Ascii.nat_of_ascii a in
  if bool_decide (97 ≤ n ≤ 122) then Ascii.ascii_of_nat (n - 32) else a.

Definition ascii_to_lower (a : ascii) : ascii :=
  let n := Ascii.nat_of_ascii a in
  if bool_decide (65 ≤ n ≤ 90) then Ascii.ascii_of_nat (n + 32) else a.

Fixpoint string_map (f : ascii → ascii) (s : string) : string :=
  match s with
  | EmptyString => EmptyString
  | String a s' => String (f a) (string_map f s')
  end.

(** [strings.ToUpper] and [strings.ToLower] on the ASCII range. *)
Definition to_upper : string → string := string_map ascii_to_upper.
Definition to_lower : string → string := string_map ascii_to_lower.

Section string_lemmas.
Implicit Types s t p : string.

Lemma str_app_nil t : EmptyString +:+ t = t.
Proof. reflexivity. Qed.

Lemma str_app_cons a s t : String a s +:+ t = String a (s +:+ t).
Proof. reflexivity. Qed.

Lemma string_app_assoc s t p : (s +:+ t) +:+ p = s +:+ (t +:+ p).
Proof.
  induction s as [|a s IH]; [done|]. by rewrite !str_app_cons, IH.
Qed.

(** A separator that does not occur before it is found at one place only. *)
Lemma app_sep_inj c s s' t t' :
  contains_char c s = false → contains_char c s' = false →
  s +:+ String c t = s' +:+ String c t' → s = s' ∧ t = t'.
Proof.
  revert s'. induction s as [|a s IH]; intros [|a' s']; cbn [contains_char];
    rewrite ?str_app_nil, ?str_app_cons; repeat case_decide; try done;
    intros H1 H2 E; injection E; intros; subst; try done.
  destruct (IH s') as [-> ->]; auto.
Qed.

Lemma has_prefix_spec p s : has_prefix p s = true ↔ ∃ t, s = p +:+ t.
Proof.
  revert s. induction p as [|a p IH]; intros s; cbn [has_prefix].
  { split; [by exists s | done]. }
  destruct s as [|b s]; [split; [done | by intros [t Ht]]|].
  setoid_rewrite str_app_cons. case_decide as Hab.
  - subst. rewrite IH. split; intros [t Ht]; exists t; congruence.
  - split; [done | intros [t Ht]; congruence].
Qed.

Lemma trim_prefix_app p t : trim_prefix p (p +:+ t) = t.
Proof.
  unfold trim_prefix.
  assert (trim_prefix_go p (p +:+ t) = Some t) as ->; [|done].
  induction p as [|a p IH]; [done|]. rewrite str_app_cons. cbn.
  by rewrite decide_True.
Qed.

Lemma trim_prefix_no p s : has_prefix p s = false → trim_prefix p s = s.
Proof.
  unfold trim_prefix. intros H.
  assert (trim_prefix_go p s = None) as ->; [|done].
  revert s H. induction p as [|a p IH]; intros [|b s]; cbn; try done.
  case_decide; auto.
Qed.

Lemma split_char_app c s t :
  contains_char c s = false → split_char c (s +:+ String c t) = s :: split_char c t.
Proof.
  induction s as [|a s IH]; cbn [contains_char].
  - intros _. rewrite str_app_nil. cbn. by rewrite decide_True.
  - case_decide as Ha; [done|]. intros Hs. rewrite str_app_cons. cbn [split_char].
    by rewrite decide_False, IH.
Qed.

Lemma split_char_ne c s : split_char c s ≠ [].
Proof. destruct s; cbn; [done|]. by repeat case_match. Qed.

Lemma string_app_nil_r s : s +:+ "" = s.
Proof. induction s as [|a s IH]; [done|]. by rewrite str_app_cons, IH. Qed.

Lemma trim_suffix_go_Some suffix s t : trim_suffix_go suffix s = Some t → s = t +:+ suffix.
Proof.
  revert t. induction s as [|a s IH]; intros t; cbn [trim_suffix_go]; case_decide as E.
  - intros [= <-]. by rewrite <-E.
  - done.
  - intros [= <-]. by rewrite <-E.
  - destruct (trim_suffix_go suffix s) as [t'|]; [|done]. intros [= <-].
    rewrite str_app_cons. f_equal. by apply IH.
Qed.

Lemma split_char_trailing c s :
  split_char c (s +:+ String c EmptyString) = split_char c s ++ [EmptyString].
Proof.
  induction s as [|a s IH].
  - rewrite str_app_nil. cbn. by rewrite decide_True.
  - rewrite str_app_cons. cbn [split_char]. case_decide; rewrite IH; [done|].
    pose proof (split_char_ne c s). by destruct (split_char c s).
Qed.

Lemma str_length_app s t : String.length (s +:+ t) = String.length s + String.length t.
Proof. induction s as [|a s IH]; [done|]. rewrite str_app_cons. cbn. by rewrite IH. Qed.

Lemma contains_char_app c s t : contains_char c (s +:+ t) = contains_char c s || contains_char c t.
Proof.
  induction s as [|a s IH]; [done|]. rewrite str_app_cons. cbn [contains_char].
  by case_decide.
Qed.

Lemma split_char_none c s : contains_char c s = false → split_char c s = [s].
Proof.
  induction s as [|a s IH]; [done|]. cbn [contains_char split_char].
  case_decide; [done|]. intros Hs. by rewrite IH.
Qed.

Lemma join_split c l :
  l ≠ [] → Forall (λ s, contains_char c s = false) l →
  split_char c (string_join (String c EmptyString) l) = l.
Proof.
  intros Hne Hl. induction Hl as [|s l Hs Hl IH]; [done|]. destruct l as [|s' l].
  - by apply split_char_none.
  - change (split_char c (s +:+ String c (string_join (String c "") (s' :: l))) = s :: s' :: l).
    rewrite split_char_app by done. by rewrite IH.
Qed.

Lemma split_char_sep c s t :
  split_char c (s +:+ String c t) = split_char c s ++ split_char c t.
Proof.
  induction s as [|a s IH].
  - rewrite str_app_nil. cbn. by rewrite decide_True.
  - rewrite str_app_cons. cbn [split_char]. rewrite IH. case_decide; [done|].
    pose proof (split_char_ne c s). by destruct (split_char c s).
Qed.

Lemma split_join_concat c l :
  l ≠ [] → split_char c (string_join (String c EmptyString) l) = flat_map (split_char c) l.
Proof.
  induction l as [|s l IH]; [done|]. intros _. destruct l as [|s' l].
  - cbn. by rewrite app_nil_r.
  - change (string_join (String c "") (s :: s' :: l))
      with (s +:+ String c (string_join (String c "") (s' :: l))).
    rewrite split_char_sep, IH by done. done.
Qed.

Lemma split_join c s : string_join (String c EmptyString) (split_char c s) = s.
Proof.
  induction s as [|a s IH]; [done|]. cbn [split_char].
  destruct (split_char c s) as [|p ps] eqn:E; [by apply split_char_ne in E|].
  case_decide as Hac.
  - rewrite Hac, <-IH. done.
  - rewrite <-IH. by destruct ps.
Qed.
End string_lemmas.

(** ** [sets.String] and iteration order

    [sets.String] is a [gset string].  Its [List] is sorted; ranging over a Go
    map (or [UnsortedList]) visits the entries in an order the language leaves
    open, so the order is an interface: every theorem holds for all of them. *)

Definition set_of (l : list string) : gset string := list_to_set l.
Definition set_list (s : gset string) : list string := merge_sort String.le (elements s).

Class GoRange : Type := {
  map_range : ∀ {K A : Type} `{Countable K}, gmap K A → list (K * A);
  map_range_perm : ∀ {K A : Type} `{Countable K} (m : gmap K A),
    map_range m ≡ₚ map_to_list m }.

(** One concrete order, used to evaluate the model. *)
Definition listing_order : GoRange := {|
  map_range := λ K A _ _, map_to_list;
  map_range_perm := λ K A _ _ m, Permutation_refl _ |}.

Definition set_range `{GoRange} `{Countable K} (s : gset K) : list K :=
  (map_range (gset_to_gmap tt s)).*1.

Section range_lemmas.
Context `{GoRange} `{Countable K}.

Lemma elem_of_map_range {A} (m : gmap K A) k a : (k, a) ∈ map_range m ↔ m !! k = Some a.
Proof. by rewrite map_range_perm, elem_of_map_to_list. Qed.

Lemma NoDup_map_range {A} (m : gmap K A) : NoDup (map_range m).*1.
Proof. rewrite map_range_perm. apply NoDup_fst_map_to_list. Qed.

Lemma elem_of_set_range (s : gset K) x : x ∈ set_range s ↔ x ∈ s.
Proof.
  unfold set_range. rewrite list_elem_of_fmap. split.
  - intros ([k []] & -> & Hx). apply elem_of_map_range in Hx.
    by apply lookup_gset_to_gmap_Some in Hx as [? _].
  - intros Hx. exists (x, tt). split; [done|]. apply elem_of_map_range.
    by apply lookup_gset_to_gmap_Some.
Qed.
End range_lemmas.

Lemma elem_of_set_list s x : x ∈ set_list s ↔ x ∈ s.
Proof. unfold set_list. by rewrite merge_sort_Permutation, elem_of_elements. Qed.

Lemma NoDup_set_list s : NoDup (set_list s).
Proof. unfold set_list. rewrite merge_sort_Permutation. apply NoDup_elements. Qed.

Lemma set_list_sorted s : StronglySorted String.le (set_list s).
Proof. apply (StronglySorted_merge_sort _). Qed.

Lemma elem_of_set_of l x : x ∈ set_of l ↔ x ∈ l.
Proof. apply elem_of_list_to_set. Qed.

Lemma set_list_nil s : set_list s = [] ↔ s = ∅.
Proof.
  split.
  - intros E. apply set_eq. intros x. rewrite <-elem_of_set_list, E.
    split; [by intros ?%not_elem_of_nil | by intros ?%not_elem_of_empty].
  - intros ->. done.
Qed.

Lemma set_of_set_list s : set_of (set_list s) = s.
Proof. apply set_eq. intros x. by rewrite elem_of_set_of, elem_of_set_list. Qed.

Lemma set_of_app l k : set_of (l ++ k) = set_of l ∪ set_of k.
Proof. apply list_to_set_app_L. Qed.

#[export] Hint Rewrite elem_of_set_list elem_of_set_of
  set_of_set_list set_of_app : prow.

(** ** Sorting strings ([sort.Strings]) *)

Definition sort_strings (l : list string) : list string := merge_sort String.le l.

Lemma sort_strings_perm l : sort_strings l ≡ₚ l.
Proof. apply merge_sort_Permutation. Qed.

(** Sorted lists are equal when the lists differ in order only. *)
Lemma sort_strings_eq l1 l2 : sort_strings l1 = sort_strings l2 ↔ l1 ≡ₚ l2.
Proof.
  split; intros E.
  - by rewrite <- (sort_strings_perm l1), E, sort_strings_perm.
  - apply (StronglySorted_unique String.le); [apply (StronglySorted_merge_sort _)..|].
    by rewrite !sort_strings_perm.
Qed.

(** ** Sorting by an integer key ([sort.Slice] with a [<] on a number) *)

Section sort_by.
Context {A : Type} (key : A → Z).

Definition key_le (a b : A) : Prop := (key a ≤ key b)%Z.
#[export] Instance key_le_dec : RelDecision key_le.
Proof. intros a b. unfold key_le. apply _. Defined.
#[export] Instance key_le_trans : Transitive key_le.
Proof. intros a b c. unfold key_le. lia. Qed.
#[export] Instance key_le_total : Total key_le.
Proof. intros a b. unfold key_le. lia. Qed.

Definition sort_by (l : list A) : list A := merge_sort key_le l.

Lemma sort_by_perm l : sort_by l ≡ₚ l.
Proof. apply merge_sort_Permutation. Qed.

Lemma sort_by_sorted l : StronglySorted key_le (sort_by l).
Proof. apply (StronglySorted_merge_sort _). Qed.

Lemma elem_of_sort_by l x : x ∈ sort_by l ↔ x ∈ l.
Proof. by rewrite sort_by_perm. Qed.
End sort_by.

(** ** Stable sorting ([sort.SliceStable] with a [<] on a number) *)

Section sort_stable.
Context {A : Type} (key : A → Z).

Fixpoint insert_after (x : A) (l : list A) : list A :=
  match l with
  | [] => [x]
  | y :: l => if bool_decide (key y ≤ key x)%Z then y :: insert_after x l else x :: y :: l
  end.
Definition sort_stable (l : list A) : list A := foldl (λ sorted x, insert_after x sorted) [] l.

Lemma insert_after_perm x l : insert_after x l ≡ₚ x :: l.
Proof.
  induction l as [|y l IH]; [done|]. cbn [insert_after]. case_bool_decide; [|done].
  rewrite IH. apply Permutation_swap.
Qed.

Lemma sort_stable_perm l : sort_stable l ≡ₚ l.
Proof.
  unfold sort_stable. rewrite <- (app_nil_l l) at 2. generalize (@nil A).
  induction l as [|x l IH]; intros acc; cbn [foldl]; [by rewrite app_nil_r|].
  rewrite IH, insert_after_perm. by rewrite <- Permutation_middle.
Qed.

Lemma elem_of_sort_stable l x : x ∈ sort_stable l ↔ x ∈ l.
Proof. by rewrite sort_stable_perm. Qed.

Lemma insert_after_sorted x l : StronglySorted (λ a b, key a ≤ key b)%Z l →
  StronglySorted (λ a b, key a ≤ key b)%Z (insert_after x l).
Proof.
  induction 1 as [|y l Hl IH Hy]; cbn [insert_after]; [by repeat constructor|].
  case_bool_decide as Hk; constructor.
  - exact IH.
  - rewrite insert_after_perm. by constructor.
  - by constructor.
  - constructor; [lia|]. eapply Forall_impl; [exact Hy|]. intros z ?. cbn in *. lia.
Qed.

Lemma sort_stable_sorted l : StronglySorted (λ a b, key a ≤ key b)%Z (sort_stable l).
Proof.
  unfold sort_stable. assert (StronglySorted (λ a b, key a ≤ key b)%Z (@nil A)) as Hacc by constructor.
  revert Hacc. generalize (@nil A). induction l as [|x l IH]; intros acc Hacc; [done|].
  by apply IH, insert_after_sorted.
Qed.

(** Elements with the same key keep their order. *)
Lemma insert_after_filter x l k : StronglySorted (λ a b, key a ≤ key b)%Z l →
  filter (λ a, key a = k) (insert_after x l) =
  filter (λ a, key a = k) l ++ (if bool_decide (key x = k) then [x] else []).
Proof.
  induction 1 as [|y l Hl IH Hy]; cbn [insert_after].
  - rewrite filter_cons. by case_bool_decide; case_decide.
  - destruct (bool_decide_reflect (key y ≤ key x)%Z) as [Hk|Hk].
    + rewrite !(filter_cons _ y), IH. by destruct (decide (key y = k)).
    + rewrite (filter_cons _ x). destruct (decide (key x = k)) as [Hx|Hx].
      * rewrite bool_decide_eq_true_2 by done. rewrite (filter_none _ (y :: l)); [done|].
        intros z [->|Hz]%elem_of_cons; [lia|]. rewrite Forall_forall in Hy. apply Hy in Hz.
        cbn in Hz. lia.
      * rewrite bool_decide_eq_false_2 by done. by rewrite app_nil_r.
Qed.

Lemma sort_stable_filter l k : filter (λ a, key a = k) (sort_stable l) = filter (λ a, key a = k) l.
Proof.
  unfold sort_stable. assert (StronglySorted (λ a b, key a ≤ key b)%Z (@nil A)) as Hacc by constructor.
  rewrite <- (app_nil_l (filter _ l)). change (@nil A) with (filter (λ a, key a = k) (@nil A)) at 2.
  revert Hacc. generalize (@nil A). induction l as [|x l IH]; intros acc Hacc; cbn [foldl].
  { by rewrite filter_nil, app_nil_r. }
  rewrite IH by by apply insert_after_sorted. rewrite insert_after_filter by done.
  rewrite filter_cons, <- app_assoc. by case_bool_decide; case_decide.
Qed.
End sort_stable.

(** ** Effects: computations over a trace of external calls

    A controller talks to GitHub, to the cluster and to git.  An effectful
    function is a computation over the trace of the calls made so far, oldest
    first; what a call answers is a function of the trace that ends in it, so
    that quantifying over that function quantifies over every behaviour of the
    outside, failures and changes of mind included. *)

Definition M (E A : Type) : Type := list E → list E * A.

#[export] Instance M_ret {E} : MRet (M E) := λ A a tr, (tr, a).
#[export] Instance M_bind {E} : MBind (M E) := λ A B k m tr,
  let '(tr', a) := m tr in k a tr'.

(** Recording a call without an answer, and one with an answer. *)
Definition emit {E} (e : E) : M E unit := λ tr, (tr ++ [e], tt).
Definition call {E A} (answer : list E → A) (e : E) : M E A := λ tr,
  (tr ++ [e], answer (tr ++ [e])).

(** Reading something that is not an action, such as the clock. *)
Definition observe {E A} (f : list E → A) : M E A := λ tr, (tr, f tr).

(** [emits P m]: [m] only extends the trace, by calls that satisfy [P]. *)
Definition emits {E A} (P : E → Prop) (m : M E A) : Prop :=
  ∀ tr, ∃ new, (m tr).1 = tr ++ new ∧ Forall P new.

Lemma bind_app {E A B} (m : M E A) (k : A → M E B) tr :
  (m ≫= k) tr = k (m tr).2 (m tr).1.
Proof. unfold mbind, M_bind. by destruct (m tr). Qed.

Lemma ret_app {E A} (a : A) (tr : list E) : (mret a : M E A) tr = (tr, a).
Proof. done. Qed.

Section run_lemmas.
Context {E A B : Type}.

Lemma call_bind (f : list E → A) e (k : A → M E B) tr :
  (call f e ≫= k) tr = k (f (tr ++ [e])) (tr ++ [e]).
Proof. done. Qed.

Lemma emit_bind e (k : unit → M E B) tr : (emit e ≫= k) tr = k tt (tr ++ [e]).
Proof. done. Qed.

Lemma observe_bind (f : list E → A) (k : A → M E B) tr : (observe f ≫= k) tr = k (f tr) tr.
Proof. done. Qed.

Lemma ret_bind (a : A) (k : A → M E B) tr : (mret a ≫= k) tr = k a tr.
Proof. done. Qed.
End run_lemmas.

(** Running a computation one call further. *)
Ltac run := repeat first [rewrite call_bind | rewrite emit_bind | rewrite observe_bind
                         | rewrite ret_bind | rewrite ret_app].

Section emits_lemmas.
Context {E : Type} (P : E → Prop).

Lemma emits_ret {A} (a : A) : emits P (mret a).
Proof. intros tr. exists []. by rewrite app_nil_r. Qed.

Lemma emits_bind {A B} (m : M E A) (k : A → M E B) :
  emits P m → (∀ a, emits P (k a)) → emits P (m ≫= k).
Proof.
  intros Hm Hk tr. destruct (Hm tr) as (n1 & E1 & F1).
  unfold mbind, M_bind. destruct (m tr) as [tr' a] eqn:Em. cbn in E1. subst.
  destruct (Hk a (tr ++ n1)) as (n2 & E2 & F2).
  exists (n1 ++ n2). rewrite E2, <-app_assoc. split; [done|]. by apply Forall_app.
Qed.

Lemma emits_emit e : P e → emits P (emit e).
Proof. intros ? tr. exists [e]. split; [done|]. by constructor. Qed.

Lemma emits_call {A} (f : list E → A) e : P e → emits P (call f e).
Proof. intros ? tr. exists [e]. split; [done|]. by constructor. Qed.

Lemma emits_observe {A} (f : list E → A) : emits P (observe f).
Proof. intros tr. exists []. by rewrite app_nil_r. Qed.

Lemma emits_if {A} (b : bool) (m n : M E A) :
  (b = true → emits P m) → (b = false → emits P n) → emits P (if b then m else n).
Proof. destruct b; auto. Qed.
End emits_lemmas.

Lemma emits_impl {E A} (P Q : E → Prop) (m : M E A) :
  (∀ e, P e → Q e) → emits P m → emits Q m.
Proof.
  intros HPQ Hm tr. destruct (Hm tr) as (n & ? & ?). exists n. split; [done|].
  by eapply Forall_impl.
Qed.

(** [emits_le P n m]: [m] makes at most [n] calls that satisfy [P]. *)
Definition emits_le {E A} (P : E → bool) (n : nat) (m : M E A) : Prop :=
  ∀ tr, ∃ new, (m tr).1 = tr ++ new ∧ length (filter (λ e, P e = true) new) ≤ n.

Section emits_le_lemmas.
Context {E : Type} (P : E → bool).

Lemma emits_le_ret {A} n (a : A) : emits_le P n (mret a).
Proof. intros tr. exists []. rewrite app_nil_r. split; [done|]. cbn. lia. Qed.

Lemma emits_le_observe {A} n (f : list E → A) : emits_le P n (observe f).
Proof. intros tr. exists []. rewrite app_nil_r. split; [done|]. cbn. lia. Qed.

Lemma emits_le_bind {A B} n1 n2 n (m : M E A) (k : A → M E B) :
  n1 + n2 ≤ n → emits_le P n1 m → (∀ a, emits_le P n2 (k a)) → emits_le P n (m ≫= k).
Proof.
  intros Hn Hm Hk tr. destruct (Hm tr) as (l1 & E1 & F1).
  rewrite bind_app, E1. destruct (Hk (m tr).2 (tr ++ l1)) as (l2 & E2 & F2).
  exists (l1 ++ l2). rewrite E2, <-app_assoc, filter_app, length_app. split; [done|lia].
Qed.

Lemma emits_le_emit n e : (if P e then 1 else 0) ≤ n → emits_le P n (emit e).
Proof.
  intros Hn tr. exists [e]. split; [done|]. rewrite filter_cons, filter_nil.
  destruct (P e); case_decide; cbn in *; (done || lia).
Qed.

Lemma emits_le_call {A} n (f : list E → A) e :
  (if P e then 1 else 0) ≤ n → emits_le P n (call f e).
Proof. apply emits_le_emit. Qed.
End emits_le_lemmas.

#[export] Hint Resolve emits_ret emits_bind emits_emit emits_call emits_observe emits_if : prow.

(** ** Lists *)

Section list_lemmas.
Context {A : Type}.

(** The first element with the smallest key, scanning from the left. *)
Definition pick_min (key : A → Z) (l : list A) : option A :=
  foldl (λ best a, match best with
                   | Some b => if (key b <=? key a)%Z then best else Some a
                   | None => Some a
                   end) None l.

Lemma pick_min_foldl key l b :
  ∃ r : A, foldl (λ best a, match best with
                   | Some b => if (key b <=? key a)%Z then best else Some a
                   | None => Some a
                   end) (Some b) l = Some r ∧
       (r = b ∨ r ∈ l) ∧ (key r ≤ key b)%Z ∧ Forall (λ a, key r ≤ key a)%Z l.
Proof.
  revert b. induction l as [|a l IH]; intros b; cbn.
  { exists b. repeat split; auto; lia. }
  destruct (Z.leb_spec (key b) (key a)) as [Hle|Hlt].
  - destruct (IH b) as (r & Hr & Hin & Hb & Hall). exists r.
    rewrite elem_of_cons. repeat split; [done | naive_solver | done |].
    constructor; [lia | done].
  - destruct (IH a) as (r & Hr & Hin & Hb & Hall). exists r.
    rewrite elem_of_cons. repeat split; [done | naive_solver | lia |].
    constructor; [lia | done].
Qed.

Lemma pick_min_Some key l r :
  pick_min key l = Some r → r ∈ l ∧ Forall (λ a, key r ≤ key a)%Z l.
Proof.
  destruct l as [|a l]; [done|]. unfold pick_min. cbn. intros Hr.
  destruct (pick_min_foldl key l a) as (r' & Hr' & Hin & Hb & Hall).
  rewrite Hr' in Hr. injection Hr as <-. rewrite elem_of_cons.
  split; [naive_solver|]. constructor; done.
Qed.

Lemma pick_min_None key l : pick_min key l = None ↔ l = [].
Proof.
  destruct l as [|a l]; [done|]. unfold pick_min. cbn.
  destruct (pick_min_foldl key l a) as (r' & -> & _). done.
Qed.

(** Splitting a list by a three-way classification loses and duplicates
    nothing. *)
Lemma partition3_perm (f : A → bool) (g : A → bool) (l : list A) :
  filter (λ a, f a = true) l ++
  filter (λ a, f a = false ∧ g a = true) l ++
  filter (λ a, f a = false ∧ g a = false) l ≡ₚ l.
Proof.
  induction l as [|a l IH]; [done|]. rewrite !filter_cons.
  destruct (f a) eqn:Ef; [|destruct (g a) eqn:Eg];
    repeat first [rewrite decide_True by done | rewrite decide_False by naive_solver].
  - cbn. by constructor.
  - cbn. rewrite <-Permutation_middle. by constructor.
  - rewrite app_assoc, <-Permutation_middle, <-app_assoc. by constructor.
Qed.
End list_lemmas.

(** A field update that a [gmap] of lists receives from
    [m[k] = append(m[k], x)]. *)
Definition map_append `{Countable K} {A} (k : K) (x : A) (m : gmap K (list A))
    : gmap K (list A) :=
  <[k := default [] (m !! k) ++ [x]]> m.

Lemma lookup_map_append `{Countable K} {A} k j (x : A) (m : gmap K (list A)) :
  default [] (map_append k x m !! j) =
    if decide (k = j) then default [] (m !! j) ++ [x] else default [] (m !! j).
Proof.
  unfold map_append. case_decide; subst.
  - by rewrite lookup_insert_eq.
  - by rewrite lookup_insert_ne.
Qed.
