(* ===== verification/Api.v ===== *)
(** * The ProwJob API types (apis/prowjobs/v1/types.go)

    Typed Go strings (job type, state, agent) stay strings, because the API
    server may hand over any value.  A [metav1.Time] is a [Z], the zero time
    being [0]; a pointer is an [option].  Third-party pod and pipeline specs
    appear only through the fields that the modelled code reads. *)

From S2P Require Import Prelude.
#[local] Open Scope go_scope.

Definition Time : Type := Z.
Definition IsZero (t : Time) : bool := bool_decide (t = 0%Z).
(** [metav1.Time.Before] on two non-nil times *)
Definition Before (t u : Time) : bool := (t <? u)%Z.

Definition ProwJobType : Type := string.
Definition PresubmitJob : ProwJobType := "presubmit".
Definition PostsubmitJob : ProwJobType := "postsubmit".
Definition PeriodicJob : ProwJobType := "periodic".
Definition BatchJob : ProwJobType := "batch".

Definition ProwJobState : Type := string.
Definition TriggeredState : ProwJobState := "triggered".
Definition PendingState : ProwJobState := "pending".
Definition SuccessState : ProwJobState := "success".
Definition FailureState : ProwJobState := "failure".
Definition AbortedState : ProwJobState := "aborted".
Definition ErrorState : ProwJobState := "error".

Definition ProwJobAgent : Type := string.
Definition KubernetesAgent : ProwJobAgent := "kubernetes".
Definition JenkinsAgent : ProwJobAgent := "jenkins".
Definition TektonAgent : ProwJobAgent := "tekton-pipeline".

Definition DefaultClusterAlias : string := "default".

(** ** Pod specs, as far as they are read *)

Record EnvVar := mkEnvVar { env_Name : string; env_Value : string }.
(** What backs a volume, as far as it is made here; a secret has a mode, and keys with paths. *)
Inductive VolumeSource :=
| EmptyDir
| SecretVolume (SecretName : string) (DefaultMode : option Z) (Items : list (string * string))
| HostPath (path : string)
| OtherSource (raw : string).
Record Volume := mkVolume { vol_Name : string; vol_Source : VolumeSource }.
Record VolumeMount := mkVolumeMount { vm_Name : string; vm_MountPath : string; vm_ReadOnly : bool }.
Record Container := mkContainer {
  ct_Name : string; ct_Image : string; ct_Command : list string; ct_Args : list string; ct_WorkingDir : string;
  ct_Env : list EnvVar; ct_VolumeMounts : list VolumeMount }.
Record PodSpec := mkPodSpec {
  ps_InitContainers : list Container; ps_Containers : list Container; ps_Volumes : list Volume;
  ps_RestartPolicy : string; ps_ServiceAccountName : string; ps_AutomountServiceAccountToken : option bool }.
(** Of Tekton's spec only the resources are read: the name of each, and that of what it refers to. *)
Record PipelineRunSpec := mkPipelineRunSpec { prs_Resources : list (string * string) }.

(** ** Refs *)

Record Pull := mkPull {
  pull_Number : Z; pull_Author : string; pull_SHA : string; pull_Title : string;
  pull_Ref : string; pull_Link : string; pull_CommitLink : string;
  pull_AuthorLink : string }.

Record Refs := mkRefs {
  refs_Org : string; refs_Repo : string; refs_RepoLink : string;
  refs_BaseRef : string; refs_BaseSHA : string; refs_BaseLink : string;
  refs_Pulls : list Pull; refs_PathAlias : string; refs_WorkDir : bool;
  refs_CloneURI : string; refs_SkipSubmodules : bool; refs_CloneDepth : Z }.

Definition pull_string (pull : Pull) : string :=
  let ref := itoa (pull_Number pull) +:+ ":" +:+ pull_SHA pull in
  if bool_decide (pull_Ref pull = "") then ref else ref +:+ ":" +:+ pull_Ref pull.

Definition Refs_String (r : Refs) : string :=
  let rs :=
    if bool_decide (refs_BaseSHA r = "") then [refs_BaseRef r]
    else [refs_BaseRef r +:+ ":" +:+ refs_BaseSHA r] in
  string_join "," (rs ++ (pull_string <$> refs_Pulls r)).

(** ** Decoration *)

Record UtilityImages := mkUtilityImages {
  ui_CloneRefs : string; ui_InitUpload : string;
  ui_Entrypoint : string; ui_Sidecar : string }.

Record GCSConfiguration := mkGCSConfiguration {
  gcs_Bucket : string; gcs_PathPrefix : string; gcs_PathStrategy : string;
  gcs_DefaultOrg : string; gcs_DefaultRepo : string;
  gcs_MediaTypes : option (gmap string string);  (* [None] is the nil map *)
  gcs_LocalOutputDir : string }.

Record OauthTokenSecret := mkOauthTokenSecret { ots_Name : string; ots_Key : string }.

Record DecorationConfig := mkDecorationConfig {
  dc_Timeout : option Z; dc_GracePeriod : option Z;
  dc_UtilityImages : option UtilityImages;
  dc_GCSConfiguration : option GCSConfiguration;
  dc_GCSCredentialsSecret : string;
  dc_SSHKeySecrets : list string; dc_SSHHostFingerprints : list string;
  dc_SkipCloning : option bool; dc_CookiefileSecret : string;
  dc_OauthTokenSecret : option OauthTokenSecret }.

(** [if x == "" { x = d }] *)
Definition or_default (x d : string) : string := if bool_decide (x = "") then d else x.
Definition or_default_list {A} (x d : list A) : list A := match x with [] => d | _ => x end.
Definition or_default_ptr {A} (x d : option A) : option A := match x with None => d | _ => x end.

Definition UtilityImages_ApplyDefault (u def : option UtilityImages)
    : option UtilityImages :=
  match u, def with
  | None, _ => def
  | Some _, None => u
  | Some u, Some d => Some (mkUtilityImages
      (or_default (ui_CloneRefs u) (ui_CloneRefs d))
      (or_default (ui_InitUpload u) (ui_InitUpload d))
      (or_default (ui_Entrypoint u) (ui_Entrypoint d))
      (or_default (ui_Sidecar u) (ui_Sidecar d)))
  end.

(** A call that may panic: [None] stands for the run-time panic. *)
Definition may_panic (A : Type) : Type := option A.

(** The copy [merged := *g] shares the map [MediaTypes] with [g]: the first loop
    writes the defaults through to [g]'s own map, the second ranges over the map
    it assigns to.  Assigning to the nil map panics. *)
Definition merge_media (own def : option (gmap string string))
    : may_panic (option (gmap string string)) :=
  match own, def with
  | None, Some d => if bool_decide (d = ∅) then Some None else None
  | None, None => Some None
  | Some m, None => Some (Some m)
  | Some m, Some d => Some (Some (d ∪ m))
  end.

Definition GCSConfiguration_ApplyDefault (g def : option GCSConfiguration)
    : may_panic (option GCSConfiguration) :=
  match g, def with
  | None, None => Some None
  | Some g, None => Some (Some g)
  | None, Some d => Some (Some d)
  | Some g, Some d =>
      media ← merge_media (gcs_MediaTypes g) (gcs_MediaTypes d);
      Some (Some (mkGCSConfiguration
        (or_default (gcs_Bucket g) (gcs_Bucket d))
        (or_default (gcs_PathPrefix g) (gcs_PathPrefix d))
        (or_default (gcs_PathStrategy g) (gcs_PathStrategy d))
        (or_default (gcs_DefaultOrg g) (gcs_DefaultOrg d))
        (or_default (gcs_DefaultRepo g) (gcs_DefaultRepo d))
        media
        (or_default (gcs_LocalOutputDir g) (gcs_LocalOutputDir d))))
  end.

Definition DecorationConfig_ApplyDefault (d def : option DecorationConfig)
    : may_panic (option DecorationConfig) :=
  match d, def with
  | None, None => Some None
  | Some d, None => Some (Some d)
  | None, Some def => Some (Some def)
  | Some d, Some def =>
      gcs ← GCSConfiguration_ApplyDefault (dc_GCSConfiguration d) (dc_GCSConfiguration def);
      Some (Some (mkDecorationConfig
        (or_default_ptr (dc_Timeout d) (dc_Timeout def))
        (or_default_ptr (dc_GracePeriod d) (dc_GracePeriod def))
        (UtilityImages_ApplyDefault (dc_UtilityImages d) (dc_UtilityImages def))
        gcs
        (or_default (dc_GCSCredentialsSecret d) (dc_GCSCredentialsSecret def))
        (or_default_list (dc_SSHKeySecrets d) (dc_SSHKeySecrets def))
        (or_default_list (dc_SSHHostFingerprints d) (dc_SSHHostFingerprints def))
        (or_default_ptr (dc_SkipCloning d) (dc_SkipCloning def))
        (or_default (dc_CookiefileSecret d) (dc_CookiefileSecret def))
        (dc_OauthTokenSecret d)))
  end.

Definition PathStrategyLegacy : string := "legacy".
Definition PathStrategySingle : string := "single".
Definition PathStrategyExplicit : string := "explicit".

Section validate.
(** [mime.ParseMediaType] of the standard library: accepts or rejects. *)
Context (ParseMediaType : string → result unit) `{GoRange}.

Definition GCSConfiguration_Validate (g : GCSConfiguration) : result unit :=
  let? _ := rmap (λ kv : string * string,
              wrap_err "invalid extension media type: %v" (ParseMediaType kv.2))
            (map_range (default ∅ (gcs_MediaTypes g))) in
  if bool_decide (gcs_PathStrategy g ≠ PathStrategyLegacy ∧
                  gcs_PathStrategy g ≠ PathStrategyExplicit ∧
                  gcs_PathStrategy g ≠ PathStrategySingle)
  then Err (errors_New "gcs_path_strategy must be one of legacy, explicit, or single")
  else if bool_decide (gcs_PathStrategy g ≠ PathStrategyExplicit ∧
                       (gcs_DefaultOrg g = "" ∨ gcs_DefaultRepo g = ""))
  then Err (Errorf "default org and repo must be provided for GCS strategy %q"
              [AStr (gcs_PathStrategy g)])
  else Ok tt.

Definition missing_images (u : UtilityImages) : list string :=
  (if bool_decide (ui_CloneRefs u = "") then ["clonerefs"] else []) ++
  (if bool_decide (ui_InitUpload u = "") then ["initupload"] else []) ++
  (if bool_decide (ui_Entrypoint u = "") then ["entrypoint"] else []) ++
  (if bool_decide (ui_Sidecar u = "") then ["sidecar"] else []).

Definition DecorationConfig_Validate (d : DecorationConfig) : result unit :=
  match dc_UtilityImages d with
  | None => Err (errors_New "utility image config is not specified")
  | Some u =>
    match missing_images u with
    | (_ :: _) as missing =>
        Err (Errorf "the following utility images are not specified: %q" [AStrs missing])
    | [] =>
      match dc_GCSConfiguration d with
      | None => Err (errors_New "GCS upload configuration is not specified")
      | Some g =>
        if bool_decide (dc_GCSCredentialsSecret d = "")
        then Err (errors_New "GCS upload credential secret is not specified")
        else let? _ := wrap_err "GCS configuration is invalid: %v"
                         (GCSConfiguration_Validate g) in
        if bool_decide (dc_OauthTokenSecret d ≠ None ∧ dc_SSHKeySecrets d ≠ [])
        then Err (errors_New "both OAuth token and SSH key secrets are specified")
        else Ok tt
      end
    end
  end.
End validate.

(** ** Who may rerun a job *)

Record GitHubTeamSlug := mkGitHubTeamSlug { slug_Slug : string; slug_Org : string }.

Record RerunAuthConfig := mkRerunAuthConfig {
  rac_AllowAnyone : bool; rac_GitHubTeamIDs : list Z;
  rac_GitHubTeamSlugs : list GitHubTeamSlug;
  rac_GitHubUsers : list string; rac_GitHubOrgs : list string }.

Definition no_rerun_auth : RerunAuthConfig := mkRerunAuthConfig false [] [] [] [].

(** [github.NormLogin] *)
Definition NormLogin (login : string) : string := trim_prefix "@" (to_lower login).

(** The [RerunClient] interface: GitHub's answers. *)
Record RerunClient := mkRerunClient {
  rc_IsMember : string → string → result bool;
  rc_TeamHasMember : Z → string → result bool;
  rc_GetTeamBySlug : string → string → result Z }.

(** [for ... { ok, err := f(x); if err != nil {return false, err}; if ok {return true, nil} }] *)
Fixpoint any_ok {A} (f : A → result bool) (l : list A) : result bool :=
  match l with
  | [] => Ok false
  | a :: l' => let? b := f a in if b then Ok true else any_ok f l'
  end.

Definition slug_has_member (cli : RerunClient) (user : string) (ghts : GitHubTeamSlug)
    : result bool :=
  let? team := wrap_err "GitHub failed to fetch team with slug: %v"
                 (rc_GetTeamBySlug cli (slug_Slug ghts) (slug_Org ghts)) in
  wrap_err "GitHub failed to fetch members of team: %v" (rc_TeamHasMember cli team user).

Definition IsAuthorized (rac : RerunAuthConfig) (user : string) (cli : option RerunClient)
    : result bool :=
  if rac_AllowAnyone rac then Ok true
  else if bool_decide (NormLogin user ∈ NormLogin <$> rac_GitHubUsers rac) then Ok true
  else match cli with
  | None => Ok false
  | Some cli =>
    let? in_org := any_ok (λ gho, wrap_err "GitHub failed to fetch members of org: %v"
                             (rc_IsMember cli gho user)) (rac_GitHubOrgs rac) in
    if in_org : bool then Ok true else
    let? in_team := any_ok (λ ght, wrap_err "GitHub failed to fetch members of team: %v"
                              (rc_TeamHasMember cli ght user)) (rac_GitHubTeamIDs rac) in
    if in_team : bool then Ok true else
    any_ok (slug_has_member cli user) (rac_GitHubTeamSlugs rac)
  end.

Definition RerunAuthConfig_Validate (rac : RerunAuthConfig) : result unit :=
  let hasRestriction := bool_decide
    (rac_GitHubUsers rac ≠ [] ∨ rac_GitHubTeamIDs rac ≠ [] ∨
     length (rac_GitHubTeamSlugs rac) ≠ 0 ∨ rac_GitHubOrgs rac ≠ []) in
  if rac_AllowAnyone rac && hasRestriction
  then Err (errors_New "allow anyone is set to true and permitted users or groups are specified")
  else Ok tt.

Definition GetRerunAuthConfig (rac : gmap string RerunAuthConfig) (refs : option Refs)
    : RerunAuthConfig :=
  match refs with
  | None => default no_rerun_auth (rac !! "*")
  | Some refs =>
    match rac !! (refs_Org refs +:+ "/" +:+ refs_Repo refs) with
    | Some rerun => rerun
    | None => match rac !! refs_Org refs with
              | Some rerun => rerun
              | None => default no_rerun_auth (rac !! "*")
              end
    end
  end.

(** ** ProwJobs *)

Record ReporterConfig := mkReporterConfig { rep_SlackChannel : option string }.
Record JenkinsSpec := mkJenkinsSpec { js_GitHubBranchSourceJob : bool }.

Record ProwJobSpec := mkProwJobSpec {
  spec_Type : ProwJobType; spec_Agent : ProwJobAgent; spec_Cluster : string;
  spec_Namespace : string; spec_Job : string; spec_Refs : option Refs;
  spec_ExtraRefs : list Refs; spec_Report : bool; spec_Context : string;
  spec_RerunCommand : string; spec_MaxConcurrency : Z; spec_ErrorOnEviction : bool;
  spec_PodSpec : option PodSpec; spec_JenkinsSpec : option JenkinsSpec;
  spec_PipelineRunSpec : option PipelineRunSpec;
  spec_DecorationConfig : option DecorationConfig;
  spec_ReporterConfig : option ReporterConfig;
  spec_RerunAuthConfig : option RerunAuthConfig; spec_Hidden : bool }.

Record ProwJobStatus := mkProwJobStatus {
  st_StartTime : Time; st_PendingTime : option Time; st_CompletionTime : option Time;
  st_State : ProwJobState; st_Description : string; st_URL : string;
  st_PodName : string; st_BuildID : string; st_JenkinsBuildID : string;
  st_PrevReportStates : option (gmap string ProwJobState) }.

Record ProwJob := mkProwJob {
  pj_Name : string; pj_Namespace : string;
  pj_Labels : gmap string string; pj_Annotations : gmap string string;
  pj_CreationTimestamp : Time; pj_Spec : ProwJobSpec; pj_Status : ProwJobStatus }.

Definition with_status (pj : ProwJob) (st : ProwJobStatus) : ProwJob :=
  mkProwJob (pj_Name pj) (pj_Namespace pj) (pj_Labels pj) (pj_Annotations pj)
    (pj_CreationTimestamp pj) (pj_Spec pj) st.

(** Assignments to one field of [pj.Status]. *)
Definition set_state (s : ProwJobState) (st : ProwJobStatus) : ProwJobStatus :=
  mkProwJobStatus (st_StartTime st) (st_PendingTime st) (st_CompletionTime st) s
    (st_Description st) (st_URL st) (st_PodName st) (st_BuildID st)
    (st_JenkinsBuildID st) (st_PrevReportStates st).
Definition set_description (d : string) (st : ProwJobStatus) : ProwJobStatus :=
  mkProwJobStatus (st_StartTime st) (st_PendingTime st) (st_CompletionTime st)
    (st_State st) d (st_URL st) (st_PodName st) (st_BuildID st)
    (st_JenkinsBuildID st) (st_PrevReportStates st).
Definition set_completion (t : option Time) (st : ProwJobStatus) : ProwJobStatus :=
  mkProwJobStatus (st_StartTime st) (st_PendingTime st) t (st_State st)
    (st_Description st) (st_URL st) (st_PodName st) (st_BuildID st)
    (st_JenkinsBuildID st) (st_PrevReportStates st).
Definition set_pending_time (t : option Time) (st : ProwJobStatus) : ProwJobStatus :=
  mkProwJobStatus (st_StartTime st) t (st_CompletionTime st) (st_State st)
    (st_Description st) (st_URL st) (st_PodName st) (st_BuildID st)
    (st_JenkinsBuildID st) (st_PrevReportStates st).
Definition set_url (u : string) (st : ProwJobStatus) : ProwJobStatus :=
  mkProwJobStatus (st_StartTime st) (st_PendingTime st) (st_CompletionTime st)
    (st_State st) (st_Description st) u (st_PodName st) (st_BuildID st)
    (st_JenkinsBuildID st) (st_PrevReportStates st).
Definition set_pod (build pod : string) (st : ProwJobStatus) : ProwJobStatus :=
  mkProwJobStatus (st_StartTime st) (st_PendingTime st) (st_CompletionTime st)
    (st_State st) (st_Description st) (st_URL st) pod build
    (st_JenkinsBuildID st) (st_PrevReportStates st).
Definition set_prev_report (m : option (gmap string ProwJobState)) (st : ProwJobStatus)
    : ProwJobStatus :=
  mkProwJobStatus (st_StartTime st) (st_PendingTime st) (st_CompletionTime st)
    (st_State st) (st_Description st) (st_URL st) (st_PodName st) (st_BuildID st)
    (st_JenkinsBuildID st) m.

Definition update_status (f : ProwJobStatus → ProwJobStatus) (pj : ProwJob) : ProwJob :=
  with_status pj (f (pj_Status pj)).

Definition pj_State (pj : ProwJob) : ProwJobState := st_State (pj_Status pj).

Definition Complete (j : ProwJob) : bool :=
  bool_decide (is_Some (st_CompletionTime (pj_Status j))).

(** [now] is what the clock says. *)
Definition SetComplete (now : Time) (j : ProwJob) : ProwJob :=
  update_status (set_completion (Some now)) j.

Definition ClusterAlias (j : ProwJob) : string :=
  if bool_decide (spec_Cluster (pj_Spec j) = "") then DefaultClusterAlias
  else spec_Cluster (pj_Spec j).
