(* ===== verification/JobConfig.v ===== *)
(** * Job configuration (config/jobs.go, config/branch_protection.go: BranchRequirements)

    When a presubmit or postsubmit runs: the branch filter ([Brancher]), the
    changed-file filter ([RegexpChangeMatcher]) and the decision procedure
    [ShouldRun]; presets; validation of utility configs; the static job lookup.

    A compiled [*regexp.Regexp] is only used through [MatchString], and is
    modelled as that predicate; the model starts after the config was loaded, so
    the predicates are those [SetPresubmitRegexes] compiled. *)

From S2P Require Import Prelude Api.
#[local] Open Scope go_scope.

Definition Regexp : Type := string → bool.
Definition no_regexp : Regexp := λ _, false.

Record Brancher := mkBrancher {
  br_SkipBranches : list string; br_Branches : list string;
  br_re : Regexp; br_reSkip : Regexp }.

Record RegexpChangeMatcher := mkRegexpChangeMatcher {
  cm_RunIfChanged : string; cm_reChanges : Regexp }.

Record Reporter := mkReporter { rp_Context : string; rp_SkipReport : bool }.

Record UtilityConfig := mkUtilityConfig {
  uc_Decorate : bool; uc_PathAlias : string; uc_CloneURI : string;
  uc_SkipSubmodules : bool; uc_CloneDepth : Z; uc_ExtraRefs : list Refs;
  uc_DecorationConfig : option DecorationConfig }.

Record JobBase := mkJobBase {
  jb_Name : string; jb_Labels : gmap string string; jb_MaxConcurrency : Z;
  jb_Agent : string; jb_Cluster : string; jb_Namespace : option string;
  jb_ErrorOnEviction : bool; jb_SourcePath : string; jb_Spec : option PodSpec;
  jb_PipelineRunSpec : option PipelineRunSpec;
  jb_Annotations : gmap string string; jb_ReporterConfig : option ReporterConfig;
  jb_RerunAuthConfig : option RerunAuthConfig; jb_Hidden : bool;
  jb_UtilityConfig : UtilityConfig }.

Record Presubmit := mkPresubmit {
  ps_JobBase : JobBase; ps_AlwaysRun : bool; ps_Optional : bool;
  ps_Trigger : string; ps_RerunCommand : string; ps_Brancher : Brancher;
  ps_ChangeMatcher : RegexpChangeMatcher; ps_Reporter : Reporter;
  ps_JenkinsSpec : option JenkinsSpec; ps_re : Regexp }.

Record Postsubmit := mkPostsubmit {
  po_JobBase : JobBase; po_ChangeMatcher : RegexpChangeMatcher;
  po_Brancher : Brancher; po_Reporter : Reporter;
  po_JenkinsSpec : option JenkinsSpec }.

Record Periodic := mkPeriodic {
  pe_JobBase : JobBase; pe_Interval : string; pe_Cron : string;
  pe_Tags : list string; pe_interval : Z }.

Definition ps_Name (p : Presubmit) : string := jb_Name (ps_JobBase p).
Definition ps_Context (p : Presubmit) : string := rp_Context (ps_Reporter p).
Definition ps_SkipReport (p : Presubmit) : bool := rp_SkipReport (ps_Reporter p).

(** [ChangedFilesProvider]: called when, and only when, the files are needed. *)
Definition ChangedFilesProvider : Type := unit → result (list string).

(** ** Branchers *)

Definition RunsAgainstAllBranch (br : Brancher) : bool :=
  match br_SkipBranches br, br_Branches br with [], [] => true | _, _ => false end.

Definition Brancher_ShouldRun (br : Brancher) (branch : string) : bool :=
  if RunsAgainstAllBranch br then true
  else if bool_decide (br_SkipBranches br ≠ []) && br_reSkip br branch then false
  else if bool_decide (br_Branches br = []) || br_re br branch then true
  else false.

(** The body of [Intersects] once neither runs everywhere, with what its last
    line does instead of the self call left to the caller. *)
Definition intersects_body (br other : Brancher) (rest : bool) : bool :=
  match br_Branches br with
  | _ :: _ =>
      let baseBranches := set_of (br_Branches br) in
      match br_Branches other with
      | _ :: _ => bool_decide (baseBranches ∩ set_of (br_Branches other) ≠ ∅)
      | [] => existsb (Brancher_ShouldRun other) (set_list baseBranches)
      end
  | [] =>
      match br_Branches other with
      | [] => true  (* only one Brancher with skip_branches *)
      | _ :: _ => rest
      end
  end.

(** [return other.Intersects(br)] is reached only when [br] has no branches and
    [other] has some, and then does not recur again: two levels are enough. *)
Definition Intersects (br other : Brancher) : bool :=
  if RunsAgainstAllBranch br || RunsAgainstAllBranch other then true
  else intersects_body br other (intersects_body other br false).

(** ** Changed files *)

Definition ChangeMatcher_CouldRun (cm : RegexpChangeMatcher) : bool :=
  bool_decide (cm_RunIfChanged cm ≠ "").

Definition RunsAgainstChanges (cm : RegexpChangeMatcher) (changes : list string) : bool :=
  existsb (cm_reChanges cm) changes.

(** The answer [(determined, shouldRun)], or the provider's error. *)
Definition ChangeMatcher_ShouldRun (cm : RegexpChangeMatcher)
    (changes : ChangedFilesProvider) : result (bool * bool) :=
  if ChangeMatcher_CouldRun cm then
    let? changeList := changes tt in Ok (true, RunsAgainstChanges cm changeList)
  else Ok (false, false).

(** ** Postsubmits and presubmits *)

Definition Postsubmit_CouldRun (ps : Postsubmit) (baseRef : string) : bool :=
  Brancher_ShouldRun (po_Brancher ps) baseRef.

Definition Postsubmit_ShouldRun (ps : Postsubmit) (baseRef : string)
    (changes : ChangedFilesProvider) : result bool :=
  if negb (Postsubmit_CouldRun ps baseRef) then Ok false
  else let? (determined, shouldRun) := ChangeMatcher_ShouldRun (po_ChangeMatcher ps) changes in
    if determined then Ok shouldRun else Ok true.

Definition Presubmit_CouldRun (ps : Presubmit) (baseRef : string) : bool :=
  Brancher_ShouldRun (ps_Brancher ps) baseRef.

Definition Presubmit_ShouldRun (ps : Presubmit) (baseRef : string)
    (changes : ChangedFilesProvider) (forced defaults : bool) : result bool :=
  if negb (Presubmit_CouldRun ps baseRef) then Ok false
  else if ps_AlwaysRun ps then Ok true
  else if forced then Ok true
  else let? (determined, shouldRun) := ChangeMatcher_ShouldRun (ps_ChangeMatcher ps) changes in
    if determined then Ok shouldRun else Ok defaults.

Definition NeedsExplicitTrigger (ps : Presubmit) : bool :=
  negb (ps_AlwaysRun ps) && negb (ChangeMatcher_CouldRun (ps_ChangeMatcher ps)).

Definition TriggersConditionally (ps : Presubmit) : bool :=
  NeedsExplicitTrigger ps || ChangeMatcher_CouldRun (ps_ChangeMatcher ps).

Definition TriggerMatches (ps : Presubmit) (body : string) : bool :=
  bool_decide (ps_Trigger ps ≠ "") && ps_re ps body.

Definition ContextRequired (ps : Presubmit) : bool :=
  negb (ps_Optional ps) && negb (ps_SkipReport ps).

(** [NewGitHubDeferredChangedFilesProvider]: the closure's variable is the state;
    [None] is the nil slice, which is also what an empty change list leaves. *)
Definition deferred_changes (fetch : unit → result (list string))
    (changedFiles : list string) : list string * result (list string) :=
  match changedFiles with
  | _ :: _ => (changedFiles, Ok changedFiles)
  | [] => match wrap_err "error getting pull request changes: %v" (fetch tt) with
          | Err e => ([], Err e)
          | Ok changes => (changes, Ok changes)
          end
  end.

(** ** Required contexts of a branch *)

Definition BranchRequirements (branch : string) (jobs : list Presubmit)
    : list string * list string * list string :=
  foldl (λ '(required, requiredIfPresent, optional) j,
    if negb (Presubmit_CouldRun j branch) then (required, requiredIfPresent, optional)
    else if ContextRequired j then
      if TriggersConditionally j
      then (required, requiredIfPresent ++ [ps_Context j], optional)
      else (required ++ [ps_Context j], requiredIfPresent, optional)
    else (required, requiredIfPresent, optional ++ [ps_Context j]))
  ([], [], []) jobs.

(** ** Static job lookup *)

Record JobConfig := mkJobConfig {
  jc_PresubmitsStatic : gmap string (list Presubmit);
  jc_Postsubmits : gmap string (list Postsubmit);
  jc_Periodics : list Periodic }.

Section static.
Context `{GoRange}.

Definition all_static {A} (m : gmap string (list A)) (repos : list string) : list A :=
  flat_map (λ '(repo, v),
    if bool_decide (repos = []) then v
    else if bool_decide (repo ∈ repos) then v else []) (map_range m).

Definition AllStaticPresubmits (c : JobConfig) (repos : list string) : list Presubmit :=
  all_static (jc_PresubmitsStatic c) repos.
Definition AllPostsubmits (c : JobConfig) (repos : list string) : list Postsubmit :=
  all_static (jc_Postsubmits c) repos.
Definition AllPeriodics (c : JobConfig) : list Periodic := jc_Periodics c.
End static.

(** ** Lemmas *)

Section branch_requirements.
Context (branch : string).
Implicit Types (j : Presubmit) (jobs : list Presubmit).

(** The three classes [BranchRequirements] puts a job in. *)
Definition always_required j : Prop :=
  Presubmit_CouldRun j branch = true ∧ ContextRequired j = true ∧
  TriggersConditionally j = false.
Definition required_if_present j : Prop :=
  Presubmit_CouldRun j branch = true ∧ ContextRequired j = true ∧
  TriggersConditionally j = true.
Definition always_optional j : Prop :=
  Presubmit_CouldRun j branch = true ∧ ContextRequired j = false.

#[export] Instance always_required_dec j : Decision (always_required j).
Proof. unfold always_required. apply _. Defined.
#[export] Instance required_if_present_dec j : Decision (required_if_present j).
Proof. unfold required_if_present. apply _. Defined.
#[export] Instance always_optional_dec j : Decision (always_optional j).
Proof. unfold always_optional. apply _. Defined.

Lemma BranchRequirements_filters jobs :
  BranchRequirements branch jobs =
    (ps_Context <$> filter always_required jobs,
     ps_Context <$> filter required_if_present jobs,
     ps_Context <$> filter always_optional jobs).
Proof.
  unfold BranchRequirements.
  induction jobs as [|j jobs IH] using rev_ind; [done|].
  rewrite foldl_snoc, IH. rewrite !filter_app, !fmap_app, !filter_cons, !filter_nil.
  destruct (Presubmit_CouldRun j branch) eqn:?, (ContextRequired j) eqn:?,
    (TriggersConditionally j) eqn:?; cbn;
    repeat case_decide;
    unfold always_required, required_if_present, always_optional in *;
    cbn; rewrite ?app_nil_r; naive_solver congruence.
Qed.

(** A job that does not trigger conditionally runs whatever the changed files
    are, even if they cannot be fetched. *)
Lemma unconditional_runs j changes forced defaults :
  Presubmit_CouldRun j branch = true → TriggersConditionally j = false →
  Presubmit_ShouldRun j branch changes forced defaults = Ok true.
Proof.
  unfold Presubmit_ShouldRun, TriggersConditionally, NeedsExplicitTrigger.
  intros -> H. cbn. apply orb_false_iff in H as [H1 H2].
  rewrite H2 in H1. cbn in H1. destruct (ps_AlwaysRun j); [done|]. by cbn in H1.
Qed.
End branch_requirements.

Lemma ShouldRun_needs_branch ps baseRef changes forced defaults :
  Presubmit_ShouldRun ps baseRef changes forced defaults = Ok true →
  Presubmit_CouldRun ps baseRef = true.
Proof. unfold Presubmit_ShouldRun. by destruct (Presubmit_CouldRun ps baseRef). Qed.

Lemma RunsAgainstAllBranch_ShouldRun br branch :
  RunsAgainstAllBranch br = true → Brancher_ShouldRun br branch = true.
Proof. unfold Brancher_ShouldRun. by intros ->. Qed.

#[export] Hint Resolve unconditional_runs ShouldRun_needs_branch
  RunsAgainstAllBranch_ShouldRun : prow.

(** ** Properties *)

(** A job may not both always run and name the files it runs for
    (config.go: validatePresubmits). *)
Definition run_modes_exclusive (j : Presubmit) : Prop :=
  ps_AlwaysRun j = true → ChangeMatcher_CouldRun (ps_ChangeMatcher j) = false.

(** A context that [BranchRequirements] reports as required, and which
    therefore must be present for a merge, is that of a non-optional, reporting
    job that runs on every pull request against the branch, whatever files
    change and even when the change list cannot be fetched; and all such
    contexts are reported. *)
Theorem BranchRequirements_required branch jobs required ifPresent optional c :
  Forall run_modes_exclusive jobs →
  BranchRequirements branch jobs = (required, ifPresent, optional) →
  c ∈ required ↔
  ∃ j, j ∈ jobs ∧ ps_Context j = c ∧ ContextRequired j = true ∧
       (∀ changes forced defaults,
          Presubmit_ShouldRun j branch changes forced defaults = Ok true).
Proof.
  intros Hex. rewrite BranchRequirements_filters. intros [= <- _ _].
  rewrite list_elem_of_fmap. setoid_rewrite list_elem_of_filter.
  unfold always_required. split.
  - intros (j & -> & (Hb & Hc & Ht) & Hj). exists j. auto with prow.
  - intros (j & Hj & <- & Hc & Hrun). exists j. split; [done|]. split; [|done].
    pose proof (Hrun (λ _, Err (errors_New "no changes")) false false) as Hr.
    split; [by eauto with prow|]. split; [done|].
    rewrite Forall_forall in Hex. specialize (Hex j Hj).
    unfold Presubmit_ShouldRun, ChangeMatcher_ShouldRun, run_modes_exclusive in *.
    unfold TriggersConditionally, NeedsExplicitTrigger.
    destruct (Presubmit_CouldRun j branch), (ps_AlwaysRun j),
      (ChangeMatcher_CouldRun (ps_ChangeMatcher j)); cbn in *; naive_solver.
Qed.

(** [Intersects] is symmetric, although its cases are not. *)
Lemma Intersects_sym br other : Intersects br other = Intersects other br.
Proof.
  unfold Intersects, intersects_body.
  destruct br as [sk bs re rs], other as [sk' bs' re' rs']; cbn.
  rewrite (orb_comm (RunsAgainstAllBranch _)).
  case_match; [done|].
  destruct bs as [|b bs], bs' as [|b' bs']; try done.
  apply bool_decide_ext. by rewrite (comm_L (∩)).
Qed.

(** The branch patterns are plain branch names. *)
Definition literal_branches (br : Brancher) : Prop :=
  ∀ b, br_re br b = true → b ∈ br_Branches br.

Lemma ShouldRun_literal br b :
  literal_branches br → br_Branches br ≠ [] → Brancher_ShouldRun br b = true →
  b ∈ br_Branches br.
Proof.
  unfold Brancher_ShouldRun. intros Hlit Hne Hrun.
  assert (RunsAgainstAllBranch br = false) as Hall.
  { unfold RunsAgainstAllBranch. by destruct (br_SkipBranches br), (br_Branches br). }
  rewrite Hall, (bool_decide_false (br_Branches br = [])) in Hrun by done. cbn in Hrun.
  case_match; [done|]. apply Hlit. by destruct (br_re br b).
Qed.

(** With plain branch names, two branchers for which [Intersects] answers
    "no" never both run on one branch: no branch is missed. *)
Theorem Intersects_complete br other branch :
  literal_branches br → literal_branches other →
  Brancher_ShouldRun br branch = true → Brancher_ShouldRun other branch = true →
  Intersects br other = true.
Proof.
  intros L1 L2 S1 S2. unfold Intersects, intersects_body.
  case_match; [done|].
  destruct (br_Branches br) as [|b1 bs1] eqn:E1, (br_Branches other) as [|b2 bs2] eqn:E2;
    try done.
  - apply existsb_exists. exists branch. split; [|done].
    apply list_elem_of_In, elem_of_set_list, elem_of_set_of. rewrite <-E2.
    apply ShouldRun_literal; [done | congruence | done].
  - apply existsb_exists. exists branch. split; [|done].
    apply list_elem_of_In, elem_of_set_list, elem_of_set_of. rewrite <-E1.
    apply ShouldRun_literal; [done | congruence | done].
  - apply bool_decide_eq_true. intros Hemp.
    apply (not_elem_of_empty (C:=gset string) branch). rewrite <-Hemp.
    apply elem_of_intersection. rewrite !elem_of_set_of, <-E1, <-E2.
    split; apply ShouldRun_literal; (done || congruence).
Qed.
