(* ===== verification/BranchProtection.v ===== *)
(** * Branch protection policies (config/branch_protection.go)

    Policies are given for the whole instance, per org, per repo and per branch,
    and [Apply] merges a child into its parent.  A Go slice that the code
    compares with [nil] is an [option (list string)].  Merged lists are sorted
    sets, unmerged ones are kept as written, so the laws of [Apply] hold up to
    the order and repetition of list entries: the equivalence [≡] below. *)

From S2P Require Import Prelude Api JobConfig.
From Stdlib Require Import Setoid Morphisms.
#[local] Open Scope go_scope.

Record ContextPolicy := mkContextPolicy {
  cp_Contexts : option (list string); cp_Strict : option bool }.

Record Restrictions := mkRestrictions {
  rs_Users : option (list string); rs_Teams : option (list string) }.

Record ReviewPolicy := mkReviewPolicy {
  rv_DismissalRestrictions : option Restrictions; rv_DismissStale : option bool;
  rv_RequireOwners : option bool; rv_Approvals : option Z }.

Record Policy := mkPolicy {
  p_Protect : option bool; p_RequiredStatusChecks : option ContextPolicy;
  p_Admins : option bool; p_Restrictions : option Restrictions;
  p_RequiredPullRequestReviews : option ReviewPolicy;
  p_Exclude : option (list string) }.

Definition empty_policy : Policy := mkPolicy None None None None None None.

Definition set_protect (b : option bool) (p : Policy) : Policy :=
  mkPolicy b (p_RequiredStatusChecks p) (p_Admins p) (p_Restrictions p)
    (p_RequiredPullRequestReviews p) (p_Exclude p).

Definition policy_defined (p : Policy) : bool :=
  bool_decide (is_Some (p_Protect p)) || bool_decide (is_Some (p_RequiredStatusChecks p)) ||
  bool_decide (is_Some (p_Admins p)) || bool_decide (is_Some (p_Restrictions p)) ||
  bool_decide (is_Some (p_RequiredPullRequestReviews p)).

(** ** Merging *)

Definition selectInt (parent child : option Z) : option Z :=
  match child with Some _ => child | None => parent end.

Definition selectBool (parent child : option bool) : option bool :=
  match child with Some _ => child | None => parent end.

Definition unionStrings (parent child : option (list string)) : option (list string) :=
  match child, parent with
  | None, _ => parent
  | Some _, None => child
  | Some c, Some p => Some (set_list (set_of p ∪ set_of c))
  end.

Definition mergeContextPolicy (parent child : option ContextPolicy) : option ContextPolicy :=
  match child, parent with
  | None, _ => parent
  | Some _, None => child
  | Some c, Some p => Some (mkContextPolicy
      (unionStrings (cp_Contexts p) (cp_Contexts c)) (selectBool (cp_Strict p) (cp_Strict c)))
  end.

Definition mergeRestrictions (parent child : option Restrictions) : option Restrictions :=
  match child, parent with
  | None, _ => parent
  | Some _, None => child
  | Some c, Some p => Some (mkRestrictions
      (unionStrings (rs_Users p) (rs_Users c)) (unionStrings (rs_Teams p) (rs_Teams c)))
  end.

Definition mergeReviewPolicy (parent child : option ReviewPolicy) : option ReviewPolicy :=
  match child, parent with
  | None, _ => parent
  | Some _, None => child
  | Some c, Some p => Some (mkReviewPolicy
      (mergeRestrictions (rv_DismissalRestrictions p) (rv_DismissalRestrictions c))
      (selectBool (rv_DismissStale p) (rv_DismissStale c))
      (selectBool (rv_RequireOwners p) (rv_RequireOwners c))
      (selectInt (rv_Approvals p) (rv_Approvals c)))
  end.

Definition Apply (p child : Policy) : Policy := mkPolicy
  (selectBool (p_Protect p) (p_Protect child))
  (mergeContextPolicy (p_RequiredStatusChecks p) (p_RequiredStatusChecks child))
  (selectBool (p_Admins p) (p_Admins child))
  (mergeRestrictions (p_Restrictions p) (p_Restrictions child))
  (mergeReviewPolicy (p_RequiredPullRequestReviews p) (p_RequiredPullRequestReviews child))
  (unionStrings (p_Exclude p) (p_Exclude child)).

(** ** The configured tree *)

Record Repo := mkRepo { r_Policy : Policy; r_Branches : gmap string Policy }.
Record Org := mkOrg { o_Policy : Policy; o_Repos : gmap string Repo }.

Record BranchProtection := mkBranchProtection {
  bp_Policy : Policy; bp_ProtectTested : bool; bp_Orgs : gmap string Org;
  bp_AllowDisabledPolicies : bool; bp_AllowDisabledJobPolicies : bool }.

Definition GetOrg (bp : BranchProtection) (name : string) : Org :=
  match bp_Orgs bp !! name with
  | Some o => mkOrg (Apply (bp_Policy bp) (o_Policy o)) (o_Repos o)
  | None => mkOrg (bp_Policy bp) ∅
  end.

Definition GetRepo (o : Org) (name : string) : Repo :=
  match o_Repos o !! name with
  | Some r => mkRepo (Apply (o_Policy o) (r_Policy r)) (r_Branches r)
  | None => mkRepo (o_Policy o) ∅
  end.

Definition GetBranch (r : Repo) (name : string) : result Policy :=
  match r_Branches r !! name with
  | Some b =>
      let merged := Apply (r_Policy r) b in
      if bool_decide (p_Protect merged = None)
      then Err (errors_New "defined branch policies must set protect")
      else Ok merged
  | None => Ok (r_Policy r)
  end.

Definition is_disabled (p : Policy) : bool := bool_decide (p_Protect p = Some false).

(** The last part of [GetPolicy], after the presubmits were merged in. *)
Definition check_disabled (bp : BranchProtection) (org repo branch : string) (policy : Policy)
    : result (option Policy) :=
  if is_disabled policy && policy_defined (set_protect None policy)
     && negb (bp_AllowDisabledPolicies bp)
  then Err (Errorf "%s/%s=%s defines a policy, which requires protect: true"
              [AStr org; AStr repo; AStr branch])
  else if negb (policy_defined policy) then Ok None
  else Ok (Some policy).

Definition GetPolicy (bp : BranchProtection) (org repo branch : string) (b : Policy)
    (presubmits : list Presubmit) : result (option Policy) :=
  match (BranchRequirements branch presubmits).1.1 with
  | [] => check_disabled bp org repo branch b
  | prowContexts =>
      if is_disabled b then
        if bp_AllowDisabledJobPolicies bp then Ok None
        else Err (errors_New "required prow jobs require branch protection")
      else
        let ps := mkPolicy (if bp_ProtectTested bp then Some true else None)
                    (Some (mkContextPolicy (Some prowContexts) None)) None None None None in
        check_disabled bp org repo branch (Apply b ps)
  end.

Definition GetBranchProtection (bp : BranchProtection) (org repo branch : string)
    (presubmits : list Presubmit) : result (option Policy) :=
  match bp_Orgs bp !! org with
  | None => Ok None
  | Some _ =>
      let? b := GetBranch (GetRepo (GetOrg bp org) repo) branch in
      GetPolicy bp org repo branch b presubmits
  end.

Definition isUnprotected (policy : Policy) (allowDisabledPolicies : bool) : bool :=
  allowDisabledPolicies && is_disabled policy && policy_defined (set_protect None policy).

Section warnings.
Context `{GoRange} (bp : BranchProtection).

Definition reposWithDisabledPolicy : list string :=
  set_list (set_of (flat_map (λ '(orgName, org), flat_map (λ '(repoName, _),
    let repoPolicy := GetRepo (GetOrg bp orgName) repoName in
    if isUnprotected (r_Policy repoPolicy) (bp_AllowDisabledPolicies bp)
    then [orgName +:+ "/" +:+ repoName] else [])
    (map_range (o_Repos org))) (map_range (bp_Orgs bp)))).

Definition branch_unprotected (orgName repoName branchName : string) : bool :=
  match GetBranch (GetRepo (GetOrg bp orgName) repoName) branchName with
  | Err _ => false
  | Ok b => match GetPolicy bp orgName repoName branchName b [] with
            | Ok (Some policy) => isUnprotected policy (bp_AllowDisabledPolicies bp)
            | _ => false
            end
  end.

Definition unprotectedBranches : list string :=
  set_list (set_of (flat_map (λ '(orgName, org), flat_map (λ '(repoName, repo),
    let branches := set_of (filter (λ b, branch_unprotected orgName repoName b = true)
                              (map_range (r_Branches repo)).*1) in
    if bool_decide (branches = ∅) then []
    else [orgName +:+ "/" +:+ repoName +:+ "=" +:+ string_join "," (set_list branches)])
    (map_range (o_Repos org))) (map_range (bp_Orgs bp)))).
End warnings.

(** ** Abstract policies: lists forgotten to sets

    [abs_policy] forgets order and repetition.  [Apply] is a refinement of
    [abs_apply], which is built from one combinator and therefore a monoid. *)

Definition merge_opt {A} (f : A → A → A) (p c : option A) : option A :=
  match p, c with
  | None, _ => c
  | _, None => p
  | Some x, Some y => Some (f x y)
  end.

Section merge_opt.
Context {A : Type} (f : A → A → A).

#[export] Instance merge_opt_assoc `{!Assoc (=) f} : Assoc (=) (merge_opt f).
Proof. intros [x|] [y|] [z|]; cbn; try done. by rewrite (assoc_L f). Qed.
#[export] Instance merge_opt_left_id : LeftId (=) None (merge_opt f).
Proof. by intros [x|]. Qed.
#[export] Instance merge_opt_right_id : RightId (=) None (merge_opt f).
Proof. by intros [x|]. Qed.
Lemma merge_opt_idemp (Hf : ∀ x, f x x = x) x : merge_opt f x x = x.
Proof. destruct x; cbn; by rewrite ?Hf. Qed.
End merge_opt.

Definition last_wins {A} (x y : A) : A := y.
#[export] Instance last_wins_assoc {A} : Assoc (=) (@last_wins A).
Proof. by intros x y z. Qed.

Definition aset : Type := option (gset string).
Definition union_set : aset → aset → aset := merge_opt (∪).
#[export] Instance union_set_assoc : Assoc (=) union_set.
Proof. apply merge_opt_assoc. apply _. Qed.

Definition actx : Type := aset * option bool.
Definition merge_actx (p c : actx) : actx :=
  (union_set p.1 c.1, merge_opt last_wins p.2 c.2).
Definition arestr : Type := aset * aset.
Definition merge_arestr (p c : arestr) : arestr := (union_set p.1 c.1, union_set p.2 c.2).
Definition areview : Type := option arestr * option bool * option bool * option Z.
Definition merge_areview (p c : areview) : areview :=
  (merge_opt merge_arestr p.1.1.1 c.1.1.1, merge_opt last_wins p.1.1.2 c.1.1.2,
   merge_opt last_wins p.1.2 c.1.2, merge_opt last_wins p.2 c.2).

Ltac split_pairs := repeat match goal with |- (_, _) = (_, _) => f_equal end.

#[export] Instance merge_actx_assoc : Assoc (=) merge_actx.
Proof. intros x y z. unfold merge_actx; cbn. f_equal; apply (assoc_L _). Qed.
#[export] Instance merge_arestr_assoc : Assoc (=) merge_arestr.
Proof. intros x y z. unfold merge_arestr; cbn. f_equal; apply (assoc_L _). Qed.
#[export] Instance merge_areview_assoc : Assoc (=) merge_areview.
Proof. intros x y z. unfold merge_areview; cbn. split_pairs; apply (assoc_L _). Qed.

Definition apolicy : Type :=
  option bool * option actx * option bool * option arestr * option areview * aset.

Definition abs_apply (p c : apolicy) : apolicy :=
  let '(p1, p2, p3, p4, p5, p6) := p in
  let '(c1, c2, c3, c4, c5, c6) := c in
  (merge_opt last_wins p1 c1, merge_opt merge_actx p2 c2, merge_opt last_wins p3 c3,
   merge_opt merge_arestr p4 c4, merge_opt merge_areview p5 c5, union_set p6 c6).

#[export] Instance abs_apply_assoc : Assoc (=) abs_apply.
Proof.
  intros [[[[[??]?]?]?]?] [[[[[??]?]?]?]?] [[[[[??]?]?]?]?]; cbn.
  split_pairs; apply (assoc_L _).
Qed.

Definition abs_strs (l : option (list string)) : aset := set_of <$> l.
Definition abs_ctx (c : ContextPolicy) : actx := (abs_strs (cp_Contexts c), cp_Strict c).
Definition abs_restr (r : Restrictions) : arestr :=
  (abs_strs (rs_Users r), abs_strs (rs_Teams r)).
Definition abs_review (r : ReviewPolicy) : areview :=
  (abs_restr <$> rv_DismissalRestrictions r, rv_DismissStale r, rv_RequireOwners r,
   rv_Approvals r).
Definition abs_policy (p : Policy) : apolicy :=
  (p_Protect p, abs_ctx <$> p_RequiredStatusChecks p, p_Admins p,
   abs_restr <$> p_Restrictions p, abs_review <$> p_RequiredPullRequestReviews p,
   abs_strs (p_Exclude p)).

Lemma selectBool_merge p c : selectBool p c = merge_opt last_wins p c.
Proof. by destruct p, c. Qed.
Lemma selectInt_merge p c : selectInt p c = merge_opt last_wins p c.
Proof. by destruct p, c. Qed.

Lemma abs_unionStrings p c :
  abs_strs (unionStrings p c) = union_set (abs_strs p) (abs_strs c).
Proof. destruct p, c; cbn; [|done..]. unfold abs_strs. cbn. by rewrite set_of_set_list. Qed.

Lemma abs_mergeContextPolicy p c :
  abs_ctx <$> mergeContextPolicy p c = merge_opt merge_actx (abs_ctx <$> p) (abs_ctx <$> c).
Proof.
  destruct p, c; cbn; [|done..]. unfold abs_ctx, merge_actx. cbn.
  by rewrite abs_unionStrings, selectBool_merge.
Qed.

Lemma abs_mergeRestrictions p c :
  abs_restr <$> mergeRestrictions p c
  = merge_opt merge_arestr (abs_restr <$> p) (abs_restr <$> c).
Proof.
  destruct p, c; cbn; [|done..]. unfold abs_restr, merge_arestr. cbn.
  by rewrite !abs_unionStrings.
Qed.

Lemma abs_mergeReviewPolicy p c :
  abs_review <$> mergeReviewPolicy p c
  = merge_opt merge_areview (abs_review <$> p) (abs_review <$> c).
Proof.
  destruct p, c; cbn; [|done..]. unfold abs_review, merge_areview. cbn.
  by rewrite abs_mergeRestrictions, !selectBool_merge, selectInt_merge.
Qed.

Lemma abs_Apply p c : abs_policy (Apply p c) = abs_apply (abs_policy p) (abs_policy c).
Proof.
  unfold abs_policy, Apply. cbn.
  by rewrite !selectBool_merge, abs_mergeContextPolicy, abs_mergeRestrictions,
    abs_mergeReviewPolicy, abs_unionStrings.
Qed.
#[export] Hint Rewrite abs_Apply abs_unionStrings : prow.

(** Policies that differ only in the order and repetition of list entries. *)
#[export] Instance policy_equiv : Equiv Policy := λ p q, abs_policy p = abs_policy q.
Lemma policy_equiv_abs (p q : Policy) : p ≡ q ↔ abs_policy p = abs_policy q.
Proof. done. Qed.

#[export] Instance policy_equivalence : Equivalence (≡@{Policy}).
Proof. split; repeat intro; rewrite policy_equiv_abs in *; congruence. Qed.

#[export] Instance Apply_proper :
  Proper ((≡@{Policy}) ==> (≡@{Policy}) ==> (≡@{Policy})) Apply.
Proof.
  intros p p' Hp q q' Hq. rewrite policy_equiv_abs in *. by rewrite !abs_Apply, Hp, Hq.
Qed.

#[export] Instance Apply_assoc : Assoc (≡@{Policy}) Apply.
Proof. intros p q r. rewrite policy_equiv_abs, !abs_Apply. apply (assoc_L _). Qed.

Lemma Apply_empty_l p : Apply empty_policy p ≡ p.
Proof. rewrite policy_equiv_abs, abs_Apply. by destruct p as [[] [] [] [] [] []]. Qed.

Lemma Apply_empty_r p : Apply p empty_policy ≡ p.
Proof. rewrite policy_equiv_abs, abs_Apply. by destruct p as [[] [] [] [] [] []]. Qed.

Lemma policy_equiv_inv (p q : Policy) :
  p ≡ q →
  p_Protect p = p_Protect q ∧
  abs_ctx <$> p_RequiredStatusChecks p = abs_ctx <$> p_RequiredStatusChecks q ∧
  p_Admins p = p_Admins q ∧
  abs_restr <$> p_Restrictions p = abs_restr <$> p_Restrictions q ∧
  abs_review <$> p_RequiredPullRequestReviews p
    = abs_review <$> p_RequiredPullRequestReviews q.
Proof. rewrite policy_equiv_abs. unfold abs_policy. by intros [= -> -> -> -> -> _]. Qed.

Lemma fmap_is_Some_eq {A B} (f : A → B) (x y : option A) :
  f <$> x = f <$> y → bool_decide (is_Some x) = bool_decide (is_Some y).
Proof. by destruct x, y. Qed.

#[export] Instance policy_defined_proper : Proper ((≡@{Policy}) ==> (=)) policy_defined.
Proof.
  intros p q (E1 & E2 & E3 & E4 & E5)%policy_equiv_inv. unfold policy_defined.
  by rewrite E1, E3, (fmap_is_Some_eq _ _ _ E2), (fmap_is_Some_eq _ _ _ E4),
    (fmap_is_Some_eq _ _ _ E5).
Qed.

#[export] Instance is_disabled_proper : Proper ((≡@{Policy}) ==> (=)) is_disabled.
Proof. intros p q (E1 & _)%policy_equiv_inv. unfold is_disabled. by rewrite E1. Qed.

(** The contexts a policy requires. *)
Definition contexts_of (p : Policy) : gset string :=
  match p_RequiredStatusChecks p with
  | Some c => set_of (default [] (cp_Contexts c))
  | None => ∅
  end.

Lemma contexts_of_Apply p q : contexts_of (Apply p q) = contexts_of p ∪ contexts_of q.
Proof.
  unfold contexts_of, Apply. cbn.
  destruct (p_RequiredStatusChecks p) as [[[l|] ?]|],
    (p_RequiredStatusChecks q) as [[[l'|] ?]|]; cbn;
    rewrite ?set_of_set_list; set_solver.
Qed.

Lemma contexts_of_abs p :
  contexts_of p = from_option (λ a : actx, default ∅ a.1) ∅ (abs_ctx <$> p_RequiredStatusChecks p).
Proof. unfold contexts_of. by destruct (p_RequiredStatusChecks p) as [[[l|] ?]|]. Qed.

#[export] Instance contexts_of_proper : Proper ((≡@{Policy}) ==> (=)) contexts_of.
Proof. intros p q (_ & E & _)%policy_equiv_inv. by rewrite !contexts_of_abs, E. Qed.

(** The policies the configuration gives at each level; a level that is not
    configured contributes nothing. *)
Section levels.
Context (bp : BranchProtection) (org repo branch : string).

Definition org_level : Policy :=
  from_option o_Policy empty_policy (bp_Orgs bp !! org).
Definition repo_level : Policy :=
  from_option r_Policy empty_policy (bp_Orgs bp !! org ≫= λ o, o_Repos o !! repo).
Definition branch_level : Policy :=
  default empty_policy
    (bp_Orgs bp !! org ≫= λ o, o_Repos o !! repo ≫= λ r, r_Branches r !! branch).

Lemma GetOrg_level :
  o_Policy (GetOrg bp org) ≡ Apply (bp_Policy bp) org_level.
Proof.
  unfold GetOrg, org_level. destruct (bp_Orgs bp !! org); cbn; [done|].
  by rewrite Apply_empty_r.
Qed.

Lemma GetRepo_level :
  r_Policy (GetRepo (GetOrg bp org) repo)
  ≡ Apply (Apply (bp_Policy bp) org_level) repo_level.
Proof.
  unfold repo_level. rewrite <-GetOrg_level. unfold GetRepo, GetOrg.
  destruct (bp_Orgs bp !! org) as [o|]; cbn; [|by rewrite lookup_empty, Apply_empty_r].
  destruct (o_Repos o !! repo) as [r|]; cbn; [done|]. by rewrite Apply_empty_r.
Qed.

Lemma GetBranch_level p :
  GetBranch (GetRepo (GetOrg bp org) repo) branch = Ok p →
  p ≡ Apply (Apply (Apply (bp_Policy bp) org_level) repo_level) branch_level ∧
  (p_Protect p = None → branch_level = empty_policy).
Proof.
  unfold branch_level, GetBranch. rewrite <-GetRepo_level. unfold GetRepo, GetOrg.
  destruct (bp_Orgs bp !! org) as [o|]; cbn; rewrite ?lookup_empty; cbn;
    [|intros [= <-]; by rewrite Apply_empty_r].
  destruct (o_Repos o !! repo) as [r|]; cbn; rewrite ?lookup_empty; cbn;
    [|intros [= <-]; by rewrite Apply_empty_r].
  destruct (r_Branches r !! branch) as [b|]; cbn;
    [|intros [= <-]; by rewrite Apply_empty_r].
  case_bool_decide; [done|]. intros [= <-]. done.
Qed.
End levels.

Lemma check_disabled_Some bp org repo branch p q :
  check_disabled bp org repo branch p = Ok (Some q) →
  q = p ∧ policy_defined p = true ∧
  (is_disabled p = true →
     bp_AllowDisabledPolicies bp = true ∨ policy_defined (set_protect None p) = false).
Proof.
  unfold check_disabled. case_match eqn:E; [done|]. case_match eqn:E2; [done|].
  intros [= <-]. apply negb_false_iff in E2. repeat split; [done|]. intros Hd.
  rewrite Hd in E. cbn in E. destruct (policy_defined (set_protect None p)); [|by right].
  left. by destruct (bp_AllowDisabledPolicies bp).
Qed.

Definition prow_contexts (branch : string) (presubmits : list Presubmit) : list string :=
  (BranchRequirements branch presubmits).1.1.

Lemma GetPolicy_Some bp org repo branch b presubmits q :
  GetPolicy bp org repo branch b presubmits = Ok (Some q) →
  contexts_of q = contexts_of b ∪ set_of (prow_contexts branch presubmits) ∧
  policy_defined q = true ∧
  (is_disabled q = true →
     prow_contexts branch presubmits = [] ∧
     (bp_AllowDisabledPolicies bp = true ∨ policy_defined (set_protect None q) = false)).
Proof.
  unfold GetPolicy, prow_contexts.
  destruct (BranchRequirements branch presubmits).1.1 as [|c cs].
  { intros (-> & ? & ?)%check_disabled_Some. repeat split; auto. set_solver. }
  destruct (is_disabled b) eqn:Hb; [by destruct (bp_AllowDisabledJobPolicies bp)|].
  intros (-> & Hdef & Hdis)%check_disabled_Some. rewrite contexts_of_Apply.
  split; [done|]. split; [done|]. intros Hd. exfalso. revert Hd Hb.
  unfold is_disabled, Apply. cbn. destruct (bp_ProtectTested bp); [by destruct (p_Protect b)|].
  cbn. by intros -> .
Qed.

(** ** Properties *)

(** The policies that concern a branch, the most specific first: of its required jobs, the
    branch itself, its repository, its organization and the whole instance. *)
Definition configured (bp : BranchProtection) (org repo branch : string) : list Policy :=
  option_list (bp_Orgs bp !! org ≫= λ o, o_Repos o !! repo ≫= λ r, r_Branches r !! branch) ++
  option_list (bp_Orgs bp !! org ≫= λ o, r_Policy <$> o_Repos o !! repo) ++
  option_list (o_Policy <$> bp_Orgs bp !! org) ++ [bp_Policy bp].

Definition required_jobs (branch : string) (presubmits : list Presubmit) : list string :=
  ps_Context <$> filter (always_required branch) presubmits.

Definition job_policy (bp : BranchProtection) (contexts : list string) : list Policy :=
  match contexts with
  | [] => []
  | _ => [mkPolicy (if bp_ProtectTested bp then Some true else None)
            (Some (mkContextPolicy (Some contexts) None)) None None None None]
  end.

Definition set_by {A} (f : Policy → option A) (levels : list Policy) : Prop :=
  ∃ p, p ∈ levels ∧ is_Some (f p).
Definition decided {A} (f : Policy → option A) (levels : list Policy) : option A := head (omap f levels).
Definition joined (f : Policy → option (list string)) (levels : list Policy) (q : Policy) : Prop :=
  (is_Some (f q) ↔ set_by f levels) ∧
  ∀ s, s ∈ default [] (f q) ↔ ∃ p, p ∈ levels ∧ s ∈ default [] (f p).

Definition f_strict p := p_RequiredStatusChecks p ≫= cp_Strict.
Definition f_contexts p := p_RequiredStatusChecks p ≫= cp_Contexts.
Definition f_users p := p_Restrictions p ≫= rs_Users.
Definition f_teams p := p_Restrictions p ≫= rs_Teams.
Definition f_dismissers p := p_RequiredPullRequestReviews p ≫= rv_DismissalRestrictions.
Definition f_dismiss_users p := f_dismissers p ≫= rs_Users.
Definition f_dismiss_teams p := f_dismissers p ≫= rs_Teams.
Definition f_stale p := p_RequiredPullRequestReviews p ≫= rv_DismissStale.
Definition f_owners p := p_RequiredPullRequestReviews p ≫= rv_RequireOwners.
Definition f_approvals p := p_RequiredPullRequestReviews p ≫= rv_Approvals.

(** The first level that sets a flag or number decides it; the lists of all levels are
    joined; and nothing is set that no level sets. *)
Record merged (levels : list Policy) (q : Policy) : Prop := mkMerged {
  m_protect : p_Protect q = decided p_Protect levels;
  m_admins : p_Admins q = decided p_Admins levels;
  m_strict : f_strict q = decided f_strict levels;
  m_stale : f_stale q = decided f_stale levels;
  m_owners : f_owners q = decided f_owners levels;
  m_approvals : f_approvals q = decided f_approvals levels;
  m_contexts : joined f_contexts levels q;
  m_users : joined f_users levels q;
  m_teams : joined f_teams levels q;
  m_dismiss_users : joined f_dismiss_users levels q;
  m_dismiss_teams : joined f_dismiss_teams levels q;
  m_exclude : joined p_Exclude levels q;
  m_checks : is_Some (p_RequiredStatusChecks q) ↔ set_by p_RequiredStatusChecks levels;
  m_restrictions : is_Some (p_Restrictions q) ↔ set_by p_Restrictions levels;
  m_reviews : is_Some (p_RequiredPullRequestReviews q) ↔ set_by p_RequiredPullRequestReviews levels;
  m_dismissers : is_Some (f_dismissers q) ↔ set_by f_dismissers levels }.

(** A level asks for more than being protected or not. *)
Definition asks_more (levels : list Policy) : Prop :=
  set_by p_RequiredStatusChecks levels ∨ set_by p_Admins levels ∨ set_by p_Restrictions levels ∨
  set_by p_RequiredPullRequestReviews levels.

(** *** Merging one more level *)

Lemma set_by_cons {A} (f : Policy → option A) c levels :
  set_by f (c :: levels) ↔ is_Some (f c) ∨ set_by f levels.
Proof. unfold set_by. setoid_rewrite elem_of_cons. naive_solver. Qed.

Lemma decided_cons {A} (f : Policy → option A) c levels :
  decided f (c :: levels) = match f c with Some x => Some x | None => decided f levels end.
Proof. unfold decided. cbn. by destruct (f c). Qed.

Lemma joined_cons f c levels p q :
  joined f levels p →
  (is_Some (f q) ↔ is_Some (f c) ∨ is_Some (f p)) →
  (∀ s, s ∈ default [] (f q) ↔ s ∈ default [] (f c) ∨ s ∈ default [] (f p)) →
  joined f (c :: levels) q.
Proof.
  intros [H1 H2] H3 H4. split; [by rewrite H3, H1, set_by_cons|].
  intros s. rewrite H4, H2. setoid_rewrite elem_of_cons. naive_solver.
Qed.

Lemma set_union_elem s (l l' : list string) : s ∈ set_list (set_of l ∪ set_of l') ↔ s ∈ l' ∨ s ∈ l.
Proof. rewrite elem_of_set_list, elem_of_union, !elem_of_set_of. tauto. Qed.

Lemma unionStrings_elem p c s :
  s ∈ default [] (unionStrings p c) ↔ s ∈ default [] c ∨ s ∈ default [] p.
Proof. destruct p, c; cbn; rewrite ?set_union_elem, ?elem_of_nil; tauto. Qed.
Lemma unionStrings_some p c : is_Some (unionStrings p c) ↔ is_Some c ∨ is_Some p.
Proof. destruct p, c; cbn; rewrite ?is_Some_alt; naive_solver. Qed.

Ltac fields p c := unfold f_strict, f_contexts, f_users, f_teams, f_dismiss_users, f_dismiss_teams, f_dismissers,
    f_stale, f_owners, f_approvals, Apply;
  destruct p as [? [[]|] ? [[]|] [[[[]|] ? ? ?]|] ?], c as [? [[]|] ? [[]|] [[[[]|] ? ? ?]|] ?];
  cbn -[unionStrings]; rewrite ?unionStrings_some, ?unionStrings_elem, ?is_Some_alt, ?elem_of_nil;
  unfold selectBool, selectInt; repeat case_match; naive_solver.

Lemma merged_Apply levels p c : merged levels p → merged (c :: levels) (Apply p c).
Proof.
  intros [H1 H2 H3 H4 H5 H6 H7 H8 H9 H10 H11 H12 H13 H14 H15 H16].
  split; rewrite ?decided_cons, ?set_by_cons;
    rewrite <- ?H1, <- ?H2, <- ?H3, <- ?H4, <- ?H5, <- ?H6, <- ?H13, <- ?H14, <- ?H15, <- ?H16;
    clear - H7 H8 H9 H10 H11 H12.
  1-6, 13-16: fields p c.
  all: eapply joined_cons; [eassumption|clear..]; [|intros s]; fields p c.
Qed.

Lemma merged_one p : merged [p] p.
Proof.
  assert (∀ A (f : Policy → option A), decided f [p] = f p) as Hd by (intros A f; rewrite decided_cons; by destruct (f p)).
  assert (∀ A (f : Policy → option A), is_Some (f p) ↔ set_by f [p]) as Hs.
  { intros A f. rewrite set_by_cons. unfold set_by. set_solver. }
  assert (∀ f, joined f [p] p) as Hj by (intros f; split; [apply Hs|set_solver]).
  split; by rewrite ?Hd.
Qed.

Lemma GetBranch_merged bp org repo branch :
  let levels := configured bp org repo branch in
  let listed := is_Some (bp_Orgs bp !! org ≫= λ o, o_Repos o !! repo ≫= λ r, r_Branches r !! branch) in
  match GetBranch (GetRepo (GetOrg bp org) repo) branch with
  | Err _ => listed ∧ decided p_Protect levels = None
  | Ok p => merged levels p ∧ (listed → decided p_Protect levels ≠ None)
  end.
Proof.
  cbn zeta. unfold GetBranch, GetRepo, GetOrg, configured.
  destruct (bp_Orgs bp !! org) as [o|]; cbn; rewrite ?lookup_empty; cbn; [|split; [apply merged_one|by intros []]].
  assert (merged [o_Policy o; bp_Policy bp] (Apply (bp_Policy bp) (o_Policy o))) as Ho
    by apply merged_Apply, merged_one.
  destruct (o_Repos o !! repo) as [r|]; cbn; rewrite ?lookup_empty; cbn; [|split; [done|by intros []]].
  apply (merged_Apply _ _ (r_Policy r)) in Ho.
  destruct (r_Branches r !! branch) as [b|]; cbn; [|split; [done|by intros []]].
  apply (merged_Apply _ _ b) in Ho. pose proof (m_protect _ _ Ho) as Hp. cbn in Hp. rewrite <- Hp.
  case_bool_decide; [by split|]. by split.
Qed.

Lemma defined_merged levels q : merged levels q →
  (policy_defined q = true ↔ decided p_Protect levels ≠ None ∨ asks_more levels) ∧
  (policy_defined (set_protect None q) = true ↔ asks_more levels) ∧
  (is_disabled q = true ↔ decided p_Protect levels = Some false).
Proof.
  intros Hm. assert (set_by p_Admins levels ↔ is_Some (p_Admins q)) as Ha.
  { rewrite (m_admins _ _ Hm). unfold decided. clear. induction levels as [|c levels IH].
    - cbn. unfold set_by. split; [intros (? & ?%elem_of_nil & _); done|by intros []].
    - rewrite set_by_cons. cbn. destruct (p_Admins c); cbn; [split; [by eexists|left; by eexists]|].
      rewrite IH. split; [by intros [[]|]|by right]. }
  unfold asks_more, policy_defined, is_disabled. rewrite Ha, <- (m_checks _ _ Hm), <- (m_restrictions _ _ Hm),
    <- (m_reviews _ _ Hm), <- (m_protect _ _ Hm).
  rewrite !orb_true_iff, !bool_decide_eq_true. cbn. rewrite <- not_eq_None_Some. split_and!; [tauto| |done].
  rewrite <- (not_eq_None_Some None). tauto.
Qed.

Lemma check_disabled_merged bp org repo branch levels q : merged levels q →
  let forbidden := decided p_Protect levels = Some false ∧ asks_more levels ∧ bp_AllowDisabledPolicies bp = false in
  match check_disabled bp org repo branch q with
  | Err _ => forbidden
  | Ok None => decided p_Protect levels = None ∧ ¬ asks_more levels
  | Ok (Some p) => merged levels p ∧ (decided p_Protect levels ≠ None ∨ asks_more levels) ∧ ¬ forbidden
  end.
Proof.
  intros Hm. destruct (defined_merged _ _ Hm) as (H1 & H2 & H3). cbn zeta.
  unfold check_disabled. destruct (is_disabled q && _ && _) eqn:E.
  - rewrite !andb_true_iff, negb_true_iff in E. rewrite <- H2, <- H3. tauto.
  - destruct (policy_defined q) eqn:Ed; cbn.
    + split; [done|]. rewrite <- H1, <- H2, <- H3. split; [done|]. intros (Hd & Hs & Ha).
      by rewrite Hd, Hs, Ha in E.
    + split; [|intros Ha; assert (false = true) as [=]; apply H1; by right].
      destruct (decided p_Protect levels) eqn:El; [|done]. assert (false = true) as [=]. apply H1. by left.
Qed.

(** C31. For a branch of a listed organization, the policy is merged from the whole instance,
    the organization, the repository, the branch and the jobs that always run and must pass
    (which ask for their contexts, and for protection where the instance protects tested
    branches).  The most specific level that sets a flag or a number decides it; the contexts,
    users, teams and exclusions are those of all levels; nothing is set that no level sets.
    It is an error when the branch is listed and no level says whether to protect it, when
    protection is off though jobs are required and this is not allowed (if it is, there is no
    policy), and when protection is off though other settings are made and this is not allowed.
    There is no policy when no level sets anything but exclusions. *)
Theorem GetBranchProtection_spec bp org repo branch presubmits :
  is_Some (bp_Orgs bp !! org) →
  let levels := configured bp org repo branch in
  let jobs := required_jobs branch presubmits in
  let all := job_policy bp jobs ++ levels in
  let listed := is_Some (bp_Orgs bp !! org ≫= λ o, o_Repos o !! repo ≫= λ r, r_Branches r !! branch) in
  let answer := GetBranchProtection bp org repo branch presubmits in
  (listed ∧ decided p_Protect levels = None → is_ok answer = false) ∧
  (jobs ≠ [] ∧ decided p_Protect levels = Some false →
     if bp_AllowDisabledJobPolicies bp then answer = Ok None else is_ok answer = false) ∧
  (¬ (listed ∧ decided p_Protect levels = None) → ¬ (jobs ≠ [] ∧ decided p_Protect levels = Some false) →
     let forbidden := decided p_Protect all = Some false ∧ asks_more all ∧ bp_AllowDisabledPolicies bp = false in
     match answer with
     | Err _ => forbidden
     | Ok None => decided p_Protect all = None ∧ ¬ asks_more all
     | Ok (Some q) => merged all q ∧ (decided p_Protect all ≠ None ∨ asks_more all) ∧ ¬ forbidden
     end).
Proof.
  intros [o Ho]. cbn zeta. unfold GetBranchProtection. rewrite Ho. rewrite <- Ho.
  pose proof (GetBranch_merged bp org repo branch) as Hb. cbn zeta in Hb.
  destruct (GetBranch _ _) as [p|e]; cbn [rbind]; [|naive_solver congruence].
  destruct Hb as [Hm Hl]. split; [naive_solver|].
  assert ((BranchRequirements branch presubmits).1.1 = required_jobs branch presubmits) as Hj
    by (by rewrite BranchRequirements_filters).
  destruct (defined_merged _ _ Hm) as (_ & _ & Hd). rewrite <- Hd. unfold GetPolicy. rewrite Hj.
  destruct (required_jobs branch presubmits) as [|j jobs].
  { split; [by intros []|]. intros _ _. by apply check_disabled_merged. }
  destruct (is_disabled p).
  - split; [|intros _ []; by split]. intros _. by destruct (bp_AllowDisabledJobPolicies bp).
  - split; [by intros []|]. intros _ _. by apply check_disabled_merged, (merged_Apply _ _ _ Hm).
Qed.

(** No required context is lost, and none is invented: the contexts of the
    policy that [GetBranchProtection] returns are exactly those of the four
    levels and those of Prow's always-run required jobs. *)
Theorem GetBranchProtection_contexts bp org repo branch presubmits q :
  GetBranchProtection bp org repo branch presubmits = Ok (Some q) →
  contexts_of q =
    contexts_of (bp_Policy bp) ∪ contexts_of (org_level bp org) ∪
    contexts_of (repo_level bp org repo) ∪ contexts_of (branch_level bp org repo branch) ∪
    set_of (prow_contexts branch presubmits).
Proof.
  unfold GetBranchProtection. destruct (bp_Orgs bp !! org); [|done].
  intros (b & [Hb _]%GetBranch_level & (Hc & _)%GetPolicy_Some)%rbind_Ok_inv.
  by rewrite Hc, Hb, !contexts_of_Apply.
Qed.

(** Protection is never switched off silently: a policy that
    [GetBranchProtection] returns with [protect: false] belongs to a branch
    without always-run required jobs, and either the instance allows disabled
    policies or the policy sets nothing else. *)
Theorem GetBranchProtection_disabled bp org repo branch presubmits q :
  GetBranchProtection bp org repo branch presubmits = Ok (Some q) →
  p_Protect q = Some false →
  prow_contexts branch presubmits = [] ∧
  (bp_AllowDisabledPolicies bp = true ∨ policy_defined (set_protect None q) = false).
Proof.
  unfold GetBranchProtection. destruct (bp_Orgs bp !! org); [|done].
  intros (b & _ & (_ & _ & Hd)%GetPolicy_Some)%rbind_Ok_inv Hq.
  apply Hd. unfold is_disabled. by rewrite Hq.
Qed.
