(* ===== verification/TideTypes.v ===== *)
(** * The pull-request data Tide works on (tide/tide.go, type declarations)

    [PullRequest] mirrors the GraphQL result type; nested anonymous structs are
    flattened into prefixed fields. *)

From S2P Require Import Prelude Api.

(** GitHub's [MergeableState] and [StatusState] are strings. *)
Definition MergeableStateConflicting : string := "CONFLICTING".
Definition StatusStateSuccess : string := "SUCCESS".
Definition StatusStatePending : string := "PENDING".
Definition StatusStateExpected : string := "EXPECTED".

Record Context := mkContext {
  ctx_Context : string; ctx_Description : string; ctx_State : string }.

Record Commit := mkCommit { cm_OID : string; cm_Contexts : list Context }.

Record PullRequest := mkPullRequest {
  pr_Number : Z; pr_AuthorLogin : string;
  pr_BaseRefName : string; pr_BaseRefPrefix : string;
  pr_HeadRefName : string; pr_HeadRefOID : string; pr_Mergeable : string;
  pr_RepoName : string; pr_NameWithOwner : string; pr_OwnerLogin : string;
  pr_Commits : list Commit; pr_Labels : list string; pr_Milestone : option string;
  pr_Body : string; pr_Title : string; pr_UpdatedAt : Time }.

Definition set_commits (cs : list Commit) (pr : PullRequest) : PullRequest :=
  mkPullRequest (pr_Number pr) (pr_AuthorLogin pr) (pr_BaseRefName pr)
    (pr_BaseRefPrefix pr) (pr_HeadRefName pr) (pr_HeadRefOID pr) (pr_Mergeable pr)
    (pr_RepoName pr) (pr_NameWithOwner pr) (pr_OwnerLogin pr) cs (pr_Labels pr)
    (pr_Milestone pr) (pr_Body pr) (pr_Title pr) (pr_UpdatedAt pr).

Definition prKey (pr : PullRequest) : string :=
  pr_NameWithOwner pr +:+ "#" +:+ itoa (pr_Number pr).

(** [byRepoAndNumber]: later entries replace earlier ones. *)
Definition byRepoAndNumber (prs : list PullRequest) : gmap string PullRequest :=
  foldl (λ m pr, <[prKey pr := pr]> m) ∅ prs.

Definition newExpectedContext (c : string) : Context := mkContext c "" StatusStateExpected.

Definition contextsToStrings (contexts : list Context) : list string :=
  ctx_Context <$> contexts.

Definition prNumbers (prs : list PullRequest) : list Z := pr_Number <$> prs.
