(* ===== verification/TideConfig.v ===== *)
(** * Tide's configuration (config/tide.go; config/config.go: GetPresubmits)

    Merge settings per repository, the search queries and their validation, and
    the policy that says which status contexts count.  The policy is handed to
    Tide through the interface [contextChecker] of tide/tide.go, here a record of
    operations with the laws the pool logic relies on. *)

From S2P Require Import Prelude Api JobConfig BranchProtection TideTypes.
#[local] Open Scope go_scope.

Definition PullRequestMergeType : Type := string.
Definition MergeMerge : PullRequestMergeType := "merge".
Definition MergeRebase : PullRequestMergeType := "rebase".
Definition MergeSquash : PullRequestMergeType := "squash".

Record TideContextPolicy := mkTideContextPolicy {
  tcp_SkipUnknownContexts : option bool; tcp_RequiredContexts : list string;
  tcp_RequiredIfPresentContexts : list string; tcp_OptionalContexts : list string;
  tcp_FromBranchProtection : option bool }.

Record TideRepoContextPolicy := mkTideRepoContextPolicy {
  trp_Policy : TideContextPolicy; trp_Branches : gmap string TideContextPolicy }.
Record TideOrgContextPolicy := mkTideOrgContextPolicy {
  top_Policy : TideContextPolicy; top_Repos : gmap string TideRepoContextPolicy }.
Record TideContextPolicyOptions := mkTideContextPolicyOptions {
  tpo_Policy : TideContextPolicy; tpo_Orgs : gmap string TideOrgContextPolicy }.

(** A parsed text template is what executing it on a pull request yields. *)
Definition Template : Type := PullRequest → result string.
Record TideMergeCommitTemplate := mkTideMergeCommitTemplate {
  tmpl_Title : option Template; tmpl_Body : option Template }.

Record TideQuery := mkTideQuery {
  tq_Orgs : list string; tq_Repos : list string; tq_ExcludedRepos : list string;
  tq_ExcludedBranches : list string; tq_IncludedBranches : list string;
  tq_Labels : list string; tq_MissingLabels : list string; tq_Milestone : string;
  tq_ReviewApprovedRequired : bool }.

Record Tide := mkTide {
  tide_Queries : list TideQuery;
  tide_MergeType : gmap string PullRequestMergeType;
  tide_MergeTemplate : gmap string TideMergeCommitTemplate;
  tide_TargetURL : string; tide_PRStatusBaseURL : string; tide_BlockerLabel : string;
  tide_SquashLabel : string; tide_RebaseLabel : string; tide_MergeLabel : string;
  tide_MaxGoroutines : Z; tide_ContextOptions : TideContextPolicyOptions;
  tide_BatchSizeLimitMap : gmap string Z }.

(** The part of [config.Config] the modelled components read.  [ProwYAMLGetter]
    is a function-valued field of the Go struct too. *)
Record Config := mkConfig {
  cfg_JobConfig : JobConfig; cfg_Tide : Tide; cfg_BranchProtection : BranchProtection;
  cfg_InRepoConfigEnabled : gmap string bool;
  cfg_ProwYAMLGetter : string → string → list string → result (list Presubmit);
  cfg_ProwJobNamespace : string; cfg_PodNamespace : string }.

(** ** Per-repository settings *)

Definition BatchSizeLimit (t : Tide) (org repo : string) : Z :=
  match tide_BatchSizeLimitMap t !! (org +:+ "/" +:+ repo) with
  | Some limit => limit
  | None => match tide_BatchSizeLimitMap t !! org with
            | Some limit => limit
            | None => default 0%Z (tide_BatchSizeLimitMap t !! "*")
            end
  end.

Definition MergeMethod (t : Tide) (org repo : string) : PullRequestMergeType :=
  match tide_MergeType t !! (org +:+ "/" +:+ repo) with
  | Some v => v
  | None => default MergeMerge (tide_MergeType t !! org)
  end.

Definition MergeCommitTemplate (t : Tide) (org repo : string) : TideMergeCommitTemplate :=
  match tide_MergeTemplate t !! (org +:+ "/" +:+ repo) with
  | Some v => v
  | None => default (mkTideMergeCommitTemplate None None) (tide_MergeTemplate t !! org)
  end.

(** ** Queries *)

Definition query_token (field s : string) : string := field +:+ ":" +:+ quoted s.

Definition Query (tq : TideQuery) : string :=
  string_join " " (
    ["is:pr"; "state:open"] ++
    (query_token "org" <$> tq_Orgs tq) ++
    (query_token "repo" <$> tq_Repos tq) ++
    (query_token "-repo" <$> tq_ExcludedRepos tq) ++
    (query_token "-base" <$> tq_ExcludedBranches tq) ++
    (query_token "base" <$> tq_IncludedBranches tq) ++
    (query_token "label" <$> tq_Labels tq) ++
    (query_token "-label" <$> tq_MissingLabels tq) ++
    (if bool_decide (tq_Milestone tq ≠ "") then [query_token "milestone" (tq_Milestone tq)] else []) ++
    (if tq_ReviewApprovedRequired tq then ["review:approved"] else [])).

Definition TideQuery_ForRepo (tq : TideQuery) (org repo : string) : bool :=
  let fullName := org +:+ "/" +:+ repo in
  if bool_decide (org ∈ tq_Orgs tq)
  then negb (bool_decide (fullName ∈ tq_ExcludedRepos tq))
  else bool_decide (fullName ∈ tq_Repos tq).

Definition reposInOrg (org : string) (repos : list string) : list string :=
  filter (λ repo, has_prefix (org +:+ "/") repo = true) repos.

(** One step of the first loop of [OrgExceptionsAndRepos]. *)
Definition add_org (excluded : list string) (orgs : gmap string (gset string)) (org : string)
    : gmap string (gset string) :=
  let applicableRepos := set_of (reposInOrg org excluded) in
  match orgs !! org with
  | None => <[org := applicableRepos]> orgs
  | Some excepts => <[org := excepts ∩ applicableRepos]> orgs
  end.

Definition OrgExceptionsAndRepos (tqs : list TideQuery)
    : gmap string (gset string) * gset string :=
  let orgs := foldl (λ orgs tq, foldl (add_org (tq_ExcludedRepos tq)) orgs (tq_Orgs tq)) ∅ tqs in
  let repos := foldl (λ repos tq, repos ∪ set_of (tq_Repos tq)) ∅ tqs in
  ((λ excepts, excepts ∖ repos) <$> orgs, repos).

(** [QueryMap]: a lazily filled cache. *)
Record QueryMap := mkQueryMap {
  qm_queries : list TideQuery; qm_cache : gmap string (list TideQuery) }.

Definition TideQueries_QueryMap (tqs : list TideQuery) : QueryMap := mkQueryMap tqs ∅.

Definition QueryMap_ForRepo (qm : QueryMap) (org repo : string)
    : QueryMap * list TideQuery :=
  let fullName := org +:+ "/" +:+ repo in
  match qm_cache qm !! fullName with
  | Some qs => (qm, qs)
  | None =>
      let res := filter (λ q, TideQuery_ForRepo q org repo = true) (qm_queries qm) in
      (mkQueryMap (qm_queries qm) (<[fullName := res]> (qm_cache qm)), res)
  end.

(** *** Validation *)

Definition duplicates (field : string) (l : list string) : result unit :=
  let '(seen, dups) := foldl (λ '((seen, dups) : gset string * gset string) elem,
      if bool_decide (elem ∈ seen) then (seen, {[elem]} ∪ dups)
      else ({[elem]} ∪ seen, dups)) (∅, ∅) l in
  let dupCount := (Z.of_nat (length l) - Z.of_nat (size seen))%Z in
  if bool_decide (dupCount = 0%Z) then Ok tt
  else Err (Errorf "%q contains %d duplicate entries: %s"
              [AStr field; AInt dupCount; AStr (string_join ", " (set_list dups))]).

Definition check_org (io : nat * string) : result unit :=
  if contains_char "/" io.2
  then Err (Errorf "orgs[%d]: %q contains a '/' which is not valid"
              [AInt (Z.of_nat io.1); AStr io.2])
  else if bool_decide (io.2 = "")
  then Err (Errorf "orgs[%d]: is an empty string" [AInt (Z.of_nat io.1)])
  else Ok tt.

(** [parts := strings.Split(s, "/")] of the form org/repo. *)
Definition split_repo (s : string) : option (string * string) :=
  match split_char "/" s with
  | [o; r] => if bool_decide (o = "" ∨ r = "") then None else Some (o, r)
  | _ => None
  end.

Definition check_repo (orgs : gset string) (ir : nat * string) : result unit :=
  match split_repo ir.2 with
  | None => Err (Errorf "repos[%d]: %q is not of the form org/repo"
                   [AInt (Z.of_nat ir.1); AStr ir.2])
  | Some (o, _) =>
      if bool_decide (o ∈ orgs)
      then Err (Errorf "repos[%d]: %q is already included via org: %q"
                  [AInt (Z.of_nat ir.1); AStr ir.2; AStr o])
      else Ok tt
  end.

Definition check_excluded (orgs : gset string) (ir : nat * string) : result unit :=
  match split_repo ir.2 with
  | None => Err (Errorf "excludedRepos[%d]: %q is not of the form org/repo"
                   [AInt (Z.of_nat ir.1); AStr ir.2])
  | Some (o, _) =>
      if bool_decide (o ∈ orgs) then Ok tt
      else Err (Errorf "excludedRepos[%d]: %q has no effect because org %q is not included"
                  [AInt (Z.of_nat ir.1); AStr ir.2; AStr o])
  end.

Definition TideQuery_Validate (tq : TideQuery) : result unit :=
  let orgs := set_of (tq_Orgs tq) in
  let? _ := rmap check_org (imap pair (tq_Orgs tq)) in
  let? _ := duplicates "orgs" (tq_Orgs tq) in
  let? _ := rmap (check_repo orgs) (imap pair (tq_Repos tq)) in
  let? _ := duplicates "repos" (tq_Repos tq) in
  if bool_decide (tq_Orgs tq = [] ∧ tq_Repos tq = [])
  then Err (errors_New "'orgs' and 'repos' cannot both be empty") else
  let? _ := rmap (check_excluded orgs) (imap pair (tq_ExcludedRepos tq)) in
  let? _ := duplicates "excludedRepos" (tq_ExcludedRepos tq) in
  let invalids := set_of (tq_Labels tq) ∩ set_of (tq_MissingLabels tq) in
  if bool_decide (invalids ≠ ∅)
  then Err (Errorf "the labels: %q are both required and forbidden" [AStrs (set_list invalids)]) else
  let? _ := duplicates "labels" (tq_Labels tq) in
  let? _ := duplicates "missingLabels" (tq_MissingLabels tq) in
  if bool_decide (tq_ExcludedBranches tq ≠ [] ∧ tq_IncludedBranches tq ≠ [])
  then Err (errors_New
    "both 'includedBranches' and 'excludedBranches' are specified ('excludedBranches' have no effect)") else
  let? _ := duplicates "includedBranches" (tq_IncludedBranches tq) in
  duplicates "excludedBranches" (tq_ExcludedBranches tq).

(** ** Context policies *)

(** The interface [contextChecker] of tide/tide.go. *)
Record contextChecker := mkContextChecker {
  IsOptional : string → bool;
  MissingRequiredContexts : list string → list string }.

(** What Tide relies on: a context is reported missing only if the pull request
    does not have it, giving more contexts never makes more of them missing, and
    what is reported depends on the set of contexts only. *)
Class ContextCheckerLaws (cc : contextChecker) : Prop := {
  missing_absent c cs : c ∈ MissingRequiredContexts cc cs → c ∉ cs;
  missing_mono c cs cs' :
    cs ⊆ cs' → c ∈ MissingRequiredContexts cc cs' → c ∈ MissingRequiredContexts cc cs;
  missing_present c cs :
    c ∈ MissingRequiredContexts cc [] → c ∈ cs ∨ c ∈ MissingRequiredContexts cc cs }.

Definition disjoint_or (format : string) (a b : list string) : result unit :=
  let inter := set_of a ∩ set_of b in
  if bool_decide (inter ≠ ∅)
  then Err (Errorf format [AStr (string_join ", " (set_list inter))]) else Ok tt.

Definition TideContextPolicy_Validate (cp : TideContextPolicy) : result unit :=
  let? _ := disjoint_or "contexts %s are defined as required and optional"
              (tcp_RequiredContexts cp) (tcp_OptionalContexts cp) in
  let? _ := disjoint_or "contexts %s are defined as required and required if present"
              (tcp_RequiredContexts cp) (tcp_RequiredIfPresentContexts cp) in
  disjoint_or "contexts %s are defined as optional and required if present"
    (tcp_OptionalContexts cp) (tcp_RequiredIfPresentContexts cp).

(** [set.List()] unless the set is empty, in which case the slice stays nil. *)
Definition mergeTideContextPolicy (a b : TideContextPolicy) : TideContextPolicy :=
  let mergeBool (x y : option bool) := match y with None => x | Some _ => y end in
  let union_list (x y : list string) := set_list (set_of x ∪ set_of y) in
  mkTideContextPolicy
    (mergeBool (tcp_SkipUnknownContexts a) (tcp_SkipUnknownContexts b))
    (union_list (tcp_RequiredContexts a) (tcp_RequiredContexts b))
    (union_list (tcp_RequiredIfPresentContexts a) (tcp_RequiredIfPresentContexts b))
    (union_list (tcp_OptionalContexts a) (tcp_OptionalContexts b))
    (mergeBool (tcp_FromBranchProtection a) (tcp_FromBranchProtection b)).

Definition parseTideContextPolicyOptions (org repo branch : string)
    (options : TideContextPolicyOptions) : TideContextPolicy :=
  let option := tpo_Policy options in
  match tpo_Orgs options !! org with
  | None => option
  | Some o =>
      let option := mergeTideContextPolicy option (top_Policy o) in
      match top_Repos o !! repo with
      | None => option
      | Some r =>
          let option := mergeTideContextPolicy option (trp_Policy r) in
          match trp_Branches r !! branch with
          | None => option
          | Some b => mergeTideContextPolicy option b
          end
      end
  end.

(** *** config.go: which presubmits a repository has *)

Definition RefGetter : Type := unit → result string.

Definition InRepoConfigEnabled (c : Config) (identifier : string) : bool :=
  let enabled := cfg_InRepoConfigEnabled c in
  match enabled !! identifier with
  | Some b => b
  | None =>
      let org_flag := match split_char "/" identifier with
                      | [org; _] => enabled !! org
                      | _ => None
                      end in
      match org_flag with
      | Some b => b
      | None => default false (enabled !! "*")
      end
  end.

Definition GetPresubmits (c : Config) (identifier : string) (baseSHAGetter : RefGetter)
    (headSHAGetters : list RefGetter) : result (list Presubmit) :=
  let static := default [] (jc_PresubmitsStatic (cfg_JobConfig c) !! identifier) in
  if bool_decide (identifier = "") then Err (errors_New "no identifier for repo given")
  else if negb (InRepoConfigEnabled c identifier) then Ok static
  else
    let? baseSHA := wrap_err "failed to get baseSHA: %v" (baseSHAGetter tt) in
    let? headSHAs := rmap (λ getter : RefGetter,
                       wrap_err "failed to get headRef: %v" (getter tt)) headSHAGetters in
    let? prowYAML := cfg_ProwYAMLGetter c identifier baseSHA headSHAs in
    Ok (static ++ prowYAML).

(** A failing [GetBranchProtection] is only logged. *)
Definition protection_contexts (c : Config) (org repo branch : string)
    (presubmits : list Presubmit) : list string :=
  match GetBranchProtection (cfg_BranchProtection c) org repo branch presubmits with
  | Ok (Some bp) =>
      if bool_decide (p_Protect bp = Some true) then
        match p_RequiredStatusChecks bp with
        | Some checks => default [] (cp_Contexts checks)
        | None => []
        end
      else []
  | _ => []
  end.

Definition GetTideContextPolicy (c : Config) (org repo branch : string)
    (baseSHAGetter : RefGetter) (headSHA : string) : result TideContextPolicy :=
  let options := parseTideContextPolicyOptions org repo branch
                   (tide_ContextOptions (cfg_Tide c)) in
  let? presubmits := wrap_err "failed to get presubmits: %v"
      (GetPresubmits c (org +:+ "/" +:+ repo) baseSHAGetter [λ _, Ok headSHA]) in
  let '(prowRequired, prowRequiredIfPresent, prowOptional) :=
    BranchRequirements branch presubmits in
  let fromProtection :=
    if bool_decide (tcp_FromBranchProtection options = Some true)
    then protection_contexts c org repo branch presubmits else [] in
  let t := mkTideContextPolicy (tcp_SkipUnknownContexts options)
    (set_list (set_of (tcp_RequiredContexts options) ∪ set_of prowRequired ∪ set_of fromProtection))
    (set_list (set_of (tcp_RequiredIfPresentContexts options) ∪ set_of prowRequiredIfPresent))
    (set_list (set_of (tcp_OptionalContexts options) ∪ set_of prowOptional))
    None in
  let? _ := TideContextPolicy_Validate t in Ok t.

Definition TideContextPolicy_IsOptional (cp : TideContextPolicy) (c : string) : bool :=
  if bool_decide (c ∈ set_of (tcp_OptionalContexts cp)) then true
  else if bool_decide (c ∈ set_of (tcp_RequiredContexts cp)) then false
  else if bool_decide (c ∈ set_of (tcp_RequiredIfPresentContexts cp)) then false
  else if bool_decide (tcp_SkipUnknownContexts cp = Some true) then true
  else false.

Definition TideContextPolicy_MissingRequiredContexts `{GoRange} (cp : TideContextPolicy)
    (contexts : list string) : list string :=
  match tcp_RequiredContexts cp with
  | [] => []
  | required => set_range (set_of required ∖ set_of contexts)
  end.

(** [*TideContextPolicy] implements the interface. *)
Definition policy_checker `{GoRange} (cp : TideContextPolicy) : contextChecker :=
  mkContextChecker (TideContextPolicy_IsOptional cp)
    (TideContextPolicy_MissingRequiredContexts cp).

(** ** Lemmas *)

Lemma elem_of_missing `{GoRange} cp contexts c :
  c ∈ TideContextPolicy_MissingRequiredContexts cp contexts ↔
  c ∈ tcp_RequiredContexts cp ∧ c ∉ contexts.
Proof.
  unfold TideContextPolicy_MissingRequiredContexts.
  destruct (tcp_RequiredContexts cp) as [|r rs] eqn:E.
  { split; [by intros ?%not_elem_of_nil | by intros [?%not_elem_of_nil ?]]. }
  by rewrite elem_of_set_range, elem_of_difference, !elem_of_set_of.
Qed.

#[export] Instance policy_checker_laws `{GoRange} cp : ContextCheckerLaws (policy_checker cp).
Proof.
  split; cbn; intros c cs; [|intros cs' Hsub|]; rewrite ?elem_of_missing.
  - by intros [].
  - intros [? Hn]. split; [done|]. intros Hc. by apply Hn, Hsub.
  - intros [Hr _]. destruct (decide (c ∈ cs)); auto.
Qed.

Lemma disjoint_or_Ok fmt a b : disjoint_or fmt a b = Ok tt ↔ set_of a ## set_of b.
Proof.
  unfold disjoint_or. case_bool_decide as H; split; intros H'; try done; [exfalso; apply H|].
  - by apply disjoint_intersection_L.
  - apply disjoint_intersection_L. destruct (decide (set_of a ∩ set_of b = ∅)); [done|].
    by destruct H.
Qed.

Lemma set_of_cons x l : set_of (x :: l) = {[x]} ∪ set_of l.
Proof. done. Qed.

Lemma size_set_of_le l : size (set_of l) ≤ length l.
Proof.
  induction l as [|x l IH]; [done|]. rewrite set_of_cons. cbn [length].
  destruct (decide (x ∈ set_of l)) as [Hin|Hin].
  - replace ({[x]} ∪ set_of l) with (set_of l) by set_solver. lia.
  - rewrite size_union, size_singleton by set_solver. lia.
Qed.

Lemma size_set_of_NoDup l : size (set_of l) = length l ↔ NoDup l.
Proof.
  split; [|apply size_list_to_set]. induction l as [|x l IH]; [constructor|].
  rewrite set_of_cons. cbn [length]. pose proof (size_set_of_le l).
  destruct (decide (x ∈ set_of l)) as [Hin|Hin].
  - replace ({[x]} ∪ set_of l) with (set_of l) by set_solver. lia.
  - rewrite size_union, size_singleton by set_solver. rewrite elem_of_set_of in Hin.
    intros Hs. constructor; [done|]. apply IH. lia.
Qed.

Lemma duplicates_seen l (seen dups : gset string) :
  (foldl (λ '((seen, dups) : gset string * gset string) elem,
      if bool_decide (elem ∈ seen) then (seen, {[elem]} ∪ dups)
      else ({[elem]} ∪ seen, dups)) (seen, dups) l).1 = seen ∪ set_of l.
Proof.
  revert seen dups. induction l as [|x l IH]; intros seen dups; cbn [foldl].
  { cbn. by rewrite (right_id_L ∅ (∪)). }
  rewrite set_of_cons. case_bool_decide; rewrite IH; set_solver.
Qed.

Lemma duplicates_Ok field l : duplicates field l = Ok tt ↔ NoDup l.
Proof.
  unfold duplicates. pose proof (duplicates_seen l ∅ ∅) as Hs.
  destruct (foldl _ _ l) as [seen dups]. cbn in Hs. rewrite (left_id_L ∅ (∪)) in Hs.
  subst seen. rewrite <-size_set_of_NoDup. case_bool_decide; split; try done; lia.
Qed.

Lemma rmap_imap_Ok {A} (f : nat * A → result unit) (P : A → Prop) l :
  (∀ i x, f (i, x) = Ok tt ↔ P x) →
  (∃ us, rmap f (imap pair l) = Ok us) ↔ Forall P l.
Proof.
  intros Hf. split.
  - intros [us Hus]. apply rmap_Ok_Forall2 in Hus. apply Forall_lookup. intros i x Hx.
    assert (imap pair l !! i = Some (i, x)) as Hi by by rewrite list_lookup_imap, Hx.
    destruct (Forall2_lookup_l _ _ _ _ _ Hus Hi) as ([] & _ & Hfx). by apply (Hf i).
  - intros HP.
    assert (Forall (λ p : nat * A, f p = Ok tt) (imap pair l)) as Hall.
    { apply Forall_lookup. intros i [j x] Hi. rewrite list_lookup_imap in Hi.
      destruct (l !! i) as [y|] eqn:E; [|done]. injection Hi as <- <-. apply Hf.
      rewrite Forall_lookup in HP. eauto. }
    induction Hall as [|p ps Hp _ [us IH]]; [by exists []|].
    exists (tt :: us). cbn. by rewrite Hp, IH.
Qed.

(** What a valid query looks like. *)
Record valid_query (tq : TideQuery) : Prop := {
  vq_orgs : Forall (λ o, contains_char "/" o = false ∧ o ≠ "") (tq_Orgs tq);
  vq_orgs_nodup : NoDup (tq_Orgs tq);
  vq_repos : Forall (λ r, ∃ o n, split_repo r = Some (o, n) ∧ o ∉ tq_Orgs tq) (tq_Repos tq);
  vq_repos_nodup : NoDup (tq_Repos tq);
  vq_nonempty : tq_Orgs tq ≠ [] ∨ tq_Repos tq ≠ [];
  vq_excluded : Forall (λ r, ∃ o n, split_repo r = Some (o, n) ∧ o ∈ tq_Orgs tq) (tq_ExcludedRepos tq);
  vq_excluded_nodup : NoDup (tq_ExcludedRepos tq);
  vq_labels : set_of (tq_Labels tq) ## set_of (tq_MissingLabels tq);
  vq_labels_nodup : NoDup (tq_Labels tq);
  vq_missing_nodup : NoDup (tq_MissingLabels tq);
  vq_branches : tq_ExcludedBranches tq = [] ∨ tq_IncludedBranches tq = [];
  vq_included_nodup : NoDup (tq_IncludedBranches tq);
  vq_exbranches_nodup : NoDup (tq_ExcludedBranches tq) }.

Lemma check_org_Ok i o : check_org (i, o) = Ok tt ↔ contains_char "/" o = false ∧ o ≠ "".
Proof. unfold check_org. cbn. destruct (contains_char "/" o); [naive_solver|].
  case_bool_decide; naive_solver. Qed.

Lemma check_repo_Ok orgs i r :
  check_repo (set_of orgs) (i, r) = Ok tt ↔ ∃ o n, split_repo r = Some (o, n) ∧ o ∉ orgs.
Proof.
  unfold check_repo. cbn. destruct (split_repo r) as [[o n]|]; [|naive_solver].
  pose proof (elem_of_set_of orgs o). case_bool_decide; naive_solver.
Qed.

Lemma check_excluded_Ok orgs i r :
  check_excluded (set_of orgs) (i, r) = Ok tt ↔ ∃ o n, split_repo r = Some (o, n) ∧ o ∈ orgs.
Proof.
  unfold check_excluded. cbn. destruct (split_repo r) as [[o n]|]; [|naive_solver].
  pose proof (elem_of_set_of orgs o). case_bool_decide; naive_solver.
Qed.

(** A chain of checks succeeds iff each of them does. *)
Lemma rbind_Ok_iff {A} (m : result A) (k : result unit) :
  rbind m (λ _, k) = Ok tt ↔ (∃ a, m = Ok a) ∧ k = Ok tt.
Proof. destruct m; cbn; naive_solver. Qed.

Lemma rbind_unit_iff (m : result unit) (k : result unit) :
  rbind m (λ _, k) = Ok tt ↔ m = Ok tt ∧ k = Ok tt.
Proof. destruct m as [[]|]; cbn; naive_solver. Qed.

Lemma guard_Ok_iff (P : Prop) `{Decision P} e (k : result unit) :
  (if bool_decide P then Err e else k) = Ok tt ↔ ¬ P ∧ k = Ok tt.
Proof. case_bool_decide; naive_solver. Qed.

(** *** Repository names *)

(** [org/repo] *)
Definition full_name (org repo : string) : string := org +:+ "/" +:+ repo.

Lemma full_name_inj org org' repo repo' :
  contains_char "/" org = false → contains_char "/" org' = false →
  full_name org repo = full_name org' repo' → org = org' ∧ repo = repo'.
Proof. intros ??. by apply app_sep_inj. Qed.

Lemma split_repo_full_name org repo o n :
  contains_char "/" org = false → split_repo (full_name org repo) = Some (o, n) → o = org.
Proof.
  unfold split_repo, full_name. intros Horg.
  change ("/" +:+ repo) with (String "/" repo). rewrite split_char_app by done.
  destruct (split_char "/" repo) as [|r [|]]; [done| |done].
  case_bool_decide; naive_solver.
Qed.

Lemma full_name_prefix org repo : has_prefix (org +:+ "/") (full_name org repo) = true.
Proof. apply has_prefix_spec. exists repo. by rewrite string_app_assoc. Qed.

Lemma elem_of_reposInOrg org repo l :
  full_name org repo ∈ reposInOrg org l ↔ full_name org repo ∈ l.
Proof.
  unfold reposInOrg. rewrite list_elem_of_filter. rewrite full_name_prefix. naive_solver.
Qed.

(** *** The loops of [OrgExceptionsAndRepos] as folds over their visits *)

Definition org_visits (tqs : list TideQuery) : list (list string * string) :=
  flat_map (λ tq, pair (tq_ExcludedRepos tq) <$> tq_Orgs tq) tqs.

Lemma elem_of_org_visits tqs ex org :
  (ex, org) ∈ org_visits tqs ↔ ∃ tq, tq ∈ tqs ∧ tq_ExcludedRepos tq = ex ∧ org ∈ tq_Orgs tq.
Proof.
  unfold org_visits. rewrite list_elem_of_In, in_flat_map. split.
  - intros (tq & Htq & Hp). apply list_elem_of_In in Hp, Htq.
    apply list_elem_of_fmap in Hp as (o & [= -> ->] & Ho). eauto.
  - intros (tq & Htq & <- & Ho). exists tq. rewrite <-!list_elem_of_In.
    split; [done|]. by apply list_elem_of_fmap_2.
Qed.

Lemma org_loop_visits tqs m :
  foldl (λ orgs tq, foldl (add_org (tq_ExcludedRepos tq)) orgs (tq_Orgs tq)) m tqs
  = foldl (λ orgs p, add_org p.1 orgs p.2) m (org_visits tqs).
Proof.
  revert m. induction tqs as [|tq tqs IH]; intros m; [done|]. cbn.
  rewrite foldl_app, IH. f_equal.
  generalize (tq_ExcludedRepos tq) as ex. intros ex. revert m.
  induction (tq_Orgs tq) as [|o os IHo]; intros m; cbn; [done|]. apply IHo.
Qed.

Lemma lookup_add_org_ne e m o org : o ≠ org → add_org e m o !! org = m !! org.
Proof. unfold add_org. intros. destruct (m !! o); by rewrite lookup_insert_ne. Qed.

Lemma org_fold_spec (vs : list (list string * string)) org :
  match foldl (λ orgs p, add_org p.1 orgs p.2) ∅ vs !! org with
  | None => Forall (λ p, p.2 ≠ org) vs
  | Some ex => Exists (λ p, p.2 = org) vs ∧
      ∀ r, r ∈ ex ↔ Forall (λ p, p.2 = org → r ∈ reposInOrg org p.1) vs
  end.
Proof.
  induction vs as [|[e o] vs IH] using rev_ind; [cbn; by rewrite lookup_empty|].
  rewrite foldl_snoc. revert IH. generalize (foldl (λ orgs p, add_org p.1 orgs p.2) ∅ vs).
  intros m IH. cbn [fst snd]. destruct (decide (o = org)) as [->|Hne].
  - unfold add_org. destruct (m !! org) as [ex|]; rewrite lookup_insert_eq.
    + destruct IH as [Hex IH]. rewrite Exists_app. split; [by left|]. intros r.
      rewrite Forall_app, Forall_singleton, elem_of_intersection, IH, elem_of_set_of. naive_solver.
    + rewrite Exists_app, Exists_cons. split; [naive_solver|]. intros r.
      rewrite Forall_app, Forall_singleton, elem_of_set_of.
      assert (Forall (λ p : list string * string, p.2 = org → r ∈ reposInOrg org p.1) vs)
        by (eapply Forall_impl; [exact IH|]; by intros p Hp ?).
      naive_solver.
  - rewrite lookup_add_org_ne by done.
    destruct (m !! org).
    + destruct IH as [Hex IH]. rewrite Exists_app. split; [by left|]. intros r.
      rewrite Forall_app, Forall_singleton, IH. naive_solver.
    + rewrite Forall_app, Forall_singleton. naive_solver.
Qed.

Lemma elem_of_repos_fold tqs r (s : gset string) :
  r ∈ foldl (λ repos tq, repos ∪ set_of (tq_Repos tq)) s tqs ↔
  r ∈ s ∨ ∃ tq, tq ∈ tqs ∧ r ∈ tq_Repos tq.
Proof.
  revert s. induction tqs as [|tq tqs IH]; intros s; cbn.
  { split; [auto | intros [?|(? & []%not_elem_of_nil & _)]; done]. }
  rewrite IH, elem_of_union, elem_of_set_of. setoid_rewrite elem_of_cons. naive_solver.
Qed.

(** ** Properties *)

Lemma Validate_valid tq : TideQuery_Validate tq = Ok tt ↔ valid_query tq.
Proof.
  unfold TideQuery_Validate. cbv zeta.
  rewrite rbind_Ok_iff, rbind_unit_iff, rbind_Ok_iff, rbind_unit_iff, guard_Ok_iff,
    rbind_Ok_iff, rbind_unit_iff, guard_Ok_iff, !rbind_unit_iff, guard_Ok_iff, rbind_unit_iff.
  rewrite !duplicates_Ok.
  rewrite (rmap_imap_Ok _ _ _ check_org_Ok), (rmap_imap_Ok _ _ _ (check_repo_Ok _)),
    (rmap_imap_Ok _ _ _ (check_excluded_Ok _)).
  split.
  - intros (?&?&?&?&?&?&?&?&?&?&?&?&?). split; try done.
    + destruct (tq_Orgs tq); [right|by left]. naive_solver.
    + apply disjoint_intersection_L. by apply dec_stable.
    + destruct (tq_ExcludedBranches tq); [by left|right].
      by destruct (tq_IncludedBranches tq); [|naive_solver].
  - intros []. repeat split; try done; [naive_solver | | naive_solver].
    rewrite disjoint_intersection_L in *. naive_solver.
Qed.

(** [Validate] accepts exactly the well-formed queries: slash-free, distinct
    orgs; org/repo entries that add to the orgs; exclusions that subtract from
    them; labels that are not both wanted and forbidden; at most one of the two
    branch lists. *)
Theorem TideQuery_Validate_spec tq : TideQuery_Validate tq = Ok tt ↔ valid_query tq.
Proof. apply Validate_valid. Qed.

(** [OrgExceptionsAndRepos] covers exactly the repositories that some query
    applies to: a repository is listed, or its org is and it is not among the
    exceptions, iff a (valid) query's [ForRepo] accepts it. *)
Theorem OrgExceptionsAndRepos_cover tqs org repo orgs repos :
  Forall valid_query tqs → contains_char "/" org = false →
  OrgExceptionsAndRepos tqs = (orgs, repos) →
  (∃ tq, tq ∈ tqs ∧ TideQuery_ForRepo tq org repo = true) ↔
  (full_name org repo ∈ repos ∨
   ∃ ex, orgs !! org = Some ex ∧ full_name org repo ∉ ex).
Proof.
  rewrite Forall_forall. unfold OrgExceptionsAndRepos. intros Hv Horg [= <- <-].
  rewrite org_loop_visits, lookup_fmap, elem_of_repos_fold, elem_of_empty.
  pose proof (org_fold_spec (org_visits tqs) org) as Hspec.
  unfold TideQuery_ForRepo. fold (full_name org repo).
  assert (∀ tq, tq ∈ tqs → full_name org repo ∈ tq_Repos tq → org ∉ tq_Orgs tq) as Hdisj.
  { intros tq Htq Hr. destruct (Hv tq Htq) as [_ _ Hrepos].
    rewrite Forall_forall in Hrepos. destruct (Hrepos _ Hr) as (o & n & Hs & Ho).
    by rewrite (split_repo_full_name _ _ _ _ Horg Hs) in Ho. }
  split.
  - intros (tq & Htq & Hrun). case_bool_decide as Ho; [|apply bool_decide_eq_true in Hrun; eauto].
    apply negb_true_iff, bool_decide_eq_false in Hrun. right.
    assert ((tq_ExcludedRepos tq, org) ∈ org_visits tqs) as Hvis
      by (apply elem_of_org_visits; eauto).
    destruct (_ !! org) as [ex|]; cbn.
    + eexists; split; [done|]. destruct Hspec as [_ Hspec]. rewrite elem_of_difference, Hspec, Forall_forall.
      intros [Hall _]. specialize (Hall _ Hvis eq_refl). cbn in Hall.
      by apply Hrun, elem_of_reposInOrg.
    + rewrite Forall_forall in Hspec. by destruct (Hspec _ Hvis).
  - intros [[[]|(tq & Htq & Hr)]|(ex & Hex & Hn)].
    + exists tq. split; [done|]. rewrite bool_decide_false by eauto. by apply bool_decide_eq_true.
    + apply fmap_Some in Hex as (ex' & Hex' & ->).
      rewrite Hex' in Hspec. destruct Hspec as [Hp Hspec].
      destruct (decide (full_name org repo ∈
        foldl (λ repos tq, repos ∪ set_of (tq_Repos tq)) ∅ tqs)) as [Hin|Hin].
      * apply elem_of_repos_fold in Hin as [[]%not_elem_of_empty|(tq & Htq & Hr)].
        exists tq. split; [done|]. rewrite bool_decide_false by eauto.
        by apply bool_decide_eq_true.
      * assert (full_name org repo ∉ ex') as Hex by set_solver. rewrite Hspec in Hex.
        apply not_Forall_Exists in Hex; [|apply _].
        apply Exists_exists in Hex as ([e o] & Hvis & Hno). cbn in Hno.
        destruct (decide (o = org)) as [->|]; [|naive_solver].
        apply elem_of_org_visits in Hvis as (tq & Htq & <- & Ho).
        exists tq. split; [done|]. rewrite bool_decide_true by done.
        apply negb_true_iff, bool_decide_eq_false. rewrite <-elem_of_reposInOrg. naive_solver.
Qed.

(** The three classes of contexts in a policy do not overlap. *)
Definition policy_disjoint (cp : TideContextPolicy) : Prop :=
  set_of (tcp_RequiredContexts cp) ## set_of (tcp_OptionalContexts cp) ∧
  set_of (tcp_RequiredContexts cp) ## set_of (tcp_RequiredIfPresentContexts cp) ∧
  set_of (tcp_OptionalContexts cp) ## set_of (tcp_RequiredIfPresentContexts cp).

Lemma TideContextPolicy_Validate_Ok cp :
  TideContextPolicy_Validate cp = Ok tt ↔ policy_disjoint cp.
Proof.
  unfold TideContextPolicy_Validate, policy_disjoint.
  by rewrite !rbind_unit_iff, !disjoint_or_Ok.
Qed.

Lemma required_not_optional cp c :
  policy_disjoint cp → c ∈ tcp_RequiredContexts cp → TideContextPolicy_IsOptional cp c = false.
Proof.
  intros (H1 & _ & _) Hc. unfold TideContextPolicy_IsOptional.
  rewrite <-elem_of_set_of in Hc.
  rewrite bool_decide_false by set_solver. by rewrite bool_decide_true.
Qed.

Lemma if_present_not_optional cp c :
  policy_disjoint cp → c ∈ tcp_RequiredIfPresentContexts cp →
  TideContextPolicy_IsOptional cp c = false ∧ c ∉ tcp_RequiredContexts cp.
Proof.
  intros (H1 & H2 & H3) Hc. unfold TideContextPolicy_IsOptional.
  rewrite <-elem_of_set_of in Hc.
  assert (c ∉ set_of (tcp_RequiredContexts cp)) as Hr by set_solver.
  rewrite bool_decide_false by set_solver. rewrite bool_decide_false by done.
  rewrite bool_decide_true by done. by rewrite <-elem_of_set_of.
Qed.

(** The context policy of a branch requires exactly the configured contexts,
    those of Prow's always-run required jobs and, when asked to, those of branch
    protection.  A required context is never optional and is reported missing
    until the pull request has it; a required-if-present one is not optional
    either, but never reported missing. *)
Theorem GetTideContextPolicy_spec `{GoRange} c org repo branch base head cp presubmits :
  GetTideContextPolicy c org repo branch base head = Ok cp →
  GetPresubmits c (full_name org repo) base [λ _, Ok head] = Ok presubmits →
  let options := parseTideContextPolicyOptions org repo branch
                   (tide_ContextOptions (cfg_Tide c)) in
  (∀ ctx, ctx ∈ tcp_RequiredContexts cp ↔
     ctx ∈ tcp_RequiredContexts options ∨ ctx ∈ prow_contexts branch presubmits ∨
     (tcp_FromBranchProtection options = Some true ∧
      ctx ∈ protection_contexts c org repo branch presubmits)) ∧
  (∀ ctx, ctx ∈ tcp_RequiredContexts cp →
     IsOptional (policy_checker cp) ctx = false ∧
     ∀ present, ctx ∈ MissingRequiredContexts (policy_checker cp) present ↔ ctx ∉ present) ∧
  (∀ ctx, ctx ∈ tcp_RequiredIfPresentContexts cp →
     IsOptional (policy_checker cp) ctx = false ∧
     ∀ present, ctx ∉ MissingRequiredContexts (policy_checker cp) present).
Proof.
  unfold GetTideContextPolicy, prow_contexts. intros Hcp Hps. cbv zeta in Hcp |- *.
  fold (full_name org repo) in Hcp. rewrite Hps in Hcp. cbn [wrap_err rbind] in Hcp.
  destruct (BranchRequirements branch presubmits) as [[req ifp] opt]. cbn [fst].
  apply rbind_Ok_inv in Hcp as ([] & Hval%TideContextPolicy_Validate_Ok & [= <-]).
  split; [|split].
  - intros ctx. cbn [tcp_RequiredContexts].
    rewrite elem_of_set_list, !elem_of_union, !elem_of_set_of.
    case_bool_decide; [naive_solver|]. rewrite elem_of_nil. naive_solver.
  - intros ctx Hctx. split; [by apply required_not_optional|]. intros present.
    cbn [policy_checker MissingRequiredContexts]. rewrite elem_of_missing. naive_solver.
  - intros ctx Hctx. destruct (if_present_not_optional _ _ Hval Hctx) as [? Hn].
    split; [done|]. intros present. cbn [policy_checker MissingRequiredContexts].
    rewrite elem_of_missing. naive_solver.
Qed.

(** A client's sequence of [ForRepo] calls on one query map. *)
Definition qm_after (tqs : list TideQuery) (calls : list (string * string)) : QueryMap :=
  foldl (λ qm p, (QueryMap_ForRepo qm p.1 p.2).1) (TideQueries_QueryMap tqs) calls.

Definition qm_coherent (tqs : list TideQuery) (qm : QueryMap) : Prop :=
  qm_queries qm = tqs ∧
  ∀ org repo qs, contains_char "/" org = false →
    qm_cache qm !! full_name org repo = Some qs →
    qs = filter (λ q, TideQuery_ForRepo q org repo = true) tqs.

Lemma QueryMap_ForRepo_coherent tqs qm org repo :
  qm_coherent tqs qm → contains_char "/" org = false →
  qm_coherent tqs (QueryMap_ForRepo qm org repo).1 ∧
  (QueryMap_ForRepo qm org repo).2 = filter (λ q, TideQuery_ForRepo q org repo = true) tqs.
Proof.
  intros [Hq Hc] Horg. unfold QueryMap_ForRepo. fold (full_name org repo).
  destruct (qm_cache qm !! full_name org repo) as [qs|] eqn:E; cbn.
  { split; [done|]. eauto. }
  rewrite Hq. split; [|done]. split; [done|]. cbn. intros org' repo' qs Horg' Hl.
  destruct (decide (full_name org repo = full_name org' repo')) as [Heq|Hne].
  - rewrite Heq, lookup_insert_eq in Hl.
    destruct (full_name_inj _ _ _ _ Horg Horg' Heq) as [-> ->]. congruence.
  - rewrite lookup_insert_ne in Hl by done. eauto.
Qed.

(** The cache of [QueryMap] is invisible: after any calls, [ForRepo] answers
    the queries that apply to the repository, as computed without a cache. *)
Theorem QueryMap_ForRepo_uncached tqs calls org repo :
  Forall (λ p, contains_char "/" p.1 = false) calls → contains_char "/" org = false →
  (QueryMap_ForRepo (qm_after tqs calls) org repo).2
  = filter (λ q, TideQuery_ForRepo q org repo = true) tqs.
Proof.
  intros Hcalls Horg. apply QueryMap_ForRepo_coherent; [|done]. unfold qm_after.
  assert (qm_coherent tqs (TideQueries_QueryMap tqs)) as H0 by (split; [done|naive_solver]).
  revert H0. generalize (TideQueries_QueryMap tqs).
  induction Hcalls as [|p ps Hp _ IH]; intros qm Hqm; cbn; [done|].
  apply IH. by apply QueryMap_ForRepo_coherent.
Qed.
