(* ===== verification/PjUtil.v ===== *)
(** * ProwJob helpers (pjutil/filter.go, pjutil/pjutil.go, pjutil/abort.go,
      pod-utils/decorate: LabelsAndAnnotationsForSpec)

    Which presubmits a comment triggers, how a ProwJob is built from a job
    configuration, and how superseded jobs are aborted. *)

From S2P Require Import Prelude Api JobConfig.
#[local] Open Scope go_scope.

(** ** Comment commands (filter.go)

    The three regexps are multi-line ([(?m)]) and anchored at a line, so they are
    decided line by line: a [\s*] that runs over a newline matches no less than
    one that stops before it. *)

(** [\s] *)
Definition is_space (c : ascii) : bool :=
  bool_decide (c = " "%char ∨ c = "009"%char ∨ c = "010"%char ∨ c = "012"%char ∨ c = "013"%char).

Fixpoint all_space (s : string) : bool :=
  match s with
  | EmptyString => true
  | String c s' => is_space c && all_space s'
  end.

(** The end of a line, or a space and anything. *)
Definition eol_or_space (s : string) : bool :=
  match s with
  | EmptyString => true
  | String c _ => is_space c
  end.

Definition lines (body : string) : list string := split_char "010" body.

Definition command_line (cmd line : string) : bool :=
  match trim_prefix_go cmd line with
  | Some rest => all_space rest
  | None => false
  end.

Definition test_all_line (line : string) : bool :=
  match trim_prefix_go "/test all" line with
  | Some (String c rest as r) =>
      eol_or_space r || (bool_decide (c = ","%char) && eol_or_space rest)
  | Some EmptyString => true
  | None => false
  end.

Definition TestAllRe : Regexp := λ body, existsb test_all_line (lines body).
Definition RetestRe : Regexp := λ body, existsb (command_line "/retest") (lines body).
Definition OkToTestRe : Regexp := λ body, existsb (command_line "/ok-to-test") (lines body).

(** A filter answers (should run, forced to run, default behaviour). *)
Definition Filter : Type := Presubmit → bool * bool * bool.

Definition CommandFilter (body : string) : Filter := λ p,
  (TriggerMatches p body, TriggerMatches p body, true).

Definition TestAllFilter : Filter := λ p, (negb (NeedsExplicitTrigger p), false, false).

Fixpoint AggregateFilter (filters : list Filter) : Filter := λ presubmit,
  match filters with
  | [] => (false, false, false)
  | f :: fs =>
      let '(shouldRun, forced, defaults) := f presubmit in
      if shouldRun then (shouldRun, forced, defaults) else AggregateFilter fs presubmit
  end.

Definition RetestFilter (failedContexts allContexts : gset string) : Filter := λ p,
  (bool_decide (ps_Context p ∈ failedContexts) ||
   (negb (NeedsExplicitTrigger p) && negb (bool_decide (ps_Context p ∈ allContexts))),
   false, true).

Definition contextGetter : Type := unit → result (gset string * gset string).

Definition PresubmitFilter (honorOkToTest : bool) (contexts : contextGetter) (body : string)
    : result Filter :=
  let? retest :=
    if RetestRe body then
      let? (failedContexts, allContexts) := contexts tt in
      Ok [RetestFilter failedContexts allContexts]
    else Ok [] in
  let test_all :=
    if (honorOkToTest && OkToTestRe body) || TestAllRe body then [TestAllFilter] else [] in
  Ok (AggregateFilter ([CommandFilter body] ++ retest ++ test_all)).

Definition determineSkippedPresubmits (toTrigger toSkipSuperset : list Presubmit)
    : list Presubmit :=
  let triggeredContexts := set_of (ps_Context <$> toTrigger) in
  filter (λ p, ps_Context p ∉ triggeredContexts) toSkipSuperset.

(** The loop of [FilterPresubmits]: the jobs to trigger and the jobs that match
    but should not run. *)
Fixpoint filter_loop (f : Filter) (changes : ChangedFilesProvider) (branch : string)
    (presubmits : list Presubmit) : result (list Presubmit * list Presubmit) :=
  match presubmits with
  | [] => Ok ([], [])
  | p :: rest =>
      let '(matches, forced, defaults) := f p in
      if negb matches then filter_loop f changes branch rest
      else
        let? shouldRun := Presubmit_ShouldRun p branch changes forced defaults in
        let? (toTrigger, toSkip) := filter_loop f changes branch rest in
        Ok (if shouldRun : bool then (p :: toTrigger, toSkip) else (toTrigger, p :: toSkip))
  end.

Definition FilterPresubmits (f : Filter) (changes : ChangedFilesProvider) (branch : string)
    (presubmits : list Presubmit) : result (list Presubmit * list Presubmit) :=
  let? (toTrigger, toSkipSuperset) := filter_loop f changes branch presubmits in
  Ok (toTrigger, determineSkippedPresubmits toTrigger toSkipSuperset).

(** ** Building ProwJobs (pjutil.go) *)

Definition specFromJobBase (jb : JobBase) : ProwJobSpec :=
  mkProwJobSpec "" (jb_Agent jb) (jb_Cluster jb) (default "" (jb_Namespace jb))
    (jb_Name jb) None (uc_ExtraRefs (jb_UtilityConfig jb)) false "" ""
    (jb_MaxConcurrency jb) (jb_ErrorOnEviction jb) (jb_Spec jb) None
    (jb_PipelineRunSpec jb) (uc_DecorationConfig (jb_UtilityConfig jb))
    (jb_ReporterConfig jb) (jb_RerunAuthConfig jb) (jb_Hidden jb).

Definition CompletePrimaryRefs (refs : Refs) (jb : JobBase) : Refs :=
  let u := jb_UtilityConfig jb in
  mkRefs (refs_Org refs) (refs_Repo refs) (refs_RepoLink refs) (refs_BaseRef refs)
    (refs_BaseSHA refs) (refs_BaseLink refs) (refs_Pulls refs)
    (if bool_decide (uc_PathAlias u ≠ "") then uc_PathAlias u else refs_PathAlias refs)
    (refs_WorkDir refs)
    (if bool_decide (uc_CloneURI u ≠ "") then uc_CloneURI u else refs_CloneURI refs)
    (uc_SkipSubmodules u) (uc_CloneDepth u).

(** Filling in what distinguishes the job types. *)
Definition typed_spec (ty : ProwJobType) (refs : option Refs) (context : string)
    (report : bool) (rerun : string) (jenkins : option JenkinsSpec) (s : ProwJobSpec)
    : ProwJobSpec :=
  mkProwJobSpec ty (spec_Agent s) (spec_Cluster s) (spec_Namespace s) (spec_Job s) refs
    (spec_ExtraRefs s) report context rerun (spec_MaxConcurrency s)
    (spec_ErrorOnEviction s) (spec_PodSpec s) jenkins (spec_PipelineRunSpec s)
    (spec_DecorationConfig s) (spec_ReporterConfig s) (spec_RerunAuthConfig s)
    (spec_Hidden s).

Definition PresubmitSpec (p : Presubmit) (refs : Refs) : ProwJobSpec :=
  typed_spec PresubmitJob (Some (CompletePrimaryRefs refs (ps_JobBase p))) (ps_Context p)
    (negb (ps_SkipReport p)) (ps_RerunCommand p) (ps_JenkinsSpec p)
    (specFromJobBase (ps_JobBase p)).

Definition PostsubmitSpec (p : Postsubmit) (refs : Refs) : ProwJobSpec :=
  typed_spec PostsubmitJob (Some (CompletePrimaryRefs refs (po_JobBase p)))
    (rp_Context (po_Reporter p)) (negb (rp_SkipReport (po_Reporter p))) ""
    (po_JenkinsSpec p) (specFromJobBase (po_JobBase p)).

Definition PeriodicSpec (p : Periodic) : ProwJobSpec :=
  typed_spec PeriodicJob None "" false "" None (specFromJobBase (pe_JobBase p)).

Definition BatchSpec (p : Presubmit) (refs : Refs) : ProwJobSpec :=
  typed_spec BatchJob (Some (CompletePrimaryRefs refs (ps_JobBase p))) (ps_Context p)
    false "" None (specFromJobBase (ps_JobBase p)).

Definition PartitionActive (pjs : list ProwJob) : list ProwJob * list ProwJob :=
  (filter (λ pj, pj_State pj = PendingState) pjs,
   filter (λ pj, pj_State pj = TriggeredState) pjs).

(** [GetLatestProwJobs]: a missing entry of the Go map is the zero ProwJob, whose
    start time is the zero time. *)
Definition GetLatestProwJobs (pjs : list ProwJob) (jobType : ProwJobType)
    : gmap string ProwJob :=
  foldl (λ latestJobs j,
    if bool_decide (spec_Type (pj_Spec j) ≠ jobType) then latestJobs
    else
      let name := spec_Job (pj_Spec j) in
      let latest := from_option (λ l, st_StartTime (pj_Status l)) 0%Z (latestJobs !! name) in
      if Before latest (st_StartTime (pj_Status j)) then <[name := j]> latestJobs
      else latestJobs) ∅ pjs.

Definition ClusterToCtx (cluster : string) : string :=
  if bool_decide (cluster = "") then DefaultClusterAlias else cluster.

(** The fields of [github.PullRequest] that are read here and by the plugins. *)
Record GitHubPullRequest := mkGitHubPullRequest {
  gpr_Number : Z; gpr_HTMLURL : string; gpr_UserLogin : string; gpr_UserHTMLURL : string;
  gpr_BaseRef : string; gpr_BaseRepoOwner : string; gpr_BaseRepoName : string;
  gpr_BaseRepoHTMLURL : string; gpr_HeadSHA : string;
  gpr_BaseRepoFullName : string; gpr_Mergable : option bool; gpr_Merged : bool;
  gpr_State : string; gpr_Body : string; gpr_Assignees : list string;
  gpr_Title : string; gpr_Draft : bool; gpr_BaseSHA : string }.

Definition createRefs (pr : GitHubPullRequest) (baseSHA : string) : Refs :=
  let repoLink := gpr_BaseRepoHTMLURL pr in
  mkRefs (gpr_BaseRepoOwner pr) (gpr_BaseRepoName pr) repoLink (gpr_BaseRef pr) baseSHA
    (repoLink +:+ "/commit/" +:+ baseSHA)
    [mkPull (gpr_Number pr) (gpr_UserLogin pr) (gpr_HeadSHA pr) "" ""
       (gpr_HTMLURL pr)
       (repoLink +:+ "/pull/" +:+ itoa (gpr_Number pr) +:+ "/commits/" +:+ gpr_HeadSHA pr)
       (gpr_UserHTMLURL pr)]
    "" false "" false 0%Z.

(** *** Labels and annotations *)

Definition CreatedByProw : string := "created-by-prow".
Definition ProwJobTypeLabel : string := "prow.k8s.io/type".
Definition ProwJobIDLabel : string := "prow.k8s.io/id".
Definition ProwBuildIDLabel : string := "prow.k8s.io/build-id".
Definition ProwJobAnnotation : string := "prow.k8s.io/job".
Definition OrgLabel : string := "prow.k8s.io/refs.org".
Definition RepoLabel : string := "prow.k8s.io/refs.repo".
Definition PullLabel : string := "prow.k8s.io/refs.pull".
Definition EventGUID : string := "event-GUID".
Definition LabelValueMaxLength : nat := 63.

Fixpoint string_take (n : nat) (s : string) : string :=
  match n, s with
  | S n', String a s' => String a (string_take n' s')
  | _, _ => EmptyString
  end.

(** [strings.TrimRight(s, cutset)] *)
Fixpoint trim_right (cutset : string) (s : string) : string :=
  match s with
  | EmptyString => EmptyString
  | String a s' =>
      match trim_right cutset s' with
      | EmptyString => if contains_char a cutset then EmptyString else String a EmptyString
      | t => String a t
      end
  end.

(** [filepath.Base] for Unix paths. *)
Definition path_base (path : string) : string :=
  if bool_decide (path = "") then "."
  else match trim_right "/" path with
       | EmptyString => "/"
       | t => List.last (split_char "/" t) EmptyString
       end.

Section labels.
(** k8s' [validation.IsValidLabelValue]: no complaints. *)
Context (IsValidLabelValue : string → bool).

(** The loop that repairs or deletes the entries of [labels]. *)
Definition valid_label (value : string) : option string :=
  if IsValidLabelValue value then Some value
  else let base := path_base value in
       if IsValidLabelValue base then Some base else None.

Definition LabelsAndAnnotationsForSpec (spec : ProwJobSpec)
    (extraLabels extraAnnotations : gmap string string)
    : gmap string string * gmap string string :=
  let jobNameForLabel :=
    if bool_decide (LabelValueMaxLength < String.length (spec_Job spec))
    then trim_right ".-" (string_take LabelValueMaxLength (spec_Job spec))
    else spec_Job spec in
  let labels := <[CreatedByProw := "true"]> (<[ProwJobTypeLabel := spec_Type spec]>
                  {[ProwJobAnnotation := jobNameForLabel]}) in
  let labels :=
    match spec_Refs spec with
    | Some refs =>
        if bool_decide (spec_Type spec ≠ PeriodicJob) then
          let labels := <[RepoLabel := refs_Repo refs]> (<[OrgLabel := refs_Org refs]> labels) in
          match refs_Pulls refs with
          | pull :: _ => <[PullLabel := itoa (pull_Number pull)]> labels
          | [] => labels
          end
        else labels
    | None => labels
    end in
  (omap valid_label (extraLabels ∪ labels),
   extraAnnotations ∪ {[ProwJobAnnotation := spec_Job spec]}).

(** [name] is the fresh UUID and [now] the clock. *)
Definition NewProwJob (name : string) (now : Time) (spec : ProwJobSpec)
    (extraLabels extraAnnotations : gmap string string) : ProwJob :=
  let '(labels, annotations) := LabelsAndAnnotationsForSpec spec extraLabels extraAnnotations in
  mkProwJob name "" labels annotations 0%Z spec
    (mkProwJobStatus now None None TriggeredState "" "" "" "" "" None).

Definition NewPresubmit (name : string) (now : Time) (pr : GitHubPullRequest)
    (baseSHA : string) (job : Presubmit) (eventGUID : string) : ProwJob :=
  let refs := createRefs pr baseSHA in
  let labels := <[EventGUID := eventGUID]> (jb_Labels (ps_JobBase job)) in
  NewProwJob name now (PresubmitSpec job refs) labels (jb_Annotations (ps_JobBase job)).
End labels.

(** ** Aborting superseded jobs (abort.go) *)

Definition GitHubReporterName : string := "github-reporter".

(** The [%v] verb on a slice of integers *)
Definition ints_v (l : list Z) : string := "[" +:+ string_join " " (itoa <$> l) +:+ "]".

Definition digestRefs (ref : Refs) : string :=
  refs_Org ref +:+ "/" +:+ refs_Repo ref +:+ "@" +:+ refs_BaseRef ref +:+ " " +:+
  ints_v (sort_by id (pull_Number <$> refs_Pulls ref)).

Definition job_identifier (pj : ProwJob) : string :=
  let spec := pj_Spec pj in
  let refs := match spec_Refs spec with Some r => [digestRefs r] | None => [] end in
  string_join "," (merge_sort String.le
    ([spec_Type spec; spec_Job spec] ++ refs ++ (digestRefs <$> spec_ExtraRefs spec))).

Definition abortable_type (pj : ProwJob) : bool :=
  bool_decide (spec_Type (pj_Spec pj) = PresubmitJob ∨ spec_Type (pj_Spec pj) = BatchJob).

(** Jobs the loop looks at. *)
Definition abort_candidate (pj : ProwJob) : bool := negb (Complete pj) && abortable_type pj.

Definition mark_aborted (now : Time) (pj : ProwJob) : ProwJob :=
  update_status (λ st,
    set_prev_report
      (Some (<[GitHubReporterName := AbortedState]> (default ∅ (st_PrevReportStates st))))
      (set_state AbortedState (set_completion (Some now) st))) pj.

(** What a failed patch leaves in the caller's slice: the map of reported states,
    if there is one, is shared with the copy that was marked. *)
Definition leak_prev_report (pj : ProwJob) : ProwJob :=
  update_status (λ st,
    set_prev_report (<[GitHubReporterName := AbortedState]> <$> st_PrevReportStates st) st) pj.

Section abort.
Context {E : Type}.
(** The clock, the caller's [cleanup], and [PatchProwjob source destination],
    which asks the API server to apply the difference. *)
Context (now : list E → Time)
        (cleanup : ProwJob → M E (result unit))
        (PatchProwjob : ProwJob → ProwJob → M E (result ProwJob)).

Definition abort_state : Type := list ProwJob * gmap string nat.

(** One iteration: the new state, or the slice and the error to return. *)
Definition abort_step (i : nat) (st : abort_state)
    : M E (abort_state + (list ProwJob * error)) :=
  let '(pjs, dupes) := st in
  match pjs !! i with
  | None => mret (inl st)
  | Some pj =>
      if negb (abort_candidate pj) then mret (inl st)
      else
        let ji := job_identifier pj in
        match dupes !! ji ≫= λ prev, (λ p, (prev, p)) <$> pjs !! prev with
        | None => mret (inl (pjs, <[ji := i]> dupes))
        | Some (prev, prevPJ) =>
            let newer := Before (st_StartTime (pj_Status prevPJ)) (st_StartTime (pj_Status pj)) in
            let cancelIndex := if newer then prev else i in
            let dupes' := if newer then <[ji := i]> dupes else dupes in
            let toCancel := if newer then prevPJ else pj in
            _ ← cleanup toCancel;
            t ← observe now;
            newPJ ← PatchProwjob toCancel (mark_aborted t toCancel);
            mret (match newPJ with
                  | Ok newPJ => inl (<[cancelIndex := newPJ]> pjs, dupes')
                  | Err e => inr (<[cancelIndex := leak_prev_report toCancel]> pjs, e)
                  end)
        end
  end.

Fixpoint abort_loop (todo : list nat) (st : abort_state)
    : M E (list ProwJob * option error) :=
  match todo with
  | [] => mret (st.1, None)
  | i :: todo' =>
      r ← abort_step i st;
      match r with
      | inl st' => abort_loop todo' st'
      | inr (pjs, e) => mret (pjs, Some e)
      end
  end.

Definition TerminateOlderJobs (pjs : list ProwJob) : M E (list ProwJob * option error) :=
  abort_loop (seq 0 (length pjs)) (pjs, ∅).
End abort.

(** ** Lemmas *)

(** A job the loop selects, with the decision it takes for it. *)
Definition selects (f : Filter) (changes : ChangedFilesProvider) (branch : string)
    (run : bool) (p : Presubmit) : Prop :=
  (f p).1.1 = true ∧ Presubmit_ShouldRun p branch changes (f p).1.2 (f p).2 = Ok run.

Lemma filter_loop_spec f changes branch presubmits trig skip :
  filter_loop f changes branch presubmits = Ok (trig, skip) →
  (∀ p, p ∈ trig ↔ p ∈ presubmits ∧ selects f changes branch true p) ∧
  (∀ p, p ∈ skip ↔ p ∈ presubmits ∧ selects f changes branch false p).
Proof.
  revert trig skip. induction presubmits as [|q qs IH]; cbn; intros trig skip Hrun.
  { injection Hrun as <- <-.
    split; intros p; (split; [intros []%not_elem_of_nil | intros [[]%not_elem_of_nil _]]). }
  destruct (f q) as [[matches forced] defaults] eqn:Hf.
  destruct matches; cbn in Hrun.
  - apply rbind_Ok_inv in Hrun as (b & Hb & Hrun).
    apply rbind_Ok_inv in Hrun as ([t s] & Hloop & Hts).
    destruct (IH _ _ Hloop) as [IH1 IH2].
    assert (∀ b', selects f changes branch b' q ↔ b' = b) as Hq.
    { intros b'. unfold selects. rewrite Hf. cbn. rewrite Hb. naive_solver. }
    pose proof (Hq true). pose proof (Hq false).
    destruct b; injection Hts as <- <-; split; intros p;
      rewrite !elem_of_cons; rewrite ?(IH1 p), ?(IH2 p); naive_solver.
  - destruct (IH _ _ Hrun) as [IH1 IH2].
    assert (∀ b', ¬ selects f changes branch b' q) as Hq.
    { intros b'. unfold selects. rewrite Hf. by intros []. }
    split; intros p; rewrite !elem_of_cons; rewrite ?(IH1 p), ?(IH2 p); naive_solver.
Qed.

Lemma AggregateFilter_app fs gs p :
  AggregateFilter (fs ++ gs) p =
    if (AggregateFilter fs p).1.1 then AggregateFilter fs p else AggregateFilter gs p.
Proof.
  induction fs as [|f fs IH]; cbn; [done|].
  destruct (f p) as [[[] ?] ?] eqn:E; cbn; [done|]. apply IH.
Qed.

Lemma merge_sort_perm {A} (R : relation A) `{!RelDecision R, !Transitive R, !Total R, !AntiSymm (=) R}
    (l k : list A) : l ≡ₚ k → merge_sort R l = merge_sort R k.
Proof.
  intros Hp. apply (StronglySorted_unique R); [by apply StronglySorted_merge_sort..|].
  by rewrite !merge_sort_Permutation.
Qed.

Lemma sort_by_id_perm (l k : list Z) : l ≡ₚ k → sort_by id l = sort_by id k.
Proof.
  apply merge_sort_perm; [apply _..|]. intros x y. unfold key_le. cbn. lia.
Qed.

(** ** Properties *)

(** [FilterPresubmits] triggers exactly the selected jobs that should run, and
    reports as skipped exactly the selected jobs that should not run and whose
    context no triggered job will set: no context is both triggered and skipped. *)
Theorem FilterPresubmits_spec f changes branch presubmits trig skip :
  FilterPresubmits f changes branch presubmits = Ok (trig, skip) →
  (∀ p, p ∈ trig ↔ p ∈ presubmits ∧ selects f changes branch true p) ∧
  (∀ p, p ∈ skip ↔ p ∈ presubmits ∧ selects f changes branch false p ∧
     ∀ q, q ∈ trig → ps_Context q ≠ ps_Context p).
Proof.
  unfold FilterPresubmits, determineSkippedPresubmits.
  intros ([t s] & Hloop & [= <- <-])%rbind_Ok_inv.
  destruct (filter_loop_spec _ _ _ _ _ _ Hloop) as [H1 H2].
  split; [done|]. intros p. rewrite list_elem_of_filter, H2, elem_of_set_of, list_elem_of_fmap.
  naive_solver.
Qed.

(** A comment that names a job ([/test foo]) runs it on every branch it is
    configured for, whatever files change; a job that needs an explicit trigger
    runs without being named only on [/retest], after it failed. *)
Theorem PresubmitFilter_commands honorOkToTest contexts body f p :
  PresubmitFilter honorOkToTest contexts body = Ok f →
  (TriggerMatches p body = true →
     (f p).1.1 = true ∧
     ∀ branch changes, Presubmit_CouldRun p branch = true →
       Presubmit_ShouldRun p branch changes (f p).1.2 (f p).2 = Ok true) ∧
  (TriggerMatches p body = false → NeedsExplicitTrigger p = true → (f p).1.1 = true →
     RetestRe body = true ∧
     ∃ failedContexts allContexts,
       contexts tt = Ok (failedContexts, allContexts) ∧ ps_Context p ∈ failedContexts).
Proof.
  unfold PresubmitFilter. intros (retest & Hretest & [= <-])%rbind_Ok_inv. split.
  - intros Ht. cbn. rewrite Ht. split; [done|]. intros branch changes Hb.
    unfold Presubmit_ShouldRun. rewrite Hb. cbn. by destruct (ps_AlwaysRun p).
  - intros Ht Hx. cbn. rewrite Ht, AggregateFilter_app.
    assert ((AggregateFilter (if (honorOkToTest && OkToTestRe body) || TestAllRe body
                              then [TestAllFilter] else []) p).1.1 = false) as Hall.
    { destruct ((honorOkToTest && OkToTestRe body) || TestAllRe body); [|done].
      cbn. by rewrite Hx. }
    destruct (RetestRe body); [|injection Hretest as <-; cbn; by rewrite Hall].
    apply rbind_Ok_inv in Hretest as ([failed all] & Hc & [= <-]).
    cbn. rewrite Hx, andb_false_l, orb_false_r. intros Hrun. split; [done|].
    exists failed, all. split; [done|]. case_bool_decide; [done|]. cbn in Hrun. congruence.
Qed.

(** Every label of a new ProwJob is acceptable to the API server: names that
    are too long or ill-formed are shortened or dropped, so that creating the
    object cannot fail on a label. *)
Theorem NewProwJob_labels_valid IsValidLabelValue name now spec extraLabels extraAnnotations k v :
  pj_Labels (NewProwJob IsValidLabelValue name now spec extraLabels extraAnnotations) !! k = Some v →
  IsValidLabelValue v = true.
Proof.
  unfold NewProwJob, LabelsAndAnnotationsForSpec. cbn [pj_Labels].
  rewrite lookup_omap. intros (v' & _ & Hv)%bind_Some. unfold valid_label in Hv.
  by repeat case_match; simplify_eq.
Qed.

(** The identifier under which older jobs are looked up does not depend on
    the order of the pull requests in the refs nor on that of the extra refs. *)
Theorem job_identifier_perm pj pj' r r' :
  spec_Type (pj_Spec pj) = spec_Type (pj_Spec pj') →
  spec_Job (pj_Spec pj) = spec_Job (pj_Spec pj') →
  spec_Refs (pj_Spec pj) = Some r → spec_Refs (pj_Spec pj') = Some r' →
  refs_Org r = refs_Org r' → refs_Repo r = refs_Repo r' → refs_BaseRef r = refs_BaseRef r' →
  pull_Number <$> refs_Pulls r ≡ₚ pull_Number <$> refs_Pulls r' →
  spec_ExtraRefs (pj_Spec pj) ≡ₚ spec_ExtraRefs (pj_Spec pj') →
  job_identifier pj = job_identifier pj'.
Proof.
  intros E1 E2 R R' Ho Hr Hb Hp He. unfold job_identifier. rewrite E1, E2, R, R'.
  f_equal. apply merge_sort_perm; [apply _..|].
  assert (digestRefs r = digestRefs r') as ->.
  { unfold digestRefs. by rewrite Ho, Hr, Hb, (sort_by_id_perm _ _ Hp). }
  by rewrite He.
Qed.

(** *** The loop invariant of [TerminateOlderJobs] *)

#[local] Arguments job_identifier : simpl never.
#[local] Arguments abort_candidate : simpl never.
#[local] Arguments mark_aborted : simpl never.

Definition start (pj : ProwJob) : Time := st_StartTime (pj_Status pj).

Section abort_proofs.
Context {E : Type} (now : list E → Time) (cleanup : ProwJob → M E (result unit))
  (PatchProwjob : ProwJob → ProwJob → M E (result ProwJob)).

(** The API server does not answer a patch that completes a job with a job
    that is not complete. *)
Hypothesis patch_completes : ∀ tr src dst new,
  (PatchProwjob src dst tr).2 = Ok new → Complete dst = true → Complete new = true.

Lemma mark_aborted_complete t pj : Complete (mark_aborted t pj) = true.
Proof. done. Qed.

Lemma complete_not_candidate pj : Complete pj = true → abort_candidate pj = false.
Proof. unfold abort_candidate. by intros ->. Qed.

Record abort_inv (pjs0 : list ProwJob) (k : nat) (st : list ProwJob * gmap string nat)
    : Prop := {
  ai_length : length st.1 = length pjs0;
  ai_todo i : k ≤ i → st.1 !! i = pjs0 !! i;
  ai_dupes ji i : st.2 !! ji = Some i →
    i < k ∧ ∃ pj, st.1 !! i = Some pj ∧ pjs0 !! i = Some pj ∧
      abort_candidate pj = true ∧ job_identifier pj = ji;
  ai_found i pj : i < k → st.1 !! i = Some pj → abort_candidate pj = true →
    st.2 !! job_identifier pj = Some i;
  ai_latest i pj : i < k → pjs0 !! i = Some pj → abort_candidate pj = true →
    ∃ j pj', st.2 !! job_identifier pj = Some j ∧ pjs0 !! j = Some pj' ∧
      (start pj ≤ start pj')%Z;
  ai_kept i pj : pjs0 !! i = Some pj → abort_candidate pj = false → st.1 !! i = Some pj }.

Lemma abort_inv_init pjs : abort_inv pjs 0 (pjs, ∅).
Proof. split; cbn; intros; (done || lia). Qed.

(** Iterations that change nothing but the table. *)
Lemma abort_inv_skip pjs0 k pjs dupes pj :
  abort_inv pjs0 k (pjs, dupes) → pjs !! k = Some pj → abort_candidate pj = false →
  abort_inv pjs0 (S k) (pjs, dupes).
Proof.
  intros [H1 H2 H3 H4 H5 H6] Hk Hc. cbn in *. rewrite H2 in Hk by done.
  split; cbn; try done.
  - intros i Hi. apply H2. lia.
  - intros ji i Hi. destruct (H3 _ _ Hi) as (? & ?). split; [lia|done].
  - intros i p Hi Hp Hcp. destruct (decide (i = k)) as [->|]; [|apply H4; (done || lia)].
    rewrite H2 in Hp by done. congruence.
  - intros i p Hi Hp Hcp. destruct (decide (i = k)) as [->|]; [congruence|].
    apply (H5 i p); (done || lia).
Qed.

Lemma abort_inv_first pjs0 k pjs dupes pj :
  abort_inv pjs0 k (pjs, dupes) → pjs !! k = Some pj → abort_candidate pj = true →
  dupes !! job_identifier pj = None →
  abort_inv pjs0 (S k) (pjs, <[job_identifier pj := k]> dupes).
Proof.
  intros [H1 H2 H3 H4 H5 H6] Hk Hc Hno. cbn in *.
  pose proof Hk as Hk0. rewrite H2 in Hk0 by done.
  split; cbn; try done.
  - intros i Hi. apply H2. lia.
  - intros ji i [[<- <-]|[Hne Hi]]%lookup_insert_Some; [naive_solver lia|].
    destruct (H3 _ _ Hi) as (? & ?). split; [lia|done].
  - intros i p Hi Hp Hcp. destruct (decide (i = k)) as [->|].
    { rewrite Hk in Hp. injection Hp as <-. apply lookup_insert_eq. }
    assert (dupes !! job_identifier p = Some i) as Hd by (apply H4; (done || lia)).
    rewrite lookup_insert_ne; [done|]. intros Heq. rewrite Heq in Hno. congruence.
  - intros i p Hi Hp Hcp. destruct (decide (i = k)) as [->|].
    { rewrite Hk0 in Hp. injection Hp as <-. exists k, pj.
      rewrite lookup_insert_eq. repeat split; (done || lia). }
    destruct (H5 i p) as (j & p' & Hj & ? & ?); [lia|done..|].
    exists j, p'. rewrite lookup_insert_ne; [done|].
    intros Heq. rewrite Heq in Hno. congruence.
Qed.

(** An iteration that cancels the current job or the one found before. *)
Lemma abort_inv_cancel pjs0 k pjs dupes pj prev prevPJ new (newer : bool) :
  abort_inv pjs0 k (pjs, dupes) → pjs !! k = Some pj → abort_candidate pj = true →
  dupes !! job_identifier pj = Some prev → pjs !! prev = Some prevPJ →
  newer = Before (start prevPJ) (start pj) → Complete new = true →
  abort_inv pjs0 (S k)
    (<[(if newer then prev else k) := new]> pjs,
     if newer then <[job_identifier pj := k]> dupes else dupes).
Proof.
  intros [H1 H2 H3 H4 H5 H6] Hk Hc Hd Hprev Hnewer Hnew. cbn in *.
  pose proof Hk as Hk0. rewrite H2 in Hk0 by done.
  destruct (H3 _ _ Hd) as (Hlt & q & Hq & Hq0 & Hcq & Hidq).
  assert (q = prevPJ) as -> by congruence.
  assert (abort_candidate new = false) as Hcn by by apply complete_not_candidate.
  unfold Before in Hnewer.
  assert (k < length pjs) as Hkl by (eapply lookup_lt_Some; eauto).
  destruct newer; symmetry in Hnewer;
    [apply Z.ltb_lt in Hnewer | apply Z.ltb_ge in Hnewer]; split; cbn;
    rewrite ?length_insert; try done.
  - intros i Hi. rewrite list_lookup_insert_ne by lia. apply H2. lia.
  - intros ji i [[<- <-]|[Hne Hi]]%lookup_insert_Some.
    + split; [lia|]. exists pj. rewrite list_lookup_insert_ne by lia. done.
    + destruct (H3 _ _ Hi) as (? & p & Hp & Hp0 & Hcp & Hidp). split; [lia|].
      exists p. rewrite list_lookup_insert_ne by congruence. done.
  - intros i p Hi. rewrite list_lookup_insert_Some. intros [(<- & <- & _)|[Hne Hp]] Hcp;
      [congruence|]. destruct (decide (i = k)) as [->|].
    { rewrite Hk in Hp. injection Hp as <-. apply lookup_insert_eq. }
    assert (dupes !! job_identifier p = Some i) as Hdp by (apply H4; (done || lia)).
    rewrite lookup_insert_ne; [done|]. intros Heq. rewrite Heq, Hdp in Hd. congruence.
  - intros i p Hi Hp Hcp. destruct (decide (i = k)) as [->|].
    { exists k, pj. rewrite Hk0 in Hp. injection Hp as <-. rewrite lookup_insert_eq.
      repeat split; (done || lia). }
    destruct (H5 i p) as (j & p' & Hj & Hp' & Hle); [lia|done..|].
    destruct (decide (job_identifier p = job_identifier pj)) as [Heq|Hne].
    + exists k, pj. rewrite Heq, lookup_insert_eq. repeat split; [done..|].
      rewrite Heq, Hd in Hj. injection Hj as <-. rewrite Hq0 in Hp'. injection Hp' as <-. lia.
    + exists j, p'. by rewrite lookup_insert_ne.
  - intros i p Hp Hcp. rewrite list_lookup_insert_ne; [by apply H6|]. congruence.
  - intros i Hi. rewrite list_lookup_insert_ne by lia. apply H2. lia.
  - intros ji i Hi. destruct (H3 _ _ Hi) as (? & p & Hp & Hp0 & Hcp & Hidp). split; [lia|].
    exists p. rewrite list_lookup_insert_ne by lia. done.
  - intros i p Hi. rewrite list_lookup_insert_Some. intros [(<- & <- & _)|[Hne Hp]] Hcp;
      [congruence|]. apply H4; (done || lia).
  - intros i p Hi Hp Hcp. destruct (decide (i = k)) as [->|]; [|apply (H5 i p); (done || lia)].
    rewrite Hk0 in Hp. injection Hp as <-. exists prev, prevPJ. done.
  - intros i p Hp Hcp. rewrite list_lookup_insert_ne; [by apply H6|]. congruence.
Qed.

Lemma abort_step_inv pjs0 k st tr st' :
  abort_inv pjs0 k st → k < length pjs0 →
  (abort_step now cleanup PatchProwjob k st tr).2 = inl st' → abort_inv pjs0 (S k) st'.
Proof.
  destruct st as [pjs dupes]. intros Hinv Hk. unfold abort_step.
  destruct (pjs !! k) as [pj|] eqn:Hpj.
  2:{ apply lookup_ge_None in Hpj. destruct Hinv as [Hl]. cbn in Hl. lia. }
  destruct (abort_candidate pj) eqn:Hc; cbn [negb].
  2:{ intros [= <-]. by eapply abort_inv_skip. }
  destruct (dupes !! job_identifier pj) as [prev|] eqn:Hd; cbn [mbind option_bind].
  2:{ intros [= <-]. by apply abort_inv_first. }
  destruct (ai_dupes _ _ _ Hinv _ _ Hd) as (_ & prevPJ & Hprev & _). cbn in Hprev.
  rewrite Hprev. cbn [fmap option_fmap option_map].
  rewrite !bind_app, ret_app. cbn [snd].
  destruct (PatchProwjob _ _ _) as [tr' [new|e]] eqn:Hpatch; cbn [snd]; [|done].
  intros [= <-]. eapply abort_inv_cancel; try done.
  eapply patch_completes; [by rewrite Hpatch | done].
Qed.

Lemma abort_loop_inv pjs0 n k st tr pjs' :
  abort_inv pjs0 k st → k + n = length pjs0 →
  (abort_loop now cleanup PatchProwjob (seq k n) st tr).2 = (pjs', None) →
  ∃ dupes, abort_inv pjs0 (length pjs0) (pjs', dupes).
Proof.
  revert k st tr. induction n as [|n IH]; intros k st tr Hinv Hn; cbn.
  { intros [= <-]. exists st.2. rewrite <-Hn, Nat.add_0_r. by destruct st. }
  rewrite bind_app. destruct (abort_step _ _ _ k st tr) as [tr' r] eqn:Hs. cbn [snd fst].
  destruct r as [st'|[pjs e]]; [|done]. apply IH; [|lia].
  eapply abort_step_inv; [done | lia | by rewrite Hs].
Qed.

(** *** What the loop does, whether or not it succeeds *)

(** [p] is unfinished and has an unfinished version [q] that started no earlier. *)
Definition superseded (pjs : list ProwJob) (p q : ProwJob) : Prop :=
  ∃ i j, i ≠ j ∧ pjs !! i = Some p ∧ pjs !! j = Some q ∧ abort_candidate p = true ∧
    abort_candidate q = true ∧ job_identifier p = job_identifier q ∧ (start p ≤ start q)%Z.

Section run.
Variables (pjs0 : list ProwJob) (P : E → Prop) (Q : ProwJob → Prop).
Hypothesis cleanup_emits : ∀ p q, superseded pjs0 p q → emits P (cleanup p).
Hypothesis patch_emits : ∀ p q t, superseded pjs0 p q → emits P (PatchProwjob p (mark_aborted t p)).
Hypothesis patch_answer : ∀ tr p t new, (PatchProwjob p (mark_aborted t p) tr).2 = Ok new → Q new.

(** What is left: jobs as they were, answers to patches, and one whose patch failed. *)
Definition left_over (p : ProwJob) : Prop :=
  p ∈ pjs0 ∨ Q p ∨ ∃ q, q ∈ pjs0 ∧ p = leak_prev_report q.

Definition kept (pjs : list ProwJob) : Prop := Forall (λ p, p ∈ pjs0 ∨ Q p) pjs.

Lemma abort_step_run k st tr :
  abort_inv pjs0 k st → k < length pjs0 → kept st.1 →
  ∃ new, (abort_step now cleanup PatchProwjob k st tr).1 = tr ++ new ∧ Forall P new ∧
    match (abort_step now cleanup PatchProwjob k st tr).2 with
    | inl st' => abort_inv pjs0 (S k) st' ∧ kept st'.1
    | inr (pjs, _) => Forall left_over pjs
    end.
Proof.
  intros Hinv Hk Hkept. pose proof (λ st', abort_step_inv pjs0 k st tr st' Hinv Hk) as Hstep.
  destruct st as [pjs dupes]. unfold abort_step in *. cbn [fst] in Hkept.
  assert (∀ st' : abort_state, st'.1 = pjs → (∀ st'', inl (B := list ProwJob * error) st' = inl st'' → abort_inv pjs0 (S k) st'') →
    ∃ new, tr = tr ++ new ∧ Forall P new ∧ abort_inv pjs0 (S k) st' ∧ kept st'.1) as Hquiet.
  { intros st' -> Hs. exists []. rewrite app_nil_r. split_and!; [done..|by apply Hs|done]. }
  revert Hstep. destruct (pjs !! k) as [pj|] eqn:Hpj; [|intros Hs; exact (Hquiet (pjs, dupes) eq_refl Hs)].
  destruct (abort_candidate pj) eqn:Hc; cbn [negb]; [|intros Hs; exact (Hquiet (pjs, dupes) eq_refl Hs)].
  destruct (dupes !! job_identifier pj) as [prev|] eqn:Hd; cbn [mbind option_bind];
    [|intros Hs; exact (Hquiet (pjs, <[job_identifier pj := k]> dupes) eq_refl Hs)].
  destruct (ai_dupes _ _ _ Hinv _ _ Hd) as (Hlt & prevPJ & Hprev & Hprev0 & Hcp & Hid). cbn in Hprev.
  assert (pjs0 !! k = Some pj) as Hk0 by (rewrite <- (ai_todo _ _ _ Hinv k) by done; done).
  rewrite Hprev. cbn [fmap option_fmap option_map].
  set (newer := Before _ _). set (toCancel := if newer then prevPJ else pj). intros Hstep.
  assert (superseded pjs0 toCancel (if newer then pj else prevPJ)) as Hsup.
  { unfold toCancel. destruct newer eqn:En; unfold newer, Before in En.
    - apply Z.ltb_lt in En. exists prev, k. split_and!; [lia|done..|]. unfold start. lia.
    - apply Z.ltb_ge in En. exists k, prev. split_and!; [lia|done..|]. unfold start. lia. }
  assert (toCancel ∈ pjs0) as Hin by (destruct Hsup as (i & _ & _ & Hi & _); by eapply list_elem_of_lookup_2).
  rewrite !bind_app, ret_app in *. cbn [fst snd] in *.
  destruct (cleanup_emits _ _ Hsup tr) as (new1 & E1 & Hnew1). rewrite E1 in *. unfold observe in *. cbn [fst snd] in *.
  destruct (patch_emits _ _ (now (tr ++ new1)) Hsup (tr ++ new1)) as (new2 & E2 & Hnew2).
  pose proof (patch_answer (tr ++ new1) toCancel (now (tr ++ new1))) as Ha. revert Hstep Ha E2.
  destruct (PatchProwjob toCancel _ (tr ++ new1)) as [tr2 r]. cbn [fst snd]. intros Hstep Ha ->.
  exists (new1 ++ new2). rewrite app_assoc. split; [done|]. split; [by apply Forall_app|].
  destruct r as [new|e]; [split; [by apply Hstep|]|].
  - apply Forall_insert; [done|]. right. by apply Ha.
  - apply Forall_insert; [|right; right; by exists toCancel].
    eapply Forall_impl; [exact Hkept|]. intros p [?|?]; [by left|by right; left].
Qed.

Lemma abort_loop_run n k st tr :
  abort_inv pjs0 k st → k + n = length pjs0 → kept st.1 →
  ∃ new, (abort_loop now cleanup PatchProwjob (seq k n) st tr).1 = tr ++ new ∧ Forall P new ∧
    Forall left_over (abort_loop now cleanup PatchProwjob (seq k n) st tr).2.1.
Proof.
  revert k st tr. induction n as [|n IH]; intros k st tr Hinv Hn Hkept; cbn [seq abort_loop].
  { exists []. rewrite app_nil_r. split_and!; [done..|]. cbn. eapply Forall_impl; [exact Hkept|].
    intros p [?|?]; [by left|by right; left]. }
  rewrite bind_app. destruct (abort_step_run k st tr Hinv) as (new & E1 & Hnew & Hr); [lia|done|].
  destruct (abort_step _ _ _ k st tr) as [tr' r]. cbn [fst snd] in *. subst tr'.
  destruct r as [st'|[pjs e]].
  - destruct Hr as [Hinv' Hk']. destruct (IH (S k) st' (tr ++ new) Hinv') as (new' & E2 & Hnew' & Hr'); [lia|done|].
    exists (new ++ new'). rewrite app_assoc. split; [done|]. split; [by apply Forall_app|done].
  - exists new. done.
Qed.

(** The calls of the loop are for superseded jobs, and what it leaves are jobs as they
    were, as they were answered, or, after a failure, with a report noted. *)
Lemma TerminateOlderJobs_run tr :
  ∃ new, (TerminateOlderJobs now cleanup PatchProwjob pjs0 tr).1 = tr ++ new ∧ Forall P new ∧
    Forall left_over (TerminateOlderJobs now cleanup PatchProwjob pjs0 tr).2.1.
Proof.
  apply abort_loop_run; [apply abort_inv_init|lia|]. apply Forall_forall. intros p ?. by left.
Qed.
End run.

(** C30. When [TerminateOlderJobs] succeeds, at most one unfinished presubmit or
    batch job per identifier is left; for every such job there was, the one
    left for its identifier is untouched and started no earlier; all other jobs
    are untouched. *)
Theorem TerminateOlderJobs_spec pjs tr pjs' :
  (TerminateOlderJobs now cleanup PatchProwjob pjs tr).2 = (pjs', None) →
  (∀ i j p q, pjs' !! i = Some p → pjs' !! j = Some q →
     abort_candidate p = true → abort_candidate q = true →
     job_identifier p = job_identifier q → i = j) ∧
  (∀ i p, pjs !! i = Some p → abort_candidate p = true →
     ∃ j q, pjs !! j = Some q ∧ pjs' !! j = Some q ∧ abort_candidate q = true ∧
            job_identifier q = job_identifier p ∧ (start p ≤ start q)%Z) ∧
  (∀ i p, pjs !! i = Some p → abort_candidate p = false → pjs' !! i = Some p).
Proof.
  unfold TerminateOlderJobs. intros Hrun.
  apply (abort_loop_inv pjs) in Hrun as [dupes Hinv]; [|apply abort_inv_init|done].
  destruct Hinv as [Hl _ H3 H4 H5 H6]. cbn in *. repeat split; [| |exact H6].
  - intros i j p q Hp Hq Hcp Hcq Hid.
    apply lookup_lt_Some in Hp as Hi. apply lookup_lt_Some in Hq as Hj. rewrite Hl in *.
    pose proof (H4 _ _ Hi Hp Hcp) as D1. pose proof (H4 _ _ Hj Hq Hcq) as D2. congruence.
  - intros i p Hp Hcp. apply lookup_lt_Some in Hp as Hi.
    destruct (H5 _ _ Hi Hp Hcp) as (j & q & Hj & Hq & Hle).
    destruct (H3 _ _ Hj) as (_ & q' & Hq' & Hq0 & Hcq & Hid).
    assert (q' = q) as -> by congruence. exists j, q. done.
Qed.
End abort_proofs.
