(* ===== verification/GoText.v ===== *)
(** * Text functions of Go's strings package

    What the plugins and the reporters use to read comments: substring search,
    splitting at a separator of any length, and trimming Unicode white space of
    UTF-8 text. *)

From S2P Require Import Prelude.
#[local] Open Scope go_scope.

(** The text before and after the first occurrence of [sep]. *)
Fixpoint cut (sep s : string) : option (string * string) :=
  match trim_prefix_go sep s with
  | Some rest => Some (EmptyString, rest)
  | None =>
      match s with
      | EmptyString => None
      | String a s' => prod_map (String a) id <$> cut sep s'
      end
  end.

(** [strings.Contains] *)
Definition contains (s sub : string) : bool := bool_decide (is_Some (cut sub s)).

(** [strings.Split] for a separator that is not empty; a piece per step, so that
    the length of the text is enough. *)
Fixpoint split_go (fuel : nat) (sep s : string) : list string :=
  match fuel with
  | 0 => [s]
  | S fuel => match cut sep s with
              | Some (piece, rest) => piece :: split_go fuel sep rest
              | None => [s]
              end
  end.
Definition split (sep s : string) : list string := split_go (String.length s) sep s.

Definition bytes (l : list nat) : string :=
  foldr (λ n s, String (Ascii.ascii_of_nat n) s) EmptyString l.

(** The UTF-8 encodings of the runes [unicode.IsSpace] accepts. *)
Definition spaces : list string :=
  bytes <$> [[9]; [10]; [11]; [12]; [13]; [32]; [194; 133]; [194; 160]; [225; 154; 128];
    [226; 128; 128]; [226; 128; 129]; [226; 128; 130]; [226; 128; 131]; [226; 128; 132];
    [226; 128; 133]; [226; 128; 134]; [226; 128; 135]; [226; 128; 136]; [226; 128; 137];
    [226; 128; 138]; [226; 128; 168]; [226; 128; 169]; [226; 128; 175]; [226; 129; 159];
    [227; 128; 128]].

(** The rest after the first of the candidates that can be taken off. *)
Fixpoint strip_first (strip : string → string → option string) (l : list string) (s : string)
    : option string :=
  match l with
  | [] => None
  | x :: l => match strip x s with Some rest => Some rest | None => strip_first strip l s end
  end.

Fixpoint trim_go (fuel : nat) (strip : string → string → option string) (s : string) : string :=
  match fuel with
  | 0 => s
  | S fuel => match strip_first strip spaces s with
              | Some rest => trim_go fuel strip rest
              | None => s
              end
  end.

(** [strings.TrimSpace]; every step takes off a byte at least. *)
Definition trim_space (s : string) : string :=
  let left := trim_go (String.length s) trim_prefix_go s in
  trim_go (String.length left) trim_suffix_go left.

(** [url.QueryEscape] *)
Definition hex_digit (n : nat) : ascii :=
  Ascii.ascii_of_nat (if bool_decide (n < 10) then 48 + n else 55 + n).
Definition unreserved (c : ascii) : bool :=
  let n := Ascii.nat_of_ascii c in
  bool_decide (48 ≤ n ≤ 57 ∨ 65 ≤ n ≤ 90 ∨ 97 ≤ n ≤ 122) ||
  contains_char c "-_.~".
Fixpoint query_escape (s : string) : string :=
  match s with
  | EmptyString => EmptyString
  | String c s' =>
      let n := Ascii.nat_of_ascii c in
      if unreserved c then String c (query_escape s')
      else if bool_decide (c = " "%char) then String "+" (query_escape s')
      else String "%" (String (hex_digit (n / 16)) (String (hex_digit (n mod 16))
             (query_escape s')))
  end.

(** [strconv.Atoi], for an [int] of 64 bits *)
Definition digit (c : ascii) : bool := bool_decide (48 ≤ Ascii.nat_of_ascii c ≤ 57).
Fixpoint all_chars (f : ascii → bool) (s : string) : bool :=
  match s with EmptyString => true | String c s => f c && all_chars f s end.
Fixpoint value_of (acc : Z) (digits : string) : Z :=
  match digits with
  | EmptyString => acc
  | String c s => value_of (10 * acc + (Z.of_nat (Ascii.nat_of_ascii c) - 48)) s
  end.
Definition Atoi (s : string) : result Z :=
  let '(sign, digits) := match s with
    | String "-" s' => ((-1)%Z, s')
    | String "+" s' => (1%Z, s')
    | _ => (1%Z, s)
    end in
  let v := (sign * value_of 0 digits)%Z in
  if bool_decide (digits = "") || negb (all_chars digit digits)
  then Err (Errorf "strconv.Atoi: parsing %q: invalid syntax" [AStr s])
  else if bool_decide (- 2 ^ 63 ≤ v < 2 ^ 63)%Z then Ok v
  else Err (Errorf "strconv.Atoi: parsing %q: value out of range" [AStr s]).

Definition newline : string := bytes [10].
(** Lines, each with its newline. *)
Definition text (lines : list string) : string := string_join newline lines.

(** ** Pieces of regular expressions *)

(** The longest prefix of bytes with a property, and the rest. *)
Fixpoint span (f : ascii → bool) (s : string) : string * string :=
  match s with
  | EmptyString => (EmptyString, EmptyString)
  | String c s' => if f c then let '(a, b) := span f s' in (String c a, b) else (EmptyString, s)
  end.

Definition fold_byte (c : ascii) (s : string) : option string :=
  match s with
  | EmptyString => None
  | String a s' => if bool_decide (ascii_to_lower a = ascii_to_lower c) then Some s' else None
  end.
(** A letter in any case; the long s and the Kelvin sign fold to s and k. *)
Definition fold_char (c : ascii) (s : string) : option string :=
  match fold_byte c s with
  | Some rest => Some rest
  | None =>
      if bool_decide (ascii_to_lower c = "s"%char) then trim_prefix_go (bytes [197; 191]) s
      else if bool_decide (ascii_to_lower c = "k"%char) then trim_prefix_go (bytes [226; 132; 170]) s
      else None
  end.
(** The rest after an ASCII prefix, with the flag [(?i)]. *)
Fixpoint trim_prefix_fold (p s : string) : option string :=
  match p with
  | EmptyString => Some s
  | String c p => match fold_char c s with Some rest => trim_prefix_fold p rest | None => None end
  end.

(** The bytes of the first rune of a text (utf8.DecodeRune); one that is not UTF-8
    counts as a rune of one byte. *)
Definition continuation (lo hi : nat) (c : ascii) : bool := bool_decide (lo ≤ Ascii.nat_of_ascii c ≤ hi).
Definition rune_width (s : string) : nat :=
  let cont := continuation 128 191 in
  match s with
  | EmptyString => 0
  | String c0 s =>
      let n := Ascii.nat_of_ascii c0 in
      let second := if bool_decide (n = 224) then continuation 160 191
                    else if bool_decide (n = 237) then continuation 128 159
                    else if bool_decide (n = 240) then continuation 144 191
                    else if bool_decide (n = 244) then continuation 128 143 else cont in
      match s with
      | String c1 s1 =>
          if negb (second c1) then 1
          else if bool_decide (194 ≤ n ≤ 223) then 2
          else match s1 with
               | String c2 s2 =>
                   if negb (cont c2) then 1
                   else if bool_decide (224 ≤ n ≤ 239) then 3
                   else match s2 with
                        | String c3 _ => if cont c3 && bool_decide (240 ≤ n ≤ 244) then 4 else 1
                        | EmptyString => 1
                        end
               | EmptyString => 1
               end
      | EmptyString => 1
      end
  end.
Fixpoint skip_bytes (n : nat) (s : string) : string :=
  match n, s with S n, String _ s => skip_bytes n s | _, _ => s end.
(** The rest after [.]: any rune but a newline. *)
Definition skip_rune (s : string) : option string :=
  match s with
  | EmptyString => None
  | String c _ => if bool_decide (c = "010"%char) then None else Some (skip_bytes (rune_width s) s)
  end.

Definition first_line (s : string) : string := default "" (head (split_char "010" s)).

(** The text before and after the last occurrence of [sep]. *)
Fixpoint cut_last (sep s : string) : option (string * string) :=
  match (match s with
         | EmptyString => None
         | String a s' => prod_map (String a) id <$> cut_last sep s'
         end) with
  | Some r => Some r
  | None => pair EmptyString <$> trim_prefix_go sep s
  end.

Section text_lemmas.
Implicit Types s t sep : string.

Lemma trim_prefix_go_Some p s t : trim_prefix_go p s = Some t ↔ s = p +:+ t.
Proof.
  revert s. induction p as [|a p IH]; intros s; cbn [trim_prefix_go].
  - rewrite str_app_nil. split; congruence.
  - destruct s as [|b s]; [split; [done|by rewrite str_app_cons]|]. rewrite str_app_cons.
    case_decide as Hab; [rewrite IH, Hab; split; congruence|split; [done|congruence]].
Qed.

Lemma trim_suffix_go_app p t : is_Some (trim_suffix_go p (t +:+ p)).
Proof.
  induction t as [|a t IH].
  - rewrite str_app_nil. destruct p; cbn [trim_suffix_go]; (rewrite decide_True; [by eexists|done]).
  - rewrite str_app_cons. cbn [trim_suffix_go]. case_decide; [by eexists|]. by apply fmap_is_Some.
Qed.

Lemma cut_Some sep s p r : cut sep s = Some (p, r) → s = p +:+ sep +:+ r.
Proof.
  revert p. induction s as [|a s IH]; intros p; cbn [cut];
    destruct (trim_prefix_go _ _) as [rest|] eqn:E.
  1, 3: apply trim_prefix_go_Some in E; intros [= <- <-]; exact E.
  - done.
  - destruct (cut sep s) as [[p' r']|]; [|done]. intros [= <- <-].
    rewrite str_app_cons. f_equal. by apply IH.
Qed.

Lemma contains_app sep p r : contains (p +:+ sep +:+ r) sep = true.
Proof.
  apply bool_decide_eq_true. induction p as [|a p IH].
  - rewrite str_app_nil. assert (trim_prefix_go sep (sep +:+ r) = Some r) as E
      by by apply trim_prefix_go_Some.
    destruct (sep +:+ r); cbn [cut]; rewrite E; by eexists.
  - rewrite str_app_cons. cbn [cut]. destruct (trim_prefix_go _ _); [by eexists|].
    by apply fmap_is_Some.
Qed.

Lemma contains_spec s sub : contains s sub = true ↔ ∃ p r, s = p +:+ sub +:+ r.
Proof.
  split; [|intros (p & r & ->); apply contains_app].
  intros [[p r] Hc]%bool_decide_eq_true. exists p, r. by apply cut_Some.
Qed.

Lemma cut_last_Some sep s p r : cut_last sep s = Some (p, r) → s = p +:+ sep +:+ r.
Proof.
  revert p. induction s as [|a s IH]; intros p; cbn [cut_last].
  - destruct (trim_prefix_go sep _) as [rest|] eqn:E; [|done]. intros [= <- <-].
    by apply trim_prefix_go_Some in E.
  - destruct (cut_last sep s) as [[p' r']|] eqn:E; cbn.
    + intros [= <- <-]. rewrite str_app_cons. f_equal. by apply IH.
    + destruct (trim_prefix_go sep _) as [rest|] eqn:E'; [|done]. intros [= <- <-].
      by apply trim_prefix_go_Some in E'.
Qed.

(** A separator at the end is the last one. *)
Lemma cut_last_app sep p : sep ≠ "" → cut_last sep (p +:+ sep) = Some (p, "").
Proof.
  intros Hne. induction p as [|a p IH].
  - rewrite str_app_nil. destruct sep as [|a sep]; [done|]. cbn [cut_last].
    destruct (cut_last (String a sep) sep) as [[p r]|] eqn:E.
    + apply cut_last_Some, (f_equal String.length) in E.
      rewrite !str_length_app in E. cbn [String.length] in E. lia.
    + assert (trim_prefix_go (String a sep) (String a sep) = Some "") as ->
        by (apply trim_prefix_go_Some; by rewrite string_app_nil_r). done.
  - rewrite str_app_cons. cbn [cut_last]. by rewrite IH.
Qed.

Lemma first_line_all s : contains_char "010" s = false → first_line s = s.
Proof. intros Hn. unfold first_line. by rewrite split_char_none. Qed.

Lemma strip_first_None strip l s : strip_first strip l s = None ↔ ∀ x, x ∈ l → strip x s = None.
Proof.
  induction l as [|x l IH]; cbn [strip_first]; [set_solver|]. setoid_rewrite elem_of_cons.
  destruct (strip x s) eqn:E; [|rewrite IH]; naive_solver.
Qed.

(** Text without white space at its ends. *)
Definition trimmed s : Prop :=
  ∀ x, x ∈ spaces → trim_prefix_go x s = None ∧ trim_suffix_go x s = None.

Definition trimmedb s : bool :=
  forallb (λ x, match trim_prefix_go x s, trim_suffix_go x s with
                | None, None => true | _, _ => false end) spaces.

Lemma trimmedb_ok s : trimmedb s = true → trimmed s.
Proof.
  unfold trimmedb. rewrite forallb_forall. intros Hs x Hx%list_elem_of_In. specialize (Hs x Hx).
  by destruct (trim_prefix_go x s), (trim_suffix_go x s).
Qed.

Lemma trim_space_trimmed s : trimmed s → trim_space s = s.
Proof.
  intros Hs. assert (strip_first trim_prefix_go spaces s = None) as Hl
    by (apply strip_first_None; intros x Hx; by apply Hs).
  assert (strip_first trim_suffix_go spaces s = None) as Hr
    by (apply strip_first_None; intros x Hx; by apply Hs).
  assert (∀ n strip, strip_first strip spaces s = None → trim_go n strip s = s) as Hg
    by (intros [|n] strip E; [done|cbn [trim_go]; by rewrite E]).
  unfold trim_space. rewrite Hg by done. by rewrite Hg.
Qed.

Lemma strip_first_Some strip l s t :
  strip_first strip l s = Some t → ∃ x, x ∈ l ∧ strip x s = Some t.
Proof.
  induction l as [|x l IH]; cbn [strip_first]; [done|]. destruct (strip x s) eqn:E; set_solver.
Qed.

Lemma length_str_app s t : String.length (s +:+ t) = String.length s + String.length t.
Proof. induction s as [|a s IH]; [done|]. rewrite str_app_cons. cbn [String.length]. lia. Qed.

Lemma spaces_length x : x ∈ spaces → 1 ≤ String.length x.
Proof.
  assert (Forall (λ x, 1 ≤ String.length x) spaces) as H
    by (unfold spaces; cbn; repeat constructor; lia).
  rewrite Forall_forall in H. apply H.
Qed.

(** Enough steps take off all of it. *)
Lemma trim_go_done strip n s :
  (∀ x s t, x ∈ spaces → strip x s = Some t → String.length t < String.length s) →
  String.length s ≤ n → strip_first strip spaces (trim_go n strip s) = None.
Proof.
  intros Hs. revert s. induction n as [|n IH]; intros s Hn.
  - cbn [trim_go]. destruct (strip_first strip spaces s) as [t|] eqn:E; [|done].
    apply strip_first_Some in E as (x & Hx & E). pose proof (Hs _ _ _ Hx E). lia.
  - cbn [trim_go]. destruct (strip_first strip spaces s) as [t|] eqn:E; [|done].
    apply strip_first_Some in E as (x & Hx & E). pose proof (Hs _ _ _ Hx E). apply IH. lia.
Qed.

Lemma trim_go_prefix n s : ∃ w, s = w +:+ trim_go n trim_prefix_go s.
Proof.
  revert s. induction n as [|n IH]; intros s; cbn [trim_go]; [by exists ""|].
  destruct (strip_first _ spaces s) as [t|] eqn:E; [|by exists ""].
  apply strip_first_Some in E as (x & _ & ->%trim_prefix_go_Some). destruct (IH t) as [w E].
  exists (x +:+ w). by rewrite string_app_assoc, <- E.
Qed.

Lemma trim_go_suffix n s : ∃ w, s = trim_go n trim_suffix_go s +:+ w.
Proof.
  revert s. induction n as [|n IH]; intros s; cbn [trim_go]; [exists ""; by rewrite string_app_nil_r|].
  destruct (strip_first _ spaces s) as [t|] eqn:E; [|exists ""; by rewrite string_app_nil_r].
  apply strip_first_Some in E as (x & _ & ->%trim_suffix_go_Some). destruct (IH t) as [w E].
  exists (w +:+ x). by rewrite <- string_app_assoc, <- E.
Qed.

(** What is left has no white space at its ends. *)
Lemma trim_space_ok s : trimmed (trim_space s).
Proof.
  unfold trim_space. set (left := trim_go _ trim_prefix_go s).
  assert (strip_first trim_prefix_go spaces left = None) as Hl.
  { apply trim_go_done; [|done]. intros x s' t Hx ->%trim_prefix_go_Some.
    rewrite length_str_app. pose proof (spaces_length x Hx). lia. }
  assert (strip_first trim_suffix_go spaces (trim_go (String.length left) trim_suffix_go left) = None) as Hr.
  { apply trim_go_done; [|done]. intros x s' t Hx ->%trim_suffix_go_Some.
    rewrite length_str_app. pose proof (spaces_length x Hx). lia. }
  destruct (trim_go_suffix (String.length left) left) as [w Ew].
  intros x Hx. split; [|by apply (proj1 (strip_first_None _ _ _) Hr)].
  destruct (trim_prefix_go x (trim_go _ _ left)) as [t|] eqn:Et; [|done].
  apply trim_prefix_go_Some in Et. rewrite Et, string_app_assoc in Ew.
  apply (proj1 (strip_first_None _ _ _) Hl) in Hx.
  assert (trim_prefix_go x left = Some (t +:+ w)) by by apply trim_prefix_go_Some. congruence.
Qed.

(** Text that starts with a byte that starts no white space keeps its start. *)
Lemma trim_space_first c s p :
  Forall (λ x, has_prefix x (String c s) = false) spaces →
  has_prefix p (trim_space (String c s)) = true → has_prefix p (String c s) = true.
Proof.
  intros Hs. unfold trim_space.
  assert (strip_first trim_prefix_go spaces (String c s) = None) as E.
  { apply strip_first_None. intros x Hx. rewrite Forall_forall in Hs. specialize (Hs x Hx).
    destruct (trim_prefix_go x (String c s)) as [t|] eqn:Et; [|done].
    apply trim_prefix_go_Some in Et. rewrite Et in Hs.
    assert (has_prefix x (x +:+ t) = true) by (apply has_prefix_spec; by eexists). congruence. }
  assert (trim_go (String.length (String c s)) trim_prefix_go (String c s) = String c s) as ->
    by (cbn [String.length trim_go]; by rewrite E).
  destruct (trim_go_suffix (String.length (String c s)) (String c s)) as [w Ew].
  intros [t Ht]%has_prefix_spec. apply has_prefix_spec. exists (t +:+ w).
  rewrite Ew at 1. by rewrite Ht, string_app_assoc.
Qed.

Lemma split_go_text l : l ≠ [] → split_char "010" (text l) = flat_map (split_char "010") l.
Proof. apply split_join_concat. Qed.
End text_lemmas.

(** ** Numbers in decimal *)

Lemma pretty_N_char_digit x : digit (pretty_N_char x) = true.
Proof. destruct x as [|p]; [done|]. by do 4 (destruct p as [p|p|]; try done). Qed.

Lemma pretty_N_char_value x : (x < 10)%N →
  (Z.of_nat (Ascii.nat_of_ascii (pretty_N_char x)) - 48 = Z.of_N x)%Z.
Proof.
  intros Hx. destruct x as [|p]; [done|]. by do 4 (destruct p as [p|p|]; try done; try lia).
Qed.

Lemma pretty_N_go_ind (P : N → string → Prop) :
  (∀ s, P 0%N s) →
  (∀ x s, (0 < x)%N → P (x `div` 10)%N (String (pretty_N_char (x `mod` 10)) s) → P x s) →
  ∀ x s, P x s.
Proof.
  intros H0 HS x. induction (N.lt_wf_0 x) as [x _ IH]. intros s.
  destruct (decide (x = 0)%N) as [->|?]; [done|]. apply HS; [lia|]. apply IH, N.div_lt; lia.
Qed.

Lemma pretty_N_go_digits x s : all_chars digit (pretty_N_go x s) = all_chars digit s.
Proof.
  revert x s. apply pretty_N_go_ind; [intros; by rewrite pretty_N_go_0|].
  intros x s Hx IH. rewrite pretty_N_go_step, IH by done. cbn. by rewrite pretty_N_char_digit.
Qed.

Lemma pretty_N_go_value x s : value_of 0 (pretty_N_go x s) = value_of (Z.of_N x) s.
Proof.
  revert x s. apply pretty_N_go_ind; [intros; by rewrite pretty_N_go_0|].
  intros x s Hx IH. rewrite pretty_N_go_step, IH by done. cbn [value_of].
  rewrite pretty_N_char_value by (apply N.mod_lt; lia). f_equal.
  rewrite N2Z.inj_div, N2Z.inj_mod. pose proof (Z.div_mod (Z.of_N x) 10). lia.
Qed.

Lemma pretty_N_spec (x : N) :
  all_chars digit (pretty x) = true ∧ value_of 0 (pretty x) = Z.of_N x ∧ pretty x ≠ "".
Proof.
  assert (pretty x = if decide (x = 0)%N then "0" else pretty_N_go x "") as -> by done.
  case_decide as E; [by subst|].
  rewrite pretty_N_go_digits, pretty_N_go_value. split_and!; [done..|].
  intros Hp. pose proof (pretty_N_go_value x "") as Hv. rewrite Hp in Hv. cbn in Hv. lia.
Qed.

Lemma itoa_cases z :
  (0 ≤ z ∧ itoa z = pretty (Z.to_N z))%Z ∨ (z < 0 ∧ itoa z = String "-" (pretty (Z.to_N (- z))))%Z.
Proof. destruct z as [|p|p]; [by left|by left|by right]. Qed.

Lemma digit_first c s : digit c = true → String c s ≠ "" ∧ c ≠ "-"%char ∧ c ≠ "+"%char ∧ c ≠ "/"%char ∧ c ≠ "."%char.
Proof. intros Hc. split; [done|]. split_and!; by intros ->. Qed.

(** Reading back what was printed. *)
Lemma Atoi_itoa z : (- 2 ^ 63 ≤ z < 2 ^ 63)%Z → Atoi (itoa z) = Ok z.
Proof.
  intros Hz. destruct (itoa_cases z) as [[Hs ->]|[Hs ->]].
  - destruct (pretty_N_spec (Z.to_N z)) as (Hd & Hv & Hn).
    destruct (pretty (Z.to_N z)) as [|c s] eqn:E; [done|].
    assert (digit c = true) as (_ & H1 & H2 & _)%(digit_first _ s)
      by (cbn in Hd; by destruct (digit c)).
    assert (Atoi (String c s) = let v := (1 * value_of 0 (String c s))%Z in
      if bool_decide (- 2 ^ 63 ≤ v < 2 ^ 63)%Z then Ok v
      else Err (Errorf "strconv.Atoi: parsing %q: value out of range" [AStr (String c s)])) as ->.
    { unfold Atoi. destruct c as [[] [] [] [] [] [] [] []]; try done; by rewrite Hd. }
    rewrite Hv. cbn zeta. rewrite Z2N.id by done. rewrite Z.mul_1_l. by rewrite bool_decide_eq_true_2.
  - destruct (pretty_N_spec (Z.to_N (- z))) as (Hd & Hv & Hn).
    remember (pretty (Z.to_N (- z))) as p eqn:Ep. clear Ep.
    unfold Atoi. cbn -[digit all_chars value_of Z.pow Z.mul].
    rewrite Hd, Hv, bool_decide_eq_false_2 by done. cbn [orb negb].
    rewrite Z2N.id by lia. rewrite bool_decide_eq_true_2 by lia. f_equal. lia.
Qed.

(** The characters of a number. *)
Lemma itoa_chars z : all_chars (λ c, digit c || bool_decide (c = "-"%char)) (itoa z) = true ∧ itoa z ≠ "".
Proof.
  assert (∀ s, all_chars digit s = true →
    all_chars (λ c, digit c || bool_decide (c = "-"%char)) s = true) as Hw.
  { induction s as [|c s IH]; [done|]. cbn. intros [-> ?]%andb_true_iff. by rewrite IH. }
  destruct (itoa_cases z) as [[_ ->]|[_ ->]].
  - destruct (pretty_N_spec (Z.to_N z)) as (Hd & _ & Hn). split; [by apply Hw|done].
  - destruct (pretty_N_spec (Z.to_N (- z))) as (Hd & _ & _). split; [|done]. cbn. by apply Hw.
Qed.
