(* ===== verification/Handler.v ===== *)
(** * Event handlers

    A handler is a computation over the trace of its calls that can fail with an
    error or panic; and a logic for what it has learned before it acts: each
    action is checked against the trace before it. *)

From S2P Require Import Prelude.
#[local] Open Scope go_scope.

(** [None] is a panic: a nil pointer, or an index out of range. *)
Definition H (E A : Type) : Type := M E (option (result A)).

Section handler.
Context {E : Type}.

Definition hret {A} (a : A) : H E A := λ tr, (tr, Some (Ok a)).
Definition herr {A} (e : error) : H E A := λ tr, (tr, Some (Err e)).
Definition panic {A} : H E A := λ tr, (tr, None).

(** The rest of a handler runs if what precedes it neither failed nor panicked. *)
Definition hbind {A B} (m : H E A) (k : A → H E B) : H E B :=
  mbind (M := M E) (λ r : option (result A),
    match r with
    | Some (Ok a) => k a
    | Some (Err e) => mret (M := M E) (Some (Err e))
    | None => mret (M := M E) None
    end) m.

(** A call that can fail. *)
Definition ask {A} (answer : list E → result A) (e : E) : H E A :=
  λ tr, (tr ++ [e], Some (answer (tr ++ [e]))).

(** Something without a call. *)
Definition lift {A} (r : result A) : H E A := λ tr, (tr, Some r).
Definition deref {A} (p : option A) : H E A :=
  match p with Some a => hret a | None => panic end.
Definition look {A} (f : list E → A) : H E A := λ tr, (tr, Some (Ok (f tr))).

(** Changing the outcome of a part. *)
Definition outcome {A B} (f : result A → result B) (m : H E A) : H E B := λ tr,
  let '(tr', r) := m tr in (tr', f <$> r).

(** Running a part that may fail and going on with its error, unless it panics. *)
Definition attempt {A} (m : H E A) : H E (result A) := outcome Ok m.

(** Where an error is only logged, the code goes on with the zero value. *)
Definition or_zero {A} (zero : A) (m : H E A) : H E A :=
  outcome (λ r, Ok (match r with Ok a => a | Err _ => zero end)) m.

(** [fmt.Errorf(format, err)] around an error. *)
Definition with_err {A} (format : string) : H E A → H E A := outcome (wrap_err format).
Definition with_args {A} (format : string) (args : list errarg) : H E A → H E A :=
  outcome (wrap_args format args).
End handler.

(** A handler over calls [E1] as a part of one over calls [E2]: it sees its own calls. *)
Definition embed {E1 E2 A} (inj : E1 → E2) (proj : E2 → option E1) (m : H E1 A) : H E2 A := λ tr,
  let own := omap proj tr in
  let '(own', r) := m own in (tr ++ (inj <$> drop (length own) own'), r).

Notation "'let!' x ':=' m 'in' k" := (hbind m (fun x => k))
  (at level 200, x pattern, m at level 100, k at level 200).

(** [errorutil.NewAggregate] *)
Definition NewAggregate (errs : list error) : result unit :=
  match errs with [] => Ok tt | _ => Err (Errorf "%v" [AErrs errs]) end.
Definition errs_of {A} (r : result A) : list error :=
  match r with Ok _ => [] | Err e => [e] end.

(** Running a handler step by step. *)
Section run.
Context {E A B : Type}.
Implicit Types (m : H E A) (k : A → H E B).

Lemma hbind_ok m k tr tr' a : m tr = (tr', Some (Ok a)) → hbind m k tr = k a tr'.
Proof. intros E1. unfold hbind. by rewrite bind_app, E1. Qed.

Lemma hbind_err m k tr tr' e : m tr = (tr', Some (Err e)) → hbind m k tr = (tr', Some (Err e)).
Proof. intros E1. unfold hbind. by rewrite bind_app, E1. Qed.

Lemma attempt_run m tr tr' r : m tr = (tr', Some r) → attempt m tr = (tr', Some (Ok r)).
Proof. intros E1. unfold attempt, outcome. by rewrite E1. Qed.

(** Reading a run that ended well backwards. *)
Lemma hbind_inv m k tr tr' b :
  hbind m k tr = (tr', Some (Ok b)) →
  ∃ t a, m tr = (t, Some (Ok a)) ∧ k a t = (tr', Some (Ok b)).
Proof.
  unfold hbind. rewrite bind_app. destruct (m tr) as [t [[a|e]|]]; cbn; [|done..].
  intros Hk. by exists t, a.
Qed.

Lemma outcome_inv (f : result A → result B) m tr tr' b :
  (∀ e x, f (Err e) ≠ Ok x) → outcome f m tr = (tr', Some (Ok b)) →
  ∃ a, m tr = (tr', Some (Ok a)) ∧ f (Ok a) = Ok b.
Proof.
  intros He. unfold outcome. destruct (m tr) as [t [[a|e]|]]; cbn; [|intros [= _ Hf]; by apply He in Hf|done].
  intros [= <- Hf]. by exists a.
Qed.
End run.

Lemma ask_inv {E A} (f : list E → result A) e tr tr' a :
  ask f e tr = (tr', Some (Ok a)) → tr' = tr ++ [e] ∧ f tr' = Ok a.
Proof. unfold ask. by intros [= <- Hf]. Qed.

Lemma with_err_inv {E A} fmt (m : H E A) tr tr' a :
  with_err fmt m tr = (tr', Some (Ok a)) → m tr = (tr', Some (Ok a)).
Proof. intros (b & Hm & [= <-])%outcome_inv; done. Qed.

Lemma deref_inv {E A} (p : option A) (tr tr' : list E) a :
  deref p tr = (tr', Some (Ok a)) → tr' = tr ∧ p = Some a.
Proof. destruct p; cbn; [by intros [= <- <-]|done]. Qed.

Lemma lift_inv {E A} (r : result A) (tr tr' : list E) a :
  lift r tr = (tr', Some (Ok a)) → tr' = tr ∧ r = Ok a.
Proof. unfold lift. by intros [= <- ->]. Qed.

(** The errors of the calls [es] made one after the other after [tr]. *)
Fixpoint failures {E A} (answer : list E → result A) (tr es : list E) : list error :=
  match es with
  | [] => []
  | e :: es => errs_of (answer (tr ++ [e])) ++ failures answer (tr ++ [e]) es
  end.

Lemma failures_app {E A} (answer : list E → result A) tr es1 es2 :
  failures answer tr (es1 ++ es2) = failures answer tr es1 ++ failures answer (tr ++ es1) es2.
Proof.
  revert tr. induction es1 as [|e es1 IH]; intros tr; cbn; [by rewrite app_nil_r|].
  by rewrite IH, <- !app_assoc.
Qed.

Lemma NewAggregate_Ok errs : NewAggregate errs = Ok tt ↔ errs = [].
Proof. by destruct errs. Qed.

Lemma errs_of_NewAggregate errs : errs_of (NewAggregate errs) = [] ↔ errs = [].
Proof. by destruct errs. Qed.

(** ** What holds when a handler acts *)

Section hoare.
Context {E : Type}.
(** [S tr e]: the call [e] may be made after [tr]. *)
Variable S : list E → E → Prop.

(** From a trace with [P], every call of [m] is allowed by [S] when it is made, and
    if [m] ends well then with [Q]. *)
Definition triple {A} (P : list E → Prop) (m : H E A) (Q : A → list E → Prop) : Prop :=
  ∀ tr, P tr → ∃ new, (m tr).1 = tr ++ new ∧
    (∀ before e after, new = before ++ e :: after → S (tr ++ before) e) ∧
    (∀ a, (m tr).2 = Some (Ok a) → Q a (tr ++ new)).

Lemma triple_outcome {A} (P : list E → Prop) (r : option (result A)) Q :
  (∀ a tr, r = Some (Ok a) → P tr → Q a tr) → triple P (λ tr, (tr, r)) Q.
Proof.
  intros HQ tr HP. exists []. rewrite app_nil_r. split_and!; [done|by intros []|].
  intros a Ha. by apply HQ.
Qed.

Lemma triple_ret {A} P (a : A) Q : (∀ tr, P tr → Q a tr) → triple P (hret a) Q.
Proof. intros HQ. apply triple_outcome. intros ? tr [= <-]. apply HQ. Qed.

Lemma triple_err {A} P e (Q : A → list E → Prop) : triple P (herr e) Q.
Proof. by apply triple_outcome. Qed.

Lemma triple_panic {A} P (Q : A → list E → Prop) : triple P panic Q.
Proof. by apply triple_outcome. Qed.

Lemma triple_lift {A} P (r : result A) Q :
  (∀ a tr, r = Ok a → P tr → Q a tr) → triple P (lift r) Q.
Proof. intros HQ. apply triple_outcome. intros a tr [= ->]. by apply HQ. Qed.

Lemma triple_deref {A} P (p : option A) Q :
  (∀ a tr, p = Some a → P tr → Q a tr) → triple P (deref p) Q.
Proof. destruct p; [|intros; apply triple_panic]. intros HQ. apply triple_ret. naive_solver. Qed.

Lemma triple_look {A} P (f : list E → A) Q : (∀ tr, P tr → Q (f tr) tr) → triple P (look f) Q.
Proof.
  intros HQ tr HP. exists []. rewrite app_nil_r. split_and!; [done|by intros []|].
  intros a [= <-]. by apply HQ.
Qed.

Lemma triple_ask {A} (P : list E → Prop) (f : list E → result A) e Q :
  (∀ tr, P tr → S tr e) → (∀ tr a, P tr → f (tr ++ [e]) = Ok a → Q a (tr ++ [e])) →
  triple P (ask f e) Q.
Proof.
  intros HS HQ tr HP. exists [e]. split_and!; [done| |].
  - intros before e' after Heq. destruct before as [|? before]; simplify_eq/=.
    + rewrite app_nil_r. by apply HS.
    + by destruct before.
  - intros a [= Ha]. by apply HQ.
Qed.

Lemma calls_app tr n1 n2 :
  (∀ before e after, n1 = before ++ e :: after → S (tr ++ before) e) →
  (∀ before e after, n2 = before ++ e :: after → S ((tr ++ n1) ++ before) e) →
  ∀ before e after, n1 ++ n2 = before ++ e :: after → S (tr ++ before) e.
Proof.
  intros H1 H2 before e after [(l & -> & Hl)|(l & -> & ->)]%app_eq_inv.
  - destruct l as [|e' l]; cbn in Hl.
    + specialize (H2 [] e after (eq_sym Hl)). by rewrite !app_nil_r in H2.
    + injection Hl as -> _. by eapply H1.
  - rewrite app_assoc. by eapply H2.
Qed.

Lemma triple_bind {A B} P (m : H E A) (k : A → H E B) Q R :
  triple P m Q → (∀ a, triple (Q a) (k a) R) → triple P (hbind m k) R.
Proof.
  intros Hm Hk tr HP. destruct (Hm tr HP) as (n1 & E1 & S1 & Q1).
  unfold hbind. rewrite bind_app. rewrite E1.
  destruct ((m tr).2) as [[a|e]|] eqn:Er; cycle 1.
  1, 2: exists n1; split_and!; [done|exact S1|done].
  destruct (Hk a (tr ++ n1) (Q1 a eq_refl)) as (n2 & E2 & S2 & Q2).
  exists (n1 ++ n2). rewrite app_assoc. split_and!; [done|by eapply calls_app|done].
Qed.

Lemma triple_conseq {A} (P P' : list E → Prop) (m : H E A) (Q Q' : A → list E → Prop) :
  triple P' m Q' → (∀ tr, P tr → P' tr) → (∀ a tr, Q' a tr → Q a tr) → triple P m Q.
Proof.
  intros Hm HP HQ tr Htr. destruct (Hm tr (HP tr Htr)) as (new & E1 & S1 & Q1).
  exists new. split_and!; [done|done|]. intros a Ha. by apply HQ, Q1.
Qed.

Lemma triple_weaken {A} (P P' : list E → Prop) (m : H E A) Q :
  triple P' m Q → (∀ tr, P tr → P' tr) → triple P m Q.
Proof. intros Hm HP. by eapply triple_conseq. Qed.

Lemma triple_exists {A B} (P : B → list E → Prop) (m : H E A) Q :
  (∀ b, triple (P b) m Q) → triple (λ tr, ∃ b, P b tr) m Q.
Proof. intros Hm tr [b Hb]. by apply (Hm b). Qed.

Lemma triple_fact {A} (φ : Prop) (m : H E A) Q :
  (φ → triple (λ _, True) m Q) → triple (λ _, φ) m Q.
Proof. intros Hm tr Hφ. by apply Hm. Qed.

Lemma triple_outcome_map {A B} (f : result A → result B) P (m : H E A) Q R :
  triple P m Q → (∀ a b tr, f (Ok a) = Ok b → Q a tr → R b tr) →
  (∀ e b, f (Err e) ≠ Ok b) → triple P (outcome f m) R.
Proof.
  intros Hm HQ He tr HP. destruct (Hm tr HP) as (new & E1 & S1 & Q1). exists new.
  unfold outcome. destruct (m tr) as [tr' [[a|e]|]]; cbn in *; (split_and!; [done|done|]).
  - intros b [= Hb]. by eapply HQ, Q1.
  - intros b [= Hb]. by apply He in Hb.
  - done.
Qed.

Lemma triple_pure {A} (φ : Prop) P (m : H E A) Q :
  (φ → triple P m Q) → triple (λ tr, φ ∧ P tr) m Q.
Proof. intros Hm tr [Hφ HP]. by apply Hm. Qed.

Lemma triple_with_err {A} P fmt (m : H E A) Q : triple P m Q → triple P (with_err fmt m) Q.
Proof. intros Hm. eapply triple_outcome_map; [exact Hm|naive_solver|done]. Qed.

Lemma triple_with_args {A} P fmt args (m : H E A) Q :
  triple P m Q → triple P (with_args fmt args m) Q.
Proof. intros Hm. eapply triple_outcome_map; [exact Hm|naive_solver|done]. Qed.

(** A part that is tried: whatever its outcome, [I] must survive it. *)
Lemma triple_attempt {A} (I : list E → Prop) (m : H E A) :
  (∀ tr new, I tr → I (tr ++ new)) →
  triple I m (λ _ _, True) → triple I (attempt m) (λ _, I).
Proof.
  intros HI Hm tr Htr. destruct (Hm tr Htr) as (new & E1 & S1 & _). exists new.
  unfold attempt, outcome. destruct (m tr) as [tr' [r|]]; cbn in *;
    (split_and!; [done|done|intros; by apply HI]).
Qed.

Lemma triple_or_zero {A} (I : list E → Prop) zero (m : H E A) :
  (∀ tr new, I tr → I (tr ++ new)) →
  triple I m (λ _ _, True) → triple I (or_zero zero m) (λ _, I).
Proof.
  intros HI Hm tr Htr. destruct (Hm tr Htr) as (new & E1 & S1 & _). exists new.
  unfold or_zero, outcome. destruct (m tr) as [tr' [r|]]; cbn in *;
    (split_and!; [done|done|intros; by apply HI]).
Qed.

(** A call whose error is only logged. *)
Lemma triple_or_zero_ask {A} (P : list E → Prop) zero (f : list E → result A) e (Q : list E → Prop) :
  (∀ tr, P tr → S tr e) → (∀ tr, P tr → Q (tr ++ [e])) →
  triple P (or_zero zero (ask f e)) (λ _, Q).
Proof.
  intros HS HQ tr HP. exists [e]. split_and!; [done| |by intros; apply HQ].
  intros [|? before] e' after Heq; simplify_eq/=; [|by destruct before].
  rewrite app_nil_r. by apply HS.
Qed.

Lemma triple_if {A} P (b : bool) (m n : H E A) Q :
  (b = true → triple P m Q) → (b = false → triple P n Q) → triple P (if b then m else n) Q.
Proof. destruct b; auto. Qed.
End hoare.

#[export] Hint Resolve triple_err triple_panic : prow.

(** ** What a handler has learned

    Handlers are judged by what they do after which answers. *)

Section learned.
Context {E : Type}.

(** [q] was asked before and the answer satisfies [ok]. *)
Definition answered {A} (f : list E → result A) (q : E) (ok : A → Prop) (tr : list E)
    : Prop :=
  ∃ pre post a, tr = pre ++ q :: post ∧ f (pre ++ [q]) = Ok a ∧ ok a.
Definition failed {A} (f : list E → result A) (q : E) (tr : list E) : Prop :=
  ∃ pre post e, tr = pre ++ q :: post ∧ f (pre ++ [q]) = Err e.

(** [P] survives further calls. *)
Definition stable (P : list E → Prop) : Prop := ∀ tr new, P tr → P (tr ++ new).

Lemma stable_answered {A} (f : list E → result A) q ok : stable (answered f q ok).
Proof.
  intros tr new (pre & post & a & -> & Ha & Hok). exists pre, (post ++ new), a.
  by rewrite <- app_assoc.
Qed.

Lemma stable_failed {A} (f : list E → result A) q : stable (failed f q).
Proof.
  intros tr new (pre & post & e & -> & He). exists pre, (post ++ new), e. by rewrite <- app_assoc.
Qed.

Lemma stable_and (P Q : list E → Prop) : stable P → stable Q → stable (λ tr, P tr ∧ Q tr).
Proof. intros HP HQ tr new [? ?]. split; [by apply HP|by apply HQ]. Qed.
Lemma stable_or (P Q : list E → Prop) : stable P → stable Q → stable (λ tr, P tr ∨ Q tr).
Proof. intros HP HQ tr new [?|?]; [left; by apply HP|right; by apply HQ]. Qed.
Lemma stable_const (φ : Prop) : stable (λ _, φ).
Proof. by intros ? ?. Qed.
Lemma stable_elem (e : E) : stable (λ tr, e ∈ tr).
Proof. intros tr new ?. apply elem_of_app. by left. Qed.
Lemma stable_ex {A} (P : A → list E → Prop) : (∀ a, stable (P a)) → stable (λ tr, ∃ a, P a tr).
Proof. intros HP tr new [a Ha]. exists a. by apply HP. Qed.

Lemma stable_all {A} (P : A → list E → Prop) : (∀ a, stable (P a)) → stable (λ tr, ∀ a, P a tr).
Proof. intros HP tr new Ha a. by apply HP. Qed.
Lemma stable_impl (φ : Prop) (P : list E → Prop) : stable P → stable (λ tr, φ → P tr).
Proof. intros HP tr new Hφ ?. by apply HP, Hφ. Qed.

Lemma answered_weaken {A} (f : list E → result A) q (P Q : A → Prop) tr :
  answered f q P tr → (∀ a, P a → Q a) → answered f q Q tr.
Proof. intros (pre & post & a & ? & ? & ?) HPQ. exists pre, post, a. auto. Qed.

(** What is stable can be framed around a part. *)
Lemma triple_frame {A} (S : list E → E → Prop) (F P : list E → Prop) (m : H E A) Q :
  stable F → triple S P m Q → triple S (λ tr, F tr ∧ P tr) m (λ a tr, F tr ∧ Q a tr).
Proof.
  intros HF Hm tr [Hf HP]. destruct (Hm tr HP) as (new & E1 & S1 & Q1). exists new.
  split_and!; [done|done|]. intros a Ha. split; [by apply HF|by apply Q1].
Qed.

(** A part that is tried: its postcondition if it ended well. *)
Lemma triple_attempt_result {A} (S : list E → E → Prop) (P : list E → Prop) (m : H E A) Q :
  stable P → triple S P m Q →
  triple S P (attempt m)
    (λ r tr, P tr ∧ match r with Ok a => Q a tr | Err _ => True end).
Proof.
  intros HP Hm tr Htr. destruct (Hm tr Htr) as (new & E1 & S1 & Q1). exists new.
  unfold attempt, outcome. destruct (m tr) as [tr' [r|]]; cbn in *; (split_and!; [done|done|]); [|done].
  intros r' [= <-]. split; [by apply HP|]. destruct r; [by apply Q1|done].
Qed.

(** The calls that need a justification [just]: those that [act]. *)
Section rules.
Variables (act : E → bool) (just : list E → E → Prop).
Definition may (tr : list E) (e : E) : Prop := act e = true → just tr e.

(** Asking a question is always fine, and the answer is remembered. *)
Lemma triple_question {A} P (f : list E → result A) q :
  stable P → act q = false →
  triple may P (ask f q) (λ a tr, P tr ∧ answered f q (λ x, x = a) tr).
Proof.
  intros HP Hq. apply triple_ask; [intros tr _ Ha; congruence|]. intros tr a Htr Ha.
  split; [by apply HP|]. exists tr, [], a. by rewrite Ha.
Qed.

Lemma triple_question_zero {A} P (f : list E → result A) q d :
  stable P → act q = false →
  triple may P (or_zero d (ask f q))
    (λ a tr, P tr ∧ (answered f q (λ x, x = a) tr ∨ a = d ∧ failed f q tr)).
Proof.
  intros HP Hq tr Htr. exists [q]. unfold or_zero, outcome, ask. cbn. split_and!; [done| |].
  - intros [|? before] x after Hx Ha; simplify_eq/=; [congruence|by destruct before].
  - intros a Ha. split; [by apply HP|]. destruct (f (tr ++ [q])) as [b|err] eqn:Ef; injection Ha as <-.
    + left. by exists tr, [], b.
    + right. split; [done|]. by exists tr, [], err.
Qed.

(** A call that needs no justification, whatever it answers. *)
Lemma triple_quiet {A} P (f : list E → result A) q :
  stable P → act q = false → triple may P (ask f q) (λ _, P).
Proof. intros HP Hq. eapply triple_conseq; [by apply triple_question|done|by intros ? ? [? _]]. Qed.

Lemma triple_quiet_zero {A} P (f : list E → result A) q d :
  stable P → act q = false → triple may P (or_zero d (ask f q)) (λ _, P).
Proof.
  intros HP Hq. eapply triple_conseq; [by apply triple_question_zero|done|by intros ? ? [? _]].
Qed.
End rules.
End learned.

#[export] Hint Resolve stable_answered stable_failed stable_and stable_or stable_const stable_elem
  stable_ex stable_all stable_impl : prow.
#[export] Hint Resolve triple_quiet triple_quiet_zero : prow.
Arguments triple_question {E act just A} P f q _ _.
Arguments triple_question_zero {E act just A} P f q d _ _.
Arguments triple_quiet {E act just A} P f q _ _.
Arguments triple_quiet_zero {E act just A} P f q d _ _.

(** Steps through a handler whose calls need no justification. *)
Ltac walk := repeat first
  [ apply triple_err | apply triple_panic | by apply triple_ret | by apply triple_lift
  | by apply triple_deref | by apply triple_ask | apply triple_with_err | apply triple_with_args
  | apply (triple_bind _ _ _ _ (λ _ _, True)); [|intros]
  | progress case_match ].

(** ** Changing what is allowed *)

Lemma triple_allow {E A} (S S' : list E → E → Prop) P (m : H E A) Q :
  (∀ tr c, S tr c → S' tr c) → triple S P m Q → triple S' P m Q.
Proof.
  intros HS Hm tr HP. destruct (Hm tr HP) as (new & E1 & S1 & Q1). exists new. split_and!; [done| |done].
  intros before e after Heq. by eapply HS, S1.
Qed.

(** What was known before is known at every call. *)
Lemma triple_known {E A} (F : list E → Prop) (S : list E → E → Prop) P (m : H E A) Q :
  stable F → triple S P m Q → triple (λ tr c, F tr ∧ S tr c) (λ tr, F tr ∧ P tr) m (λ a tr, F tr ∧ Q a tr).
Proof.
  intros HF Hm tr [Hf HP]. destruct (Hm tr HP) as (new & E1 & S1 & Q1). exists new. split_and!; [done| |].
  - intros before e after Heq. split; [by apply HF|by eapply S1].
  - intros a Ha. split; [by apply HF|by apply Q1].
Qed.

(** ** Parts with calls of their own *)

Section embed.
Context {E1 E2 : Type} (inj : E1 → E2) (proj : E2 → option E1).
Hypothesis proj_inj : ∀ e, proj (inj e) = Some e.

Lemma omap_inj (l : list E1) : omap proj (inj <$> l) = l.
Proof. induction l as [|e l IH]; [done|]. cbn. by rewrite proj_inj, IH. Qed.

(** What holds for the part's own calls holds for it in the whole. *)
Lemma triple_embed {A} (S1 : list E1 → E1 → Prop) (S2 : list E2 → E2 → Prop)
    (P : list E2 → Prop) (m : H E1 A) Q :
  triple S1 (λ _, True) m Q → stable P →
  (∀ tr e, P tr → S1 (omap proj tr) e → S2 tr (inj e)) →
  triple S2 P (embed inj proj m) (λ a tr, P tr ∧ Q a (omap proj tr)).
Proof.
  intros Hm HP HS tr Htr. destruct (Hm (omap proj tr) I) as (new & E1' & N1 & Q1).
  unfold embed. destruct (m (omap proj tr)) as [own r]. cbn in E1'. subst own.
  rewrite drop_app_length. exists (inj <$> new). split_and!; [done| |].
  - intros before e after Hb. apply fmap_app_inv in Hb as (l1 & l2 & -> & Hb & ->).
    destruct l2 as [|e' l2]; [done|]. cbn in Hb. assert (e = inj e') as -> by congruence.
    apply HS; [by apply HP|]. rewrite omap_app, omap_inj. by eapply N1.
  - intros a Ha. cbn in Ha. split; [by apply HP|]. rewrite omap_app, omap_inj. by apply Q1.
Qed.
End embed.
