(* ===== verification/GitHub.v ===== *)
(** * What handlers ask of GitHub and the API server

    The calls of the plugins and reporters, the answers as functions of all calls
    so far, and the helpers of github/helpers.go and plugins/respond.go they share.
    The HTTP clients behind the calls are not modelled: quantifying over [GitHub]
    quantifies over everything they may answer.  A call that reads one string
    (a name, a reference, the tree of a commit) has [on_name]. *)

From S2P Require Import Prelude Api JobConfig PjUtil GoText Handler.
#[local] Open Scope go_scope.

Definition StatusPending : string := "pending".
Definition StatusSuccess : string := "success".
Definition StatusError : string := "error".
Definition StatusFailure : string := "failure".

(** Labels (labels/labels.go) *)
Definition Approved : string := "approved".
Definition LGTM : string := "lgtm".
Definition NeedsOkToTest : string := "needs-ok-to-test".
Definition OkToTest : string := "ok-to-test".

Record Status := mkStatus {
  s_State : string; s_TargetURL : string; s_Description : string; s_Context : string }.

Record IssueComment := mkIssueComment {
  ic_ID : Z; ic_Body : string; ic_User : string; ic_HTMLURL : string;
  ic_CreatedAt : Time; ic_UpdatedAt : Time }.

(** [GenericCommentEvent]: a comment on an issue or pull request, or a review. *)
Record GenericCommentEvent := mkGenericCommentEvent {
  gc_IsPR : bool; gc_Action : string; gc_Body : string; gc_HTMLURL : string; gc_Number : Z;
  gc_Org : string; gc_Repo : string; gc_User : string; gc_IssueAuthor : string;
  gc_Assignees : list string; gc_IssueState : string; gc_IssueBody : string;
  gc_IssueHTMLURL : string; gc_GUID : string }.
Definition GenericCommentActionCreated : string := "created".

(** A review of a pull request and its event. *)
Record Review := mkReview {
  rw_ID : Z; rw_User : string; rw_Body : string; rw_State : string; rw_HTMLURL : string;
  rw_SubmittedAt : Time }.
Record ReviewEvent := mkReviewEvent {
  rv_Action : string; rv_PullRequest : GitHubPullRequest; rv_Org : string; rv_Repo : string;
  rv_Review : Review; rv_GUID : string }.
Definition ReviewActionSubmitted : string := "submitted".
Definition ReviewActionDismissed : string := "dismissed".
Definition ReviewStateApproved : string := "APPROVED".
Definition ReviewStateChangesRequested : string := "CHANGES_REQUESTED".
Definition ReviewStateDismissed : string := "DISMISSED".

(** A comment on a line of a pull request. *)
Record ReviewComment := mkReviewComment {
  rm_ID : Z; rm_User : string; rm_Body : string; rm_HTMLURL : string; rm_CreatedAt : Time }.

Record ListedIssueEvent := mkListedIssueEvent {
  le_Event : string; le_Actor : string; le_Label : string }.
Definition IssueActionLabeled : string := "labeled".

(** Teams are listed with all roles. *)
Definition RoleAll : string := "all".

(** ** Calls and answers *)

Inductive Call : Type :=
| CreateComment (org repo : string) (number : Z) (comment : string)
| EditComment (org repo : string) (id : Z) (comment : string)
| DeleteComment (org repo : string) (id : Z)
| AddLabel (org repo : string) (number : Z) (label : string)
| RemoveLabel (org repo : string) (number : Z) (label : string)
| AssignIssue (org repo : string) (number : Z) (users : list string)
| UnassignIssue (org repo : string) (number : Z) (users : list string)
| RequestReview (org repo : string) (number : Z) (users : list string)
| UnrequestReview (org repo : string) (number : Z) (users : list string)
| CreateStatus (org repo ref : string) (s : Status)
| CreateProwJob (pj : ProwJob)
(** The migrations of the third-party status migrator, on branches. *)
| RetireContext (org repo context : string) (branches : string → bool)
| MoveContext (org repo from to : string) (branches : string → bool)
| BotName
| IsCollaborator (org repo user : string)
| IsMember (org user : string)
| GetPullRequest (org repo : string) (number : Z)
| GetPullRequests (org repo : string)
| GetRef (org repo ref : string)
| GetIssueLabels (org repo : string) (number : Z)
| ListIssueComments (org repo : string) (number : Z)
| ListPullRequestComments (org repo : string) (number : Z)
| ListReviews (org repo : string) (number : Z)
| ListIssueEvents (org repo : string) (number : Z)
| GetPullRequestChanges (org repo : string) (number : Z)
| GetSingleCommit (org repo sha : string)
| GetRepoLabels (org repo : string)
| GetFile (org repo filepath commit : string)
| ListStatuses (org repo ref : string)
| HasPermission (org repo user : string) (roles : list string)
(** Whether git finds merge commits between two commits, after a checkout of the pull request. *)
| MergeCommitsExistBetween (org repo : string) (number : Z) (target head : string)
| ListPRCommits (org repo : string) (number : Z)
| GetCombinedStatus (org repo ref : string)
| FindIssues (query : string)
| ListMilestones (org repo : string)
| SetMilestone (org repo : string) (number milestone : Z)
| ClearMilestone (org repo : string) (number : Z)
| ClosePR (org repo : string) (number : Z)
| CloseIssue (org repo : string) (number : Z)
| ReopenPR (org repo : string) (number : Z)
| ReopenIssue (org repo : string) (number : Z)
| GetIssue (org repo : string) (number : Z)
| EditPullRequest (org repo : string) (number : Z) (title : string)
| EditIssue (org repo : string) (number : Z) (title : string)
(** The query whether a user has limited availability. *)
| Busy (user : string)
| ListTeams (org : string)
| ListTeamMembers (id : Z) (role : string)
(** [repoowners.Client], which asks git. *)
| LoadRepoOwners (org repo base : string).

Record PullRequestChange := mkChange {
  ch_Filename : string; ch_Additions : Z; ch_Deletions : Z; ch_Changes : Z; ch_BlobURL : string }.
(** [RepositoryCommit]: the commit's SHA and message, and the author on GitHub. *)
Record RepositoryCommit := mkRepositoryCommit { rc_SHA : string; rc_Message : string; rc_AuthorLogin : string }.
Record CombinedStatus := mkCombinedStatus { cs_State : string; cs_Statuses : list Status }.
(** An issue that was found: its number and labels. *)
Record FoundIssue := mkFoundIssue { fi_Number : Z; fi_Labels : list string }.
Record Team := mkTeam { tm_Name : string; tm_Slug : string; tm_ID : Z }.

(** The answer to the last call of the trace, by its type; and answers read inside
    pure code, which makes no call that changes anything. *)
Record GitHub := mkGitHub {
  on_done : list Call → result unit;
  on_name : list Call → result string;
  on_bool : list Call → result bool;
  on_pr : list Call → result GitHubPullRequest;
  on_prs : list Call → result (list GitHubPullRequest);
  on_labels : list Call → result (list string);
  on_comments : list Call → result (list IssueComment);
  on_review_comments : list Call → result (list ReviewComment);
  on_reviews : list Call → result (list Review);
  on_events : list Call → result (list ListedIssueEvent);
  on_changes : list Call → result (list PullRequestChange);
  on_team_list : list Call → result (list Team);
  on_members : list Call → result (list string);
  on_statuses : list Call → result (list Status);
  (** the users of a [MissingUsers], if that is the type of the error *)
  on_missing : list Call → option (list string);
  on_commits : list Call → result (list RepositoryCommit);
  on_combined : list Call → result CombinedStatus;
  on_issues : list Call → result (list FoundIssue);
  (** titles and numbers *)
  on_milestones : list Call → result (list (string * Z));
  (** the message of a [StateCannotBeChanged], if that is the type of the error *)
  on_locked : list Call → option string;
  (** whether the error is a [FileNotFound] *)
  on_no_file : list Call → bool;
  (** context and state *)
  get_statuses : list Call → string → string → string → result (list (string * string));
  get_changes : list Call → string → string → Z → result (list string) }.

(** What some callers read of the answers: names of files, names and IDs of teams. *)
Definition read_as {A B} (f : A → B) (r : result A) : result B :=
  match r with Ok a => Ok (f a) | Err e => Err e end.
Definition on_files (gh : GitHub) (tr : list Call) : result (list string) :=
  read_as (fmap ch_Filename) (on_changes gh tr).
Definition on_teams (gh : GitHub) (tr : list Call) : result (list (string * Z)) :=
  read_as (fmap (λ t, (tm_Name t, tm_ID t))) (on_team_list gh tr).

(** Names of fresh ProwJobs and the clock, for [NewProwJob]. *)
Record Fresh := mkFresh {
  fresh_name : list Call → string; fresh_time : list Call → Time;
  fresh_label_ok : string → bool }.

(** [github.HasLabel] *)
Definition HasLabel (label : string) (issueLabels : list string) : bool :=
  existsb (λ l, bool_decide (to_lower l = to_lower label)) issueLabels.

(** ** Responses (plugins/respond.go) *)

Definition AboutThisBotWithoutCommands : string := "Instructions for interacting with me using PR comments are available [here](https://git.k8s.io/community/contributors/guide/pull-requests.md).  If you have questions or suggestions related to my behavior, please file an issue against the [kubernetes/test-infra](https://github.com/kubernetes/test-infra/issues/new?title=Prow%20issue:) repository.".
Definition AboutThisBotCommands : string :=
  "I understand the commands that are listed [here](https://go.k8s.io/bot-commands).".
Definition AboutThisBot : string := AboutThisBotWithoutCommands +:+ " " +:+ AboutThisBotCommands.

Definition FormatResponse (to message reason : string) : string :=
  text ["@" +:+ to +:+ ": " +:+ message; ""; "<details>"; ""; reason; "";
        AboutThisBotWithoutCommands; "</details>"].

Definition FormatSimpleResponse (to message : string) : string :=
  text ["@" +:+ to +:+ ": " +:+ message; ""; "<details>"; ""; AboutThisBotWithoutCommands;
        "</details>"].

Definition FormatResponseRaw (body bodyURL login reply : string) : string :=
  let quoted := (λ l, ">" +:+ l) <$> split_char "010" body in
  FormatResponse login reply
    (text ["In response to [this](" +:+ bodyURL +:+ "):"; ""; text quoted; ""]).

(** ** What a handler has learned

    Handlers are judged by what they do after which answers. *)

(** The calls a handler needs a justification for. *)
Definition action (e : Call) : bool :=
  match e with
  | CreateProwJob _ | CreateStatus _ _ _ _ | AddLabel _ _ _ _ | RemoveLabel _ _ _ _
  | RetireContext _ _ _ _ | MoveContext _ _ _ _ _ => true
  | _ => false
  end.

Notation may_act := (may action).

Definition yes (b : bool) : Prop := b = true.
