(* ===== verification/Samples.v ===== *)
(** * A small instance

    Concrete data the witnesses and examples evaluate on: a repository o/r with a
    job, a pull request and a configuration. *)

From S2P Require Import Prelude Api JobConfig BranchProtection TideTypes TideConfig PjUtil GoText Handler GitHub.

Definition w_util : UtilityConfig := mkUtilityConfig false "" "" false 0 [] None.
Definition w_base (name : string) : JobBase :=
  mkJobBase name ∅ 1 "kubernetes" "" None false "" None None ∅ None None false w_util.
Definition w_all : Brancher := mkBrancher [] [] no_regexp no_regexp.
Definition w_only (branch : string) : Brancher :=
  mkBrancher [] [branch] (λ b, bool_decide (b = branch)) no_regexp.
Definition w_nochange : RegexpChangeMatcher := mkRegexpChangeMatcher "" no_regexp.

(** A job that always runs and reports the context of its name. *)
Definition w_job (name : string) : Presubmit :=
  mkPresubmit (w_base name) true false ("/test " +:+ name) "" w_all w_nochange
    (mkReporter name false) None (λ body, bool_decide (body = "/test " +:+ name)).
(** One that only runs when asked to. *)
Definition w_manual (name : string) : Presubmit :=
  mkPresubmit (w_base name) false false ("/test " +:+ name) "" w_all w_nochange
    (mkReporter name false) None (λ body, bool_decide (body = "/test " +:+ name)).

Definition w_pull (n : Z) (sha : string) : Pull := mkPull n "author" sha "" "" "" "" "".
Definition w_refs (pulls : list Pull) : Refs :=
  mkRefs "o" "r" "" "master" "base" "" pulls "" false "" false 0.
Definition w_spec (ty job : string) (pulls : list Pull) : ProwJobSpec :=
  mkProwJobSpec ty "kubernetes" "" "" job (Some (w_refs pulls)) [] true job "" 1 false None None
    None None None None false.
Definition w_status (state : ProwJobState) (start : Time) : ProwJobStatus :=
  mkProwJobStatus start None None state "" "" "" "" "" None.
Definition w_pj (ty job : string) (pulls : list Pull) (state : ProwJobState) (start : Time)
    : ProwJob :=
  mkProwJob (job +:+ itoa start) "ns" ∅ ∅ start (w_spec ty job pulls) (w_status state start).

Definition w_pr (n : Z) (sha : string) (contexts : list Context) : PullRequest :=
  mkPullRequest n "author" "master" "refs/heads/" "branch" sha "MERGEABLE" "r" "o/r" "o"
    [mkCommit sha contexts] [] None "" "" 0%Z.

Definition w_tide : Tide :=
  mkTide [] ∅ ∅ "" "" "" "" "" "" 1
    (mkTideContextPolicyOptions (mkTideContextPolicy None [] [] [] None) ∅) ∅.
Definition w_policy : Policy := mkPolicy (Some true) None None None None None.
Definition w_bp : BranchProtection := 
  mkBranchProtection w_policy false {["o" := mkOrg empty_policy ∅]} false false.
Definition w_config : Config :=
  mkConfig (mkJobConfig {["o/r" := [w_job "unit"]]} ∅ []) w_tide w_bp ∅
    (λ _ _ _, Err (errors_New "no git")) "ns" "pods".

(** GitHub as it stays: members, the pull request, labels, comments; every change
    succeeds. *)
Definition w_gpr : GitHubPullRequest :=
  mkGitHubPullRequest 1 "https://github.com/o/r/pull/1" "author" "" "master" "o" "r"
    "https://github.com/o/r" "head" "o/r" None false "open" "" [] "title" false "base".
Definition w_github (members : list string) (labels : list string) (comments : list IssueComment)
    : GitHub :=
  mkGitHub (λ _, Ok tt)
    (λ calls, match last calls with Some BotName => Ok "bot" | _ => Ok "base" end)
    (λ calls, match last calls with
              | Some (IsMember _ user) | Some (IsCollaborator _ _ user) =>
                  Ok (bool_decide (user ∈ members))
              | _ => Ok false
              end)
    (λ _, Ok w_gpr) (λ _, Ok [w_gpr]) (λ _, Ok labels) (λ _, Ok comments)
    (λ _, Ok []) (λ _, Ok []) (λ _, Ok []) (λ _, Ok [mkChange "file" 1 0 1 "blob"]) (λ _, Ok [])
    (λ _, Ok members) (λ _, Ok []) (λ _, None)
    (λ _, Ok []) (λ _, Ok (mkCombinedStatus "" [])) (λ _, Ok []) (λ _, Ok []) (λ _, None) (λ _, false)
    (λ _ _ _ _, Ok []) (λ _ _ _ _, Ok ["file"]).
Definition w_fresh : Fresh := mkFresh (λ _, "uuid") (λ _, 7%Z) (λ _, true).
(** GitHub with some answers of its own. *)
Definition with_answers (g : GitHub) (bools : list Call → result bool) (labels : list Call → result (list string))
    (changes : list Call → result (list PullRequestChange)) (statuses : list Call → result (list Status)) : GitHub :=
  mkGitHub (on_done g) (on_name g) bools (on_pr g) (on_prs g)
    labels (on_comments g) (on_review_comments g) (on_reviews g)
    (on_events g) changes (on_team_list g) (on_members g) statuses (on_missing g)
    (on_commits g) (on_combined g) (on_issues g) (on_milestones g) (on_locked g) (on_no_file g)
    (get_statuses g) (get_changes g).
(** GitHub with labels that cannot be read. *)
Definition without_labels (g : GitHub) : GitHub :=
  with_answers g (on_bool g) (λ _, Err (errors_New "labels")) (on_changes g) (on_statuses g).

Definition w_comment (user body : string) : GenericCommentEvent :=
  mkGenericCommentEvent true "created" body "url" 1 "o" "r" user "author" [] "open" "" "" "guid".
