(* ===== verification/Trigger.v ===== *)
(** * The trigger plugin (plugins/trigger)

    Starts presubmits for comments and pull request events, and postsubmits for
    pushes.  Who may start tests is the plugin's security property. *)

From S2P Require Import Prelude Api JobConfig BranchProtection TideTypes TideConfig PjUtil GoText Handler GitHub Samples.
#[local] Open Scope go_scope.

(** [plugins.Trigger] *)
Record Trigger := mkTrigger {
  tg_Repos : list string; tg_TrustedOrg : string; tg_JoinOrgURL : string;
  tg_OnlyOrgMembers : bool; tg_IgnoreOkToTest : bool; tg_ElideSkippedContexts : option bool }.

Definition SetDefaults (t : Trigger) : Trigger :=
  mkTrigger (tg_Repos t) (tg_TrustedOrg t)
    (if bool_decide (tg_TrustedOrg t ≠ "" ∧ tg_JoinOrgURL t = "")
     then "https://github.com/orgs/" +:+ tg_TrustedOrg t +:+ "/people" else tg_JoinOrgURL t)
    (tg_OnlyOrgMembers t) (tg_IgnoreOkToTest t)
    (Some (default true (tg_ElideSkippedContexts t))).

(** The first trigger that lists the repository or its organization. *)
Definition TriggerFor (triggers : list Trigger) (org repo : string) : Trigger :=
  let orgRepo := org +:+ "/" +:+ repo in
  default (SetDefaults (mkTrigger [] "" "" false false None))
    (head (filter (λ tr, Exists (λ r, r = org ∨ r = orgRepo) (tg_Repos tr)) triggers)).

(** [github.PullRequestEvent]; [pe_Changes]: the base's former ref and SHA, if the
    changes can be unmarshalled. *)
Record PullRequestEvent := mkPullRequestEvent {
  pe_Action : string; pe_Number : Z; pe_PullRequest : GitHubPullRequest;
  pe_Org : string; pe_Repo : string; pe_Label : string; pe_Sender : string;
  pe_Changes : option (string * string); pe_GUID : string }.

Definition PullRequestActionOpened : string := "opened".
Definition PullRequestActionReopened : string := "reopened".
Definition PullRequestActionEdited : string := "edited".
Definition PullRequestActionSynchronize : string := "synchronize".
Definition PullRequestActionLabeled : string := "labeled".

Record Commit := mkCommit {
  cm_Added : list string; cm_Removed : list string; cm_Modified : list string }.

Record PushEvent := mkPushEvent {
  pu_Ref : string; pu_After : string; pu_Deleted : bool; pu_Compare : string;
  pu_Commits : list Commit; pu_OwnerName : string; pu_RepoName : string; pu_FullName : string;
  pu_GUID : string }.

Definition Branch (pe : PushEvent) : string :=
  trim_prefix "refs/tags/" (trim_prefix "refs/heads/" (pu_Ref pe)).

Section trigger.
Context (gh : GitHub) (fresh : Fresh) (config : Config).

(** ** Trust (trigger.go) *)

Definition TrustedUser (onlyOrgMembers : bool) (trustedOrg user org repo : string)
    : H Call bool :=
  let! collaborator :=
    if onlyOrgMembers then hret false
    else with_err "error in IsCollaborator: %v" (ask (on_bool gh) (IsCollaborator org repo user)) in
  if collaborator then hret true else
  let! member := with_args "error in IsMember(%s): %v" [AStr org]
                   (ask (on_bool gh) (IsMember org user)) in
  if member then hret true
  else if bool_decide (trustedOrg = "" ∨ trustedOrg = org) then hret false
  else with_args "error in IsMember(%s): %v" [AStr trustedOrg]
         (ask (on_bool gh) (IsMember trustedOrg user)).

(** The labels if they were fetched: the client answers a nil slice when there is
    none, so that the empty list is nil. *)
Definition TrustedPullRequest (trigger : Trigger) (author org repo : string) (num : Z)
    (l : list string) : H Call (list string * bool) :=
  let! orgMember := with_args "error checking %s for trust: %v" [AStr author]
    (TrustedUser (tg_OnlyOrgMembers trigger) (tg_TrustedOrg trigger) author org repo) in
  if orgMember then hret (l, true)
  else
    let! l := match l with
              | [] => ask (on_labels gh) (GetIssueLabels org repo num)
              | _ => hret l
              end in
    hret (l, HasLabel OkToTest l).

(** ** Starting jobs *)

Definition skippedStatusFor (context : string) : Status :=
  mkStatus StatusSuccess "" "Skipped." context.

Definition validateContextOverlap (toRun toSkip : list Presubmit) : result unit :=
  match set_list (set_of (ps_Context <$> toRun) ∩ set_of (ps_Context <$> toSkip)) with
  | [] => Ok tt
  | overlap => Err (Errorf "the following contexts are both triggered and skipped: %s"
                      [AStr (string_join ", " overlap)])
  end.

Definition new_presubmit (pr : GitHubPullRequest) (baseSHA : string) (job : Presubmit)
    (eventGUID : string) (tr : list Call) : ProwJob :=
  NewPresubmit (fresh_label_ok fresh) (fresh_name fresh tr) (fresh_time fresh tr)
    pr baseSHA job eventGUID.

Fixpoint run_requested (pr : GitHubPullRequest) (baseSHA : string) (jobs : list Presubmit)
    (eventGUID : string) (errors : list error) : H Call unit :=
  match jobs with
  | [] => lift (NewAggregate errors)
  | job :: jobs =>
      let! pj := look (new_presubmit pr baseSHA job eventGUID) in
      let! created := attempt (ask (on_done gh) (CreateProwJob pj)) in
      run_requested pr baseSHA jobs eventGUID (errors ++ errs_of created)
  end.
Definition runRequested (pr : GitHubPullRequest) (baseSHA : string) (requestedJobs : list Presubmit)
    (eventGUID : string) : H Call unit := run_requested pr baseSHA requestedJobs eventGUID [].

Fixpoint skip_requested (pr : GitHubPullRequest) (jobs : list Presubmit) (errors : list error)
    : H Call unit :=
  match jobs with
  | [] => lift (NewAggregate errors)
  | job :: jobs =>
      if ps_SkipReport job then skip_requested pr jobs errors
      else
        let! posted := attempt (ask (on_done gh)
          (CreateStatus (gpr_BaseRepoOwner pr) (gpr_BaseRepoName pr) (gpr_HeadSHA pr)
             (skippedStatusFor (ps_Context job)))) in
        skip_requested pr jobs (errors ++ errs_of posted)
  end.
Definition skipRequested (pr : GitHubPullRequest) (skippedJobs : list Presubmit) : H Call unit :=
  skip_requested pr skippedJobs [].

Definition RunAndSkipJobs (pr : GitHubPullRequest) (baseSHA : string)
    (requestedJobs skippedJobs : list Presubmit) (eventGUID : string)
    (elideSkippedContexts : bool) : H Call unit :=
  let! _ := lift (validateContextOverlap requestedJobs skippedJobs) in
  let! runErr := attempt (runRequested pr baseSHA requestedJobs eventGUID) in
  let! skipErr := if elideSkippedContexts then hret (Ok tt)
                  else attempt (skipRequested pr skippedJobs) in
  lift (NewAggregate (errs_of runErr ++ errs_of skipErr)).

(** [NewGitHubDeferredChangedFilesProvider] between two calls. *)
Definition changed_files (tr : list Call) (org repo : string) (number : Z) : ChangedFilesProvider :=
  λ _, (deferred_changes (λ _, get_changes gh tr org repo number) []).2.

Definition buildAll (pr : GitHubPullRequest) (eventGUID : string) (elideSkippedContexts : bool)
    (baseSHA : string) (presubmits : list Presubmit) : H Call unit :=
  let! r := look (λ tr, PjUtil.FilterPresubmits TestAllFilter
      (changed_files tr (gpr_BaseRepoOwner pr) (gpr_BaseRepoName pr) (gpr_Number pr))
      (gpr_BaseRef pr) presubmits) in
  let! (toTest, toSkip) := lift r in
  RunAndSkipJobs pr baseSHA toTest toSkip eventGUID elideSkippedContexts.

(** ** Pull request events (pull-request.go) *)

Definition elide (trigger : Trigger) : H Call bool := deref (tg_ElideSkippedContexts trigger).

Definition remove_needs_ok_to_test (org repo : string) (num : Z) (l : list string) : H Call unit :=
  if HasLabel NeedsOkToTest l then ask (on_done gh) (RemoveLabel org repo num NeedsOkToTest)
  else hret tt.

Definition build_event (trigger : Trigger) (pr : PullRequestEvent) (baseSHA : string)
    (presubmits : list Presubmit) : H Call unit :=
  let! e := elide trigger in
  buildAll (pe_PullRequest pr) (pe_GUID pr) e baseSHA presubmits.

Definition buildAllIfTrusted (trigger : Trigger) (pr : PullRequestEvent) (baseSHA : string)
    (presubmits : list Presubmit) : H Call unit :=
  let p := pe_PullRequest pr in
  let org := gpr_BaseRepoOwner p in
  let repo := gpr_BaseRepoName p in
  let! (l, trusted) := with_err "could not validate PR: %s"
    (TrustedPullRequest trigger (gpr_UserLogin p) org repo (gpr_Number p) []) in
  if trusted : bool then
    let! _ := remove_needs_ok_to_test org repo (gpr_Number p) l in
    build_event trigger pr baseSHA presubmits
  else hret tt.

Definition welcome_text (trigger : Trigger) (author org encodedRepoFullName : string) : string :=
  let more := if bool_decide (tg_TrustedOrg trigger ≠ "" ∧ tg_TrustedOrg trigger ≠ org)
    then "or [" +:+ tg_TrustedOrg trigger +:+ "](https://github.com/orgs/"
         +:+ tg_TrustedOrg trigger +:+ "/people) " else "" in
  let joinOrgURL := if bool_decide (tg_JoinOrgURL trigger ≠ "") then tg_JoinOrgURL trigger
    else "https://github.com/orgs/" +:+ org +:+ "/people" in
  let about := ["I understand the commands that are listed [here](https://go.k8s.io/bot-commands?repo="
                  +:+ encodedRepoFullName +:+ ").";
                ""; "<details>"; ""; AboutThisBotWithoutCommands; "</details>"; ""] in
  if tg_IgnoreOkToTest trigger then
    text (["Hi @" +:+ author +:+ ". Thanks for your PR."; "";
      "PRs from untrusted users cannot be marked as trusted with `/ok-to-test` in this repo meaning untrusted PR authors can never trigger tests themselves. Collaborators can still trigger tests on the PR using `/test all`.";
      ""] ++ about)
  else
    text (["Hi @" +:+ author +:+ ". Thanks for your PR."; "";
      "I'm waiting for a [" +:+ org +:+ "](https://github.com/orgs/" +:+ org +:+ "/people) " +:+ more
        +:+ "member to verify that this patch is reasonable to test. If it is, they should reply with `/ok-to-test` on its own line. Until that is done, I will not automatically test new commits in this PR, but the usual testing commands by org members will still work. Regular contributors should [join the org]("
        +:+ joinOrgURL +:+ ") to skip this step.";
      "";
      "Once the patch is verified, the new status will be reflected by the `" +:+ OkToTest +:+ "` label.";
      ""] ++ about).

Definition welcomeMsg (trigger : Trigger) (pr : GitHubPullRequest) : H Call unit :=
  let org := gpr_BaseRepoOwner pr in
  let repo := gpr_BaseRepoName pr in
  let comment := welcome_text trigger (gpr_UserLogin pr) org
                   (query_escape (gpr_BaseRepoFullName pr)) in
  let! labelled :=
    if tg_IgnoreOkToTest trigger then hret (Ok tt)
    else attempt (ask (on_done gh) (AddLabel org repo (gpr_Number pr) NeedsOkToTest)) in
  let! commented := attempt (ask (on_done gh) (CreateComment org repo (gpr_Number pr) comment)) in
  lift (NewAggregate (errs_of labelled ++ errs_of commented)).

(** The presubmits and the base SHA; the SHA is only asked for when the
    configuration of the repository is in the repository, or later. *)
Definition base_getter (org repo : string) (pr : GitHubPullRequest) : H Call string :=
  with_err "failed to get baseSHA: %v"
    (ask (on_name gh) (GetRef org repo ("heads/" +:+ gpr_BaseRef pr))).

Definition pr_presubmits (org repo : string) (pr : GitHubPullRequest)
    : H Call (list Presubmit * string) :=
  let identifier := org +:+ "/" +:+ repo in
  let! base := if InRepoConfigEnabled config identifier then attempt (base_getter org repo pr)
               else hret (Ok "") in
  let! presubmits := with_err "failed to get presubmits: %v"
    (lift (GetPresubmits config identifier (λ _, base) [λ _, Ok (gpr_HeadSHA pr)])) in
  hret (presubmits, match base with Ok sha => sha | Err _ => "" end).

Definition handlePR (trigger : Trigger) (pr : PullRequestEvent) : H Call unit :=
  let p := pe_PullRequest pr in
  let org := gpr_BaseRepoOwner p in
  let repo := gpr_BaseRepoName p in
  let author := gpr_UserLogin p in
  let num := gpr_Number p in
  let! (presubmits, baseSHA) := pr_presubmits org repo p in
  if bool_decide (presubmits = []) then hret tt else
  let! baseSHA := if bool_decide (baseSHA = "") then base_getter org repo p else hret baseSHA in
  if bool_decide (pe_Action pr = PullRequestActionOpened) then
    let! member := with_err "could not check membership: %s"
      (TrustedUser (tg_OnlyOrgMembers trigger) (tg_TrustedOrg trigger) author org repo) in
    if member : bool then build_event trigger pr baseSHA presubmits
    else with_args "could not welcome non-org member %q: %v" [AStr author] (welcomeMsg trigger p)
  else if bool_decide (pe_Action pr = PullRequestActionReopened) then
    buildAllIfTrusted trigger pr baseSHA presubmits
  else if bool_decide (pe_Action pr = PullRequestActionEdited) then
    match pe_Changes pr with
    | None => hret tt
    | Some (ref, sha) =>
        if bool_decide (ref ≠ "" ∨ sha ≠ "") then buildAllIfTrusted trigger pr baseSHA presubmits
        else hret tt
    end
  else if bool_decide (pe_Action pr = PullRequestActionSynchronize) then
    buildAllIfTrusted trigger pr baseSHA presubmits
  else if bool_decide (pe_Action pr = PullRequestActionLabeled) then
    if bool_decide (pe_Label pr = LGTM) then
      let! (_, trusted) := with_err "could not validate PR: %s"
        (TrustedPullRequest trigger author org repo num []) in
      if trusted : bool then hret tt
      else build_event trigger pr baseSHA presubmits
    else if bool_decide (pe_Label pr = OkToTest) then
      let! botName := ask (on_name gh) BotName in
      if bool_decide (author = botName) then hret tt
      else build_event trigger pr baseSHA presubmits
    else hret tt
  else hret tt.

(** ** Comments (generic-comment.go) *)

(** [RefGetterForGitHubPullRequest]: the pull request and the base SHA, fetched at
    most once. *)
Record RefGetterForGitHubPullRequest := mkRefGetter {
  rg_pr : option GitHubPullRequest; rg_baseSHA : string }.

Definition rg_PullRequest (org repo : string) (number : Z) (rg : RefGetterForGitHubPullRequest)
    : H Call (RefGetterForGitHubPullRequest * GitHubPullRequest) :=
  match rg_pr rg with
  | Some pr => hret (rg, pr)
  | None => let! pr := ask (on_pr gh) (GetPullRequest org repo number) in
            hret (mkRefGetter (Some pr) (rg_baseSHA rg), pr)
  end.

Definition rg_HeadSHA (org repo : string) (number : Z) (rg : RefGetterForGitHubPullRequest)
    : H Call (RefGetterForGitHubPullRequest * string) :=
  let! (rg, pr) := rg_PullRequest org repo number rg in hret (rg, gpr_HeadSHA pr).

Definition rg_BaseSHA (org repo : string) (number : Z) (rg : RefGetterForGitHubPullRequest)
    : H Call (RefGetterForGitHubPullRequest * string) :=
  let! (rg, pr) := rg_PullRequest org repo number rg in
  if bool_decide (rg_baseSHA rg ≠ "") then hret (rg, rg_baseSHA rg)
  else
    let! sha := ask (on_name gh) (GetRef org repo ("heads/" +:+ gpr_BaseRef pr)) in
    hret (mkRefGetter (rg_pr rg) sha, sha).

Definition comment_presubmits (org repo : string) (number : Z)
    : H Call (RefGetterForGitHubPullRequest * list Presubmit) :=
  let identifier := org +:+ "/" +:+ repo in
  let rg := mkRefGetter None "" in
  let get base heads := with_err "failed to get presubmits: %v"
                          (lift (GetPresubmits config identifier (λ _, base) heads)) in
  if InRepoConfigEnabled config identifier then
    let! base := attempt (rg_BaseSHA org repo number rg) in
    match base with
    | Err e => let! presubmits := get (Err e) [] in hret (rg, presubmits)
    | Ok (rg, sha) =>
        let! (rg, head) := rg_HeadSHA org repo number rg in
        let! presubmits := get (Ok sha) [λ _, Ok head] in hret (rg, presubmits)
    end
  else let! presubmits := get (Ok "") [] in hret (rg, presubmits).

Definition HonorOkToTest (trigger : Trigger) : bool := negb (tg_IgnoreOkToTest trigger).

Definition getContexts (statuses : list (string * string)) : gset string * gset string :=
  (set_of (filter (λ s, s.2 = StatusError ∨ s.2 = StatusFailure) statuses).*1,
   set_of statuses.*1).

Definition FilterPresubmits (honorOkToTest : bool) (body : string) (pr : GitHubPullRequest)
    (presubmits : list Presubmit) (tr : list Call) : result (list Presubmit * list Presubmit) :=
  let org := gpr_BaseRepoOwner pr in
  let repo := gpr_BaseRepoName pr in
  let? f := PresubmitFilter honorOkToTest
    (λ _, let? combinedStatus := get_statuses gh tr org repo (gpr_HeadSHA pr) in
          Ok (getContexts combinedStatus)) body in
  PjUtil.FilterPresubmits f (changed_files tr org repo (gpr_Number pr)) (gpr_BaseRef pr) presubmits.

(** Is the comment for this plugin? *)
Definition germane (body : string) (presubmits : list Presubmit) : bool :=
  RetestRe body || OkToTestRe body || TestAllRe body ||
  existsb (λ p, TriggerMatches p body) presubmits.

Definition untrusted_reply : string :=
  "Cannot trigger testing until a trusted user reviews the PR and leaves an `/ok-to-test` message.".

Definition update_labels (trigger : Trigger) (org repo : string) (number : Z) (body : string)
    (l : list string) : H Call unit :=
  let isOkToTest := HonorOkToTest trigger && OkToTestRe body in
  let! _ := if isOkToTest && negb (HasLabel OkToTest l)
            then ask (on_done gh) (AddLabel org repo number OkToTest) else hret tt in
  if (isOkToTest || HasLabel OkToTest l) && HasLabel NeedsOkToTest l
  then ask (on_done gh) (RemoveLabel org repo number NeedsOkToTest) else hret tt.

(** Labels, then the jobs the comment asks for; the commenter is trusted, or the
    pull request is. *)
Definition start_for_comment (trigger : Trigger) (gc : GenericCommentEvent)
    (rg : RefGetterForGitHubPullRequest) (presubmits : list Presubmit) (l : list string)
    : H Call unit :=
  let org := gc_Org gc in
  let repo := gc_Repo gc in
  let number := gc_Number gc in
  let! l := match l with
            | [] => ask (on_labels gh) (GetIssueLabels org repo number)
            | _ => hret l
            end in
  let! _ := update_labels trigger org repo number (gc_Body gc) l in
  let! (rg, pr) := rg_PullRequest org repo number rg in
  let! (_, baseSHA) := rg_BaseSHA org repo number rg in
  let! r := look (FilterPresubmits (HonorOkToTest trigger) (gc_Body gc) pr presubmits) in
  let! (toTest, toSkip) := lift r in
  let! e := elide trigger in
  RunAndSkipJobs pr baseSHA toTest toSkip (gc_GUID gc) e.

Definition handleGenericComment (trigger : Trigger) (gc : GenericCommentEvent) : H Call unit :=
  let org := gc_Org gc in
  let repo := gc_Repo gc in
  let number := gc_Number gc in
  if bool_decide (gc_Action gc ≠ GenericCommentActionCreated) || negb (gc_IsPR gc)
     || bool_decide (gc_IssueState gc ≠ "open") then hret tt else
  let! botName := ask (on_name gh) BotName in
  if bool_decide (gc_User gc = botName) then hret tt else
  let! (rg, presubmits) := comment_presubmits org repo number in
  if negb (germane (gc_Body gc) presubmits) then hret tt else
  let! trusted := with_args "error checking trust of %s: %v" [AStr (gc_User gc)]
    (TrustedUser (tg_OnlyOrgMembers trigger) (tg_TrustedOrg trigger) (gc_User gc) org repo) in
  if trusted : bool then start_for_comment trigger gc rg presubmits []
  else
    let! (l, trusted) := TrustedPullRequest trigger (gc_IssueAuthor gc) org repo number [] in
    if trusted : bool then start_for_comment trigger gc rg presubmits l
    else ask (on_done gh) (CreateComment org repo number
           (FormatResponseRaw (gc_Body gc) (gc_HTMLURL gc) (gc_User gc) untrusted_reply)).

(** ** Pushes (push.go) *)

Section push.
Context `{GoRange}.

Definition listPushEventChanges (pe : PushEvent) : ChangedFilesProvider := λ _,
  Ok (set_range (set_of (flat_map (λ c, cm_Added c ++ cm_Removed c ++ cm_Modified c)
                           (pu_Commits pe)))).

Definition push_refs (pe : PushEvent) : Refs :=
  mkRefs (pu_OwnerName pe) (pu_RepoName pe) "" (Branch pe) (pu_After pe) (pu_Compare pe) []
    "" false "" false 0.

Definition new_postsubmit (pe : PushEvent) (j : Postsubmit) (tr : list Call) : ProwJob :=
  NewProwJob (fresh_label_ok fresh) (fresh_name fresh tr) (fresh_time fresh tr)
    (PostsubmitSpec j (push_refs pe)) (<[EventGUID := pu_GUID pe]> (jb_Labels (po_JobBase j)))
    (jb_Annotations (po_JobBase j)).

(** The first failure ends the loop. *)
Fixpoint start_postsubmits (pe : PushEvent) (jobs : list Postsubmit) : H Call unit :=
  match jobs with
  | [] => hret tt
  | j :: jobs =>
      let! shouldRun := lift (Postsubmit_ShouldRun j (Branch pe) (listPushEventChanges pe)) in
      if shouldRun : bool then
        let! pj := look (new_postsubmit pe j) in
        let! _ := ask (on_done gh) (CreateProwJob pj) in
        start_postsubmits pe jobs
      else start_postsubmits pe jobs
  end.

Definition handlePE (pe : PushEvent) : H Call unit :=
  if pu_Deleted pe then hret tt
  else start_postsubmits pe (default [] (jc_Postsubmits (cfg_JobConfig config) !! pu_FullName pe)).
End push.
End trigger.

(** ** Who may start tests *)

Section trust.
Context (gh : GitHub) (fresh : Fresh) (config : Config).

(** GitHub said that the user is a collaborator, where that counts, or a member. *)
Definition trusted_user (trigger : Trigger) (org repo user : string) (tr : list Call) : Prop :=
  (tg_OnlyOrgMembers trigger = false ∧ answered (on_bool gh) (IsCollaborator org repo user) yes tr) ∨
  answered (on_bool gh) (IsMember org user) yes tr ∨
  (tg_TrustedOrg trigger ≠ "" ∧ answered (on_bool gh) (IsMember (tg_TrustedOrg trigger) user) yes tr).

Definition ok_to_test (org repo : string) (num : Z) : list Call → Prop :=
  answered (on_labels gh) (GetIssueLabels org repo num) (λ l, HasLabel OkToTest l = true).

Definition trusted_pr (trigger : Trigger) (org repo author : string) (num : Z) (tr : list Call)
    : Prop :=
  trusted_user trigger org repo author tr ∨ ok_to_test org repo num tr.

Lemma stable_trusted_user trigger org repo user : stable (trusted_user trigger org repo user).
Proof.
  intros tr new [[? H]|[H|[? H]]];
    [left; split; [done|]|right; left|right; right; split; [done|]]; by apply stable_answered.
Qed.

Lemma stable_trusted_pr trigger org repo user num : stable (trusted_pr trigger org repo user num).
Proof.
  intros tr new [?|?]; [left; by apply stable_trusted_user|right; by apply stable_answered].
Qed.

Section rules.
Variable just : list Call → Call → Prop.
#[local] Notation may_act := (may_act just).

Lemma TrustedUser_ok trigger user org repo P :
  stable P →
  triple may_act P (TrustedUser gh (tg_OnlyOrgMembers trigger) (tg_TrustedOrg trigger) user org repo)
    (λ b tr, P tr ∧ (b = true → trusted_user trigger org repo user tr)).
Proof.
  intros HP. unfold TrustedUser. eapply (triple_bind _ _ _ _ (λ (b : bool) tr, P tr ∧
    (b = true → tg_OnlyOrgMembers trigger = false ∧
       answered (on_bool gh) (IsCollaborator org repo user) yes tr))).
  { apply triple_if; intros E; [by apply triple_ret|]. apply triple_with_err.
    eapply triple_conseq; [by apply (triple_question P)|done|].
    intros b tr [? Ha]. split; [done|]. intros ->. by split. }
  intros collaborator. apply triple_if; intros Ec.
  { apply triple_ret. intros tr [Htr Hc]. split; [done|]. intros _. left. by apply Hc. }
  eapply (triple_bind _ _ _ _ (λ (b : bool) tr, P tr ∧
    (b = true → answered (on_bool gh) (IsMember org user) yes tr))).
  { apply triple_with_args. eapply triple_conseq; [by apply (triple_question P)|by intros tr [? _]|].
    intros b tr [? Ha]. split; [done|]. by intros ->. }
  intros member. apply triple_if; intros Em.
  { apply triple_ret. intros tr [Htr Hm]. split; [done|]. intros _. right. left. by apply Hm. }
  apply triple_if; intros Eo; [by apply triple_ret; intros tr [? _]|].
  apply bool_decide_eq_false in Eo. apply triple_with_args.
  eapply triple_conseq; [by apply (triple_question P)|by intros tr [? _]|].
  intros b tr [? Ha]. split; [done|]. intros ->. right. right. split; [naive_solver|done].
Qed.

Lemma TrustedPullRequest_ok trigger author org repo num P :
  stable P →
  triple may_act P (TrustedPullRequest gh trigger author org repo num [])
    (λ lb tr, P tr ∧ (lb.2 = true → trusted_pr trigger org repo author num tr)).
Proof.
  intros HP. unfold TrustedPullRequest.
  eapply triple_bind; [apply triple_with_args, TrustedUser_ok, HP|]. intros orgMember. cbn beta.
  apply triple_if; intros Em.
  { apply triple_ret. intros tr [? Ht]. split; [done|]. intros _. left. by apply Ht. }
  eapply triple_bind; [eapply triple_weaken; [by apply (triple_question P)|by intros tr [? _]]|].
  intros l. apply triple_ret. intros tr [? Ha]. split; [done|]. intros Hl. right.
  destruct Ha as (pre & post & a & -> & Ha & ->). by exists pre, post, l.
Qed.

(** Starting and skipping jobs needs a justification for each of them, at the trace
    where it is created. *)
Lemma run_requested_ok P pr baseSHA jobs guid errors :
  stable P →
  (∀ tr p, P tr → p ∈ jobs → just tr (CreateProwJob (new_presubmit fresh pr baseSHA p guid tr))) →
  triple may_act P (run_requested gh fresh pr baseSHA jobs guid errors) (λ _, P).
Proof.
  intros HP. revert errors. induction jobs as [|job jobs IH]; intros errors Hj;
    cbn [run_requested]; [by apply triple_lift|].
  intros tr Htr.
  eapply (triple_bind may_act (λ t, t = tr) _ _
    (λ pj t, t = tr ∧ pj = new_presubmit fresh pr baseSHA job guid tr));
    [by apply triple_look; intros ? ->| |done].
  intros pj. eapply (triple_bind _ _ _ _ (λ _, P)); [|intros; apply IH; intros ? p ? ?; apply Hj; [done|by right]].
  intros t [-> ->]. exists [CreateProwJob (new_presubmit fresh pr baseSHA job guid tr)].
  split_and!; [done| |by intros; apply HP].
  intros [|? before] e after [= <- Heq]; [|by destruct before].
  intros _. rewrite app_nil_r. apply Hj; [done|left].
Qed.

Lemma skip_requested_ok P pr jobs errors :
  stable P →
  (∀ tr p, P tr → p ∈ jobs → ps_SkipReport p = false →
     just tr (CreateStatus (gpr_BaseRepoOwner pr) (gpr_BaseRepoName pr) (gpr_HeadSHA pr)
                (skippedStatusFor (ps_Context p)))) →
  triple may_act P (skip_requested gh pr jobs errors) (λ _, P).
Proof.
  intros HP. revert errors. induction jobs as [|job jobs IH]; intros errors Hj;
    cbn [skip_requested]; [by apply triple_lift|].
  assert (∀ errs, triple may_act P (skip_requested gh pr jobs errs) (λ _, P)) as IH'
    by (intros errs; apply IH; intros tr p ? ?; apply Hj; [done|by right]).
  destruct (ps_SkipReport job) eqn:Es; [apply IH'|].
  eapply (triple_bind _ _ _ _ (λ _, P)); [|intros; apply IH'].
  apply triple_attempt; [exact HP|]. apply triple_ask; [|done].
  intros tr Htr _. apply Hj; [done|left|done].
Qed.

Lemma RunAndSkipJobs_ok P pr baseSHA toTest toSkip guid elide :
  stable P →
  (∀ tr p, P tr → p ∈ toTest → just tr (CreateProwJob (new_presubmit fresh pr baseSHA p guid tr))) →
  (∀ tr p, P tr → p ∈ toSkip → ps_SkipReport p = false →
     just tr (CreateStatus (gpr_BaseRepoOwner pr) (gpr_BaseRepoName pr) (gpr_HeadSHA pr)
                (skippedStatusFor (ps_Context p)))) →
  triple may_act P (RunAndSkipJobs gh fresh pr baseSHA toTest toSkip guid elide) (λ _ _, True).
Proof.
  intros HP Ht Hs. unfold RunAndSkipJobs.
  eapply (triple_bind _ _ _ _ (λ _, P)); [by apply triple_lift|]. intros _.
  eapply (triple_bind _ _ _ _ (λ _, P)).
  { apply triple_attempt; [exact HP|]. eapply triple_conseq; [by apply run_requested_ok|done|done]. }
  intros runErr. eapply (triple_bind _ _ _ _ (λ _, P)).
  { apply triple_if; intros _; [by apply triple_ret|]. apply triple_attempt; [exact HP|].
    eapply triple_conseq; [by apply skip_requested_ok|done|done]. }
  intros skipErr. by apply triple_lift.
Qed.
End rules.

(** *** Comments *)

Section comment.
Variables (trigger : Trigger) (gc : GenericCommentEvent).
Let org := gc_Org gc.
Let repo := gc_Repo gc.
Let number := gc_Number gc.

(** A trusted user commented, or the pull request is trusted. *)
Definition vouched (tr : list Call) : Prop :=
  trusted_user trigger org repo (gc_User gc) tr ∨
  trusted_pr trigger org repo (gc_IssueAuthor gc) number tr.

(** GitHub answered with this pull request, and this base SHA for its branch. *)
Definition fetched (pr : GitHubPullRequest) : list Call → Prop :=
  answered (on_pr gh) (GetPullRequest org repo number) (λ p, p = pr).
Definition base_of (pr : GitHubPullRequest) (sha : string) : list Call → Prop :=
  answered (on_name gh) (GetRef org repo ("heads/" +:+ gpr_BaseRef pr)) (λ s, s = sha).

(** The presubmits the configuration gives the repository. *)
Definition configured_presubmits (presubmits : list Presubmit) : Prop :=
  ∃ base heads, GetPresubmits config (org +:+ "/" +:+ repo) base heads = Ok presubmits.

(** What was triggered and skipped for the pull request, when it was decided. *)
Definition filtered (pr : GitHubPullRequest) (toTest toSkip : list Presubmit) : Prop :=
  ∃ presubmits t, configured_presubmits presubmits ∧
    FilterPresubmits gh (HonorOkToTest trigger) (gc_Body gc) pr presubmits t = Ok (toTest, toSkip).

Definition comment_action (tr : list Call) (e : Call) : Prop :=
  vouched tr ∧
  match e with
  | CreateProwJob pj => ∃ pr sha toTest toSkip p,
      fetched pr tr ∧ base_of pr sha tr ∧ filtered pr toTest toSkip ∧ p ∈ toTest ∧
      pj = new_presubmit fresh pr sha p (gc_GUID gc) tr
  | CreateStatus o r ref s => ∃ pr toTest toSkip p,
      fetched pr tr ∧ filtered pr toTest toSkip ∧ p ∈ toSkip ∧ ps_SkipReport p = false ∧
      o = gpr_BaseRepoOwner pr ∧ r = gpr_BaseRepoName pr ∧ ref = gpr_HeadSHA pr ∧
      s = skippedStatusFor (ps_Context p)
  | _ => True
  end.

Definition rg_ok (rg : RefGetterForGitHubPullRequest) (tr : list Call) : Prop :=
  match rg_pr rg with
  | Some pr => fetched pr tr ∧ (rg_baseSHA rg ≠ "" → base_of pr (rg_baseSHA rg) tr)
  | None => rg_baseSHA rg = ""
  end.

Lemma stable_rg rg : stable (rg_ok rg).
Proof.
  intros tr new. unfold rg_ok. destruct (rg_pr rg); [|done].
  intros [? Hb]. split; [by apply stable_answered|]. intros ?. by apply stable_answered, Hb.
Qed.

Notation allowed := (may_act comment_action).

Lemma rg_PullRequest_ok P rg :
  stable P →
  triple allowed (λ tr, P tr ∧ rg_ok rg tr) (rg_PullRequest gh org repo number rg)
    (λ r tr, P tr ∧ rg_ok r.1 tr ∧ rg_pr r.1 = Some r.2 ∧ ∀ pr, rg_pr rg = Some pr → pr = r.2).
Proof.
  intros HP. unfold rg_PullRequest. destruct (rg_pr rg) as [pr|] eqn:E.
  { apply triple_ret. intros tr [? Hr]. split_and!; [done..|]. cbn. congruence. }
  eapply triple_bind; [apply triple_question; [apply stable_and; [exact HP|apply stable_rg]|done]|].
  intros pr. apply triple_ret. intros tr [[? Hr] Ha]. unfold rg_ok in *. rewrite E in Hr.
  split_and!; [done| |done..]. by split.
Qed.

Lemma rg_BaseSHA_ok P rg :
  stable P →
  triple allowed (λ tr, P tr ∧ rg_ok rg tr) (rg_BaseSHA gh org repo number rg)
    (λ r tr, P tr ∧ rg_ok r.1 tr ∧ ∃ pr, rg_pr r.1 = Some pr ∧ base_of pr r.2 tr ∧
       ∀ pr', rg_pr rg = Some pr' → pr' = pr).
Proof.
  intros HP. unfold rg_BaseSHA. eapply triple_bind; [by apply rg_PullRequest_ok|].
  intros [rg' pr]. cbn. apply triple_if; intros Eb.
  - apply bool_decide_eq_true in Eb. apply triple_ret. intros tr (? & Hr & Hpr & Hk). cbn.
    split_and!; [done..|]. exists pr. split_and!; [done| |naive_solver].
    unfold rg_ok in Hr. rewrite Hpr in Hr. by apply Hr.
  - eapply triple_bind.
    { eapply triple_weaken;
        [apply (triple_question (λ tr, (P tr ∧ rg_ok rg' tr) ∧
           rg_pr rg' = Some pr ∧ ∀ pr0, rg_pr rg = Some pr0 → pr0 = pr)); [|done]|by intros tr (? & ? & ? & ?)].
      apply stable_and; [apply stable_and; [exact HP|apply stable_rg]|by intros ? ? ?]. }
    intros sha. apply triple_ret. intros tr (((? & Hr) & Hpr & Hk) & Ha). cbn.
    split_and!; [done| |exists pr; split_and!; [done|exact Ha|done]].
    unfold rg_ok in *. cbn. rewrite Hpr in *. split; [apply Hr|]. intros _. exact Ha.
Qed.

Lemma update_labels_ok P l :
  stable P → (∀ tr, P tr → vouched tr) →
  triple allowed P (update_labels gh trigger org repo number (gc_Body gc) l) (λ _, P).
Proof.
  intros HP Hv. unfold update_labels. eapply (triple_bind _ _ _ _ (λ _, P)).
  - apply triple_if; intros _; [|by apply triple_ret].
    apply triple_ask; [|intros; by apply HP]. intros tr Htr _. split; [by apply Hv|done].
  - intros _. apply triple_if; intros _; [|by apply triple_ret].
    apply triple_ask; [|intros; by apply HP]. intros tr Htr _. split; [by apply Hv|done].
Qed.

Lemma start_for_comment_ok rg presubmits l :
  configured_presubmits presubmits →
  triple allowed (λ tr, vouched tr ∧ rg_ok rg tr)
    (start_for_comment gh fresh trigger gc rg presubmits l) (λ _ _, True).
Proof.
  intros Hconf. unfold start_for_comment. fold org repo number.
  assert (stable vouched) as Hv.
  { intros tr new [?|?]; [left; by apply stable_trusted_user|right; by apply stable_trusted_pr]. }
  pose proof (stable_and _ _ Hv (stable_rg rg)) as Hvr.
  eapply (triple_bind _ _ _ _ (λ _ tr, vouched tr ∧ rg_ok rg tr)).
  { destruct l; [|by apply triple_ret].
    eapply triple_conseq; [by apply (triple_question _ _ _ Hvr)|done|by intros ? ? [? _]]. }
  intros l'. eapply triple_bind; [apply update_labels_ok; [exact Hvr|by intros tr [? _]]|].
  intros ?. cbn beta. eapply triple_bind; [by apply rg_PullRequest_ok|]. intros [rg1 pr]. cbn.
  eapply (triple_bind _ _ _ _ (λ r tr, vouched tr ∧ fetched pr tr ∧ base_of pr r.2 tr)).
  { eapply triple_conseq; [apply (rg_BaseSHA_ok (λ tr, vouched tr ∧ rg_pr rg1 = Some pr))| |].
    - apply stable_and; [exact Hv|by intros ? ? ?].
    - by intros tr (? & ? & ? & _).
    - intros [rg2 sha] tr ((Hvt & E1) & Hr & pr' & E2 & Hb & Hk). cbn in *.
      pose proof (Hk _ E1) as <-. unfold rg_ok in Hr. rewrite E2 in Hr. by destruct Hr. }
  intros [rg2 sha]. cbn beta iota.
  assert (stable (λ tr, vouched tr ∧ fetched pr tr ∧ base_of pr sha tr)) as Hst
    by (apply stable_and; [done|apply stable_and; apply stable_answered]).
  eapply (triple_bind _ _ _ _ (λ r tr, (vouched tr ∧ fetched pr tr ∧ base_of pr sha tr) ∧
    ∃ t, r = FilterPresubmits gh (HonorOkToTest trigger) (gc_Body gc) pr presubmits t)).
  { apply triple_look. intros tr Htr. split; [done|by eexists]. }
  intros r. eapply (triple_bind _ _ _ _ (λ tt tr,
    (vouched tr ∧ fetched pr tr ∧ base_of pr sha tr) ∧ filtered pr tt.1 tt.2)).
  { apply triple_lift. intros [t1 t2] tr -> (Htr & t & Hf). split; [done|]. by exists presubmits, t. }
  intros [toTest toSkip]. eapply (triple_bind _ _ _ _ (λ _ tr,
    (vouched tr ∧ fetched pr tr ∧ base_of pr sha tr) ∧ filtered pr toTest toSkip));
    [by apply triple_deref|]. intros e.
  apply RunAndSkipJobs_ok; [apply stable_and; [exact Hst|by intros ? ? ?]| |].
  - intros tr p ((? & ? & ?) & ?) Hp. split; [done|]. by exists pr, sha, toTest, toSkip, p.
  - intros tr p ((? & ? & ?) & ?) Hp Hs. split; [done|]. exists pr, toTest, toSkip, p.
    by split_and!.
Qed.

Lemma comment_presubmits_ok :
  triple allowed (λ _, True) (comment_presubmits gh config org repo number)
    (λ r tr, rg_ok r.1 tr ∧ configured_presubmits r.2).
Proof.
  unfold comment_presubmits.
  assert (∀ base heads (Q : list Call → Prop), triple allowed Q
    (with_err "failed to get presubmits: %v"
       (lift (GetPresubmits config (org +:+ "/" +:+ repo) (λ _, base) heads)))
    (λ presubmits tr, Q tr ∧ configured_presubmits presubmits)) as Hget.
  { intros base heads Q. apply triple_with_err, triple_lift. intros ps tr E ?. split; [done|].
    by do 2 eexists. }
  apply triple_if; intros _.
  - eapply (triple_bind _ _ _ _ (λ r tr, match r with Ok b => rg_ok b.1 tr | Err _ => True end)).
    { intros tr _. destruct (rg_BaseSHA_ok (λ _, True) (mkRefGetter None "") ltac:(done) tr)
        as (new & E1 & S1 & Q1); [by split|].
      exists new. unfold attempt, outcome.
      destruct (rg_BaseSHA gh org repo number _ tr) as [tr' [[b|e]|]] eqn:E; cbn in *;
        (split_and!; [done|done|]); [|by intros ? [= <-]|done].
      intros r [= <-]. by destruct (Q1 b eq_refl) as (_ & ? & _). }
    intros [[rg sha]|e].
    + eapply (triple_bind _ _ _ _ (λ r tr, rg_ok r.1 tr)).
      { eapply triple_bind.
        - eapply triple_weaken; [apply (rg_PullRequest_ok (λ _, True)); done|]. intros tr ?. by split.
        - intros [rg' pr]. apply triple_ret. by intros tr (_ & ? & _). }
      intros [rg' head]. eapply triple_bind; [apply Hget|]. intros presubmits. by apply triple_ret.
    + eapply triple_bind; [apply Hget|]. intros presubmits. apply triple_ret. by intros tr [_ ?].
  - eapply triple_bind; [apply Hget|]. intros presubmits. apply triple_ret. by intros tr [_ ?].
Qed.

Lemma handleGenericComment_ok :
  triple allowed (λ _, True) (handleGenericComment gh fresh config trigger gc) (λ _ _, True).
Proof.
  unfold handleGenericComment. fold org repo number.
  apply triple_if; intros _; [by apply triple_ret|].
  eapply (triple_bind _ _ _ _ (λ _ _, True)).
  { eapply triple_conseq; [by apply (triple_question (λ _, True))|done|done]. }
  intros botName. apply triple_if; intros _; [by apply triple_ret|].
  eapply triple_bind; [apply comment_presubmits_ok|]. intros [rg presubmits]. cbn beta iota delta [fst snd].
  apply triple_if; intros _; [by apply triple_ret|].
  assert (stable (λ tr, rg_ok rg tr ∧ configured_presubmits presubmits)) as Hst
    by (apply stable_and; [apply stable_rg|by intros ? ? ?]).
  eapply triple_bind; [by apply triple_with_args, TrustedUser_ok|].
  intros trusted. apply triple_if; intros Et.
  { intros tr ((Hr & Hc) & Ht). apply start_for_comment_ok; [done|]. split; [left; by apply Ht|done]. }
  eapply triple_bind.
  { eapply triple_weaken; [apply TrustedPullRequest_ok, Hst|by intros tr [? _]]. }
  intros [l trusted']. apply triple_if; intros Et'.
  - intros tr ((Hr & Hc) & Ht). apply start_for_comment_ok; [done|].
    split; [right; by apply Ht|done].
  - by apply triple_ask.
Qed.

(** C4. A comment starts a test, posts a skipped status or changes labels only when
    it is a new comment on an open pull request, and only after GitHub confirmed
    during this event that its author is trusted (a collaborator, unless only
    members count, or a member of the organization or the trusted one), or that
    the author of the pull request is, or that it is labelled ok-to-test.  Every
    job that is started is a presubmit of the repository's configuration that the
    comment asks for, at the head of the pull request and the tip of its base
    branch as GitHub gave them. *)
Theorem handleGenericComment_trusted :
  let '(calls, _) := handleGenericComment gh fresh config trigger gc [] in
  ∀ before e after, calls = before ++ e :: after →
    gc_Action gc = GenericCommentActionCreated ∧ gc_IsPR gc = true ∧ gc_IssueState gc = "open" ∧
    (action e = true → comment_action before e).
Proof.
  destruct (handleGenericComment_ok [] I) as (new & E & Hs & _).
  destruct (handleGenericComment gh fresh config trigger gc []) as [calls r] eqn:Eh. cbn in E. subst calls.
  intros before e after Hn. split_and!; [..|intros Ha; by eapply Hs].
  all: unfold handleGenericComment in Eh;
    destruct (bool_decide (gc_Action gc ≠ GenericCommentActionCreated)) eqn:E1;
    [injection Eh as <- _; by destruct before|];
    destruct (gc_IsPR gc) eqn:E2; [|injection Eh as <- _; by destruct before];
    destruct (bool_decide (gc_IssueState gc ≠ "open")) eqn:E3;
    [injection Eh as <- _; by destruct before|].
  - apply bool_decide_eq_false in E1. by apply dec_stable.
  - done.
  - apply bool_decide_eq_false in E3. by apply dec_stable.
Qed.
End comment.

(** *** Pull request events *)

Section pull_request.
Variables (trigger : Trigger) (pe : PullRequestEvent).
Let p := pe_PullRequest pe.
Let org := gpr_BaseRepoOwner p.
Let repo := gpr_BaseRepoName p.

(** Why tests may start: trust, or a label that stands for it. *)
Definition pr_reason (tr : list Call) : Prop :=
  trusted_pr trigger org repo (gpr_UserLogin p) (gpr_Number p) tr ∨
  pe_Action pe = PullRequestActionLabeled ∧ (pe_Label pe = LGTM ∨ pe_Label pe = OkToTest).

Definition pr_filtered (toTest toSkip : list Presubmit) : Prop :=
  ∃ presubmits base heads t, GetPresubmits config (org +:+ "/" +:+ repo) base heads = Ok presubmits ∧
    PjUtil.FilterPresubmits TestAllFilter (changed_files gh t org repo (gpr_Number p))
      (gpr_BaseRef p) presubmits = Ok (toTest, toSkip).

Definition pr_action (tr : list Call) (e : Call) : Prop :=
  match e with
  | CreateProwJob pj => pr_reason tr ∧ ∃ sha toTest toSkip job,
      answered (on_name gh) (GetRef org repo ("heads/" +:+ gpr_BaseRef p)) (λ s, s = sha) tr ∧
      pr_filtered toTest toSkip ∧ job ∈ toTest ∧
      pj = new_presubmit fresh p sha job (pe_GUID pe) tr
  | CreateStatus o r ref s => pr_reason tr ∧ ∃ toTest toSkip job,
      pr_filtered toTest toSkip ∧ job ∈ toSkip ∧ ps_SkipReport job = false ∧
      o = org ∧ r = repo ∧ ref = gpr_HeadSHA p ∧ s = skippedStatusFor (ps_Context job)
  | AddLabel _ _ _ l => l = NeedsOkToTest ∧ pe_Action pe = PullRequestActionOpened
  | RemoveLabel _ _ _ l => l = NeedsOkToTest ∧
      trusted_pr trigger org repo (gpr_UserLogin p) (gpr_Number p) tr
  | _ => True
  end.

Notation allowed := (may_act pr_action).

(** The tip of the base branch is known. *)
Definition base_is (sha : string) : list Call → Prop :=
  answered (on_name gh) (GetRef org repo ("heads/" +:+ gpr_BaseRef p)) (λ s, s = sha).

Definition presubmits_are (presubmits : list Presubmit) : Prop :=
  ∃ base heads, GetPresubmits config (org +:+ "/" +:+ repo) base heads = Ok presubmits.

Lemma stable_pr_reason : stable pr_reason.
Proof. intros tr new [?|?]; [left; by apply stable_trusted_pr|by right]. Qed.

Lemma build_event_ok presubmits sha :
  presubmits_are presubmits →
  triple allowed (λ tr, pr_reason tr ∧ base_is sha tr)
    (build_event gh fresh trigger pe sha presubmits) (λ _ _, True).
Proof.
  intros (base & heads & Hps). unfold build_event, buildAll. fold p org repo.
  assert (stable (λ tr, pr_reason tr ∧ base_is sha tr)) as Hst
    by (apply stable_and; [apply stable_pr_reason|apply stable_answered]).
  eapply (triple_bind _ _ _ _ (λ _ tr, pr_reason tr ∧ base_is sha tr)); [by apply triple_deref|].
  intros e. eapply (triple_bind _ _ _ _ (λ r tr, (pr_reason tr ∧ base_is sha tr) ∧
    ∃ t, r = PjUtil.FilterPresubmits TestAllFilter (changed_files gh t org repo (gpr_Number p))
               (gpr_BaseRef p) presubmits)).
  { apply triple_look. intros tr Htr. split; [done|by eexists]. }
  intros r. eapply (triple_bind _ _ _ _ (λ tt tr,
    (pr_reason tr ∧ base_is sha tr) ∧ pr_filtered tt.1 tt.2)).
  { apply triple_lift. intros [t1 t2] tr -> (Htr & t & Hf). split; [done|].
    by exists presubmits, base, heads, t. }
  intros [toTest toSkip]. apply RunAndSkipJobs_ok; [apply stable_and; [exact Hst|by intros ? ? ?]| |].
  - intros tr job ((Hr & Hb) & Hf) Hj. split; [exact Hr|]. by exists sha, toTest, toSkip, job.
  - intros tr job ((Hr & Hb) & Hf) Hj Hs. split; [exact Hr|]. exists toTest, toSkip, job. by split_and!.
Qed.

Lemma buildAllIfTrusted_ok presubmits sha :
  presubmits_are presubmits →
  triple allowed (base_is sha) (buildAllIfTrusted gh fresh trigger pe sha presubmits) (λ _ _, True).
Proof.
  intros Hps. unfold buildAllIfTrusted. fold p org repo.
  eapply triple_bind; [apply triple_with_err, TrustedPullRequest_ok, stable_answered|].
  intros [l trusted]. apply triple_if; intros Et; [|by apply triple_ret]. subst trusted.
  eapply (triple_bind _ _ _ _ (λ _ tr, pr_reason tr ∧ base_is sha tr));
    [|intros _x; by apply build_event_ok].
  unfold remove_needs_ok_to_test. apply triple_if; intros _.
  - apply triple_ask.
    + intros tr [_ Ht] _. split; [done|by apply Ht].
    + intros tr _ [Hb Ht] _. split; [left; by apply stable_trusted_pr, Ht|by apply stable_answered].
  - apply triple_ret. intros tr [Hb Ht]. split; [left; by apply Ht|done].
Qed.

Lemma base_getter_ok :
  triple allowed (λ _, True) (base_getter gh org repo p) (λ sha, base_is sha).
Proof.
  apply triple_with_err. eapply triple_conseq; [by apply (triple_question (λ _, True))|done|].
  by intros sha tr [_ ?].
Qed.

Lemma pr_presubmits_ok :
  triple allowed (λ _, True) (pr_presubmits gh config org repo p)
    (λ r tr, presubmits_are r.1 ∧ (r.2 ≠ "" → base_is r.2 tr)).
Proof.
  unfold pr_presubmits.
  eapply (triple_bind _ _ _ _ (λ (r : result string) tr, ∀ sha, r = Ok sha → sha ≠ "" → base_is sha tr)).
  - apply triple_if; intros _; [|apply triple_ret; intros ? _ ? [= <-]; done].
    intros tr _. destruct (base_getter_ok tr I) as (new & E1 & S1 & Q1).
    exists new. unfold attempt, outcome.
    destruct (base_getter gh org repo p tr) as [tr' [[b|e]|]] eqn:E; cbn in *;
      (split_and!; [done|done|]); [|by intros ? [= <-]|done].
    intros r [= <-] sha [= <-] _. by apply Q1.
  - intros base. eapply (triple_bind _ _ _ _ (λ presubmits tr, presubmits_are presubmits ∧
      ∀ sha, base = Ok sha → sha ≠ "" → base_is sha tr)).
    { apply triple_with_err, triple_lift. intros ps tr E Hb. split; [by do 2 eexists|done]. }
    intros presubmits. apply triple_ret. intros tr [? Hb]. split; [done|].
    destruct base; cbn; [|done]. by apply Hb.
Qed.

Lemma handlePR_ok :
  triple allowed (λ _, True) (handlePR gh fresh config trigger pe) (λ _ _, True).
Proof.
  unfold handlePR. fold p org repo.
  eapply triple_bind; [apply pr_presubmits_ok|]. intros [presubmits sha0]. cbn beta iota delta [fst snd].
  apply triple_if; intros _; [by apply triple_ret|].
  eapply (triple_bind _ _ _ _ (λ sha tr, presubmits_are presubmits ∧ base_is sha tr)).
  { apply triple_if; intros Eb.
    - intros tr [Hps _]. destruct (base_getter_ok tr I) as (new & E1 & S1 & Q1).
      exists new. split_and!; [done|done|]. intros a Ha. split; [done|by apply Q1].
    - apply bool_decide_eq_false in Eb. apply triple_ret. intros tr [Hps Hb]. split; [done|by apply Hb]. }
  intros sha. apply triple_pure. intros Hps.
  pose proof (stable_answered (on_name gh) (GetRef org repo ("heads/" +:+ gpr_BaseRef p))
                (λ s, s = sha)) as Hst. fold (base_is sha) in Hst.
  apply triple_if; intros E1.
  { apply bool_decide_eq_true in E1. eapply triple_bind; [apply triple_with_err, TrustedUser_ok, Hst|].
    intros member. apply triple_if; intros Em.
    - intros tr [Hb Ht]. apply build_event_ok; [done|]. split; [left; left; by apply Ht|done].
    - eapply (triple_weaken _ _ (base_is sha)); [|by intros ? [? _]].
      apply triple_with_args. unfold welcomeMsg. fold org repo.
      eapply (triple_bind _ _ _ _ (λ _, base_is sha)).
      + apply triple_if; intros _; [by apply triple_ret|].
        apply triple_attempt; [done|]. by apply triple_ask.
      + intros labelled. eapply (triple_bind _ _ _ _ (λ _, base_is sha)); [|intros ?; by apply triple_lift].
        apply triple_attempt; [done|]. by apply triple_ask. }
  apply triple_if; intros E2; [by apply buildAllIfTrusted_ok|].
  apply triple_if; intros E3.
  { destruct (pe_Changes pe) as [[ref sha']|]; [|by apply triple_ret].
    apply triple_if; intros _; [by apply buildAllIfTrusted_ok|by apply triple_ret]. }
  apply triple_if; intros E4; [by apply buildAllIfTrusted_ok|].
  apply triple_if; intros E5; [|by apply triple_ret]. apply bool_decide_eq_true in E5.
  apply triple_if; intros E6.
  { apply bool_decide_eq_true in E6. eapply triple_bind; [apply triple_with_err, TrustedPullRequest_ok, Hst|].
    intros [l trusted]. apply triple_if; intros _; [by apply triple_ret|].
    intros tr [Hb _]. apply build_event_ok; [done|]. split; [by right; auto|done]. }
  apply triple_if; intros E7; [|by apply triple_ret]. apply bool_decide_eq_true in E7.
  eapply triple_bind; [by apply triple_question|]. intros botName.
  apply triple_if; intros _; [by apply triple_ret|].
  intros tr [Hb _]. apply build_event_ok; [done|]. split; [by right; auto|done].
Qed.

(** C5. A pull request event starts tests or posts skipped statuses only after GitHub
    confirmed during the event that the author is trusted or the pull request is
    labelled ok-to-test, or because the label lgtm or ok-to-test was just put on it;
    the jobs are those of [TestAllFilter] at the event's head and the tip of the
    base branch.  needs-ok-to-test is added only when an untrusted pull request is
    opened, and removed only from a trusted one. *)
Theorem handlePR_trusted :
  let '(calls, _) := handlePR gh fresh config trigger pe [] in
  ∀ before e after, calls = before ++ e :: after → action e = true → pr_action before e.
Proof.
  destruct (handlePR_ok [] I) as (new & E & Hs & _).
  destruct (handlePR gh fresh config trigger pe []) as [calls r]. cbn in E. subst calls.
  intros before e after Hn Ha. by eapply Hs.
Qed.
End pull_request.

(** *** What is started *)

Lemma FilterPresubmits_disjoint f changes branch presubmits toTest toSkip :
  PjUtil.FilterPresubmits f changes branch presubmits = Ok (toTest, toSkip) →
  validateContextOverlap toTest toSkip = Ok tt.
Proof.
  unfold PjUtil.FilterPresubmits, validateContextOverlap.
  destruct (filter_loop f changes branch presubmits) as [[t s]|e]; [|done]. intros [= <- <-].
  enough (set_of (ps_Context <$> t) ∩ set_of (ps_Context <$> determineSkippedPresubmits t s) = ∅)
    as -> by done.
  apply set_eq. intros c. rewrite elem_of_intersection, !elem_of_set_of. split; [|set_solver].
  intros [Ht Hs]. apply list_elem_of_fmap in Hs as (p & -> & Hp).
  apply list_elem_of_filter in Hp as [Hn _]. by rewrite elem_of_set_of in Hn.
Qed.

Lemma run_requested_run pr sha jobs guid errors tr :
  ∃ created,
    run_requested gh fresh pr sha jobs guid errors tr
      = (tr ++ created, Some (NewAggregate (errors ++ failures (on_done gh) tr created))) ∧
    Forall2 (λ job e, ∃ t, e = CreateProwJob (new_presubmit fresh pr sha job guid t)) jobs created.
Proof.
  revert errors tr. induction jobs as [|job jobs IH]; intros errors tr.
  { exists []. cbn. by rewrite !app_nil_r. }
  set (pj := new_presubmit fresh pr sha job guid tr).
  destruct (IH (errors ++ errs_of (on_done gh (tr ++ [CreateProwJob pj]))) (tr ++ [CreateProwJob pj]))
    as (created & E & Hf).
  exists (CreateProwJob pj :: created). split; [|constructor; [by exists tr|done]].
  change (run_requested gh fresh pr sha (job :: jobs) guid errors tr)
    with (run_requested gh fresh pr sha jobs guid
            (errors ++ errs_of (on_done gh (tr ++ [CreateProwJob pj]))) (tr ++ [CreateProwJob pj])).
  rewrite E. cbn [failures]. by rewrite <- !app_assoc.
Qed.

Definition skipped_calls (pr : GitHubPullRequest) (jobs : list Presubmit) : list Call :=
  (λ job, CreateStatus (gpr_BaseRepoOwner pr) (gpr_BaseRepoName pr) (gpr_HeadSHA pr)
            (skippedStatusFor (ps_Context job))) <$> filter (λ job, ps_SkipReport job = false) jobs.

Lemma skip_requested_run pr jobs errors tr :
  skip_requested gh pr jobs errors tr
    = (tr ++ skipped_calls pr jobs,
       Some (NewAggregate (errors ++ failures (on_done gh) tr (skipped_calls pr jobs)))).
Proof.
  unfold skipped_calls. revert errors tr. induction jobs as [|job jobs IH]; intros errors tr.
  { cbn. by rewrite !app_nil_r. }
  cbn [skip_requested]. destruct (ps_SkipReport job) eqn:Es.
  - rewrite filter_cons_False by congruence. apply IH.
  - rewrite filter_cons_True by done. rewrite fmap_cons. cbn [failures].
    match goal with |- context [tr ++ ?x :: _] => set (c := x) end.
    transitivity (skip_requested gh pr jobs (errors ++ errs_of (on_done gh (tr ++ [c]))) (tr ++ [c]));
      [done|]. by rewrite IH, <- !app_assoc.
Qed.

(** The jobs a filter selected are all started, in order, at the given head and
    base, whether other calls fail or not; then every job it skipped that reports
    gets a skipped status, unless these are elided; the result is an error exactly
    if a call failed.  Selected and skipped jobs never overlap in a context. *)
Theorem RunAndSkipJobs_complete f changes branch presubmits toTest toSkip pr sha guid elide tr :
  PjUtil.FilterPresubmits f changes branch presubmits = Ok (toTest, toSkip) →
  ∃ created out,
    let calls := created ++ (if elide : bool then [] else skipped_calls pr toSkip) in
    RunAndSkipJobs gh fresh pr sha toTest toSkip guid elide tr = (tr ++ calls, Some out) ∧
    Forall2 (λ job e, ∃ t, e = CreateProwJob (new_presubmit fresh pr sha job guid t))
      toTest created ∧
    (out = Ok tt ↔ failures (on_done gh) tr calls = []).
Proof.
  intros Hf. destruct (run_requested_run pr sha toTest guid [] tr) as (created & E & Hc).
  unfold RunAndSkipJobs. rewrite (FilterPresubmits_disjoint _ _ _ _ _ _ Hf).
  exists created. rewrite (hbind_ok (lift (Ok tt)) _ _ tr tt) by done.
  rewrite (hbind_ok _ _ _ _ _ (attempt_run _ _ _ _ E)). destruct elide.
  - rewrite (hbind_ok (hret (Ok tt)) _ _ (tr ++ created) (Ok tt)) by done.
    rewrite !app_nil_r. eexists. split_and!; [done|done|].
    by rewrite NewAggregate_Ok, errs_of_NewAggregate.
  - rewrite (hbind_ok _ _ _ _ _ (attempt_run _ _ _ _ (skip_requested_run pr toSkip [] _))).
    eexists. split_and!; [by rewrite <- app_assoc|done|].
    rewrite NewAggregate_Ok, failures_app, !app_nil, !errs_of_NewAggregate. naive_solver.
Qed.
End trust.

(** ** Witnesses: a member comments, an untrusted author updates *)

Definition w_trigger : Trigger := SetDefaults (mkTrigger ["o"] "" "" false false None).
Definition w_comment (user body : string) : GenericCommentEvent :=
  mkGenericCommentEvent true "created" body "url" 1 "o" "r" user "author" [] "open" "" "" "guid".
Definition w_event (action label : string) : PullRequestEvent :=
  mkPullRequestEvent action 1 w_gpr "o" "r" label "sender" None "guid".

Definition is_created (e : Call) : bool := match e with CreateProwJob _ => true | _ => false end.

Definition w_comment_calls : list Call :=
  (handleGenericComment (w_github ["member"] [] []) w_fresh w_config w_trigger
     (w_comment "member" "/test unit") []).1.
Definition w_event_calls : list Call :=
  (handlePR (w_github [] ["ok-to-test"] []) w_fresh w_config w_trigger
     (w_event "synchronize" "") []).1.

(** The member's comment starts the job; what it needed is in the trace before. *)
Lemma handleGenericComment_trusted_witness :
  match w_comment_calls !! 5 with
  | Some e => is_created e = true ∧
      vouched (w_github ["member"] [] []) w_trigger (w_comment "member" "/test unit")
        (take 5 w_comment_calls)
  | None => False
  end.
Proof.
  pose proof (handleGenericComment_trusted (w_github ["member"] [] []) w_fresh w_config w_trigger
                (w_comment "member" "/test unit")) as Ht.
  assert (is_created <$> w_comment_calls !! 5 = Some true) as Hc by (vm_compute; reflexivity).
  unfold w_comment_calls in *. destruct (handleGenericComment _ _ _ _ _ []) as [calls out].
  cbn [fst] in *. destruct (calls !! 5) as [e|] eqn:He; [|discriminate].
  injection Hc as Hc. split; [exact Hc|].
  apply take_drop_middle in He. destruct (Ht _ _ _ (eq_sym He)) as (_ & _ & _ & Ha).
  apply Ha. destruct e; first [reflexivity|discriminate].
Defined.

(** A stranger's comment starts nothing and is answered. *)
Example untrusted_comment :
  filter (λ e, action e = true)
    (handleGenericComment (w_github ["member"] [] []) w_fresh w_config w_trigger
       (w_comment "stranger" "/test unit") []).1 = [].
Proof. vm_compute. reflexivity. Qed.

Lemma handlePR_trusted_witness :
  match w_event_calls !! 4 with
  | Some e => is_created e = true ∧
      pr_reason (w_github [] ["ok-to-test"] []) w_trigger (w_event "synchronize" "")
        (take 4 w_event_calls)
  | None => False
  end.
Proof.
  pose proof (handlePR_trusted (w_github [] ["ok-to-test"] []) w_fresh w_config w_trigger
                (w_event "synchronize" "")) as Ht.
  assert (is_created <$> w_event_calls !! 4 = Some true) as Hc by (vm_compute; reflexivity).
  unfold w_event_calls in *. destruct (handlePR _ _ _ _ _ []) as [calls out].
  cbn [fst] in *. destruct (calls !! 4) as [e|] eqn:He; [|discriminate].
  injection Hc as Hc. split; [exact Hc|].
  apply take_drop_middle in He. destruct e; try discriminate.
  exact (proj1 (Ht _ _ _ (eq_sym He) eq_refl)).
Defined.

Lemma RunAndSkipJobs_complete_witness :
  PjUtil.FilterPresubmits TestAllFilter (λ _, Ok []) "master" [w_job "unit"] = Ok ([w_job "unit"], []) ∧
  ∃ created out,
    RunAndSkipJobs (w_github [] [] []) w_fresh w_gpr "base" [w_job "unit"] [] "guid" false [] =
      ([] ++ created ++ [], Some out) ∧ length created = 1.
Proof.
  assert (PjUtil.FilterPresubmits TestAllFilter (λ _, Ok []) "master" [w_job "unit"]
          = Ok ([w_job "unit"], [])) as E by reflexivity.
  split; [exact E|].
  destruct (RunAndSkipJobs_complete (w_github [] [] []) w_fresh _ _ _ _ _ _ w_gpr "base" "guid"
              false [] E) as (created & out & Hr & Hf & _).
  exists created, out. split; [exact Hr|]. symmetry. exact (Forall2_length _ _ _ Hf).
Defined.

(** The bot's own label starts the jobs again, on top of those its comment handler
    starts: the author of the pull request, not the sender, is compared to it. *)
Example bot_label_builds :
  let event := mkPullRequestEvent "labeled" 1 w_gpr "o" "r" OkToTest "bot" None "guid" in
  existsb is_created (handlePR (w_github [] [] []) w_fresh w_config w_trigger event []).1 = true.
Proof. vm_compute. reflexivity. Qed.
