(* ===== verification/Report.v ===== *)
(** * Reports on GitHub (github/report/report.go)

    The status of a finished or running job, and the one comment that lists the
    failed tests of a pull request.  The comment is the only memory of the reporter:
    it is parsed, updated and written again. *)

From S2P Require Import Prelude Api JobConfig PjUtil GoText Handler GitHub Samples.
#[local] Open Scope go_scope.

Definition commentTag : string := "<!-- test report -->".

Definition prowjobStateToGitHubStatus (pjState : ProwJobState) : result string :=
  if bool_decide (pjState = TriggeredState) then Ok StatusPending
  else if bool_decide (pjState = PendingState) then Ok StatusPending
  else if bool_decide (pjState = SuccessState) then Ok StatusSuccess
  else if bool_decide (pjState = ErrorState) then Ok StatusError
  else if bool_decide (pjState = FailureState) then Ok StatusFailure
  else if bool_decide (pjState = AbortedState) then Ok StatusFailure
  else Err (Errorf "Unknown prowjob state: %v" [AStr pjState]).

Definition maxLen : nat := 140.
Definition elision : string := " ... ".
Definition half : nat := (maxLen - String.length elision) / 2.

Definition truncate (s : string) : string :=
  if bool_decide (String.length s ≤ maxLen) then s
  else String.substring 0 half s +:+ elision +:+ String.substring (String.length s - half) half s.

Definition ShouldReport (pj : ProwJob) (validTypes : list ProwJobType) : bool :=
  existsb (λ t, bool_decide (spec_Type (pj_Spec pj) = t)) validTypes && spec_Report (pj_Spec pj).

(** ** The comment *)

(** The table rows of a body: the lines from one that starts with dashes to an
    empty one. *)
Fixpoint rows (tracking : bool) (ls : list string) : list string :=
  match ls with
  | [] => []
  | l :: ls =>
      let line := trim_space l in
      if has_prefix "---" line then rows true ls
      else if bool_decide (line = "") then rows false ls
      else if tracking then line :: rows tracking ls
      else rows tracking ls
  end.

Record parsed := mkParsed {
  pa_delete : list Z; pa_previous : list Z; pa_latest : Z; pa_entries : list string }.

Definition note_comment (context botName : string) (a : parsed) (ic : IssueComment) : parsed :=
  if bool_decide (ic_User ic ≠ botName) then a
  else
    let delete := if has_prefix context (ic_Body ic) then pa_delete a ++ [ic_ID ic]
                  else pa_delete a in
    if negb (contains (ic_Body ic) commentTag)
    then mkParsed delete (pa_previous a) (pa_latest a) (pa_entries a)
    else mkParsed delete
           (if bool_decide (pa_latest a ≠ 0%Z) then pa_previous a ++ [pa_latest a] else pa_previous a)
           (ic_ID ic) (pa_entries a ++ rows false (split_char "010" (ic_Body ic))).

(** The context in a table row. *)
Definition row_context (entry : string) : string :=
  match cut " | " entry with Some (c, _) => c | None => entry end.

(** The rows that stay: the last of each context, without the job's own. *)
Fixpoint kept_rows (context : string) (entries : list string) : list string :=
  match entries with
  | [] => []
  | e :: rest =>
      if existsb (λ e', bool_decide (row_context e' = row_context e)) rest
         || bool_decide (context = row_context e)
      then kept_rows context rest
      else e :: kept_rows context rest
  end.

Definition createEntry (pj : ProwJob) (pull : Pull) : string :=
  string_join " | "
    [spec_Context (pj_Spec pj); pull_SHA pull;
     "[link](" +:+ st_URL (pj_Status pj) +:+ ")";
     "`" +:+ spec_RerunCommand (pj_Spec pj) +:+ "`"].

(** The pull request is [refs.Pulls[0]]; without one the code panics. *)
Definition parseIssueComments (pj : ProwJob) (botName : string) (ics : list IssueComment)
    : may_panic (list Z * list string * Z) :=
  let context := spec_Context (pj_Spec pj) in
  let a := foldl (note_comment context botName) (mkParsed [] [] 0 []) ics in
  let newEntries := kept_rows context (pa_entries a) in
  let failed := bool_decide (pj_State pj = StatusFailure) in
  newEntries ←
    (if failed then
       refs ← spec_Refs (pj_Spec pj); pull ← head (refs_Pulls refs);
       Some (newEntries ++ [createEntry pj pull])
     else Some newEntries);
  let delete := pa_delete a ++ pa_previous a in
  if (failed || bool_decide (newEntries = [])) && bool_decide (pa_latest a ≠ 0%Z)
  then Some (delete ++ [pa_latest a], newEntries, 0%Z)
  else Some (delete, newEntries, pa_latest a).

Section report.
Context (reportTemplate : option (ProwJob → result string)).

Definition comment_lines (author : string) (entries footer : list string) : list string :=
  ["@" +:+ author +:+ ": The following test" +:+ (if bool_decide (1 < length entries) then "s" else "")
     +:+ " **failed**, say `/retest` to rerun them all:";
   "";
   "Test name | Commit | Details | Rerun command";
   "--- | --- | --- | ---"] ++ entries ++ footer ++
  [""; "<details>"; ""; AboutThisBot; "</details>"; commentTag].

Definition createComment (pj : ProwJob) (pull : Pull) (entries : list string) : result string :=
  let? footer := match reportTemplate with
                 | Some execute => let? s := execute pj in Ok [""; s]
                 | None => Ok []
                 end in
  Ok (text (comment_lines (pull_Author pull) entries footer)).

(** ** Reporting *)

Definition reportStatus (gh : GitHub) (pj : ProwJob) : H Call unit :=
  if spec_Report (pj_Spec pj) then
    let! contextState := lift (prowjobStateToGitHubStatus (pj_State pj)) in
    let! refs := deref (spec_Refs (pj_Spec pj)) in
    let sha := match refs_Pulls refs with pull :: _ => pull_SHA pull | [] => refs_BaseSHA refs end in
    ask (on_done gh) (CreateStatus (refs_Org refs) (refs_Repo refs) sha
      (mkStatus contextState (st_URL (pj_Status pj)) (truncate (st_Description (pj_Status pj)))
         (spec_Context (pj_Spec pj))))
  else hret tt.

Fixpoint delete_comments (gh : GitHub) (org repo : string) (ids : list Z) : H Call unit :=
  match ids with
  | [] => hret tt
  | id :: ids =>
      let! _ := with_err "error deleting comment: %v"
                  (ask (on_done gh) (DeleteComment org repo id)) in
      delete_comments gh org repo ids
  end.

Definition write_comment (gh : GitHub) (pj : ProwJob) (refs : Refs) (pull : Pull)
    (entries : list string) (updateID : Z) : H Call unit :=
  match entries with
  | [] => hret tt
  | _ =>
      let! comment := with_err "generating comment: %v" (lift (createComment pj pull entries)) in
      if bool_decide (updateID = 0%Z)
      then with_err "error creating comment: %v"
             (ask (on_done gh) (CreateComment (refs_Org refs) (refs_Repo refs) (pull_Number pull) comment))
      else with_err "error updating comment: %v"
             (ask (on_done gh) (EditComment (refs_Org refs) (refs_Repo refs) updateID comment))
  end.

Definition report_comment (gh : GitHub) (pj : ProwJob) (refs : Refs) (pull : Pull) : H Call unit :=
  let! ics := with_err "error listing comments: %v"
    (ask (on_comments gh) (ListIssueComments (refs_Org refs) (refs_Repo refs) (pull_Number pull))) in
  let! botName := with_err "error getting bot name: %v" (ask (on_name gh) BotName) in
  let! (deletes, entries, updateID) := deref (parseIssueComments pj botName ics) in
  let! _ := delete_comments gh (refs_Org refs) (refs_Repo refs) deletes in
  write_comment gh pj refs pull entries updateID.

Definition Report (ghc : option GitHub) (pj : ProwJob) (validTypes : list ProwJobType)
    : H Call unit :=
  match ghc with
  | None => herr (Errorf "trying to report pj %s, but found empty github client" [AStr (pj_Name pj)])
  | Some gh =>
      if negb (ShouldReport pj validTypes) then hret tt else
      let! refs := deref (spec_Refs (pj_Spec pj)) in
      if bool_decide (1 < length (refs_Pulls refs)) then hret tt else
      let! _ := with_err "error setting status: %v" (reportStatus gh pj) in
      if negb (Complete pj) then hret tt else
      match refs_Pulls refs with
      | [] => hret tt
      | pull :: _ => report_comment gh pj refs pull
      end
  end.
End report.

(** ** The comment is a table

    Abstractly, the report comments of a pull request are a table from contexts to
    rows; a report of a finished job replaces its row. *)

Section table.
Variable bot : string.

Definition is_report (ic : IssueComment) : bool :=
  bool_decide (ic_User ic = bot) && contains (ic_Body ic) commentTag.

Definition body_rows (body : string) : list string := rows false (split_char "010" body).
Definition report_rows (ics : list IssueComment) : list string :=
  flat_map (λ ic, body_rows (ic_Body ic)) (filter (λ ic, is_report ic = true) ics).

(** The row of a context: the last one wins. *)
Definition row_in (entries : list string) (context : string) : option string :=
  last (filter (λ e, row_context e = context) entries).
Definition table (ics : list IssueComment) : string → option string := row_in (report_rows ics).

(** The table after a report. *)
Definition reported (pj : ProwJob) (pull : Pull) (t : string → option string) : string → option string :=
  λ c, if decide (c = spec_Context (pj_Spec pj))
       then if decide (pj_State pj = FailureState) then Some (createEntry pj pull) else None
       else t c.

(** What a call asks GitHub to do to the comments of the pull request. *)
Definition apply_call (new_comment : string → IssueComment) (ics : list IssueComment) (e : Call)
    : list IssueComment :=
  match e with
  | CreateComment _ _ _ body => ics ++ [new_comment body]
  | DeleteComment _ _ id => filter (λ ic, ic_ID ic ≠ id) ics
  | EditComment _ _ id body =>
      (λ ic, if decide (ic_ID ic = id)
             then mkIssueComment id body (ic_User ic) (ic_HTMLURL ic) (ic_CreatedAt ic) (ic_UpdatedAt ic)
             else ic) <$> ics
  | _ => ics
  end.

(** *** Reading *)

Definition quiet (line : string) : Prop := has_prefix "---" (trim_space line) = false.

Lemma rows_quiet l k : Forall quiet l → rows false (l ++ k) = rows false k.
Proof.
  induction 1 as [|line l Hq _ IH]; [done|]. cbn [app rows]. unfold quiet in Hq. rewrite Hq.
  by destruct (bool_decide _).
Qed.

(** A line that is read back as the row it is. *)
Record good_row (line : string) : Prop := {
  gr_line : contains_char "010" line = false; gr_trimmed : trimmed line;
  gr_dashes : has_prefix "---" line = false; gr_ne : line ≠ "" }.

Lemma rows_good l k : Forall good_row l → rows true (l ++ k) = l ++ rows true k.
Proof.
  induction 1 as [|line l [Hl Ht Hd Hn] _ IH]; [done|]. cbn [app rows].
  rewrite trim_space_trimmed, Hd, bool_decide_eq_false_2 by done. by rewrite IH.
Qed.

Lemma contains_char_prefix c s t : contains_char c (s +:+ t) = false → contains_char c s = false.
Proof.
  induction s as [|a s IH]; [done|]. rewrite str_app_cons. cbn [contains_char].
  case_decide; [done|]. apply IH.
Qed.
Lemma contains_char_suffix c s t : contains_char c (s +:+ t) = false → contains_char c t = false.
Proof.
  induction s as [|a s IH]; [done|]. rewrite str_app_cons. cbn [contains_char].
  case_decide; [done|]. apply IH.
Qed.
Lemma contains_char_trim c s : contains_char c s = false → contains_char c (trim_space s) = false.
Proof.
  intros Hs. unfold trim_space. destruct (trim_go_prefix (String.length s) s) as [w E].
  rewrite E in Hs. apply contains_char_suffix in Hs.
  set (left := trim_go _ trim_prefix_go s) in *.
  destruct (trim_go_suffix (String.length left) left) as [w' E']. rewrite E' in Hs.
  by apply contains_char_prefix in Hs.
Qed.

Lemma split_char_pieces c s : Forall (λ p, contains_char c p = false) (split_char c s).
Proof.
  induction s as [|a s IH]; cbn [split_char]; [by constructor|].
  case_decide; [by constructor|]. destruct (split_char c s) as [|p ps].
  - constructor; [|constructor]. cbn [contains_char]. by rewrite decide_False.
  - apply Forall_cons in IH as [Hp Hps]. constructor; [|done]. cbn [contains_char].
    by rewrite decide_False.
Qed.

(** Whatever is read is good. *)
Lemma rows_are_good tracking ls :
  Forall (λ l, contains_char "010" l = false) ls → Forall good_row (rows tracking ls).
Proof.
  intros Hls. revert tracking. induction Hls as [|l ls Hl _ IH]; intros tracking; cbn [rows]; [done|].
  destruct (has_prefix "---" (trim_space l)) eqn:Ed; [apply IH|].
  case_bool_decide as En; [apply IH|]. destruct tracking; [|apply IH].
  constructor; [|apply IH].
  split; [by apply contains_char_trim|apply trim_space_ok|done|done].
Qed.

Lemma report_rows_good ics : Forall good_row (report_rows ics).
Proof.
  unfold report_rows. induction (filter _ ics) as [|ic l IH]; [constructor|].
  cbn [flat_map]. apply Forall_app. split; [|exact IH]. apply rows_are_good, split_char_pieces.
Qed.

(** *** Writing *)

Section writing.
Context (reportTemplate : option (ProwJob → result string)).

(** What is put below the table must not look like another one. *)
Definition quiet_text (s : string) : Prop := Forall quiet (split_char "010" s).
Definition quiet_template : Prop :=
  match reportTemplate with
  | Some execute => ∀ pj s, execute pj = Ok s → quiet_text s
  | None => True
  end.

Lemma at_line_quiet s : contains_char "010" s = false → quiet_text (String "@" s).
Proof.
  intros Hs. unfold quiet_text. rewrite split_char_none by (cbn [contains_char]; by rewrite decide_False).
  constructor; [|constructor]. unfold quiet.
  destruct (has_prefix "---" (trim_space (String "@" s))) eqn:E; [|done].
  apply trim_space_first in E; [done|]. vm_compute. repeat constructor.
Qed.

Lemma createComment_rows pj pull entries body :
  createComment reportTemplate pj pull entries = Ok body →
  quiet_template → contains_char "010" (pull_Author pull) = false → Forall good_row entries →
  body_rows body = entries.
Proof.
  unfold createComment. intros (footer & Hfoot & [= <-])%rbind_Ok_inv Hq Ha He.
  unfold body_rows. rewrite split_go_text by done.
  assert (footer = [] ∨ ∃ s, footer = [""; s] ∧ quiet_text s) as Hf.
  { unfold quiet_template in Hq. destruct reportTemplate as [execute|].
    - apply rbind_Ok_inv in Hfoot as (s & Hs & [= <-]). right. exists s. split; [done|by eapply Hq].
    - injection Hfoot as <-. by left. }
  unfold comment_lines. rewrite !flat_map_app. cbn [flat_map].
  rewrite app_nil_r, <- !app_assoc. rewrite rows_quiet.
  2:{ assert (∀ s, contains_char "010" s = false → contains_char "010" (pull_Author pull +:+ s) = false) as Hc.
      { intros s Hs. clear -Ha Hs. induction (pull_Author pull) as [|a t IH]; [done|].
        rewrite str_app_cons. cbn [contains_char] in *. case_decide; auto. }
      apply at_line_quiet, Hc. destruct (bool_decide (1 < length entries)); reflexivity. }
  change (rows false (split_char "010" "" ++ split_char "010" "Test name | Commit | Details | Rerun command" ++
    split_char "010" "--- | --- | --- | ---" ++ ?rest)) with (rows true rest).
  assert (flat_map (split_char "010") entries = entries) as ->.
  { clear -He. induction He as [|e l [Hl _ _ _] _ IH]; [done|]. cbn [flat_map].
    by rewrite (split_char_none _ _ Hl), IH. }
  rewrite rows_good by done. rewrite <- (app_nil_r entries) at 2. f_equal.
  destruct Hf as [->|(s & -> & Hs)]; [by vm_compute|].
  cbn [flat_map]. rewrite app_nil_r, <- app_assoc.
  change (rows true (split_char "010" "" ++ ?rest)) with (rows false rest).
  rewrite rows_quiet by done. by vm_compute.
Qed.

Lemma text_cons x y l : text (x :: y :: l) = x +:+ newline +:+ text (y :: l).
Proof. done. Qed.

Lemma text_last l x : ∃ s, text (l ++ [x]) = s +:+ x.
Proof.
  induction l as [|y l [s IH]]; [by exists ""|].
  exists (y +:+ newline +:+ s). destruct l as [|z l]; cbn [app] in *.
  - change (text [y; x]) with (y +:+ newline +:+ x). change (text [x]) with x in IH.
    destruct s; [|exfalso; clear -IH]. { by rewrite string_app_nil_r, string_app_assoc. }
    apply (f_equal String.length) in IH. rewrite length_str_app in IH. cbn in IH. lia.
  - change (text (y :: z :: l ++ [x])) with (y +:+ newline +:+ text (z :: l ++ [x])).
    by rewrite IH, !string_app_assoc.
Qed.

Lemma createComment_tag pj pull entries body :
  createComment reportTemplate pj pull entries = Ok body → contains body commentTag = true.
Proof.
  unfold createComment. intros (footer & _ & [= <-])%rbind_Ok_inv. unfold comment_lines.
  rewrite !app_assoc.
  change [""; "<details>"; ""; AboutThisBot; "</details>"; commentTag]
    with ([""; "<details>"; ""; AboutThisBot; "</details>"] ++ [commentTag]).
  rewrite app_assoc. destruct (text_last (((["@" +:+ pull_Author pull +:+ ": The following test" +:+
     (if bool_decide (1 < length entries) then "s" else "") +:+
     " **failed**, say `/retest` to rerun them all:"; "";
     "Test name | Commit | Details | Rerun command"; "--- | --- | --- | ---"] ++ entries) ++ footer) ++
     [""; "<details>"; ""; AboutThisBot; "</details>"]) commentTag) as [s ->].
  apply contains_spec. exists s, "". by rewrite string_app_nil_r.
Qed.
End writing.

(** *** Updating *)

Lemma row_in_app l k c :
  row_in (l ++ k) c = match row_in k c with Some e => Some e | None => row_in l c end.
Proof.
  unfold row_in. rewrite filter_app. destruct (last (filter _ k)) as [e|] eqn:E.
  - rewrite last_app, E. done.
  - apply last_None in E. by rewrite E, app_nil_r.
Qed.

Lemma row_in_cons e l c :
  row_in (e :: l) c = match row_in l c with
                      | Some e' => Some e'
                      | None => if decide (row_context e = c) then Some e else None
                      end.
Proof.
  rewrite (row_in_app [e] l). destruct (row_in l c); [done|]. unfold row_in. case_decide.
  - by rewrite filter_cons_True.
  - by rewrite filter_cons_False.
Qed.

Lemma row_in_None l c : row_in l c = None ↔ ∀ e, e ∈ l → row_context e ≠ c.
Proof.
  induction l as [|e l IH]; [split; [by intros _ ? ?%not_elem_of_nil|done]|].
  rewrite row_in_cons. setoid_rewrite elem_of_cons.
  destruct (row_in l c) as [e'|].
  - split; [done|]. intros Hl. assert (∃ x, x ∈ l ∧ row_context x = c) as (x & Hx & Hc); [|naive_solver].
    destruct (decide (Exists (λ x, row_context x = c) l)) as [Hex|Hn]; [by apply Exists_exists in Hex|].
    exfalso. assert (Some e' = None) as [=]. apply IH. intros x Hx Hc. apply Hn, Exists_exists. eauto.
  - case_decide; naive_solver.
Qed.

Lemma kept_rows_in context l c :
  row_in (kept_rows context l) c = if decide (c = context) then None else row_in l c.
Proof.
  induction l as [|e l IH]; [by case_decide|]. cbn [kept_rows]. rewrite row_in_cons.
  destruct (existsb _ l) eqn:Ed; cbn [orb].
  - rewrite IH. case_decide; [done|]. apply existsb_exists in Ed as (e' & He' & Ed).
    apply bool_decide_eq_true in Ed. apply list_elem_of_In in He'.
    destruct (row_in l c) eqn:E; [done|]. case_decide as Hc; [|done].
    exfalso. eapply (proj1 (row_in_None l c) E); [exact He'|congruence].
  - case_bool_decide as Ec.
    + rewrite IH. case_decide; [done|]. destruct (row_in l c); [done|]. by rewrite decide_False by congruence.
    + rewrite row_in_cons, IH. case_decide; [|done]. by rewrite decide_False by congruence.
Qed.

Lemma kept_rows_incl context l : Forall good_row l → Forall good_row (kept_rows context l).
Proof.
  induction 1 as [|e l He _ IH]; [constructor|]. cbn [kept_rows]. destruct (_ || _); [done|].
  by constructor.
Qed.

Lemma note_comments context ics :
  (∀ ic, ic ∈ ics → ic_ID ic ≠ 0%Z) →
  let a := foldl (note_comment context bot) (mkParsed [] [] 0 []) ics in
  let ids := ic_ID <$> filter (λ ic, is_report ic = true) ics in
  pa_entries a = report_rows ics ∧
  (∀ id, id ∈ pa_delete a → ∃ ic, ic ∈ ics ∧ ic_ID ic = id ∧ ic_User ic = bot ∧
     has_prefix context (ic_Body ic) = true) ∧
  ((pa_latest a = 0%Z ∧ pa_previous a = [] ∧ ids = []) ∨
   (pa_latest a ≠ 0%Z ∧ ids = pa_previous a ++ [pa_latest a])).
Proof.
  intros Hnz. cbn zeta. induction ics as [|ic ics IH] using rev_ind.
  { split_and!; [done|by intros ? ?%not_elem_of_nil|by left]. }
  destruct IH as (He & Hd & Hl); [set_solver|].
  rewrite foldl_snoc, filter_app, fmap_app. unfold report_rows in *. rewrite filter_app, flat_map_app.
  set (a := foldl _ _ ics) in *. assert (ic_ID ic ≠ 0%Z) as Hid by (apply Hnz; set_solver).
  unfold note_comment. case_bool_decide as Hu.
  { assert (is_report ic ≠ true) by (unfold is_report; by rewrite bool_decide_eq_false_2).
    rewrite !filter_cons_False, filter_nil by done.
    cbn. rewrite !app_nil_r. split_and!; [done| |done].
    intros id (x & ? & ?)%Hd. exists x. set_solver. }
  assert (is_report ic = contains (ic_Body ic) commentTag) as Hrep
    by (unfold is_report; by rewrite bool_decide_eq_true_2).
  assert (∀ id, id ∈ (if has_prefix context (ic_Body ic) then pa_delete a ++ [ic_ID ic] else pa_delete a) →
    ∃ x, x ∈ ics ++ [ic] ∧ ic_ID x = id ∧ ic_User x = bot ∧ has_prefix context (ic_Body x) = true) as Hd'.
  { intros id Hin. destruct (has_prefix context (ic_Body ic)) eqn:Ep.
    - apply elem_of_app in Hin as [(x & ? & ?)%Hd| ->%list_elem_of_singleton];
        [exists x; set_solver|exists ic; set_solver].
    - apply Hd in Hin as (x & ? & ?). exists x. set_solver. }
  destruct (contains (ic_Body ic) commentTag) eqn:Ec; cbn [negb].
  - rewrite !filter_cons_True, filter_nil by done.
    cbn [pa_entries pa_delete pa_latest pa_previous flat_map fmap list_fmap].
    rewrite app_nil_r, He. split_and!; [done|exact Hd'|]. right. split; [done|].
    destruct Hl as [(-> & -> & ->)|(Hl & ->)]; [done|].
    rewrite bool_decide_eq_true_2 by done. done.
  - rewrite !filter_cons_False, filter_nil by congruence.
    cbn [pa_entries pa_delete pa_latest pa_previous flat_map fmap list_fmap].
    rewrite !app_nil_r. by split_and!.
Qed.

Lemma apply_deletes new_comment org repo ids ics :
  foldl (apply_call new_comment) ics (DeleteComment org repo <$> ids)
  = filter (λ ic, ic_ID ic ∉ ids) ics.
Proof.
  revert ics. induction ids as [|id ids IH]; intros ics.
  - cbn. symmetry. apply filter_id. set_solver.
  - rewrite fmap_cons. cbn [foldl]. rewrite IH. cbn [apply_call].
    apply filter_twice. set_solver.
Qed.

(** *** A report *)

(** Comments as GitHub keeps them: distinct identifiers; reports start with a
    mention. *)
Record tidy (ics : list IssueComment) : Prop := {
  ti_ids : NoDup (ic_ID <$> ics);
  ti_nonzero ic : ic ∈ ics → ic_ID ic ≠ 0%Z;
  ti_mention ic : ic ∈ ics → is_report ic = true → has_prefix "@" (ic_Body ic) = true }.

(** A job whose row can be read back: a context that is not a mention, without the
    separator, and no line breaks. *)
Record good_job (pj : ProwJob) (pull : Pull) : Prop := {
  gj_context : spec_Context (pj_Spec pj) ≠ "" ∧ has_prefix "@" (spec_Context (pj_Spec pj)) = false;
  gj_row : good_row (createEntry pj pull);
  gj_key : row_context (createEntry pj pull) = spec_Context (pj_Spec pj);
  gj_author : contains_char "010" (pull_Author pull) = false }.

Section one_report.
Context (reportTemplate : option (ProwJob → result string)).
Variables (pj : ProwJob) (pull : Pull) (ics : list IssueComment).
Hypothesis Htidy : tidy ics.
Hypothesis Hjob : good_job pj pull.

Lemma same_id x y : x ∈ ics → y ∈ ics → ic_ID x = ic_ID y → x = y.
Proof.
  intros [i Hi]%list_elem_of_lookup [j Hj]%list_elem_of_lookup E.
  assert (i = j) as ->; [|congruence]. eapply NoDup_lookup; [exact (ti_ids _ Htidy)| |].
  - by rewrite list_lookup_fmap, Hi.
  - rewrite list_lookup_fmap, Hj. cbn. by rewrite E.
Qed.

Lemma old_not_report ic :
  ic ∈ ics → has_prefix (spec_Context (pj_Spec pj)) (ic_Body ic) = true → is_report ic = false.
Proof.
  intros Hin Hp. destruct (is_report ic) eqn:Er; [|done].
  pose proof (ti_mention _ Htidy _ Hin Er) as Hm. destruct (gj_context _ _ Hjob) as [Hne Hat].
  destruct (spec_Context (pj_Spec pj)) as [|a c]; [done|].
  apply has_prefix_spec in Hp as [t Hp]. apply has_prefix_spec in Hm as [t' Hm].
  rewrite Hp, !str_app_cons in Hm. injection Hm as -> _. by destruct c.
Qed.

(** What is deleted and what is written. *)
Record parse_ok (D : list Z) (entries : list string) (upd : Z) : Prop := {
  po_good : Forall good_row entries;
  po_rows c : row_in entries c = reported pj pull (table ics) c;
  po_bot ic : ic ∈ ics → ic_ID ic ∈ D → ic_User ic = bot;
  po_new : upd = 0%Z → ∀ ic, ic ∈ ics → is_report ic = true → ic_ID ic ∈ D;
  po_edit : upd ≠ 0%Z → entries ≠ [] ∧ ∃ r, r ∈ ics ∧ is_report r = true ∧ ic_ID r = upd ∧
    upd ∉ D ∧ ∀ ic, ic ∈ ics → is_report ic = true → ic_ID ic ∉ D → ic = r }.

Lemma report_by_bot ic : is_report ic = true → ic_User ic = bot.
Proof. intros [Hr _]%andb_true_iff. by apply bool_decide_eq_true in Hr. Qed.

(** The rows of the updated comment. *)
Definition new_rows : list string :=
  kept_rows (spec_Context (pj_Spec pj)) (report_rows ics) ++
  (if decide (pj_State pj = FailureState) then [createEntry pj pull] else []).

Lemma new_rows_ok :
  Forall good_row new_rows ∧ ∀ c, row_in new_rows c = reported pj pull (table ics) c.
Proof.
  unfold new_rows, reported, table. split.
  - apply Forall_app. split; [apply kept_rows_incl, report_rows_good|].
    case_decide; [|constructor]. constructor; [apply Hjob|constructor].
  - intros c. rewrite row_in_app, kept_rows_in. case_decide as Ef; [|done].
    rewrite row_in_cons, (gj_key _ _ Hjob). cbn [row_in filter last].
    destruct (decide (c = _)) as [->|Hc]; [by rewrite decide_True|].
    by rewrite (decide_False (P := _ = c)) by congruence.
Qed.

(** What the first pass over the comments found. *)
Record noted (a : parsed) : Prop := {
  no_rows : pa_entries a = report_rows ics;
  no_delete ic : ic ∈ ics → ic_ID ic ∈ pa_delete a → ic_User ic = bot ∧ is_report ic = false;
  no_previous ic : ic ∈ ics → ic_ID ic ∈ pa_previous a → is_report ic = true;
  no_reports ic : ic ∈ ics → is_report ic = true →
    ic_ID ic ∈ pa_previous a ∨ (ic_ID ic = pa_latest a ∧ pa_latest a ≠ 0%Z);
  no_latest : pa_latest a ≠ 0%Z → pa_latest a ∉ pa_previous a ∧
    ∃ r, r ∈ ics ∧ is_report r = true ∧ ic_ID r = pa_latest a }.

Lemma note_comments_noted :
  noted (foldl (note_comment (spec_Context (pj_Spec pj)) bot) (mkParsed [] [] 0 []) ics).
Proof.
  pose proof (note_comments (spec_Context (pj_Spec pj)) ics (ti_nonzero _ Htidy)) as (Ee & Ed & El).
  set (a := foldl _ _ ics) in *. set (ids := ic_ID <$> _) in *.
  assert (∀ id, id ∈ ids → ∃ ic, ic ∈ ics ∧ is_report ic = true ∧ ic_ID ic = id) as Hids.
  { intros id (ic & -> & [? ?]%list_elem_of_filter)%list_elem_of_fmap. by exists ic. }
  split; [done| | | |].
  - intros ic Hic (x & Hx & Hid & Hu & Hpre)%Ed. rewrite <- (same_id x ic) by done.
    split; [done|by apply old_not_report].
  - intros ic Hic Hpr. destruct (Hids (ic_ID ic)) as (x & Hx & Hr & Hid).
    { destruct El as [(_ & E & _)|[_ ->]]; [rewrite E in Hpr; set_solver|set_solver]. }
    by rewrite <- (same_id x ic).
  - intros ic Hic Hr. assert (ic_ID ic ∈ ids) as Hin
      by (apply list_elem_of_fmap_2, list_elem_of_filter; done).
    destruct El as [(_ & _ & E)|[Hl E]]; rewrite E in Hin; set_solver.
  - intros Hl. destruct El as [[? _]|[_ E]]; [done|]. split; [|apply Hids; rewrite E, elem_of_app; right; left].
    assert (NoDup (pa_previous a ++ [pa_latest a])) as (_ & Hnd & _)%NoDup_app; [|set_solver].
    rewrite <- E. eapply sublist_NoDup; [exact (ti_ids _ Htidy)|].
    apply fmap_sublist, sublist_filter.
Qed.

Lemma parse_shape refs :
  spec_Refs (pj_Spec pj) = Some refs → refs_Pulls refs = [pull] →
  ∃ a, noted a ∧
    (parseIssueComments pj bot ics =
       Some ((pa_delete a ++ pa_previous a) ++ [pa_latest a], new_rows, 0%Z) ∧ pa_latest a ≠ 0%Z ∨
     parseIssueComments pj bot ics = Some (pa_delete a ++ pa_previous a, new_rows, pa_latest a) ∧
       (pa_latest a ≠ 0%Z → new_rows ≠ [])).
Proof.
  intros Hrefs Hpull. exists (foldl (note_comment (spec_Context (pj_Spec pj)) bot) (mkParsed [] [] 0 []) ics).
  pose proof note_comments_noted as Hn. split; [exact Hn|]. unfold parseIssueComments, new_rows.
  rewrite Hrefs. cbn [mbind option_bind]. rewrite Hpull. cbn [head mbind option_bind].
  set (a := foldl _ _ ics) in *. rewrite (no_rows _ Hn). change StatusFailure with FailureState.
  destruct (decide (pj_State pj = FailureState)) as [Ef|Ef];
    [rewrite bool_decide_eq_true_2 by done|rewrite bool_decide_eq_false_2 by done]; cbn [orb mbind option_bind].
  - case_bool_decide as Hl; [by left|]. right. split; [done|]. intros _ [_ ?]%app_nil. done.
  - rewrite app_nil_r. case_bool_decide as He; cbn [andb].
    + case_bool_decide as Hl; [by left|by right].
    + right. by split.
Qed.

Lemma parse_spec refs D entries upd :
  spec_Refs (pj_Spec pj) = Some refs → refs_Pulls refs = [pull] →
  parseIssueComments pj bot ics = Some (D, entries, upd) → parse_ok D entries upd.
Proof.
  intros Hrefs Hpull Hp. destruct new_rows_ok as [Hgood Hrows].
  destruct (parse_shape refs Hrefs Hpull) as (a & Ha & [[E Hl]|[E Hne]]); rewrite E in Hp;
    injection Hp as <- <- <-; (split; [done|done| | |]).
  - intros ic Hic. rewrite !elem_of_app, list_elem_of_singleton. intros [[Hin|Hin]|Hin].
    + by apply (no_delete _ Ha).
    + by apply report_by_bot, (no_previous _ Ha).
    + destruct (no_latest _ Ha Hl) as (_ & r & Hr1 & Hr2 & Hr3).
      rewrite <- (same_id r ic) by congruence. by apply report_by_bot.
  - intros _ ic Hic Hr. destruct (no_reports _ Ha _ Hic Hr) as [?|[? _]]; set_solver.
  - done.
  - intros ic Hic [Hin|Hin]%elem_of_app;
      [by apply (no_delete _ Ha)|by apply report_by_bot, (no_previous _ Ha)].
  - intros Hl ic Hic Hr. destruct (no_reports _ Ha _ Hic Hr) as [?|[_ ?]]; [set_solver|done].
  - intros Hl. split; [by apply Hne|]. destruct (no_latest _ Ha Hl) as (Hnp & r & Hr1 & Hr2 & Hr3).
    exists r. split_and!; [done..| |].
    + intros [Hin|Hin]%elem_of_app; [|done]. rewrite <- Hr3 in Hin.
      apply (no_delete _ Ha) in Hin as [_ ?]; [congruence|done].
    + intros ic Hic Hrep Hnot. apply (same_id ic r Hic Hr1).
      destruct (no_reports _ Ha _ Hic Hrep) as [?|[? _]]; [set_solver|congruence].
Qed.

Variable new_comment : string → IssueComment.
(** GitHub gives a new comment an identifier of its own and its author's name. *)
Hypothesis Hnew : ∀ body, ic_Body (new_comment body) = body ∧ ic_User (new_comment body) = bot ∧
  ic_ID (new_comment body) ≠ 0%Z ∧ ic_ID (new_comment body) ∉ ic_ID <$> ics.

Lemma createComment_mention entries body :
  createComment reportTemplate pj pull entries = Ok body → has_prefix "@" body = true.
Proof.
  unfold createComment. intros (footer & _ & [= <-])%rbind_Ok_inv. apply has_prefix_spec.
  unfold comment_lines. cbn [app]. rewrite text_cons, string_app_assoc. by eexists.
Qed.

(** The comments after the writes. *)
Definition written (D : list Z) (entries : list string) (upd : Z) (body : string) : list IssueComment :=
  let kept := filter (λ ic, ic_ID ic ∉ D) ics in
  match entries with
  | [] => kept
  | _ => if decide (upd = 0%Z) then kept ++ [new_comment body]
         else apply_call new_comment kept (EditComment "" "" upd body)
  end.

Lemma filter_fmap_same (f : IssueComment → IssueComment) (P : IssueComment → bool) (l : list IssueComment) :
  (∀ x, x ∈ l → P (f x) = P x) →
  filter (λ x, P x = true) (f <$> l) = f <$> filter (λ x, P x = true) l.
Proof.
  induction l as [|x l IH]; [done|]. setoid_rewrite elem_of_cons. intros Hf. rewrite fmap_cons.
  destruct (P x) eqn:E.
  - rewrite !filter_cons_True by (rewrite ?Hf by auto; done). rewrite fmap_cons. f_equal. auto.
  - rewrite !filter_cons_False by (rewrite ?Hf by auto; congruence). auto.
Qed.

Lemma singleton_eq {A} (l : list A) r : NoDup l → r ∈ l → (∀ x, x ∈ l → x = r) → l = [r].
Proof.
  intros Hnd Hr Hall. destruct l as [|x [|y l]]; [by apply not_elem_of_nil in Hr| |].
  - f_equal. apply Hall. left.
  - apply NoDup_cons in Hnd as [Hx _]. exfalso. apply Hx.
    rewrite (Hall x), (Hall y) by set_solver. left.
Qed.

Definition edit (upd : Z) (body : string) (ic : IssueComment) : IssueComment :=
  if decide (ic_ID ic = upd)
  then mkIssueComment upd body (ic_User ic) (ic_HTMLURL ic) (ic_CreatedAt ic) (ic_UpdatedAt ic)
  else ic.

Lemma edit_id upd body ic : ic_ID (edit upd body ic) = ic_ID ic.
Proof. unfold edit. by case_decide. Qed.
Lemma edit_user upd body ic : ic_User (edit upd body ic) = ic_User ic.
Proof. unfold edit. by case_decide. Qed.

Lemma written_reports D entries upd body :
  parse_ok D entries upd → contains body commentTag = true →
  ∃ l, filter (λ ic, is_report ic = true) (written D entries upd body) = l ∧ length l ≤ 1 ∧
    ((entries = [] ∧ l = []) ∨ entries ≠ [] ∧ ∃ ic, l = [ic] ∧ ic_Body ic = body).
Proof.
  intros Hp Htag. eexists. split; [reflexivity|]. unfold written.
  assert (upd = 0%Z → filter (λ ic, is_report ic = true) (filter (λ ic, ic_ID ic ∉ D) ics) = []) as Hnone.
  { intros E. apply filter_none. intros ic [Hn Hic]%list_elem_of_filter Hr.
    by apply Hn, (po_new _ _ _ Hp E). }
  destruct (decide (upd = 0%Z)) as [E|E].
  - destruct entries as [|e entries].
    + rewrite (Hnone E). split; [cbn; lia|by left].
    + rewrite filter_app, (Hnone E). destruct (Hnew body) as (Hb & Hu & _).
      rewrite filter_cons_True, filter_nil; [split; [cbn; lia|right; split; [done|by eexists]]|].
      unfold is_report. by rewrite Hu, Hb, bool_decide_eq_true_2, Htag.
  - destruct (po_edit _ _ _ Hp E) as (He & r & Hr1 & Hr2 & Hr3 & Hr4 & Hr5).
    destruct entries as [|e entries]; [done|]. cbn [apply_call]. fold (edit upd body).
    change (λ ic, if decide (ic_ID ic = upd) then _ else _) with (edit upd body).
    assert (is_report (edit upd body r) = true) as Hre.
    { unfold is_report, edit. rewrite decide_True by done. cbn. rewrite Htag, andb_true_r.
      apply andb_true_iff in Hr2 as [? _]. done. }
    rewrite (filter_fmap_same (edit upd body) is_report).
    2:{ intros x [Hx Hx']%list_elem_of_filter. unfold edit at 1. case_decide as Hid; [|done].
        rewrite (same_id x r) by (congruence || done).
        unfold edit in Hre. rewrite decide_True in Hre by done. congruence. }
    rewrite (singleton_eq (filter _ _) r).
    + split; [cbn; lia|]. right. split; [done|]. exists (edit upd body r). split; [done|].
      unfold edit. by rewrite decide_True.
    + apply NoDup_filter, NoDup_filter, (NoDup_fmap_1 ic_ID), Htidy.
    + rewrite !list_elem_of_filter. by rewrite Hr3.
    + intros x [Hx [Hx' Hx'']%list_elem_of_filter]%list_elem_of_filter. by apply Hr5.
Qed.

Lemma written_others D entries upd body :
  parse_ok D entries upd →
  filter (λ ic, ic_User ic ≠ bot) (written D entries upd body)
  = filter (λ ic, ic_User ic ≠ bot) ics.
Proof.
  intros Hp. unfold written.
  assert (filter (λ ic, ic_User ic ≠ bot) (filter (λ ic, ic_ID ic ∉ D) ics)
          = filter (λ ic, ic_User ic ≠ bot) ics) as Hk.
  { rewrite (filter_twice _ _ (λ ic, ic_User ic ≠ bot ∧ ic_ID ic ∉ D)) by done.
    apply filter_ext_in. intros ic Hic. split; [by intros [? _]|]. intros Hu. split; [done|].
    intros Hd. by apply Hu, (po_bot _ _ _ Hp). }
  destruct entries as [|e entries]; [done|]. case_decide as E.
  - rewrite filter_app, Hk, filter_cons_False, filter_nil, app_nil_r; [done|].
    destruct (Hnew body) as (_ & -> & _). tauto.
  - cbn [apply_call]. change (λ ic, if decide (ic_ID ic = upd) then _ else _) with (edit upd body).
    rewrite <- Hk. set (kept := filter (λ ic, ic_ID ic ∉ D) ics).
    destruct (po_edit _ _ _ Hp E) as (_ & r & Hr1 & Hr2 & Hr3 & _).
    assert (∀ ic, ic ∈ kept → ic_User ic ≠ bot → edit upd body ic = ic) as Hsame.
    { intros ic [_ Hic]%list_elem_of_filter Hu. unfold edit. case_decide as Hid; [|done].
      exfalso. apply Hu. rewrite (same_id ic r) by (congruence || done).
      apply andb_true_iff in Hr2 as [Hr2 _]. by apply bool_decide_eq_true in Hr2. }
    clearbody kept. clear Hk. induction kept as [|ic kept IH]; [done|]. rewrite fmap_cons.
    destruct (decide (ic_User ic = bot)) as [Hu|Hu].
    + rewrite !filter_cons_False by (rewrite ?edit_user; tauto).
      apply IH. intros x ?. apply Hsame. by right.
    + rewrite !filter_cons_True by (rewrite ?edit_user; done). rewrite Hsame by (left || done).
      f_equal. apply IH. intros x ?. apply Hsame. by right.
Qed.

Lemma written_tidy D entries upd body :
  parse_ok D entries upd → has_prefix "@" body = true → tidy (written D entries upd body).
Proof.
  intros Hp Hat. destruct Htidy as [Hnd Hnz Hm]. unfold written.
  assert (tidy (filter (λ ic, ic_ID ic ∉ D) ics)) as Hk.
  { split.
    - eapply sublist_NoDup; [exact Hnd|apply fmap_sublist, sublist_filter].
    - intros ic [_ ?]%list_elem_of_filter. by apply Hnz.
    - intros ic [_ ?]%list_elem_of_filter. by apply Hm. }
  destruct entries as [|e entries]; [done|]. destruct Hk as [Kd Kz Km].
  case_decide as E; [destruct (Hnew body) as (Hb & Hu & Hz & Hf)|].
  - split.
    + rewrite fmap_app. apply NoDup_app. split_and!; [done| |apply NoDup_singleton].
      intros id Hid ->%list_elem_of_singleton. apply Hf.
      apply list_elem_of_fmap in Hid as (x & -> & [_ Hx]%list_elem_of_filter).
      by apply list_elem_of_fmap_2.
    + intros ic [?| ->%list_elem_of_singleton]%elem_of_app; [by apply Kz|done].
    + intros ic [?| ->%list_elem_of_singleton]%elem_of_app; [by apply Km|by rewrite Hb].
  - cbn [apply_call]. change (λ ic, if decide (ic_ID ic = upd) then _ else _) with (edit upd body).
    split.
    + rewrite <- list_fmap_compose. by rewrite (list_fmap_ext _ ic_ID) by (intros; apply edit_id).
    + intros ic (x & -> & Hx)%list_elem_of_fmap. rewrite edit_id. by apply Kz.
    + intros ic (x & -> & Hx)%list_elem_of_fmap. unfold edit. case_decide; [done|]. by apply Km.
Qed.

(** The comments after a report. *)
Lemma written_ok D entries upd body :
  parse_ok D entries upd →
  entries = [] ∨ createComment reportTemplate pj pull entries = Ok body →
  quiet_template reportTemplate →
  let final := written D entries upd body in
  tidy final ∧ length (filter (λ ic, is_report ic = true) final) ≤ 1 ∧
  (∀ c, table final c = reported pj pull (table ics) c) ∧
  filter (λ ic, ic_User ic ≠ bot) final = filter (λ ic, ic_User ic ≠ bot) ics.
Proof.
  intros Hp Hbody Hq. cbn zeta.
  assert (∃ body', written D entries upd body = written D entries upd body' ∧
    has_prefix "@" body' = true ∧ contains body' commentTag = true ∧
    (entries ≠ [] → body_rows body' = entries)) as (body' & -> & Hat & Htag & Hrows).
  { destruct Hbody as [->|Hb].
    - exists ("@" +:+ commentTag). split_and!; [done..|]. by intros ?.
    - exists body. split_and!; [done|by eapply createComment_mention|by eapply createComment_tag|].
      intros _. eapply createComment_rows; [exact Hb|done|apply Hjob|apply Hp]. }
  split; [by apply written_tidy|].
  destruct (written_reports D entries upd body' Hp Htag) as (l & E & Hl & Hcase). rewrite E.
  split; [done|]. split; [|by apply written_others].
  intros c. unfold table at 1, report_rows. rewrite E. rewrite <- (po_rows _ _ _ Hp).
  destruct Hcase as [[-> ->]|(Hne & ic & -> & Hic)]; [done|].
  cbn [flat_map]. rewrite app_nil_r, Hic. by rewrite Hrows.
Qed.
End one_report.

Lemma delete_comments_inv gh org repo ids tr tr' :
  delete_comments gh org repo ids tr = (tr', Some (Ok tt)) →
  tr' = tr ++ (DeleteComment org repo <$> ids).
Proof.
  revert tr. induction ids as [|id ids IH]; intros tr; cbn [delete_comments].
  { intros [= <-]. by rewrite app_nil_r. }
  intros (t & [] & [-> _]%with_err_inv%ask_inv & Hr)%hbind_inv.
  apply IH in Hr as ->. rewrite fmap_cons. by rewrite <- app_assoc.
Qed.

Lemma length_substring n m s : String.length (String.substring n m s) ≤ m.
Proof.
  revert n m. induction s as [|a s IH]; intros [|n] [|m]; cbn; try lia.
  - specialize (IH 0 m). lia.
  - apply IH.
  - apply IH.
Qed.

Lemma truncate_length s : String.length (truncate s) ≤ maxLen.
Proof.
  unfold truncate. case_bool_decide; [done|]. rewrite !length_str_app.
  pose proof (length_substring 0 half s). pose proof (length_substring (String.length s - half) half s).
  assert (half = 67) as E by reflexivity. assert (String.length elision = 5) by reflexivity.
  assert (maxLen = 140) as -> by reflexivity. rewrite E in *. lia.
Qed.

Section refinement.
Context (reportTemplate : option (ProwJob → result string)) (gh : GitHub).
Variables (pj : ProwJob) (refs : Refs) (pull : Pull) (validTypes : list ProwJobType).
Variables (ics : list IssueComment) (new_comment : string → IssueComment).

Lemma write_comment_inv entries upd calls D tr :
  write_comment reportTemplate gh pj refs pull entries upd tr = (calls, Some (Ok tt)) →
  ∃ w body, calls = tr ++ w ∧
    foldl (apply_call new_comment) (filter (λ ic, ic_ID ic ∉ D) ics) w
      = written ics new_comment D entries upd body ∧
    (entries = [] ∨ createComment reportTemplate pj pull entries = Ok body).
Proof.
  unfold write_comment, written. destruct entries as [|e entries].
  { intros [= <-]. exists [], "". rewrite app_nil_r. by split_and!; [..|left]. }
  intros (t & body & [-> Hb]%with_err_inv%lift_inv & Hw)%hbind_inv.
  case_bool_decide as E; apply with_err_inv, ask_inv in Hw as [-> _];
    eexists [_], body; (split_and!; [done| |by right]); cbn [foldl];
    [by rewrite decide_True|by rewrite decide_False].
Qed.

(** The calls of a report that succeeds. *)
Lemma Report_calls calls :
  (∀ tr, on_comments gh (tr ++ [ListIssueComments (refs_Org refs) (refs_Repo refs) (pull_Number pull)])
         = Ok ics) →
  (∀ tr, on_name gh (tr ++ [BotName]) = Ok bot) →
  ShouldReport pj validTypes = true → Complete pj = true →
  spec_Refs (pj_Spec pj) = Some refs → refs_Pulls refs = [pull] →
  Report reportTemplate (Some gh) pj validTypes [] = (calls, Some (Ok tt)) →
  ∃ s D entries upd body,
    head calls = Some (CreateStatus (refs_Org refs) (refs_Repo refs) (pull_SHA pull) s) ∧
    prowjobStateToGitHubStatus (pj_State pj) = Ok (s_State s) ∧
    s_Context s = spec_Context (pj_Spec pj) ∧ s_Description s = truncate (st_Description (pj_Status pj)) ∧
    parseIssueComments pj bot ics = Some (D, entries, upd) ∧
    foldl (apply_call new_comment) ics calls = written ics new_comment D entries upd body ∧
    (entries = [] ∨ createComment reportTemplate pj pull entries = Ok body).
Proof.
  intros Hics Hbot Hsr Hcomp Hrefs Hpull. unfold Report. rewrite Hsr. cbn [negb].
  intros (t0 & refs' & [-> Hr']%deref_inv & Hrest)%hbind_inv.
  assert (refs' = refs) as -> by congruence. rewrite Hpull, Hcomp in Hrest.
  cbn [length bool_decide negb] in Hrest.
  apply hbind_inv in Hrest as (t1 & [] & Hst%with_err_inv & Hc).
  unfold reportStatus in Hst. rewrite Hrefs in Hst.
  assert (spec_Report (pj_Spec pj) = true) as Hrep by (apply andb_true_iff in Hsr; apply Hsr).
  rewrite Hrep in Hst. apply hbind_inv in Hst as (t2 & st & [-> Hstate]%lift_inv & Hst).
  apply hbind_inv in Hst as (t3 & r3 & [-> [= <-]]%deref_inv & [-> _]%ask_inv).
  rewrite Hpull in Hc. unfold report_comment in Hc.
  apply hbind_inv in Hc as (t4 & ics' & [-> E4]%with_err_inv%ask_inv & Hc).
  rewrite Hics in E4. injection E4 as <-.
  apply hbind_inv in Hc as (t5 & b' & [-> E5]%with_err_inv%ask_inv & Hc).
  rewrite Hbot in E5. injection E5 as <-.
  apply hbind_inv in Hc as (t6 & [[D entries] upd] & [-> Hparse]%deref_inv & Hc).
  apply hbind_inv in Hc as (t7 & [] & ->%delete_comments_inv & Hc).
  apply (write_comment_inv _ _ _ D) in Hc as (w & body & -> & Hw & Hbody).
  eexists _, D, entries, upd, body. split_and!; [done|exact Hstate|done|done|done| |done].
  rewrite !foldl_app, apply_deletes. cbn [foldl apply_call]. exact Hw.
Qed.

(** C12. Reporting a finished job of one pull request refines an update of a table:
    when the calls succeed, the status posted at the head has the state and the
    context of the job and a description that fits, and afterwards at most one
    report comment is left, whose rows are the former rows of all report comments
    (the newest of each context) with the job's own replaced if it failed and
    removed if it did not; comments of others are untouched, and the comments are
    again such that the next report can be. *)
Theorem Report_refines_table calls :
  (∀ tr, on_comments gh (tr ++ [ListIssueComments (refs_Org refs) (refs_Repo refs) (pull_Number pull)])
         = Ok ics) →
  (∀ tr, on_name gh (tr ++ [BotName]) = Ok bot) →
  tidy ics → good_job pj pull → quiet_template reportTemplate →
  (∀ body, ic_Body (new_comment body) = body ∧ ic_User (new_comment body) = bot ∧
     ic_ID (new_comment body) ≠ 0%Z ∧ ic_ID (new_comment body) ∉ ic_ID <$> ics) →
  ShouldReport pj validTypes = true → Complete pj = true →
  spec_Refs (pj_Spec pj) = Some refs → refs_Pulls refs = [pull] →
  Report reportTemplate (Some gh) pj validTypes [] = (calls, Some (Ok tt)) →
  let final := foldl (apply_call new_comment) ics calls in
  tidy final ∧ length (filter (λ ic, is_report ic = true) final) ≤ 1 ∧
  (∀ c, table final c = reported pj pull (table ics) c) ∧
  filter (λ ic, ic_User ic ≠ bot) final = filter (λ ic, ic_User ic ≠ bot) ics ∧
  ∃ s, head calls = Some (CreateStatus (refs_Org refs) (refs_Repo refs) (pull_SHA pull) s) ∧
    prowjobStateToGitHubStatus (pj_State pj) = Ok (s_State s) ∧
    s_Context s = spec_Context (pj_Spec pj) ∧ String.length (s_Description s) ≤ 140.
Proof.
  intros Hics Hbot Htidy Hjob Hq Hnew Hsr Hcomp Hrefs Hpull Hrep.
  destruct (Report_calls calls) as (s & D & entries & upd & body & Hh & Hs1 & Hs2 & Hs3 & Hp & Hw & Hb);
    [done..|]. cbn zeta. rewrite Hw.
  apply (parse_spec pj pull ics Htidy Hjob refs) in Hp; [|done..].
  destruct (written_ok reportTemplate pj pull ics Htidy Hjob new_comment Hnew D entries upd body Hp Hb Hq)
    as (? & ? & ? & ?). split_and!; [done..|].
  exists s. split_and!; [done..|]. rewrite Hs3. apply truncate_length.
Qed.
End refinement.
End table.

(** ** Witness and example: a comment with two failed tests, one of which now passes *)

Definition w_report_job (name : string) (state : ProwJobState) : ProwJob :=
  mkProwJob name "ns" ∅ ∅ 1%Z (w_spec "presubmit" name [w_pull 1 "sha"])
    (mkProwJobStatus 1%Z None (Some 2%Z) state "Job done." "url" "" "" "" None).
Definition w_table (entries : list string) : string :=
  text (comment_lines "author" entries []).
Definition w_rows : list string :=
  ["lint | sha | [link](url) | ``"; "unit | sha | [link](url) | ``"].
Definition w_ics : list IssueComment :=
  [mkIssueComment 3 "LGTM" "reviewer" "" 0%Z 0%Z; mkIssueComment 5 (w_table w_rows) "bot" "" 0%Z 0%Z].
Definition w_new (body : string) : IssueComment := mkIssueComment 9 body "bot" "" 0%Z 0%Z.

Example report_success :
  foldl (apply_call w_new) w_ics
    (Report None (Some (w_github [] [] w_ics)) (w_report_job "unit" SuccessState) ["presubmit"] []).1
  = [mkIssueComment 3 "LGTM" "reviewer" "" 0%Z 0%Z;
     mkIssueComment 5 (w_table ["lint | sha | [link](url) | ``"]) "bot" "" 0%Z 0%Z].
Proof. vm_compute. reflexivity. Qed.

Lemma w_good_job : good_job (w_report_job "unit" SuccessState) (w_pull 1 "sha").
Proof.
  split; [by split|..]; try reflexivity. split; try reflexivity; [|done].
  apply trimmedb_ok. vm_compute. reflexivity.
Qed.
Lemma w_ics_tidy : tidy "bot" w_ics.
Proof.
  split.
  - apply (bool_decide_unpack _). vm_compute. exact I.
  - apply Forall_forall. repeat constructor; cbn; lia.
  - intros ic Hin Hr. repeat (apply elem_of_cons in Hin as [->|Hin]; [vm_compute in Hr |- *; congruence|]).
    by apply not_elem_of_nil in Hin.
Qed.

Lemma Report_refines_table_witness :
  (Report None (Some (w_github [] [] w_ics)) (w_report_job "unit" SuccessState) ["presubmit"] []).2
    = Some (Ok tt) ∧
  table "bot" (foldl (apply_call w_new) w_ics
    (Report None (Some (w_github [] [] w_ics)) (w_report_job "unit" SuccessState) ["presubmit"] []).1)
    "unit" = None.
Proof.
  assert ((Report None (Some (w_github [] [] w_ics)) (w_report_job "unit" SuccessState) ["presubmit"] []).2
    = Some (Ok tt)) as Hout by (vm_compute; reflexivity).
  split; [exact Hout|].
  pose proof (Report_refines_table "bot" None (w_github [] [] w_ics) (w_report_job "unit" SuccessState)
    (w_refs [w_pull 1 "sha"]) (w_pull 1 "sha") ["presubmit"] w_ics w_new) as Ht.
  destruct (Report _ _ _ _ []) as [calls out]. cbn [fst snd] in *. subst out.
  destruct (Ht calls) as (_ & _ & Hrow & _).
  - intros tr. reflexivity.
  - intros tr. unfold w_github. cbn [on_name]. rewrite last_snoc. reflexivity.
  - apply w_ics_tidy.
  - apply w_good_job.
  - exact I.
  - intros body. split_and!; [reflexivity|reflexivity|done|].
    apply (bool_decide_unpack _). vm_compute. exact I.
  - reflexivity.
  - reflexivity.
  - reflexivity.
  - reflexivity.
  - reflexivity.
  - exact (Hrow "unit").
Defined.
