(* ===== verification/Reconciler.v ===== *)
(** * The status reconciler (statusreconciler/controller.go)

    When the configuration changes, open pull requests get the statuses that Tide
    now waits for: new blocking jobs are started, contexts of removed jobs retired
    and renamed contexts moved.  The migration of one context is third-party code
    and a single call here. *)

From S2P Require Import Prelude Api JobConfig PjUtil GoText Handler GitHub Samples Trigger.
#[local] Open Scope go_scope.

#[local] Notation presubmits := (gmap string (list Presubmit)).

(** ** What changed (per repository of the old configuration) *)

Definition ps_RunIfChanged (p : Presubmit) : string := cm_RunIfChanged (ps_ChangeMatcher p).

(** Why an old job of the same name makes the new one a new requirement; both
    reasons count, so that a job can be listed twice. *)
Definition changed_reasons (old new : Presubmit) : list Presubmit :=
  (if ps_SkipReport old && negb (ps_SkipReport new) then [new] else []) ++
  (if bool_decide (ps_RunIfChanged old ≠ ps_RunIfChanged new) then [new] else []).

Definition added_job (olds : list Presubmit) (new : Presubmit) : list Presubmit :=
  if negb (ContextRequired new) || NeedsExplicitTrigger new then []
  else match head (filter (λ old, ps_Name old = ps_Name new) olds) with
       | Some old => changed_reasons old new
       | None => [new]
       end.

Definition addedBlockingPresubmits (old new : presubmits) : presubmits :=
  map_imap (λ repo olds, Some (flat_map (added_job olds) (default [] (new !! repo)))) old.

Definition is_removed (news : list Presubmit) (old : Presubmit) : bool :=
  ContextRequired old && negb (existsb (λ new, bool_decide (ps_Name old = ps_Name new)) news).

Definition removedBlockingPresubmits (old new : presubmits) : presubmits :=
  map_imap (λ repo olds,
    Some (filter (λ p, is_removed (default [] (new !! repo)) p = true) olds)) old.

Record presubmitMigration := mkMigration { mg_from : Presubmit; mg_to : Presubmit }.

Definition migrations_of (olds : list Presubmit) (new : Presubmit) : list presubmitMigration :=
  if negb (ContextRequired new) then []
  else (λ old, mkMigration old new) <$>
         filter (λ old, ps_Context old ≠ ps_Context new ∧ ps_Name old = ps_Name new) olds.

Definition migratedBlockingPresubmits (old new : presubmits) : gmap string (list presubmitMigration) :=
  map_imap (λ repo olds, Some (flat_map (migrations_of olds) (default [] (new !! repo)))) old.

(** ** Reconciling *)

Section reconciler.
Context `{GoRange}.
Context (gh : GitHub) (fresh : Fresh) (triggers : list Trigger).
(** [Controller]: its options. *)
Context (continueOnError : bool) (addedPresubmitBlacklist : gset string).

Definition runAndSkip (pr : GitHubPullRequest) (requestedJobs skippedJobs : list Presubmit)
    : H Call unit :=
  let org := gpr_BaseRepoOwner pr in
  let repo := gpr_BaseRepoName pr in
  let! baseSHA := with_err "failed to get baseSHA: %v"
    (ask (on_name gh) (GetRef org repo ("heads/" +:+ gpr_BaseRef pr))) in
  let! elideSkipped := deref (tg_ElideSkippedContexts (TriggerFor triggers org repo)) in
  RunAndSkipJobs gh fresh pr baseSHA requestedJobs skippedJobs "none" elideSkipped.

Definition trustedPullRequest (author org repo : string) (num : Z) : H Call bool :=
  let! (_, trusted) := TrustedPullRequest gh (TriggerFor triggers org repo) author org repo num [] in
  hret trusted.

Definition triggerAndSkipIfTrusted (org repo : string) (pr : GitHubPullRequest)
    (toTrigger toSkip : list Presubmit) : H Call unit :=
  let! trusted := with_args "failed to determine if %s/%s#%d is trusted: %v"
    [AStr org; AStr repo; AInt (gpr_Number pr)]
    (trustedPullRequest (gpr_UserLogin pr) org repo (gpr_Number pr)) in
  if trusted : bool then runAndSkip pr toTrigger toSkip else hret tt.

Definition added_filter : Filter := λ _, (true, false, true).

(** The pull requests of a repository, then the rest; a pull request that cannot be
    merged is left to its author. *)
Fixpoint trigger_prs (orgrepo : string) (jobs : list Presubmit) (prs : list GitHubPullRequest)
    (errs : list error) (rest : list error → H Call unit) : H Call unit :=
  match prs with
  | [] => rest errs
  | pr :: prs =>
      if bool_decide (gpr_Mergable pr = Some false) then trigger_prs orgrepo jobs prs errs rest
      else
        let org := gpr_BaseRepoOwner pr in
        let repo := gpr_BaseRepoName pr in
        let! r := look (λ tr, PjUtil.FilterPresubmits added_filter
                     (changed_files gh tr org repo (gpr_Number pr)) (gpr_BaseRef pr) jobs) in
        let! (toTrigger, toSkip) := lift r in
        let! done := attempt (triggerAndSkipIfTrusted org repo pr toTrigger toSkip) in
        match done with
        | Ok _ => trigger_prs orgrepo jobs prs errs rest
        | Err e =>
            let errs := errs ++ [Errorf "failed to trigger jobs for %s#%d: %v"
                                   [AStr orgrepo; AInt (gpr_Number pr); AErr e]] in
            if continueOnError then trigger_prs orgrepo jobs prs errs rest
            else lift (NewAggregate errs)
        end
  end.

(** A key without a slash is an index out of range. *)
Fixpoint trigger_repos (added : list (string * list Presubmit)) (errs : list error) : H Call unit :=
  match added with
  | [] => lift (NewAggregate errs)
  | (_, []) :: added => trigger_repos added errs
  | (orgrepo, jobs) :: added =>
      let! (org, repo) := deref (cut "/" orgrepo) in
      if bool_decide (org ∈ addedPresubmitBlacklist ∨ orgrepo ∈ addedPresubmitBlacklist)
      then trigger_repos added errs
      else
        let! prs := attempt (ask (on_prs gh) (GetPullRequests org repo)) in
        match prs with
        | Ok prs => trigger_prs orgrepo jobs prs errs (trigger_repos added)
        | Err e =>
            let errs := errs ++ [Errorf "failed to list pull requests for %s: %v"
                                   [AStr orgrepo; AErr e]] in
            if continueOnError then trigger_repos added errs else lift (NewAggregate errs)
        end
  end.
Definition triggerNewPresubmits (added : presubmits) : H Call unit :=
  trigger_repos (map_range added) [].

(** Calls made one after the other; an error ends them or is kept. *)
Fixpoint each_call (calls : list Call) (errs : list error) (rest : list error → H Call unit)
    : H Call unit :=
  match calls with
  | [] => rest errs
  | c :: calls =>
      let! done := attempt (ask (on_done gh) c) in
      match done with
      | Ok _ => each_call calls errs rest
      | Err e => if continueOnError then each_call calls (errs ++ [e]) rest else herr e
      end
  end.

Fixpoint each_repo {A} (call : string → string → A → Call) (l : list (string * list A))
    (errs : list error) : H Call unit :=
  match l with
  | [] => lift (NewAggregate errs)
  | (orgrepo, items) :: l =>
      let! (org, repo) := deref (cut "/" orgrepo) in
      each_call (call org repo <$> items) errs (each_repo call l)
  end.

Definition retire_call (org repo : string) (p : Presubmit) : Call :=
  RetireContext org repo (ps_Context p) (Brancher_ShouldRun (ps_Brancher p)).
Definition retireRemovedContexts (retired : presubmits) : H Call unit :=
  each_repo retire_call (map_range retired) [].

Definition migrate_call (org repo : string) (m : presubmitMigration) : Call :=
  MoveContext org repo (ps_Context (mg_from m)) (ps_Context (mg_to m))
    (Brancher_ShouldRun (ps_Brancher (mg_from m))).
Definition updateMigratedContexts (migrations : gmap string (list presubmitMigration)) : H Call unit :=
  each_repo migrate_call (map_range migrations) [].

(** The parts of [reconcile], each tried; without [continueOnError] the first error
    is the last. *)
Fixpoint in_turn (parts : list (H Call unit)) (errors : list error) : H Call unit :=
  match parts with
  | [] => lift (NewAggregate errors)
  | part :: parts =>
      let! r := attempt part in
      match r with
      | Ok _ => in_turn parts errors
      | Err e => if continueOnError then in_turn parts (errors ++ [e])
                 else lift (NewAggregate (errors ++ [e]))
      end
  end.

Definition reconcile (before after : presubmits) : H Call unit :=
  in_turn [triggerNewPresubmits (addedBlockingPresubmits before after);
           retireRemovedContexts (removedBlockingPresubmits before after);
           updateMigratedContexts (migratedBlockingPresubmits before after)] [].
End reconciler.

(** ** What is done, and only that *)

Section reconcile_proofs.
Context `{GoRange}.
Context (gh : GitHub) (fresh : Fresh) (triggers : list Trigger).
Context (continueOnError : bool) (addedPresubmitBlacklist : gset string).
Variables before after : presubmits.

(** A blocking job that is new under its name, reports now, or runs on other files. *)
Definition newly_required (key : string) (p : Presubmit) : Prop :=
  ∃ olds news, before !! key = Some olds ∧ after !! key = Some news ∧ p ∈ news ∧
    ContextRequired p = true ∧ NeedsExplicitTrigger p = false ∧
    ((∀ old, old ∈ olds → ps_Name old ≠ ps_Name p) ∨
     ∃ old, old ∈ olds ∧ ps_Name old = ps_Name p ∧
       (ps_SkipReport old = true ∧ ps_SkipReport p = false ∨
        ps_RunIfChanged old ≠ ps_RunIfChanged p)).

(** A blocking job whose name is gone. *)
Definition removed_job (key : string) (p : Presubmit) : Prop :=
  ∃ olds, before !! key = Some olds ∧ p ∈ olds ∧ ContextRequired p = true ∧
    ∀ news new, after !! key = Some news → new ∈ news → ps_Name new ≠ ps_Name p.

(** A job that has another context now, and is required. *)
Definition migrated_job (key : string) (m : presubmitMigration) : Prop :=
  ∃ olds news, before !! key = Some olds ∧ after !! key = Some news ∧
    mg_from m ∈ olds ∧ mg_to m ∈ news ∧ ContextRequired (mg_to m) = true ∧
    ps_Name (mg_from m) = ps_Name (mg_to m) ∧ ps_Context (mg_from m) ≠ ps_Context (mg_to m).

Lemma added_job_spec olds new p :
  p ∈ added_job olds new → p = new ∧ ContextRequired new = true ∧ NeedsExplicitTrigger new = false ∧
    ((∀ old, old ∈ olds → ps_Name old ≠ ps_Name new) ∨
     ∃ old, old ∈ olds ∧ ps_Name old = ps_Name new ∧
       (ps_SkipReport old = true ∧ ps_SkipReport new = false ∨
        ps_RunIfChanged old ≠ ps_RunIfChanged new)).
Proof.
  unfold added_job. destruct (ContextRequired new); [|by intros ?%not_elem_of_nil].
  destruct (NeedsExplicitTrigger new); [by intros ?%not_elem_of_nil|]. cbn [negb orb].
  destruct (head _) as [old|] eqn:Eh.
  - intros Hp. assert (old ∈ filter (λ old, ps_Name old = ps_Name new) olds) as Hin
      by (destruct (filter _ olds); cbn in Eh; [done|injection Eh as ->; left]).
    apply list_elem_of_filter in Hin as [Hn Hin].
    unfold changed_reasons in Hp. apply elem_of_app in Hp as [Hp|Hp].
    + destruct (ps_SkipReport old) eqn:E1, (ps_SkipReport new) eqn:E2; cbn in Hp;
        try (by apply not_elem_of_nil in Hp).
      apply list_elem_of_singleton in Hp as ->. split_and!; [done..|]. right. exists old. auto.
    + case_bool_decide as E; [|by apply not_elem_of_nil in Hp].
      apply list_elem_of_singleton in Hp as ->. split_and!; [done..|]. right. exists old. auto.
  - intros ->%list_elem_of_singleton. split_and!; [done..|]. left. intros old Hold E.
    assert (filter (λ old, ps_Name old = ps_Name new) olds = []) as Hnil
      by (by destruct (filter _ olds)).
    assert (old ∈ filter (λ old, ps_Name old = ps_Name new) olds) as Hin
      by (by apply list_elem_of_filter).
    rewrite Hnil in Hin. by apply not_elem_of_nil in Hin.
Qed.

Lemma added_spec key jobs p :
  addedBlockingPresubmits before after !! key = Some jobs → p ∈ jobs → newly_required key p.
Proof.
  unfold addedBlockingPresubmits. rewrite map_lookup_imap. intros (olds & Eo & [= <-])%bind_Some Hp.
  apply list_elem_of_In, in_flat_map in Hp as (new & Hn & Hp). apply list_elem_of_In in Hp, Hn.
  destruct (after !! key) as [news|] eqn:En; [|by apply not_elem_of_nil in Hn].
  apply added_job_spec in Hp as (-> & ? & ? & ?). by exists olds, news.
Qed.

Lemma removed_spec key jobs p :
  removedBlockingPresubmits before after !! key = Some jobs → p ∈ jobs ↔ removed_job key p.
Proof.
  unfold removedBlockingPresubmits. rewrite map_lookup_imap. intros (olds & Eo & [= <-])%bind_Some.
  rewrite list_elem_of_filter. unfold is_removed, removed_job.
  rewrite andb_true_iff, negb_true_iff, existsb_false.
  setoid_rewrite bool_decide_eq_false. split.
  - intros [[Hr Hn] Hp]. exists olds. split_and!; [done..|].
    intros news new En Hin. rewrite En in Hn. intros E. by apply (Hn new Hin).
  - intros (olds' & E & Hp & Hr & Hn). assert (olds' = olds) as -> by congruence. split; [|done].
    split; [done|]. intros new Hin. destruct (after !! key) as [news|] eqn:En; [|by apply not_elem_of_nil in Hin].
    intros E'. by apply (Hn news new eq_refl Hin).
Qed.

Lemma migrated_spec key ms m :
  migratedBlockingPresubmits before after !! key = Some ms → m ∈ ms ↔ migrated_job key m.
Proof.
  unfold migratedBlockingPresubmits. rewrite map_lookup_imap. intros (olds & Eo & [= <-])%bind_Some.
  rewrite list_elem_of_In, in_flat_map. unfold migrated_job, migrations_of. split.
  - intros (new & Hn & Hm). apply list_elem_of_In in Hn.
    destruct (after !! key) as [news|]; [|by apply not_elem_of_nil in Hn].
    destruct (ContextRequired new) eqn:Er; cbn [negb] in Hm; [|done].
    apply list_elem_of_In, list_elem_of_fmap in Hm as (old & -> & [[? ?] ?]%list_elem_of_filter).
    exists olds, news. by split_and!.
  - intros (olds' & news & E & En & Hf & Ht & Hr & Hname & Hctx).
    assert (olds' = olds) as -> by congruence. exists (mg_to m). rewrite En. cbn [default from_option id].
    split; [by apply list_elem_of_In|]. rewrite Hr. cbn [negb]. apply list_elem_of_In, list_elem_of_fmap.
    exists (mg_from m). split; [by destruct m|]. by apply list_elem_of_filter.
Qed.

Lemma filter_loop_subset f changes branch jobs toTest toSkip :
  filter_loop f changes branch jobs = Ok (toTest, toSkip) →
  ∀ p, p ∈ toTest ∨ p ∈ toSkip → p ∈ jobs.
Proof.
  revert toTest toSkip. induction jobs as [|job jobs IH]; intros toTest toSkip; cbn [filter_loop].
  { intros [= <- <-] p. set_solver. }
  destruct (f job) as [[matches forced] defaults]. destruct matches; cbn [negb].
  - intros (b & _ & ([t s] & Hl & Heq)%rbind_Ok_inv)%rbind_Ok_inv p Hp. specialize (IH t s Hl p).
    destruct b; injection Heq as <- <-; set_solver.
  - intros Hl p Hp. right. by apply (IH _ _ Hl).
Qed.

Lemma FilterPresubmits_subset f changes branch jobs toTest toSkip :
  PjUtil.FilterPresubmits f changes branch jobs = Ok (toTest, toSkip) →
  (∀ p, p ∈ toTest → p ∈ jobs) ∧ (∀ p, p ∈ toSkip → p ∈ jobs).
Proof.
  unfold PjUtil.FilterPresubmits. intros ([t s] & Hl & [= <- <-])%rbind_Ok_inv.
  pose proof (filter_loop_subset _ _ _ _ _ _ Hl) as Hs. split; [naive_solver|].
  intros p [_ Hp]%list_elem_of_filter. naive_solver.
Qed.

(** *** Safety *)

Definition pr_trusted (pr : GitHubPullRequest) : list Call → Prop :=
  let org := gpr_BaseRepoOwner pr in
  let repo := gpr_BaseRepoName pr in
  trusted_pr gh (TriggerFor triggers org repo) org repo (gpr_UserLogin pr) (gpr_Number pr).

Definition listed (org repo : string) (pr : GitHubPullRequest) : list Call → Prop :=
  answered (on_prs gh) (GetPullRequests org repo) (λ prs, pr ∈ prs).

(** The job is for this pull request: a new requirement of a repository that is not
    excluded, on a listed pull request that can be merged. *)
Definition job_for_pr (key : string) (p : Presubmit) (pr : GitHubPullRequest) (tr : list Call) : Prop :=
  ∃ org repo, newly_required key p ∧ cut "/" key = Some (org, repo) ∧
    org ∉ addedPresubmitBlacklist ∧ key ∉ addedPresubmitBlacklist ∧
    listed org repo pr tr ∧ gpr_Mergable pr ≠ Some false.

Definition reconcile_action (tr : list Call) (e : Call) : Prop :=
  match e with
  | CreateProwJob pj => ∃ key p pr sha, job_for_pr key p pr tr ∧ pr_trusted pr tr ∧
      answered (on_name gh)
        (GetRef (gpr_BaseRepoOwner pr) (gpr_BaseRepoName pr) ("heads/" +:+ gpr_BaseRef pr))
        (λ s, s = sha) tr ∧
      pj = new_presubmit fresh pr sha p "none" tr
  | CreateStatus o r ref s => ∃ key p pr, job_for_pr key p pr tr ∧ pr_trusted pr tr ∧
      o = gpr_BaseRepoOwner pr ∧ r = gpr_BaseRepoName pr ∧ ref = gpr_HeadSHA pr ∧
      s = skippedStatusFor (ps_Context p)
  | RetireContext o r c _ => ∃ key p, cut "/" key = Some (o, r) ∧ removed_job key p ∧ c = ps_Context p
  | MoveContext o r c c' _ => ∃ key m, cut "/" key = Some (o, r) ∧ migrated_job key m ∧
      c = ps_Context (mg_from m) ∧ c' = ps_Context (mg_to m)
  | AddLabel _ _ _ _ | RemoveLabel _ _ _ _ => False
  | _ => True
  end.

Notation allowed := (may_act reconcile_action).

Lemma stable_job key p pr : stable (job_for_pr key p pr).
Proof.
  intros tr new (org & repo & ? & ? & ? & ? & Hl & ?). exists org, repo. split_and!; [done..| |done].
  by apply stable_answered.
Qed.

Lemma triggerAndSkip_ok key pr toTrigger toSkip P :
  stable P →
  (∀ tr p, P tr → p ∈ toTrigger ∨ p ∈ toSkip → job_for_pr key p pr tr) →
  triple allowed P
    (triggerAndSkipIfTrusted gh fresh triggers (gpr_BaseRepoOwner pr) (gpr_BaseRepoName pr) pr
       toTrigger toSkip) (λ _ _, True).
Proof.
  intros HP Hj. unfold triggerAndSkipIfTrusted, trustedPullRequest.
  eapply (triple_bind _ _ _ _ (λ b tr, P tr ∧ (b = true → pr_trusted pr tr))).
  { apply triple_with_args. eapply triple_bind; [by apply TrustedPullRequest_ok|].
    intros [l b]. by apply triple_ret. }
  intros trusted. apply triple_if; intros Et; [|by apply triple_ret]. unfold runAndSkip.
  assert (stable (λ tr, P tr ∧ (trusted = true → pr_trusted pr tr))) as Hst.
  { intros tr new [? Ht]. split; [by apply HP|]. intros ?. by apply stable_trusted_pr, Ht. }
  eapply (triple_bind _ _ _ _ (λ sha tr, (P tr ∧ (trusted = true → pr_trusted pr tr)) ∧ _));
    [by apply triple_with_err, triple_question|].
  intros sha. cbn beta. eapply (triple_bind _ _ _ _ (λ _, _)); [apply triple_deref; intros ? ? _ Htr; exact Htr|].
  intros elideSkipped. apply RunAndSkipJobs_ok; [apply stable_and; [exact Hst|apply stable_answered]| |].
  - intros tr p ((HPt & Ht) & Ha) Hp. exists key, p, pr, sha. split_and!; [by auto|by apply Ht|done|done].
  - intros tr p ((HPt & Ht) & Ha) Hp Hs. exists key, p, pr. split_and!; [by auto|by apply Ht|done..].
Qed.

Lemma trigger_prs_ok key org repo jobs prs errs rest :
  (∀ p, p ∈ jobs → newly_required key p) → cut "/" key = Some (org, repo) →
  org ∉ addedPresubmitBlacklist → key ∉ addedPresubmitBlacklist →
  (∀ errs, triple allowed (λ _, True) (rest errs) (λ _ _, True)) →
  triple allowed (λ tr, ∀ pr, pr ∈ prs → listed org repo pr tr)
    (trigger_prs gh fresh triggers continueOnError key jobs prs errs rest) (λ _ _, True).
Proof.
  intros Hjobs Hcut Ho Hk Hrest. revert errs. induction prs as [|pr prs IH]; intros errs; cbn [trigger_prs].
  { eapply triple_weaken; [apply Hrest|done]. }
  set (P := λ tr, ∀ pr', pr' ∈ pr :: prs → listed org repo pr' tr).
  assert (stable P) as HP by (intros tr new Ht pr' Hpr'; by apply stable_answered, Ht).
  assert (∀ errs, triple allowed P (trigger_prs gh fresh triggers continueOnError key jobs prs errs rest)
            (λ _ _, True)) as IH'
    by (intros es; eapply triple_weaken; [apply IH|]; intros tr Ht pr' ?; apply Ht; by right).
  apply triple_if; intros Em; [apply IH'|]. apply bool_decide_eq_false in Em.
  eapply (triple_bind _ _ _ _ (λ r tr, P tr ∧ ∀ t s, r = Ok (t, s) → ∀ p, p ∈ t ∨ p ∈ s → p ∈ jobs)).
  { apply triple_look. intros tr Htr. split; [done|]. intros t s Hf p Hp.
    apply FilterPresubmits_subset in Hf as [? ?]. naive_solver. }
  intros r. eapply (triple_bind _ _ _ _ (λ ts tr, P tr ∧ ∀ p, p ∈ ts.1 ∨ p ∈ ts.2 → p ∈ jobs)).
  { apply triple_lift. intros [t s] tr Hr [? Hs]. split; [done|]. by eapply Hs. }
  intros [t s]. eapply (triple_bind _ _ _ _ (λ _, P)).
  { eapply triple_conseq; [apply (triple_attempt _ (λ tr, P tr ∧ ∀ p, p ∈ t ∨ p ∈ s → p ∈ jobs))|done|by intros ? ? [? _]].
    - apply stable_and; [exact HP|by intros ? ? ?].
    - apply (triggerAndSkip_ok key); [apply stable_and; [exact HP|by intros ? ? ?]|].
      intros tr p [HPt Hs] Hp. exists org, repo.
      split_and!; [by apply Hjobs, Hs|done..|apply HPt; left|done]. }
  intros [u|e]; [apply IH'|]. apply triple_if; intros _; [apply IH'|by apply triple_lift].
Qed.

Lemma trigger_repos_ok added errs :
  (∀ key jobs p, (key, jobs) ∈ added → p ∈ jobs → newly_required key p) →
  triple allowed (λ _, True)
    (trigger_repos gh fresh triggers continueOnError addedPresubmitBlacklist added errs) (λ _ _, True).
Proof.
  revert errs. induction added as [|[key jobs] added IH]; intros errs Ha; cbn [trigger_repos];
    [by apply triple_lift|].
  assert (∀ errs, triple allowed (λ _, True)
    (trigger_repos gh fresh triggers continueOnError addedPresubmitBlacklist added errs) (λ _ _, True)) as IH'
    by (intros es; apply IH; intros; eapply Ha; [by right|done]).
  destruct jobs as [|job jobs]; [apply IH'|].
  eapply (triple_bind _ _ _ _ (λ or _, cut "/" key = Some or)); [by apply triple_deref|].
  intros [org repo]. apply triple_fact. intros Hcut.
  apply triple_if; intros Eb; [apply IH'|]. apply bool_decide_eq_false in Eb.
  eapply (triple_bind _ _ _ _ (λ r tr, ∀ prs, r = Ok prs → ∀ pr, pr ∈ prs → listed org repo pr tr)).
  { intros tr _. eexists [_]. split_and!; [done| |].
    - intros [|? pre] e post [= <- Heq]; [done|by destruct pre].
    - intros r [= <-] prs Hr pr Hpr. by exists tr, [], prs. }
  intros [prs|e].
  - eapply triple_weaken; [apply (trigger_prs_ok key org repo)|intros tr Hl pr Hpr; by apply (Hl prs)].
    + intros p Hp. eapply Ha; [left|done].
    + done.
    + naive_solver.
    + naive_solver.
    + apply IH'.
  - apply (triple_weaken _ _ (λ _, True)); [|done]. apply triple_if; intros _; [apply IH'|by apply triple_lift].
Qed.

Lemma each_call_ok calls errs rest :
  (∀ c tr, c ∈ calls → reconcile_action tr c) →
  (∀ errs, triple allowed (λ _, True) (rest errs) (λ _ _, True)) →
  triple allowed (λ _, True) (each_call gh continueOnError calls errs rest) (λ _ _, True).
Proof.
  intros Hc Hrest. revert errs. induction calls as [|c calls IH]; intros errs; cbn [each_call];
    [apply Hrest|].
  assert (∀ errs, triple allowed (λ _, True) (each_call gh continueOnError calls errs rest) (λ _ _, True))
    as IH' by (intros es; apply IH; intros; apply Hc; by right).
  eapply (triple_bind _ _ _ _ (λ _ _, True)).
  { apply triple_attempt; [done|]. apply triple_ask; [|done]. intros tr _ _. apply Hc. left. }
  intros [u|e]; [apply IH'|]. apply triple_if; intros _; [apply IH'|apply triple_err].
Qed.

Lemma each_repo_ok {A} (call : string → string → A → Call) l errs :
  (∀ key items org repo x tr, (key, items) ∈ l → cut "/" key = Some (org, repo) → x ∈ items →
     reconcile_action tr (call org repo x)) →
  triple allowed (λ _, True) (each_repo gh continueOnError call l errs) (λ _ _, True).
Proof.
  revert errs. induction l as [|[key items] l IH]; intros errs Hl; cbn [each_repo]; [by apply triple_lift|].
  eapply (triple_bind _ _ _ _ (λ or _, cut "/" key = Some or)); [by apply triple_deref|].
  intros [org repo]. apply triple_fact. intros Hcut. apply each_call_ok.
  - intros c tr (x & -> & Hx)%list_elem_of_fmap. eapply Hl; [left|done|done].
  - intros es. apply IH. intros. eapply Hl; [by right|done|done].
Qed.

Lemma in_turn_ok parts errs :
  (∀ part, part ∈ parts → triple allowed (λ _, True) part (λ _ _, True)) →
  triple allowed (λ _, True) (in_turn continueOnError parts errs) (λ _ _, True).
Proof.
  revert errs. induction parts as [|part parts IH]; intros errs Hp; cbn [in_turn]; [by apply triple_lift|].
  assert (∀ errs, triple allowed (λ _, True) (in_turn continueOnError parts errs) (λ _ _, True)) as IH'
    by (intros es; apply IH; intros; apply Hp; by right).
  eapply (triple_bind _ _ _ _ (λ _ _, True)); [apply triple_attempt; [done|]; apply Hp; left|].
  intros [u|e]; [apply IH'|]. apply triple_if; intros _; [apply IH'|by apply triple_lift].
Qed.

Lemma reconcile_ok :
  triple allowed (λ _, True)
    (reconcile gh fresh triggers continueOnError addedPresubmitBlacklist before after) (λ _ _, True).
Proof.
  apply in_turn_ok. intros part Hp.
  repeat (apply elem_of_cons in Hp as [->|Hp]); [| | |by apply not_elem_of_nil in Hp].
  - apply trigger_repos_ok. intros key jobs p Hj%elem_of_map_range Hp'. by eapply added_spec.
  - apply each_repo_ok. intros key jobs org repo p tr Hj%elem_of_map_range Hcut Hp'.
    exists key, p. split_and!; [done|by eapply removed_spec|done].
  - apply each_repo_ok. intros key ms org repo m tr Hj%elem_of_map_range Hcut Hm.
    exists key, m. split_and!; [done|by eapply migrated_spec|done..].
Qed.

(** *** Completeness *)

Lemma attempt_inv {E A} (m : H E A) tr tr' r :
  attempt m tr = (tr', Some (Ok r)) → m tr = (tr', Some r).
Proof. unfold attempt, outcome. destruct (m tr) as [t [o|]]; cbn; [by intros [= <- <-]|done]. Qed.

Lemma each_call_inv calls errs rest tr tr' :
  each_call gh continueOnError calls errs rest tr = (tr', Some (Ok tt)) →
  ∃ errs', (errs ≠ [] → errs' ≠ []) ∧ rest errs' (tr ++ calls) = (tr', Some (Ok tt)).
Proof.
  revert errs tr. induction calls as [|c calls IH]; intros errs tr; cbn [each_call].
  { intros Hr. exists errs. by rewrite app_nil_r. }
  intros (t & r & Ha%attempt_inv & Hk)%hbind_inv. injection Ha as <- Hr.
  assert (∀ errs, each_call gh continueOnError calls errs rest (tr ++ [c]) = (tr', Some (Ok tt)) →
    ∃ errs', (errs ≠ [] → errs' ≠ []) ∧ rest errs' (tr ++ c :: calls) = (tr', Some (Ok tt))) as IH'.
  { intros es Hes. destruct (IH es _ Hes) as (errs' & ? & Hrest). exists errs'.
    rewrite <- app_assoc in Hrest. done. }
  destruct r as [u|e]; [by apply IH'|]. destruct continueOnError; [|done].
  destruct (IH' _ Hk) as (errs' & Hne & Hrest). exists errs'. split; [|done].
  intros _. apply Hne. by destruct errs.
Qed.

Lemma each_repo_inv {A} (call : string → string → A → Call) l errs tr tr' :
  each_repo gh continueOnError call l errs tr = (tr', Some (Ok tt)) →
  errs = [] ∧ ∃ new, tr' = tr ++ new ∧
  ∀ key items org repo x, (key, items) ∈ l → cut "/" key = Some (org, repo) → x ∈ items →
    call org repo x ∈ new.
Proof.
  revert errs tr. induction l as [|[key items] l IH]; intros errs tr; cbn [each_repo].
  { intros [-> Hr]%lift_inv. split; [by apply NewAggregate_Ok|]. exists []. rewrite app_nil_r.
    split; [done|]. by intros * ?%not_elem_of_nil. }
  intros (t & [org repo] & [-> Hcut]%deref_inv & Hk)%hbind_inv.
  apply each_call_inv in Hk as (errs' & Hne & (-> & new & -> & Hnew)%IH).
  split; [destruct errs; [done|by exfalso; apply Hne]|].
  exists ((call org repo <$> items) ++ new). split; [by rewrite app_assoc|].
  intros key' items' org' repo' x [[= -> ->]|Hin]%elem_of_cons Hcut' Hx; apply elem_of_app.
  - left. assert (org' = org ∧ repo' = repo) as [-> ->] by naive_solver. by apply list_elem_of_fmap_2.
  - right. by eapply Hnew.
Qed.

Lemma in_turn_errs parts errs tr tr' :
  in_turn continueOnError parts errs tr = (tr', Some (Ok tt)) → errs = [].
Proof.
  revert errs tr. induction parts as [|part parts IH]; intros errs tr; cbn [in_turn].
  { intros [_ Hr]%lift_inv. by apply NewAggregate_Ok. }
  intros (t & r & _ & Hk)%hbind_inv. destruct r as [u|e]; [by eapply IH|].
  assert (errs ++ [e] = []) as Hnil.
  { destruct continueOnError eqn:Ec; rewrite <- Ec in *; [by eapply IH|].
    by apply lift_inv in Hk as [_ Hk%NewAggregate_Ok]. }
  by apply app_nil in Hnil as [-> _].
Qed.

Lemma in_turn_cons_inv part parts tr tr' :
  in_turn continueOnError (part :: parts) [] tr = (tr', Some (Ok tt)) →
  ∃ t, part tr = (t, Some (Ok tt)) ∧ in_turn continueOnError parts [] t = (tr', Some (Ok tt)).
Proof.
  cbn [in_turn]. intros (t & r & Ha%attempt_inv & Hk)%hbind_inv. destruct r as [[]|e]; [by exists t|].
  exfalso. destruct continueOnError eqn:Ec; [rewrite <- Ec in Hk; by apply in_turn_errs in Hk|].
  by apply lift_inv in Hk as [_ ?].
Qed.

(** C10. A change of the configuration starts jobs and posts skipped statuses only for
    newly required jobs of repositories that are not excluded, on listed pull
    requests that can be merged and that GitHub vouched for, at the tip of their
    base; it retires only contexts of blocking jobs whose name is gone and moves
    only contexts of jobs that still are required; and if it reports no error, all
    of the latter were done. *)
Theorem reconcile_spec :
  let '(calls, out) :=
    reconcile gh fresh triggers continueOnError addedPresubmitBlacklist before after [] in
  (∀ pre e post, calls = pre ++ e :: post → action e = true → reconcile_action pre e) ∧
  (out = Some (Ok tt) →
     (∀ key org repo p, cut "/" key = Some (org, repo) → removed_job key p →
        retire_call org repo p ∈ calls) ∧
     (∀ key org repo m, cut "/" key = Some (org, repo) → migrated_job key m →
        migrate_call org repo m ∈ calls)).
Proof.
  destruct (reconcile_ok [] I) as (new & E & Hs & _).
  destruct (reconcile _ _ _ _ _ _ _ []) as [calls out] eqn:Er. cbn in E. subst calls. split.
  { intros pre e post Hn Ha. by eapply Hs. }
  intros ->. unfold reconcile in Er.
  apply in_turn_cons_inv in Er as (t1 & _ & Er).
  apply in_turn_cons_inv in Er as (t2 & E2 & Er).
  apply in_turn_cons_inv in Er as (t3 & E3 & [-> _]%lift_inv).
  apply each_repo_inv in E2 as (_ & n2 & -> & H2). apply each_repo_inv in E3 as (_ & n3 & -> & H3).
  split.
  - intros key org repo p Hcut Hr. pose proof Hr as (olds & Ho & _).
    assert (∃ jobs, removedBlockingPresubmits before after !! key = Some jobs) as [jobs Hj]
      by (unfold removedBlockingPresubmits; rewrite map_lookup_imap, Ho; by eexists).
    rewrite !elem_of_app. left. right. eapply H2; [by apply elem_of_map_range|done|].
    by eapply removed_spec.
  - intros key org repo m Hcut Hm. pose proof Hm as (olds & _ & Ho & _).
    assert (∃ ms, migratedBlockingPresubmits before after !! key = Some ms) as [ms Hj]
      by (unfold migratedBlockingPresubmits; rewrite map_lookup_imap, Ho; by eexists).
    rewrite !elem_of_app. right. eapply H3; [by apply elem_of_map_range|done|].
    by eapply migrated_spec.
Qed.
End reconcile_proofs.

(** ** Witness and examples *)

#[local] Existing Instance listing_order.

Definition w_before : presubmits := {["o/r" := [w_job "unit"]]}.
Definition w_after : presubmits := {["o/r" := [w_job "lint"]]}.
Definition w_reconcile : list Call * option (result unit) :=
  reconcile (w_github ["author"] [] []) w_fresh [w_trigger] false ∅ w_before w_after [].

(** The new job is started, then the old context retired. *)
Example reconcile_run :
  (λ e, match e with
        | CreateProwJob pj => "create " +:+ spec_Job (pj_Spec pj)
        | RetireContext _ _ c _ => "retire " +:+ c
        | _ => ""
        end) <$> filter (λ e, action e = true) w_reconcile.1 = ["create lint"; "retire unit"].
Proof. vm_compute. reflexivity. Qed.

Lemma reconcile_spec_witness :
  w_reconcile.2 = Some (Ok tt) ∧ retire_call "o" "r" (w_job "unit") ∈ w_reconcile.1.
Proof.
  pose proof (reconcile_spec (w_github ["author"] [] []) w_fresh [w_trigger] false ∅ w_before w_after)
    as Hs.
  assert (w_reconcile.2 = Some (Ok tt)) as Hout by (vm_compute; reflexivity).
  split; [exact Hout|]. unfold w_reconcile in *.
  destruct (reconcile _ _ _ _ _ _ _ _) as [calls out]. cbn [fst snd] in *.
  destruct Hs as [_ Hs]. destruct (Hs Hout) as [Hr _].
  apply (Hr "o/r" "o" "r" (w_job "unit")); [reflexivity|].
  exists [w_job "unit"]. split_and!; [reflexivity|left|reflexivity|].
  intros news new Hn Hin. vm_compute in Hn. injection Hn as <-.
  apply list_elem_of_singleton in Hin as ->. discriminate.
Defined.

(** A job that is renamed and keeps its context: its new run is started and then
    the context, which the run is to report to, is retired. *)
Definition w_renamed : Presubmit :=
  let p := w_job "unit" in
  mkPresubmit (w_base "unit-v2") true false (ps_Trigger p) "" w_all w_nochange (ps_Reporter p) None (ps_re p).
Example renamed_job_retired :
  ps_Context w_renamed = ps_Context (w_job "unit") ∧
  (λ e, match e with
        | CreateProwJob pj => "create " +:+ spec_Context (pj_Spec pj)
        | RetireContext _ _ c _ => "retire " +:+ c
        | _ => ""
        end) <$> filter (λ e, action e = true)
    (reconcile (w_github ["author"] [] []) w_fresh [w_trigger] false ∅ w_before
       {["o/r" := [w_renamed]]} []).1 = ["create unit"; "retire unit"].
Proof. split; vm_compute; reflexivity. Qed.

(** The presubmits of a repository the configuration did not have are not started. *)
Example new_repository :
  filter (λ e, action e = true)
    (reconcile (w_github ["author"] [] []) w_fresh [w_trigger] false ∅ ∅ w_after []).1 = [].
Proof. vm_compute. reflexivity. Qed.
