(* ===== verification/Plank.v ===== *)
(** * The plank controller (plank/controller.go)

    Plank turns triggered ProwJobs into pods and follows the pods.  A sync is a
    computation over the trace of the calls it makes; the shared map of running
    jobs is passed along explicitly.  The goroutines of [syncProwJobs] share only
    that map, behind a lock taken in [canExecuteConcurrently] and
    [incrementNumPendingJobs], so an interleaving is an order of those calls. *)

From S2P Require Import Prelude Api JobConfig PjUtil.
#[local] Open Scope go_scope.

Definition Evicted : string := "Evicted".

(** Pod phases of the Kubernetes API. *)
Definition PodPending : string := "Pending".
Definition PodRunning : string := "Running".
Definition PodSucceeded : string := "Succeeded".
Definition PodFailed : string := "Failed".
Definition PodUnknown : string := "Unknown".

(** A pod has at least one container. *)
Record Pod := mkPod {
  pod_Name : string; pod_Container0 : Container; pod_Containers : list Container;
  pod_Phase : string; pod_Reason : string; pod_StartTime : option Time }.

Record PlankConfig := mkPlankConfig {
  pl_MaxConcurrency : Z; pl_AllowCancellations : bool;
  pl_PodPendingTimeout : Z; pl_PodRunningTimeout : Z; pl_SkipReport : bool }.

Inductive event : Type :=
| EvBuildID (job : string)
| EvCreatePod (cluster : string) (pj : ProwJob) (buildID : string)
| EvDeletePod (cluster name : string)
| EvPatch (src dst : ProwJob)
| EvReport (pj : ProwJob)
| EvGitHubReport (pj : ProwJob)
| EvGetJob (name : string)
| EvUpdate (pj : ProwJob).

(** The answer to creating a pod: its name, or an error that
    [kerrors.IsInvalid] recognises or not. *)
Inductive create_answer : Type :=
| Created (podName : string)
| Invalid (e : error)
| Failed (e : error).

(** The map [pendingJobs]; a missing entry reads as 0. *)
Notation pending_map := (gmap string Z).
Definition num_pending (m : pending_map) (job : string) : Z := default 0%Z (m !! job).
Definition incrementNumPendingJobs (job : string) (m : pending_map) : pending_map :=
  <[job := (num_pending m job + 1)%Z]> m.
Definition total_pending (m : pending_map) : Z := map_fold (λ _ n acc, (n + acc)%Z) 0%Z m.

Definition getPodBuildID (pod : Pod) : string :=
  match list_find (λ e, env_Name e = "BUILD_ID") (ct_Env (pod_Container0 pod)) with
  | Some (_, e) => env_Value e
  | None => ""
  end.

Section controller.
Context (cfg : PlankConfig) (buildClients : gset string).
(** The clock, tot, the pod clients, the ProwJob client; decorating a job's pod
    spec; the job's URL. *)
Context (now : list event → Time)
        (get_build_id : list event → result string)
        (create_pod : list event → create_answer)
        (delete_pod : list event → result unit)
        (patch : list event → result ProwJob)
        (ProwJobToPod : ProwJob → string → result unit)
        (JobURL : ProwJob → string).

Definition PatchProwjob (src dst : ProwJob) : M event (result ProwJob) :=
  call patch (EvPatch src dst).

(** [pjs] are the jobs of this sync, for counting those that wait. *)
Definition olderMatching (pjs : list ProwJob) (pj : ProwJob) : Z :=
  Z.of_nat (length (filter (λ foundPJ,
    pj_State foundPJ = TriggeredState ∧
    spec_Job (pj_Spec foundPJ) = spec_Job (pj_Spec pj) ∧
    Before (pj_CreationTimestamp foundPJ) (pj_CreationTimestamp pj) = true) pjs)).

Definition canExecuteConcurrently (pjs : list ProwJob) (pj : ProwJob) (m : pending_map)
    : bool * pending_map :=
  let job := spec_Job (pj_Spec pj) in
  let limit := spec_MaxConcurrency (pj_Spec pj) in
  if bool_decide (0 < pl_MaxConcurrency cfg ≤ total_pending m)%Z then (false, m)
  else if bool_decide (limit = 0%Z) then (true, incrementNumPendingJobs job m)
  else
    let numPending := num_pending m job in
    if bool_decide (limit ≤ numPending)%Z then (false, m)
    else if bool_decide (limit ≤ numPending + olderMatching pjs pj)%Z then (false, m)
    else (true, incrementNumPendingJobs job m).

(** [startPod]: the build ID and the pod's name. *)
Definition startPod (pj : ProwJob) : M event ((string * string) + (bool * error)) :=
  id ← call get_build_id (EvBuildID (spec_Job (pj_Spec pj)));
  match wrap_err "error getting build ID: %v" id with
  | Err e => mret (inr (false, e))
  | Ok buildID =>
      match ProwJobToPod pj buildID with
      | Err e => mret (inr (false, e))
      | Ok _ =>
          if bool_decide (ClusterAlias pj ∈ buildClients) then
            a ← call create_pod (EvCreatePod (ClusterAlias pj) pj buildID);
            mret (match a with
                  | Created name => inl (buildID, name)
                  | Invalid e => inr (true, e)
                  | Failed e => inr (false, e)
                  end)
          else mret (inr (false, Errorf "unknown cluster alias %q" [AStr (ClusterAlias pj)]))
      end
  end.

(** [client.Delete] of the job's pod, after looking the cluster's client up. *)
Definition deletePod (pj : ProwJob) (podName unknown : string) : M event (option error) :=
  if bool_decide (ClusterAlias pj ∈ buildClients) then
    r ← call delete_pod (EvDeletePod (ClusterAlias pj) (pj_Name pj));
    mret (match r with Ok _ => None | Err e => Some e end)
  else mret (Some (Errorf unknown [AStr podName; AStr (ClusterAlias pj)])).

Definition finish_job (state : ProwJobState) (description : string) (t : Time)
    (pj : ProwJob) : ProwJob :=
  update_status (λ st, set_description description (set_state state
    (set_completion (Some t) st))) pj.

(** The end of [syncPendingJob]: report and patch. *)
Definition publish (prevPJ pj : ProwJob) (m : pending_map)
    : M event (pending_map * option error) :=
  let pj := update_status (set_url (JobURL pj)) pj in
  _ ← emit (EvReport pj);
  r ← PatchProwjob prevPJ pj;
  mret (m, match r with Ok _ => None | Err e => Some e end).

(** The error names the pod that was not found, so that it names none. *)
Definition restart_missing (pj : ProwJob) (m : pending_map)
    : M event (pending_map * option error) :=
  let m := incrementNumPendingJobs (spec_Job (pj_Spec pj)) m in
  r ← startPod pj;
  match r with
  | inr (false, e) => mret (m, Some (Errorf "error starting pod %s: %v" [AStr ""; AErr e]))
  | inr (true, _) =>
      t ← observe now;
      publish pj (finish_job ErrorState "Job cannot be processed." t pj) m
  | inl (id, pn) => publish pj (update_status (set_pod id pn) pj) m
  end.

(** A pod that has been in its phase since [start]: not too long? *)
Definition within (start : option Time) (limit : Z) (t : Time) : bool :=
  match start with
  | None => true
  | Some s => IsZero s || bool_decide (t - s < limit)%Z
  end.

Definition time_out (state : ProwJobState) (podName description unknown failed : string)
    (pj : ProwJob) (m : pending_map) : M event (pending_map * option error) :=
  t ← observe now;
  err ← deletePod pj podName unknown;
  match err with
  | Some e => mret (m, Some (if bool_decide (ClusterAlias pj ∈ buildClients)
                             then Errorf failed [AStr podName; AErr e] else e))
  | None => publish pj (finish_job state description t pj) m
  end.

Definition syncPendingJob (pm : gmap string Pod) (pj : ProwJob) (m : pending_map)
    : M event (pending_map * option error) :=
  let job := spec_Job (pj_Spec pj) in
  match pm !! pj_Name pj with
  | None => restart_missing pj m
  | Some pod =>
      let phase := pod_Phase pod in
      if bool_decide (phase = PodUnknown) then
        err ← deletePod pj (pod_Name pod) "unknown pod %s: unknown cluster alias %q";
        mret (incrementNumPendingJobs job m, err)
      else if bool_decide (phase = PodSucceeded) then
        t ← observe now;
        publish pj (finish_job SuccessState "Job succeeded." t pj) m
      else if bool_decide (phase = PodFailed) then
        if bool_decide (pod_Reason pod = Evicted) then
          if spec_ErrorOnEviction (pj_Spec pj) then
            t ← observe now;
            publish pj (finish_job ErrorState "Job pod was evicted by the cluster." t pj) m
          else
            err ← deletePod pj (pod_Name pod) "evicted pod %s: unknown cluster alias %q";
            mret (incrementNumPendingJobs job m, err)
        else
          t ← observe now;
          publish pj (finish_job FailureState "Job failed." t pj) m
      else if bool_decide (phase = PodPending) then
        t ← observe now;
        if within (pod_StartTime pod) (pl_PodPendingTimeout cfg) t
        then mret (incrementNumPendingJobs job m, None)
        else time_out ErrorState (pod_Name pod) "Pod pending timeout."
               "pending pod %s: unknown cluster alias %q"
               "failed to delete pod %s that was in pending timeout: %v" pj m
      else if bool_decide (phase = PodRunning) then
        t ← observe now;
        if within (pod_StartTime pod) (pl_PodRunningTimeout cfg) t
        then mret (incrementNumPendingJobs job m, None)
        else time_out AbortedState (pod_Name pod) "Pod running timeout."
               "running pod %s: unknown cluster alias %q"
               "failed to delete pod %s that was in running timeout: %v" pj m
      else mret (incrementNumPendingJobs job m, None)
  end.

(** The end of [syncTriggeredJob]. *)
Definition publish_triggered (prevPJ pj : ProwJob) (m : pending_map)
    : M event (pending_map * option error) :=
  _ ← emit (EvReport pj);
  r ← PatchProwjob prevPJ pj;
  mret (m, match r with Ok _ => None | Err e => Some e end).

(** [pj.Status.State == Triggered]: move on to pending. *)
Definition mark_pending (id pn : string) (t : Time) (pj : ProwJob) : ProwJob :=
  let pj := update_status (λ st, set_description "Job triggered." (set_pod id pn
              (set_state PendingState (set_pending_time (Some t) st)))) pj in
  update_status (set_url (JobURL pj)) pj.

Definition advance (pj : ProwJob) (id pn : string) (m : pending_map)
    : M event (pending_map * option error) :=
  if bool_decide (pj_State pj = TriggeredState) then
    t ← observe now;
    publish_triggered pj (mark_pending id pn t pj) m
  else publish_triggered pj pj m.

Definition syncTriggeredJob (pjs : list ProwJob) (pm : gmap string Pod) (pj : ProwJob)
    (m : pending_map) : M event (pending_map * option error) :=
  match pm !! pj_Name pj with
  | Some pod => advance pj (getPodBuildID pod) (pod_Name pod) m
  | None =>
      let '(ok, m) := canExecuteConcurrently pjs pj m in
      if negb ok then mret (m, None)
      else
        r ← startPod pj;
        match r with
        | inl (id, pn) => advance pj id pn m
        | inr (false, e) => mret (m, Some (Errorf "error starting pod: %v" [AErr e]))
        | inr (true, _) =>
            t ← observe now;
            publish_triggered pj (finish_job ErrorState "Job cannot be processed." t pj) m
        end
  end.

(** [syncProwJobs] over one order of the jobs, collecting errors. *)
Fixpoint syncProwJobs (syncFn : ProwJob → pending_map → M event (pending_map * option error))
    (jobs : list ProwJob) (m : pending_map) : M event (pending_map * list error) :=
  match jobs with
  | [] => mret (m, [])
  | pj :: rest =>
      '(m, err) ← syncFn pj m;
      '(m, errs) ← syncProwJobs syncFn rest m;
      mret (m, option_list err ++ errs)
  end.

(** [terminateDupes]'s callback: failures only matter to the log. *)
Definition cancel_pod (pm : gmap string Pod) (toCancel : ProwJob) : M event (result unit) :=
  if pl_AllowCancellations cfg then
    match pm !! pj_Name toCancel with
    | None => mret (Ok tt)
    | Some pod =>
        if bool_decide (ClusterAlias toCancel ∈ buildClients) then
          r ← call delete_pod (EvDeletePod (ClusterAlias toCancel) (pod_Name pod));
          mret (wrap_err "deleting pod: %v" r)
        else mret (Err (Errorf "unknown cluster alias %q" [AStr (ClusterAlias toCancel)]))
    end
  else mret (Ok tt).

Definition terminateDupes (pjs : list ProwJob) (pm : gmap string Pod)
    : M event (list ProwJob * option error) :=
  TerminateOlderJobs now (cancel_pod pm) PatchProwjob pjs.

(** What [m] put on the report channel. *)
Definition reported {A} (m : M event A) : M event (A * list ProwJob) := λ tr,
  let '(tr', a) := m tr in
  (tr', (a, omap (λ e, match e with EvReport pj => Some pj | _ => None end) (drop (length tr) tr'))).

(** Reading and writing ProwJobs and reporting to GitHub ([reportlib.Report]). *)
Context (get_job update_job : list event → result ProwJob) (github_report : list event → option error).

Definition note_reported (latestPJ : ProwJob) : ProwJob :=
  update_status (λ st, set_prev_report
    (Some (<[GitHubReporterName := st_State st]> (default ∅ (st_PrevReportStates st)))) st) latestPJ.

Definition setPreviousReportState (pj : ProwJob) : M event (result unit) :=
  r ← call get_job (EvGetJob (pj_Name pj));
  match r with
  | Err e => mret (Err e)
  | Ok latestPJ =>
      r ← call update_job (EvUpdate (note_reported latestPJ));
      mret (match r with Ok _ => Ok tt | Err e => Err e end)
  end.

(** The reports; that they cannot be noted only matters to the log. *)
Fixpoint report_all (reports : list ProwJob) : M event (list error) :=
  match reports with
  | [] => mret []
  | pj :: reports =>
      err ← call github_report (EvGitHubReport pj);
      _ ← setPreviousReportState pj;
      errs ← report_all reports;
      mret (option_list err ++ errs)
  end.

(** The listed ProwJobs that run as pods, oldest first. *)
Definition kubernetes_jobs (items : list ProwJob) : list ProwJob :=
  sort_by pj_CreationTimestamp (filter (λ pj, spec_Agent (pj_Spec pj) = KubernetesAgent) items).

(** A sync from the listed ProwJobs and pods: the errors of syncing and of reporting. *)
Definition sync_listed (items : list ProwJob) (pm : gmap string Pod) : M event (list error * list error) :=
  let k8sJobs := kubernetes_jobs items in
  '(k8sJobs, err) ← terminateDupes k8sJobs pm;
  let '(pendingCh, triggeredCh) := PartitionActive k8sJobs in
  '((errs1, errs2), reports) ← reported (
     '(m, errs1) ← syncProwJobs (syncPendingJob pm) pendingCh ∅;
     '(m, errs2) ← syncProwJobs (syncTriggeredJob k8sJobs pm) triggeredCh m;
     mret (errs1, errs2));
  reportErrs ← (if pl_SkipReport cfg then mret [] else report_all reports);
  mret (option_list err ++ errs1 ++ errs2, reportErrs).

(** Listing the ProwJobs, and the pods of each cluster. *)
Context `{GoRange} (list_jobs : list event → result (list ProwJob))
        (list_pods : string → list event → result (list Pod)).

(** Pods of the same name in several clusters: the last one listed counts. *)
Definition all_pods (tr : list event) : gmap string Pod * list error :=
  foldl (λ '(pm, errs) alias,
    match list_pods alias tr with
    | Err e => (pm, errs ++ [Errorf "error listing pods in cluster %q: %v" [AStr alias; AErr e]])
    | Ok pods => (foldl (λ pm pod, <[pod_Name pod := pod]> pm) pm pods, errs)
    end) (∅, []) (set_range buildClients).

(** What cannot be listed of the pods is left out, so that their jobs' pods count as
    missing.  [None] is success. *)
Definition Sync : M event (option error) :=
  items ← observe list_jobs;
  match items with
  | Err e => mret (Some (Errorf "error listing prow jobs: %v" [AErr e]))
  | Ok items =>
      '(pm, errs0) ← observe all_pods;
      '(syncErrs, reportErrs) ← sync_listed items pm;
      let syncErrs := errs0 ++ syncErrs in
      mret (if bool_decide (syncErrs = [] ∧ reportErrs = []) then None
            else Some (Errorf "errors syncing: %v, errors reporting: %v" [AErrs syncErrs; AErrs reportErrs]))
  end.
End controller.

(** ** Lemmas *)

Lemma num_pending_increment job job' m :
  num_pending (incrementNumPendingJobs job m) job' =
    (num_pending m job' + if decide (job = job') then 1 else 0)%Z.
Proof.
  unfold num_pending, incrementNumPendingJobs. case_decide as H.
  - subst. by rewrite lookup_insert_eq.
  - rewrite lookup_insert_ne by done. lia.
Qed.

Lemma total_pending_insert job n m :
  total_pending (<[job := n]> m) = (total_pending m - num_pending m job + n)%Z.
Proof.
  unfold total_pending, num_pending.
  assert (∀ (k : string) (x : Z) (m : pending_map), m !! k = None →
    map_fold (λ _ n acc, (n + acc)%Z) 0%Z (<[k := x]> m)
    = (x + map_fold (λ _ n acc, (n + acc)%Z) 0%Z m)%Z) as Hins.
  { intros. apply map_fold_insert_L; [|done]. intros. lia. }
  destruct (m !! job) as [x|] eqn:E; cbn.
  - rewrite <-(insert_delete_id m job x E) at 2. rewrite <-insert_delete_eq.
    rewrite !Hins by apply lookup_delete_eq. lia.
  - rewrite Hins by done. lia.
Qed.

Lemma total_pending_increment job m :
  total_pending (incrementNumPendingJobs job m) = (total_pending m + 1)%Z.
Proof. unfold incrementNumPendingJobs. rewrite total_pending_insert. lia. Qed.

Lemma syncProwJobs_emits (P : ProwJob → event → Prop)
    (f : ProwJob → pending_map → M event (pending_map * option error)) jobs m :
  (∀ pj m, pj ∈ jobs → emits (P pj) (f pj m)) →
  emits (λ e, ∃ pj, pj ∈ jobs ∧ P pj e) (syncProwJobs f jobs m).
Proof.
  revert m. induction jobs as [|pj jobs IH]; intros m Hf; cbn; [apply emits_ret|].
  apply emits_bind.
  - eapply emits_impl; [|apply Hf, list_elem_of_here]. intros e He.
    exists pj. split; [apply list_elem_of_here | done].
  - intros [m' err]. apply emits_bind; [|intros []; apply emits_ret].
    eapply emits_impl; [|apply IH; intros; by apply Hf, list_elem_of_further].
    intros e (pj' & ? & ?). exists pj'. split; [by apply list_elem_of_further | done].
Qed.

(** What one admission decides, in arithmetic. *)
Lemma canExecuteConcurrently_cases cfg pjs pj m b m' :
  canExecuteConcurrently cfg pjs pj m = (b, m') →
  (b = false ∧ m' = m) ∨
  (b = true ∧ m' = incrementNumPendingJobs (spec_Job (pj_Spec pj)) m ∧
   (0 < pl_MaxConcurrency cfg → total_pending m < pl_MaxConcurrency cfg)%Z ∧
   (spec_MaxConcurrency (pj_Spec pj) = 0 ∨
    num_pending m (spec_Job (pj_Spec pj)) + olderMatching pjs pj
      < spec_MaxConcurrency (pj_Spec pj))%Z).
Proof.
  unfold canExecuteConcurrently. intros H.
  repeat case_bool_decide; simplify_eq; [by left | right | by left | by left | right];
    repeat split; lia.
Qed.

Lemma olderMatching_nonneg pjs pj : (0 ≤ olderMatching pjs pj)%Z.
Proof. unfold olderMatching. lia. Qed.

Lemma canExecuteConcurrently_limits cfg pjs pj m job :
  let m' := (canExecuteConcurrently cfg pjs pj m).2 in
  (num_pending m job ≤ num_pending m' job ∧
   (spec_Job (pj_Spec pj) = job → 0 < spec_MaxConcurrency (pj_Spec pj) →
      num_pending m' job ≤ Z.max (spec_MaxConcurrency (pj_Spec pj)) (num_pending m job)) ∧
   (spec_Job (pj_Spec pj) ≠ job → num_pending m' job = num_pending m job) ∧
   (0 < pl_MaxConcurrency cfg →
      total_pending m' ≤ Z.max (pl_MaxConcurrency cfg) (total_pending m)))%Z.
Proof.
  destruct (canExecuteConcurrently cfg pjs pj m) as [b m'] eqn:H. cbn.
  pose proof (olderMatching_nonneg pjs pj).
  apply canExecuteConcurrently_cases in H as [[-> ->]|(-> & -> & Hg & Hl)];
    rewrite ?num_pending_increment, ?total_pending_increment; [lia|].
  split; [case_decide; lia|]. split; [intros <-; rewrite decide_True by done; lia|].
  split; [intros; rewrite decide_False by done; lia | lia].
Qed.

(** ** The state machine of a ProwJob under plank *)

Inductive transition : ProwJobState → ProwJobState → Prop :=
| tr_start : transition TriggeredState PendingState
| tr_unprocessable : transition TriggeredState ErrorState
| tr_restart : transition PendingState PendingState
| tr_succeed : transition PendingState SuccessState
| tr_fail : transition PendingState FailureState
| tr_error : transition PendingState ErrorState
| tr_abort : transition PendingState AbortedState.

(** A patch keeps the job's identity and specification, follows the state
    machine, and completes the job exactly when it leaves the pending state. *)
Definition legal_patch (src dst : ProwJob) : Prop :=
  pj_Name dst = pj_Name src ∧ pj_Spec dst = pj_Spec src ∧
  pj_CreationTimestamp dst = pj_CreationTimestamp src ∧
  transition (pj_State src) (pj_State dst) ∧
  (Complete dst = true ↔ pj_State dst ≠ PendingState).

Definition legal_event (pj : ProwJob) (e : event) : Prop :=
  match e with
  | EvPatch src dst => src = pj ∧ legal_patch pj dst
  | EvReport dst => legal_patch pj dst
  | EvBuildID job => job = spec_Job (pj_Spec pj)
  | EvDeletePod cluster name => cluster = ClusterAlias pj ∧ name = pj_Name pj
  | EvCreatePod _ _ _ => True
  | EvGitHubReport _ | EvGetJob _ | EvUpdate _ => False
  end.

(** Creating a pod for [pj], allowed only when it has none. *)
Definition creates_missing (pm : gmap string Pod) (pj : ProwJob) (e : event) : Prop :=
  match e with
  | EvCreatePod cluster pj' _ => pj' = pj ∧ cluster = ClusterAlias pj ∧ pm !! pj_Name pj = None
  | _ => True
  end.

Definition is_create (e : event) : bool :=
  match e with EvCreatePod _ _ _ => true | _ => false end.

Section plank_lemmas.
Context (cfg : PlankConfig) (buildClients : gset string)
  (now : list event → Time) (get_build_id : list event → result string)
  (create_pod : list event → create_answer) (delete_pod : list event → result unit)
  (patch : list event → result ProwJob)
  (ProwJobToPod : ProwJob → string → result unit) (JobURL : ProwJob → string).

Local Abbreviation startPod := (startPod buildClients get_build_id create_pod ProwJobToPod).
Local Abbreviation deletePod := (deletePod buildClients delete_pod).
Local Abbreviation publish := (publish patch JobURL).
Local Abbreviation publish_triggered := (publish_triggered patch).
Local Abbreviation syncPendingJob := (syncPendingJob cfg buildClients now get_build_id
  create_pod delete_pod patch ProwJobToPod JobURL).
Local Abbreviation syncTriggeredJob := (syncTriggeredJob cfg buildClients now get_build_id
  create_pod patch ProwJobToPod JobURL).

(** The helpers emit only what their arguments say, for any event predicate. *)
Section emits_helpers.
Context (P : event → Prop).

Lemma startPod_emits pj :
  P (EvBuildID (spec_Job (pj_Spec pj))) → (∀ id, P (EvCreatePod (ClusterAlias pj) pj id)) → emits P (startPod pj).
Proof.
  intros Hb Hc. unfold startPod. apply emits_bind; [by apply emits_call|].
  intros id. destruct (wrap_err _ id); [|apply emits_ret].
  destruct (ProwJobToPod pj a); [|apply emits_ret].
  case_bool_decide; [|apply emits_ret].
  apply emits_bind; [by apply emits_call | intros; apply emits_ret].
Qed.

Lemma deletePod_emits pj n u : P (EvDeletePod (ClusterAlias pj) (pj_Name pj)) → emits P (deletePod pj n u).
Proof.
  intros Hd. unfold deletePod. case_bool_decide; [|apply emits_ret].
  apply emits_bind; [by apply emits_call | intros; apply emits_ret].
Qed.

Lemma publish_emits prev pj m :
  P (EvReport (update_status (set_url (JobURL pj)) pj)) →
  P (EvPatch prev (update_status (set_url (JobURL pj)) pj)) →
  emits P (publish prev pj m).
Proof.
  intros. unfold publish, PatchProwjob. repeat (apply emits_bind; intros);
    auto with prow.
Qed.

Lemma publish_triggered_emits prev pj m :
  P (EvReport pj) → P (EvPatch prev pj) → emits P (publish_triggered prev pj m).
Proof.
  intros. unfold publish_triggered, PatchProwjob.
  repeat (apply emits_bind; intros); auto with prow.
Qed.
End emits_helpers.

(** The same helpers, counting creations. *)
Section count_helpers.
Context (P : event → bool) (Hbuild : ∀ job, P (EvBuildID job) = false)
  (Hreport : ∀ pj, P (EvReport pj) = false)
  (Hpatch : ∀ src dst, P (EvPatch src dst) = false).

Lemma startPod_emits_le pj n :
  (∀ id, (if P (EvCreatePod (ClusterAlias pj) pj id) then 1 else 0) ≤ n) →
  emits_le P n (startPod pj).
Proof.
  intros Hn. unfold startPod. apply (emits_le_bind _ 0 n n); [lia| |].
  { apply emits_le_call. by rewrite Hbuild. }
  intros id. destruct (wrap_err _ id) as [b|]; [|apply emits_le_ret].
  destruct (ProwJobToPod pj b); [|apply emits_le_ret].
  case_bool_decide; [|apply emits_le_ret].
  apply (emits_le_bind _ n 0 n); [lia | by apply emits_le_call | intros; apply emits_le_ret].
Qed.

Lemma publish_triggered_emits_le prev pj m : emits_le P 0 (publish_triggered prev pj m).
Proof.
  unfold publish_triggered, PatchProwjob.
  apply (emits_le_bind _ 0 0 0); [lia | apply emits_le_emit; by rewrite Hreport |].
  intros []. apply (emits_le_bind _ 0 0 0); [lia | apply emits_le_call; by rewrite Hpatch |].
  intros; apply emits_le_ret.
Qed.

Lemma advance_emits_le pj id pn m : emits_le P 0 (advance now patch JobURL pj id pn m).
Proof.
  unfold advance. case_bool_decide; [|apply publish_triggered_emits_le].
  apply (emits_le_bind _ 0 0 0); [lia | apply emits_le_observe |].
  intros; apply publish_triggered_emits_le.
Qed.
End count_helpers.

(** The map that a handler returns. *)
Lemma publish_triggered_map prev pj m tr : (publish_triggered prev pj m tr).2.1 = m.
Proof. done. Qed.

Lemma advance_map pj id pn m tr : (advance now patch JobURL pj id pn m tr).2.1 = m.
Proof. unfold advance. by case_bool_decide. Qed.

Lemma syncTriggeredJob_map pjs pm pj m tr :
  (syncTriggeredJob pjs pm pj m tr).2.1 =
    match pm !! pj_Name pj with
    | Some _ => m
    | None => (canExecuteConcurrently cfg pjs pj m).2
    end.
Proof.
  unfold syncTriggeredJob. destruct (pm !! pj_Name pj); [apply advance_map|].
  destruct (canExecuteConcurrently cfg pjs pj m) as [[] m']; [|done].
  cbn [negb]. rewrite bind_app. destruct (startPod pj tr) as [tr' [[id pn]|[[] e]]]; cbn [fst snd].
  - apply advance_map.
  - done.
  - done.
Qed.

(** A pod creation for jobs named [job]. *)
Definition creates_of (job : string) (e : event) : bool :=
  match e with
  | EvCreatePod _ pj _ => bool_decide (spec_Job (pj_Spec pj) = job)
  | _ => false
  end.

(** Every creation was admitted first. *)
Lemma syncTriggeredJob_creates pjs pm pj m tr job :
  ∃ new, (syncTriggeredJob pjs pm pj m tr).1 = tr ++ new ∧
    (Z.of_nat (length (filter (λ e, creates_of job e = true) new))
     ≤ num_pending (syncTriggeredJob pjs pm pj m tr).2.1 job - num_pending m job)%Z.
Proof.
  rewrite syncTriggeredJob_map. unfold syncTriggeredJob.
  destruct (pm !! pj_Name pj) as [pod|].
  { destruct (advance_emits_le (creates_of job) (λ _, eq_refl) (λ _ _, eq_refl)
                pj (getPodBuildID pod) (pod_Name pod) m tr) as (new & ? & ?).
    exists new. split; [done|lia]. }
  destruct (canExecuteConcurrently cfg pjs pj m) as [b m'] eqn:Hcan.
  apply canExecuteConcurrently_cases in Hcan as [[-> ->]|(-> & -> & _)]; cbn [negb snd].
  { exists []. rewrite app_nil_r. split; [done|]. cbn. lia. }
  rewrite num_pending_increment.
  set (m' := incrementNumPendingJobs _ m).
  set (n := if decide (spec_Job (pj_Spec pj) = job) then 1 else 0).
  assert (emits_le (creates_of job) n (r ← startPod pj; match r with
      | inl (id, pn) => advance now patch JobURL pj id pn m'
      | inr (false, e) => mret (m', Some (Errorf "error starting pod: %v" [AErr e]))
      | inr (true, _) => t ← observe now;
          publish_triggered pj (finish_job ErrorState "Job cannot be processed." t pj) m'
      end)) as Hle.
  { apply (emits_le_bind _ n 0 n); [lia| |].
    - apply startPod_emits_le; [done|]. intros id. cbn. unfold n.
      case_bool_decide; case_decide; (done || lia).
    - intros [[id pn]|[[] e]]; [by apply advance_emits_le | | apply emits_le_ret].
      apply (emits_le_bind _ 0 0 0); [lia | apply emits_le_observe |].
      intros. by apply publish_triggered_emits_le. }
  destruct (Hle tr) as (new & ? & ?). exists new. split; [done|].
  unfold n in *. case_decide; lia.
Qed.

(** What a handler may do on behalf of [pj]. *)
Definition plank_event (pm : gmap string Pod) (pj : ProwJob) (e : event) : Prop :=
  legal_event pj e ∧ creates_missing pm pj e.

Lemma legal_finish pj state d t :
  pj_State pj = PendingState → state ∈ [SuccessState; FailureState; ErrorState; AbortedState] →
  legal_patch pj (update_status (set_url (JobURL (finish_job state d t pj)))
                    (finish_job state d t pj)).
Proof.
  intros Hp Hs. split; [done|]. split; [done|]. split; [done|].
  change (pj_State (update_status _ (finish_job state d t pj))) with state.
  change (Complete (update_status _ (finish_job state d t pj))) with true.
  rewrite Hp. rewrite !elem_of_cons, elem_of_nil in Hs.
  destruct Hs as [->|[->|[->|[->|[]]]]]; split; by constructor.
Qed.

Lemma legal_restart pj id pn :
  pj_State pj = PendingState → Complete pj = false →
  legal_patch pj (update_status (set_url (JobURL (update_status (set_pod id pn) pj)))
                    (update_status (set_pod id pn) pj)).
Proof.
  intros Hp Hc. split; [done|]. split; [done|]. split; [done|].
  change (pj_State (update_status _ (update_status (set_pod id pn) pj))) with (pj_State pj).
  change (Complete (update_status _ (update_status (set_pod id pn) pj))) with (Complete pj).
  rewrite Hp, Hc. split; [constructor|]. split; [done | by intros []].
Qed.

Lemma publish_legal pm pj pj' m :
  legal_patch pj (update_status (set_url (JobURL pj')) pj') →
  emits (plank_event pm pj) (publish pj pj' m).
Proof. intros. by apply publish_emits. Qed.

Lemma deletePod_legal pm pj n u : emits (plank_event pm pj) (deletePod pj n u).
Proof. apply deletePod_emits; done. Qed.

Lemma time_out_legal pm pj m state n d u f :
  pj_State pj = PendingState → state ∈ [SuccessState; FailureState; ErrorState; AbortedState] →
  emits (plank_event pm pj) (time_out buildClients now delete_pod patch JobURL state n d u f pj m).
Proof.
  intros. unfold time_out. apply emits_bind; [apply emits_observe|]. intros t.
  apply emits_bind; [apply deletePod_legal|]. intros []; [apply emits_ret|].
  by apply publish_legal, legal_finish.
Qed.

Lemma observe_publish_legal pm pj m state d :
  pj_State pj = PendingState → state ∈ [SuccessState; FailureState; ErrorState; AbortedState] →
  emits (plank_event pm pj) (t ← observe now; publish pj (finish_job state d t pj) m).
Proof.
  intros. apply emits_bind; [apply emits_observe|]. intros t.
  by apply publish_legal, legal_finish.
Qed.

Lemma delete_wait_legal pm pj n u (m : pending_map) :
  emits (plank_event pm pj) (err ← deletePod pj n u; mret (m, err)).
Proof. apply emits_bind; [apply deletePod_legal | intros; apply emits_ret]. Qed.

Lemma syncPendingJob_legal pm pj m :
  pj_State pj = PendingState → Complete pj = false →
  emits (plank_event pm pj) (syncPendingJob pm pj m).
Proof.
  intros Hp Hc. unfold syncPendingJob. destruct (pm !! pj_Name pj) as [pod|] eqn:Hpm.
  - repeat match goal with
    | |- emits _ (if _ then _ else _) => apply emits_if; intros _
    end; try apply delete_wait_legal; try apply emits_ret;
    try (apply observe_publish_legal; [done | set_solver]).
    + apply emits_bind; [apply emits_observe|]. intros t. apply emits_if; intros _;
        [apply emits_ret | apply time_out_legal; [done | set_solver]].
    + apply emits_bind; [apply emits_observe|]. intros t. apply emits_if; intros _;
        [apply emits_ret | apply time_out_legal; [done | set_solver]].
  - unfold restart_missing. apply emits_bind.
    + by apply startPod_emits.
    + intros [[id pn]|[[] e]]; [|apply observe_publish_legal; [done | set_solver]|apply emits_ret].
      by apply publish_legal, legal_restart.
Qed.

Lemma advance_legal pm pj id pn m :
  pj_State pj = TriggeredState → Complete pj = false →
  emits (plank_event pm pj) (advance now patch JobURL pj id pn m).
Proof.
  intros Hp Hc. unfold advance. rewrite bool_decide_true by done.
  apply emits_bind; [apply emits_observe|]. intros t.
  assert (legal_patch pj (mark_pending JobURL id pn t pj)).
  { split; [done|]. split; [done|]. split; [done|].
    change (pj_State (mark_pending JobURL id pn t pj)) with PendingState.
    change (Complete (mark_pending JobURL id pn t pj)) with (Complete pj).
    rewrite Hp, Hc. split; [constructor|]. split; [done | by intros []]. }
  by apply publish_triggered_emits.
Qed.

Lemma syncTriggeredJob_legal pjs pm pj m :
  pj_State pj = TriggeredState → Complete pj = false →
  emits (plank_event pm pj) (syncTriggeredJob pjs pm pj m).
Proof.
  intros Hp Hc. unfold syncTriggeredJob. destruct (pm !! pj_Name pj) as [pod|] eqn:Hpm;
    [by apply advance_legal|].
  destruct (canExecuteConcurrently cfg pjs pj m) as [[] m']; cbn [negb]; [|apply emits_ret].
  apply emits_bind; [by apply startPod_emits|].
  intros [[id pn]|[[] e]]; [by apply advance_legal| |apply emits_ret].
  apply emits_bind; [apply emits_observe|]. intros t.
  assert (legal_patch pj (finish_job ErrorState "Job cannot be processed." t pj)).
  { split; [done|]. split; [done|]. split; [done|].
    change (pj_State (finish_job ErrorState _ t pj)) with ErrorState.
    rewrite Hp. split; [constructor|]. by split. }
  by apply publish_triggered_emits.
Qed.
End plank_lemmas.

(** ** Properties *)

Section plank_properties.
Context (cfg : PlankConfig) (buildClients : gset string)
  (now : list event → Time) (get_build_id : list event → result string)
  (create_pod : list event → create_answer) (delete_pod : list event → result unit)
  (patch : list event → result ProwJob)
  (ProwJobToPod : ProwJob → string → result unit) (JobURL : ProwJob → string).

(** The triggered phase of a sync. *)
Definition triggered_phase (pjs : list ProwJob) (pm : gmap string Pod)
    (jobs : list ProwJob) (m : pending_map) : M event (pending_map * list error) :=
  syncProwJobs (syncTriggeredJob cfg buildClients now get_build_id create_pod patch
    ProwJobToPod JobURL pjs pm) jobs m.

Definition pending_phase (pm : gmap string Pod) (jobs : list ProwJob) (m : pending_map)
    : M event (pending_map * list error) :=
  syncProwJobs (syncPendingJob cfg buildClients now get_build_id create_pod delete_pod
    patch ProwJobToPod JobURL pm) jobs m.

(** C18. The triggered phase respects the limits on running jobs, in whatever
    order the jobs are handled and however the outside answers: for a job name
    with a limit, the count that the pending phase left plus the pods the phase
    creates stays within the limit (unless the count was already above it, when
    nothing is created); and the total stays within the global limit. *)
Theorem triggered_phase_limits pjs pm jobs m tr lim :
  (∀ pj, pj ∈ jobs → spec_MaxConcurrency (pj_Spec pj) = lim (spec_Job (pj_Spec pj))) →
  let '(tr', (m', _)) := triggered_phase pjs pm jobs m tr in
  ∃ new, tr' = tr ++ new ∧
  (∀ job, num_pending m job +
      Z.of_nat (length (filter (λ e, creates_of job e = true) new)) ≤ num_pending m' job ∧
    (0 < lim job → num_pending m' job ≤ Z.max (lim job) (num_pending m job)))%Z ∧
  (0 < pl_MaxConcurrency cfg →
     total_pending m' ≤ Z.max (pl_MaxConcurrency cfg) (total_pending m))%Z.
Proof.
  unfold triggered_phase. revert m tr. induction jobs as [|pj jobs IH]; intros m tr Hlim; cbn.
  { exists []. rewrite app_nil_r. repeat split; cbn; intros; lia. }
  rewrite bind_app.
  pose proof (syncTriggeredJob_creates cfg buildClients now get_build_id create_pod patch
    ProwJobToPod JobURL pjs pm pj m tr) as Hone.
  pose proof (syncTriggeredJob_map cfg buildClients now get_build_id create_pod patch
    ProwJobToPod JobURL pjs pm pj m tr) as Hmap.
  destruct (syncTriggeredJob _ _ _ _ _ _ _ _ pjs pm pj m tr) as [tr1 [m1 err]].
  cbn [fst snd] in *. rewrite bind_app.
  assert (∀ p, p ∈ jobs → spec_MaxConcurrency (pj_Spec p) = lim (spec_Job (pj_Spec p)))
    as Hlim' by (intros p Hp; by apply Hlim, list_elem_of_further).
  specialize (IH m1 tr1 Hlim').
  destruct (syncProwJobs _ jobs m1 tr1) as [tr2 [m2 errs]]. cbn [fst snd].
  destruct IH as (new2 & -> & Hjobs & Htot).
  assert (∃ new1, tr1 = tr ++ new1 ∧ ∀ job,
    (Z.of_nat (length (filter (λ e, creates_of job e = true) new1))
      ≤ num_pending m1 job - num_pending m job)%Z) as (new1 & -> & Hnew1).
  { destruct (Hone EmptyString) as (new1 & -> & _). exists new1. split; [done|]. intros job.
    destruct (Hone job) as (new1' & Heq & ?). by apply app_inv_head in Heq as ->. }
  exists (new1 ++ new2). rewrite app_assoc. split; [done|].
  assert (Hpj : spec_MaxConcurrency (pj_Spec pj) = lim (spec_Job (pj_Spec pj)))
    by (apply Hlim, list_elem_of_here).
  split.
  - intros job. rewrite filter_app, length_app. specialize (Hjobs job) as [Hc Hl].
    specialize (Hnew1 job).
    pose proof (canExecuteConcurrently_limits cfg pjs pj m job) as (L1 & L2 & L3 & _).
    split; [lia|]. intros Hpos. specialize (Hl Hpos).
    destruct (pm !! pj_Name pj); [subst m1; lia|]. rewrite <-Hmap in *.
    destruct (decide (spec_Job (pj_Spec pj) = job)) as [<-|Hne];
      [rewrite Hpj in L2; specialize (L2 eq_refl Hpos)|specialize (L3 Hne)]; lia.
  - intros Hpos. specialize (Htot Hpos).
    pose proof (canExecuteConcurrently_limits cfg pjs pj m EmptyString) as (_ & _ & _ & L4).
    destruct (pm !! pj_Name pj); [subst m1; lia|]. rewrite <-Hmap in L4. lia.
Qed.

(** *** A whole sync *)

Context (get_job update_job : list event → result ProwJob) (github_report : list event → option error)
  `{GoRange} (list_jobs : list event → result (list ProwJob))
  (list_pods : string → list event → result (list Pod)).

Local Abbreviation setPreviousReportState := (setPreviousReportState get_job update_job).
Local Abbreviation report_all := (report_all get_job update_job github_report).
Local Abbreviation sync_listed := (sync_listed cfg buildClients now get_build_id create_pod delete_pod
  patch ProwJobToPod JobURL get_job update_job github_report).
Local Abbreviation Sync := (Sync cfg buildClients now get_build_id create_pod delete_pod
  patch ProwJobToPod JobURL get_job update_job github_report list_jobs list_pods).
Local Abbreviation terminateDupes := (terminateDupes cfg buildClients now delete_pod patch).

(** The API server answers a patch with the state that was asked for. *)
Definition patch_sound : Prop := ∀ tr src dst new,
  patch (tr ++ [EvPatch src dst]) = Ok new → pj_State new = pj_State dst ∧ Complete new = Complete dst.

(** Exactly the triggered and the pending jobs have no completion time. *)
Definition consistent (pj : ProwJob) : Prop :=
  (pj_State pj = TriggeredState ∨ pj_State pj = PendingState) ↔ Complete pj = false.

(** A listed job that is unfinished, possibly with a report noted by an abortion that
    failed. *)
Definition unfinished (items : list ProwJob) (pj : ProwJob) : Prop :=
  (pj_State pj = TriggeredState ∨ pj_State pj = PendingState) ∧
  ∃ q, q ∈ kubernetes_jobs items ∧ (pj = q ∨ pj = leak_prev_report q).

(** Superseded jobs are aborted, and their pods deleted where that is allowed. *)
Definition cancel_event (pm : gmap string Pod) (pj : ProwJob) (e : event) : Prop :=
  match e with
  | EvPatch src dst => src = pj ∧ pj_Name dst = pj_Name pj ∧ pj_Spec dst = pj_Spec pj ∧
      pj_CreationTimestamp dst = pj_CreationTimestamp pj ∧
      pj_State dst = AbortedState ∧ Complete dst = true
  | EvDeletePod cluster name => pl_AllowCancellations cfg = true ∧ cluster = ClusterAlias pj ∧
      ∃ pod, pm !! pj_Name pj = Some pod ∧ name = pod_Name pod
  | _ => False
  end.

(** What is reported to GitHub is what a job was moved to; noting it changes nothing else
    of the job as it is then. *)
Definition note_event (items : list ProwJob) (e : event) : Prop :=
  match e with
  | EvGitHubReport dst => ∃ pj, unfinished items pj ∧ legal_patch pj dst
  | EvGetJob name => ∃ pj, unfinished items pj ∧ name = pj_Name pj
  | EvUpdate dst => ∃ tr latest, get_job tr = Ok latest ∧ dst = note_reported latest
  | _ => False
  end.

Definition sync_event (items : list ProwJob) (pm : gmap string Pod) (e : event) : Prop :=
  (∃ pj, unfinished items pj ∧ plank_event pm pj e) ∨
  (∃ pj newer, superseded (kubernetes_jobs items) pj newer ∧ consistent pj ∧ cancel_event pm pj e) ∨
  note_event items e.

Lemma terminateDupes_legal pm jobs tr :
  patch_sound → Forall consistent jobs →
  ∃ new, (terminateDupes jobs pm tr).1 = tr ++ new ∧
    Forall (λ e, ∃ pj newer, superseded jobs pj newer ∧ consistent pj ∧ cancel_event pm pj e) new ∧
    Forall (left_over jobs (λ pj, pj_State pj = AbortedState)) (terminateDupes jobs pm tr).2.1.
Proof.
  intros Hpatch Hcons. rewrite Forall_forall in Hcons.
  assert (∀ p q, superseded jobs p q → consistent p) as Hc.
  { intros p q (i & _ & _ & Hi & _). by apply Hcons, list_elem_of_lookup_2 with i. }
  apply TerminateOlderJobs_run.
  - intros tr' src dst new Hn Hd. by destruct (Hpatch tr' src dst new Hn) as [_ ->].
  - intros p q Hs. unfold cancel_pod. apply emits_if; intros Ha; [|apply emits_ret].
    destruct (pm !! pj_Name p) as [pod|] eqn:Ep; [|apply emits_ret].
    apply emits_if; intros _; [|apply emits_ret]. apply emits_bind; [|intros; apply emits_ret].
    apply emits_call. exists p, q. split; [done|]. split; [by eapply Hc|]. cbn. eauto.
  - intros p q t Hs. apply emits_call. exists p, q. split; [done|]. split; [by eapply Hc|]. done.
  - intros tr' p t new Hn. by destruct (Hpatch tr' _ _ new Hn) as [-> _].
Qed.

Lemma phases_legal items pm jobs :
  Forall consistent (kubernetes_jobs items) →
  Forall (left_over (kubernetes_jobs items) (λ pj, pj_State pj = AbortedState)) jobs →
  emits (λ e, ∃ pj, unfinished items pj ∧ plank_event pm pj e)
    ('(m, errs1) ← pending_phase pm (PartitionActive jobs).1 ∅;
     '(m, errs2) ← triggered_phase jobs pm (PartitionActive jobs).2 m;
     mret (errs1, errs2)).
Proof.
  intros Hcons Hleft. rewrite Forall_forall in Hcons, Hleft.
  assert (∀ pj, pj ∈ jobs → pj_State pj = TriggeredState ∨ pj_State pj = PendingState →
    unfinished items pj ∧ Complete pj = false) as Hjob.
  { intros pj Hin Hst. destruct (Hleft pj Hin) as [Hi|[Ha|(q & Hq & ->)]].
    - split; [|by apply (Hcons pj)]. split; [done|]. exists pj. auto.
    - rewrite Ha in Hst. by destruct Hst.
    - split; [|by apply (Hcons q)]. split; [done|]. exists q. auto. }
  apply emits_bind; [|intros [m errs1]; apply emits_bind; [|intros []; apply emits_ret]].
  - eapply emits_impl; [|apply (syncProwJobs_emits (plank_event pm))].
    + intros e (pj & [Hs Hin]%list_elem_of_filter & He). exists pj. split; [|done]. apply Hjob; auto.
    + intros pj m [Hs Hin]%list_elem_of_filter. apply syncPendingJob_legal; [done|]. apply Hjob; auto.
  - eapply emits_impl; [|apply (syncProwJobs_emits (plank_event pm))].
    + intros e (pj & [Hs Hin]%list_elem_of_filter & He). exists pj. split; [|done]. apply Hjob; auto.
    + intros pj m' [Hs Hin]%list_elem_of_filter. apply syncTriggeredJob_legal; [done|]. apply Hjob; auto.
Qed.

Lemma reported_emits {A} (P : event → Prop) (m : M event A) tr :
  emits P m →
  ∃ new, (reported m tr).1 = tr ++ new ∧ Forall P new ∧
    Forall (λ pj, P (EvReport pj)) (reported m tr).2.2.
Proof.
  intros Hm. destruct (Hm tr) as (new & E & Hnew). exists new. unfold reported.
  destruct (m tr) as [tr' a]. cbn [fst snd] in *. subst tr'. split_and!; [done..|].
  rewrite drop_app_length. apply Forall_forall. intros pj (e & He & Hp)%list_elem_of_omap.
  destruct e; try done. injection Hp as <-. rewrite Forall_forall in Hnew. by apply Hnew.
Qed.

Lemma report_all_legal items reports :
  Forall (λ dst, ∃ pj, unfinished items pj ∧ legal_patch pj dst) reports →
  emits (note_event items) (report_all reports).
Proof.
  induction 1 as [|dst reports (pj & Hu & Hp) _ IH]; [apply emits_ret|]. cbn [Plank.report_all].
  apply emits_bind; [apply emits_call; by exists pj|intros err].
  apply emits_bind; [|intros u; apply emits_bind; [done|intros; apply emits_ret]].
  unfold setPreviousReportState. intros tr. rewrite bind_app. cbn [call fst snd].
  destruct (get_job _) as [latest|e] eqn:Eg; cbn [fst snd].
  - rewrite bind_app. cbn. eexists [_; _]. rewrite <- app_assoc. split; [done|].
    constructor; [|constructor; [|done]]; cbn; [|eauto]. exists pj. split; [done|]. apply Hp.
  - eexists [_]. split; [done|]. constructor; [|done]. exists pj. split; [done|]. apply Hp.
Qed.

End plank_properties.
