(* ===== verification/TidePool.v ===== *)
(** * Tide's pools (tide/tide.go: contexts, filtering, subpools, accumulation)

    From the pull requests a search found to subpools per branch, and the
    classification of a subpool's pull requests by the state of their tests.
    GitHub's and the cluster's read-only answers during one sync are functions;
    files changed by a pull request come through a provider (the cache behind it
    is modelled in [TideCache]). *)

From S2P Require Import Prelude Api JobConfig BranchProtection TideTypes TideConfig.
#[local] Open Scope go_scope.

Definition statusContext : string := "tide".

Record subpool := mkSubpool {
  sp_org : string; sp_repo : string; sp_branch : string; sp_sha : string;
  sp_pjs : list ProwJob; sp_prs : list PullRequest;
  sp_cc : gmap Z contextChecker; sp_presubmits : gmap Z (list Presubmit) }.

Definition set_prs (prs : list PullRequest) (sp : subpool) : subpool :=
  mkSubpool (sp_org sp) (sp_repo sp) (sp_branch sp) (sp_sha sp) (sp_pjs sp) prs
    (sp_cc sp) (sp_presubmits sp).
Definition set_pjs (pjs : list ProwJob) (sp : subpool) : subpool :=
  mkSubpool (sp_org sp) (sp_repo sp) (sp_branch sp) (sp_sha sp) pjs (sp_prs sp)
    (sp_cc sp) (sp_presubmits sp).
Definition set_data (presubmits : gmap Z (list Presubmit)) (cc : gmap Z contextChecker)
    (sp : subpool) : subpool :=
  mkSubpool (sp_org sp) (sp_repo sp) (sp_branch sp) (sp_sha sp) (sp_pjs sp) (sp_prs sp)
    cc presubmits.

(** Calling a method of the nil [contextChecker] would panic; [initSubpoolData]
    gives every pull request of the subpool a checker. *)
Definition nil_checker : contextChecker := mkContextChecker (λ _, false) (λ _, []).
Definition checker_of (cc : gmap Z contextChecker) (pr : PullRequest) : contextChecker :=
  default nil_checker (cc !! pr_Number pr).

Definition presubmits_of (presubmits : gmap Z (list Presubmit)) (pr : PullRequest)
    : list Presubmit :=
  default [] (presubmits !! pr_Number pr).

(** ** Status contexts *)

Section contexts.
(** [GetCombinedStatus org repo sha]: (context, description, state) of each status. *)
Context (GetCombinedStatus : string → string → string → result (list (string * string * string))).

(** The contexts of the head commit, and the pull request with a commit added
    for future look-ups if GitHub had to be asked. *)
Definition headContexts (pr : PullRequest) : PullRequest * result (list Context) :=
  match list_find (λ c, cm_OID c = pr_HeadRefOID pr) (pr_Commits pr) with
  | Some (_, c) => (pr, Ok (cm_Contexts c))
  | None =>
      match wrap_err "failed to get the combined status: %v"
              (GetCombinedStatus (pr_OwnerLogin pr) (pr_RepoName pr) (pr_HeadRefOID pr)) with
      | Err e => (pr, Err e)
      | Ok statuses =>
          let contexts := (λ '(c, d, s), mkContext c d (to_upper s)) <$> statuses in
          (set_commits (pr_Commits pr ++ [mkCommit (pr_HeadRefOID pr) contexts]) pr, Ok contexts)
      end
  end.

Definition unsuccessful (cc : contextChecker) (ctx : Context) : bool :=
  bool_decide (ctx_Context ctx ≠ statusContext) &&
  negb (IsOptional cc (ctx_Context ctx)) &&
  bool_decide (ctx_State ctx ≠ StatusStateSuccess).

Definition unsuccessfulContexts (contexts : list Context) (cc : contextChecker) : list Context :=
  filter (λ ctx, unsuccessful cc ctx = true) contexts ++
  (newExpectedContext <$> MissingRequiredContexts cc (contextsToStrings contexts)).

Definition isPassingTests (pr : PullRequest) (cc : contextChecker) : bool :=
  match (headContexts pr).2 with
  | Err _ => false
  | Ok contexts => bool_decide (length (unsuccessfulContexts contexts cc) = 0)
  end.

(** ** Filtering *)

Definition presubmitsHaveContext (sp : subpool) (pr : PullRequest) (context : string) : bool :=
  existsb (λ job, bool_decide (ps_Context job = context)) (presubmits_of (sp_presubmits sp) pr).

(** The pull request as [headContexts] left it, and whether to filter it out. *)
Definition filterPR (sp : subpool) (pr : PullRequest) : PullRequest * bool :=
  if bool_decide (pr_Mergeable pr = MergeableStateConflicting) then (pr, true)
  else
    let '(pr, contexts) := headContexts pr in
    match contexts with
    | Err _ => (pr, true)
    | Ok contexts =>
        (pr, existsb (λ ctx, bool_decide (ctx_State ctx ≠ StatusStatePending) ||
                             negb (presubmitsHaveContext sp pr (ctx_Context ctx)))
               (unsuccessfulContexts contexts (checker_of (sp_cc sp) pr)))
    end.

Definition filterSubpool (sp : subpool) : option subpool :=
  let toKeep := omap (λ pr, let '(pr', out) := filterPR sp pr in
                            if out : bool then None else Some pr') (sp_prs sp) in
  match toKeep with
  | [] => None
  | _ => Some (set_prs toKeep sp)
  end.

(** The first-come smallest number among the passing pull requests that have
    commits. *)
Definition pick_candidate (cc : gmap Z contextChecker) (pr : PullRequest) : bool :=
  bool_decide (pr_Commits pr ≠ []) && isPassingTests pr (checker_of cc pr).

Definition pickSmallestPassingNumber (prs : list PullRequest) (cc : gmap Z contextChecker)
    : option PullRequest :=
  let '(smallestNumber, smallestPR) := foldl (λ '(smallestNumber, smallestPR) pr,
    if bool_decide (smallestNumber ≠ -1 ∧ smallestNumber ≤ pr_Number pr)%Z
    then (smallestNumber, smallestPR)
    else if negb (pick_candidate cc pr) then (smallestNumber, smallestPR)
    else (pr_Number pr, Some pr)) ((-1)%Z, None) prs in
  if bool_decide (-1 < smallestNumber)%Z then smallestPR else None.
End contexts.

(** ** From pull requests to subpools *)

Definition poolKey (org repo branch : string) : string :=
  org +:+ "/" +:+ repo +:+ ":" +:+ branch.

Definition cacheIndexKey (org repo branch baseSHA : string) : string :=
  org +:+ "/" +:+ repo +:+ ":" +:+ branch +:+ "@" +:+ baseSHA.

(** The index only lists presubmit and batch jobs that have refs. *)
Definition cacheIndexFunc (pj : ProwJob) : list string :=
  if bool_decide (spec_Type (pj_Spec pj) ≠ PresubmitJob ∧ spec_Type (pj_Spec pj) ≠ BatchJob)
  then []
  else match spec_Refs (pj_Spec pj) with
       | None => []
       | Some r => [cacheIndexKey (refs_Org r) (refs_Repo r) (refs_BaseRef r) (refs_BaseSHA r)]
       end.

Definition pr_key (pr : PullRequest) : string :=
  poolKey (pr_OwnerLogin pr) (pr_RepoName pr) (pr_BaseRefName pr).
Definition sp_key (sp : subpool) : string := poolKey (sp_org sp) (sp_repo sp) (sp_branch sp).

Section divide.
Context `{GoRange}.
(** [GetRef org repo ref], and the ProwJobs the index has under a key. *)
Context (GetRef : string → string → string → result string)
        (ListProwJobs : string → result (list ProwJob)).

(** The ref asked for is the pull request's branch ref without [refs/]. *)
Definition base_ref (pr : PullRequest) : string :=
  trim_prefix "refs/" (pr_BaseRefPrefix pr +:+ pr_BaseRefName pr).

Definition new_subpool (pr : PullRequest) : result subpool :=
  let? sha := GetRef (pr_OwnerLogin pr) (pr_RepoName pr) (base_ref pr) in
  Ok (mkSubpool (pr_OwnerLogin pr) (pr_RepoName pr) (pr_BaseRefName pr) sha [] [] ∅ ∅).

Definition add_to_subpool (sps : gmap string subpool) (pr : PullRequest)
    : result (gmap string subpool) :=
  let fn := pr_key pr in
  let? sp := match sps !! fn with
             | Some sp => Ok sp
             | None => new_subpool pr
             end in
  Ok (<[fn := set_prs (sp_prs sp ++ [pr]) sp]> sps).

Definition list_subpool (ksp : string * subpool) : result (string * subpool) :=
  let '(subpoolkey, sp) := ksp in
  let? items := wrap_args "failed to list jobs for subpool %s: %v" [AStr subpoolkey]
    (ListProwJobs (cacheIndexKey (sp_org sp) (sp_repo sp) (sp_branch sp) (sp_sha sp))) in
  Ok (subpoolkey, set_pjs items sp).

Definition dividePool (pool : gmap string PullRequest) : result (gmap string subpool) :=
  let? sps := rfold add_to_subpool ∅ (map_range pool).*2 in
  let? listed := rmap list_subpool (map_range sps) in
  Ok (list_to_map listed).
End divide.

(** ** The jobs a pull request or a batch needs *)

Section presubmits.
Context `{GoRange} (c : Config).
(** The provider of a pull request's changed files. *)
Context (prChanges : PullRequest → ChangedFilesProvider).

Definition refGetterFactory (ref : string) : RefGetter := λ _, Ok ref.

Definition needs_run (branch : string) (changes : ChangedFilesProvider) (ps : Presubmit)
    : result bool :=
  if negb (ContextRequired ps) then Ok false
  else Presubmit_ShouldRun ps branch changes false false.

Definition record (num : Z) (presubmits : gmap Z (list Presubmit)) (job : Presubmit)
    : gmap Z (list Presubmit) :=
  match presubmits !! num with
  | Some jobs => <[num := jobs ++ [job]]> presubmits
  | None => <[num := [job]]> presubmits
  end.

Definition presubmits_for_pull (sp : subpool) (pr : PullRequest) : result (list Presubmit) :=
  let? presubmitsForPull :=
    wrap_args "failed to get presubmits for PR %d: %v" [AInt (pr_Number pr)]
      (GetPresubmits c (sp_org sp +:+ "/" +:+ sp_repo sp) (refGetterFactory (sp_sha sp))
         [refGetterFactory (pr_HeadRefOID pr)]) in
  rfilter (needs_run (sp_branch sp) (prChanges pr)) presubmitsForPull.

Definition presubmitsByPull (sp : subpool) : result (gmap Z (list Presubmit)) :=
  rfold (λ presubmits pr,
    let? required := presubmits_for_pull sp pr in
    Ok (foldl (record (pr_Number pr)) presubmits required)) ∅ (sp_prs sp).

(** [batchChanges]: the union, in order, stopping at the first error. *)
Definition batchChanges (prs : list PullRequest) : ChangedFilesProvider := λ _,
  let? result := rfold (λ (result : gset string) pr,
    let? changes := prChanges pr tt in Ok (result ∪ set_of changes)) ∅ prs in
  Ok (set_list result).

Definition presubmitsForBatch (prs : list PullRequest) (org repo baseSHA baseBranch : string)
    : result (list Presubmit) :=
  let? presubmits := wrap_err "failed to get presubmits for batch: %v"
    (GetPresubmits c (org +:+ "/" +:+ repo) (refGetterFactory baseSHA)
       ((λ pr, refGetterFactory (pr_HeadRefOID pr)) <$> prs)) in
  rfilter (needs_run baseBranch (batchChanges prs)) presubmits.

Definition initSubpoolData (sp : subpool) : result subpool :=
  let? presubmits := wrap_err "error determining required presubmit prowjobs: %v"
                       (presubmitsByPull sp) in
  let? cc := rfold (λ (cc : gmap Z contextChecker) pr,
    let? policy := wrap_args "error setting up context checker for pr %d: %v"
      [AInt (pr_Number pr)]
      (GetTideContextPolicy c (sp_org sp) (sp_repo sp) (sp_branch sp)
         (refGetterFactory (sp_sha sp)) (pr_HeadRefOID pr)) in
    Ok (<[pr_Number pr := policy_checker policy]> cc)) ∅ (sp_prs sp) in
  Ok (set_data presubmits cc sp).
End presubmits.

(** [filterSubpools], the subpools processed one by one: the goroutines share
    nothing but the locked result map. *)
Definition filterSubpools `{GoRange} (c : Config)
    (GetCombinedStatus : string → string → string → result (list (string * string * string)))
    (prChanges : PullRequest → ChangedFilesProvider)
    (raw : gmap string subpool) : gmap string subpool :=
  foldl (λ filtered sp,
    match initSubpoolData c prChanges sp with
    | Err _ => filtered
    | Ok sp => match filterSubpool GetCombinedStatus sp with
               | Some spFiltered => <[sp_key sp := spFiltered]> filtered
               | None => filtered
               end
    end) ∅ (map_range raw).*2.

(** ** What the status controller is told *)

Definition baseSHAMap (subpoolMap : gmap string subpool) : gmap string string :=
  sp_sha <$> subpoolMap.

Definition poolPRMap `{GoRange} (subpoolMap : gmap string subpool) : gmap string PullRequest :=
  foldl (λ prs sp, foldl (λ prs pr, <[prKey pr := pr]> prs) prs (sp_prs sp)) ∅
    (map_range subpoolMap).*2.

Definition requiredContextsMap `{GoRange} (subpoolMap : gmap string subpool)
    : gmap string (list string) :=
  foldl (λ m sp, foldl (λ m pr,
      <[prKey pr := set_list (set_of (ps_Context <$> presubmits_of (sp_presubmits sp) pr))]> m)
    m (sp_prs sp)) ∅ (map_range subpoolMap).*2.

(** ** Accumulating test results *)

Inductive simpleState : Type := failureState | pendingState | successState.
#[export] Instance simpleState_eq_dec : EqDecision simpleState.
Proof. solve_decision. Defined.

Definition toSimpleState (s : ProwJobState) : simpleState :=
  if bool_decide (s = TriggeredState ∨ s = PendingState) then pendingState
  else if bool_decide (s = SuccessState) then successState
  else failureState.

(** [pj.Spec.Refs.Pulls[0]]: reading it panics without refs or pulls. *)
Definition first_pull (pj : ProwJob) : option Pull :=
  r ← spec_Refs (pj_Spec pj); head (refs_Pulls r).

(** One job of the inner loop: [None] is the panic. *)
Definition note_job (pr : PullRequest) (psStates : gmap string simpleState) (pj : ProwJob)
    : may_panic (gmap string simpleState) :=
  if bool_decide (spec_Type (pj_Spec pj) ≠ PresubmitJob) then Some psStates
  else
    pull ← first_pull pj;
    if bool_decide (pull_Number pull ≠ pr_Number pr) then Some psStates
    else if bool_decide (pull_SHA pull ≠ pr_HeadRefOID pr) then Some psStates
    else
      let name := spec_Context (pj_Spec pj) in
      let newState := toSimpleState (pj_State pj) in
      Some (match psStates !! name with
            | None | Some failureState => <[name := newState]> psStates
            | Some pendingState =>
                if bool_decide (newState = successState)
                then <[name := successState]> psStates else psStates
            | Some successState => psStates
            end).

Fixpoint note_jobs (pr : PullRequest) (psStates : gmap string simpleState)
    (pjs : list ProwJob) : may_panic (gmap string simpleState) :=
  match pjs with
  | [] => Some psStates
  | pj :: pjs => psStates ← note_job pr psStates pj; note_jobs pr psStates pjs
  end.

(** One required presubmit: the overall state and the missing tests so far. *)
Definition note_required (num : Z) (psStates : gmap string simpleState)
    (acc : simpleState * gmap Z (list Presubmit)) (ps : Presubmit)
    : simpleState * gmap Z (list Presubmit) :=
  let '(overallState, missingTests) := acc in
  match psStates !! ps_Context ps with
  | None => (overallState, map_append num ps missingTests)
  | Some failureState => (overallState, map_append num ps missingTests)
  | Some pendingState => (pendingState, missingTests)
  | Some successState => (overallState, missingTests)
  end.

Record buckets := mkBuckets {
  bk_successes : list PullRequest; bk_pendings : list PullRequest;
  bk_missings : list PullRequest; bk_missingTests : gmap Z (list Presubmit) }.

Definition accumulate_pr (presubmits : gmap Z (list Presubmit)) (pjs : list ProwJob)
    (b : buckets) (pr : PullRequest) : may_panic buckets :=
  psStates ← note_jobs pr ∅ pjs;
  let '(overallState, missingTests) :=
    foldl (note_required (pr_Number pr) psStates) (successState, bk_missingTests b)
      (presubmits_of presubmits pr) in
  let overallState :=
    if bool_decide (default [] (missingTests !! pr_Number pr) ≠ []) then failureState
    else overallState in
  Some (match overallState with
        | successState => mkBuckets (bk_successes b ++ [pr]) (bk_pendings b)
                            (bk_missings b) missingTests
        | pendingState => mkBuckets (bk_successes b) (bk_pendings b ++ [pr])
                            (bk_missings b) missingTests
        | failureState => mkBuckets (bk_successes b) (bk_pendings b)
                            (bk_missings b ++ [pr]) missingTests
        end).

Fixpoint accumulate_from (presubmits : gmap Z (list Presubmit)) (pjs : list ProwJob)
    (b : buckets) (prs : list PullRequest) : may_panic buckets :=
  match prs with
  | [] => Some b
  | pr :: prs => b ← accumulate_pr presubmits pjs b pr; accumulate_from presubmits pjs b prs
  end.

Definition accumulate (presubmits : gmap Z (list Presubmit)) (prs : list PullRequest)
    (pjs : list ProwJob) : may_panic buckets :=
  accumulate_from presubmits pjs (mkBuckets [] [] [] ∅) prs.

(** ** Filtering: what a pull request needs to stay in the pool *)

Section filter_proofs.
Context (GetCombinedStatus : string → string → string → result (list (string * string * string))).
Notation headContexts := (headContexts GetCombinedStatus).

Lemma headContexts_number pr : pr_Number (headContexts pr).1 = pr_Number pr.
Proof.
  unfold TidePool.headContexts. destruct (list_find _ _) as [[? ?]|]; [done|].
  by destruct (wrap_err _ _).
Qed.

Lemma elem_of_unsuccessful contexts cc ctx :
  ctx ∈ unsuccessfulContexts contexts cc ↔
  (ctx ∈ contexts ∧ ctx_Context ctx ≠ statusContext ∧
   IsOptional cc (ctx_Context ctx) = false ∧ ctx_State ctx ≠ StatusStateSuccess) ∨
  (∃ m, m ∈ MissingRequiredContexts cc (contextsToStrings contexts) ∧
        ctx = newExpectedContext m).
Proof.
  unfold unsuccessfulContexts, unsuccessful.
  rewrite elem_of_app, list_elem_of_filter, list_elem_of_fmap,
    !andb_true_iff, negb_true_iff, !bool_decide_eq_true. naive_solver.
Qed.

(** [sp] keeps [pr0], as the head commit look-up leaves it in [pr]. *)
Record admitted (sp : subpool) (pr0 pr : PullRequest) (contexts : list Context) : Prop := {
  ad_mergeable : pr_Mergeable pr0 ≠ MergeableStateConflicting;
  ad_head : headContexts pr0 = (pr, Ok contexts);
  ad_missing : MissingRequiredContexts (checker_of (sp_cc sp) pr)
                 (contextsToStrings contexts) = [];
  ad_contexts ctx : ctx ∈ contexts → ctx_Context ctx ≠ statusContext →
    IsOptional (checker_of (sp_cc sp) pr) (ctx_Context ctx) = false →
    ctx_State ctx = StatusStateSuccess ∨
    (ctx_State ctx = StatusStatePending ∧
     ∃ job, job ∈ presubmits_of (sp_presubmits sp) pr ∧ ps_Context job = ctx_Context ctx) }.

Lemma presubmitsHaveContext_spec sp pr context :
  presubmitsHaveContext sp pr context = true ↔
  ∃ job, job ∈ presubmits_of (sp_presubmits sp) pr ∧ ps_Context job = context.
Proof.
  unfold presubmitsHaveContext. rewrite existsb_exists.
  by setoid_rewrite bool_decide_eq_true; setoid_rewrite list_elem_of_In.
Qed.

Lemma filterPR_keeps sp pr0 pr :
  filterPR GetCombinedStatus sp pr0 = (pr, false) ↔ ∃ contexts, admitted sp pr0 pr contexts.
Proof.
  unfold filterPR. case_bool_decide as Hm.
  { split; [done|]. intros [? [? ? ? ?]]. done. }
  destruct (headContexts pr0) as [pr1 [contexts|e]] eqn:Eh; cbn -[unsuccessfulContexts].
  2: { split; [done|]. intros [? [_ Hh _ _]]. congruence. }
  split.
  - intros [= -> Hex]. rewrite existsb_false in Hex. exists contexts.
    split; [done|done| |].
    + destruct (MissingRequiredContexts _ _) as [|m ms] eqn:E; [done|].
      assert (newExpectedContext m ∈ unsuccessfulContexts contexts (checker_of (sp_cc sp) pr))
        as Hin by (apply elem_of_unsuccessful; right; exists m; rewrite E; set_solver).
      by specialize (Hex _ Hin).
    + intros ctx Hctx Hne Hopt.
      destruct (decide (ctx_State ctx = StatusStateSuccess)) as [|Hs]; [by left|right].
      specialize (Hex ctx). rewrite elem_of_unsuccessful in Hex.
      specialize (Hex (or_introl (conj Hctx (conj Hne (conj Hopt Hs))))).
      apply orb_false_iff in Hex as [Hp%bool_decide_eq_false Hh%negb_false_iff].
      apply presubmitsHaveContext_spec in Hh. split; [|done]. by apply dec_stable.
  - intros [cs [_ Hh Hmiss Hall]]. rewrite Eh in Hh. injection Hh as -> ->. f_equal.
    apply existsb_false. intros ctx [(Hin & Hne & Hopt & Hs)|(m & Hin & ->)]%elem_of_unsuccessful.
    + destruct (Hall ctx Hin Hne Hopt) as [?|[Hp Hj]]; [done|].
      apply presubmitsHaveContext_spec in Hj. rewrite Hj, Hp. by cbn.
    + rewrite Hmiss in Hin. by apply elem_of_nil in Hin.
Qed.

Definition pool_prs (sp : option subpool) : list PullRequest := from_option sp_prs [] sp.

Lemma filterSubpool_ok sp :
  (∀ pr, pr ∈ pool_prs (filterSubpool GetCombinedStatus sp) ↔
         ∃ pr0 contexts, pr0 ∈ sp_prs sp ∧ admitted sp pr0 pr contexts) ∧
  (filterSubpool GetCombinedStatus sp = None ↔
     ¬ ∃ pr0 pr contexts, pr0 ∈ sp_prs sp ∧ admitted sp pr0 pr contexts) ∧
  (∀ sp', filterSubpool GetCombinedStatus sp = Some sp' → sp' = set_prs (sp_prs sp') sp).
Proof.
  set (keep := omap (λ pr, let '(pr', out) := filterPR GetCombinedStatus sp pr in
                           if out : bool then None else Some pr') (sp_prs sp)).
  assert (∀ pr, pr ∈ keep ↔ ∃ pr0 contexts, pr0 ∈ sp_prs sp ∧ admitted sp pr0 pr contexts) as Hk.
  { intros pr. unfold keep. rewrite list_elem_of_omap. split.
    - intros (pr0 & Hin & Ho). exists pr0.
      destruct (filterPR _ _ _) as [pr1 []] eqn:E; [done|]. injection Ho as ->.
      apply filterPR_keeps in E as [cs Had]. by exists cs.
    - intros (pr0 & cs & Hin & Had). exists pr0. split; [done|].
      assert (filterPR GetCombinedStatus sp pr0 = (pr, false)) as ->; [|done].
      apply filterPR_keeps. by exists cs. }
  assert (filterSubpool GetCombinedStatus sp =
    match keep with [] => None | _ => Some (set_prs keep sp) end) as -> by done.
  split_and!.
  - intros pr. rewrite <-Hk. by destruct keep.
  - destruct keep as [|k ks]; split; try done.
    + intros _ (pr0 & pr & cs & Hin & Had).
      assert (pr ∈ @nil PullRequest) as []%elem_of_nil. apply Hk. eauto.
    + intros Hn. exfalso. apply Hn. destruct (proj1 (Hk k)) as (pr0 & cs & ? & ?); [set_solver|].
      by exists pr0, k, cs.
  - intros sp' Hsp. destruct keep; [done|]. by injection Hsp as <-.
Qed.

(** C14. A subpool keeps exactly the pull requests that have no known conflict, no
    missing required context, and whose other contexts (Tide's own and optional
    ones apart) are green, or pending while a presubmit of the pull request
    reports that context; a subpool nobody stays in is dropped, and filtering
    changes nothing else. *)
Theorem filterSubpool_spec sp :
  (∀ pr, pr ∈ pool_prs (filterSubpool GetCombinedStatus sp) ↔
         ∃ pr0 contexts, pr0 ∈ sp_prs sp ∧ admitted sp pr0 pr contexts) ∧
  (filterSubpool GetCombinedStatus sp = None ↔
     ¬ ∃ pr0 pr contexts, pr0 ∈ sp_prs sp ∧ admitted sp pr0 pr contexts) ∧
  (∀ sp', filterSubpool GetCombinedStatus sp = Some sp' → sp' = set_prs (sp_prs sp') sp).
Proof. apply filterSubpool_ok. Qed.
End filter_proofs.

(** ** Accumulation, against a declarative reading of the jobs' results *)

Section accumulate_proofs.
(** The jobs that test [pr] at its current head. *)
Definition tests_pr (pr : PullRequest) (pj : ProwJob) : Prop :=
  spec_Type (pj_Spec pj) = PresubmitJob ∧
  from_option (λ p, pull_Number p = pr_Number pr ∧ pull_SHA p = pr_HeadRefOID pr) False
    (first_pull pj).
#[local] Instance tests_pr_dec pr pj : Decision (tests_pr pr pj).
Proof. unfold tests_pr. destruct (first_pull pj); cbn; apply _. Defined.

(** What they say about one context, oldest listed first. *)
Definition results (pjs : list ProwJob) (pr : PullRequest) (context : string)
    : list simpleState :=
  (λ pj, toSimpleState (pj_State pj)) <$>
    filter (λ pj, tests_pr pr pj ∧ spec_Context (pj_Spec pj) = context) pjs.

Definition green (pjs : list ProwJob) (pr : PullRequest) (ps : Presubmit) : Prop :=
  successState ∈ results pjs pr (ps_Context ps).
(** Neither a success nor a job still to come. *)
Definition needs_test (pjs : list ProwJob) (pr : PullRequest) (ps : Presubmit) : Prop :=
  successState ∉ results pjs pr (ps_Context ps) ∧
  pendingState ∉ results pjs pr (ps_Context ps).
#[local] Instance green_dec pjs pr ps : Decision (green pjs pr ps).
Proof. unfold green. apply _. Defined.
#[local] Instance needs_test_dec pjs pr ps : Decision (needs_test pjs pr ps).
Proof. unfold needs_test. apply _. Defined.

Definition join (best : option simpleState) (s : simpleState) : option simpleState :=
  match best with
  | None | Some failureState => Some s
  | Some pendingState => if bool_decide (s = successState) then Some successState else best
  | Some successState => best
  end.

Lemma join_fold l best :
  (foldl join best l = Some successState ↔ best = Some successState ∨ successState ∈ l) ∧
  (foldl join best l = Some pendingState ↔
     ¬ (best = Some successState ∨ successState ∈ l) ∧
     (best = Some pendingState ∨ pendingState ∈ l)).
Proof.
  revert best. induction l as [|s l IH]; intros best; cbn [foldl].
  { rewrite !elem_of_nil. intuition congruence. }
  destruct (IH (join best s)) as [-> ->]. rewrite !elem_of_cons.
  destruct best as [[]|], s; cbn; intuition congruence.
Qed.

Lemma best_spec pjs pr c best :
  foldl join None (results pjs pr c) = best →
  (best = Some successState ↔ successState ∈ results pjs pr c) ∧
  (best = Some pendingState ↔
     successState ∉ results pjs pr c ∧ pendingState ∈ results pjs pr c).
Proof.
  intros <-. destruct (join_fold (results pjs pr c) None) as [-> ->].
  intuition congruence.
Qed.

Definition jobs_have_pulls (pjs : list ProwJob) : Prop :=
  Forall (λ pj, spec_Type (pj_Spec pj) = PresubmitJob → is_Some (first_pull pj)) pjs.

Lemma results_single pj pr c :
  results [pj] pr c =
    if decide (tests_pr pr pj ∧ spec_Context (pj_Spec pj) = c)
    then [toSimpleState (pj_State pj)] else [].
Proof. unfold results. rewrite filter_cons, filter_nil. by case_decide. Qed.

Lemma note_job_spec pr m pj :
  (spec_Type (pj_Spec pj) = PresubmitJob → is_Some (first_pull pj)) →
  ∃ m', note_job pr m pj = Some m' ∧
    ∀ c, m' !! c = foldl join (m !! c) (results [pj] pr c).
Proof.
  intros Hp. unfold note_job. setoid_rewrite results_single. case_bool_decide as Ht.
  { exists m. split; [done|]. intros c. rewrite decide_False; [done|]. intros [[? _] _]. done. }
  destruct (Hp Ht) as [pull Hpull]. rewrite Hpull. cbn.
  case_bool_decide as Hn; [|case_bool_decide as Hs].
  1,2: exists m; split; [done|]; intros c; rewrite decide_False; [done|];
       intros [[_ Hx] _]; rewrite Hpull in Hx; cbn in Hx; naive_solver.
  eexists. split; [done|]. intros c.
  assert (tests_pr pr pj) as Htests.
  { split; [done|]. rewrite Hpull. cbn. by split. }
  destruct (decide (spec_Context (pj_Spec pj) = c)) as [<-|Hc].
  - rewrite decide_True by done. cbn. set (s := toSimpleState _).
    destruct (m !! _) as [[]|] eqn:E; cbn; rewrite ?lookup_insert_eq, ?E; try done.
    case_bool_decide; by rewrite ?lookup_insert_eq, ?E.
  - rewrite decide_False by naive_solver. cbn.
    destruct (m !! spec_Context _) as [[]|]; try case_bool_decide; by rewrite ?lookup_insert_ne.
Qed.

Lemma note_jobs_spec pr m pjs :
  jobs_have_pulls pjs →
  ∃ m', note_jobs pr m pjs = Some m' ∧ ∀ c, m' !! c = foldl join (m !! c) (results pjs pr c).
Proof.
  intros Hp. revert m. induction Hp as [|pj pjs Hpj _ IH]; intros m; cbn [note_jobs].
  { by exists m. }
  destruct (note_job_spec pr m pj Hpj) as (m1 & -> & H1). cbn.
  destruct (IH m1) as (m2 & -> & H2). exists m2. split; [done|]. intros c.
  rewrite H2, H1, <-foldl_app. f_equal. unfold results. by rewrite <-fmap_app, <-filter_app.
Qed.

Lemma note_required_spec pjs pr m s0 mt required :
  (∀ c, m !! c = foldl join None (results pjs pr c)) →
  s0 ≠ failureState →
  let '(s, mt') := foldl (note_required (pr_Number pr) m) (s0, mt) required in
  default [] (mt' !! pr_Number pr) =
    default [] (mt !! pr_Number pr) ++ filter (needs_test pjs pr) required ∧
  (∀ j, j ≠ pr_Number pr → mt' !! j = mt !! j) ∧
  (Forall (λ ps, ¬ needs_test pjs pr ps) required →
   s = if decide (Forall (green pjs pr) required) then s0 else pendingState).
Proof.
  intros Hm. revert s0 mt. induction required as [|ps required IH]; intros s0 mt Hs0; cbn [foldl].
  { rewrite filter_nil, app_nil_r. repeat split. }
  destruct (best_spec pjs pr (ps_Context ps) (m !! ps_Context ps)) as [Hsucc Hpend]; [done|].
  rewrite filter_cons.
  assert (green pjs pr ps ↔ m !! ps_Context ps = Some successState) as Hg by done.
  assert (needs_test pjs pr ps ↔ m !! ps_Context ps = None ∨
            m !! ps_Context ps = Some failureState) as Hneeds.
  { unfold needs_test. destruct (m !! ps_Context ps) as [[]|]; intuition congruence. }
  unfold note_required at 2.
  destruct (m !! ps_Context ps) as [[]|] eqn:E.
  all: match goal with |- context [foldl _ (?s1, ?mt1) ?req] =>
         specialize (IH s1 mt1); destruct (foldl _ (s1, mt1) req) as [s mt'];
         destruct IH as (IH1 & IH2 & IH3); [done|] end.
  all: rewrite ?decide_True by tauto; rewrite ?decide_False by (rewrite Hneeds; intuition congruence).
  all: rewrite IH1; rewrite ?lookup_map_append, ?decide_True, <-?app_assoc by done.
  all: split_and!; [done| |].
  all: try (intros j Hj; rewrite IH2 by done; try done; unfold map_append;
            by rewrite lookup_insert_ne by congruence).
  all: intros [Hn Hf]%Forall_cons; rewrite ?Hneeds in Hn;
       try (destruct Hn; first [by left | by right]).
  - rewrite IH3 by done. rewrite (decide_False (P := Forall _ (ps :: _))).
    + by case_decide.
    + intros [Hgr _]%Forall_cons. by apply Hg in Hgr.
  - rewrite IH3 by done. apply decide_ext. rewrite Forall_cons, Hg. tauto.
Qed.

Definition passing (presubmits : gmap Z (list Presubmit)) (pjs : list ProwJob)
    (pr : PullRequest) : Prop :=
  Forall (green pjs pr) (presubmits_of presubmits pr).
Definition retest (presubmits : gmap Z (list Presubmit)) (pjs : list ProwJob)
    (pr : PullRequest) : list Presubmit :=
  filter (needs_test pjs pr) (presubmits_of presubmits pr).
Definition waiting (presubmits : gmap Z (list Presubmit)) (pjs : list ProwJob)
    (pr : PullRequest) : Prop :=
  retest presubmits pjs pr = [] ∧ ¬ passing presubmits pjs pr.
#[export] Instance passing_dec presubmits pjs pr : Decision (passing presubmits pjs pr).
Proof. unfold passing. apply _. Defined.
#[export] Instance retest_nil_dec presubmits pjs pr : Decision (retest presubmits pjs pr = []).
Proof. destruct (retest presubmits pjs pr); [by left | by right]. Defined.
#[export] Instance waiting_dec presubmits pjs pr : Decision (waiting presubmits pjs pr).
Proof. unfold waiting. apply _. Defined.

Lemma passing_retest presubmits pjs pr :
  passing presubmits pjs pr → retest presubmits pjs pr = [].
Proof.
  unfold passing, retest. induction 1 as [|ps l Hg _ IH]; [done|].
  rewrite filter_cons, decide_False; [done|]. intros [Hn _]. by apply Hn.
Qed.

Lemma retest_nil presubmits pjs pr :
  retest presubmits pjs pr = [] ↔
  Forall (λ ps, ¬ needs_test pjs pr ps) (presubmits_of presubmits pr).
Proof.
  unfold retest. induction (presubmits_of presubmits pr) as [|ps l IH]; [by split|].
  rewrite filter_cons, Forall_cons, <-IH. case_decide; split; naive_solver.
Qed.

(** What [accumulate] has after the pull requests in [seen]. *)
Definition buckets_of (presubmits : gmap Z (list Presubmit)) (pjs : list ProwJob)
    (seen : list PullRequest) (b : buckets) : Prop :=
  bk_successes b = filter (passing presubmits pjs) seen ∧
  bk_pendings b = filter (waiting presubmits pjs) seen ∧
  bk_missings b = filter (λ pr, retest presubmits pjs pr ≠ []) seen ∧
  (∀ pr, pr ∈ seen → default [] (bk_missingTests b !! pr_Number pr) = retest presubmits pjs pr) ∧
  (∀ n, n ∉ pr_Number <$> seen → bk_missingTests b !! n = None).

Lemma accumulate_pr_spec presubmits pjs seen b pr :
  jobs_have_pulls pjs → pr_Number pr ∉ pr_Number <$> seen →
  buckets_of presubmits pjs seen b →
  ∃ b', accumulate_pr presubmits pjs b pr = Some b' ∧
        buckets_of presubmits pjs (seen ++ [pr]) b'.
Proof.
  intros Hp Hnew (Hs & Hpe & Hm & Hmt & Hout). unfold accumulate_pr.
  destruct (note_jobs_spec pr ∅ pjs Hp) as (m & Hj & Hlook). rewrite Hj. cbn.
  setoid_rewrite lookup_empty in Hlook.
  pose proof (note_required_spec pjs pr m successState (bk_missingTests b)
    (presubmits_of presubmits pr) Hlook) as Hr.
  destruct (foldl _ _ _) as [s mt']. destruct Hr as (Hret & Hoth & Hst); [done|].
  rewrite (Hout _ Hnew) in Hret. cbn in Hret. fold (retest presubmits pjs pr) in Hret.
  assert ((∀ pr', pr' ∈ seen ++ [pr] →
             default [] (mt' !! pr_Number pr') = retest presubmits pjs pr') ∧
          (∀ n, n ∉ pr_Number <$> (seen ++ [pr]) → mt' !! n = None)) as [Hmt' Hout'].
  { split.
    - intros pr' [Hin| ->%list_elem_of_singleton]%elem_of_app; [|done].
      rewrite Hoth; [by apply Hmt|]. intros E. apply Hnew. rewrite <-E. set_solver.
    - intros n Hn. rewrite fmap_app, elem_of_app in Hn. rewrite Hoth by set_solver.
      apply Hout. set_solver. }
  rewrite Hret. eexists. split; [done|]. unfold buckets_of. rewrite !filter_app.
  rewrite !filter_cons, !filter_nil, <-Hs, <-Hpe, <-Hm.
  case_bool_decide as Hre; cbn.
  - rewrite (decide_False (P := passing _ _ _)) by (intros ?%passing_retest; done).
    rewrite (decide_False (P := waiting _ _ _)) by (by intros [? _]).
    rewrite decide_True by done. cbn. by rewrite !app_nil_r.
  - rewrite (decide_False (P := retest _ _ _ ≠ [])) by naive_solver.
    rewrite Hst by (by apply retest_nil).
    fold (passing presubmits pjs pr). unfold waiting.
    destruct (decide (passing presubmits pjs pr)).
    + rewrite decide_False by tauto. cbn. by rewrite !app_nil_r.
    + rewrite decide_True by tauto. cbn. by rewrite !app_nil_r.
Qed.

Lemma accumulate_ok presubmits prs pjs :
  jobs_have_pulls pjs → NoDup (pr_Number <$> prs) →
  ∃ b, accumulate presubmits prs pjs = Some b ∧
    bk_successes b = filter (passing presubmits pjs) prs ∧
    bk_pendings b = filter (waiting presubmits pjs) prs ∧
    bk_missings b = filter (λ pr, retest presubmits pjs pr ≠ []) prs ∧
    (∀ pr, pr ∈ prs → default [] (bk_missingTests b !! pr_Number pr) = retest presubmits pjs pr) ∧
    bk_successes b ++ bk_pendings b ++ bk_missings b ≡ₚ prs.
Proof.
  intros Hp Hnd.
  assert (∀ seen todo b, NoDup (pr_Number <$> (seen ++ todo)) →
    buckets_of presubmits pjs seen b →
    ∃ b', accumulate_from presubmits pjs b todo = Some b' ∧
          buckets_of presubmits pjs (seen ++ todo) b') as Hloop.
  { intros seen todo. revert seen. induction todo as [|pr todo IH]; intros seen b Hd Hb.
    { rewrite app_nil_r. by exists b. }
    cbn [accumulate_from]. rewrite cons_middle, app_assoc in Hd |- *.
    destruct (accumulate_pr_spec presubmits pjs seen b pr) as (b' & -> & Hb'); [done| |done|].
    - rewrite !fmap_app in Hd. apply NoDup_app in Hd as [Hd _].
      apply NoDup_app in Hd as (_ & Hd & _). intros Hin. apply (Hd _ Hin). set_solver.
    - by apply IH. }
  destruct (Hloop [] prs (mkBuckets [] [] [] ∅)) as (b & Hb & Hs & Hpe & Hm & Hmt & _).
  { done. }
  { split_and!; try done. by intros pr ?%elem_of_nil. }
  exists b. split_and!; try done. rewrite Hs, Hpe, Hm. cbn. clear.
  induction prs as [|pr prs IH]; [done|]. rewrite !filter_cons.
  destruct (decide (passing presubmits pjs pr)) as [Hg|Hg].
  - pose proof (passing_retest _ _ _ Hg) as Hr.
    rewrite (decide_False (P := waiting _ _ _)) by (by intros []).
    rewrite decide_False by (by intros []). cbn. by rewrite IH.
  - destruct (decide (retest presubmits pjs pr = [])) as [Hr|Hr].
    + rewrite decide_True by (by split). rewrite decide_False by (by intros []).
      cbn. by rewrite <-Permutation_middle, IH.
    + rewrite decide_False by (by intros []). rewrite decide_True by done.
      rewrite app_assoc, <-Permutation_middle, <-app_assoc. by rewrite IH.
Qed.

(** C13. When every listed presubmit job names a pull request and numbers are
    distinct, accumulation does not panic and sorts the pull requests, in order,
    by the best result of each required context at the current head: all
    successful; none to start but some still running; or some with neither a
    success nor a running job, which are exactly the tests reported missing. *)
Theorem accumulate_spec presubmits prs pjs :
  jobs_have_pulls pjs → NoDup (pr_Number <$> prs) →
  ∃ b, accumulate presubmits prs pjs = Some b ∧
    bk_successes b = filter (passing presubmits pjs) prs ∧
    bk_pendings b = filter (waiting presubmits pjs) prs ∧
    bk_missings b = filter (λ pr, retest presubmits pjs pr ≠ []) prs ∧
    (∀ pr, pr ∈ prs → default [] (bk_missingTests b !! pr_Number pr) = retest presubmits pjs pr) ∧
    bk_successes b ++ bk_pendings b ++ bk_missings b ≡ₚ prs.
Proof. apply accumulate_ok. Qed.
End accumulate_proofs.

(** ** Division into subpools *)

Section divide_proofs.
Context `{GoRange}.
Context (GetRef : string → string → string → result string)
        (ListProwJobs : string → result (list ProwJob)).

Definition prs_of (sps : list (string * subpool)) : list PullRequest :=
  concat ((λ ksp, sp_prs ksp.2) <$> sps).

#[export] Instance prs_of_perm : Proper ((≡ₚ) ==> (≡ₚ)) prs_of.
Proof. intros l l' E. unfold prs_of. by rewrite E. Qed.

(** A subpool holds pull requests of its key only, and was opened for one of
    them at the head GitHub gave for that one's base branch. *)
Record subpool_for (fn : string) (sp : subpool) : Prop := {
  sf_key : sp_key sp = fn;
  sf_prs : Forall (λ pr, pr_key pr = fn) (sp_prs sp);
  sf_sha : ∃ pr, pr ∈ sp_prs sp ∧ GetRef (sp_org sp) (sp_repo sp) (base_ref pr) = Ok (sp_sha sp) }.

Lemma subpool_for_set_pjs fn sp pjs : subpool_for fn sp → subpool_for fn (set_pjs pjs sp).
Proof. by intros [? ? ?]. Qed.

Definition divided (sps : gmap string subpool) (seen : list PullRequest) : Prop :=
  map_Forall subpool_for sps ∧ prs_of (map_to_list sps) ≡ₚ seen.

Lemma add_to_subpool_divided sps seen pr sps' :
  divided sps seen → add_to_subpool GetRef sps pr = Ok sps' → divided sps' (seen ++ [pr]).
Proof.
  intros [Hfor Hperm] Hadd. unfold add_to_subpool in Hadd. ok_inv.
  match goal with Hm : _ = Ok ?x |- _ => rename x into sp, Hm into Hsp end.
  rewrite <-insert_delete_eq. split.
  - apply map_Forall_insert_2.
    2: { intros k x [_ Hk]%lookup_delete_Some. by apply Hfor. }
    destruct (sps !! pr_key pr) as [sp0|] eqn:E.
    + injection Hsp as ->. destruct (Hfor _ _ E) as [Hk Hprs (pr0 & Hin & Hsha)].
      split; [done| |].
      * apply Forall_app. split; [done|]. by constructor.
      * exists pr0. split; [set_solver|done].
    + unfold new_subpool in Hsp. ok_inv. split; [done|by repeat constructor|].
      exists pr. split; [set_solver|done].
  - rewrite map_to_list_insert by apply lookup_delete_eq. cbn.
    destruct (sps !! pr_key pr) as [sp0|] eqn:E.
    + injection Hsp as ->. rewrite <-Hperm.
      rewrite <-(insert_delete_id sps (pr_key pr) sp) at 2 by done.
      rewrite map_to_list_insert by apply lookup_delete_eq.
      unfold prs_of. cbn. rewrite <-!app_assoc. apply Permutation_app_head, Permutation_app_comm.
    + rewrite delete_id by done. unfold new_subpool in Hsp. ok_inv.
      unfold prs_of in *. cbn. rewrite Hperm. apply Permutation_cons_append.
Qed.

Lemma list_subpool_fst ksp ksp' :
  list_subpool ListProwJobs ksp = Ok ksp' →
  ksp'.1 = ksp.1 ∧ ∃ pjs, ksp'.2 = set_pjs pjs ksp.2 ∧
    ListProwJobs (cacheIndexKey (sp_org ksp.2) (sp_repo ksp.2) (sp_branch ksp.2)
                    (sp_sha ksp.2)) = Ok pjs.
Proof. destruct ksp as [k sp]. cbn. intros Hl. ok_inv. eauto. Qed.

Lemma dividePool_ok pool sps :
  dividePool GetRef ListProwJobs pool = Ok sps →
  prs_of (map_to_list sps) ≡ₚ (map_to_list pool).*2 ∧
  map_Forall (λ fn sp, subpool_for fn sp ∧
    ListProwJobs (cacheIndexKey (sp_org sp) (sp_repo sp) (sp_branch sp) (sp_sha sp))
      = Ok (sp_pjs sp)) sps.
Proof.
  unfold dividePool. intros Hd. ok_inv.
  match goal with H1 : rfold _ _ _ = Ok ?a, H2 : rmap _ _ = Ok ?b |- _ =>
    rename a into raw, b into listed, H1 into Hraw, H2 into Hlisted end.
  assert (divided raw (map_range pool).*2) as [Hfor Hperm].
  { apply (rfold_ind _ divided _ _ _) in Hraw; [done| |].
    - split; [apply map_Forall_empty | done].
    - intros ????. apply add_to_subpool_divided. }
  apply rmap_Ok_Forall2 in Hlisted.
  assert (listed.*1 = (map_range raw).*1 ∧ prs_of listed = prs_of (map_range raw)) as [Hkeys Hprs].
  { clear -Hlisted. induction Hlisted as [|a b l k Hab _ [IH1 IH2]]; [done|].
    apply list_subpool_fst in Hab as (E & pjs & E2 & _).
    unfold prs_of in *. cbn. rewrite E, IH1, E2, IH2. done. }
  assert (NoDup listed.*1) as Hnd by (rewrite Hkeys; apply NoDup_map_range).
  split.
  - rewrite map_to_list_to_map by done. rewrite Hprs.
    rewrite <-(map_range_perm pool), <-Hperm. by rewrite map_range_perm.
  - intros fn sp Hsp. apply elem_of_list_to_map in Hsp; [|done].
    apply list_elem_of_lookup in Hsp as [i Hi].
    destruct (Forall2_lookup_r _ _ _ _ _ Hlisted Hi) as ([k sp0] & Hk & Hls).
    apply list_subpool_fst in Hls as (E & pjs & E2 & Hpjs). cbn in *. subst.
    split; [|done]. apply subpool_for_set_pjs, Hfor.
    apply elem_of_map_range. by eapply list_elem_of_lookup_2.
Qed.

(** C16. Dividing a pool loses and duplicates no pull request: together the
    subpools hold the pool's pull requests, each under the key of its own
    repository and base branch, at the base SHA GitHub reported, and with the
    ProwJobs indexed for exactly that branch and SHA. *)
Theorem dividePool_spec pool sps :
  dividePool GetRef ListProwJobs pool = Ok sps →
  prs_of (map_to_list sps) ≡ₚ (map_to_list pool).*2 ∧
  map_Forall (λ fn sp, subpool_for fn sp ∧
    ListProwJobs (cacheIndexKey (sp_org sp) (sp_repo sp) (sp_branch sp) (sp_sha sp))
      = Ok (sp_pjs sp)) sps.
Proof. apply dividePool_ok. Qed.

(** Owners without a slash and repositories without a colon are told apart by
    the key. *)
Lemma poolKey_inj o r b o' r' b' :
  contains_char "/" o = false → contains_char "/" o' = false →
  contains_char ":" r = false → contains_char ":" r' = false →
  poolKey o r b = poolKey o' r' b' → o = o' ∧ r = r' ∧ b = b'.
Proof.
  unfold poolKey. intros Ho Ho' Hr Hr' E.
  apply (app_sep_inj "/") in E as [-> E]; [|done|done].
  by apply (app_sep_inj ":") in E as [-> ->].
Qed.
End divide_proofs.

(** ** The pull request to merge or test next *)

Section pick_proofs.
Context (GetCombinedStatus : string → string → string → result (list (string * string * string))).
Context (cc : gmap Z contextChecker).
Notation candidate := (pick_candidate GetCombinedStatus cc).

Lemma pick_ok prs :
  Forall (λ pr, 0 < pr_Number pr)%Z prs →
  match pickSmallestPassingNumber GetCombinedStatus prs cc with
  | Some pr => pr ∈ prs ∧ candidate pr = true ∧
               ∀ pr', pr' ∈ prs → candidate pr' = true → (pr_Number pr ≤ pr_Number pr')%Z
  | None => ∀ pr, pr ∈ prs → candidate pr = false
  end.
Proof.
  intros Hpos. unfold pickSmallestPassingNumber.
  match goal with |- context [foldl ?f _ _] => set (step := f) end.
  assert (match foldl step ((-1)%Z, None) prs with
          | (n, None) => n = (-1)%Z ∧ ∀ pr, pr ∈ prs → candidate pr = false
          | (n, Some pr) => n = pr_Number pr ∧ pr ∈ prs ∧ candidate pr = true ∧
              ∀ pr', pr' ∈ prs → candidate pr' = true → (pr_Number pr ≤ pr_Number pr')%Z
          end) as Hinv.
  { revert Hpos. apply (foldl_ind step (λ acc seen, Forall (λ pr, 0 < pr_Number pr)%Z seen →
      match acc with
      | (n, None) => n = (-1)%Z ∧ ∀ pr, pr ∈ seen → candidate pr = false
      | (n, Some pr) => n = pr_Number pr ∧ pr ∈ seen ∧ candidate pr = true ∧
          ∀ pr', pr' ∈ seen → candidate pr' = true → (pr_Number pr ≤ pr_Number pr')%Z
      end)).
    { intros _. split; [done|]. by intros pr ?%elem_of_nil. }
    intros [n best] seen a IH [Hseen Ha]%Forall_app. specialize (IH Hseen).
    apply Forall_singleton in Ha. unfold step. cbn -[pick_candidate].
    assert (∀ pr', pr' ∈ seen ++ [a] → pr' ∈ seen ∨ pr' = a) as Hsplit.
    { intros pr'. rewrite elem_of_app, list_elem_of_singleton. done. }
    case_bool_decide as Hskip; [|destruct (candidate a) eqn:Ec; cbn -[pick_candidate]].
    - destruct best as [b|]; [|lia]. destruct IH as (-> & Hin & Hc & Hmin).
      split_and!; auto; [set_solver|].
      intros pr' [?| ->]%Hsplit Hc'; [by apply Hmin|lia].
    - split_and!; auto; [set_solver|]. intros pr' [Hin'| ->]%Hsplit Hc'; [|lia].
      destruct best as [b|]; [|destruct IH as [_ IH]; by rewrite IH in Hc'].
      destruct IH as (-> & Hin & Hc & Hmin).
      specialize (Hmin _ Hin' Hc'). rewrite Forall_forall in Hseen.
      specialize (Hseen _ Hin). lia.
    - destruct best as [b|].
      + destruct IH as (-> & Hin & Hc & Hmin). split_and!; auto; [set_solver|].
        intros pr' [?| ->]%Hsplit Hc'; [by apply Hmin|congruence].
      + destruct IH as [-> IH]. split; [done|]. intros pr' [?| ->]%Hsplit; auto. }
  destruct (foldl step _ prs) as [n [pr|]].
  - destruct Hinv as (-> & Hin & Hc & Hmin). rewrite Forall_forall in Hpos.
    specialize (Hpos _ Hin). by rewrite bool_decide_eq_true_2 by lia.
  - destruct Hinv as [-> Hnone]. by rewrite bool_decide_eq_false_2 by lia.
Qed.

(** Among pull requests with positive numbers, the one picked is a passing
    one with commits and no such one has a smaller number; nothing is picked
    only when there is none. *)
Theorem pickSmallestPassingNumber_spec prs :
  Forall (λ pr, 0 < pr_Number pr)%Z prs →
  match pickSmallestPassingNumber GetCombinedStatus prs cc with
  | Some pr => pr ∈ prs ∧ candidate pr = true ∧
               ∀ pr', pr' ∈ prs → candidate pr' = true → (pr_Number pr ≤ pr_Number pr')%Z
  | None => ∀ pr, pr ∈ prs → candidate pr = false
  end.
Proof. apply pick_ok. Qed.
End pick_proofs.
