(* ===== verification/TideMerge.v ===== *)
(** * What Tide does to a pool (tide/tide.go: picking batches, merging, triggering)

    The calls that change something outside (merging a pull request, working in a
    git clone, creating ProwJobs) and the waits between them are events of the
    trace; [merge], [create] and the git functions answer them. *)

From S2P Require Import Prelude Api JobConfig TideTypes TideConfig PjUtil TidePool.
#[local] Open Scope go_scope.

Record MergeDetails := mkMergeDetails {
  md_CommitTitle : string; md_CommitMessage : string;
  md_SHA : string; md_MergeMethod : string }.

(** The answers of [Client.Merge]: the error types of github/client.go, whose
    value is GitHub's message, and every other error. *)
Inductive merge_answer : Type :=
| Merged
| ModifiedHeadError (msg : string)
| UnmergablePRBaseChangedError (msg : string)
| UnauthorizedToPushError (msg : string)
| MergeCommitsForbiddenError (msg : string)
| UnmergablePRError (msg : string)
| OtherError (e : error).

Inductive event : Type :=
| EvMerge (org repo : string) (number : Z) (details : MergeDetails)
| EvSleep (seconds : Z)
| EvClone (repo : string)
| EvGitConfig (key value : string)
| EvCheckout (sha : string)
| EvGitMerge (sha : string)
| EvClean
| EvCreate (pj : ProwJob).

(** ** Merging *)

(** One label of a pull request: the method it asks for, if any. *)
Definition label_method (squash rebase merge label : string) : option PullRequestMergeType :=
  if bool_decide (label = squash) then Some MergeSquash
  else if bool_decide (label = rebase) then Some MergeRebase
  else if bool_decide (label = merge) then Some MergeMerge
  else None.

Fixpoint merge_labels (squash rebase merge : string) (labels : list string)
    (labelCount : Z) (method : PullRequestMergeType) : result PullRequestMergeType :=
  match labels with
  | [] => Ok method
  | label :: labels =>
      let '(method, labelCount) :=
        match label_method squash rebase merge label with
        | Some m => (m, labelCount + 1)%Z
        | None => (method, labelCount)
        end in
      if bool_decide (1 < labelCount)%Z
      then Err (errors_New "conflicting merge method override labels")
      else merge_labels squash rebase merge labels labelCount method
  end.

Definition checkMergeLabels (pr : PullRequest) (squash rebase merge : string)
    (method : PullRequestMergeType) : result PullRequestMergeType :=
  merge_labels squash rebase merge (pr_Labels pr) 0 method.

(** A template that fails leaves the field for GitHub to fill. *)
Definition execute (template : option Template) (pr : PullRequest) : string :=
  match template with
  | None => ""
  | Some t => match t pr with Ok s => s | Err _ => "" end
  end.

Definition prepareMergeDetails (commitTemplates : TideMergeCommitTemplate) (pr : PullRequest)
    (mergeMethod : PullRequestMergeType) : MergeDetails :=
  mkMergeDetails (execute (tmpl_Title commitTemplates) pr) (execute (tmpl_Body commitTemplates) pr)
    (pr_HeadRefOID pr) mergeMethod.

Section merging.
Context (c : Config) (merge : list event → merge_answer).

Definition maxRetries : nat := 3.
Definition first_backoff : Z := 4.

(** The loop of [tryMerge] with [retries] attempts left: keep on with the other
    pull requests?, and the error. *)
Fixpoint tryMerge_loop (attempt : event) (retries : nat) (backoff : Z) (err : option error)
    : M event (bool * option error) :=
  match retries with
  | 0 => mret (true, err)
  | S retries =>
      a ← call merge attempt;
      match a with
      | Merged => mret (true, None)
      | ModifiedHeadError m =>
          mret (true, Some (Errorf "PR was modified: %v" [AStr m]))
      | UnmergablePRBaseChangedError m =>
          let err := Some (Errorf "base branch was modified: %v" [AStr m]) in
          if bool_decide (0 < retries) then
            _ ← emit (EvSleep backoff);
            tryMerge_loop attempt retries (backoff * 2) err
          else tryMerge_loop attempt retries backoff err
      | UnauthorizedToPushError m =>
          mret (false, Some (Errorf
            "branch needs to be configured to allow this robot to push: %v" [AStr m]))
      | MergeCommitsForbiddenError m =>
          mret (false, Some (Errorf
            "Tide needs to be configured to use the 'rebase' merge method for this repo or the repo needs to allow merge commits: %v"
            [AStr m]))
      | UnmergablePRError m =>
          mret (true, Some (Errorf
            "PR is unmergable. Do the Tide merge requirements match the GitHub settings for the repo? %v"
            [AStr m]))
      | OtherError e => mret (true, Some e)
      end
  end.

Definition tryMerge (attempt : event) : M event (bool * option error) :=
  tryMerge_loop attempt maxRetries first_backoff None.

Definition merge_method (sp : subpool) (pr : PullRequest) : result PullRequestMergeType :=
  let t := cfg_Tide c in
  let mergeMethod := MergeMethod t (sp_org sp) (sp_repo sp) in
  if bool_decide (tide_SquashLabel t ≠ "") || bool_decide (tide_RebaseLabel t ≠ "")
     || bool_decide (tide_MergeLabel t ≠ "")
  then checkMergeLabels pr (tide_SquashLabel t) (tide_RebaseLabel t) (tide_MergeLabel t)
         mergeMethod
  else Ok mergeMethod.

Definition merge_event (sp : subpool) (pr : PullRequest) (method : PullRequestMergeType)
    : event :=
  EvMerge (sp_org sp) (sp_repo sp) (pr_Number pr)
    (prepareMergeDetails (MergeCommitTemplate (cfg_Tide c) (sp_org sp) (sp_repo sp)) pr method).

(** The numbers merged, those that failed, and the errors. *)
Definition merge_state : Type := list Z * list Z * list error.

Fixpoint merge_loop (sp : subpool) (prs : list PullRequest) (st : merge_state)
    : M event merge_state :=
  match prs with
  | [] => mret st
  | pr :: rest =>
      let '(merged, failed, errs) := st in
      match merge_method sp pr with
      | Err err => merge_loop sp rest (merged, failed ++ [pr_Number pr], errs ++ [err])
      | Ok method =>
          '(keepTrying, err) ← tryMerge (merge_event sp pr method);
          let st := match err with
                    | Some err => (merged, failed ++ [pr_Number pr], errs ++ [err])
                    | None => (merged ++ [pr_Number pr], failed, errs)
                    end in
          if negb keepTrying then mret st
          else if bool_decide (err = None) && bool_decide (rest ≠ [])
          then _ ← emit (EvSleep 5); merge_loop sp rest st
          else merge_loop sp rest st
      end
  end.

Definition mergePRs (sp : subpool) (prs : list PullRequest) : M event (option error) :=
  '(merged, failed, errs) ← merge_loop sp prs ([], [], []);
  mret (match errs with
        | [] => None
        | _ =>
            let batch :=
              if bool_decide (1 < length prs) then
                let batch := " from batch " +:+ ints_v (prNumbers prs) in
                match merged with
                | [] => batch
                | _ => batch +:+ ", partial merge " +:+ ints_v merged
                end
              else "" in
            Some (Errorf "failed merging %v%s: %v"
                    [AInts failed; AStr batch; AErr (Errorf "%v" [AErrs errs])])
        end).
End merging.

(** ** Triggering *)

Section triggering.
Context (c : Config) (IsValidLabelValue : string → bool).
(** The clock, fresh names for ProwJobs, and the ProwJob client. *)
Context (now : list event → Time) (new_name : list event → string)
        (create : list event → result unit).

Definition batch_refs (sp : subpool) (prs : list PullRequest) : Refs :=
  mkRefs (sp_org sp) (sp_repo sp) "" (sp_branch sp) (sp_sha sp) ""
    ((λ pr, mkPull (pr_Number pr) (pr_AuthorLogin pr) (pr_HeadRefOID pr) "" "" "" "" "") <$> prs)
    "" false "" false 0.

Definition trigger_spec (prs : list PullRequest) (ps : Presubmit) (refs : Refs) : ProwJobSpec :=
  if bool_decide (length prs = 1) then PresubmitSpec ps refs else BatchSpec ps refs.

Definition with_namespace (ns : string) (pj : ProwJob) : ProwJob :=
  mkProwJob (pj_Name pj) ns (pj_Labels pj) (pj_Annotations pj)
    (pj_CreationTimestamp pj) (pj_Spec pj) (pj_Status pj).

Fixpoint trigger_loop (refs : Refs) (prs : list PullRequest) (presubmits : list Presubmit)
    (triggeredContexts : gset string) : M event (option error) :=
  match presubmits with
  | [] => mret None
  | ps :: rest =>
      if bool_decide (ps_Context ps ∈ triggeredContexts)
      then trigger_loop refs prs rest triggeredContexts
      else
        let spec := trigger_spec prs ps refs in
        name ← observe new_name;
        t ← observe now;
        let pj := with_namespace (cfg_ProwJobNamespace c)
          (NewProwJob IsValidLabelValue name t spec
             (jb_Labels (ps_JobBase ps)) (jb_Annotations (ps_JobBase ps))) in
        r ← call create (EvCreate pj);
        match r with
        | Err err => mret (Some (Errorf
            "failed to create a ProwJob for job: %q, PRs: %v: %v"
            [AStr (spec_Job spec); AInts (prNumbers prs); AErr err]))
        | Ok _ => trigger_loop refs prs rest ({[ps_Context ps]} ∪ triggeredContexts)
        end
  end.

Definition trigger (sp : subpool) (presubmits : list Presubmit) (prs : list PullRequest)
    : M event (option error) :=
  trigger_loop (batch_refs sp prs) prs presubmits ∅.
End triggering.

(** ** Picking a batch *)

Section picking.
Context `{GoRange} (c : Config).
Context (GetCombinedStatus : string → string → string → result (list (string * string * string)))
        (prChanges : PullRequest → ChangedFilesProvider).
(** The git client: cloning, [git config], checkout, and merging a head (an
    error, or whether it merged without conflict). *)
Context (git_do : list event → result unit) (git_merge : list event → result bool).

Fixpoint merge_candidates (batchLimit : Z) (candidates res : list PullRequest)
    : M event (result (list PullRequest)) :=
  match candidates with
  | [] => mret (Ok res)
  | pr :: rest =>
      r ← call git_merge (EvGitMerge (pr_HeadRefOID pr));
      match r with
      | Err err => mret (Err err)
      | Ok true =>
          let res := res ++ [pr] in
          if bool_decide (0 < batchLimit ≤ Z.of_nat (length res))%Z then mret (Ok res)
          else merge_candidates batchLimit rest res
      | Ok false => merge_candidates batchLimit rest res
      end
  end.

(** In the clone, up to the presubmits of the batch. *)
Definition pick_in_clone (sp : subpool) (batchLimit : Z) (candidates : list PullRequest)
    : M event (result (list PullRequest * list Presubmit)) :=
  r ← call git_do (EvGitConfig "user.name" "prow");
  match r with
  | Err err => mret (Err err)
  | Ok _ =>
      r ← call git_do (EvGitConfig "user.email" "prow@localhost");
      match r with
      | Err err => mret (Err err)
      | Ok _ =>
          _ ← call git_do (EvGitConfig "commit.gpgsign" "false");
          r ← call git_do (EvCheckout (sp_sha sp));
          match r with
          | Err err => mret (Err err)
          | Ok _ =>
              r ← merge_candidates batchLimit candidates [];
              mret (let? res := r in
                    let? presubmits := presubmitsForBatch c prChanges res (sp_org sp)
                                         (sp_repo sp) (sp_sha sp) (sp_branch sp) in
                    Ok (res, presubmits))
          end
      end
  end.

Definition candidates_of (sp : subpool) : list PullRequest :=
  filter (λ pr, isPassingTests GetCombinedStatus pr (checker_of (sp_cc sp) pr) = true)
    (sort_by pr_Number (sp_prs sp)).

Definition pickBatch (sp : subpool) : M event (result (list PullRequest * list Presubmit)) :=
  let batchLimit := BatchSizeLimit (cfg_Tide c) (sp_org sp) (sp_repo sp) in
  if bool_decide (batchLimit < 0)%Z then mret (Ok ([], []))
  else
    match candidates_of sp with
    | [] => mret (Ok ([], []))
    | candidates =>
        r ← call git_do (EvClone (sp_org sp +:+ "/" +:+ sp_repo sp));
        match r with
        | Err err => mret (Err err)
        | Ok _ =>
            res ← pick_in_clone sp batchLimit candidates;
            _ ← emit EvClean;
            mret res
        end
    end.
End picking.

(** ** Merging: retries, and what a nil error means *)

Section merge_proofs.
Context (c : Config) (merge : list event → merge_answer).

Definition is_base_changed (a : merge_answer) : bool :=
  match a with UnmergablePRBaseChangedError _ => true | _ => false end.
Definition stops_batch (a : merge_answer) : bool :=
  match a with UnauthorizedToPushError _ | MergeCommitsForbiddenError _ => true | _ => false end.
Definition is_merged (a : merge_answer) : bool :=
  match a with Merged => true | _ => false end.

(** The events of [n] retries: waits of 4 s, then 8 s. *)
Fixpoint tries (attempt : event) (n : nat) : list event :=
  match n with
  | 0 => [attempt]
  | S n => tries attempt n ++ [EvSleep (4 * 2 ^ Z.of_nat n); attempt]
  end.

Lemma tryMerge_runs attempt tr :
  ∃ n, let '(tr', (keepTrying, err)) := tryMerge merge attempt tr in
  n < maxRetries ∧ tr' = tr ++ tries attempt n ∧
  (∀ k, k < n → is_base_changed (merge (tr ++ tries attempt k)) = true) ∧
  (is_base_changed (merge tr') = true → n = 2) ∧
  bool_decide (err = None) = is_merged (merge tr') ∧
  negb keepTrying = stops_batch (merge tr').
Proof.
  unfold tryMerge, maxRetries. cbn [tryMerge_loop]. run.
  destruct (merge (tr ++ [attempt])) eqn:E0.
  3: rewrite bool_decide_eq_true_2 by lia; run; rewrite <-!app_assoc; cbn [app];
     destruct (merge (tr ++ [attempt; EvSleep first_backoff; attempt])) eqn:E1.
  5: rewrite bool_decide_eq_true_2 by lia; run; rewrite <-!app_assoc; cbn [app];
     destruct (merge (tr ++ [attempt; EvSleep first_backoff; attempt;
                             EvSleep (first_backoff * 2); attempt])) eqn:E2.
  all: rewrite ?(bool_decide_eq_false_2 (0 < 0)) by lia; run.
  all: match goal with
    | E2 : merge (_ ++ [_; _; _; _; _]) = _ |- _ => exists 2
    | E1 : merge (_ ++ [_; _; _]) = _ |- _ => exists 1
    | _ => exists 0
    end; cbn.
  all: rewrite ?E0, ?E1, ?E2; split_and!; try done; try lia; cbn.
  all: try (by rewrite E2).
  all: unfold first_backoff in *; intros [|[|k]] Hk; cbn in *; try lia;
       change (4 * 2 ^ Z.of_nat 0)%Z with 4%Z; by rewrite ?E0, ?E1.
Qed.

(** A merge is attempted at most three times, 4 s and 8 s apart, and again
    only after GitHub answered that the base branch changed; the error is nil
    exactly when the last attempt merged, and the remaining pull requests are
    given up exactly when the robot may not push or the merge method is
    forbidden. *)
Theorem tryMerge_spec attempt tr :
  ∃ n, let '(tr', (keepTrying, err)) := tryMerge merge attempt tr in
  n < maxRetries ∧ tr' = tr ++ tries attempt n ∧
  (∀ k, k < n → is_base_changed (merge (tr ++ tries attempt k)) = true) ∧
  (is_base_changed (merge tr') = true → n = 2) ∧
  bool_decide (err = None) = is_merged (merge tr') ∧
  negb keepTrying = stops_batch (merge tr').
Proof. apply tryMerge_runs. Qed.

Definition is_merge (e : event) : bool :=
  match e with EvMerge _ _ _ _ => true | _ => false end.

Lemma tryMerge_emits P attempt :
  P attempt → (∀ s, P (EvSleep s)) → emits P (tryMerge merge attempt).
Proof.
  intros Ha Hs tr. destruct (tryMerge_runs attempt tr) as [n Hn].
  destruct (tryMerge merge attempt tr) as [tr' [k err]]. destruct Hn as (_ & -> & _).
  exists (tries attempt n). split; [done|].
  induction n as [|n IH]; cbn; [by constructor|]. apply Forall_app. by repeat constructor.
Qed.

Lemma tryMerge_emits_le attempt : emits_le is_merge 3 (tryMerge merge attempt).
Proof.
  intros tr. destruct (tryMerge_runs attempt tr) as [n Hn].
  destruct (tryMerge merge attempt tr) as [tr' [k err]]. destruct Hn as (Hn & -> & _).
  exists (tries attempt n). split; [done|]. unfold maxRetries in Hn.
  assert (length (filter (λ e, is_merge e = true) (tries attempt n)) ≤ S n); [|cbn; lia].
  clear Hn. induction n as [|n IH]; cbn [tries].
  - rewrite filter_cons, filter_nil. case_decide; cbn; lia.
  - rewrite filter_app, length_app, !filter_cons, filter_nil. cbn [is_merge].
    rewrite decide_False by done. case_decide; cbn; lia.
Qed.

(** A merge of one of [prs] with the method and message its labels and the
    configuration ask for, or a wait. *)
Definition merge_of (sp : subpool) (prs : list PullRequest) (e : event) : Prop :=
  match e with
  | EvMerge _ _ _ _ => ∃ pr method, pr ∈ prs ∧ merge_method c sp pr = Ok method ∧
                                    e = merge_event c sp pr method
  | EvSleep _ => True
  | _ => False
  end.

(** GitHub merged [pr] between [tr] and [tr']. *)
Definition accepted (sp : subpool) (tr tr' : list event) (pr : PullRequest) : Prop :=
  ∃ method pre, merge_method c sp pr = Ok method ∧ tr `prefix_of` pre ∧
    pre ++ [merge_event c sp pr method] `prefix_of` tr' ∧
    merge (pre ++ [merge_event c sp pr method]) = Merged.

Lemma accepted_mono sp tr0 tr tr1 tr2 pr :
  tr0 `prefix_of` tr → tr1 `prefix_of` tr2 → accepted sp tr tr1 pr → accepted sp tr0 tr2 pr.
Proof.
  intros ?? (method & pre & ? & ? & ? & ?). exists method, pre.
  split_and!; [done|by etrans|by etrans|done].
Qed.

Lemma tryMerge_accepted sp pr method tr tr' k :
  merge_method c sp pr = Ok method →
  tryMerge merge (merge_event c sp pr method) tr = (tr', (k, None)) →
  accepted sp tr tr' pr.
Proof.
  intros Hm Ht. destruct (tryMerge_runs (merge_event c sp pr method) tr) as [n Hn].
  rewrite Ht in Hn. destruct Hn as (_ & Htr & _ & _ & Hok & _).
  rewrite bool_decide_eq_true_2 in Hok by done.
  assert (∃ pre, tries (merge_event c sp pr method) n = pre ++ [merge_event c sp pr method])
    as [pre Hpre].
  { destruct n; cbn; [by exists []|]. eexists (_ ++ [_]). by rewrite <-app_assoc. }
  rewrite Hpre in Htr. rewrite app_assoc in Htr. subst tr'.
  exists method, (tr ++ pre). split_and!; [done|by apply prefix_app_r| done |].
  by destruct (merge _).
Qed.

Lemma merge_loop_prefix sp prs st tr : tr `prefix_of` (merge_loop c merge sp prs st tr).1.
Proof.
  assert (emits (λ _, True) (merge_loop c merge sp prs st)) as He.
  { revert st. induction prs as [|pr prs IH]; intros [[m f] es]; cbn [merge_loop]; [auto with prow|].
    destruct (merge_method c sp pr); [|done].
    apply emits_bind; [by apply tryMerge_emits|]. intros [k err].
    destruct k; cbn; [|auto with prow]. case_match; auto with prow. }
  destruct (He tr) as (new & -> & _). by apply prefix_app_r.
Qed.

Lemma merge_loop_accepted sp prs st tr tr' st' :
  merge_loop c merge sp prs st tr = (tr', st') → st'.2 = [] →
  st.2 = [] ∧ Forall (accepted sp tr tr') prs.
Proof.
  revert st tr. induction prs as [|pr prs IH]; intros [[m f] es] tr; cbn [merge_loop].
  { intros [= <- <-]. done. }
  destruct (merge_method c sp pr) as [method|e] eqn:Hm.
  2: { intros Hl He. destruct (IH _ _ Hl He) as [Hes _]. by destruct es. }
  rewrite bind_app. destruct (tryMerge _ _ tr) as [tr1 [k err]] eqn:Ht. cbn [fst snd].
  pose proof (tryMerge_emits (λ _, True) (merge_event c sp pr method)) as Hem.
  destruct (Hem I (λ _, I) tr) as (new & Htr1 & _). rewrite Ht in Htr1. cbn in Htr1.
  assert (∀ es0 f0 m0 k0, merge_loop c merge sp prs (m0, f0, es0) (tr1 ++ k0) = (tr', st') →
            st'.2 = [] → es0 = [] ∧ Forall (accepted sp tr tr') prs ∧ tr1 `prefix_of` tr') as Hrest.
  { intros es0 f0 m0 k0 Hl He. destruct (IH _ _ Hl He) as [Hes Hall].
    pose proof (merge_loop_prefix sp prs (m0, f0, es0) (tr1 ++ k0)) as Hp. rewrite Hl in Hp.
    cbn in *. assert (tr1 `prefix_of` tr1 ++ k0) by by apply prefix_app_r.
    split_and!; [done| |by etrans]. eapply Forall_impl; [done|]. intros pr' Ha.
    eapply accepted_mono; [| |exact Ha]; [subst; rewrite <-app_assoc; by apply prefix_app_r|done]. }
  destruct k; cbn [negb]; cycle 1.
  { intros [= <- <-]. destruct err as [err|]; cbn; [by destruct es|]. intros _.
    destruct (tryMerge_runs (merge_event c sp pr method) tr) as [n Hn]. rewrite Ht in Hn.
    destruct Hn as (_ & _ & _ & _ & H1 & H2). rewrite bool_decide_eq_true_2 in H1 by done.
    by destruct (merge tr1). }
  destruct err as [err|]; cbn [andb].
  { rewrite bool_decide_eq_false_2 by done. cbn. intros Hl He.
    rewrite <-(app_nil_r tr1) in Hl. destruct (Hrest _ _ _ _ Hl He) as [Hes _]. by destruct es. }
  pose proof (tryMerge_accepted _ _ _ _ _ _ Hm Ht) as Hacc.
  rewrite bool_decide_eq_true_2 by done. cbn [andb].
  assert (∀ k0, merge_loop c merge sp prs (m ++ [pr_Number pr], f, es) (tr1 ++ k0) = (tr', st') →
            st'.2 = [] → es = [] ∧ Forall (accepted sp tr tr') (pr :: prs)) as Hgo.
  { intros k0 Hl He. destruct (Hrest _ _ _ _ Hl He) as (Hes & Hall & Hp).
    split; [done|]. constructor; [|done]. by eapply accepted_mono. }
  case_bool_decide; run; [apply Hgo|]. rewrite <-(app_nil_r tr1). apply Hgo.
Qed.

Lemma mergePRs_ok sp prs :
  emits (merge_of sp prs) (mergePRs c merge sp prs) ∧
  emits_le is_merge (3 * length prs) (mergePRs c merge sp prs) ∧
  ∀ tr, let '(tr', err) := mergePRs c merge sp prs tr in
        err = None → Forall (accepted sp tr tr') prs.
Proof.
  unfold mergePRs. split_and!.
  - apply emits_bind; [|intros [[? ?] ?]; auto with prow].
    assert (∀ todo st, todo ⊆ prs → emits (merge_of sp prs) (merge_loop c merge sp todo st))
      as Hl; [|by apply Hl].
    induction todo as [|pr todo IH]; intros [[m f] es] Hsub; cbn [merge_loop]; [auto with prow|].
    assert (pr ∈ prs ∧ todo ⊆ prs) as [Hin Htodo] by set_solver.
    destruct (merge_method c sp pr) as [method|] eqn:Hm; [|by apply IH].
    apply emits_bind; [apply tryMerge_emits; [|done]; cbn; eauto|]. intros [k err].
    destruct k; cbn; [|auto with prow].
    case_match; [|by apply IH]. apply emits_bind; [by apply emits_emit|]. intros _. by apply IH.
  - eapply (emits_le_bind _ (3 * length prs) 0); [lia|..]; cycle 1.
    { intros [[? ?] ?]. apply emits_le_ret. }
    generalize (@nil Z, @nil Z, @nil error) as st.
    induction prs as [|pr todo IH]; intros [[m f] es]; cbn [merge_loop]; [apply emits_le_ret|].
    destruct (merge_method c sp pr) as [method|] eqn:Hm; cycle 1.
    { intros tr. destruct (IH (m, f ++ [pr_Number pr], es ++ [e]) tr) as (new & ? & ?).
      exists new. split; [done|]. cbn [length]. lia. }
    eapply (emits_le_bind _ 3 (3 * length todo)); [cbn [length]; lia|apply tryMerge_emits_le|].
    intros [k err]. destruct k; cbn [negb]; [|apply emits_le_ret].
    case_match; [|apply IH]. eapply (emits_le_bind _ 0 (3 * length todo)); [lia|by apply emits_le_emit|].
    intros _. apply IH.
  - intros tr. rewrite bind_app. destruct (merge_loop _ _ _ _ _ tr) as [tr' [[m f] es]] eqn:El.
    cbn. intros He. apply merge_loop_accepted in El; [by destruct El|]. by destruct es.
Qed.

(** Merging a list of pull requests only calls merge for those, each with the
    method its labels choose and at its tested head, at most three times each;
    when it reports no error, GitHub has merged every one of them. *)
Theorem mergePRs_spec sp prs :
  emits (merge_of sp prs) (mergePRs c merge sp prs) ∧
  emits_le is_merge (3 * length prs) (mergePRs c merge sp prs) ∧
  ∀ tr, let '(tr', err) := mergePRs c merge sp prs tr in
        err = None → Forall (accepted sp tr tr') prs.
Proof. apply mergePRs_ok. Qed.
End merge_proofs.

(** ** Triggering: one job per context, and no test left to start *)

Section trigger_proofs.
Context (c : Config) (IsValidLabelValue : string → bool).
Context (now : list event → Time) (new_name : list event → string)
        (create : list event → result unit).
Notation trigger := (trigger c IsValidLabelValue now new_name create).
Notation trigger_loop := (trigger_loop c IsValidLabelValue now new_name create).

Definition job_context (pj : ProwJob) : string := spec_Context (pj_Spec pj).

(** A new job for [ps] on the pull requests [prs]. *)
Definition job_for (refs : Refs) (prs : list PullRequest) (ps : Presubmit) (pj : ProwJob)
    : Prop :=
  pj_Spec pj = trigger_spec prs ps refs ∧ pj_State pj = TriggeredState ∧
  pj_Namespace pj = cfg_ProwJobNamespace c.

Lemma job_for_context refs prs ps pj : job_for refs prs ps pj → job_context pj = ps_Context ps.
Proof.
  unfold job_context. intros [-> _]. unfold trigger_spec. by case_bool_decide.
Qed.

Lemma trigger_loop_spec refs prs presubmits seen tr :
  let '(tr', err) := trigger_loop refs prs presubmits seen tr in
  ∃ jobs, tr' = tr ++ (EvCreate <$> jobs) ∧
    Forall (λ pj, ∃ ps, ps ∈ presubmits ∧ job_for refs prs ps pj) jobs ∧
    NoDup (job_context <$> jobs) ∧ Forall (λ pj, job_context pj ∉ seen) jobs ∧
    (err = None → Forall (λ ps, ps_Context ps ∈ seen ∨
                                Exists (job_for refs prs ps) jobs ∨
                                ps_Context ps ∈ job_context <$> jobs) presubmits).
Proof.
  revert seen tr. induction presubmits as [|ps rest IH]; intros seen tr;
    cbn [TideMerge.trigger_loop].
  { exists []. rewrite app_nil_r. split_and!; by constructor. }
  case_bool_decide as Hseen.
  - specialize (IH seen tr). destruct (trigger_loop _ _ _ _ _) as [tr' err].
    destruct IH as (jobs & ? & Hj & ? & ? & Herr). exists jobs. split_and!; try done.
    + eapply Forall_impl; [exact Hj|]. intros pj (ps' & ? & ?). exists ps'. set_solver.
    + intros He. constructor; [by left | by apply Herr].
  - run. set (pj := with_namespace _ _).
    assert (job_for refs prs ps pj) as Hpj.
    { unfold pj, with_namespace, job_for, NewProwJob.
      destruct (LabelsAndAnnotationsForSpec _ _ _) as [? ?]. done. }
    pose proof (job_for_context _ _ _ _ Hpj) as Hctx.
    destruct (create _) as [[]|e].
    + specialize (IH ({[ps_Context ps]} ∪ seen) (tr ++ [EvCreate pj])).
      destruct (trigger_loop _ _ _ _ _) as [tr' err].
      destruct IH as (jobs & -> & Hj & Hnd & Hdisj & Herr). exists (pj :: jobs).
      rewrite <-app_assoc. split_and!; [done| | | |].
      * constructor; [exists ps; set_solver|].
        eapply Forall_impl; [exact Hj|]. intros pj' (ps' & ? & ?). exists ps'. set_solver.
      * cbn. constructor; [|done]. rewrite Hctx, list_elem_of_fmap.
        intros (pj' & E & Hin). rewrite Forall_forall in Hdisj. specialize (Hdisj _ Hin).
        rewrite <-E in Hdisj. set_solver.
      * constructor; [by rewrite Hctx|]. eapply Forall_impl; [exact Hdisj|]. set_solver.
      * intros He. constructor; [right; left; by left|]. specialize (Herr He).
        eapply Forall_impl; [exact Herr|]. intros ps' [Hin|[Hex|Hin]].
        -- apply elem_of_union in Hin as [->%elem_of_singleton|Hin]; [|by left].
           right; right. cbn. rewrite Hctx. set_solver.
        -- right; left. by right.
        -- right; right. set_solver.
    + exists [pj]. split_and!; [done| | | |done].
      * constructor; [|done]. exists ps. set_solver.
      * apply NoDup_singleton.
      * constructor; [by rewrite Hctx|done].
Qed.

(** The jobs that a run of [trigger] created, oldest first. *)
Definition created (tr tr' : list event) (jobs : list ProwJob) : Prop :=
  tr' = tr ++ (EvCreate <$> jobs).

(** C15. Triggering creates at most one ProwJob per context, each for the given
    pull requests at the subpool's base SHA; if it reports no error after being
    given the tests a pull request misses, that pull request misses none
    according to the ProwJobs then in the cluster, so it is not tested twice. *)
Theorem trigger_progress sp required pjs pr tr :
  ∃ jobs, let '(tr', err) := trigger sp (retest required pjs pr) [pr] tr in
  created tr tr' jobs ∧ NoDup (job_context <$> jobs) ∧
  Forall (λ pj, ∃ ps, ps ∈ retest required pjs pr ∧ job_for (batch_refs sp [pr]) [pr] ps pj) jobs ∧
  (err = None → retest required (pjs ++ jobs) pr = []).
Proof.
  unfold TideMerge.trigger.
  pose proof (trigger_loop_spec (batch_refs sp [pr]) [pr] (retest required pjs pr) ∅ tr) as Hl.
  destruct (trigger_loop _ _ _ _ _) as [tr' err]. destruct Hl as (jobs & Htr & Hj & Hnd & _ & He).
  exists jobs. split_and!; [done..|]. intros Herr. specialize (He Herr).
  apply retest_nil, Forall_forall. intros ps Hps [Hs Hp].
  assert (∀ c' s, s ∈ results pjs pr c' → s ∈ results (pjs ++ jobs) pr c') as Hmono.
  { intros c' s. unfold results. rewrite filter_app, fmap_app, elem_of_app. by left. }
  assert (ps ∈ retest required pjs pr) as Hret.
  { unfold retest. apply list_elem_of_filter. split; [|done].
    split; intros Hx; [apply Hs|apply Hp]; by apply Hmono. }
  assert (∃ pj, pj ∈ jobs ∧ job_context pj = ps_Context ps) as (pj & Hin & Hctx).
  { rewrite Forall_forall in He. destruct (He _ Hret) as [Hx|[Hx|Hx]]; [set_solver| |].
    - apply Exists_exists in Hx as (pj & ? & ?). exists pj. split; [done|]. by eapply job_for_context.
    - apply list_elem_of_fmap in Hx as (pj & ? & ?). by exists pj. }
  apply Hp. unfold results. apply list_elem_of_fmap. exists pj.
  rewrite Forall_forall in Hj. destruct (Hj _ Hin) as (ps' & _ & Hspec & Hst & _).
  rewrite Hst. split; [done|]. apply list_elem_of_filter. split_and!; [|done|set_solver].
  unfold tests_pr, first_pull. rewrite Hspec. done.
Qed.
End trigger_proofs.

(** ** Batches *)

Section batch_proofs.
Context `{GoRange} (c : Config).
Context (GetCombinedStatus : string → string → string → result (list (string * string * string)))
        (prChanges : PullRequest → ChangedFilesProvider).
Context (git_do : list event → result unit) (git_merge : list event → result bool).
Notation pickBatch := (pickBatch c GetCombinedStatus prChanges git_do git_merge).

Definition is_git (e : event) : Prop :=
  match e with
  | EvClone _ | EvGitConfig _ _ | EvCheckout _ | EvGitMerge _ | EvClean => True
  | _ => False
  end.

Lemma merge_candidates_spec batchLimit candidates res tr :
  (0 < batchLimit → Z.of_nat (length res) < batchLimit)%Z →
  let '(tr', r) := merge_candidates git_merge batchLimit candidates res tr in
  (∃ new, tr' = tr ++ new ∧ Forall is_git new) ∧
  ∀ batch, r = Ok batch → ∃ picked, batch = res ++ picked ∧ picked `sublist_of` candidates ∧
    (0 < batchLimit → Z.of_nat (length batch) ≤ batchLimit)%Z.
Proof.
  revert res tr. induction candidates as [|pr rest IH]; intros res tr Hlim; cbn.
  { split; [exists []; by rewrite app_nil_r|]. intros batch [= <-]. exists [].
    rewrite app_nil_r. split_and!; [done..|lia]. }
  run. destruct (git_merge _) as [[]|e].
  - case_bool_decide as Hfull; run.
    + split; [eexists; split; [done|]; by repeat constructor|]. intros batch [= <-].
      exists [pr]. split_and!; [done| |].
      * apply sublist_skip, sublist_nil_l.
      * rewrite length_app in *. cbn in *. lia.
    + specialize (IH (res ++ [pr]) (tr ++ [EvGitMerge (pr_HeadRefOID pr)])).
      destruct (merge_candidates _ _ _ _ _) as [tr' r]. rewrite length_app in *. cbn in *.
      destruct IH as [(new & -> & Hnew) Hr]; [lia|].
      split; [exists (EvGitMerge (pr_HeadRefOID pr) :: new); rewrite <-app_assoc; split;
              [done|by constructor]|].
      intros batch Hb. destruct (Hr _ Hb) as (picked & -> & ? & ?).
      exists (pr :: picked). rewrite <-app_assoc in *. split_and!; [done| |done].
      by apply sublist_skip.
  - specialize (IH res (tr ++ [EvGitMerge (pr_HeadRefOID pr)])).
    destruct (merge_candidates _ _ _ _ _) as [tr' r]. destruct IH as [(new & -> & Hnew) Hr]; [done|].
    split; [exists (EvGitMerge (pr_HeadRefOID pr) :: new); rewrite <-app_assoc; split;
            [done|by constructor]|].
    intros batch Hb. destruct (Hr _ Hb) as (picked & ? & ? & ?).
    exists picked. split_and!; [done| by apply sublist_cons |done].
  - split; [eexists; split; [done|]; by repeat constructor|]. done.
Qed.

(** What [pickBatch] returns when it does not fail: the jobs of the batch. *)
Record good_batch (sp : subpool) (batch : list PullRequest) (jobs : list Presubmit) : Prop := {
  gb_sub : batch `sublist_of` candidates_of GetCombinedStatus sp;
  gb_limit : (0 < BatchSizeLimit (cfg_Tide c) (sp_org sp) (sp_repo sp) →
              Z.of_nat (length batch) ≤ BatchSizeLimit (cfg_Tide c) (sp_org sp) (sp_repo sp))%Z;
  gb_jobs : batch ≠ [] → presubmitsForBatch c prChanges batch (sp_org sp) (sp_repo sp)
                           (sp_sha sp) (sp_branch sp) = Ok jobs }.

Lemma pick_in_clone_spec sp candidates tr :
  let '(tr', r) := pick_in_clone c prChanges git_do git_merge sp
                     (BatchSizeLimit (cfg_Tide c) (sp_org sp) (sp_repo sp)) candidates tr in
  (∃ new, tr' = tr ++ new ∧ Forall is_git new) ∧
  ∀ batch jobs, candidates `sublist_of` candidates_of GetCombinedStatus sp →
    r = Ok (batch, jobs) → good_batch sp batch jobs.
Proof.
  unfold pick_in_clone. run.
  assert (∀ new, Forall is_git new → ∃ new', tr ++ new = tr ++ new' ∧ Forall is_git new') as Hn
    by eauto.
  destruct (git_do _); run; rewrite <-?app_assoc;
    [|split; [apply Hn; by repeat constructor|done]].
  destruct (git_do _); run; rewrite <-?app_assoc;
    [|split; [apply Hn; by repeat constructor|done]].
  destruct (git_do _) in |- *; run; rewrite <-?app_assoc;
    [|split; [apply Hn; by repeat constructor|done]].
  rewrite bind_app. match goal with |- context [merge_candidates _ ?l _ _ ?t] =>
    pose proof (merge_candidates_spec l candidates [] t) as Hm end.
  destruct (merge_candidates _ _ _ _ _) as [tr' r]. run. cbn [fst snd].
  destruct Hm as [(new & -> & Hnew) Hr]; [cbn; lia|]. split.
  { rewrite <-!app_assoc. apply Hn. repeat apply Forall_app_2; by repeat constructor. }
  intros batch jobs Hsub Hok. ok_inv.
  destruct (Hr _ eq_refl) as (picked & -> & ? & ?). split; [by etrans|done|done].
Qed.

Lemma pickBatch_ok sp tr :
  let '(tr', r) := pickBatch sp tr in
  (∃ new, tr' = tr ++ new ∧ Forall is_git new) ∧
  (BatchSizeLimit (cfg_Tide c) (sp_org sp) (sp_repo sp) < 0 → tr' = tr ∧ r = Ok ([], []))%Z ∧
  StronglySorted (key_le pr_Number) (sort_by pr_Number (sp_prs sp)) ∧
  ∀ batch jobs, r = Ok (batch, jobs) → good_batch sp batch jobs.
Proof.
  unfold TideMerge.pickBatch. pose proof (sort_by_sorted pr_Number (sp_prs sp)) as Hsort.
  assert (good_batch sp [] []) as Hnil.
  { split; [apply sublist_nil_l|cbn; lia|done]. }
  case_bool_decide as Hneg.
  { run. split_and!; [exists []; by rewrite app_nil_r|done|done|]. by intros ?? [= <- <-]. }
  destruct (candidates_of GetCombinedStatus sp) as [|pr prs] eqn:Ec.
  { run. split_and!; [exists []; by rewrite app_nil_r|lia|done|]. by intros ?? [= <- <-]. }
  rewrite <-Ec. run. destruct (git_do _); run.
  2: { split_and!; [by repeat econstructor|lia|done|done]. }
  rewrite bind_app.
  match goal with |- context [pick_in_clone _ _ _ _ _ _ ?cs ?t] =>
    pose proof (pick_in_clone_spec sp cs t) as Hp end.
  destruct (pick_in_clone _ _ _ _ _ _ _ _) as [tr' r]. run. cbn [fst snd].
  destruct Hp as [(new & -> & Hnew) Hr]. split_and!; [|lia|done|].
  - eexists. rewrite <-!app_assoc. split; [done|].
    repeat apply Forall_app_2; by repeat constructor.
  - intros batch jobs Hok. by apply Hr.
Qed.

(** C17. Picking a batch only works in a git clone; a negative limit disables it,
    and otherwise a batch is a selection, oldest numbers first, of the pull
    requests whose required contexts are green, no longer than a positive
    limit, together with the presubmits that batch requires. *)
Theorem pickBatch_spec sp tr :
  let '(tr', r) := pickBatch sp tr in
  (∃ new, tr' = tr ++ new ∧ Forall is_git new) ∧
  (BatchSizeLimit (cfg_Tide c) (sp_org sp) (sp_repo sp) < 0 → tr' = tr ∧ r = Ok ([], []))%Z ∧
  StronglySorted (key_le pr_Number) (sort_by pr_Number (sp_prs sp)) ∧
  ∀ batch jobs, r = Ok (batch, jobs) → good_batch sp batch jobs.
Proof. apply pickBatch_ok. Qed.
End batch_proofs.
