(* ===== verification/TideCache.v ===== *)
(** * The cache of changed files (tide/tide.go: changedFilesAgent)

    [prChanges] answers from two maps; [prune], at the end of each sync, forgets
    what the sync did not use.  The functions above it take a provider of changed
    files: the theorem says the cache provides what asking GitHub would. *)

From S2P Require Import Prelude Api JobConfig TideTypes.
#[local] Open Scope go_scope.

Record changeCacheKey := mkChangeCacheKey {
  ck_org : string; ck_repo : string; ck_number : Z; ck_sha : string }.
#[export] Instance changeCacheKey_eq_dec : EqDecision changeCacheKey.
Proof. solve_decision. Defined.
#[export] Instance changeCacheKey_countable : Countable changeCacheKey.
Proof.
  apply (inj_countable' (λ k, (ck_org k, ck_repo k, ck_number k, ck_sha k))
           (λ '(o, r, n, s), mkChangeCacheKey o r n s)). by intros [].
Defined.

Definition cacheKey (pr : PullRequest) : changeCacheKey :=
  mkChangeCacheKey (pr_OwnerLogin pr) (pr_RepoName pr) (pr_Number pr) (pr_HeadRefOID pr).

Record changedFilesAgent := mkChangedFilesAgent {
  changeCache : gmap changeCacheKey (list string);
  nextChangeCache : gmap changeCacheKey (list string) }.

Definition new_agent : changedFilesAgent := mkChangedFilesAgent ∅ ∅.

Definition remember (k : changeCacheKey) (files : list string) (a : changedFilesAgent)
    : changedFilesAgent :=
  mkChangedFilesAgent (changeCache a) (<[k := files]> (nextChangeCache a)).

(** What a call did: the state, the files, and whether GitHub was asked. *)
Record lookup_result := mkLookupResult {
  lr_agent : changedFilesAgent; lr_files : result (list string); lr_asked : bool }.

(** [filenames] is what [GetPullRequestChanges] answers at the moment, as file
    names. *)
Definition prChanges (filenames : result (list string)) (a : changedFilesAgent)
    (pr : PullRequest) : lookup_result :=
  let k := cacheKey pr in
  match changeCache a !! k with
  | Some changedFiles => mkLookupResult (remember k changedFiles a) (Ok changedFiles) false
  | None =>
      match nextChangeCache a !! k with
      | Some changedFiles => mkLookupResult a (Ok changedFiles) false
      | None =>
          match wrap_args "error getting PR changes for #%d: %v" [AInt (pr_Number pr)] filenames with
          | Err e => mkLookupResult a (Err e) true
          | Ok changedFiles => mkLookupResult (remember k changedFiles a) (Ok changedFiles) true
          end
      end
  end.

Definition prune (a : changedFilesAgent) : changedFilesAgent :=
  mkChangedFilesAgent (nextChangeCache a) ∅.

(** ** The agent over time *)

(** A run: look-ups with what GitHub would answer at that moment, and prunes. *)
Inductive op : Type :=
| Lookup (pr : PullRequest) (answer : result (list string))
| Prune.

Fixpoint run_ops (a : changedFilesAgent) (ops : list op)
    : changedFilesAgent * list (PullRequest * lookup_result) :=
  match ops with
  | [] => (a, [])
  | Lookup pr answer :: ops =>
      let r := prChanges answer a pr in
      let '(a, rs) := run_ops (lr_agent r) ops in (a, (pr, r) :: rs)
  | Prune :: ops => run_ops (prune a) ops
  end.

Definition lookups_of (k : changeCacheKey) (o : op) : Prop :=
  match o with Lookup pr _ => cacheKey pr = k | Prune => False end.
Definition not_prune (o : op) : Prop := o ≠ Prune.

Lemma prChanges_next answer a pr k :
  (k ∈ dom (nextChangeCache a) → k ∈ dom (nextChangeCache (lr_agent (prChanges answer a pr)))) ∧
  (cacheKey pr ≠ k → k ∈ dom (nextChangeCache (lr_agent (prChanges answer a pr))) →
   k ∈ dom (nextChangeCache a)) ∧
  changeCache (lr_agent (prChanges answer a pr)) = changeCache a ∧
  (is_ok (lr_files (prChanges answer a pr)) = true →
   cacheKey pr ∈ dom (nextChangeCache (lr_agent (prChanges answer a pr)))).
Proof.
  unfold prChanges. destruct (changeCache a !! cacheKey pr) as [fs|] eqn:E1; cbn.
  { split_and!; set_solver. }
  destruct (nextChangeCache a !! cacheKey pr) as [fs|] eqn:E2; cbn.
  { split_and!; try done. intros _. by apply elem_of_dom. }
  destruct answer as [fs|e]; cbn; split_and!; set_solver.
Qed.

Lemma run_period a ops k :
  Forall not_prune ops →
  (k ∈ dom (nextChangeCache a) → k ∈ dom (nextChangeCache (run_ops a ops).1)) ∧
  (Forall (λ o, ¬ lookups_of k o) ops → k ∈ dom (nextChangeCache (run_ops a ops).1) →
   k ∈ dom (nextChangeCache a)) ∧
  changeCache (run_ops a ops).1 = changeCache a.
Proof.
  intros Hops. revert a. induction Hops as [|o ops Ho _ IH]; intros a; [done|].
  destruct o as [pr answer|]; [|done]. cbn.
  destruct (run_ops _ ops) as [a' rs] eqn:E. cbn.
  destruct (prChanges_next answer a pr k) as (H1 & H2 & H3 & _).
  specialize (IH (lr_agent (prChanges answer a pr))). rewrite E in IH. cbn in IH.
  destruct IH as (I1 & I2 & I3). split_and!; [auto| |congruence].
  intros [Hn Hf]%Forall_cons Hk. apply H2; auto.
Qed.

Section cache_proofs.
(** The files of a pull request at a head do not change; asking may still fail,
    and [attempt] says how the [n]-th call of a run goes. *)
Context (files : changeCacheKey → list string).
Definition honest (k : changeCacheKey) (r : result (list string)) : Prop :=
  ∀ fs, r = Ok fs → fs = files k.

Definition op_honest (o : op) : Prop :=
  match o with Lookup pr answer => honest (cacheKey pr) answer | Prune => True end.

Definition coherent (a : changedFilesAgent) : Prop :=
  map_Forall (λ k fs, fs = files k) (changeCache a) ∧
  map_Forall (λ k fs, fs = files k) (nextChangeCache a).

Lemma remember_coherent k a : coherent a → coherent (remember k (files k) a).
Proof. intros [H1 H2]. split; [done|]. by apply map_Forall_insert_2. Qed.

(** What a look-up returns on success, and that it never asks for a held key. *)
Lemma prChanges_coherent answer a pr :
  coherent a → honest (cacheKey pr) answer →
  coherent (lr_agent (prChanges answer a pr)) ∧
  ∀ fs, lr_files (prChanges answer a pr) = Ok fs → fs = files (cacheKey pr).
Proof.
  intros Hc Hh. unfold prChanges. destruct Hc as [H1 H2].
  destruct (changeCache a !! cacheKey pr) as [fs|] eqn:E1.
  { rewrite (H1 _ _ E1). split; [by apply remember_coherent|]. by intros ? [= <-]. }
  destruct (nextChangeCache a !! cacheKey pr) as [fs|] eqn:E2.
  { rewrite (H2 _ _ E2). split; [done|]. by intros ? [= <-]. }
  destruct answer as [fs|e]; cbn; [|done].
  rewrite (Hh fs) by done. split; [by apply remember_coherent|]. by intros ? [= <-].
Qed.

(** However look-ups and prunes interleave, and whatever GitHub fails to
    answer in between, a look-up that succeeds returns the files of that pull
    request at that head: entries of an older head are never used. *)
Theorem changed_files_sound ops :
  Forall op_honest ops →
  Forall (λ '(pr, r), ∀ fs, lr_files r = Ok fs → fs = files (cacheKey pr))
    (run_ops new_agent ops).2.
Proof.
  intros Hops. assert (coherent new_agent) as Hc by (split; apply map_Forall_empty).
  revert Hc. generalize new_agent. induction Hops as [|o ops Ho _ IH]; intros a Hc; [by constructor|].
  destruct o as [pr answer|]; cbn.
  - destruct (prChanges_coherent answer a pr Hc Ho) as [Hc' Hr].
    specialize (IH _ Hc'). destruct (run_ops _ ops). by constructor.
  - apply IH. destruct Hc as [_ H2]. split; [done|]. apply map_Forall_empty.
Qed.

End cache_proofs.

(** Once a pull request's files are known, GitHub is not asked for them again
    in this sync or the next, and they are forgotten after a sync in which they
    were not used. *)
Theorem changed_files_retention a pr answer this next answer' :
  is_ok (lr_files (prChanges answer a pr)) = true →
  Forall not_prune this → Forall not_prune next →
  let a1 := (run_ops (lr_agent (prChanges answer a pr)) this).1 in
  let a2 := (run_ops (prune a1) next).1 in
  lr_asked (prChanges answer' a1 pr) = false ∧
  lr_asked (prChanges answer' a2 pr) = false ∧
  (Forall (λ o, ¬ lookups_of (cacheKey pr) o) next →
   cacheKey pr ∉ dom (changeCache (prune a2)) ∪ dom (nextChangeCache (prune a2))).
Proof.
  intros Hok Hthis Hnext a1 a2. set (k := cacheKey pr).
  destruct (prChanges_next answer a pr k) as (_ & _ & _ & Hin). specialize (Hin Hok).
  destruct (run_period (lr_agent (prChanges answer a pr)) this k Hthis) as (Hk1 & _ & _).
  specialize (Hk1 Hin). fold a1 in Hk1.
  destruct (run_period (prune a1) next k Hnext) as (_ & Hk2 & Hc2). fold a2 in Hk2, Hc2.
  split_and!.
  - unfold prChanges. destruct (changeCache a1 !! cacheKey pr); [done|].
    apply elem_of_dom in Hk1 as [fs Hfs]. fold k. by rewrite Hfs.
  - unfold prChanges. rewrite Hc2. cbn. apply elem_of_dom in Hk1 as [fs Hfs]. fold k.
    by rewrite Hfs.
  - intros Hunused. cbn. rewrite dom_empty_L. specialize (Hk2 Hunused). cbn in Hk2. set_solver.
Qed.

(** ** Witnesses *)

Definition example_pr : PullRequest :=
  mkPullRequest 1 "a" "master" "refs/heads/" "b" "sha1" "" "r" "o/r" "o" [] [] None "" "" 0%Z.

Lemma changed_files_sound_witness :
  Forall (op_honest (λ _, ["f"])) [Lookup example_pr (Ok ["f"]); Prune; Lookup example_pr (Ok ["f"])] ∧
  Forall (λ '(pr, r), ∀ fs, lr_files r = Ok fs → fs = ["f"])
    (run_ops new_agent [Lookup example_pr (Ok ["f"]); Prune; Lookup example_pr (Ok ["f"])]).2.
Proof.
  assert (Forall (op_honest (λ _, ["f"]))
    [Lookup example_pr (Ok ["f"]); Prune; Lookup example_pr (Ok ["f"])]) as H.
  { repeat constructor; by intros ? [= <-]. }
  split; [exact H|]. exact (changed_files_sound (λ _, ["f"]) _ H).
Defined.

Lemma changed_files_retention_witness :
  lr_asked (prChanges (Ok ["f"]) new_agent example_pr) = true ∧
  lr_asked (prChanges (Err (errors_New "down"))
              (run_ops (prune (lr_agent (prChanges (Ok ["f"]) new_agent example_pr))) []).1
              example_pr) = false.
Proof.
  split; [reflexivity|].
  exact (proj1 (proj2 (changed_files_retention new_agent example_pr (Ok ["f"]) [] []
    (Err (errors_New "down")) eq_refl (Forall_nil_2 _) (Forall_nil_2 _)))).
Defined.
