(* ===== verification/TideHistory.v ===== *)
(** * Tide's action history (tide/history/history.go)

    A [recordLog] is a ring buffer of the last [limit] records; [History] keeps
    one per pool, and stores and reloads them as lists, newest first.  Panics (an
    index out of range, a division by zero) are [None]. *)

From S2P Require Import Prelude Api.

Record Record_ := mkRecord {
  rec_Time : Time; rec_Action : string; rec_BaseSHA : string;
  rec_Target : list Pull; rec_Err : string }.

Record recordLog := mkRecordLog {
  rl_buff : list Record_; rl_head : Z; rl_limit : Z;
  rl_cachedSlice : option (list Record_) }.

Definition newRecordLog (sizeLimit : Z) : recordLog := mkRecordLog [] (-1) sizeLimit None.

(** Go's indexing: a negative or too large index panics. *)
Definition index {A} (l : list A) (i : Z) : may_panic A :=
  if bool_decide (0 ≤ i)%Z then l !! Z.to_nat i else None.

Definition add (rec : Record_) (rl : recordLog) : may_panic recordLog :=
  if bool_decide (rl_limit rl = 0%Z) then None
  else
    let head := Z.rem (rl_head rl + 1) (rl_limit rl) in
    if bool_decide (Z.of_nat (length (rl_buff rl)) < rl_limit rl)%Z
    then Some (mkRecordLog (rl_buff rl ++ [rec]) head (rl_limit rl) None)
    else
      _ ← index (rl_buff rl) head;
      Some (mkRecordLog (<[Z.to_nat head := rec]> (rl_buff rl)) head (rl_limit rl) None).

(** The [i]-th newest record. *)
Definition nth_newest (rl : recordLog) (i : nat) : may_panic Record_ :=
  index (rl_buff rl) (Z.rem (rl_limit rl + rl_head rl - Z.of_nat i) (rl_limit rl)).

Definition toSlice (rl : recordLog) : may_panic (list Record_ * recordLog) :=
  match rl_cachedSlice rl with
  | Some s => Some (s, rl)
  | None =>
      res ← mapM (nth_newest rl) (seq 0 (length (rl_buff rl)));
      Some (res, mkRecordLog (rl_buff rl) (rl_head rl) (rl_limit rl) (Some res))
  end.

(** ** One log per pool *)

Record History := mkHistory {
  h_logs : gmap string recordLog; h_logSizeLimit : Z }.

Definition sort_targets (targets : list Pull) : list Pull := sort_by pull_Number targets.

Definition addRecord (poolKey : string) (rec : Record_) (h : History) : may_panic History :=
  let rl := default (newRecordLog (h_logSizeLimit h)) (h_logs h !! poolKey) in
  rl ← add rec rl;
  Some (mkHistory (<[poolKey := rl]> (h_logs h)) (h_logSizeLimit h)).

(** [History.Record] at time [t]. *)
Definition record_action (t : Time) (poolKey action baseSHA err : string)
    (targets : list Pull) (h : History) : may_panic History :=
  addRecord poolKey (mkRecord t action baseSHA (sort_targets targets) err) h.

(** [AllRecords], without the cached slices it leaves behind. *)
Definition AllRecords (h : History) : gmap string (list Record_) :=
  omap (λ rl, fst <$> toSlice rl) (h_logs h).

(** Reloading one pool: the newest [limit] records, oldest of them first. *)
Fixpoint add_all (recs : list Record_) (rl : recordLog) : may_panic recordLog :=
  match recs with
  | [] => Some rl
  | rec :: recs => rl ← add rec rl; add_all recs rl
  end.

Definition load_log (maxRecordsPerKey : Z) (records : list Record_) : may_panic recordLog :=
  let limit := if bool_decide (Z.of_nat (length records) < maxRecordsPerKey)%Z
               then Z.of_nat (length records) else maxRecordsPerKey in
  add_all (rev (take (Z.to_nat limit) records)) (newRecordLog maxRecordsPerKey).

(** [readHistory] once the file is decoded. *)
Definition load_history (maxRecordsPerKey : Z) (recordsByPool : gmap string (list Record_))
    : History :=
  mkHistory (omap (load_log maxRecordsPerKey) recordsByPool) maxRecordsPerKey.

(** ** The ring holds the last records *)

(** [rl] after the records [rs], oldest first, have been added. *)
Record log_of (limit : nat) (rs : list Record_) (rl : recordLog) : Prop := {
  lo_pos : 0 < limit;
  lo_limit : rl_limit rl = Z.of_nat limit;
  lo_length : length (rl_buff rl) = length rs `min` limit;
  lo_head : rl_head rl = if decide (rs = []) then (-1)%Z
                         else Z.of_nat ((length rs - 1) mod limit);
  lo_buff j : j < length rs `min` limit →
    rl_buff rl !! ((length rs - 1 - j) mod limit) = rs !! (length rs - 1 - j);
  lo_cache s : rl_cachedSlice rl = Some s → s = take limit (rev rs) }.

Lemma log_of_new limit : 0 < limit → log_of limit [] (newRecordLog (Z.of_nat limit)).
Proof. intros ?. split; cbn; try done; lia. Qed.

Lemma mod_far n j limit : 0 < j < limit → j ≤ n → (n - j) mod limit ≠ n mod limit.
Proof.
  intros Hj Hn E. pose proof (Nat.div_mod_eq n limit). pose proof (Nat.div_mod_eq (n - j) limit).
  rewrite E in *. assert (limit * (n / limit) = limit * ((n - j) / limit) + j) as Hd by lia.
  assert (n / limit ≤ (n - j) / limit ∨ (n - j) / limit + 1 ≤ n / limit) as [|] by lia; nia.
Qed.

Lemma log_of_add limit rs rl rec :
  log_of limit rs rl → ∃ rl', add rec rl = Some rl' ∧ log_of limit (rs ++ [rec]) rl'.
Proof.
  intros [Hp Hl Hlen Hh Hb Hc]. unfold add. rewrite Hl.
  rewrite bool_decide_eq_false_2 by lia.
  assert (Z.rem (rl_head rl + 1) (Z.of_nat limit) = Z.of_nat (length rs mod limit)) as ->.
  { rewrite Hh. case_decide as E.
    - subst. cbn. rewrite Nat.Div0.mod_0_l. apply Z.rem_0_l. lia.
    - rewrite Z.rem_mod_nonneg by lia.
      replace (Z.of_nat ((length rs - 1) mod limit) + 1)%Z
        with (Z.of_nat ((length rs - 1) mod limit + 1)) by lia.
      rewrite <-Nat2Z.inj_mod, Nat.Div0.add_mod_idemp_l.
      destruct rs; [done|]. do 2 f_equal. cbn [length]. lia. }
  assert (length (rs ++ [rec]) = S (length rs)) as Hlen'
    by (rewrite length_app; cbn; lia).
  assert (length rs < limit ∨ limit ≤ length rs) as [Hlt|Hge] by lia.
  - rewrite bool_decide_eq_true_2 by lia. eexists. split; [done|].
    split; cbn [rl_limit rl_buff rl_head rl_cachedSlice]; try done; rewrite ?Hlen'.
    + rewrite length_app. cbn [length]. lia.
    + rewrite decide_False by (intros E%(f_equal length); rewrite Hlen' in E; done).
      by replace (S (length rs) - 1) with (length rs) by lia.
    + intros j Hj. rewrite Nat.mod_small by lia.
      assert (length rs - j = length rs ∨ length rs - j < length rs) as [E|?] by lia.
      * replace (S (length rs) - 1 - j) with (length rs) by lia.
        rewrite !lookup_app_r by lia. rewrite Hlen. by replace (length rs `min` limit) with (length rs) by lia.
      * rewrite !lookup_app_l by lia. specialize (Hb (j - 1)).
        rewrite Nat.mod_small in Hb by lia.
        replace (length rs - 1 - (j - 1)) with (S (length rs) - 1 - j) in Hb by lia.
        apply Hb. lia.
  - rewrite bool_decide_eq_false_2 by lia. pose proof (Nat.mod_upper_bound (length rs) limit).
    unfold index. rewrite bool_decide_eq_true_2 by lia. rewrite Nat2Z.id.
    destruct (lookup_lt_is_Some_2 (rl_buff rl) (length rs mod limit)) as [old Hold]; [lia|].
    rewrite Hold. cbn. eexists. split; [done|].
    split; cbn [rl_limit rl_buff rl_head rl_cachedSlice]; try done; rewrite ?Hlen'.
    + rewrite length_insert. lia.
    + rewrite decide_False by (intros E%(f_equal length); rewrite Hlen' in E; done).
      by replace (S (length rs) - 1) with (length rs) by lia.
    + intros j Hj. destruct j as [|j].
      * replace (S (length rs) - 1 - 0) with (length rs) by lia.
        rewrite list_lookup_insert_eq by lia. by rewrite lookup_app_r, Nat.sub_diag by lia.
      * replace (S (length rs) - 1 - S j) with (length rs - S j) by lia.
        rewrite list_lookup_insert_ne by (apply not_eq_sym, mod_far; lia).
        rewrite lookup_app_l by lia. specialize (Hb j).
        replace (length rs - 1 - j) with (length rs - S j) in Hb by lia. apply Hb. lia.
Qed.

Lemma log_of_add_all limit rs rs' rl :
  log_of limit rs rl → ∃ rl', add_all rs' rl = Some rl' ∧ log_of limit (rs ++ rs') rl'.
Proof.
  revert rs rl. induction rs' as [|rec rs' IH]; intros rs rl Hlog; cbn.
  { exists rl. by rewrite app_nil_r. }
  destruct (log_of_add _ _ _ rec Hlog) as (rl1 & -> & H1). cbn.
  destruct (IH _ _ H1) as (rl' & -> & H2). exists rl'. by rewrite <-app_assoc in H2.
Qed.

Lemma log_of_toSlice limit rs rl :
  log_of limit rs rl →
  ∃ rl', toSlice rl = Some (take limit (rev rs), rl') ∧ log_of limit rs rl'.
Proof.
  intros Hlog. pose proof Hlog as [Hp Hl Hlen Hh Hb Hc]. unfold toSlice.
  destruct (rl_cachedSlice rl) as [s|] eqn:Es.
  { rewrite (Hc s) by done. by exists rl. }
  assert (mapM (nth_newest rl) (seq 0 (length (rl_buff rl))) = Some (take limit (rev rs))) as ->.
  2: { eexists. split; [done|]. split; cbn; try done. by intros ? [= <-]. }
  apply mapM_Some, Forall2_same_length_lookup. split.
  { rewrite length_seq, length_take, length_rev. lia. }
  intros i k r Hk Hr. apply lookup_seq in Hk as [-> Hi]. cbn [Nat.add].
  rewrite lookup_take in Hr. case_decide as Hil; [|done].
  assert (rs ≠ []) as Hne by (intros ->; cbn in *; lia).
  rewrite decide_False in Hh by done.
  unfold nth_newest, index. rewrite Hl, Hh.
  assert (Z.rem (Z.of_nat limit + Z.of_nat ((length rs - 1) mod limit) - Z.of_nat i) (Z.of_nat limit)
          = Z.of_nat ((length rs - 1 - i) mod limit)) as ->.
  { pose proof (Nat.mod_upper_bound (length rs - 1) limit). rewrite Z.rem_mod_nonneg by lia.
    replace (Z.of_nat limit + Z.of_nat ((length rs - 1) mod limit) - Z.of_nat i)%Z
      with (Z.of_nat (limit - i + (length rs - 1) mod limit)) by lia.
    rewrite <-Nat2Z.inj_mod, Nat.Div0.add_mod_idemp_r. f_equal.
    replace (limit - i + (length rs - 1)) with (length rs - 1 - i + 1 * limit) by lia.
    by rewrite Nat.Div0.mod_add. }
  rewrite bool_decide_eq_true_2 by lia. rewrite Nat2Z.id, Hb by lia.
  rewrite <-Hr. change (rev rs) with (List.rev rs).
  assert (List.rev rs = reverse rs) as -> by (unfold reverse; by rewrite List.rev_alt).
  rewrite reverse_lookup by lia. f_equal. lia.
Qed.

(** A history whose log for each pool holds what was recorded for that pool. *)
Definition history_of (limit : nat) (recorded : string → list Record_) (h : History) : Prop :=
  h_logSizeLimit h = Z.of_nat limit ∧ 0 < limit ∧
  ∀ k, match h_logs h !! k with
       | Some rl => log_of limit (recorded k) rl
       | None => recorded k = []
       end.

Lemma addRecord_history limit recorded h k rec :
  history_of limit recorded h →
  ∃ h', addRecord k rec h = Some h' ∧
    history_of limit (λ j, if decide (j = k) then recorded j ++ [rec] else recorded j) h'.
Proof.
  intros (Hl & Hp & Hlogs). unfold addRecord.
  assert (log_of limit (recorded k) (default (newRecordLog (h_logSizeLimit h)) (h_logs h !! k)))
    as Hlog.
  { specialize (Hlogs k). destruct (h_logs h !! k); cbn; [done|]. rewrite Hlogs, Hl.
    by apply log_of_new. }
  destruct (log_of_add _ _ _ rec Hlog) as (rl & -> & Hrl). cbn. eexists. split; [done|].
  split_and!; [done|done|]. intros j. cbn. case_decide as E; subst.
  - by rewrite lookup_insert_eq.
  - rewrite lookup_insert_ne by done. apply Hlogs.
Qed.

(** A run of [n] recordings, each for a pool. *)
Fixpoint record_all (recs : list (string * Record_)) (h : History) : may_panic History :=
  match recs with
  | [] => Some h
  | (k, rec) :: recs => h ← addRecord k rec h; record_all recs h
  end.

Definition recorded_for (recs : list (string * Record_)) (k : string) : list Record_ :=
  (filter (λ kr : string * Record_, kr.1 = k) recs).*2.

Lemma record_all_history limit recs seen h :
  history_of limit (recorded_for seen) h →
  ∃ h', record_all recs h = Some h' ∧ history_of limit (recorded_for (seen ++ recs)) h'.
Proof.
  revert seen h. induction recs as [|[k rec] recs IH]; intros seen h Hh; cbn.
  { exists h. by rewrite app_nil_r. }
  destruct (addRecord_history _ _ _ k rec Hh) as (h1 & -> & (H1 & H2 & H3)). cbn.
  destruct (IH (seen ++ [(k, rec)]) h1) as (h' & -> & Hh').
  { split_and!; [done|done|]. intros j. specialize (H3 j).
    assert (recorded_for (seen ++ [(k, rec)]) j =
      if decide (j = k) then recorded_for seen j ++ [rec] else recorded_for seen j) as ->; [|done].
    unfold recorded_for. rewrite filter_app, fmap_app, filter_cons, filter_nil.
    repeat case_decide; subst; try done; cbn in *; try done. by rewrite app_nil_r. }
  exists h'. by rewrite <-app_assoc in Hh'.
Qed.

Lemma AllRecords_history limit recorded h k :
  history_of limit recorded h →
  default [] (AllRecords h !! k) = take limit (rev (recorded k)).
Proof.
  intros (_ & Hp & Hlogs). unfold AllRecords. rewrite lookup_omap. specialize (Hlogs k).
  destruct (h_logs h !! k) as [rl|]; cbn.
  - destruct (log_of_toSlice _ _ _ Hlogs) as (rl' & -> & _). done.
  - rewrite Hlogs. by destruct limit.
Qed.

(** With a positive size limit, recording never panics, and what is served for
    a pool is its last [limit] records, newest first. *)
Theorem history_last_records limit recs :
  0 < limit →
  ∃ h, record_all recs (mkHistory ∅ (Z.of_nat limit)) = Some h ∧
    ∀ k, default [] (AllRecords h !! k) = take limit (rev (recorded_for recs k)).
Proof.
  intros Hp. destruct (record_all_history limit recs [] (mkHistory ∅ (Z.of_nat limit)))
    as (h & Hh & Hof).
  { by split_and!. }
  exists h. split; [done|]. intros k. by apply AllRecords_history.
Qed.

(** Reloading stored records under a limit, possibly another one than they were
    stored under, does not panic and serves the newest of them unchanged. *)
Theorem load_history_roundtrip limit (stored : gmap string (list Record_)) k :
  0 < limit →
  default [] (AllRecords (load_history (Z.of_nat limit) stored) !! k)
  = take limit (default [] (stored !! k)).
Proof.
  intros Hp. unfold AllRecords, load_history. cbn. rewrite !lookup_omap.
  destruct (stored !! k) as [records|]; cbn; [|by rewrite take_nil].
  assert (∃ rl, load_log (Z.of_nat limit) records = Some rl ∧
                log_of limit (rev (take limit records)) rl) as (rl & -> & Hrl).
  { unfold load_log.
    assert (take (Z.to_nat (if bool_decide (Z.of_nat (length records) < Z.of_nat limit)%Z
                            then Z.of_nat (length records) else Z.of_nat limit)) records
            = take limit records) as ->.
    { case_bool_decide; rewrite Nat2Z.id; [|done]. rewrite !take_ge by lia. done. }
    apply (log_of_add_all limit []). by apply log_of_new. }
  cbn. destruct (log_of_toSlice _ _ _ Hrl) as (rl' & -> & _). cbn.
  rewrite rev_involutive. rewrite take_take. f_equal. lia.
Qed.

(** ** Witnesses *)

Lemma history_last_records_witness :
  0 < 2 ∧ ∃ h, record_all [("a", mkRecord 1%Z "MERGE" "" [] ""); ("a", mkRecord 2%Z "MERGE" "" [] "");
                           ("a", mkRecord 3%Z "MERGE" "" [] "")] (mkHistory ∅ 2%Z) = Some h ∧
  default [] (AllRecords h !! "a") = [mkRecord 3%Z "MERGE" "" [] ""; mkRecord 2%Z "MERGE" "" [] ""].
Proof.
  assert (0 < 2) as H by lia. split; [exact H|].
  destruct (history_last_records 2 [("a", mkRecord 1%Z "MERGE" "" [] "");
    ("a", mkRecord 2%Z "MERGE" "" [] ""); ("a", mkRecord 3%Z "MERGE" "" [] "")] H) as (h & Hh & Hk).
  exists h. split; [exact Hh|]. exact (Hk "a").
Defined.

Lemma load_history_roundtrip_witness :
  0 < 1 ∧ default [] (AllRecords (load_history 1%Z
    {["a" := [mkRecord 2%Z "MERGE" "" [] ""; mkRecord 1%Z "MERGE" "" [] ""]]}) !! "a")
  = [mkRecord 2%Z "MERGE" "" [] ""].
Proof.
  assert (0 < 1) as H by lia. split; [exact H|].
  exact (load_history_roundtrip 1
    {["a" := [mkRecord 2%Z "MERGE" "" [] ""; mkRecord 1%Z "MERGE" "" [] ""]]} "a" H).
Defined.
