(* ===== verification/TideBlockers.v ===== *)
(** * Searching GitHub, and merge blockers (tide/search.go, tide/blockers/blockers.go)

    Both searches page through a GraphQL result; an issue with the blocker label
    blocks the branches its title names, or its whole repository. *)

From S2P Require Import Prelude Api TideTypes.
#[local] Open Scope go_scope.

(** ** Paging *)

Record page (A : Type) := mkPage { pg_Nodes : list A; pg_HasNextPage : bool; pg_EndCursor : string }.
Arguments mkPage {A} _ _ _.
Arguments pg_Nodes {A} _.
Arguments pg_HasNextPage {A} _.
Arguments pg_EndCursor {A} _.

Section paging.
Context {A : Type}.
(** What GitHub answers to the query at a cursor; [None] is the first page. *)
Context (query : option string → result (page A)).

(** The loop of tide's [search]: what was found, and the error; [None] when
    [fuel] pages were not the end. *)
Fixpoint search_loop (fuel : nat) (cursor : option string) (ret : list A)
    : option (list A * option error) :=
  match fuel with
  | 0 => None
  | S fuel =>
      match query cursor with
      | Err err =>
          Some (ret, Some (match cursor with
                           | Some cur => Errorf "cursor: %q, err: %v" [AStr cur; AErr err]
                           | None => err
                           end))
      | Ok sq =>
          let ret := ret ++ pg_Nodes sq in
          if negb (pg_HasNextPage sq) then Some (ret, None)
          else search_loop fuel (Some (pg_EndCursor sq)) ret
      end
  end.

Definition search (fuel : nat) : option (list A * option error) := search_loop fuel None [].

(** The loop of blockers' [search]: an error discards what was found. *)
Fixpoint search_all_loop (fuel : nat) (cursor : option string) (ret : list A)
    : option (result (list A)) :=
  match fuel with
  | 0 => None
  | S fuel =>
      match query cursor with
      | Err err => Some (Err err)
      | Ok sq =>
          let ret := ret ++ pg_Nodes sq in
          if negb (pg_HasNextPage sq) then Some (Ok ret)
          else search_all_loop fuel (Some (pg_EndCursor sq)) ret
      end
  end.

Definition search_all (fuel : nat) : option (result (list A)) := search_all_loop fuel None [].

(** The pages GitHub has from a cursor on, and how the walk over them ends. *)
Inductive pages_from : option string → list (page A) → option error → Prop :=
| pages_last cur p : query cur = Ok p → pg_HasNextPage p = false → pages_from cur [p] None
| pages_fail cur e : query cur = Err e → pages_from cur [] (Some e)
| pages_more cur p ps o :
    query cur = Ok p → pg_HasNextPage p = true →
    pages_from (Some (pg_EndCursor p)) ps o → pages_from cur (p :: ps) o.

Lemma search_loop_pages cur ps o fuel ret :
  pages_from cur ps o → length ps < fuel →
  ∃ err, search_loop fuel cur ret = Some (ret ++ concat (pg_Nodes <$> ps), err) ∧
         (err = None ↔ o = None).
Proof.
  intros Hp. revert fuel ret. induction Hp as [cur p Hq Hn|cur e Hq|cur p ps o Hq Hn _ IH];
    intros [|fuel] ret Hf; cbn in Hf |- *; try lia; rewrite Hq; cbn.
  - rewrite Hn, app_nil_r. by exists None.
  - rewrite app_nil_r. by eexists.
  - rewrite Hn. destruct (IH fuel (ret ++ pg_Nodes p)) as (err & Hs & Herr); [lia|].
    exists err. by rewrite Hs, <-app_assoc.
Qed.

Lemma search_all_loop_pages cur ps o fuel ret :
  pages_from cur ps o → length ps < fuel →
  search_all_loop fuel cur ret =
    Some (match o with None => Ok (ret ++ concat (pg_Nodes <$> ps)) | Some e => Err e end).
Proof.
  intros Hp. revert fuel ret. induction Hp as [cur p Hq Hn|cur e Hq|cur p ps o Hq Hn _ IH];
    intros [|fuel] ret Hf; cbn in Hf |- *; try lia; rewrite Hq; cbn.
  - by rewrite Hn, app_nil_r.
  - done.
  - rewrite Hn, IH by lia. by rewrite <-app_assoc.
Qed.

(** However many pages GitHub has, a search that is given more steps than
    pages returns the nodes of all of them in order; if a page fails, Tide's
    search still returns everything before it with an error, and the blocker
    search returns GitHub's error alone. *)
Theorem search_complete ps o fuel :
  pages_from None ps o → length ps < fuel →
  (∃ err, search fuel = Some (concat (pg_Nodes <$> ps), err) ∧ (err = None ↔ o = None)) ∧
  search_all fuel =
    Some (match o with None => Ok (concat (pg_Nodes <$> ps)) | Some e => Err e end).
Proof.
  intros Hp Hf. split.
  - apply (search_loop_pages _ _ _ _ [] Hp Hf).
  - apply (search_all_loop_pages _ _ _ _ [] Hp Hf).
Qed.
End paging.

(** ** Branches named in a title

    The matches of [(?im)\bbranch:[^\w-]*([\w-./]+)\b].  Giving back part of the
    separator never helps the match, so the run of the group is cut after its
    last word character; without one there is no match at that place. *)

Definition is_word (a : ascii) : bool :=
  let n := Ascii.nat_of_ascii a in
  bool_decide (48 ≤ n ≤ 57) || bool_decide (65 ≤ n ≤ 90) || bool_decide (97 ≤ n ≤ 122)
  || bool_decide (n = 95).

Definition is_sep (a : ascii) : bool := negb (is_word a) && negb (bool_decide (a = "-"%char)).
Definition in_name (a : ascii) : bool :=
  is_word a || bool_decide (a = "-"%char) || bool_decide (a = "."%char) || bool_decide (a = "/"%char).

Fixpoint skip_while (f : ascii → bool) (s : string) : string :=
  match s with
  | EmptyString => EmptyString
  | String a s' => if f a then skip_while f s' else s
  end.

(** The longest prefix inside the class that ends in a word character, and what
    follows it. *)
Fixpoint name_prefix (s : string) : option (string * string) :=
  match s with
  | EmptyString => None
  | String a s' =>
      if in_name a then
        match name_prefix s' with
        | Some (name, rest) => Some (String a name, rest)
        | None => if is_word a then Some (String a EmptyString, s') else None
        end
      else None
  end.

(** "branch:" in any case. *)
Fixpoint strip_prefix_fold (prefix s : string) : option string :=
  match prefix, s with
  | EmptyString, _ => Some s
  | String a p, String b s' =>
      if decide (a = ascii_to_lower b) then strip_prefix_fold p s' else None
  | String _ _, EmptyString => None
  end.

Definition match_here (s : string) : option (string * string) :=
  rest ← strip_prefix_fold "branch:" s; name_prefix (skip_while is_sep rest).

(** The groups found from left to right, and the text without the matches;
    [after_word] says whether the character before is a word character.  Every
    step consumes a character, so the length is fuel enough. *)
Fixpoint scan (fuel : nat) (after_word : bool) (s : string) : list string * string :=
  match fuel, s with
  | 0, _ | _, EmptyString => ([], s)
  | S fuel, String a s' =>
      match (if after_word then None else match_here s) with
      | Some (name, rest) =>
          let '(names, text) := scan fuel true rest in (name :: names, text)
      | None => let '(names, text) := scan fuel (is_word a) s' in (names, String a text)
      end
  end.

Definition parseBranches (str : string) : list string :=
  (scan (String.length str) false str).1.
Definition strip_branches (str : string) : string :=
  (scan (String.length str) false str).2.

(** The examples of blockers_test.go. *)
Example parseBranches_1 :
  parseBranches "BAD THINGS (BLOCKING BRANCH:foo branch:bar) AHHH" = ["foo"; "bar"].
Proof. reflexivity. Qed.
Example parseBranches_2 :
  parseBranches (string_join dquote ["branch: "; "foo"; " branch: "; "bar"; ""]) = ["foo"; "bar"].
Proof. reflexivity. Qed.
Example parseBranches_3 : parseBranches "branch:slash/in/name." = ["slash/in/name"].
Proof. reflexivity. Qed.
Example parseBranches_4 : parseBranches "BAD THINGS (all branches blocked)" = [].
Proof. reflexivity. Qed.

(** ** Blockers *)

Record Blocker := mkBlocker { bl_Number : Z; bl_Title : string; bl_URL : string }.
Record Issue := mkIssue {
  is_Number : Z; is_Title : string; is_URL : string; is_RepoName : string; is_OwnerLogin : string }.

(** [OrgRepo] and [OrgRepoBranch] are compared by their fields. *)
Notation OrgRepo := (string * string)%type.
Notation OrgRepoBranch := (string * string * string)%type.
Record Blockers := mkBlockers {
  bk_Repo : gmap OrgRepo (list Blocker); bk_Branch : gmap OrgRepoBranch (list Blocker) }.

Definition block_of (issue : Issue) : Blocker :=
  mkBlocker (is_Number issue) (strip_branches (is_Title issue)) (is_URL issue).

Definition add_issue (res : Blockers) (issue : Issue) : Blockers :=
  let block := block_of issue in
  match parseBranches (is_Title issue) with
  | [] => mkBlockers
            (map_append (is_OwnerLogin issue, is_RepoName issue) block (bk_Repo res))
            (bk_Branch res)
  | branches => mkBlockers (bk_Repo res)
      (foldl (λ m branch, map_append (is_OwnerLogin issue, is_RepoName issue, branch) block m)
         (bk_Branch res) branches)
  end.

Definition fromIssues (issues : list Issue) : Blockers :=
  foldl add_issue (mkBlockers ∅ ∅) issues.

Definition GetApplicable (b : Blockers) (org repo branch : string) : list Blocker :=
  sort_by bl_Number
    (default [] (bk_Repo b !! (org, repo)) ++ default [] (bk_Branch b !! (org, repo, branch))).

Definition blockerQuery (label orgRepoTokens : string) : string :=
  string_join " " ["is:issue"; "state:open"; "label:" +:+ quoted label; orgRepoTokens].

Definition FindAll (query : string → option string → result (page Issue)) (fuel : nat)
    (label orgRepoTokens : string) : option (result Blockers) :=
  issues ← search_all (query (blockerQuery label orgRepoTokens)) fuel;
  Some (let? issues := wrap_err "error searching for blocker issues: %v" issues in
        Ok (fromIssues issues)).

(** An issue blocks a branch: it is in its repository, and names the branch or
    none. *)
Definition blocks (org repo branch : string) (issue : Issue) : Prop :=
  is_OwnerLogin issue = org ∧ is_RepoName issue = repo ∧
  (parseBranches (is_Title issue) = [] ∨ branch ∈ parseBranches (is_Title issue)).
#[export] Instance blocks_dec org repo branch issue : Decision (blocks org repo branch issue).
Proof. unfold blocks. apply _. Defined.

Lemma append_branches_spec (k : OrgRepo) (block x : Blocker) (branches : list string)
    (m : gmap OrgRepoBranch (list Blocker)) org repo branch :
  x ∈ default [] (foldl (λ m b, map_append (k, b) block m) m branches !! (org, repo, branch)) ↔
  x ∈ default [] (m !! (org, repo, branch)) ∨
  (x = block ∧ k = (org, repo) ∧ branch ∈ branches).
Proof.
  revert m. induction branches as [|b bs IH]; intros m; cbn [foldl].
  { rewrite elem_of_nil. naive_solver. }
  rewrite IH, lookup_map_append, elem_of_cons. case_decide as E.
  - injection E as -> ->. rewrite elem_of_app, list_elem_of_singleton. naive_solver.
  - split; [naive_solver|]. intros [?|(-> & -> & [->|?])]; [by left|done|naive_solver].
Qed.

(** The blockers of a branch are exactly the labelled issues of its repository
    whose title names that branch or no branch at all, by increasing number. *)
Theorem GetApplicable_spec issues org repo branch :
  (∀ x, x ∈ GetApplicable (fromIssues issues) org repo branch ↔
        ∃ issue, issue ∈ issues ∧ blocks org repo branch issue ∧ x = block_of issue) ∧
  StronglySorted (key_le bl_Number) (GetApplicable (fromIssues issues) org repo branch).
Proof.
  split; [|apply sort_by_sorted]. intros x. unfold GetApplicable. rewrite elem_of_sort_by, elem_of_app.
  unfold fromIssues.
  apply (foldl_ind add_issue (λ b seen,
    x ∈ default [] (bk_Repo b !! (org, repo)) ∨ x ∈ default [] (bk_Branch b !! (org, repo, branch)) ↔
    ∃ issue, issue ∈ seen ∧ blocks org repo branch issue ∧ x = block_of issue)).
  { cbn. rewrite !lookup_empty. cbn. set_solver. }
  intros b seen issue IH.
  assert (∀ i, i ∈ seen ++ [issue] ↔ i ∈ seen ∨ i = issue) as Hin.
  { intros i. by rewrite elem_of_app, list_elem_of_singleton. }
  setoid_rewrite Hin. unfold add_issue.
  destruct (parseBranches (is_Title issue)) as [|br brs] eqn:Ebr; cbn [bk_Repo bk_Branch].
  - rewrite lookup_map_append. case_decide as E.
    + rewrite elem_of_app, list_elem_of_singleton. injection E as Ho Hr.
      assert (blocks org repo branch issue) by (by split_and!; [..|left]).
      naive_solver.
    + rewrite IH. split; [naive_solver|].
      intros (i & [?| ->] & Hb & ?); [naive_solver|]. destruct Hb as (<- & <- & _). done.
  - rewrite append_branches_spec, <-Logic.or_assoc, IH.
    assert (blocks org repo branch issue ↔
      (is_OwnerLogin issue, is_RepoName issue) = (org, repo) ∧ branch ∈ br :: brs) as Hbl.
    { unfold blocks. rewrite Ebr. split; [intros (-> & -> & [?|?]); done|].
      intros [[= -> ->] ?]. auto. }
    split.
    + intros [(i & ? & ? & ?)|(-> & Hk & Hbr)]; [exists i; auto|].
      exists issue. split; [by right|]. by rewrite Hbl.
    + intros (i & [Hi| ->] & Hb & ->); [left; by exists i|right]. apply Hbl in Hb as [? ?].
      done.
Qed.

(** ** Witnesses *)

Definition two_pages (cur : option string) : result (page Z) :=
  match cur with
  | None => Ok (mkPage [1; 2]%Z true "next")
  | Some _ => Ok (mkPage [3]%Z false "")
  end.

Lemma search_complete_witness :
  pages_from two_pages None [mkPage [1; 2]%Z true "next"; mkPage [3]%Z false ""] None ∧
  search_all two_pages 3 = Some (Ok [1; 2; 3]%Z).
Proof.
  assert (pages_from two_pages None [mkPage [1; 2]%Z true "next"; mkPage [3]%Z false ""] None) as H.
  { apply pages_more; [done..|]. by apply pages_last. }
  split; [exact H|]. refine (proj2 (search_complete two_pages _ None 3 H _)). cbn. lia.
Defined.
