(* ===== verification/TideStatus.v ===== *)
(** * Tide's status controller (tide/status.go)

    The "tide" context of every open pull request: in the pool, or why not.  The
    calls that set a status are the result; reading GitHub and the ProwJob cache
    are functions. *)

From S2P Require Import Prelude Api JobConfig TideTypes TideConfig PjUtil GitHub TidePool TideBlockers.
#[local] Open Scope go_scope.

Definition statusInPool : string := "In merge pool.".
(** [fmt.Sprintf(statusNotInPool, reason)] *)
Definition statusNotInPool (reason : string) : string := "Not mergeable." +:+ reason.
Definition maxStatusDescriptionLength : nat := 140.

(** ** What is wrong with a pull request *)

Definition maxLabelChars : nat := 50.

(** The labels after the first that still fit. *)
Fixpoint truncate_more (chars : nat) (labels : list string) : list string :=
  match labels with
  | [] => []
  | l :: rest =>
      if bool_decide (maxLabelChars < chars + String.length l) then []
      else l :: truncate_more (chars + (String.length l + 2)) rest
  end.

Definition truncate (labels : list string) : list string :=
  match labels with
  | [] => []
  | l :: rest => l :: truncate_more (String.length l) rest
  end.

(** One of the three messages about a sorted, truncated list. *)
Definition list_desc (one_before one_after many_before many_after : string)
    (items : list string) : string :=
  match truncate (sort_strings items) with
  | [x] => one_before +:+ x +:+ one_after
  | trunced => many_before +:+ string_join ", " trunced +:+ many_after
  end.

(** [if desc == ""]: the first message wins. *)
Definition or_desc (desc more : string) : string := if bool_decide (desc = "") then more else desc.

Definition has_label (pr : PullRequest) (l : string) : bool := bool_decide (l ∈ pr_Labels pr).

Definition branch_forbidden (pr : PullRequest) (q : TideQuery) : bool :=
  bool_decide (pr_BaseRefName pr ∈ tq_ExcludedBranches q) ||
  negb (bool_decide (tq_IncludedBranches q = []) ||
        bool_decide (pr_BaseRefName pr ∈ tq_IncludedBranches q)).

Definition wrong_milestone (pr : PullRequest) (q : TideQuery) : bool :=
  bool_decide (tq_Milestone q ≠ "" ∧ pr_Milestone pr ≠ Some (tq_Milestone q)).

Definition failing_contexts (pr : PullRequest) (cc : contextChecker) : list string :=
  concat ((λ commit, ctx_Context <$> unsuccessfulContexts (cm_Contexts commit) cc) <$>
            filter (λ commit, cm_OID commit = pr_HeadRefOID pr) (pr_Commits pr)).

Definition requirementDiff (pr : PullRequest) (q : TideQuery) (cc : contextChecker)
    : string * Z :=
  let '(desc, diff) :=
    if branch_forbidden pr q
    then (" Merging to branch " +:+ pr_BaseRefName pr +:+ " is forbidden.", 1000%Z)
    else ("", 0%Z) in
  let '(desc, diff) :=
    if wrong_milestone pr q
    then (or_desc desc (" Must be in milestone " +:+ tq_Milestone q +:+ "."), (diff + 100)%Z)
    else (desc, diff) in
  let missingLabels := filter (λ l, has_label pr l = false) (tq_Labels q) in
  let diff := (diff + Z.of_nat (length missingLabels))%Z in
  let desc := match missingLabels with
              | [] => desc
              | _ => or_desc desc (list_desc " Needs " " label." " Needs " " labels." missingLabels)
              end in
  let presentLabels := filter (λ l, has_label pr l = true) (tq_MissingLabels q) in
  let diff := (diff + Z.of_nat (length presentLabels))%Z in
  let desc := match presentLabels with
              | [] => desc
              | _ => or_desc desc (list_desc " Should not have " " label."
                                     " Should not have " " labels." presentLabels)
              end in
  let contexts := failing_contexts pr cc in
  let diff := (diff + Z.of_nat (length contexts))%Z in
  let desc := match contexts with
              | [] => desc
              | _ => or_desc desc (list_desc " Job " " has not succeeded."
                                     " Jobs " " have not succeeded." contexts)
              end in
  (desc, diff).

(** ** The expected status *)

Definition indexKeyPassingJobs (org repo baseSHA headSHA : string) : string :=
  org +:+ "/" +:+ repo +:+ "@" +:+ baseSHA +:+ "+" +:+ headSHA.

Definition indexFuncPassingJobs (pj : ProwJob) : list string :=
  if bool_decide (spec_Type (pj_Spec pj) ≠ PresubmitJob ∧ spec_Type (pj_Spec pj) ≠ BatchJob)
  then []
  else if bool_decide (pj_State pj ≠ SuccessState) then []
  else match spec_Refs (pj_Spec pj) with
       | None => []
       | Some r => (λ pull, indexKeyPassingJobs (refs_Org r) (refs_Repo r) (refs_BaseSHA r)
                              (pull_SHA pull)) <$> refs_Pulls r
       end.

Definition retestingStatus (retested : list string) : string :=
  let all := statusNotInPool (" Retesting: " +:+ string_join " " (sort_strings retested)) in
  if bool_decide (maxStatusDescriptionLength < String.length all) then
    let s := if bool_decide (1 < length retested) then "s" else "" in
    statusNotInPool (" Retesting " +:+ itoa (Z.of_nat (length retested)) +:+ " job" +:+ s +:+ ".")
  else all.

Definition blocked_desc (numbers : list string) : string :=
  let s := if bool_decide (1 < length numbers) then "s" else "" in
  statusNotInPool (" Merging is blocked by issue" +:+ s +:+ " " +:+ string_join ", " numbers +:+ ".").

(** The message of the closest query, and how close it is; -1 before any. *)
Definition closest_query (pr : PullRequest) (cc : contextChecker) (qs : list TideQuery)
    : string * Z :=
  foldl (λ '(minDiff, minDiffCount) q,
    let '(diff, diffCount) := requirementDiff pr q cc in
    if bool_decide (minDiffCount = -1 ∨ diffCount < minDiffCount)%Z
    then (diff, diffCount) else (minDiff, minDiffCount)) ("", (-1)%Z) qs.

Section status.
Context `{GoRange} (c : Config).
Context (GetCombinedStatus : string → string → string → result (list (string * string * string)))
        (ListPassingJobs : string → result (list ProwJob))
        (with_query : string → string → option string).

(** The state and description a pull request should have; [queryMap] caches. *)
Definition expectedStatus (queryMap : QueryMap) (pr : PullRequest)
    (pool : gmap string PullRequest) (cc : contextChecker) (blocks : Blockers) (baseSHA : string)
    : QueryMap * (string * string) :=
  let org := pr_OwnerLogin pr in
  let repo := pr_RepoName pr in
  match pool !! prKey pr with
  | None =>
      match (λ b, itoa (bl_Number b)) <$> GetApplicable blocks org repo (pr_BaseRefName pr) with
      | [] =>
          let '(queryMap, qs) := QueryMap_ForRepo queryMap org repo in
          (queryMap, (StatusPending, statusNotInPool (closest_query pr cc qs).1))
      | numbers => (queryMap, (StatusError, blocked_desc numbers))
      end
  | Some _ =>
      match ListPassingJobs (indexKeyPassingJobs org repo baseSHA (pr_HeadRefOID pr)) with
      | Err _ => (queryMap, (StatusSuccess, statusInPool))
      | Ok items =>
          match MissingRequiredContexts cc ((λ pj, spec_Context (pj_Spec pj)) <$> items) with
          | [] => (queryMap, (StatusSuccess, statusInPool))
          | diff => (queryMap, (StatusPending, retestingStatus diff))
          end
      end
  end.

(** [with_query base q]: the URL with the query parameter set, if [base] parses. *)
Definition targetURL (pr : PullRequest) : string :=
  let t := cfg_Tide c in
  if bool_decide (tide_TargetURL t ≠ "") then tide_TargetURL t
  else if bool_decide (tide_PRStatusBaseURL t ≠ "") then
    default "" (with_query (tide_PRStatusBaseURL t)
      ("is:pr repo:" +:+ pr_NameWithOwner pr +:+ " author:" +:+ pr_AuthorLogin pr +:+
       " head:" +:+ pr_HeadRefName pr))
  else "".

(** The policy of the branch, with the pool's required contexts in place of its
    own. *)
Definition getContextCheckerWithRequiredContexts (org repo branch baseSHA headSHA : string)
    (requiredContexts : list string) : result contextChecker :=
  let? cp := GetTideContextPolicy c org repo branch (λ _, Ok baseSHA) headSHA in
  Ok (policy_checker (mkTideContextPolicy (tcp_SkipUnknownContexts cp) requiredContexts
        (tcp_RequiredIfPresentContexts cp) (tcp_OptionalContexts cp) (tcp_FromBranchProtection cp))).

(** A [CreateStatus] call; its context is always [statusContext]. *)
Record status_call := mkStatusCall {
  sc_org : string; sc_repo : string; sc_sha : string;
  sc_state : string; sc_desc : string; sc_url : string }.

(** The current state and description: those of the last such context. *)
Definition actual_status (contexts : list Context) : string * string :=
  foldl (λ acc ctx, if bool_decide (ctx_Context ctx = statusContext)
                    then (ctx_State ctx, ctx_Description ctx) else acc) ("", "") contexts.

Definition shorten (desc : string) : string :=
  if bool_decide (maxStatusDescriptionLength < String.length desc)
  then string_take (maxStatusDescriptionLength - 3) desc +:+ "..." else desc.

Definition process (pool : gmap string PullRequest) (blocks : Blockers)
    (baseSHAs : gmap string string) (requiredContexts : gmap string (list string))
    (queryMap : QueryMap) (pr : PullRequest) : QueryMap * option status_call :=
  match (headContexts GetCombinedStatus pr) with
  | (pr, Err _) => (queryMap, None)
  | (pr, Ok contexts) =>
      let org := pr_OwnerLogin pr in
      let repo := pr_RepoName pr in
      let branch := pr_BaseRefName pr in
      let baseSHA := default "" (baseSHAs !! poolKey org repo branch) in
      match getContextCheckerWithRequiredContexts org repo branch baseSHA (pr_HeadRefOID pr)
              (default [] (requiredContexts !! prKey pr)) with
      | Err _ => (queryMap, None)
      | Ok cr =>
          let '(queryMap, (wantState, wantDesc)) :=
            expectedStatus queryMap pr pool cr blocks baseSHA in
          let '(actualState, actualDesc) := actual_status contexts in
          let wantDesc := shorten wantDesc in
          (queryMap,
           if bool_decide (wantState ≠ to_lower actualState ∨ wantDesc ≠ actualDesc)
           then Some (mkStatusCall org repo (pr_HeadRefOID pr) wantState wantDesc (targetURL pr))
           else None)
      end
  end.

Fixpoint process_all (pool : gmap string PullRequest) (blocks : Blockers)
    (baseSHAs : gmap string string) (requiredContexts : gmap string (list string))
    (queryMap : QueryMap) (prs : list PullRequest) : QueryMap * list status_call :=
  match prs with
  | [] => (queryMap, [])
  | pr :: prs =>
      let '(queryMap, call) := process pool blocks baseSHAs requiredContexts queryMap pr in
      let '(queryMap, calls) := process_all pool blocks baseSHAs requiredContexts queryMap prs in
      (queryMap, option_list call ++ calls)
  end.

(** The open pull requests, then those of the pool that are not among them. *)
Definition to_process (all : list PullRequest) (pool : gmap string PullRequest)
    : list PullRequest :=
  all ++ (filter (λ kpr : string * PullRequest, kpr.1 ∉ prKey <$> all) (map_range pool)).*2.

Definition setStatuses (all : list PullRequest) (pool : gmap string PullRequest)
    (blocks : Blockers) (baseSHAs : gmap string string)
    (requiredContexts : gmap string (list string)) : list status_call :=
  (process_all pool blocks baseSHAs requiredContexts
     (TideQueries_QueryMap (tide_Queries (cfg_Tide c))) (to_process all pool)).2.

(** ** The search for open pull requests *)

Definition orgRepoQueryString (orgs repos : list string)
    (orgExceptions : gmap string (gset string)) : string :=
  string_join " "
    (concat ((λ o, ("org:" +:+ quoted o) ::
               ((λ e, "-repo:" +:+ quoted e) <$> set_list (default ∅ (orgExceptions !! o)))) <$> orgs)
     ++ ((λ r, "repo:" +:+ quoted r) <$> repos)).

Definition openPRsQuery (orgs repos : list string) (orgExceptions : gmap string (gset string))
    : string :=
  "is:pr state:open sort:updated-asc " +:+ orgRepoQueryString orgs repos orgExceptions.

Record storedState := mkStoredState { LatestPR : Time; PreviousQuery : string }.

(** [statusController.search]: the search restarts from scratch when the query
    changed, and advances to 30 s before the latest result. *)
Definition search_open (do_search : string → Time → list PullRequest * option error)
    (st : storedState) : storedState * list PullRequest :=
  let queries := tide_Queries (cfg_Tide c) in
  if bool_decide (queries = []) then (st, [])
  else
    let '(orgExceptions, repos) := OrgExceptionsAndRepos queries in
    let query := openPRsQuery (set_list (dom orgExceptions)) (set_list repos) orgExceptions in
    let st := if bool_decide (query ≠ PreviousQuery st) then mkStoredState 0%Z query else st in
    let '(prs, err) := do_search query (LatestPR st) in
    match last prs with
    | None => (st, [])
    | Some pr =>
        if IsZero (pr_UpdatedAt pr) then (st, prs)
        else (mkStoredState (pr_UpdatedAt pr - 30)%Z (PreviousQuery st), prs)
    end.
End status.

(** ** The difference and the requirements *)

(** [pr] meets the query as far as it can be told from here. *)
Record meets (pr : PullRequest) (q : TideQuery) (cc : contextChecker) : Prop := {
  me_excluded : pr_BaseRefName pr ∉ tq_ExcludedBranches q;
  me_included : tq_IncludedBranches q = [] ∨ pr_BaseRefName pr ∈ tq_IncludedBranches q;
  me_milestone : tq_Milestone q = "" ∨ pr_Milestone pr = Some (tq_Milestone q);
  me_labels : Forall (λ l, l ∈ pr_Labels pr) (tq_Labels q);
  me_missing : Forall (λ l, l ∉ pr_Labels pr) (tq_MissingLabels q);
  me_contexts : Forall (λ commit, cm_OID commit = pr_HeadRefOID pr →
                  unsuccessfulContexts (cm_Contexts commit) cc = []) (pr_Commits pr) }.

Lemma filter_nil_iff {A} (P : A → Prop) `{∀ x, Decision (P x)} l :
  filter P l = [] ↔ Forall (λ x, ¬ P x) l.
Proof.
  induction l as [|x l IH]; [by split|]. rewrite filter_cons, Forall_cons, <-IH.
  case_decide; split; naive_solver.
Qed.

Lemma concat_nil_iff {A} (ls : list (list A)) : concat ls = [] ↔ Forall (λ l, l = []) ls.
Proof.
  induction ls as [|l ls IH]; [by split|]. cbn. rewrite Forall_cons, <-IH.
  split; [intros [-> ->]%app_eq_nil; done|intros [-> ->]; done].
Qed.

Lemma failing_contexts_nil pr cc :
  failing_contexts pr cc = [] ↔
  Forall (λ commit, cm_OID commit = pr_HeadRefOID pr →
            unsuccessfulContexts (cm_Contexts commit) cc = []) (pr_Commits pr).
Proof.
  unfold failing_contexts. rewrite concat_nil_iff, Forall_fmap, !Forall_forall.
  setoid_rewrite list_elem_of_filter. cbn. split.
  - intros Hf commit Hin Hoid. specialize (Hf commit (conj Hoid Hin)).
    by apply fmap_nil_inv in Hf.
  - intros Hf commit [Hoid Hin]. by rewrite (Hf commit Hin Hoid).
Qed.

Lemma branch_forbidden_false pr q :
  branch_forbidden pr q = false ↔
  pr_BaseRefName pr ∉ tq_ExcludedBranches q ∧
  (tq_IncludedBranches q = [] ∨ pr_BaseRefName pr ∈ tq_IncludedBranches q).
Proof.
  unfold branch_forbidden.
  rewrite orb_false_iff, bool_decide_eq_false, negb_false_iff, orb_true_iff, !bool_decide_eq_true.
  done.
Qed.

Lemma wrong_milestone_false pr q :
  wrong_milestone pr q = false ↔ tq_Milestone q = "" ∨ pr_Milestone pr = Some (tq_Milestone q).
Proof.
  unfold wrong_milestone. rewrite bool_decide_eq_false.
  destruct (decide (tq_Milestone q = "")), (decide (pr_Milestone pr = Some (tq_Milestone q)));
    naive_solver.
Qed.

Lemma meets_bools pr q cc :
  meets pr q cc ↔
  branch_forbidden pr q = false ∧ wrong_milestone pr q = false ∧
  filter (λ l, has_label pr l = false) (tq_Labels q) = [] ∧
  filter (λ l, has_label pr l = true) (tq_MissingLabels q) = [] ∧
  failing_contexts pr cc = [].
Proof.
  rewrite branch_forbidden_false, wrong_milestone_false, failing_contexts_nil, !filter_nil_iff.
  assert (∀ l, ¬ has_label pr l = false ↔ l ∈ pr_Labels pr) as E1.
  { intros l. unfold has_label. case_bool_decide; naive_solver. }
  assert (∀ l, ¬ has_label pr l = true ↔ l ∉ pr_Labels pr) as E2.
  { intros l. unfold has_label. case_bool_decide; naive_solver. }
  setoid_rewrite E1. setoid_rewrite E2. split; [intros []; auto|].
  intros ([] & ? & ? & ? & ?). by split.
Qed.

Lemma or_desc_ne desc more : more ≠ "" → or_desc desc more ≠ "".
Proof. unfold or_desc. by case_bool_decide. Qed.

Lemma or_desc_l desc more : desc ≠ "" → or_desc desc more = desc.
Proof. unfold or_desc. intros. by rewrite bool_decide_eq_false_2. Qed.

Lemma list_desc_ne a b c d items : (∀ s, a +:+ s ≠ "") → (∀ s, c +:+ s ≠ "") → list_desc a b c d items ≠ "".
Proof. intros Ha Hc. unfold list_desc. repeat case_match; auto. Qed.

Lemma requirementDiff_ok pr q cc :
  (0 ≤ (requirementDiff pr q cc).2)%Z ∧
  ((requirementDiff pr q cc).2 = 0%Z ↔ meets pr q cc) ∧
  ((requirementDiff pr q cc).1 = "" ↔ meets pr q cc).
Proof.
  rewrite meets_bools. unfold requirementDiff.
  destruct (branch_forbidden pr q), (wrong_milestone pr q);
    destruct (filter _ (tq_Labels q)), (filter _ (tq_MissingLabels q)), (failing_contexts pr cc).
  all: cbn -[Z.add Z.of_nat or_desc list_desc String.append].
  all: split; [lia|split; [split; [intros E; first [exfalso; lia | by split_and!]|]|split]].
  all: try (intros (? & ? & ? & ? & ?); done).
  all: try (intros _; by split_and!).
  all: intros E; exfalso; revert E;
    repeat first [done | apply or_desc_ne | apply list_desc_ne; intros ?; discriminate
                 | rewrite or_desc_l].
Qed.

(** The difference of a pull request to a query is never negative, and is zero,
    with an empty description, exactly when the pull request meets the query's
    branches, milestone and labels and no context that counts is unsuccessful;
    any difference is described. *)
Theorem requirementDiff_zero pr q cc :
  (0 ≤ (requirementDiff pr q cc).2)%Z ∧
  ((requirementDiff pr q cc).2 = 0%Z ↔ meets pr q cc) ∧
  ((requirementDiff pr q cc).1 = "" ↔ meets pr q cc).
Proof. apply requirementDiff_ok. Qed.

(** ** The closest query *)

Lemma closest_query_spec pr cc qs :
  closest_query pr cc qs = ("", (-1)%Z) ∧ qs = [] ∨
  ∃ q, q ∈ qs ∧ closest_query pr cc qs = requirementDiff pr q cc ∧
       ∀ q', q' ∈ qs → ((requirementDiff pr q cc).2 ≤ (requirementDiff pr q' cc).2)%Z.
Proof.
  unfold closest_query.
  apply (foldl_ind _ (λ (acc : string * Z) seen,
    acc = ("", (-1)%Z) ∧ seen = [] ∨
    ∃ q, q ∈ seen ∧ acc = requirementDiff pr q cc ∧
      ∀ q', q' ∈ seen → ((requirementDiff pr q cc).2 ≤ (requirementDiff pr q' cc).2)%Z));
    [by left|].
  intros [d n] seen q IH. right.
  destruct (requirementDiff pr q cc) as [d' n'] eqn:E.
  assert (∀ x, x ∈ seen ++ [q] ↔ x ∈ seen ∨ x = q) as Hin.
  { intros x. by rewrite elem_of_app, list_elem_of_singleton. }
  destruct (requirementDiff_ok pr q cc) as [Hnn _]. rewrite E in Hnn. cbn in Hnn.
  destruct IH as [[[= -> ->] ->]|(q0 & Hq0 & H0 & Hmin)].
  - rewrite bool_decide_eq_true_2 by lia. exists q. rewrite E. split_and!; [set_solver|done|].
    intros q' [?| ->]%Hin; [set_solver|]. by rewrite E.
  - destruct (requirementDiff_ok pr q0 cc) as [Hn0 _]. rewrite <-H0 in *. cbn in *.
    case_bool_decide as Hlt.
    + exists q. rewrite E. split_and!; [set_solver|done|]. intros q' [Hq'| ->]%Hin; [|by rewrite E].
      specialize (Hmin _ Hq'). cbn. lia.
    + exists q0. rewrite <-H0. split_and!; [set_solver|done|].
      intros q' [Hq'| ->]%Hin; [by apply Hmin|]. rewrite E. cbn. lia.
Qed.

Section status_proofs.
Context `{GoRange} (c : Config).
Context (GetCombinedStatus : string → string → string → result (list (string * string * string)))
        (ListPassingJobs : string → result (list ProwJob))
        (with_query : string → string → option string).

(** A pull request in the pool is reported as a success, unless jobs at its
    head and base still miss a required context; outside the pool it is an error
    while an issue blocks its branch, and otherwise pending, with what it misses
    of the query of its repository that it is closest to meeting. *)
Theorem expectedStatus_spec tqs queryMap pr pool cc blocks baseSHA :
  qm_coherent tqs queryMap → contains_char "/" (pr_OwnerLogin pr) = false →
  let '(queryMap', (state, desc)) :=
    expectedStatus ListPassingJobs queryMap pr pool cc blocks baseSHA in
  qm_coherent tqs queryMap' ∧
  match pool !! prKey pr with
  | Some _ =>
      state = StatusSuccess ∧ desc = statusInPool ∨
      state = StatusPending ∧ ∃ jobs,
        ListPassingJobs (indexKeyPassingJobs (pr_OwnerLogin pr) (pr_RepoName pr) baseSHA
                           (pr_HeadRefOID pr)) = Ok jobs ∧
        MissingRequiredContexts cc ((λ pj, spec_Context (pj_Spec pj)) <$> jobs) ≠ []
  | None =>
      let blockers := GetApplicable blocks (pr_OwnerLogin pr) (pr_RepoName pr) (pr_BaseRefName pr) in
      let qs := filter (λ q, TideQuery_ForRepo q (pr_OwnerLogin pr) (pr_RepoName pr) = true) tqs in
      blockers ≠ [] ∧ state = StatusError ∨
      blockers = [] ∧ state = StatusPending ∧
        (qs = [] ∧ desc = "Not mergeable." ∨
         ∃ q, q ∈ qs ∧ desc = statusNotInPool (requirementDiff pr q cc).1 ∧
              ∀ q', q' ∈ qs → ((requirementDiff pr q cc).2 ≤ (requirementDiff pr q' cc).2)%Z)
  end.
Proof.
  intros Hqm Horg. unfold expectedStatus. destruct (pool !! prKey pr) as [p|].
  - destruct (ListPassingJobs _) as [jobs|e]; [|split; [done|by left]].
    destruct (MissingRequiredContexts _ _) as [|m ms] eqn:Em; (split; [done|]); [by left|right].
    split; [done|]. exists jobs. by rewrite Em.
  - destruct (GetApplicable _ _ _ _) as [|b bs]; cbn [fmap list_fmap].
    2: { split; [done|]. by left. }
    destruct (QueryMap_ForRepo_coherent tqs queryMap (pr_OwnerLogin pr) (pr_RepoName pr) Hqm Horg)
      as [Hqm' Hqs].
    destruct (QueryMap_ForRepo _ _ _) as [qm' qs]. cbn in Hqm', Hqs. subst qs.
    split; [done|]. right. split_and!; [done..|].
    destruct (closest_query_spec pr cc (filter (λ q, TideQuery_ForRepo q (pr_OwnerLogin pr)
      (pr_RepoName pr) = true) tqs)) as [[-> ->]|(q & Hq & -> & Hmin)]; [by left|right].
    by exists q.
Qed.

Lemma length_string_take n s : String.length (string_take n s) ≤ n.
Proof. revert s. induction n as [|n IH]; intros [|a s]; cbn; try lia. specialize (IH s). lia. Qed.

Lemma shorten_length desc : String.length (shorten desc) ≤ maxStatusDescriptionLength.
Proof.
  unfold shorten, maxStatusDescriptionLength. case_bool_decide; [|lia].
  assert (∀ s t, String.length (s +:+ t) = String.length s + String.length t) as Happ.
  { intros s t. induction s as [|a s IH]; [done|]. rewrite str_app_cons. cbn. by rewrite IH. }
  rewrite Happ. pose proof (length_string_take (140 - 3) desc). cbn [String.length]. lia.
Qed.

(** What a status call is worth: it is about an open or pooled pull request at
    its head, within GitHub's limit, and changes something. *)
Definition good_call (prs : list PullRequest) (pool : gmap string PullRequest)
    (blocks : Blockers) (call : status_call) : Prop :=
  ∃ pr0 pr contexts, pr0 ∈ prs ∧ headContexts GetCombinedStatus pr0 = (pr, Ok contexts) ∧
    (sc_org call, sc_repo call, sc_sha call)
      = (pr_OwnerLogin pr, pr_RepoName pr, pr_HeadRefOID pr) ∧
    String.length (sc_desc call) ≤ maxStatusDescriptionLength ∧
    (sc_state call, sc_desc call) ≠
      (to_lower (actual_status contexts).1, (actual_status contexts).2) ∧
    (sc_state call = StatusSuccess → is_Some (pool !! prKey pr)) ∧
    (sc_state call = StatusError →
       GetApplicable blocks (pr_OwnerLogin pr) (pr_RepoName pr) (pr_BaseRefName pr) ≠ []).

Lemma expectedStatus_state queryMap pr pool cc blocks baseSHA :
  let '(_, (state, _)) := expectedStatus ListPassingJobs queryMap pr pool cc blocks baseSHA in
  (state = StatusSuccess → is_Some (pool !! prKey pr)) ∧
  (state = StatusError →
     GetApplicable blocks (pr_OwnerLogin pr) (pr_RepoName pr) (pr_BaseRefName pr) ≠ []).
Proof.
  unfold expectedStatus. destruct (pool !! prKey pr) as [p|].
  - repeat case_match; simplify_eq/=; (split; [intros; by eexists|done]).
  - destruct (GetApplicable _ _ _ _) as [|b bs]; cbn [fmap list_fmap]; [|done].
    destruct (QueryMap_ForRepo _ _ _). done.
Qed.

Lemma process_good pool blocks baseSHAs rc queryMap pr :
  match (process c GetCombinedStatus ListPassingJobs with_query pool blocks baseSHAs rc queryMap pr).2
  with Some call => good_call [pr] pool blocks call | None => True end.
Proof.
  unfold process. destruct (headContexts GetCombinedStatus pr) as [pr1 [contexts|e]] eqn:Eh; [|done].
  destruct (getContextCheckerWithRequiredContexts _ _ _ _ _ _ _) as [cr|e]; [|done].
  pose proof (expectedStatus_state queryMap pr1 pool cr blocks
    (default "" (baseSHAs !! poolKey (pr_OwnerLogin pr1) (pr_RepoName pr1) (pr_BaseRefName pr1)))) as He.
  destruct (expectedStatus _ _ _ _ _ _ _) as [qm' [state desc]].
  destruct (actual_status contexts) as [astate adesc] eqn:Ea.
  case_bool_decide as Hd; cbn; [|done].
  exists pr, pr1, contexts. rewrite Ea. cbn. destruct He as [H1 H2].
  split_and!; [by left|done|done|apply shorten_length| |done|done].
  intros [= E1 E2]. by destruct Hd.
Qed.

Lemma good_call_mono prs prs' pool blocks call :
  prs ⊆ prs' → good_call prs pool blocks call → good_call prs' pool blocks call.
Proof. intros Hsub (pr0 & pr & cs & Hin & Hr). exists pr0, pr, cs. split; [by apply Hsub|done]. Qed.

(** C37. Every status that is set is the tide context of an open or pooled pull
    request at its head, fits GitHub's limit and differs from what GitHub shows;
    success is only reported for pooled pull requests and an error only for
    blocked branches; and every pooled pull request is looked at. *)
Theorem setStatuses_spec all pool blocks baseSHAs rc :
  Forall (good_call (to_process all pool) pool blocks)
    (setStatuses c GetCombinedStatus ListPassingJobs with_query all pool blocks baseSHAs rc) ∧
  map_Forall (λ k pr, (∃ pr', pr' ∈ to_process all pool ∧ prKey pr' = k) ∨
                      pr ∈ to_process all pool) pool.
Proof.
  split.
  - unfold setStatuses. generalize (TideQueries_QueryMap (tide_Queries (cfg_Tide c))) as qm.
    generalize (to_process all pool) as prs.
    induction prs as [|pr prs IH]; intros qm; cbn [process_all]; [constructor|].
    pose proof (process_good pool blocks baseSHAs rc qm pr) as Hp.
    destruct (process _ _ _ _ _ _ _ _ qm pr) as [qm1 call].
    specialize (IH qm1). destruct (process_all _ _ _ _ _ _ _ _ qm1 prs) as [qm2 calls]. cbn in *.
    apply Forall_app. split.
    + destruct call as [call|]; cbn; [|constructor]. constructor; [|constructor].
      eapply good_call_mono; [|exact Hp]. set_solver.
    + eapply Forall_impl; [exact IH|]. intros call' Hc. eapply good_call_mono; [|exact Hc]. set_solver.
  - intros k pr Hk. unfold to_process. destruct (decide (k ∈ prKey <$> all)) as [Hin|Hin].
    + left. apply list_elem_of_fmap in Hin as (pr' & -> & Hin). exists pr'. set_solver.
    + right. apply elem_of_app. right. apply list_elem_of_fmap. exists (k, pr). split; [done|].
      apply list_elem_of_filter. split; [done|]. by apply elem_of_map_range.
Qed.
End status_proofs.
