(* ===== verification/TideSync.v ===== *)
(** * Tide's sync (tide/tide.go: accumulateBatch, takeAction, syncSubpool, Sync)

    One pass over a subpool: classify its pull requests and batches, then take at
    most one action.  The theorems of this file are Tide's promises: what it
    merges was tested, and what it waits for it does not disturb. *)

From S2P Require Import Prelude Api JobConfig TideTypes TideConfig PjUtil TidePool TideMerge TideBlockers.
#[local] Open Scope go_scope.

(** ** Batches under test *)

Record accState := mkAccState {
  acc_prs : list PullRequest; acc_jobStates : gmap string simpleState; acc_validPulls : bool }.

(** The pull requests of a batch job, while each is in the pool at the head the
    job tests. *)
Fixpoint batch_pulls (prNums : gmap Z PullRequest) (pulls : list Pull) (prs : list PullRequest)
    : list PullRequest * bool :=
  match pulls with
  | [] => (prs, true)
  | pull :: pulls =>
      match prNums !! pull_Number pull with
      | Some pr => if bool_decide (pr_HeadRefOID pr = pull_SHA pull)
                   then batch_pulls prNums pulls (prs ++ [pr]) else (prs, false)
      | None => (prs, false)
      end
  end.

(** The best result for a context of a batch. *)
Definition note_batch_state (context : string) (jobState : simpleState)
    (jobStates : gmap string simpleState) : gmap string simpleState :=
  match jobStates !! context with
  | None | Some failureState => <[context := jobState]> jobStates
  | Some _ => if bool_decide (jobState = successState)
              then <[context := jobState]> jobStates else jobStates
  end.

(** One job of the first loop; a job without refs panics. *)
Definition note_batch (prNums : gmap Z PullRequest) (states : gmap string accState) (pj : ProwJob)
    : may_panic (gmap string accState) :=
  if bool_decide (spec_Type (pj_Spec pj) ≠ BatchJob) then Some states
  else
    refs ← spec_Refs (pj_Spec pj);
    let ref := Refs_String refs in
    let state := match states !! ref with
                 | Some state => state
                 | None => let '(prs, valid) := batch_pulls prNums (refs_Pulls refs) [] in
                           mkAccState prs ∅ valid
                 end in
    let state :=
      if acc_validPulls state
      then mkAccState (acc_prs state)
             (note_batch_state (spec_Context (pj_Spec pj)) (toSimpleState (pj_State pj))
                (acc_jobStates state)) true
      else state in
    Some (<[ref := state]> states).

Fixpoint note_batches (prNums : gmap Z PullRequest) (states : gmap string accState)
    (pjs : list ProwJob) : may_panic (gmap string accState) :=
  match pjs with
  | [] => Some states
  | pj :: pjs => states ← note_batch prNums states pj; note_batches prNums states pjs
  end.

Fixpoint batch_overall (jobStates : gmap string simpleState) (required : list Presubmit)
    (overallState : simpleState) : simpleState :=
  match required with
  | [] => overallState
  | p :: required =>
      match jobStates !! ps_Context p with
      | None | Some failureState => failureState
      | Some pendingState =>
          batch_overall jobStates required
            (if bool_decide (overallState = successState) then pendingState else overallState)
      | Some successState => batch_overall jobStates required overallState
      end
  end.

Section sync.
Context `{GoRange} (c : Config).
Context (GetCombinedStatus : string → string → string → result (list (string * string * string)))
        (prChanges : PullRequest → ChangedFilesProvider)
        (IsValidLabelValue : string → bool).
Context (merge : list event → merge_answer) (git_do : list event → result unit)
        (git_merge : list event → result bool) (create : list event → result unit)
        (now : list event → Time) (new_name : list event → string).

(** [prNums]: later pull requests replace earlier ones. *)
Definition prs_by_number (prs : list PullRequest) : gmap Z PullRequest :=
  foldl (λ m pr, <[pr_Number pr := pr]> m) ∅ prs.

(** The second loop: success batch and pending batch. *)
Definition pick_state (sp : subpool) (acc : list PullRequest * list PullRequest)
    (state : accState) : list PullRequest * list PullRequest :=
  let '(successBatch, pendingBatch) := acc in
  if negb (acc_validPulls state) then acc
  else
    match presubmitsForBatch c prChanges (acc_prs state) (sp_org sp) (sp_repo sp) (sp_sha sp)
            (sp_branch sp) with
    | Err _ => acc
    | Ok requiredPresubmits =>
        match batch_overall (acc_jobStates state) requiredPresubmits successState with
        | pendingState => (successBatch, acc_prs state)
        | successState => (acc_prs state, pendingBatch)
        | failureState => acc
        end
    end.

Definition accumulateBatch (sp : subpool) : may_panic (list PullRequest * list PullRequest) :=
  states ← note_batches (prs_by_number (sp_prs sp)) ∅ (sp_pjs sp);
  Some (foldl (pick_state sp) ([], []) (map_range states).*2).

(** ** Taking one action *)

Inductive Action : Type := Wait | Trigger | TriggerBatch | Merge | MergeBatch | PoolBlocked.

Definition action_result : Type := Action * list PullRequest * option error.

Definition do_merge (act : Action) (sp : subpool) (prs : list PullRequest)
    : M event action_result :=
  err ← mergePRs c merge sp prs; mret (act, prs, err).

Definition do_trigger (act : Action) (sp : subpool) (presubmits : list Presubmit)
    (prs : list PullRequest) : M event action_result :=
  err ← trigger c IsValidLabelValue now new_name create sp presubmits prs;
  mret (act, prs, err).

(** The last two steps of [takeAction]. *)
Definition serial_action (sp : subpool) (successes pendings missings : list PullRequest)
    (missingSerialTests : gmap Z (list Presubmit)) : M event action_result :=
  if bool_decide (missings ≠ [] ∧ pendings = [] ∧ successes = []) then
    match pickSmallestPassingNumber GetCombinedStatus missings (sp_cc sp) with
    | Some pr => do_trigger Trigger sp (default [] (missingSerialTests !! pr_Number pr)) [pr]
    | None => mret (Wait, [], None)
    end
  else mret (Wait, [], None).

Definition batch_action (sp : subpool) (batchPending successes pendings missings : list PullRequest)
    (missingSerialTests : gmap Z (list Presubmit)) : M event action_result :=
  if bool_decide (1 < length (sp_prs sp) ∧ batchPending = []) then
    r ← pickBatch c GetCombinedStatus prChanges git_do git_merge sp;
    match r with
    | Err err => mret (Wait, [], Some err)
    | Ok (batch, presubmits) =>
        if bool_decide (1 < length batch) then do_trigger TriggerBatch sp presubmits batch
        else serial_action sp successes pendings missings missingSerialTests
    end
  else serial_action sp successes pendings missings missingSerialTests.

Definition takeAction (sp : subpool)
    (batchPending successes pendings missings batchMerges : list PullRequest)
    (missingSerialTests : gmap Z (list Presubmit)) : M event action_result :=
  if bool_decide (batchMerges ≠ []) then do_merge MergeBatch sp batchMerges
  else
    let candidate :=
      if bool_decide (successes ≠ [] ∧ batchPending = [])
      then pickSmallestPassingNumber GetCombinedStatus successes (sp_cc sp) else None in
    match candidate with
    | Some pr => do_merge Merge sp [pr]
    | None =>
        if bool_decide (sp_presubmits sp = ∅) then mret (Wait, [], None)
        else batch_action sp batchPending successes pendings missings missingSerialTests
    end.

Definition recordableActions (act : Action) : bool :=
  match act with Trigger | TriggerBatch | Merge | MergeBatch => true | _ => false end.

Definition prMeta (prs : list PullRequest) : list Pull :=
  (λ pr, mkPull (pr_Number pr) (pr_AuthorLogin pr) (pr_HeadRefOID pr) (pr_Title pr) "" "" "" "")
    <$> prs.

Record Pool := mkPool {
  pool_Org : string; pool_Repo : string; pool_Branch : string;
  pool_SuccessPRs : list PullRequest; pool_PendingPRs : list PullRequest;
  pool_MissingPRs : list PullRequest; pool_BatchPending : list PullRequest;
  pool_Action : Action; pool_Target : list PullRequest; pool_Blockers : list Blocker;
  pool_Error : option error }.

(** What goes to the history: pool key, action, base SHA, error, targets. *)
Record history_entry := mkHistoryEntry {
  he_key : string; he_action : Action; he_sha : string; he_err : option error;
  he_targets : list Pull }.

(** [syncSubpool]; a panic of the accumulation ends the computation before any
    call. *)
Definition syncSubpool (sp : subpool) (blocks : list Blocker)
    : M event (may_panic (Pool * option history_entry)) :=
  match accumulate (sp_presubmits sp) (sp_prs sp) (sp_pjs sp), accumulateBatch sp with
  | Some b, Some (batchMerge, batchPending) =>
      let pool act targets err :=
        mkPool (sp_org sp) (sp_repo sp) (sp_branch sp) (bk_successes b) (bk_pendings b)
          (bk_missings b) batchPending act targets blocks err in
      if bool_decide (blocks ≠ []) then mret (Some (pool PoolBlocked [] None, None))
      else
        '(act, targets, err) ← takeAction sp batchPending (bk_successes b) (bk_pendings b)
                                 (bk_missings b) batchMerge (bk_missingTests b);
        mret (Some (pool act targets err,
          if recordableActions act
          then Some (mkHistoryEntry (sp_key sp) act (sp_sha sp) err (prMeta targets))
          else None))
  | _, _ => mret None
  end.
End sync.

(** ** What an accumulated batch means *)

Section batch_state_proofs.
Context `{GoRange} (c : Config).
Context (prChanges : PullRequest → ChangedFilesProvider).

(** A batch job of the subpool whose refs read [ref]. *)
Definition batch_job (pjs : list ProwJob) (ref : string) (pj : ProwJob) (r : Refs) : Prop :=
  pj ∈ pjs ∧ spec_Type (pj_Spec pj) = BatchJob ∧ spec_Refs (pj_Spec pj) = Some r ∧
  Refs_String r = ref.

(** [prs] are the heads a batch job with these refs tests. *)
Definition at_heads (sp : subpool) (pulls : list Pull) (prs : list PullRequest) : Prop :=
  Forall2 (λ pull pr, pr ∈ sp_prs sp ∧ pr_Number pr = pull_Number pull ∧
                      pr_HeadRefOID pr = pull_SHA pull) pulls prs.

(** All of [prs] were tested together, with a result accepted by [ok] for every
    presubmit the combination requires. *)
Definition batch_tested (ok : simpleState → Prop) (sp : subpool) (prs : list PullRequest)
    : Prop :=
  ∃ ref pj r required, batch_job (sp_pjs sp) ref pj r ∧ at_heads sp (refs_Pulls r) prs ∧
    presubmitsForBatch c prChanges prs (sp_org sp) (sp_repo sp) (sp_sha sp) (sp_branch sp)
      = Ok required ∧
    Forall (λ ps, ∃ pj' r', batch_job (sp_pjs sp) ref pj' r' ∧
              spec_Context (pj_Spec pj') = ps_Context ps ∧
              ok (toSimpleState (pj_State pj'))) required.

Lemma prs_by_number_Some prs n pr :
  prs_by_number prs !! n = Some pr → pr ∈ prs ∧ pr_Number pr = n.
Proof.
  unfold prs_by_number.
  apply (foldl_ind _ (λ (m : gmap Z PullRequest) seen,
           m !! n = Some pr → pr ∈ seen ∧ pr_Number pr = n)); [done|].
  intros m seen a IH. rewrite lookup_insert. case_decide; [|set_solver].
  intros [= <-]. set_solver.
Qed.

Lemma batch_pulls_spec prNums pulls acc prs :
  batch_pulls prNums pulls acc = (prs, true) →
  ∃ rest, prs = acc ++ rest ∧
    Forall2 (λ pull pr, prNums !! pull_Number pull = Some pr ∧
                        pr_HeadRefOID pr = pull_SHA pull) pulls rest.
Proof.
  revert acc. induction pulls as [|pull pulls IH]; intros acc; cbn.
  { intros [= <-]. exists []. by rewrite app_nil_r. }
  destruct (prNums !! pull_Number pull) as [pr|] eqn:E; [|done].
  case_bool_decide; [|done]. intros Hb. destruct (IH _ Hb) as (rest & -> & Hr).
  exists (pr :: rest). rewrite <-app_assoc. split; [done|]. by constructor.
Qed.

Record state_ok (sp : subpool) (pjs : list ProwJob) (ref : string) (st : accState) : Prop := {
  so_refs : ∃ pj r, batch_job pjs ref pj r ∧
    (acc_validPulls st = true → at_heads sp (refs_Pulls r) (acc_prs st));
  so_states ctx s : acc_jobStates st !! ctx = Some s →
    ∃ pj r, batch_job pjs ref pj r ∧ spec_Context (pj_Spec pj) = ctx ∧
            toSimpleState (pj_State pj) = s }.

Lemma batch_job_mono pjs pjs' ref pj r :
  pjs ⊆ pjs' → batch_job pjs ref pj r → batch_job pjs' ref pj r.
Proof. intros Hsub (? & ? & ? & ?). split_and!; auto. Qed.

Lemma state_ok_mono sp pjs pjs' ref st :
  pjs ⊆ pjs' → state_ok sp pjs ref st → state_ok sp pjs' ref st.
Proof.
  intros Hsub [(pj & r & Hj & Hv) Hs]. split.
  - exists pj, r. split; [by eapply batch_job_mono|done].
  - intros ctx s Hc. destruct (Hs _ _ Hc) as (pj' & r' & ? & ? & ?).
    exists pj', r'. split; [by eapply batch_job_mono|done].
Qed.

Lemma note_batch_state_Some ctx s m ctx' s' :
  note_batch_state ctx s m !! ctx' = Some s' → m !! ctx' = Some s' ∨ (ctx' = ctx ∧ s' = s).
Proof.
  unfold note_batch_state.
  assert (<[ctx := s]> m !! ctx' = Some s' → m !! ctx' = Some s' ∨ (ctx' = ctx ∧ s' = s)) as Hi.
  { rewrite lookup_insert. case_decide; [|by left]. intros [= <-]. by right. }
  destruct (m !! ctx) as [[]|]; try case_bool_decide; auto.
Qed.

Lemma note_batch_ok sp pjs states pj states' :
  map_Forall (state_ok sp pjs) states →
  note_batch (prs_by_number (sp_prs sp)) states pj = Some states' →
  map_Forall (state_ok sp (pjs ++ [pj])) states'.
Proof.
  intros Hall. unfold note_batch.
  assert (map_Forall (state_ok sp (pjs ++ [pj])) states) as Hall'.
  { eapply map_Forall_impl; [exact Hall|]. intros ref st. apply state_ok_mono. set_solver. }
  case_bool_decide as Ht; [by intros [= <-]|].
  destruct (spec_Refs (pj_Spec pj)) as [refs|] eqn:Er; [|done]. cbn.
  assert (batch_job (pjs ++ [pj]) (Refs_String refs) pj refs) as Hjob
    by (split_and!; [set_solver|done..]).
  set (state0 := match states !! Refs_String refs with Some s => s | None => _ end).
  assert (state_ok sp (pjs ++ [pj]) (Refs_String refs) state0) as H0.
  { unfold state0. destruct (states !! Refs_String refs) as [st|] eqn:Es.
    { by apply (Hall' _ _ Es). }
    destruct (batch_pulls _ _ _) as [prs valid] eqn:Ep. split; cbn; [|by intros ??].
    exists pj, refs. split; [done|]. intros ->.
    apply batch_pulls_spec in Ep as (rest & -> & Hf). cbn. eapply Forall2_impl; [exact Hf|].
    intros pull pr [Hl Hh]. apply prs_by_number_Some in Hl as [? ?]. done. }
  intros [= <-]. apply map_Forall_insert_2; [|done].
  destruct (acc_validPulls state0) eqn:Ev; [|done]. destruct H0 as [Hr Hs]. split; cbn.
  - destruct Hr as (pj' & r' & ? & Hv). exists pj', r'. split; [done|]. intros _. by apply Hv.
  - intros ctx s [Hm|[-> ->]]%note_batch_state_Some; [by apply Hs|]. by exists pj, refs.
Qed.

Lemma note_batches_ok sp pjs states states' seen :
  map_Forall (state_ok sp seen) states →
  note_batches (prs_by_number (sp_prs sp)) states pjs = Some states' →
  map_Forall (state_ok sp (seen ++ pjs)) states'.
Proof.
  revert states seen. induction pjs as [|pj pjs IH]; intros states seen Hall; cbn.
  { intros [= <-]. by rewrite app_nil_r. }
  destruct (note_batch _ states pj) as [st1|] eqn:E; [|done]. cbn. intros Hn.
  rewrite cons_middle, app_assoc. eapply IH; [|done]. by eapply note_batch_ok.
Qed.

Lemma note_batches_total prNums states pjs :
  Forall (λ pj, spec_Type (pj_Spec pj) = BatchJob → is_Some (spec_Refs (pj_Spec pj))) pjs →
  is_Some (note_batches prNums states pjs).
Proof.
  intros Hp. revert states. induction Hp as [|pj pjs Hpj _ IH]; intros states; cbn; [by eexists|].
  unfold note_batch. case_bool_decide as Ht; cbn; [apply IH|].
  destruct Hpj as [r Hr]; [done|]. rewrite Hr. apply IH.
Qed.

Lemma batch_overall_spec jobStates required overall :
  overall ≠ failureState →
  (batch_overall jobStates required overall = successState →
     overall = successState ∧
     Forall (λ ps, jobStates !! ps_Context ps = Some successState) required) ∧
  (batch_overall jobStates required overall = pendingState →
     Forall (λ ps, jobStates !! ps_Context ps = Some successState ∨
                   jobStates !! ps_Context ps = Some pendingState) required).
Proof.
  revert overall. induction required as [|p required IH]; intros overall Ho; cbn; [by auto|].
  destruct (jobStates !! ps_Context p) as [[]|] eqn:E; [done| | |done].
  - set (o := if bool_decide _ then _ else _).
    assert (o = pendingState) as -> by (unfold o; case_bool_decide; by destruct overall).
    destruct (IH pendingState) as [H1 H2]; [done|]. split; [by intros [? _]%H1|].
    intros Hb. constructor; auto.
  - destruct (IH overall Ho) as [H1 H2]. split; intros Hb.
    + destruct (H1 Hb) as [? ?]. split; [done|]. by constructor.
    + constructor; auto.
Qed.

Definition batches_ok (sp : subpool) (acc : list PullRequest * list PullRequest) : Prop :=
  (acc.1 = [] ∨ batch_tested (λ s, s = successState) sp acc.1) ∧
  (acc.2 = [] ∨ batch_tested (λ s, s ≠ failureState) sp acc.2).

Lemma pick_state_ok sp acc ref st :
  state_ok sp (sp_pjs sp) ref st → batches_ok sp acc →
  batches_ok sp (pick_state c prChanges sp acc st).
Proof.
  intros [(pj & r & Hj & Hv) Hs] Hacc. unfold pick_state. destruct acc as [succ pend].
  destruct (acc_validPulls st); cbn; [|done].
  destruct (presubmitsForBatch _ _ _ _ _ _ _) as [required|] eqn:Er; [|done].
  destruct (batch_overall_spec (acc_jobStates st) required successState) as [H1 H2]; [done|].
  assert (∀ ok : simpleState → Prop,
    Forall (λ ps, ∃ s, acc_jobStates st !! ps_Context ps = Some s ∧ ok s) required →
    batch_tested ok sp (acc_prs st)) as Htested.
  { intros ok Hall. exists ref, pj, r, required. split_and!; [done|by apply Hv|done|].
    eapply Forall_impl; [exact Hall|]. intros ps (s & Hl & Hok).
    destruct (Hs _ _ Hl) as (pj' & r' & ? & ? & <-). by exists pj', r'. }
  destruct Hacc as [Ha Hb].
  destruct (batch_overall _ _ _);
    [by split|split; [exact Ha|]|split; [|exact Hb]]; cbn; right; apply Htested.
  - eapply Forall_impl; [by apply H2|]. intros ps [Hx|Hx]; rewrite Hx; by eexists.
  - eapply Forall_impl; [by apply H1|]. intros ps Hx. rewrite Hx. by eexists.
Qed.

Lemma accumulateBatch_ok sp acc :
  accumulateBatch c prChanges sp = Some acc → batches_ok sp acc.
Proof.
  unfold accumulateBatch. destruct (note_batches _ ∅ _) as [states|] eqn:En; [|done]. cbn.
  intros [= <-]. apply (note_batches_ok sp _ _ _ []) in En; [|apply map_Forall_empty].
  assert (Forall (λ st, ∃ ref, state_ok sp (sp_pjs sp) ref st) (map_range states).*2) as Hst.
  { apply Forall_fmap, Forall_forall. intros [ref st] Hin. apply elem_of_map_range in Hin.
    exists ref. by apply En. }
  assert (batches_ok sp ([], [])) as H0 by (split; by left). revert H0.
  generalize (@nil PullRequest, @nil PullRequest) as acc.
  induction Hst as [|st sts [ref Hst] _ IH]; intros acc Hacc; [done|]. cbn.
  apply IH. by eapply pick_state_ok.
Qed.

(** C3. The batch reported as successful, if there is one, consists of pull
    requests of the pool at exactly the heads a batch job tested, and every
    presubmit that this combination requires has a successful batch job for the
    same refs; for the pending batch every one is successful or running. *)
Theorem accumulateBatch_spec sp succ pend :
  accumulateBatch c prChanges sp = Some (succ, pend) →
  (succ = [] ∨ batch_tested (λ s, s = successState) sp succ) ∧
  (pend = [] ∨ batch_tested (λ s, s ≠ failureState) sp pend).
Proof.
  apply accumulateBatch_ok.
Qed.
End batch_state_proofs.

(** ** What Tide does to a subpool *)

Section action_proofs.
Context `{GoRange} (c : Config).
Context (GetCombinedStatus : string → string → string → result (list (string * string * string)))
        (prChanges : PullRequest → ChangedFilesProvider)
        (IsValidLabelValue : string → bool).
Context (merge : list event → merge_answer) (git_do : list event → result unit)
        (git_merge : list event → result bool) (create : list event → result unit)
        (now : list event → Time) (new_name : list event → string).
Notation takeAction := (takeAction c GetCombinedStatus prChanges IsValidLabelValue merge git_do
                          git_merge create now new_name).
Notation syncSubpool := (syncSubpool c GetCombinedStatus prChanges IsValidLabelValue merge git_do
                           git_merge create now new_name).
Notation pick := (pickSmallestPassingNumber GetCombinedStatus).

(** Merging these, working in a clone, and creating jobs for these. *)
Definition merges (sp : subpool) (prs : list PullRequest) (e : event) : Prop := merge_of c sp prs e.
Definition creates (sp : subpool) (prs : list PullRequest) (e : event) : Prop :=
  match e with
  | EvCreate pj => ∃ ps, job_for c (batch_refs sp prs) prs ps pj
  | _ => False
  end.

Lemma trigger_emits sp presubmits prs :
  emits (creates sp prs) (trigger c IsValidLabelValue now new_name create sp presubmits prs).
Proof.
  intros tr. unfold trigger.
  pose proof (trigger_loop_spec c IsValidLabelValue now new_name create (batch_refs sp prs) prs
    presubmits ∅ tr) as Ht.
  destruct (trigger_loop _ _ _ _ _ _ _ _ _) as [tr' err].
  destruct Ht as (jobs & -> & Hj & _). eexists. split; [done|].
  apply Forall_fmap. eapply Forall_impl; [exact Hj|]. intros pj (ps & _ & ?). by exists ps.
Qed.

Lemma pickBatch_emits sp :
  emits is_git (pickBatch c GetCombinedStatus prChanges git_do git_merge sp).
Proof.
  intros tr. pose proof (pickBatch_ok c GetCombinedStatus prChanges git_do git_merge sp tr) as Hp.
  destruct (pickBatch _ _ _ _ _ _ _) as [tr' r]. by destruct Hp as [? _].
Qed.

(** The action and its targets, given what was accumulated. *)
Definition action_ok (sp : subpool)
    (batchPending successes pendings missings batchMerges : list PullRequest)
    (r : action_result) : Prop :=
  let '(act, targets, err) := r in
  match act with
  | MergeBatch => targets = batchMerges ∧ batchMerges ≠ []
  | Merge => batchMerges = [] ∧ batchPending = [] ∧
             ∃ pr, targets = [pr] ∧ pick successes (sp_cc sp) = Some pr
  | TriggerBatch => batchMerges = [] ∧ batchPending = [] ∧ 1 < length targets ∧
                    ∃ jobs, good_batch c GetCombinedStatus prChanges sp targets jobs
  | Trigger => batchMerges = [] ∧ successes = [] ∧ pendings = [] ∧
               ∃ pr, targets = [pr] ∧ pick missings (sp_cc sp) = Some pr
  | Wait => batchMerges = [] ∧ targets = []
  | PoolBlocked => False
  end.

(** The calls an action makes. *)
Definition action_calls (sp : subpool) (act : Action) (targets : list PullRequest)
    (e : event) : Prop :=
  match act with
  | MergeBatch | Merge => merges sp targets e
  | TriggerBatch | Trigger => is_git e ∨ creates sp targets e
  | Wait | PoolBlocked => is_git e
  end.

(** From [tr], [out] is a fitting action that made only its calls; git is left
    alone while a batch is pending. *)
Definition acted (sp : subpool)
    (batchPending successes pendings missings batchMerges : list PullRequest)
    (tr : list event) (out : list event * action_result) : Prop :=
  action_ok sp batchPending successes pendings missings batchMerges out.2 ∧
  ∃ new, out.1 = tr ++ new ∧ Forall (action_calls sp out.2.1.1 out.2.1.2) new ∧
    (batchPending ≠ [] → Forall (λ e, ¬ is_git e) new).

Lemma acted_quiet sp bp su pe mi bm act err tr :
  action_ok sp bp su pe mi bm (act, [], err) →
  acted sp bp su pe mi bm tr (tr, (act, [], err)).
Proof. intros Ha. split; [done|]. exists []. by rewrite app_nil_r. Qed.

Lemma acted_emits sp bp su pe mi bm (m : M event (option error)) act prs (P : event → Prop) tr :
  (∀ err, action_ok sp bp su pe mi bm (act, prs, err)) →
  (∀ e, P e → action_calls sp act prs e ∧ ¬ is_git e) → emits P m →
  acted sp bp su pe mi bm tr ((err ← m; mret (act, prs, err)) tr).
Proof.
  intros Ha HP Hm. destruct (Hm tr) as (new & Htr & Hnew). rewrite bind_app, ret_app.
  split; [apply Ha|]. exists new. split_and!; [done| |].
  - eapply Forall_impl; [exact Hnew|]. intros e He. by apply HP.
  - intros _. eapply Forall_impl; [exact Hnew|]. intros e He. by apply HP.
Qed.

(** Work in a clone may come first, unless the action is a merge. *)
Lemma acted_git sp su pe mi bm tr new out :
  Forall is_git new → acted sp [] su pe mi bm (tr ++ new) out →
  (∀ e, is_git e → action_calls sp out.2.1.1 out.2.1.2 e) →
  acted sp [] su pe mi bm tr out.
Proof.
  intros Hg [Ha (new' & E & Hnew & _)] Hact. split; [done|]. exists (new ++ new').
  rewrite app_assoc. split_and!; [done| |done]. apply Forall_app. split; [|done].
  by eapply Forall_impl.
Qed.

Lemma merges_not_git sp prs e : merges sp prs e → ¬ is_git e.
Proof. destruct e; cbn; tauto. Qed.
Lemma creates_not_git sp prs e : creates sp prs e → ¬ is_git e.
Proof. destruct e; cbn; tauto. Qed.

Lemma serial_action_ok sp bp su pe mi b tr :
  let out := serial_action c GetCombinedStatus IsValidLabelValue create now new_name sp su pe mi b tr in
  acted sp bp su pe mi [] tr out ∧ ∀ e, is_git e → action_calls sp out.2.1.1 out.2.1.2 e.
Proof.
  unfold serial_action. case_bool_decide as Hs; [|split; [by apply acted_quiet|done]].
  destruct (pick mi (sp_cc sp)) as [pr|] eqn:Ep; [|split; [by apply acted_quiet|done]].
  unfold do_trigger.
  split; [|rewrite bind_app, ret_app; intros e He; by left].
  eapply acted_emits; [| |apply trigger_emits].
  - intros err. destruct Hs as (_ & -> & ->). split_and!; try done. by exists pr.
  - intros e He. split; [by right|by eapply creates_not_git].
Qed.

Lemma batch_action_ok sp bp su pe mi b tr :
  acted sp bp su pe mi [] tr
    (batch_action c GetCombinedStatus prChanges IsValidLabelValue git_do git_merge create now
       new_name sp bp su pe mi b tr).
Proof.
  unfold batch_action. case_bool_decide as Hb; [|apply serial_action_ok].
  destruct Hb as [_ ->]. rewrite bind_app.
  pose proof (pickBatch_ok c GetCombinedStatus prChanges git_do git_merge sp tr) as Hp.
  destruct (pickBatch _ _ _ _ _ sp tr) as [tr1 r].
  destruct Hp as [(new1 & -> & Hnew1) (_ & _ & Hgood)]. cbn [fst snd].
  destruct r as [[batch presubmits]|err].
  - case_bool_decide as Hlen.
    + unfold do_trigger.
      eapply acted_git; [exact Hnew1| |rewrite bind_app, ret_app; intros e He; by left].
      eapply acted_emits; [| |apply trigger_emits].
      * intros err. split_and!; [done|done|done|]. exists presubmits. by apply Hgood.
      * intros e He. split; [by right|by eapply creates_not_git].
    + destruct (serial_action_ok sp [] su pe mi b (tr ++ new1)) as [H1 H2].
      by eapply acted_git.
  - eapply acted_git; [exact Hnew1|by apply acted_quiet|done].
Qed.

Lemma takeAction_ok sp bp su pe mi bm b tr :
  acted sp bp su pe mi bm tr (takeAction sp bp su pe mi bm b tr).
Proof.
  unfold TideSync.takeAction. case_bool_decide as Hbm.
  { eapply acted_emits; [done| |apply (mergePRs_ok c merge sp bm)].
    intros e He. split; [done|by eapply merges_not_git]. }
  subst bm.
  set (candidate := if bool_decide _ then _ else _).
  destruct candidate as [pr|] eqn:Ec.
  - unfold candidate in Ec. case_bool_decide as Hs; [|done]. destruct Hs as [_ ->].
    eapply acted_emits; [| |apply (mergePRs_ok c merge sp [pr])].
    + intros err. split_and!; [done..|]. by exists pr.
    + intros e He. split; [done|by eapply merges_not_git].
  - case_bool_decide; [by apply acted_quiet|]. apply batch_action_ok.
Qed.

(** C2. Tide takes one action, chosen by what was accumulated: it merges a
    successful batch first, even while another batch is pending; else, only while no
    batch is pending, the smallest passing pull request; it starts a batch only when
    none is pending, of at least two passing pull requests within the limit; it tests
    one more pull request only when none is passing or pending.  Its calls are those of
    that action on the reported targets.  So while a batch is pending, all that happens
    is that jobs are created or the pull requests of a successful batch are merged; if
    none succeeded, nothing is merged. *)
Theorem takeAction_spec sp batchPending successes pendings missings batchMerges tests tr :
  let '(tr', (act, targets, err)) :=
    takeAction sp batchPending successes pendings missings batchMerges tests tr in
  action_ok sp batchPending successes pendings missings batchMerges (act, targets, err) ∧
  ∃ new, tr' = tr ++ new ∧ Forall (action_calls sp act targets) new ∧
    (batchPending ≠ [] → Forall (λ e, (∃ pj, e = EvCreate pj) ∨ batchMerges ≠ [] ∧ merges sp batchMerges e) new).
Proof.
  pose proof (takeAction_ok sp batchPending successes pendings missings batchMerges tests tr)
    as [Ha (new & E & Hnew & Hq)].
  destruct (takeAction _ _ _ _ _ _ _ _) as [tr' [[act targets] err]]. cbn in *.
  split; [done|]. exists new. split_and!; [done..|]. intros Hbp.
  specialize (Hq Hbp). apply Forall_forall. intros e He.
  rewrite Forall_forall in Hnew, Hq. specialize (Hnew e He). specialize (Hq e He).
  destruct act; cbn in *; try naive_solver.
  destruct Hnew as [?|Hc]; [done|]. destruct e; try done. eauto.
Qed.

(** *** The whole pass *)

(** What the indexes of the ProwJob cache guarantee, and distinct numbers. *)
Record pool_ok (sp : subpool) : Prop := {
  po_numbers : NoDup (pr_Number <$> sp_prs sp);
  po_indexed : Forall (λ pj, cacheIndexFunc pj ≠ []) (sp_pjs sp);
  po_pulls : Forall (λ pj, spec_Type (pj_Spec pj) = PresubmitJob →
               ∀ r, spec_Refs (pj_Spec pj) = Some r → refs_Pulls r ≠ []) (sp_pjs sp) }.

(** Everything required of [pr] succeeded at its head, or it is part of a batch
    that succeeded as a whole. *)
Definition tested (sp : subpool) (pr : PullRequest) : Prop :=
  (pr ∈ sp_prs sp ∧ passing (sp_presubmits sp) (sp_pjs sp) pr ∧
   pick_candidate GetCombinedStatus (sp_cc sp) pr = true) ∨
  ∃ batch, pr ∈ batch ∧ batch_tested c prChanges (λ s, s = successState) sp batch.

Lemma indexed_refs pj : cacheIndexFunc pj ≠ [] → is_Some (spec_Refs (pj_Spec pj)).
Proof.
  unfold cacheIndexFunc. case_bool_decide; [done|]. destruct (spec_Refs _); [by eexists|done].
Qed.

Lemma pool_ok_jobs sp : pool_ok sp → jobs_have_pulls (sp_pjs sp).
Proof.
  intros [_ Hi Hp]. unfold jobs_have_pulls. rewrite Forall_forall in *. intros pj Hin Ht.
  destruct (indexed_refs pj) as [r Hr]; [by apply Hi|].
  unfold first_pull. rewrite Hr. cbn.
  specialize (Hp _ Hin Ht r Hr). destruct (refs_Pulls r); [done|by eexists].
Qed.

Lemma takeAction_merges_tested sp bp b succ tr :
  Forall (λ pr, 0 < pr_Number pr)%Z (sp_prs sp) →
  bk_successes b = filter (passing (sp_presubmits sp) (sp_pjs sp)) (sp_prs sp) →
  (succ = [] ∨ batch_tested c prChanges (λ s, s = successState) sp succ) →
  ∃ new, (takeAction sp bp (bk_successes b) (bk_pendings b) (bk_missings b) succ
            (bk_missingTests b) tr).1 = tr ++ new ∧
    Forall (λ e, match e with
      | EvMerge _ _ _ _ => ∃ pr method, tested sp pr ∧ e = merge_event c sp pr method
      | _ => True end) new.
Proof.
  intros Hpos Hsucc Hbatch.
  destruct (takeAction_ok sp bp (bk_successes b) (bk_pendings b) (bk_missings b) succ
    (bk_missingTests b) tr) as [Ha (new & E & Hnew & _)].
  exists new. split; [done|]. eapply Forall_impl; [exact Hnew|]. clear E Hnew.
  destruct (takeAction _ _ _ _ _ _ _ tr) as [tr' [[act targets] err]]. cbn in *.
  intros [] He; try done. destruct act; cbn in *; try done; try naive_solver.
  - destruct Ha as (_ & _ & pr & -> & Hpick). destruct He as (pr' & method & Hin & _ & ->).
    apply list_elem_of_singleton in Hin as ->. exists pr, method. split; [|done]. left.
    assert (Forall (λ pr, 0 < pr_Number pr)%Z (bk_successes b)) as Hp.
    { rewrite Hsucc. apply Forall_forall. intros x [_ Hx]%list_elem_of_filter.
      rewrite Forall_forall in Hpos. by apply Hpos. }
    pose proof (pick_ok GetCombinedStatus (sp_cc sp) (bk_successes b) Hp) as Hok.
    rewrite Hpick in Hok. destruct Hok as (Hin & Hc & _). rewrite Hsucc in Hin.
    apply list_elem_of_filter in Hin as [? ?]. done.
  - destruct Ha as [-> Hne]. destruct He as (pr' & method & Hin & _ & ->).
    exists pr', method. split; [|done]. right. exists succ. destruct Hbatch; done.
Qed.

Lemma syncSubpool_ok sp blocks tr :
  pool_ok sp → Forall (λ pr, 0 < pr_Number pr)%Z (sp_prs sp) →
  let '(tr', r) := syncSubpool sp blocks tr in
  is_Some r ∧ ∃ new, tr' = tr ++ new ∧ (blocks ≠ [] → new = []) ∧
    Forall (λ e, match e with
      | EvMerge _ _ _ _ => ∃ pr method, tested sp pr ∧ e = merge_event c sp pr method
      | _ => True end) new.
Proof.
  intros Hok Hpos. unfold TideSync.syncSubpool.
  destruct (accumulate_ok (sp_presubmits sp) (sp_prs sp) (sp_pjs sp)) as (b & -> & Hs & _);
    [by apply pool_ok_jobs|by destruct Hok|].
  destruct (accumulateBatch c prChanges sp) as [[succ pend]|] eqn:Eb; cycle 1.
  { exfalso. unfold accumulateBatch in Eb.
    destruct (note_batches_total (prs_by_number (sp_prs sp)) ∅ (sp_pjs sp)) as [st Hst].
    - destruct Hok as [_ Hi _]. eapply Forall_impl; [exact Hi|]. intros pj Hpj _.
      by apply indexed_refs.
    - by rewrite Hst in Eb. }
  apply accumulateBatch_ok in Eb as [Hbatch _].
  case_bool_decide as Hbl.
  { run. split; [by eexists|]. exists []. by rewrite app_nil_r. }
  rewrite bind_app.
  destruct (takeAction_merges_tested sp pend b succ tr Hpos Hs Hbatch) as (new & E & Hnew).
  destruct (takeAction _ _ _ _ _ _ _ tr) as [tr' [[act targets] err]]. cbn in E. subst tr'.
  run. split; [by eexists|]. exists new. split_and!; [done|by intros ?|done].
Qed.

(** A pass over a subpool whose jobs come from the index does not panic, does
    nothing while an issue blocks the branch, and otherwise asks GitHub to merge
    only pull requests that were tested: every required presubmit succeeded at
    the very head that is merged, alone or in one batch. *)
Theorem syncSubpool_merges_tested sp blocks tr :
  pool_ok sp → Forall (λ pr, 0 < pr_Number pr)%Z (sp_prs sp) →
  let '(tr', r) := syncSubpool sp blocks tr in
  is_Some r ∧ ∃ new, tr' = tr ++ new ∧ (blocks ≠ [] → new = []) ∧
    Forall (λ e, match e with
      | EvMerge _ _ _ _ => ∃ pr method, tested sp pr ∧ e = merge_event c sp pr method
      | _ => True end) new.
Proof. apply syncSubpool_ok. Qed.
End action_proofs.
