(* ===== verification/TideLoop.v ===== *)
(** * Tide's sync loop (tide/tide.go: Sync, sortPools; tide/search.go: dated queries)

    One iteration of the controller: search, find blockers, divide and filter the
    pools, tell the status controller, act on each pool, record what was done.
    The subpools are synced one after the other, in any order: their goroutines
    share only the locked history and the clients.  That a panic or a search
    without end stops the process is the result [None]. *)

From S2P Require Import Prelude Api JobConfig TideTypes TideConfig PjUtil TidePool TideMerge TideBlockers TideStatus TideHistory TideSync.
#[local] Open Scope go_scope.

(** ** The date range of a search *)

(** 2007-01-01, in seconds since 1970 *)
Definition FoundingYear : Time := 1167609600%Z.

Definition floor (t : Time) : Time := if Before t FoundingYear then FoundingYear else t.

Section dates.
(** [Time.Format] with [SearchTimeFormat] *)
Context (Format : Time → string).

(** A year of 1970 or later is a non-negative number of seconds. *)
Definition dateToken (start finish : Time) : string :=
  let token t := if bool_decide (IsZero t = false ∧ 0 ≤ t)%Z then Format t else "*" in
  "updated:" +:+ token start +:+ ".." +:+ token finish.

Definition datedQuery (q : string) (start finish : Time) : string :=
  q +:+ " " +:+ dateToken start finish.
End dates.

(** ** The order in which pools are served *)

Definition pool_le (p q : Pool) : Prop :=
  if decide (pool_Org p ≠ pool_Org q) then String.le (pool_Org p) (pool_Org q)
  else if decide (pool_Repo p ≠ pool_Repo q) then String.le (pool_Repo p) (pool_Repo q)
  else String.le (pool_Branch p) (pool_Branch q).
#[export] Instance pool_le_dec : RelDecision pool_le.
Proof. intros p q. unfold pool_le. repeat case_match; apply _. Defined.

Definition sort_pool (p : Pool) : Pool :=
  mkPool (pool_Org p) (pool_Repo p) (pool_Branch p)
    (sort_by pr_Number (pool_SuccessPRs p)) (sort_by pr_Number (pool_PendingPRs p))
    (sort_by pr_Number (pool_MissingPRs p)) (sort_by pr_Number (pool_BatchPending p))
    (pool_Action p) (pool_Target p) (pool_Blockers p) (pool_Error p).

Definition sortPools (pools : list Pool) : list Pool := sort_pool <$> merge_sort pool_le pools.

(** ** The controller *)

(** What the status controller is told. *)
Record pool_notice := mkPoolNotice {
  pn_blocks : Blockers; pn_poolPRs : gmap string PullRequest;
  pn_baseSHAs : gmap string string; pn_requiredContexts : gmap string (list string) }.

Record Controller := mkController {
  ct_sc : pool_notice; ct_pools : list Pool; ct_History : History }.

Definition action_string (a : Action) : string :=
  match a with
  | Wait => "WAIT" | Trigger => "TRIGGER" | TriggerBatch => "TRIGGER_BATCH"
  | Merge => "MERGE" | MergeBatch => "MERGE_BATCH" | PoolBlocked => "BLOCKED"
  end.

Section loop.
Context `{GoRange} (c : Config).
(** What is read during one sync: pages of searches, refs, ProwJobs, statuses
    and changed files; the time the sync starts; how errors and times print. *)
Context (search_prs : string → option string → result (page PullRequest))
        (search_issues : string → option string → result (page Issue)) (fuel : nat)
        (GetRef : string → string → string → result string)
        (ListProwJobs : string → result (list ProwJob))
        (GetCombinedStatus : string → string → string → result (list (string * string * string)))
        (prChanges : PullRequest → ChangedFilesProvider)
        (start : Time) (Format : Time → string) (error_string : error → string)
        (IsValidLabelValue : string → bool).
Context (merge : list event → merge_answer) (git_do : list event → result unit)
        (git_merge : list event → result bool) (create : list event → result unit)
        (now : list event → Time) (new_name : list event → string).

(** The pull requests of all queries; partial results of a query are kept. *)
Fixpoint gather (queries : list TideQuery) (prs : gmap string PullRequest)
    : may_panic (result (gmap string PullRequest)) :=
  match queries with
  | [] => Some (Ok prs)
  | query :: queries =>
      let q := Query query in
      '(results, err) ← search (search_prs (datedQuery Format q (floor 0%Z) (floor start))) fuel;
      match results, err with
      | [], Some err => Some (Err (Errorf "query %q, err: %v" [AStr q; AErr err]))
      | _, _ => gather queries (foldl (λ prs pr, <[prKey pr := pr]> prs) prs results)
      end
  end.

Definition no_blockers : Blockers := mkBlockers ∅ ∅.

(** Blockers are only searched when there are pull requests and a label. *)
Definition find_blockers (prs : gmap string PullRequest) : may_panic (result Blockers) :=
  let label := tide_BlockerLabel (cfg_Tide c) in
  if bool_decide (prs = ∅ ∨ label = "") then Some (Ok no_blockers)
  else
    let '(orgExcepts, repos) := OrgExceptionsAndRepos (tide_Queries (cfg_Tide c)) in
    FindAll search_issues fuel label
      (orgRepoQueryString (map_range orgExcepts).*1 (set_range repos) orgExcepts).

Definition record_entry (t : Time) (entry : option history_entry) (h : History)
    : may_panic History :=
  match entry with
  | None => Some h
  | Some e => record_action t (he_key e) (action_string (he_action e)) (he_sha e)
                (from_option error_string "" (he_err e)) (he_targets e) h
  end.

(** The subpools one by one: the pools to serve, and the history. *)
Fixpoint sync_subpools (blocks : Blockers) (sps : list subpool) (pools : list Pool) (h : History)
    : M event (may_panic (list Pool * History)) :=
  match sps with
  | [] => mret (Some (pools, h))
  | sp :: sps =>
      r ← syncSubpool c GetCombinedStatus prChanges IsValidLabelValue merge git_do git_merge
            create now new_name sp
            (GetApplicable blocks (sp_org sp) (sp_repo sp) (sp_branch sp));
      t ← observe now;
      match '(pool, entry) ← r; h ← record_entry t entry h; Some (pool, h) with
      | None => mret None
      | Some (pool, h) => sync_subpools blocks sps (pools ++ [pool]) h
      end
  end.

(** [Sync]: the new state and the error. *)
Definition Sync (st : Controller) : M event (may_panic (Controller * option error)) :=
  match gather (tide_Queries (cfg_Tide c)) ∅ with
  | None => mret None
  | Some (Err e) => mret (Some (st, Some e))
  | Some (Ok prs) =>
      match find_blockers prs with
      | None => mret None
      | Some (Err e) => mret (Some (st, Some e))
      | Some (Ok blocks) =>
          match dividePool GetRef ListProwJobs prs with
          | Err e => mret (Some (st, Some e))
          | Ok rawPools =>
              let filteredPools := filterSubpools c GetCombinedStatus prChanges rawPools in
              let notice := mkPoolNotice blocks (poolPRMap filteredPools)
                              (baseSHAMap filteredPools) (requiredContextsMap filteredPools) in
              r ← sync_subpools blocks (map_range filteredPools).*2 [] (ct_History st);
              mret ('(pools, h) ← r;
                    Some (mkController notice (sortPools pools) h, None))
          end
      end
  end.
End loop.

(** ** What the parts of an iteration establish *)

(** A coarser key without repetition makes the finer one distinct. *)
Lemma NoDup_fmap_finer {A B C} (f : A → B) (g : A → C) (l : list A) :
  (∀ x y, x ∈ l → y ∈ l → g x = g y → f x = f y) → NoDup (f <$> l) → NoDup (g <$> l).
Proof.
  intros Hfg. induction l as [|a l IH]; [intros _; apply NoDup_nil_2|]; rewrite !fmap_cons.
  intros [Ha Hnd]%NoDup_cons. apply NoDup_cons. split.
  - intros (b & E & Hb)%list_elem_of_fmap. apply Ha, list_elem_of_fmap. exists b. split; [|done].
    apply Hfg; [set_solver..|done].
  - apply IH; [|done]. intros x y Hx Hy. apply Hfg; set_solver.
Qed.

Lemma omap_fmap_sublist {A B} (f : A → option A) (g : A → B) (l : list A) :
  (∀ a b, f a = Some b → g b = g a) → g <$> omap f l `sublist_of` g <$> l.
Proof.
  intros Hf. induction l as [|a l IH]; [done|]. cbn.
  destruct (f a) as [b|] eqn:E; cbn; [rewrite (Hf _ _ E)|]; by constructor.
Qed.

Lemma pages_from_answered {A} (query : option string → result (page A)) cur ps o :
  pages_from query cur ps o → Forall (λ p, ∃ cur, query cur = Ok p) ps.
Proof. induction 1; eauto. Qed.

(** What GitHub promises of a pull request: a positive number, the full name of
    its repository, and no separator in the names. *)
Record github_pr (pr : PullRequest) : Prop := {
  gp_number : (0 < pr_Number pr)%Z;
  gp_name : pr_NameWithOwner pr = pr_OwnerLogin pr +:+ "/" +:+ pr_RepoName pr;
  gp_owner : contains_char "/" (pr_OwnerLogin pr) = false;
  gp_repo : contains_char ":" (pr_RepoName pr) = false }.

Lemma github_key pr pr' :
  github_pr pr → github_pr pr' → pr_key pr = pr_key pr' → pr_Number pr = pr_Number pr' →
  prKey pr = prKey pr'.
Proof.
  intros [_ Hn Ho Hr] [_ Hn' Ho' Hr'] Hk E. unfold prKey. rewrite Hn, Hn', E.
  by apply poolKey_inj in Hk as (-> & -> & _).
Qed.

Section pools.
Context `{GoRange} (c : Config).
Context (GetRef : string → string → string → result string)
        (ListProwJobs : string → result (list ProwJob))
        (GetCombinedStatus : string → string → string → result (list (string * string * string)))
        (prChanges : PullRequest → ChangedFilesProvider).

Lemma initSubpoolData_data sp sp' :
  initSubpoolData c prChanges sp = Ok sp' → ∃ presubmits cc, sp' = set_data presubmits cc sp.
Proof. unfold initSubpoolData. intros Hi. ok_inv. eauto. Qed.

Lemma filterSubpool_numbers sp sp' :
  filterSubpool GetCombinedStatus sp = Some sp' →
  pr_Number <$> sp_prs sp' `sublist_of` pr_Number <$> sp_prs sp.
Proof.
  unfold filterSubpool. set (keep := omap _ (sp_prs sp)). intros Hsp.
  assert (sp_prs sp' = keep) as -> by (destruct keep; [done|by injection Hsp as <-]).
  apply omap_fmap_sublist. intros pr pr1. unfold filterPR.
  pose proof (headContexts_number GetCombinedStatus pr) as Hh.
  case_bool_decide; [done|]. destruct (headContexts _ pr) as [pr2 [contexts|e]]; [|done].
  cbn in Hh |- *. destruct (existsb _ _); [done|]. intros E. by injection E as <-.
Qed.

(** Each filtered subpool is a divided one with its data and fewer pull requests. *)
Lemma filterSubpools_ok raw :
  map_Forall (λ k sp, ∃ fn sp0 sp1, raw !! fn = Some sp0 ∧
      initSubpoolData c prChanges sp0 = Ok sp1 ∧
      filterSubpool GetCombinedStatus sp1 = Some sp ∧ k = sp_key sp)
    (filterSubpools c GetCombinedStatus prChanges raw).
Proof.
  unfold filterSubpools.
  pose proof (λ sp, proj2 (proj2 (filterSubpool_ok GetCombinedStatus sp))) as Hset.
  assert (∀ sp0, sp0 ∈ (map_range raw).*2 → ∃ fn, raw !! fn = Some sp0) as Hin.
  { intros sp0 ([fn sp] & -> & Hf)%list_elem_of_fmap. exists fn. by apply elem_of_map_range. }
  revert Hin. apply (foldl_ind _ (λ filtered seen, (∀ sp0, sp0 ∈ seen → ∃ fn, raw !! fn = Some sp0) →
    map_Forall _ filtered)); [by intros _; apply map_Forall_empty|].
  intros filtered seen sp0 IH Hin. cbn beta.
  assert (∀ sp0, sp0 ∈ seen → ∃ fn, raw !! fn = Some sp0) as Hseen by set_solver.
  destruct (initSubpoolData c prChanges sp0) as [sp1|e] eqn:Ei; [|by apply IH].
  destruct (filterSubpool GetCombinedStatus sp1) as [sp|] eqn:Ef; [|by apply IH].
  apply map_Forall_insert_2; [|by apply IH]. destruct (Hin sp0) as [fn Hfn]; [set_solver|].
  exists fn, sp0, sp1. split_and!; [done..|]. by rewrite (Hset _ _ Ef).
Qed.

(** Numbers are distinct in a subpool of a pool keyed by repository and number. *)
Lemma dividePool_numbers pool sps fn sp :
  map_Forall (λ k pr, k = prKey pr ∧ github_pr pr) pool →
  dividePool GetRef ListProwJobs pool = Ok sps → sps !! fn = Some sp →
  NoDup (pr_Number <$> sp_prs sp) ∧ (∀ pr, pr ∈ sp_prs sp → ∃ k, pool !! k = Some pr).
Proof.
  intros Hpool Hd Hsp. apply dividePool_ok in Hd as [Hperm Hfor].
  rewrite <-(insert_delete_id sps fn sp) in Hperm by done.
  rewrite map_to_list_insert in Hperm by apply lookup_delete_eq.
  unfold prs_of in Hperm. cbn in Hperm.
  assert (∀ pr, pr ∈ sp_prs sp → ∃ k, pool !! k = Some pr) as Hin.
  { intros pr Hpr. assert (pr ∈ (map_to_list pool).*2) as ([k pr'] & -> & Hk)%list_elem_of_fmap.
    { rewrite <-Hperm. apply elem_of_app. by left. }
    exists k. by apply elem_of_map_to_list. }
  split; [|done].
  apply (NoDup_fmap_finer prKey).
  - intros x y Hx Hy. destruct (Hin _ Hx) as [kx Hkx], (Hin _ Hy) as [ky Hky].
    destruct (Hpool _ _ Hkx) as [_ Gx], (Hpool _ _ Hky) as [_ Gy].
    destruct (Hfor _ _ Hsp) as [[_ Hk _] _]. rewrite Forall_forall in Hk.
    apply github_key; [done..|]. by rewrite (Hk x), (Hk y).
  - assert (prKey <$> (map_to_list pool).*2 = (map_to_list pool).*1) as E.
    { rewrite <-list_fmap_compose. apply list_fmap_ext. intros i [k pr] Hi.
      apply list_elem_of_lookup_2, elem_of_map_to_list in Hi. cbn. by destruct (Hpool _ _ Hi) as [-> _]. }
    assert (NoDup (prKey <$> (map_to_list pool).*2)) as Hnd by (rewrite E; apply NoDup_fst_map_to_list).
    rewrite <-Hperm, fmap_app in Hnd. by apply NoDup_app in Hnd as [? _].
Qed.
End pools.

(** ** One iteration *)

Section loop_proofs.
Context `{GoRange} (c : Config).
Context (search_prs : string → option string → result (page PullRequest))
        (search_issues : string → option string → result (page Issue)) (fuel : nat)
        (GetRef : string → string → string → result string)
        (ListProwJobs : string → result (list ProwJob))
        (GetCombinedStatus : string → string → string → result (list (string * string * string)))
        (prChanges : PullRequest → ChangedFilesProvider)
        (start : Time) (Format : Time → string) (error_string : error → string)
        (IsValidLabelValue : string → bool).
Context (merge : list event → merge_answer) (git_do : list event → result unit)
        (git_merge : list event → result bool) (create : list event → result unit)
        (now : list event → Time) (new_name : list event → string).
Notation Sync := (Sync c search_prs search_issues fuel GetRef ListProwJobs GetCombinedStatus
  prChanges start Format error_string IsValidLabelValue merge git_do git_merge create now new_name).
Notation sync_subpools := (sync_subpools c GetCombinedStatus prChanges error_string
  IsValidLabelValue merge git_do git_merge create now new_name).

(** Every search ends within the fuel; GitHub's pull requests are as documented;
    the index answers with jobs of the key, presubmits with their pull. *)
Record world_ok : Prop := {
  w_pages q : ∃ ps o, pages_from (search_prs q) None ps o ∧ length ps < fuel;
  w_issue_pages q : ∃ ps o, pages_from (search_issues q) None ps o ∧ length ps < fuel;
  w_github q cur p : search_prs q cur = Ok p → Forall github_pr (pg_Nodes p);
  w_index key pjs : ListProwJobs key = Ok pjs →
    Forall (λ pj, key ∈ cacheIndexFunc pj ∧
      (spec_Type (pj_Spec pj) = PresubmitJob →
       ∀ r, spec_Refs (pj_Spec pj) = Some r → refs_Pulls r ≠ [])) pjs }.

(** [pr] is in an answer to one of the configured queries. *)
Definition found (pr : PullRequest) : Prop :=
  ∃ query cur p, query ∈ tide_Queries (cfg_Tide c) ∧
    search_prs (datedQuery Format (Query query) (floor 0%Z) (floor start)) cur = Ok p ∧
    pr ∈ pg_Nodes p.

(** The subpool is at the base GitHub reports, with the jobs indexed for that
    base, and consists of found pull requests of the branch that are fit. *)
Record synced (sp : subpool) : Prop := {
  sy_sha : ∃ pr, pr_key pr = sp_key sp ∧ found pr ∧
             GetRef (sp_org sp) (sp_repo sp) (base_ref pr) = Ok (sp_sha sp);
  sy_pjs : ListProwJobs (cacheIndexKey (sp_org sp) (sp_repo sp) (sp_branch sp) (sp_sha sp))
             = Ok (sp_pjs sp);
  sy_prs : Forall (λ pr, ∃ pr0 contexts, pr_key pr0 = sp_key sp ∧ found pr0 ∧
             admitted GetCombinedStatus sp pr0 pr contexts) (sp_prs sp) }.

Definition history_ok (h : History) : Prop := ∃ limit recorded, history_of limit recorded h.

(** A merge is of a tested pull request of a subpool of this iteration that no
    issue blocks. *)
Definition merge_ok (blocks : Blockers) (e : event) : Prop :=
  match e with
  | EvMerge _ _ _ _ => ∃ sp pr method, e = merge_event c sp pr method ∧ synced sp ∧
      tested c GetCombinedStatus prChanges sp pr ∧
      GetApplicable blocks (sp_org sp) (sp_repo sp) (sp_branch sp) = []
  | _ => True
  end.

Hypothesis world : world_ok.

Lemma found_github pr : found pr → github_pr pr.
Proof.
  intros (q & cur & p & _ & Hp & Hin). pose proof (w_github world _ _ _ Hp) as Hf.
  rewrite Forall_forall in Hf. by apply Hf.
Qed.

Lemma gather_ok queries prs :
  queries ⊆ tide_Queries (cfg_Tide c) → map_Forall (λ k pr, k = prKey pr ∧ found pr) prs →
  ∃ r, gather search_prs fuel start Format queries prs = Some r ∧
    ∀ m, r = Ok m → map_Forall (λ k pr, k = prKey pr ∧ found pr) m.
Proof.
  revert prs. induction queries as [|query queries IH]; intros prs Hsub Hprs; cbn [gather].
  { eexists. split; [done|]. by intros m [= <-]. }
  set (q := datedQuery _ _ _ _). destruct (w_pages world q) as (ps & o & Hps & Hlen).
  destruct (search_loop_pages (search_prs q) _ _ _ _ [] Hps Hlen) as (err & Hs & _).
  unfold search. rewrite Hs. cbn [mbind option_bind].
  set (prs' := foldl (λ prs pr, <[prKey pr := pr]> prs) prs ([] ++ concat (pg_Nodes <$> ps))).
  assert (∃ r, gather search_prs fuel start Format queries prs' = Some r ∧
    ∀ m, r = Ok m → map_Forall (λ k pr, k = prKey pr ∧ found pr) m) as Hrest.
  { apply IH; [set_solver|]. unfold prs'. cbn [app].
    assert (Forall found (concat (pg_Nodes <$> ps))) as Hf.
    { apply Forall_concat, Forall_fmap. eapply Forall_impl; [exact (pages_from_answered _ _ _ _ Hps)|].
      intros p [cur Hp]. apply Forall_forall. intros pr Hin. exists query, cur, p.
      split; [set_solver|done]. }
    generalize dependent prs. clear -Hf. induction Hf as [|pr l Hpr _ IH]; intros m Hm; [done|].
    cbn. apply IH. apply map_Forall_insert_2; done. }
  destruct (_ ++ _); [|done]. destruct err; [|done]. eexists. split; [done|]. done.
Qed.

Lemma find_blockers_total prs : is_Some (find_blockers c search_issues fuel prs).
Proof.
  unfold find_blockers. case_bool_decide; [by eexists|].
  destruct (OrgExceptionsAndRepos _) as [es repos]. unfold FindAll, search_all.
  destruct (w_issue_pages world (blockerQuery (tide_BlockerLabel (cfg_Tide c))
    (orgRepoQueryString (map_range es).*1 (set_range repos) es))) as (ps & o & Hps & Hlen).
  rewrite (search_all_loop_pages _ _ _ _ _ [] Hps Hlen). by eexists.
Qed.

(** The subpools that are acted on. *)
Lemma filtered_synced prs raw :
  map_Forall (λ k pr, k = prKey pr ∧ found pr) prs →
  dividePool GetRef ListProwJobs prs = Ok raw →
  map_Forall (λ k sp, k = sp_key sp ∧ synced sp ∧ pool_ok sp ∧
                      Forall (λ pr, 0 < pr_Number pr)%Z (sp_prs sp))
    (filterSubpools c GetCombinedStatus prChanges raw).
Proof.
  intros Hprs Hd k sp Hsp.
  apply filterSubpools_ok in Hsp as (fn & sp0 & sp1 & Hraw & Hinit & Hfil & ->).
  assert (map_Forall (λ k pr, k = prKey pr ∧ github_pr pr) prs) as Hgh.
  { eapply map_Forall_impl; [exact Hprs|]. intros k pr [? ?]. split; [done|by apply found_github]. }
  destruct (dividePool_numbers _ _ _ _ _ _ Hgh Hd Hraw) as [Hnd Hin].
  apply dividePool_ok in Hd as [_ Hfor].
  destruct (Hfor _ _ Hraw) as [[Hkey Hpk (pr' & Hpr' & Hsha)] Hpjs].
  apply initSubpoolData_data in Hinit as (presubmits & cc & ->).
  pose proof (filterSubpool_numbers _ _ _ Hfil) as Hsubl.
  destruct (filterSubpool_ok GetCombinedStatus (set_data presubmits cc sp0)) as (Hmem & _ & Hset).
  rewrite Hfil in Hmem. cbn [pool_prs from_option] in Hmem.
  assert (∀ pr, pr ∈ sp_prs sp0 → pr_key pr = sp_key sp0 ∧ found pr) as Hfound.
  { intros pr Hpr. rewrite Forall_forall in Hpk. rewrite Hkey. split; [by apply Hpk|].
    destruct (Hin _ Hpr) as [k Hk]. by apply (Hprs k). }
  rewrite (Hset _ Hfil). set (l := sp_prs sp) in *. clearbody l. clear Hset Hfil sp. rename l into kept.
  split_and!; [done|..].
  - split; [|done|].
    + exists pr'. by destruct (Hfound pr' Hpr').
    + apply Forall_forall. intros pr Hpr. apply Hmem in Hpr as (pr0 & contexts & Hpr0 & [A1 A2 A3 A4]).
      destruct (Hfound pr0 Hpr0). exists pr0, contexts. done.
  - pose proof (w_index world _ _ Hpjs) as Hix. split; cbn.
    + by eapply sublist_NoDup.
    + eapply Forall_impl; [exact Hix|]. intros pj [Hk _] E. rewrite E in Hk. by apply elem_of_nil in Hk.
    + eapply Forall_impl; [exact Hix|]. by intros pj [_ ?].
  - apply Forall_forall. intros pr Hpr. cbn in Hpr.
    apply Hmem in Hpr as (pr0 & contexts & Hpr0 & [_ Hh _ _]).
    replace (pr_Number pr) with (pr_Number pr0).
    + apply found_github. by apply Hfound.
    + rewrite <-(headContexts_number GetCombinedStatus pr0), Hh. done.
Qed.

Lemma record_entry_ok t entry h :
  history_ok h → ∃ h', record_entry error_string t entry h = Some h' ∧ history_ok h'.
Proof.
  intros Hh. destruct entry as [e|]; [|by exists h]. destruct Hh as (limit & recorded & Hh).
  unfold record_entry, record_action.
  destruct (addRecord_history limit recorded h (he_key e)
    (mkRecord t (action_string (he_action e)) (he_sha e) (sort_targets (he_targets e))
       (from_option error_string "" (he_err e))) Hh) as (h' & -> & Hh').
  exists h'. split; [done|]. by eexists _, _.
Qed.

Definition pool_id (p : Pool) : string * string * string :=
  (pool_Org p, pool_Repo p, pool_Branch p).
Definition sp_id (sp : subpool) : string * string * string :=
  (sp_org sp, sp_repo sp, sp_branch sp).

Lemma syncSubpool_id sp blocks tr pool entry :
  (syncSubpool c GetCombinedStatus prChanges IsValidLabelValue merge git_do git_merge create now
     new_name sp blocks tr).2 = Some (pool, entry) → pool_id pool = sp_id sp.
Proof.
  unfold syncSubpool. destruct (accumulate _ _ _) as [b|]; [|done].
  destruct (accumulateBatch _ _ _) as [[succ pend]|]; [|done].
  case_bool_decide; [by intros [= <- <-]|]. rewrite bind_app.
  destruct (takeAction _ _ _ _ _ _ _ _ _ _ _ _ _ _ _ _ _ _) as [tr' [[act targets] err]]. cbn.
  by intros [= <- <-].
Qed.

Lemma sync_subpools_ok blocks sps pools h tr :
  Forall (λ sp, synced sp ∧ pool_ok sp ∧ Forall (λ pr, 0 < pr_Number pr)%Z (sp_prs sp)) sps →
  history_ok h →
  ∃ new pools' h', sync_subpools blocks sps pools h tr = (tr ++ new, Some (pools', h')) ∧
    history_ok h' ∧ Forall (merge_ok blocks) new ∧
    pool_id <$> pools' = (pool_id <$> pools) ++ (sp_id <$> sps).
Proof.
  intros Hsps. revert pools h tr.
  induction Hsps as [|sp sps (Hsy & Hok & Hpos) _ IH]; intros pools h tr Hh; cbn [TideLoop.sync_subpools].
  { exists [], pools, h. by rewrite !app_nil_r. }
  rewrite bind_app. set (bl := GetApplicable blocks _ _ _).
  pose proof (syncSubpool_ok c GetCombinedStatus prChanges IsValidLabelValue merge git_do git_merge
    create now new_name sp bl tr Hok Hpos) as Hs.
  pose proof (syncSubpool_id sp bl tr) as Hid.
  destruct (syncSubpool _ _ _ _ _ _ _ _ _ _ sp bl tr) as [tr1 r].
  destruct Hs as ([[pool entry] ->] & new1 & -> & Hquiet & Hnew1). cbn [fst snd] in *.
  specialize (Hid pool entry eq_refl). run.
  destruct (record_entry_ok (now (tr ++ new1)) entry h Hh) as (h1 & E & Hh1).
  cbn [mbind option_bind]. rewrite E. cbn [mbind option_bind].
  destruct (IH (pools ++ [pool]) h1 (tr ++ new1) Hh1) as (new2 & pools' & h' & -> & Hh' & Hnew2 & Hids).
  exists (new1 ++ new2), pools', h'. rewrite app_assoc. split_and!; [done|done| |].
  - apply Forall_app. split; [|done]. destruct (decide (bl = [])) as [Hbl|Hbl].
    + eapply Forall_impl; [exact Hnew1|]. intros [] He; try done.
      destruct He as (pr & method & Ht & ->). by exists sp, pr, method.
    + by rewrite (Hquiet Hbl).
  - rewrite Hids, fmap_app, <-app_assoc. cbn. by rewrite Hid.
Qed.

(** C1. If every search of this iteration ends, GitHub and the index answer as
    documented and the history has a size, an iteration ends without a panic and
    keeps the history well-formed; an error leaves everything as it was.  Every
    merge it asks for is of a pull request that a configured query found and that
    is fit (no conflict, green contexts), in a subpool at the base GitHub reports
    and with the jobs of that base, that was tested with these jobs at its head,
    and on a branch that no issue blocks.  The pools served are those of the
    filtered subpools. *)
Theorem Sync_merges_tested st tr :
  history_ok (ct_History st) →
  ∃ new st' err, Sync st tr = (tr ++ new, Some (st', err)) ∧
    history_ok (ct_History st') ∧
    (err ≠ None → new = [] ∧ st' = st) ∧
    Forall (merge_ok (pn_blocks (ct_sc st'))) new ∧
    (err = None → ∃ prs raw, map_Forall (λ _ pr, found pr) prs ∧
       dividePool GetRef ListProwJobs prs = Ok raw ∧
       pool_id <$> ct_pools st' ≡ₚ
         sp_id <$> (map_range (filterSubpools c GetCombinedStatus prChanges raw)).*2).
Proof.
  intros Hh. unfold TideLoop.Sync.
  destruct (gather_ok (tide_Queries (cfg_Tide c)) ∅) as (r & -> & Hr); [done|apply map_Forall_empty|].
  assert (∀ e, ∃ new st' err, ((tr, Some (st, Some e)) : list event * may_panic (Controller * option error))
      = (tr ++ new, Some (st', err)) ∧ history_ok (ct_History st') ∧
      (err ≠ None → new = [] ∧ st' = st) ∧ Forall (merge_ok (pn_blocks (ct_sc st'))) new ∧
      (err = None → ∃ prs raw, map_Forall (λ _ pr, found pr) prs ∧
         dividePool GetRef ListProwJobs prs = Ok raw ∧
         pool_id <$> ct_pools st' ≡ₚ
           sp_id <$> (map_range (filterSubpools c GetCombinedStatus prChanges raw)).*2)) as Herr.
  { intros e. exists [], st, (Some e). by rewrite app_nil_r. }
  destruct r as [prs|e]; [|apply Herr].
  destruct (find_blockers_total prs) as [[blocks|e] ->]; [|apply Herr].
  destruct (dividePool GetRef ListProwJobs prs) as [raw|e] eqn:Ed; [|apply Herr].
  pose proof (filtered_synced prs raw (Hr _ eq_refl) Ed) as Hfil.
  rewrite bind_app. set (filtered := filterSubpools _ _ _ raw) in *.
  destruct (sync_subpools_ok blocks (map_range filtered).*2 [] (ct_History st) tr)
    as (new & pools & h & -> & Hh' & Hnew & Hids); [|done|].
  { apply Forall_fmap, Forall_forall. intros [k sp] Hk. apply elem_of_map_range in Hk.
    by destruct (Hfil _ _ Hk) as (_ & ? & ? & ?). }
  run. eexists new, _, None. split_and!; [done..|].
  intros _. exists prs, raw. split_and!; [|done|].
  - eapply map_Forall_impl; [exact (Hr _ eq_refl)|]. by intros k pr [_ ?].
  - change (pool_id <$> pools = sp_id <$> (map_range filtered).*2) in Hids.
    fold filtered. rewrite <-Hids. cbn [ct_pools]. unfold sortPools. rewrite <-list_fmap_compose.
    change (pool_id ∘ sort_pool) with pool_id. by rewrite merge_sort_Permutation.
Qed.
End loop_proofs.
