(* ===== verification/Paths.v ===== *)
(** * Slash-separated paths (Go's path/filepath on Unix)

    [Clean], [Dir] and [Rel] as the standard library defines them, and what they
    do on the paths of a repository: names joined by slashes. *)

From S2P Require Import Prelude.
#[local] Open Scope go_scope.

(** The elements of a cleaned path; [acc] holds what was kept, last first. *)
Fixpoint clean_segs (rooted : bool) (acc l : list string) : list string :=
  match l with
  | [] => rev acc
  | s :: l =>
      if bool_decide (s = "" ∨ s = ".") then clean_segs rooted acc l
      else if bool_decide (s = "..") then
        match acc with
        | top :: acc' => if bool_decide (top = "..") then clean_segs rooted (".." :: acc) l
                         else clean_segs rooted acc' l
        | [] => if rooted then clean_segs rooted [] l else clean_segs rooted [".."] l
        end
      else clean_segs rooted (s :: acc) l
  end.

Definition Clean (path : string) : string :=
  let rooted := has_prefix "/" path in
  match clean_segs rooted [] (split_char "/" path) with
  | [] => if rooted then "/" else "."
  | segs => (if rooted then "/" else "") +:+ string_join "/" segs
  end.

(** Everything up to the last slash, cleaned. *)
Definition Dir (path : string) : string :=
  Clean (string_join "/" (removelast (split_char "/" path) ++ [""])).

Fixpoint strip_common (base targ : list string) : list string * list string :=
  match base, targ with
  | b :: base', t :: targ' =>
      if bool_decide (b = t) then strip_common base' targ' else (base, targ)
  | _, _ => (base, targ)
  end.

(** The elements that [Rel] compares. *)
Definition rel_segs (path : string) : list string :=
  if bool_decide (path = "") then []
  else if bool_decide (path = "/") then [""] else split_char "/" path.

Definition Rel (basepath targpath : string) : result string :=
  let base := Clean basepath in
  let targ := Clean targpath in
  if bool_decide (targ = base) then Ok "."
  else
    let base := if bool_decide (base = ".") then "" else base in
    let err := Err (errors_New ("Rel: can't make " +:+ targpath +:+ " relative to " +:+ basepath)) in
    if bool_decide (has_prefix "/" base ≠ has_prefix "/" targ) then err
    else match strip_common (rel_segs base) (rel_segs targ) with
         | ([], targ) => Ok (string_join "/" targ)
         | (base, targ) =>
             if bool_decide (head base = Some "..") then err
             else Ok (string_join "/" (((λ _, "..") <$> base) ++ targ))
         end.

Example Dir_1 : Dir "a/b/c" = "a/b". Proof. reflexivity. Qed.
Example Dir_2 : Dir "a" = ".". Proof. reflexivity. Qed.
Example Dir_3 : Dir "a//b/" = "a/b". Proof. reflexivity. Qed.
Example Dir_4 : Dir "/x" = "/". Proof. reflexivity. Qed.
Example Clean_1 : Clean "a/../../b/./c" = "../b/c". Proof. reflexivity. Qed.
Example Rel_1 : Rel "a/b" "a/b/c/d" = Ok "c/d". Proof. reflexivity. Qed.
Example Rel_2 : Rel "a/b/c" "a/b" = Ok "..". Proof. reflexivity. Qed.
Example Rel_3 : Rel "" "a/b" = Ok "a/b". Proof. reflexivity. Qed.

(** ** Paths of a repository *)

(** A name: not empty, not special, without a slash. *)
Definition good_seg (s : string) : Prop :=
  s ≠ "" ∧ s ≠ "." ∧ s ≠ ".." ∧ contains_char "/" s = false.
#[export] Instance good_seg_dec s : Decision (good_seg s).
Proof. unfold good_seg. apply _. Defined.

Definition path_of (segs : list string) : string := string_join "/" segs.
Definition dot (path : string) : string := if bool_decide (path = "") then "." else path.

(** The path of some names; the empty one is the root. *)
Definition clean_path (p : string) : Prop := ∃ segs, Forall good_seg segs ∧ p = path_of segs.

Lemma split_path segs :
  segs ≠ [] → Forall good_seg segs → split_char "/" (path_of segs) = segs.
Proof.
  intros Hne Hg. apply join_split; [done|]. eapply Forall_impl; [exact Hg|]. by intros s (_ & _ & _ & ?).
Qed.

Lemma clean_segs_good rooted acc segs l :
  Forall good_seg segs → clean_segs rooted acc (segs ++ l) = clean_segs rooted (rev segs ++ acc) l.
Proof.
  intros Hg. revert acc. induction Hg as [|s segs (H1 & H2 & H3 & _) _ IH]; intros acc; cbn [app]; [done|].
  cbn [clean_segs]. rewrite !bool_decide_eq_false_2 by naive_solver. rewrite IH. cbn.
  by rewrite <-app_assoc.
Qed.

Lemma join_head s l : ∃ t, string_join "/" (s :: l) = s +:+ t.
Proof. destruct l; [exists ""; by rewrite string_app_nil_r|]. by eexists. Qed.

Lemma join_rooted s l : good_seg s → has_prefix "/" (string_join "/" (s :: l)) = false.
Proof.
  intros (Hne & _ & _ & Hs). destruct (join_head s l) as [t ->].
  destruct s as [|a s]; [done|]. rewrite str_app_cons. cbn in *. by case_decide; case_decide.
Qed.

Lemma path_of_rooted segs : Forall good_seg segs → has_prefix "/" (path_of segs) = false.
Proof. intros [|s l Hs _]; [done|]. by apply join_rooted. Qed.

Lemma path_of_nil segs : Forall good_seg segs → path_of segs = "" → segs = [].
Proof.
  intros [|s l (Hne & _) _] E; [done|]. destruct s; [done|]. by destruct l.
Qed.

Lemma path_of_inj segs segs' :
  Forall good_seg segs → Forall good_seg segs' → path_of segs = path_of segs' → segs = segs'.
Proof.
  intros Hg Hg' E. destruct segs as [|s l].
  - symmetry in E. by rewrite (path_of_nil segs').
  - destruct segs' as [|s' l']; [by apply path_of_nil in E|].
    rewrite <-(split_path (s :: l)), <-(split_path (s' :: l')) by done. by rewrite E.
Qed.

(** Cleaning joined names, with or without a slash after them. *)
Lemma Clean_segs segs rest :
  Forall good_seg segs → rest = [] ∨ rest = [""] →
  Clean (string_join "/" (segs ++ rest)) = dot (path_of segs).
Proof.
  intros Hg Hrest. destruct segs as [|s l]; [by destruct Hrest as [-> | ->]|].
  assert (split_char "/" (string_join "/" ((s :: l) ++ rest)) = (s :: l) ++ rest) as Hsplit.
  { apply join_split; [done|]. apply Forall_app. split.
    - eapply Forall_impl; [exact Hg|]. by intros ? (_ & _ & _ & ?).
    - destruct Hrest as [-> | ->]; by repeat constructor. }
  assert (has_prefix "/" (string_join "/" ((s :: l) ++ rest)) = false) as Hr.
  { apply Forall_cons in Hg as [Hs _]. by apply join_rooted. }
  unfold Clean. rewrite Hr, Hsplit, clean_segs_good by done.
  assert (∀ acc, clean_segs false acc rest = rev acc) as -> by (by destruct Hrest as [-> | ->]).
  rewrite app_nil_r, rev_involutive. cbn [app].
  unfold dot. rewrite bool_decide_eq_false_2; [done|]. intros E. by apply path_of_nil in E.
Qed.

Lemma Clean_path segs : Forall good_seg segs → Clean (path_of segs) = dot (path_of segs).
Proof. intros Hg. rewrite <-(Clean_segs segs []), app_nil_r by auto. done. Qed.

(** The directory of a path drops its last name. *)
Lemma Dir_path ds s :
  Forall good_seg (ds ++ [s]) → Dir (path_of (ds ++ [s])) = dot (path_of ds).
Proof.
  intros Hg. unfold Dir. rewrite split_path by (done || by destruct ds).
  rewrite removelast_last. apply Clean_segs; [|by right]. by apply Forall_app in Hg as [? _].
Qed.

Lemma path_of_not_dot segs : Forall good_seg segs → path_of segs ≠ ".".
Proof.
  intros Hg E. destruct segs as [|s l]; [done|]. pose proof (split_path (s :: l)) as Hs.
  rewrite E in Hs. cbn in Hs. rewrite <-Hs in Hg by done.
  by apply Forall_cons in Hg as [(_ & ? & _) _].
Qed.

Lemma rel_segs_path segs : Forall good_seg segs → rel_segs (path_of segs) = segs.
Proof.
  intros Hg. unfold rel_segs. case_bool_decide as E; [symmetry; by apply path_of_nil|].
  destruct segs as [|s l]; [done|].
  rewrite bool_decide_eq_false_2; [by apply split_path|].
  intros E'. pose proof (path_of_rooted _ Hg) as Hr. by rewrite E' in Hr.
Qed.

Lemma strip_common_app ds l : strip_common ds (ds ++ l) = ([], l).
Proof.
  induction ds as [|d ds IH]; [by destruct l|]. cbn. by rewrite bool_decide_eq_true_2.
Qed.

(** A path relative to a directory above it. *)
Lemma Rel_path ds es :
  Forall good_seg (ds ++ es) → Rel (path_of ds) (path_of (ds ++ es)) = Ok (dot (path_of es)).
Proof.
  intros Hg. pose proof Hg as [Hds Hes]%Forall_app. unfold Rel. rewrite !Clean_path by done.
  destruct es as [|e es]; [by rewrite app_nil_r, bool_decide_eq_true_2|].
  assert (path_of (ds ++ e :: es) ≠ "") as Hne.
  { intros E. apply path_of_nil in E; [|done]. by destruct ds. }
  assert (∀ segs, Forall good_seg segs → path_of segs ≠ "" → dot (path_of segs) = path_of segs) as Hdot.
  { intros segs _ ?. unfold dot. by rewrite bool_decide_eq_false_2. }
  assert ((if bool_decide (dot (path_of ds) = ".") then "" else dot (path_of ds)) = path_of ds) as ->.
  { destruct (decide (path_of ds = "")) as [->|?]; [done|]. rewrite Hdot by done.
    rewrite bool_decide_eq_false_2; [done|by apply path_of_not_dot]. }
  rewrite (Hdot (ds ++ e :: es)) by done. rewrite bool_decide_eq_false_2; cycle 1.
  { destruct (decide (path_of ds = "")) as [->|?]; [by apply path_of_not_dot|].
    rewrite Hdot by done. intros E%path_of_inj; [|done..].
    apply (f_equal length) in E. rewrite length_app in E. cbn in E. lia. }
  rewrite !path_of_rooted, bool_decide_eq_false_2 by naive_solver.
  rewrite !rel_segs_path, strip_common_app by done. f_equal.
  rewrite Hdot; [done|done|]. intros E. by apply path_of_nil in E.
Qed.
