(* ===== verification/RepoOwners.v ===== *)
(** * OWNERS files (repoowners/repoowners.go)

    Who owns a path: the entries of the OWNERS files above it.  An entry map of a
    directory is keyed by compiled filters, [None] being the entry for all files;
    every compiled filter is a key of its own, so the map is a list.  Reading
    and decoding files, and git, are parameters. *)

From S2P Require Import Prelude Api JobConfig Paths.
#[local] Open Scope go_scope.

Definition ownersFileName : string := "OWNERS".
Definition aliasesFileName : string := "OWNERS_ALIASES".
Definition baseDirConvention : string := "".

Definition canonicalize (path : string) : string :=
  if bool_decide (path = ".") then baseDirConvention else trim_suffix "/" path.

(** ** Logins and aliases *)

Definition NormLogins (logins : list string) : gset string := set_of (NormLogin <$> logins).

(** A nil map is [None]. *)
Definition RepoAliases : Type := option (gmap string (gset string)).

Definition ExpandAlias (a : RepoAliases) (alias : string) : gset string :=
  default ∅ (m ← a; m !! NormLogin alias).

Definition ExpandAliases (a : RepoAliases) (logins : gset string) : gset string :=
  match a with
  | None => logins
  | Some m => foldl (λ acc login,
      match m !! NormLogin login with
      | Some expanded => (acc ∖ {[login]}) ∪ expanded
      | None => acc
      end) logins (set_list logins)
  end.

Definition ExpandAllAliases `{GoRange} (a : RepoAliases) : gset string :=
  match a with
  | None => ∅
  | Some m => foldl (λ result alias, result ∪ ExpandAlias a alias) ∅ (map_range m).*1
  end.

(** ** What OWNERS files hold *)

(** The only option, [NoParentOwners], stands for [dirOptions]. *)
Record owners_config := mkOwnersConfig {
  oc_Approvers : list string; oc_Reviewers : list string;
  oc_RequiredReviewers : list string; oc_Labels : list string }.
Record SimpleConfig := mkSimpleConfig { sc_NoParentOwners : bool; sc_Config : owners_config }.
Record FullConfig := mkFullConfig {
  fc_NoParentOwners : bool; fc_Filters : gmap string owners_config }.

Definition Empty (s : SimpleConfig) : bool :=
  bool_decide (oc_Approvers (sc_Config s) = [] ∧ oc_Reviewers (sc_Config s) = [] ∧
               oc_RequiredReviewers (sc_Config s) = [] ∧ oc_Labels (sc_Config s) = []).

Definition filter_entries : Type := list (option Regexp * gset string).
Definition owner_map : Type := gmap string filter_entries.

Record RepoOwners := mkRepoOwners {
  ro_aliases : RepoAliases;
  ro_approvers : owner_map; ro_reviewers : owner_map;
  ro_requiredReviewers : owner_map; ro_labels : owner_map;
  ro_options : gmap string bool; ro_enableMDYAML : bool }.

Definition entries_of (people : owner_map) (d : string) : filter_entries :=
  default [] (people !! d).
Definition NoParentOwners (options : gmap string bool) (d : string) : bool :=
  default false (options !! d).

(** ** Loading *)

(** [m[path][re] = s] *)
Definition put_entry (path : string) (re : option Regexp) (s : gset string) (m : owner_map)
    : owner_map :=
  <[path := match re with
            | None => (None, s) :: filter (λ e, is_Some e.1) (entries_of m path)
            | Some _ => entries_of m path ++ [(re, s)]
            end]> m.

Definition put_if (l : list string) (path : string) (re : option Regexp) (s : gset string)
    (m : owner_map) : owner_map :=
  match l with [] => m | _ => put_entry path re s m end.

Definition applyConfigToPath (path : string) (re : option Regexp) (config : owners_config)
    (o : RepoOwners) : RepoOwners :=
  let expand l := ExpandAliases (ro_aliases o) (NormLogins l) in
  let put l s := put_if l path re s in
  mkRepoOwners (ro_aliases o)
    (put (oc_Approvers config) (expand (oc_Approvers config)) (ro_approvers o))
    (put (oc_Reviewers config) (expand (oc_Reviewers config)) (ro_reviewers o))
    (put (oc_RequiredReviewers config) (expand (oc_RequiredReviewers config))
       (ro_requiredReviewers o))
    (put (oc_Labels config) (set_of (oc_Labels config)) (ro_labels o))
    (ro_options o) (ro_enableMDYAML o).

Definition applyOptionsToPath (path : string) (noParentOwners : bool) (o : RepoOwners)
    : RepoOwners :=
  if noParentOwners
  then mkRepoOwners (ro_aliases o) (ro_approvers o) (ro_reviewers o) (ro_requiredReviewers o)
         (ro_labels o) (<[path := true]> (ro_options o)) (ro_enableMDYAML o)
  else o.

(** A checked-out repository: directories with sorted entries, and files, that
    are regular or not. *)
Inductive tree : Type :=
| TFile (regular : bool)
| TDir (children : list (string * tree)).

Definition is_dir (t : tree) : bool := match t with TDir _ => true | TFile _ => false end.

Section load.
Context `{GoRange}.
(** The clone's directory, the compiled blacklist, [regexp.Compile], and what the
    files at a relative path decode to. *)
Context (baseDir : string) (dirBlacklist : list Regexp) (Compile : string → option Regexp)
        (decodeOwnersMdConfig : string → result SimpleConfig)
        (LoadSimpleConfig : string → result SimpleConfig)
        (LoadFullConfig : string → result FullConfig).

Definition blacklisted (dir : string) : bool := existsb (λ re, re dir) dirBlacklist.

(** [Parse…Config] check the directory by its absolute path; [true] asks to skip
    the rest of the directory. *)
Definition absolute (rel : string) : string :=
  if bool_decide (rel = ".") then baseDir else baseDir +:+ "/" +:+ rel.

Definition apply_full (relPathDir : string) (c : FullConfig) (o : RepoOwners) : RepoOwners :=
  applyOptionsToPath relPathDir (fc_NoParentOwners c)
    (foldl (λ o '(pattern, config),
      if bool_decide (pattern = ".*") then applyConfigToPath relPathDir None config o
      else match Compile pattern with
           | Some re => applyConfigToPath relPathDir (Some re) config o
           | None => o
           end) o (map_range (fc_Filters c))).

(** [walkFunc] on a regular file: the new state, and whether to skip the rest of
    its directory. *)
Definition walk_file (relPath filename : string) (o : RepoOwners) : RepoOwners * bool :=
  let relPathDir := canonicalize (Dir relPath) in
  if ro_enableMDYAML o && has_suffix ".md" filename then
    match decodeOwnersMdConfig relPath with
    | Err _ => (o, false)
    | Ok simple =>
        (applyOptionsToPath relPath (sc_NoParentOwners simple)
           (applyConfigToPath relPath None (sc_Config simple) o), false)
    end
  else if bool_decide (filename ≠ ownersFileName) then (o, false)
  else if blacklisted (absolute (Dir relPath)) then (o, true)
  else
    match LoadSimpleConfig relPath with
    | Ok simple =>
        if Empty simple then
          match LoadFullConfig relPath with
          | Ok c => (apply_full relPathDir c o, false)
          | Err _ => (o, false)
          end
        else (applyOptionsToPath relPathDir (sc_NoParentOwners simple)
                (applyConfigToPath relPathDir None (sc_Config simple) o), false)
    | Err _ =>
        match LoadFullConfig relPath with
        | Ok c => (apply_full relPathDir c o, false)
        | Err _ => (o, false)
        end
    end.

(** [filepath.Walk] with [walkFunc]; the flag says that [SkipDir] came back. *)
Fixpoint walk (relPath filename : string) (t : tree) (o : RepoOwners) : RepoOwners * bool :=
  match t with
  | TFile regular => if regular then walk_file relPath filename o else (o, false)
  | TDir children =>
      if blacklisted relPath then (o, true)
      else
        (fix visit (children : list (string * tree)) (o : RepoOwners) : RepoOwners * bool :=
           match children with
           | [] => (o, false)
           | (name, t) :: children =>
               let '(o, skip) := walk (if bool_decide (relPath = ".") then name
                                       else relPath +:+ "/" +:+ name) name t o in
               if skip && negb (is_dir t) then (o, true) else visit children o
           end) children o
  end.

Definition loadOwnersFrom (mdYaml : bool) (aliases : RepoAliases) (root : tree) : RepoOwners :=
  (walk "." baseDir root (mkRepoOwners aliases ∅ ∅ ∅ ∅ ∅ mdYaml)).1.
End load.

(** ** Looking up *)

Definition matches (re : option Regexp) (relative : string) : bool :=
  match re with None => true | Some re => re relative end.

(** The loop of [findOwnersForFile]. *)
Fixpoint findOwners_loop (fuel : nat) (ownerMap : owner_map) (path d : string) : option string :=
  match fuel with
  | 0 => None
  | S fuel =>
      if bool_decide (d = baseDirConvention) then Some ""
      else match Rel d path with
           | Err _ => Some ""
           | Ok relative =>
               if existsb (λ '(re, n), matches re relative && negb (bool_decide (n = ∅)))
                    (entries_of ownerMap d)
               then Some d
               else findOwners_loop fuel ownerMap path (canonicalize (Dir d))
           end
  end.

(** The entries of one directory. *)
Definition collect (relative : string) (out : gset string) (l : filter_entries) : gset string :=
  foldl (λ out '(re, s), if matches re relative then out ∪ s else out) out l.

(** The loop of [entriesForFile]; a failing [Rel] gives the nil set. *)
Fixpoint entries_loop (fuel : nat) (people : owner_map) (options : gmap string bool)
    (leafOnly : bool) (path d : string) (out : gset string) : option (gset string) :=
  match fuel with
  | 0 => None
  | S fuel =>
      match Rel d path with
      | Err _ => Some ∅
      | Ok relative =>
          let out := collect relative out (entries_of people d) in
          if leafOnly && negb (bool_decide (out = ∅)) then Some out
          else if bool_decide (d = baseDirConvention) then Some out
          else if NoParentOwners options d then Some out
          else entries_loop fuel people options leafOnly path (canonicalize (Dir d)) out
      end
  end.

(** A path has at most as many directories above it as characters. *)
Definition path_fuel (path : string) : nat := S (S (String.length path)).

Definition findOwnersForFile (path : string) (ownerMap : owner_map) : option string :=
  findOwners_loop (path_fuel path) ownerMap path path.

(** The directory computed first is overwritten in the code, too. *)
Definition entriesForFile (o : RepoOwners) (path : string) (people : owner_map)
    (leafOnly : bool) : option (gset string) :=
  let d := if negb (ro_enableMDYAML o) || negb (has_suffix ".md" path)
           then canonicalize path else path in
  entries_loop (path_fuel path) people (ro_options o) leafOnly path d ∅.

Section queries.
Context (o : RepoOwners) (path : string).
Definition FindApproverOwnersForFile := findOwnersForFile path (ro_approvers o).
Definition FindReviewersOwnersForFile := findOwnersForFile path (ro_reviewers o).
Definition FindLabelsForFile := entriesForFile o path (ro_labels o) false.
Definition IsNoParentOwners := NoParentOwners (ro_options o) path.
Definition LeafApprovers := entriesForFile o path (ro_approvers o) true.
Definition Approvers := entriesForFile o path (ro_approvers o) false.
Definition LeafReviewers := entriesForFile o path (ro_reviewers o) true.
Definition Reviewers := entriesForFile o path (ro_reviewers o) false.
Definition RequiredReviewers := entriesForFile o path (ro_requiredReviewers o) false.
End queries.

Definition TopLevelApprovers (o : RepoOwners) := entriesForFile o "." (ro_approvers o) false.

(** ** Collaborators *)

Definition filterCollaborators (toKeep : list string) (o : RepoOwners) : RepoOwners :=
  let collabs := set_of (NormLogin <$> toKeep) in
  let keep (m : owner_map) : owner_map :=
    (λ es : filter_entries, (λ e, (e.1, e.2 ∩ collabs)) <$> es) <$> m in
  mkRepoOwners (ro_aliases o) (keep (ro_approvers o)) (keep (ro_reviewers o))
    (ro_requiredReviewers o) (ro_labels o) (ro_options o) (ro_enableMDYAML o).

(** ** Lookups, against a reading on lists of names *)

Section lookup_proofs.

Lemma canonicalize_path segs : Forall good_seg segs → canonicalize (path_of segs) = path_of segs.
Proof.
  intros Hg. unfold canonicalize. rewrite bool_decide_eq_false_2 by by apply path_of_not_dot.
  unfold trim_suffix. destruct (trim_suffix_go _ _) as [t|] eqn:E; [|done].
  apply trim_suffix_go_Some in E. destruct segs as [|s l]; [by destruct t|].
  pose proof (split_path (s :: l)) as Hs. rewrite E, split_char_trailing in Hs.
  specialize (Hs ltac:(done) Hg). rewrite <-Hs in Hg.
  by apply Forall_app in Hg as [_ [(? & _) _]%Forall_cons].
Qed.

Lemma canonicalize_dot segs : Forall good_seg segs → canonicalize (dot (path_of segs)) = path_of segs.
Proof.
  intros Hg. unfold dot. case_bool_decide as E; [by rewrite E|]. by apply canonicalize_path.
Qed.

Lemma path_fuel_enough segs : Forall good_seg segs → length segs < path_fuel (path_of segs).
Proof.
  unfold path_fuel. intros Hg. enough (length segs ≤ S (String.length (path_of segs))) by lia.
  induction Hg as [|s l (Hne & _) _ IH]; [cbn; lia|].
  destruct l as [|s' l]; [cbn; lia|].
  change (path_of (s :: s' :: l)) with (s +:+ String "/" (path_of (s' :: l))).
  assert (∀ a b, String.length (a +:+ b) = String.length a + String.length b) as Happ.
  { intros a b. induction a as [|c a IHa]; [done|]. rewrite str_app_cons. cbn. by rewrite IHa. }
  rewrite Happ. cbn [String.length length] in *. destruct s; [done|]. cbn [String.length]. lia.
Qed.

(** An entry of directory [ds] that covers the path [es] below it. *)
Definition covers (m : owner_map) (ds es : list string) (n : gset string) : Prop :=
  ∃ re, (re, n) ∈ entries_of m (path_of ds) ∧ matches re (dot (path_of es)) = true.

(** No directory on the way from below [ds] to the end of [es] cuts off its
    parents. *)
Definition inherits (options : gmap string bool) (ds es : list string) : Prop :=
  ∀ p q, es = p ++ q → p ≠ [] → NoParentOwners options (path_of (ds ++ p)) = false.

Lemma inherits_nil options ds : inherits options ds [].
Proof. intros p q E Hp. by destruct p. Qed.

(** One directory further up. *)
Lemma inherits_snoc options ds es s :
  inherits options ds (es ++ [s]) ↔
  inherits options ds es ∧ NoParentOwners options (path_of (ds ++ es ++ [s])) = false.
Proof.
  split.
  - intros Hi. split.
    + intros p q -> Hp. apply (Hi p (q ++ [s])); [by rewrite app_assoc|done].
    + apply (Hi (es ++ [s]) []); [by rewrite app_nil_r|by destruct es].
  - intros [Hi Hs] p q E Hp. destruct q as [|x q _] using rev_ind.
    + rewrite app_nil_r in E. by rewrite <-E.
    + rewrite app_assoc in E. apply app_inj_tail in E as [-> _]. by apply (Hi p q).
Qed.

Lemma elem_of_collect relative out l x :
  x ∈ collect relative out l ↔
  x ∈ out ∨ ∃ re s, (re, s) ∈ l ∧ matches re relative = true ∧ x ∈ s.
Proof.
  unfold collect. revert out. induction l as [|[re s] l IH]; intros out; cbn [foldl].
  - setoid_rewrite elem_of_nil. naive_solver.
  - rewrite IH. setoid_rewrite elem_of_cons.
    destruct (matches re relative) eqn:E; rewrite ?elem_of_union; split.
    + intros [[?|?]|(r & n & ? & ? & ?)]; [by left|right; exists re, s|right; exists r, n]; auto.
    + intros [?|(r & n & [[= -> ->]|?] & ? & ?)]; [by left; left|by left; right|right; by exists r, n].
    + intros [?|(r & n & ? & ? & ?)]; [by left|right; exists r, n]; auto.
    + intros [?|(r & n & [[= -> ->]|?] & ? & ?)]; [by left|congruence|right; by exists r, n].
Qed.

Variables (people : owner_map) (options : gmap string bool).

Lemma entries_loop_spec ds es fuel out :
  Forall good_seg (ds ++ es) → length ds < fuel →
  ∃ r, entries_loop fuel people options false (path_of (ds ++ es)) (path_of ds) out = Some r ∧
    ∀ x, x ∈ r ↔ x ∈ out ∨ ∃ ds1 ds2 n, ds = ds1 ++ ds2 ∧ inherits options ds1 ds2 ∧
                   covers people ds1 (ds2 ++ es) n ∧ x ∈ n.
Proof.
  revert es fuel out. induction ds as [|s ds IH] using rev_ind; intros es [|fuel] out Hg Hf;
    try (cbn in Hf; lia); cbn [entries_loop]; rewrite Rel_path by done; cbn [andb].
  - rewrite bool_decide_eq_true_2 by done. eexists. split; [done|]. intros x.
    rewrite elem_of_collect. apply or_iff_compat_l. split.
    + intros (re & n & Hin & Hm & Hx). exists [], [], n.
      split_and!; [done|apply inherits_nil|by exists re|done].
    + intros (ds1 & ds2 & n & E & _ & (re & Hin & Hm) & Hx). destruct ds1, ds2; try done.
      by exists re, n.
  - rewrite <-app_assoc in *. cbn [app] in *. rewrite length_app in Hf. cbn in Hf.
    assert (Forall good_seg (ds ++ [s])) as Hds.
    { rewrite cons_middle, app_assoc in Hg. by apply Forall_app in Hg as [? _]. }
    rewrite bool_decide_eq_false_2; cycle 1.
    { intros E. apply path_of_nil in E; [by destruct ds|done]. }
    set (out' := collect _ out _).
    assert (∀ x, x ∈ out' ↔ x ∈ out ∨ ∃ n, covers people (ds ++ [s]) es n ∧ x ∈ n) as Hout'.
    { intros x. unfold out'. rewrite elem_of_collect.
      unfold covers. naive_solver. }
    destruct (NoParentOwners options (path_of (ds ++ [s]))) eqn:Hno.
    + eexists. split; [done|]. intros x. rewrite Hout'. apply or_iff_compat_l. split.
      * intros (n & Hc & Hx). exists (ds ++ [s]), [], n. rewrite app_nil_r.
        split_and!; [done|apply inherits_nil|done|done].
      * intros (ds1 & ds2 & n & E & Hi & Hc & Hx). destruct ds2 as [|s' ds2 _] using rev_ind.
        { rewrite app_nil_r in E. subst ds1. by exists n. }
        rewrite app_assoc in E. apply app_inj_tail in E as [-> ->].
        apply inherits_snoc in Hi as [_ Hi]. rewrite <-app_assoc in Hno. congruence.
    + assert (Forall good_seg ds) as Hgd by by apply Forall_app in Hds as [? _].
      rewrite Dir_path, canonicalize_dot by done.
      destruct (IH (s :: es) fuel out') as (r & Hr & Hx); [done|lia|].
      exists r. split; [done|]. intros x. rewrite Hx, Hout'. split.
      * intros [[?|(n & Hc & Hn)]|(ds1 & ds2 & n & -> & Hi & Hc & Hn)]; [by left|right..].
        -- exists (ds ++ [s]), [], n. rewrite app_nil_r.
           split_and!; [done|apply inherits_nil|done|done].
        -- exists ds1, (ds2 ++ [s]), n. rewrite <-!app_assoc. split_and!; [done| |done|done].
           apply inherits_snoc. split; [done|]. by rewrite <-app_assoc in Hno.
      * intros [?|(ds1 & ds2 & n & E & Hi & Hc & Hn)]; [by left; left|].
        destruct ds2 as [|s' ds2 _] using rev_ind.
        -- rewrite app_nil_r in E. subst ds1. left. right. by exists n.
        -- rewrite app_assoc in E. apply app_inj_tail in E as [-> ->]. right.
           apply inherits_snoc in Hi as [Hi _]. exists ds1, ds2, n.
           rewrite <-app_assoc in Hc. done.
Qed.

(** The directory [ds1] gives all and only the people of [r], for the path [ds2] below it, and
    none of the directories further down, to [ds1 ++ ds2], gives anybody. *)
Definition closest ds es ds1 ds2 (r : gset string) : Prop :=
  ds = ds1 ++ ds2 ∧ inherits options ds1 ds2 ∧ r ≠ ∅ ∧
  (∀ x, x ∈ r ↔ ∃ n, covers people ds1 (ds2 ++ es) n ∧ x ∈ n) ∧
  ∀ ds' q n, ds = ds' ++ q → length ds1 < length ds' → covers people ds' (q ++ es) n → n = ∅.

(** Looking for the closest owners finds those of one directory, and nobody only if
    there is nobody to inherit. *)
Lemma entries_loop_leaf ds es fuel :
  Forall good_seg (ds ++ es) → length ds < fuel →
  ∃ r, entries_loop fuel people options true (path_of (ds ++ es)) (path_of ds) ∅ = Some r ∧
    ((r = ∅ ∧ ∀ ds1 ds2 n, ds = ds1 ++ ds2 → inherits options ds1 ds2 → covers people ds1 (ds2 ++ es) n → n = ∅) ∨
     ∃ ds1 ds2, closest ds es ds1 ds2 r).
Proof.
  revert es fuel. induction ds as [|s ds IH] using rev_ind; intros es [|fuel] Hg Hf;
    try (cbn in Hf; lia); cbn [entries_loop]; rewrite Rel_path by done; cbn [andb];
    set (out := collect _ ∅ _).
  - assert (∀ x, x ∈ out ↔ ∃ n, covers people [] es n ∧ x ∈ n) as Hout.
    { intros x. unfold out. rewrite elem_of_collect. unfold covers. set_solver. }
    rewrite (bool_decide_eq_true_2 (path_of [] = baseDirConvention)) by done.
    exists out. split; [by case_match|]. destruct (decide (out = ∅)) as [E|E].
    + left. split; [done|]. intros [] [] n; try done. intros _ _ Hc. apply set_eq. intros x.
      split; [intros Hx|set_solver]. rewrite <- E. apply Hout. eauto.
    + right. exists [], []. split_and!; [done|apply inherits_nil|done|done|].
      intros [|? ds'] q n Eq Hl; [cbn in Hl; lia|done].
  - rewrite <- app_assoc in *. cbn [app] in *. rewrite length_app in Hf. cbn in Hf.
    assert (Forall good_seg (ds ++ [s])) as Hds.
    { rewrite cons_middle, app_assoc in Hg. by apply Forall_app in Hg as [? _]. }
    assert (Forall good_seg ds) as Hgd by by apply Forall_app in Hds as [? _].
    assert (∀ x, x ∈ out ↔ ∃ n, covers people (ds ++ [s]) es n ∧ x ∈ n) as Hout.
    { intros x. unfold out. rewrite elem_of_collect. unfold covers. set_solver. }
    rewrite (bool_decide_eq_false_2 (_ = baseDirConvention)); cycle 1.
    { intros E. apply path_of_nil in E; [by destruct ds|done]. }
    destruct (decide (out = ∅)) as [E|E].
    + assert (∀ n, covers people (ds ++ [s]) es n → n = ∅) as Hnone by set_solver.
      rewrite (bool_decide_eq_true_2 (out = ∅)) by done. cbn [negb]. rewrite E.
      destruct (NoParentOwners options (path_of (ds ++ [s]))) eqn:Hno.
      * exists ∅. split; [done|]. left. split; [done|]. intros ds1 ds2 n Eds Hi Hc.
        destruct ds2 as [|s' ds2 _] using rev_ind.
        { rewrite app_nil_r in Eds. subst ds1. by apply Hnone. }
        rewrite app_assoc in Eds. apply app_inj_tail in Eds as [-> ->].
        apply inherits_snoc in Hi as [_ Hi]. rewrite <- app_assoc in Hno. congruence.
      * rewrite Dir_path, canonicalize_dot by done.
        destruct (IH (s :: es) fuel) as (r & Hr & Hcase); [done|lia|]. exists r. split; [done|].
        destruct Hcase as [[-> Hall]|(ds1 & ds2 & -> & Hi & Hne & Hx & Hfar)]; [left|right].
        -- split; [done|]. intros ds1 ds2 n Eds Hi Hc. destruct ds2 as [|s' ds2 _] using rev_ind.
           { rewrite app_nil_r in Eds. subst ds1. by apply Hnone. }
           rewrite app_assoc in Eds. apply app_inj_tail in Eds as [-> ->].
           apply inherits_snoc in Hi as [Hi _]. apply (Hall ds1 ds2 n eq_refl Hi). by rewrite <- app_assoc in Hc.
        -- exists ds1, (ds2 ++ [s]). split_and!; [by rewrite app_assoc| |done|by rewrite <- app_assoc|].
           { apply inherits_snoc. by rewrite <- app_assoc in Hno. }
           intros ds' q n Eds Hl Hc. destruct q as [|s' q _] using rev_ind.
           { rewrite app_nil_r in Eds. subst ds'. by apply Hnone. }
           rewrite (app_assoc ds' q) in Eds. apply app_inj_tail in Eds as [Eds ->].
           apply (Hfar ds' q n); [done..|]. by rewrite <- app_assoc in Hc.
    + rewrite (bool_decide_eq_false_2 (out = ∅)) by done. cbn [negb]. exists out. split; [done|].
      right. exists (ds ++ [s]), []. split_and!; [by rewrite app_nil_r|apply inherits_nil|done|done|].
      intros ds' q n Eds Hl. apply (f_equal length) in Eds. rewrite !length_app in *. lia.
Qed.

Lemma findOwners_loop_spec ds es fuel :
  Forall good_seg (ds ++ es) → length ds < fuel →
  ∃ ds1 ds2, findOwners_loop fuel people (path_of (ds ++ es)) (path_of ds) = Some (path_of ds1) ∧
    ds = ds1 ++ ds2 ∧
    (ds1 = [] ∨ ∃ n, covers people ds1 (ds2 ++ es) n ∧ n ≠ ∅) ∧
    (∀ ds' q n, ds = ds' ++ q → length ds1 < length ds' → covers people ds' (q ++ es) n → n = ∅).
Proof.
  revert es fuel. induction ds as [|s ds IH] using rev_ind; intros es [|fuel] Hg Hf;
    try (cbn in Hf; lia); cbn [findOwners_loop].
  - rewrite bool_decide_eq_true_2 by done. exists [], []. split_and!; [done|done|by left|].
    intros ds' q n E Hl. destruct ds'; [cbn in Hl; lia|done].
  - rewrite length_app in Hf. cbn in Hf.
    assert (Forall good_seg (ds ++ [s])) as Hds by by apply Forall_app in Hg as [? _].
    assert (Forall good_seg ds) as Hgd by by apply Forall_app in Hds as [? _].
    rewrite bool_decide_eq_false_2, Rel_path; [|done|].
    2: { intros E. apply path_of_nil in E; [by destruct ds|done]. }
    destruct (existsb _ _) eqn:Ex.
    + apply existsb_exists in Ex as ([re n] & Hin & [Hm Hn%negb_true_iff]%andb_true_iff).
      rewrite <-list_elem_of_In in Hin. apply bool_decide_eq_false in Hn.
      exists (ds ++ [s]), []. rewrite app_nil_r. split_and!; [done|done| |].
      * right. exists n. split; [by exists re|done].
      * intros ds' q n' E Hl. apply (f_equal length) in E. rewrite !length_app in *. lia.
    + rewrite Dir_path, canonicalize_dot by done. rewrite <-app_assoc in *. cbn [app] in *.
      destruct (IH (s :: es) fuel) as (ds1 & ds2 & Hr & -> & H1 & H2); [done|lia|].
      exists ds1, (ds2 ++ [s]). rewrite <-!app_assoc in *. split_and!; [done|done|done|].
      intros ds' q n E Hl Hc. destruct q as [|x q _] using rev_ind.
      * rewrite app_nil_r in E. subst ds'. destruct Hc as (re & Hin & Hm).
        destruct (decide (n = ∅)) as [|Hn]; [done|exfalso].
        rewrite existsb_false in Ex. specialize (Ex _ Hin). cbn beta iota in Ex.
        cbn [app] in Hm. by rewrite Hm, bool_decide_eq_false_2 in Ex.
      * rewrite !app_assoc in E. apply app_inj_tail in E as [E ->]. rewrite <-app_assoc in Hc.
        by apply (H2 ds' q n).
Qed.
End lookup_proofs.

Section owners_proofs.
Variable (o : RepoOwners).

(** [x] is an entry for the path of some directory on the way up, from which the
    path inherits. *)
Definition entry_for (people : owner_map) (segs : list string) (x : string) : Prop :=
  ∃ ds es n, segs = ds ++ es ∧ inherits (ro_options o) ds es ∧ covers people ds es n ∧ x ∈ n.

(** [leaf] is everybody with an entry for the path in one directory, none of the directories
    closer to the path has an entry for it with anybody, and this one is inherited from. *)
Definition closest_entries (people : owner_map) (segs : list string) (leaf : gset string) : Prop :=
  ∃ ds es, segs = ds ++ es ∧ inherits (ro_options o) ds es ∧ leaf ≠ ∅ ∧
    (∀ x, x ∈ leaf ↔ ∃ n, covers people ds es n ∧ x ∈ n) ∧
    (∀ ds' es' n, segs = ds' ++ es' → length ds < length ds' → covers people ds' es' n → n = ∅).

Lemma entriesForFile_ok people segs :
  Forall good_seg segs →
  ∃ all leaf, entriesForFile o (path_of segs) people false = Some all ∧
    entriesForFile o (path_of segs) people true = Some leaf ∧
    (∀ x, x ∈ all ↔ entry_for people segs x) ∧
    ((leaf = ∅ ∧ all = ∅) ∨ closest_entries people segs leaf).
Proof.
  intros Hg. unfold entriesForFile.
  assert ((if negb (ro_enableMDYAML o) || negb (has_suffix ".md" (path_of segs))
           then canonicalize (path_of segs) else path_of segs) = path_of segs) as ->.
  { rewrite canonicalize_path by done. by case_match. }
  pose proof (path_fuel_enough segs Hg) as Hf. rewrite <-(app_nil_r segs) in Hg.
  destruct (entries_loop_spec people (ro_options o) segs [] _ ∅ Hg Hf) as (r & Hr & Hx).
  destruct (entries_loop_leaf people (ro_options o) segs [] _ Hg Hf) as (r' & Hr' & Hcase).
  rewrite app_nil_r in *.
  assert (∀ x, x ∈ r ↔ entry_for people segs x) as Hall.
  { intros x. rewrite Hx. split.
    - intros [[]%not_elem_of_empty|(ds1 & ds2 & n & ? & ? & Hc & ?)]. rewrite app_nil_r in Hc.
      by exists ds1, ds2, n.
    - intros (ds & es & n & ? & ? & Hc & ?). right. exists ds, es, n. by rewrite app_nil_r. }
  exists r, r'. split_and!; [done..|]. destruct Hcase as [[-> Hnone]|(ds1 & ds2 & E & Hi & Hne & Hl & Hfar)].
  - left. split; [done|]. apply set_eq. intros x. split; [|set_solver].
    intros (ds & es & n & E & Hi & Hc & Hn)%Hall. rewrite <- (app_nil_r es) in Hc.
    by rewrite (Hnone ds es n E Hi Hc) in Hn.
  - right. exists ds1, ds2. rewrite app_nil_r in Hl. split_and!; [done..|].
    intros ds' es' n Es Hlen Hc. apply (Hfar ds' es' n Es Hlen). by rewrite app_nil_r.
Qed.

Lemma leaf_in_all people segs all leaf :
  (∀ x, x ∈ all ↔ entry_for people segs x) →
  ((leaf = ∅ ∧ all = ∅) ∨ closest_entries people segs leaf) → leaf ⊆ all.
Proof.
  intros Hall [[-> _]|(ds & es & E & Hi & _ & Hl & _)] x Hx; [set_solver|]. apply Hall.
  apply Hl in Hx as (n & Hc & Hn). by exists ds, es, n.
Qed.

Lemma findOwnersForFile_ok m segs :
  Forall good_seg segs →
  ∃ ds es, findOwnersForFile (path_of segs) m = Some (path_of ds) ∧ segs = ds ++ es ∧
    (ds = [] ∨ ∃ n, covers m ds es n ∧ n ≠ ∅) ∧
    (∀ ds' es' n, segs = ds' ++ es' → length ds < length ds' → covers m ds' es' n → n = ∅).
Proof.
  intros Hg. pose proof (path_fuel_enough segs Hg) as Hf. rewrite <-(app_nil_r segs) in Hg.
  destruct (findOwners_loop_spec m segs [] _ Hg Hf) as (ds & es & Hr & E & H1 & H2).
  rewrite app_nil_r in *. exists ds, es. split_and!; [done..|].
  intros ds' es' n E' Hl Hc. apply (H2 ds' es'); [done..|]. by rewrite app_nil_r.
Qed.

(** C35. For a path of the repository the look-ups end.  Everybody with an entry in
    a directory above the path, whose filter matches the path from there and
    from which no directory on the way cuts off its parents, is found, and nobody
    else; the closest people found are exactly those with such an entry in one of these
    directories, below which no directory has an entry for the path that names anybody, and
    nobody only if there is nobody; and the owners file found is the deepest with a non-empty
    matching entry, or the root. *)
Theorem lookups_spec people segs :
  Forall good_seg segs →
  (∃ all leaf, entriesForFile o (path_of segs) people false = Some all ∧
     entriesForFile o (path_of segs) people true = Some leaf ∧
     (∀ x, x ∈ all ↔ entry_for people segs x) ∧
     ((leaf = ∅ ∧ all = ∅) ∨ closest_entries people segs leaf)) ∧
  (∃ ds es, findOwnersForFile (path_of segs) people = Some (path_of ds) ∧ segs = ds ++ es ∧
     (ds = [] ∨ ∃ n, covers people ds es n ∧ n ≠ ∅) ∧
     (∀ ds' es' n, segs = ds' ++ es' → length ds < length ds' → covers people ds' es' n → n = ∅)).
Proof. intros Hg. split; [by apply entriesForFile_ok|by apply findOwnersForFile_ok]. Qed.
End owners_proofs.

(** ** Witness *)

Definition two_owners : RepoOwners :=
  mkRepoOwners None {["" := [(None, {["root"]})]; "pkg" := [(None, {["ann"]})]]} ∅ ∅ ∅ ∅ false.

Lemma lookups_spec_witness :
  Forall good_seg ["pkg"; "x.go"] ∧
  ∃ all leaf, entriesForFile two_owners "pkg/x.go" (ro_approvers two_owners) false = Some all ∧
    entriesForFile two_owners "pkg/x.go" (ro_approvers two_owners) true = Some leaf ∧
    (∀ x, x ∈ all ↔ entry_for two_owners (ro_approvers two_owners) ["pkg"; "x.go"] x) ∧
    closest_entries two_owners (ro_approvers two_owners) ["pkg"; "x.go"] leaf.
Proof.
  assert (Forall good_seg ["pkg"; "x.go"]) as H
    by (apply (bool_decide_eq_true_1 _); vm_compute; reflexivity).
  split; [exact H|].
  destruct (lookups_spec two_owners (ro_approvers two_owners) ["pkg"; "x.go"] H)
    as [(all & leaf & E & El & Hx & Hc) _].
  exists all, leaf. split; [exact E|]. split; [exact El|]. split; [exact Hx|].
  destruct Hc as [[-> _]|Hc]; [|exact Hc]. vm_compute in El. congruence.
Defined.
