(* ===== verification/OwnersClient.v ===== *)
(** * The cache of OWNERS files (repoowners/repoowners.go: Client)

    Owners are loaded from a clone and kept per repository and branch with the
    SHA that GitHub named.  A call gets what GitHub and git answer at that
    moment, which may be different commits; what a commit holds is a function of
    its SHA. *)

From S2P Require Import Prelude Api JobConfig Paths RepoOwners.
#[local] Open Scope go_scope.

(** A commit: its tree, the decoded alias file if there is one, and what its
    files decode to. *)
Record snapshot := mkSnapshot {
  sn_tree : list (string * tree);
  sn_aliases : option (result (gmap string (list string)));
  sn_md : string → result SimpleConfig;
  sn_simple : string → result SimpleConfig;
  sn_full : string → result FullConfig }.

Record cacheEntry := mkCacheEntry {
  ce_sha : string; ce_aliases : RepoAliases; ce_owners : option RepoOwners }.
Definition no_entry : cacheEntry := mkCacheEntry "" None None.

(** Only asked of an entry with owners. *)
Definition matchesMDYAML (entry : cacheEntry) (mdYAML : bool) : bool :=
  match ce_owners entry with
  | Some o => bool_decide (ro_enableMDYAML o = mdYAML)
  | None => false
  end.
Definition fullyLoaded (entry : cacheEntry) : bool :=
  bool_decide (ce_sha entry ≠ "" ∧ is_Some (ce_aliases entry) ∧ is_Some (ce_owners entry)).

(** What a call meets: [GetRef], the settings of the repository, [Clone],
    [Checkout] of the branch (the commit it then has in the clone), [Diff] and
    [ListCollaborators]. *)
Record call_env := mkCallEnv {
  ev_GetRef : result string; ev_mdYAMLEnabled : bool; ev_skipCollaborators : bool;
  ev_Clone : result unit; ev_Checkout : result string;
  ev_Diff : string → string → result (list string);
  ev_ListCollaborators : result (list string) }.

Definition relevant_change (mdYaml : bool) (change : string) : bool :=
  mdYaml && has_suffix ".md" change || has_suffix aliasesFileName change ||
  has_suffix ownersFileName change.

Section client.
Context `{GoRange}.
Context (baseDir : string) (dirBlacklist : list Regexp) (Compile : string → option Regexp)
        (snapshot_at : string → snapshot).

Definition ParseAliasesConfig (data : gmap string (list string)) : gmap string (gset string) :=
  foldl (λ result '(alias, expanded), <[NormLogin alias := NormLogins expanded]> result) ∅
    (map_range data).

Definition loadAliasesFrom (s : snapshot) : RepoAliases :=
  match sn_aliases s with
  | None => None
  | Some (Err _) => Some ∅
  | Some (Ok data) => Some (ParseAliasesConfig data)
  end.

Definition load_owners (s : snapshot) (mdYaml : bool) (aliases : RepoAliases) : RepoOwners :=
  loadOwnersFrom baseDir dirBlacklist Compile (sn_md s) (sn_simple s) (sn_full s) mdYaml aliases
    (TDir (sn_tree s)).

(** One key of the cache: [org/repo:base]. *)
Definition cache : Type := option cacheEntry.

Definition LoadRepoAliases (cloneRef base : string) (env : call_env) (c : cache)
    : cache * result RepoAliases :=
  match wrap_args "failed to get current SHA for %s: %v" [AStr (cloneRef +:+ ":" +:+ base)]
          (ev_GetRef env) with
  | Err e => (c, Err e)
  | Ok sha =>
      let entry := default no_entry c in
      if bool_decide (c = None ∨ ce_sha entry ≠ sha) then
        match wrap_args "failed to clone %s: %v" [AStr cloneRef] (ev_Clone env), ev_Checkout env with
        | Err e, _ | _, Err e => (c, Err e)
        | Ok _, Ok head =>
            let entry := mkCacheEntry sha (loadAliasesFrom (snapshot_at head)) (ce_owners entry) in
            (Some entry, Ok (ce_aliases entry))
        end
      else (c, Ok (ce_aliases entry))
  end.

(** Whether a stale entry can be used: [Diff] with no relevant change. *)
Definition is_reusable (mdYaml : bool) (env : call_env) (sha : string) (entry : cacheEntry)
    : result bool :=
  if fullyLoaded entry && matchesMDYAML entry mdYaml then
    match ev_Diff env sha (ce_sha entry) with
    | Err _ => Err (Errorf "failed to diff %s with %s" [AStr sha; AStr (ce_sha entry)])
    | Ok changes => Ok (negb (existsb (relevant_change mdYaml) changes))
    end
  else Ok false.

(** The owners for the current SHA, before collaborators are looked at. *)
Definition current_owners (cloneRef : string) (env : call_env) (sha : string) (c : cache)
    : cache * result RepoOwners :=
  let mdYaml := ev_mdYAMLEnabled env in
  let entry := default no_entry c in
  let reload :=
    match wrap_args "failed to clone %s: %v" [AStr cloneRef] (ev_Clone env) with
    | Err e => (c, Err e)
    | Ok _ =>
        let load :=
          match ev_Checkout env with
          | Err e => (c, Err e)
          | Ok head =>
              let aliases := if bool_decide (ce_aliases entry = None ∨ ce_sha entry ≠ sha)
                             then loadAliasesFrom (snapshot_at head) else ce_aliases entry in
              let owners := load_owners (snapshot_at head) mdYaml aliases in
              (Some (mkCacheEntry sha aliases (Some owners)), Ok owners)
          end in
        match is_reusable mdYaml env sha entry with
        | Err e => (c, Err e)
        | Ok true =>
            (* the cache keeps the old SHA *)
            match ce_owners entry with Some owners => (c, Ok owners) | None => load end
        | Ok false => load
        end
    end in
  match ce_owners entry with
  | Some owners => if bool_decide (c ≠ None ∧ ce_sha entry = sha) && matchesMDYAML entry mdYaml
                   then (c, Ok owners) else reload
  | None => reload
  end.

Definition LoadRepoOwners (cloneRef base : string) (env : call_env) (c : cache)
    : cache * result RepoOwners :=
  match wrap_args "failed to get current SHA for %s: %v" [AStr (cloneRef +:+ ":" +:+ base)]
          (ev_GetRef env) with
  | Err e => (c, Err e)
  | Ok sha =>
      match current_owners cloneRef env sha c with
      | (c, Err e) => (c, Err e)
      | (c, Ok owners) =>
          (c, Ok (if ev_skipCollaborators env then owners
                  else match ev_ListCollaborators env with
                       | Err _ => owners
                       | Ok collaborators => filterCollaborators collaborators owners
                       end))
      end
  end.
End client.

(** ** What loading depends on *)

Definition relevant_file (mdYaml : bool) (name : string) : bool :=
  mdYaml && has_suffix ".md" name || bool_decide (name = ownersFileName).

(** A tree without the files, and then empty directories, that loading ignores. *)
Fixpoint prune_tree (mdYaml : bool) (name : string) (t : tree) : option tree :=
  match t with
  | TFile regular => if regular && relevant_file mdYaml name then Some (TFile true) else None
  | TDir children =>
      match (fix go (children : list (string * tree)) : list (string * tree) :=
               match children with
               | [] => []
               | (name, t) :: children =>
                   match prune_tree mdYaml name t with
                   | Some t' => (name, t') :: go children
                   | None => go children
                   end
               end) children with
      | [] => None
      | children => Some (TDir children)
      end
  end.

Definition prune_all (mdYaml : bool) (children : list (string * tree)) : list (string * tree) :=
  omap (λ '(name, t), pair name <$> prune_tree mdYaml name t) children.

Lemma tree_ind_children (P : tree → Prop) :
  (∀ regular, P (TFile regular)) →
  (∀ children, Forall (λ c : string * tree, P c.2) children → P (TDir children)) →
  ∀ t, P t.
Proof.
  intros Hf Hd. fix IH 1. intros [regular|children]; [apply Hf|]. apply Hd.
  induction children as [|[name t] children IHc]; constructor; [apply IH|apply IHc].
Qed.

Lemma prune_dir mdYaml name children :
  prune_tree mdYaml name (TDir children) =
    match prune_all mdYaml children with [] => None | cs => Some (TDir cs) end.
Proof.
  cbn [prune_tree]. match goal with |- match ?f children with _ => _ end = _ => assert (f children = prune_all mdYaml children) as -> end;
    [|done].
  induction children as [|[n t] children IH]; [done|]. cbn.
  by destruct (prune_tree mdYaml n t); rewrite IH.
Qed.

Lemma has_suffix_spec suffix s : has_suffix suffix s = true ↔ ∃ t, s = t +:+ suffix.
Proof.
  unfold has_suffix. rewrite bool_decide_eq_true. split.
  - intros [t Ht]. exists t. by apply trim_suffix_go_Some.
  - intros [t ->]. induction t as [|a t IH].
    + rewrite str_app_nil. destruct suffix; cbn; rewrite decide_True by done; by eexists.
    + rewrite str_app_cons. cbn. case_decide; [by eexists|]. destruct IH as [t' ->]. by eexists.
Qed.

Section walk_proofs.
Context `{GoRange}.
Context (baseDir : string) (dirBlacklist : list Regexp) (Compile : string → option Regexp).
Notation walk_file := (walk_file baseDir dirBlacklist Compile).
Notation walk := (walk baseDir dirBlacklist Compile).

Lemma apply_full_md relPathDir c o :
  ro_enableMDYAML (apply_full Compile relPathDir c o) = ro_enableMDYAML o.
Proof.
  unfold apply_full, applyOptionsToPath.
  assert (∀ l, ro_enableMDYAML (foldl (λ o '(pattern, config),
      if bool_decide (pattern = ".*") then applyConfigToPath relPathDir None config o
      else match Compile pattern with
           | Some re => applyConfigToPath relPathDir (Some re) config o
           | None => o
           end) o l) = ro_enableMDYAML o) as Hl.
  { intros l. apply (foldl_ind _ (λ o' _, ro_enableMDYAML o' = ro_enableMDYAML o)); [done|].
    intros o' _ [pattern config] IH. case_bool_decide; [done|]. by destruct (Compile pattern). }
  destruct (fc_NoParentOwners c); cbn; apply Hl.
Qed.

(** The children of a directory one by one. *)
Definition child_path (relPath name : string) : string :=
  if bool_decide (relPath = ".") then name else relPath +:+ "/" +:+ name.

Variables (md simple md' simple' : string → result SimpleConfig) (full full' : string → result FullConfig).

Fixpoint visit (relPath : string) (children : list (string * tree)) (o : RepoOwners)
    : RepoOwners * bool :=
  match children with
  | [] => (o, false)
  | (name, t) :: children =>
      let '(o, skip) := walk md simple full (child_path relPath name) name t o in
      if skip && negb (is_dir t) then (o, true) else visit relPath children o
  end.

Lemma walk_dir relPath name children o :
  walk md simple full relPath name (TDir children) o =
    if blacklisted dirBlacklist relPath then (o, true) else visit relPath children o.
Proof.
  cbn [RepoOwners.walk]. destruct (blacklisted _ _); [done|].
  revert o. induction children as [|[n t] children IH]; intros o; [done|]. cbn [visit].
  unfold child_path. destruct (walk _ _ _ _ _ _ _) as [o' skip]. by destruct (skip && _).
Qed.

Lemma walk_file_md rel name o :
  ro_enableMDYAML (walk_file md simple full rel name o).1 = ro_enableMDYAML o.
Proof.
  unfold RepoOwners.walk_file, applyOptionsToPath. repeat case_match; cbn; try done; apply apply_full_md.
Qed.

Lemma walk_md t rel name o :
  ro_enableMDYAML (walk md simple full rel name t o).1 = ro_enableMDYAML o.
Proof.
  revert rel name o. induction t as [regular|children IH] using tree_ind_children; intros rel name o.
  - cbn. case_match; [apply walk_file_md|done].
  - rewrite walk_dir. case_match; [done|]. revert o.
    induction IH as [|[n t] children Ht _ IHc]; intros o; [done|]. cbn [visit]. cbn in Ht.
    specialize (Ht (child_path rel n) n o). destruct (walk _ _ _ _ _ _ _) as [o' skip]. cbn in Ht.
    case_match; [done|]. by rewrite IHc.
Qed.

(** Ignored files and directories do not matter. *)
Lemma walk_file_ignored rel name o :
  relevant_file (ro_enableMDYAML o) name = false → walk_file md simple full rel name o = (o, false).
Proof.
  unfold relevant_file, RepoOwners.walk_file. intros [-> Hn%bool_decide_eq_false]%orb_false_iff.
  by rewrite bool_decide_eq_true_2.
Qed.

Definition pruned_ok (t : tree) : Prop := ∀ rel name o,
  match prune_tree (ro_enableMDYAML o) name t with
  | None => (walk md simple full rel name t o).1 = o ∧
            (is_dir t = false → (walk md simple full rel name t o).2 = false)
  | Some t' => walk md simple full rel name t o = walk md simple full rel name t' o ∧
               is_dir t = is_dir t'
  end.

Lemma visit_prune children rel o :
  Forall (λ c : string * tree, pruned_ok c.2) children →
  visit rel children o = visit rel (prune_all (ro_enableMDYAML o) children) o.
Proof.
  intros Hc. revert o. induction Hc as [|[n t] children Ht _ IH]; intros o; [done|].
  cbn [visit prune_all omap list_omap]. specialize (Ht (child_path rel n) n o). cbn [snd] in Ht.
  pose proof (walk_md t (child_path rel n) n o) as Hmd.
  destruct (prune_tree (ro_enableMDYAML o) n t) as [t'|]; cbn [fmap option_fmap option_map].
  - destruct Ht as [E Ed]. cbn [visit]. rewrite <-E, Ed.
    destruct (walk _ _ _ _ _ t o) as [o' skip]. cbn in Hmd. case_match; [done|].
    rewrite IH, Hmd. done.
  - destruct Ht as [E1 E2]. destruct (walk _ _ _ _ _ t o) as [o' skip]. cbn in *. subst o'.
    destruct (is_dir t); cbn; [rewrite andb_false_r; apply IH|]. rewrite E2 by done. apply IH.
Qed.

Lemma walk_prune t : pruned_ok t.
Proof.
  induction t as [regular|children IH] using tree_ind_children; intros rel name o.
  - cbn. destruct regular; cbn; [|done]. destruct (relevant_file _ name) eqn:Er; [done|].
    by rewrite walk_file_ignored.
  - rewrite prune_dir, walk_dir. rewrite visit_prune by done.
    destruct (prune_all _ children) as [|c cs]; [by case_match|]. by rewrite walk_dir.
Qed.

(** Only the decoded OWNERS and markdown files matter. *)
Definition relevant_path (mdYaml : bool) (path : string) : bool :=
  mdYaml && has_suffix ".md" path || has_suffix ownersFileName path.

Definition agree (mdYaml : bool) : Prop := ∀ p, relevant_path mdYaml p = true →
  md p = md' p ∧ simple p = simple' p ∧ full p = full' p.

Lemma suffix_trans a b c : has_suffix a b = true → has_suffix b c = true → has_suffix a c = true.
Proof.
  rewrite !has_suffix_spec. intros [t ->] [u ->]. exists (u +:+ t). by rewrite string_app_assoc.
Qed.

Lemma walk_file_ext rel name o :
  agree (ro_enableMDYAML o) → has_suffix name rel = true →
  walk_file md simple full rel name o = walk_file md' simple' full' rel name o.
Proof.
  intros Ha Hs. unfold RepoOwners.walk_file.
  destruct (ro_enableMDYAML o && has_suffix ".md" name) eqn:Em.
  - apply andb_true_iff in Em as [Emd Hmd]. destruct (Ha rel) as (-> & _ & _); [|done].
    unfold relevant_path. by rewrite Emd, (suffix_trans _ _ _ Hmd Hs).
  - case_bool_decide as Hn; [done|]. subst name.
    destruct (Ha rel) as (_ & -> & ->); [|done]. unfold relevant_path. by rewrite Hs, orb_true_r.
Qed.
End walk_proofs.

Section ext_proofs.
Context `{GoRange}.
Context (baseDir : string) (dirBlacklist : list Regexp) (Compile : string → option Regexp).
Variables (md simple md' simple' : string → result SimpleConfig) (full full' : string → result FullConfig).
Notation walk := (walk baseDir dirBlacklist Compile).
Notation visit := (visit baseDir dirBlacklist Compile).

Lemma child_suffix rel n : has_suffix n (child_path rel n) = true.
Proof.
  apply has_suffix_spec. unfold child_path. case_bool_decide; [by exists ""|].
  exists (rel +:+ "/"). by rewrite string_app_assoc.
Qed.

Lemma walk_ext t rel name o :
  agree md simple md' simple' full full' (ro_enableMDYAML o) →
  is_dir t = true ∨ has_suffix name rel = true →
  walk md simple full rel name t o = walk md' simple' full' rel name t o.
Proof.
  revert rel name o. induction t as [regular|children IH] using tree_ind_children; intros rel name o Ha Hs.
  - destruct Hs as [?|Hs]; [done|]. cbn. destruct regular; [|done]. by apply walk_file_ext.
  - rewrite !walk_dir. case_match; [done|]. clear Hs. revert o Ha.
    induction IH as [|[n t] children Ht _ IHc]; intros o Ha; [done|]. cbn [OwnersClient.visit].
    cbn in Ht. rewrite <-(Ht (child_path rel n) n o Ha) by (right; apply child_suffix).
    pose proof (walk_md baseDir dirBlacklist Compile md simple full t (child_path rel n) n o) as Hmd.
    destruct (walk md _ _ _ _ _ _) as [o' skip]. cbn in Hmd.
    case_match; [done|]. apply IHc. by rewrite Hmd.
Qed.

(** Trees that agree on what is relevant load alike. *)
Lemma loadOwnersFrom_ext mdYaml aliases cs cs' :
  prune_all mdYaml cs = prune_all mdYaml cs' → agree md simple md' simple' full full' mdYaml →
  loadOwnersFrom baseDir dirBlacklist Compile md simple full mdYaml aliases (TDir cs) =
  loadOwnersFrom baseDir dirBlacklist Compile md' simple' full' mdYaml aliases (TDir cs').
Proof.
  intros Hp Ha. unfold loadOwnersFrom. set (o := mkRepoOwners _ _ _ _ _ _ _).
  rewrite (walk_ext (TDir cs) _ _ o Ha) by by left. rewrite !walk_dir. case_match; [done|].
  assert (∀ l, Forall (λ c : string * tree, pruned_ok baseDir dirBlacklist Compile md' simple' full' c.2) l)
    as Hok by (intros; apply Forall_true; intros; apply walk_prune).
  rewrite (visit_prune _ _ _ _ _ _ cs), (visit_prune _ _ _ _ _ _ cs') by apply Hok.
  subst o. cbn [ro_enableMDYAML]. by rewrite Hp.
Qed.
End ext_proofs.

(** ** The cache answers with the owners of the current commit *)

Section client_proofs.
Context `{GoRange}.
Context (baseDir : string) (dirBlacklist : list Regexp) (Compile : string → option Regexp)
        (snapshot_at : string → snapshot).
Notation load_owners := (load_owners baseDir dirBlacklist Compile).
Notation LoadRepoOwners := (LoadRepoOwners baseDir dirBlacklist Compile snapshot_at).
Notation LoadRepoAliases := (LoadRepoAliases snapshot_at).

(** Loading a commit from scratch. *)
Definition fresh (sha : string) (mdYaml : bool) : RepoOwners :=
  load_owners (snapshot_at sha) mdYaml (loadAliasesFrom (snapshot_at sha)).

(** [git diff] lists every file that differs: the others decode alike, and if
    none is relevant, the relevant parts of the trees are the same. *)
Record unchanged_outside (changes : list string) (s s' : snapshot) : Prop := {
  uo_tree mdYaml : Forall (λ p, relevant_change mdYaml p = false) changes →
    prune_all mdYaml (sn_tree s) = prune_all mdYaml (sn_tree s');
  uo_files p : p ∉ changes → sn_md s p = sn_md s' p ∧ sn_simple s p = sn_simple s' p ∧
                             sn_full s p = sn_full s' p;
  uo_aliases : aliasesFileName ∉ changes → sn_aliases s = sn_aliases s' }.

Definition diff_honest (env : call_env) : Prop := ∀ sha old changes,
  ev_Diff env sha old = Ok changes → unchanged_outside changes (snapshot_at sha) (snapshot_at old).

Lemma unchanged_fresh changes sha old mdYaml :
  unchanged_outside changes (snapshot_at sha) (snapshot_at old) →
  existsb (relevant_change mdYaml) changes = false → fresh sha mdYaml = fresh old mdYaml.
Proof.
  intros [Ht Hf Hal] Hex. rewrite existsb_false in Hex.
  assert (loadAliasesFrom (snapshot_at sha) = loadAliasesFrom (snapshot_at old)) as E.
  { unfold loadAliasesFrom. rewrite Hal; [done|]. intros Hin. specialize (Hex _ Hin).
    unfold relevant_change in Hex. by apply orb_false_iff in Hex as [[_ ?]%orb_false_iff _]. }
  unfold fresh, OwnersClient.load_owners. rewrite E. apply loadOwnersFrom_ext.
  - apply Ht, Forall_forall. auto.
  - intros p Hp. apply Hf. intros Hin. specialize (Hex _ Hin). unfold relevant_change in Hex.
    unfold relevant_path in Hp. apply orb_false_iff in Hex as [[E1 _]%orb_false_iff E2].
    by rewrite E1, E2 in Hp.
Qed.

Lemma fresh_md sha mdYaml : ro_enableMDYAML (fresh sha mdYaml) = mdYaml.
Proof. unfold fresh, OwnersClient.load_owners, loadOwnersFrom. by rewrite walk_md. Qed.

(** What a cache entry holds was loaded at its SHA. *)
Definition cache_ok (c : cache) : Prop :=
  match c with
  | None => True
  | Some e => ce_aliases e = loadAliasesFrom (snapshot_at (ce_sha e)) ∧
              ∀ o, ce_owners e = Some o → o = fresh (ce_sha e) (ro_enableMDYAML o)
  end.

Definition restrict (env : call_env) (o : RepoOwners) : RepoOwners :=
  if ev_skipCollaborators env then o
  else match ev_ListCollaborators env with
       | Err _ => o
       | Ok collaborators => filterCollaborators collaborators o
       end.

Lemma current_owners_ok cloneRef env sha c :
  diff_honest env → (∀ head, ev_Checkout env = Ok head → head = sha) → cache_ok c →
  let '(c', r) := current_owners baseDir dirBlacklist Compile snapshot_at cloneRef env sha c in
  cache_ok c' ∧ ∀ o, r = Ok o → o = fresh sha (ev_mdYAMLEnabled env).
Proof.
  intros Hd Hh Hc. unfold current_owners. set (md := ev_mdYAMLEnabled env).
  assert (∀ err, cache_ok c ∧ ∀ o, (Err err : result RepoOwners) = Ok o → o = fresh sha md) as Herr by done.
  assert (∀ o, ce_owners (default no_entry c) = Some o → matchesMDYAML (default no_entry c) md = true →
            o = fresh (ce_sha (default no_entry c)) md) as Hcached.
  { intros o Ho Hm. destruct c as [e|]; cbn in *; [|done].
    unfold matchesMDYAML in Hm. rewrite Ho in Hm. apply bool_decide_eq_true in Hm.
    destruct Hc as [_ Hc]. rewrite <-Hm. by apply Hc. }
  set (load := match ev_Checkout env with Err e => _ | Ok _ => _ end).
  assert (let '(c', r) := load in cache_ok c' ∧ ∀ o, r = Ok o → o = fresh sha md) as Hload.
  { unfold load. destruct (ev_Checkout env) as [head|e]; [|apply Herr]. rewrite (Hh head) by done.
    assert ((if bool_decide (ce_aliases (default no_entry c) = None ∨ ce_sha (default no_entry c) ≠ sha)
             then loadAliasesFrom (snapshot_at sha) else ce_aliases (default no_entry c))
            = loadAliasesFrom (snapshot_at sha)) as ->.
    { case_bool_decide as E; [done|]. destruct c as [e|]; cbn in *; [|naive_solver].
      destruct (decide (ce_sha e = sha)) as [<-|]; [by destruct Hc|naive_solver]. }
    fold (fresh sha md). split; [split; [done|]|by intros o [= <-]]. intros o [= <-]. by rewrite fresh_md. }
  clearbody load.
  match goal with |- context [match wrap_args ?f ?a ?x with Err e => _ | Ok _ => ?body end] =>
    assert (let '(c', r) := match wrap_args f a x with Err e => (c, Err e) | Ok _ => body end in
            cache_ok c' ∧ ∀ o, r = Ok o → o = fresh sha md) as Hreload end.
  { destruct (wrap_args _ _ _) as [u|e]; [|apply Herr].
    destruct (is_reusable md env sha (default no_entry c)) as [[]|e] eqn:Er; [|exact Hload|apply Herr].
    unfold is_reusable in Er. destruct (fullyLoaded _ && matchesMDYAML _ _) eqn:Ef; [|done].
    apply andb_true_iff in Ef as [_ Hm].
    destruct (ce_owners (default no_entry c)) as [o|] eqn:Eo; [|exact Hload].
    split; [done|]. intros o' [= <-]. rewrite (Hcached o) by done.
    destruct (ev_Diff env sha _) as [changes|] eqn:Ed; [|done]. injection Er as Er.
    symmetry. eapply unchanged_fresh; [by eapply Hd|]. by apply negb_true_iff. }
  destruct (ce_owners (default no_entry c)) as [o|] eqn:Eo; [|exact Hreload].
  destruct (bool_decide (c ≠ None ∧ ce_sha (default no_entry c) = sha) && _) eqn:Eb; [|exact Hreload].
  apply andb_true_iff in Eb as [[_ Es]%bool_decide_eq_true Hm]. split; [done|].
  intros o' [= <-]. rewrite <-Es. by apply Hcached.
Qed.

(** Loading the aliases moves the entry to the current SHA but keeps its owners. *)
Definition aliases_safe (env : call_env) (c : cache) : Prop :=
  ∀ e o sha, c = Some e → ce_owners e = Some o → ev_GetRef env = Ok sha → sha = ce_sha e.

(** The branch has the commit that GitHub named when it is checked out. *)
Definition settled (env : call_env) : Prop := ∀ sha head,
  ev_GetRef env = Ok sha → ev_Checkout env = Ok head → head = sha.

Lemma LoadRepoOwners_ok cloneRef base env c :
  diff_honest env → settled env → cache_ok c →
  let '(c', r) := LoadRepoOwners cloneRef base env c in
  cache_ok c' ∧ ∀ o, r = Ok o → ∃ sha, ev_GetRef env = Ok sha ∧
                                o = restrict env (fresh sha (ev_mdYAMLEnabled env)).
Proof.
  intros Hd Hs Hc. unfold OwnersClient.LoadRepoOwners.
  destruct (wrap_args _ _ _) as [sha|e] eqn:Ew; [|done]. apply wrap_args_Ok_inv in Ew.
  pose proof (current_owners_ok cloneRef env sha c Hd (λ head, Hs sha head Ew) Hc) as Ho.
  destruct (current_owners _ _ _ _ _ _ _ _) as [c' [o|e]]; destruct Ho as [Hc' Ho]; [|done].
  split; [done|]. intros o' [= <-]. exists sha. split; [done|]. by rewrite <-(Ho o).
Qed.

Lemma LoadRepoAliases_ok cloneRef base env c :
  settled env → aliases_safe env c → cache_ok c → cache_ok (LoadRepoAliases cloneRef base env c).1.
Proof.
  intros Hse Hs Hc. unfold OwnersClient.LoadRepoAliases.
  destruct (wrap_args _ _ _) as [sha|e] eqn:Ew; [|done]. apply wrap_args_Ok_inv in Ew.
  case_bool_decide; [|done]. destruct (wrap_args _ _ _) as [u|e]; [|done].
  destruct (ev_Checkout env) as [head|e] eqn:Eh; [|done]. rewrite (Hse sha head) by done.
  split; [done|]. cbn. intros o Ho. destruct c as [e|]; [|done]. rewrite (Hs e o sha) by done. by apply Hc.
Qed.

(** *** Histories of calls for one key of the cache *)

Inductive call := CallOwners (env : call_env) | CallAliases (env : call_env).
Definition call_env_of (x : call) : call_env := match x with CallOwners env | CallAliases env => env end.

Section history.
Context (cloneRef base : string).

Definition after (calls : list call) : cache :=
  foldl (λ c x, match x with
                | CallOwners env => (LoadRepoOwners cloneRef base env c).1
                | CallAliases env => (LoadRepoAliases cloneRef base env c).1
                end) None calls.

(** No branch moved during a call, git's diffs were right, and the aliases alone were not
    loaded at another commit than the cached owners. *)
Definition undisturbed (calls : list call) : Prop := ∀ pre x post, calls = pre ++ x :: post →
  settled (call_env_of x) ∧ diff_honest (call_env_of x) ∧
  match x with CallOwners _ => True | CallAliases env => aliases_safe env (after pre) end.

Lemma undisturbed_snoc calls x : undisturbed (calls ++ [x]) →
  undisturbed calls ∧ settled (call_env_of x) ∧ diff_honest (call_env_of x) ∧
  match x with CallOwners _ => True | CallAliases env => aliases_safe env (after calls) end.
Proof.
  intros Hu. split; [|by apply (Hu calls x [])]. intros pre y post ->.
  apply (Hu pre y (post ++ [x])). by rewrite <- app_assoc.
Qed.

Lemma after_ok calls : undisturbed calls → cache_ok (after calls).
Proof.
  induction calls as [|x calls IH] using rev_ind; [done|]. intros (Hu & Hs & Hd & Ha)%undisturbed_snoc.
  unfold after. rewrite foldl_snoc. fold (after calls). specialize (IH Hu). destruct x as [env|env]; cbn in *.
  - pose proof (LoadRepoOwners_ok cloneRef base env (after calls) Hd Hs IH) as Ho.
    by destruct (LoadRepoOwners _ _ _ _) as [c' r]; destruct Ho.
  - by apply LoadRepoAliases_ok.
Qed.

(** The commits that calls checked out. *)
Definition heads (calls : list call) : list string :=
  omap (λ x, match ev_Checkout (call_env_of x) with Ok head => Some head | Err _ => None end) calls.

Lemma heads_app l l' : heads (l ++ l') = heads l ++ heads l'.
Proof. apply omap_app. Qed.

Lemma heads_one x : heads [x] = match ev_Checkout (call_env_of x) with Ok head => [head] | Err _ => [] end.
Proof. unfold heads. cbn. by destruct (ev_Checkout _). Qed.

(** Owners of a commit, with the aliases of a commit, of some commits. *)
Definition loaded_from (l : list string) (mdYaml : bool) (o : RepoOwners) : Prop :=
  ∃ h a, h ∈ l ∧ a ∈ l ∧ o = load_owners (snapshot_at h) mdYaml (loadAliasesFrom (snapshot_at a)).

Definition cache_from (l : list string) (c : cache) : Prop :=
  match c with
  | None => True
  | Some e => (∃ a, a ∈ l ∧ ce_aliases e = loadAliasesFrom (snapshot_at a)) ∧
              ∀ o, ce_owners e = Some o → loaded_from l (ro_enableMDYAML o) o
  end.

Lemma loaded_from_mono l l' md o : l ⊆ l' → loaded_from l md o → loaded_from l' md o.
Proof. intros Hl (h & a & Hh & Ha & ->). exists h, a. auto. Qed.
Lemma cache_from_mono l l' c : l ⊆ l' → cache_from l c → cache_from l' c.
Proof.
  intros Hl. destruct c as [e|]; [|done]. intros [(a & Ha & E) Ho]. split; [exists a; auto|].
  intros o Eo. eapply loaded_from_mono; [exact Hl|auto].
Qed.

Lemma current_owners_from env sha c l :
  cache_from l c →
  let '(c', r) := current_owners baseDir dirBlacklist Compile snapshot_at cloneRef env sha c in
  let l' := l ++ heads [CallOwners env] in
  cache_from l' c' ∧ ∀ o, r = Ok o → loaded_from l' (ev_mdYAMLEnabled env) o.
Proof.
  intros Hc. unfold current_owners. set (md := ev_mdYAMLEnabled env). cbn zeta. set (l' := l ++ _).
  assert (cache_from l' c) as Hc' by (by eapply cache_from_mono, Hc; unfold l'; set_solver).
  assert (∀ err, cache_from l' c ∧ ∀ o, (Err err : result RepoOwners) = Ok o → loaded_from l' md o) as Herr by done.
  assert (∀ o, ce_owners (default no_entry c) = Some o → matchesMDYAML (default no_entry c) md = true →
            loaded_from l' md o) as Hcached.
  { intros o Ho Hm. destruct c as [e|]; cbn in *; [|done].
    unfold matchesMDYAML in Hm. rewrite Ho in Hm. apply bool_decide_eq_true in Hm.
    rewrite <- Hm. by apply Hc'. }
  set (load := match ev_Checkout env with Err e => _ | Ok _ => _ end).
  assert (let '(c', r) := load in cache_from l' c' ∧ ∀ o, r = Ok o → loaded_from l' md o) as Hload.
  { unfold load, l' in *. rewrite heads_one in *. cbn [call_env_of] in *.
    destruct (ev_Checkout env) as [head|e]; [|apply Herr].
    set (aliases := if bool_decide _ then _ else _).
    assert (∃ a, a ∈ l ++ [head] ∧ aliases = loadAliasesFrom (snapshot_at a)) as (a & Ha & ->).
    { unfold aliases. case_bool_decide as E; [exists head; split; [set_solver|done]|].
      destruct c as [e|]; cbn in *; [|naive_solver]. by destruct Hc' as [(a & Ha & Ea) _]; exists a. }
    assert (loaded_from (l ++ [head]) md (load_owners (snapshot_at head) md (loadAliasesFrom (snapshot_at a))))
      as Hl by (exists head, a; split_and!; [set_solver|done|done]).
    split; [|by intros o [= <-]]. split; [by exists a|]. intros o [= <-].
    assert (ro_enableMDYAML (load_owners (snapshot_at head) md (loadAliasesFrom (snapshot_at a))) = md) as ->
      by (unfold OwnersClient.load_owners, loadOwnersFrom; by rewrite walk_md). done. }
  clearbody load.
  match goal with |- context [match wrap_args ?f ?a ?x with Err e => _ | Ok _ => ?body end] =>
    assert (let '(c', r) := match wrap_args f a x with Err e => (c, Err e) | Ok _ => body end in
            cache_from l' c' ∧ ∀ o, r = Ok o → loaded_from l' md o) as Hreload end.
  { destruct (wrap_args _ _ _) as [u|e]; [|apply Herr].
    destruct (is_reusable md env sha (default no_entry c)) as [[]|e] eqn:Er; [|exact Hload|apply Herr].
    unfold is_reusable in Er. destruct (fullyLoaded _ && matchesMDYAML _ _) eqn:Ef; [|done].
    apply andb_true_iff in Ef as [_ Hm].
    destruct (ce_owners (default no_entry c)) as [o|] eqn:Eo; [|exact Hload].
    split; [done|]. intros o' [= <-]. by apply Hcached. }
  destruct (ce_owners (default no_entry c)) as [o|] eqn:Eo; [|exact Hreload].
  destruct (bool_decide (c ≠ None ∧ ce_sha (default no_entry c) = sha) && _) eqn:Eb; [|exact Hreload].
  apply andb_true_iff in Eb as [_ Hm]. split; [done|]. intros o' [= <-]. by apply Hcached.
Qed.

Lemma LoadRepoOwners_from env c l :
  cache_from l c →
  let '(c', r) := LoadRepoOwners cloneRef base env c in
  let l' := l ++ heads [CallOwners env] in
  cache_from l' c' ∧ ∀ o, r = Ok o → ∃ o', loaded_from l' (ev_mdYAMLEnabled env) o' ∧ o = restrict env o'.
Proof.
  intros Hc. unfold OwnersClient.LoadRepoOwners. destruct (wrap_args _ _ _) as [sha|e].
  - pose proof (current_owners_from env sha c l Hc) as Ho.
    destruct (current_owners _ _ _ _ _ _ _ _) as [c' [o|e]]; destruct Ho as [Hc' Ho]; [|done].
    split; [done|]. intros o' [= <-]. exists o. split; [by apply Ho|done].
  - split; [|done]. eapply cache_from_mono, Hc. set_solver.
Qed.

Lemma after_from calls : cache_from (heads calls) (after calls).
Proof.
  induction calls as [|x calls IH] using rev_ind; [done|]. unfold after. rewrite foldl_snoc, heads_app.
  fold (after calls). destruct x as [env|env].
  - pose proof (LoadRepoOwners_from env _ _ IH) as Ho.
    by destruct (LoadRepoOwners _ _ _ _) as [c' r]; destruct Ho.
  - assert (cache_from (heads calls ++ heads [CallAliases env]) (after calls)) as Hc
      by (eapply cache_from_mono, IH; set_solver).
    unfold OwnersClient.LoadRepoAliases. rewrite heads_one in *. cbn [call_env_of] in *.
    destruct (wrap_args _ _ _) as [sha|e]; [|done]. case_bool_decide; [|done].
    destruct (wrap_args _ _ _) as [u|e]; [|done]. destruct (ev_Checkout env) as [head|e]; [|done].
    split; [exists head; split; [set_solver|done]|]. cbn. intros o Ho.
    destruct (after calls) as [e|]; [|done]. by apply Hc.
Qed.

(** C34. After any calls, owners that are answered were loaded from a commit that this call or
    an earlier one checked out, with the aliases of such a commit and the setting for markdown
    files of now, and restricted to the collaborators of now.  They are those of the current
    commit, aliases included, if in this call and the earlier ones the branch did not move
    between asking for its commit and checking it out, git's diffs were right, and the aliases
    alone were not loaded at another commit than owners in the cache: then a stale entry is
    only used when no OWNERS file, alias file or (if they count) markdown file changed. *)
Theorem LoadRepoOwners_fresh calls env o :
  (LoadRepoOwners cloneRef base env (after calls)).2 = Ok o →
  (∃ o', loaded_from (heads (calls ++ [CallOwners env])) (ev_mdYAMLEnabled env) o' ∧ o = restrict env o') ∧
  (undisturbed (calls ++ [CallOwners env]) →
     ∃ sha, ev_GetRef env = Ok sha ∧ o = restrict env (fresh sha (ev_mdYAMLEnabled env))).
Proof.
  intros Ho. rewrite heads_app. split.
  - pose proof (LoadRepoOwners_from env _ _ (after_from calls)) as Hf.
    destruct (LoadRepoOwners _ _ _ _) as [c' r]. by apply Hf.
  - intros (Hu & Hs & Hd & _)%undisturbed_snoc.
    pose proof (LoadRepoOwners_ok cloneRef base env _ Hd Hs (after_ok calls Hu)) as Hok.
    destruct (LoadRepoOwners _ _ _ _) as [c' r]. by apply Hok.
Qed.
End history.
End client_proofs.

(** ** The restriction on aliases is needed

    Two commits with an OWNERS file at the root, of ann and then of bob: after
    the aliases were loaded at the second commit, the owners are still ann's. *)

Definition owned_by (login : string) : snapshot :=
  let simple := mkSimpleConfig false (mkOwnersConfig [login] [] [] []) in
  mkSnapshot [("OWNERS", TFile true)] None (λ _, Err (errors_New "no header"))
    (λ p, if bool_decide (p = "OWNERS") then Ok simple else Err (errors_New "no file"))
    (λ _, Err (errors_New "not a full config")).
Definition two_commits (sha : string) : snapshot :=
  if bool_decide (sha = "sha1") then owned_by "ann" else owned_by "bob".
Definition env_at (sha : string) : call_env :=
  mkCallEnv (Ok sha) false true (Ok tt) (Ok sha) (λ _ _, Ok ["OWNERS"]) (Ok []).
Definition ask_owners (sha : string) (c : cache) : cache * result RepoOwners :=
  @LoadRepoOwners listing_order "/clone" [] (λ _, None) two_commits "o/r" "master" (env_at sha) c.
Definition ask_aliases (sha : string) (c : cache) : cache * result RepoAliases :=
  @LoadRepoAliases listing_order two_commits "o/r" "master" (env_at sha) c.
Definition root_approvers (r : result RepoOwners) : option (list (list string)) :=
  match r with
  | Ok o => Some ((λ e : option Regexp * gset string, elements e.2) <$> entries_of (ro_approvers o) "")
  | Err _ => None
  end.

Example stale_owners :
  let c1 := (ask_owners "sha1" None).1 in
  let c2 := (ask_aliases "sha2" c1).1 in
  root_approvers (ask_owners "sha2" c2).2 = Some [["ann"]] ∧
  root_approvers (ask_owners "sha2" c1).2 = Some [["bob"]].
Proof. vm_compute. done. Qed.

Lemma LoadRepoOwners_fresh_witness :
  let calls := [CallOwners (env_at "sha1")] in
  let c1 := @after listing_order "/clone" [] (λ _, None) two_commits "o/r" "master" calls in
  root_approvers (ask_owners "sha2" c1).2 = Some [["bob"]] ∧
  ∃ o sha, (ask_owners "sha2" c1).2 = Ok o ∧ Ok "sha2" = Ok sha ∧
    o = restrict (env_at "sha2") (@fresh listing_order "/clone" [] (λ _, None) two_commits sha false).
Proof.
  intros calls c1.
  assert (∀ sha, diff_honest two_commits (env_at sha)) as Hd.
  { intros sha new old changes [= <-]. split.
    - intros md Hf. apply Forall_cons in Hf as [Hf _]. destruct md; discriminate Hf.
    - intros p Hp. assert (p ≠ "OWNERS") as Hne by (intros ->; apply Hp; by left).
      unfold two_commits. repeat case_bool_decide; cbn; rewrite ?bool_decide_eq_false_2; done.
    - intros _. unfold two_commits. by repeat case_bool_decide. }
  assert (@undisturbed listing_order "/clone" [] (λ _, None) two_commits "o/r" "master"
            (calls ++ [CallOwners (env_at "sha2")])) as Hu.
  { intros pre x post E. assert (x ∈ calls ++ [CallOwners (env_at "sha2")]) as Hx by (rewrite E; set_solver).
    assert (∀ sha, settled (env_at sha)) as Hs by (intros sha s h [= <-] [= <-]; done).
    assert (x = CallOwners (env_at "sha1") ∨ x = CallOwners (env_at "sha2")) as [->| ->] by (unfold calls in Hx; set_solver);
      split_and!; [apply Hs|apply Hd|done|apply Hs|apply Hd|done]. }
  split; [vm_compute; reflexivity|].
  destruct (ask_owners "sha2" c1).2 as [o|e] eqn:E; [|vm_compute in E; discriminate E].
  destruct (@LoadRepoOwners_fresh listing_order "/clone" [] (λ _, None) two_commits "o/r" "master" calls
    (env_at "sha2") o E) as (_ & Hf).
  destruct (Hf Hu) as (sha & Hs & Ho). exists o, sha. split; [reflexivity|]. split; [exact Hs|exact Ho].
Defined.
