(* ===== verification/Approvers.v ===== *)
(** * Approval of a change (plugins/approve/approvers/owners.go)

    Which OWNERS files a change needs approval from, who has approved, whether
    that is enough, and whom to suggest.  The OWNERS files are used through the
    interface [OwnersRepo] (the Go interface [Repo]); [RepoOwners] implements it. *)

From S2P Require Import Prelude Api JobConfig Paths RepoOwners TideStatus.
#[local] Open Scope go_scope.

(** ** The interface to OWNERS files *)

Class OwnersRepo : Type := {
  repo_Approvers : string → gset string;
  repo_LeafApprovers : string → gset string;
  repo_FindApproverOwnersForFile : string → string;
  repo_IsNoParentOwners : string → bool }.

(** What approval relies on: leaf approvers are approvers, a directory inherits
    the approvers of its parent unless it says otherwise, and owners are found at
    paths of the repository. *)
Class OwnersRepoLaws (R : OwnersRepo) : Prop := {
  leaf_approvers p : clean_path p → repo_LeafApprovers p ⊆ repo_Approvers p;
  parent_approvers p : clean_path p → p ≠ "" → repo_IsNoParentOwners p = false →
    repo_Approvers (canonicalize (Dir p)) ⊆ repo_Approvers p;
  owners_clean p : clean_path p → clean_path (repo_FindApproverOwnersForFile p) }.

Record Approval := mkApproval {
  al_Login : string; al_How : string; al_Reference : string; al_NoIssue : bool }.

Section approvers.
Context `{GoRange} {R : OwnersRepo}.

(** ** The OWNERS files of a change *)

(** [removeSubdirs]' own [canonicalize] *)
Definition canon (p : string) : string := if bool_decide (p = ".") then "" else p.

(** The inner loop: look for a directory of the set above [dir]. *)
Fixpoint removeSubdir (fuel : nat) (dir path : string) (dirs : gset string)
    : option (gset string) :=
  match fuel with
  | 0 => None
  | S fuel =>
      if repo_IsNoParentOwners path || bool_decide (canon path = "") then Some dirs
      else
        let path := Dir path in
        if bool_decide (canon path ∈ dirs) then Some (dirs ∖ {[dir]})
        else removeSubdir fuel dir path dirs
  end.

Definition removeSubdirs (dirs : gset string) : gset string :=
  foldl (λ dirs dir, default dirs (removeSubdir (path_fuel dir) dir dir dirs)) dirs
    (set_list dirs).

Definition owners_of_files (filenames : list string) : gset string :=
  set_of (repo_FindApproverOwnersForFile <$> filenames).

Definition GetOwnersSet (filenames : list string) : gset string :=
  removeSubdirs (owners_of_files filenames).

Definition map_from (f : string → gset string) (s : gset string) : gmap string (gset string) :=
  foldl (λ m fn, <[fn := f fn]> m) ∅ (set_range s).

Definition GetApprovers (filenames : list string) : gmap string (gset string) :=
  map_from repo_Approvers (GetOwnersSet filenames).
Definition GetLeafApprovers (filenames : list string) : gmap string (gset string) :=
  map_from repo_LeafApprovers (GetOwnersSet filenames).

(** Sorted, with a person once per OWNERS file. *)
Definition GetAllPotentialApprovers (filenames : list string) : list string :=
  sort_strings (concat ((λ kv : string * gset string, set_range kv.2) <$>
                          map_range (GetLeafApprovers filenames))).

Definition GetReverseMap (approvers : gmap string (gset string)) : gmap string (gset string) :=
  foldl (λ m '(ownersFile, people),
    foldl (λ m approver, <[approver := default ∅ (m !! approver) ∪ {[ownersFile]}]> m) m
      (set_range people)) ∅ (map_range approvers).

Definition files_of (reverseMap : gmap string (gset string)) (approver : string) : gset string :=
  default ∅ (reverseMap !! approver).

(** The code keeps the number of all files of the best person so far, not of those
    that were unapproved. *)
Definition findMostCoveringApprover (allApprovers : list string)
    (reverseMap : gmap string (gset string)) (unapproved : gset string) : string :=
  (foldl (λ '(maxCovered, bestPerson) approver,
     let filesCanApprove := files_of reverseMap approver in
     if bool_decide (maxCovered < size (filesCanApprove ∩ unapproved))
     then (size filesCanApprove, approver) else (maxCovered, bestPerson)) (0, "") allApprovers).2.

(** ** Who has approved *)

(** [ManuallyApproved] is what that function answers. *)
Record Approvers_ := mkApprovers {
  ap_filenames : list string; ap_approvers : gmap string Approval; ap_assignees : gset string;
  AssociatedIssue : Z; RequireIssue : bool; ManuallyApproved : bool }.

Definition NewApprovers (filenames : list string) : Approvers_ :=
  mkApprovers filenames ∅ ∅ 0%Z false false.

Definition set_approvers (m : gmap string Approval) (ap : Approvers_) : Approvers_ :=
  mkApprovers (ap_filenames ap) m (ap_assignees ap) (AssociatedIssue ap) (RequireIssue ap)
    (ManuallyApproved ap).

Definition shouldNotOverrideApproval (login : string) (noIssue : bool) (ap : Approvers_) : bool :=
  match ap_approvers ap !! to_lower login with
  | Some approval => al_NoIssue approval && negb noIssue
  | None => false
  end.

Definition add_approval (how login reference : string) (noIssue : bool) (ap : Approvers_)
    : Approvers_ :=
  if shouldNotOverrideApproval login noIssue ap then ap
  else set_approvers
         (<[to_lower login := mkApproval login how reference noIssue]> (ap_approvers ap)) ap.

Definition AddLGTMer := add_approval "LGTM".
Definition AddApprover := add_approval "Approved".
Definition AddAuthorSelfApprover := add_approval "Author self-approved".

Definition RemoveApprover (login : string) (ap : Approvers_) : Approvers_ :=
  set_approvers (delete (to_lower login) (ap_approvers ap)) ap.

Definition AddAssignees (logins : list string) (ap : Approvers_) : Approvers_ :=
  mkApprovers (ap_filenames ap) (ap_approvers ap)
    (ap_assignees ap ∪ set_of (to_lower <$> logins)) (AssociatedIssue ap) (RequireIssue ap)
    (ManuallyApproved ap).

Definition GetCurrentApproversSet (ap : Approvers_) : gset string := dom (ap_approvers ap).
Definition GetCurrentApproversSetCased (ap : Approvers_) : gset string :=
  set_of ((λ kv : string * Approval, al_Login kv.2) <$> map_range (ap_approvers ap)).

Definition IntersectSetsCase (one other : gset string) : gset string :=
  let lower := set_of (to_lower <$> set_range other) in
  filter (λ item, to_lower item ∈ lower) one.

Definition GetFilesApprovers (ap : Approvers_) : gmap string (gset string) :=
  IntersectSetsCase (GetCurrentApproversSetCased ap) <$> GetApprovers (ap_filenames ap).

Definition NoIssueApprovers (ap : Approvers_) : gmap string Approval :=
  let reverseMap := GetReverseMap (GetApprovers (ap_filenames ap)) in
  filter (λ kv, al_NoIssue kv.2 = true ∧ files_of reverseMap kv.1 ≠ ∅) (ap_approvers ap).

Definition GetNoIssueApproversSet (ap : Approvers_) : gset string := dom (NoIssueApprovers ap).

Definition UnapprovedFiles (ap : Approvers_) : gset string :=
  dom (filter (λ kv, kv.2 = ∅) (GetFilesApprovers ap)).

Definition AreFilesApproved (ap : Approvers_) : bool :=
  bool_decide (size (UnapprovedFiles ap) = 0).

Definition RequirementsMet (ap : Approvers_) : bool :=
  AreFilesApproved ap &&
  (negb (RequireIssue ap) || bool_decide (AssociatedIssue ap ≠ 0%Z) ||
   bool_decide (NoIssueApprovers ap ≠ ∅)).

Definition IsApproved (ap : Approvers_) : bool :=
  let reqsMet := RequirementsMet ap in
  if negb reqsMet && ManuallyApproved ap then true else reqsMet.

Definition ListApprovals (ap : Approvers_) : list Approval :=
  omap (λ approver, ap_approvers ap !! approver) (set_list (GetCurrentApproversSet ap)).
Definition ListNoIssueApprovals (ap : Approvers_) : list Approval :=
  omap (λ approver, ap_approvers ap !! approver) (set_list (GetNoIssueApproversSet ap)).

(** ** Whom to suggest *)

Fixpoint suggest_loop (fuel : nat) (reverseMap : gmap string (gset string))
    (potentialApprovers : list string) (ap : Approvers_) : option Approvers_ :=
  match fuel with
  | 0 => None
  | S fuel =>
      if RequirementsMet ap then Some ap
      else
        let newApprover := findMostCoveringApprover potentialApprovers reverseMap
                             (UnapprovedFiles ap) in
        if bool_decide (newApprover = "") then Some ap
        else suggest_loop fuel reverseMap potentialApprovers (AddApprover newApprover "" false ap)
  end.

(** Every round approves another OWNERS file. *)
Definition suggest_fuel (filenames : list string) : nat := S (size (GetOwnersSet filenames)).

Definition GetSuggestedApprovers (filenames : list string) (reverseMap : gmap string (gset string))
    (potentialApprovers : list string) : option (gset string) :=
  GetCurrentApproversSet <$>
    suggest_loop (suggest_fuel filenames) reverseMap potentialApprovers (NewApprovers filenames).

Definition temporaryUnapprovedFiles (filenames : list string) (approvers : gset string)
    : gset string :=
  UnapprovedFiles (foldl (λ ap approver, AddApprover approver "" false ap)
                     (NewApprovers filenames) (set_range approvers)).

Definition KeepCoveringApprovers (filenames : list string) (reverseMap : gmap string (gset string))
    (knownApprovers : gset string) (potentialApprovers : list string) : option (gset string) :=
  let unapproved := temporaryUnapprovedFiles filenames knownApprovers in
  suggested ← GetSuggestedApprovers filenames reverseMap potentialApprovers;
  Some (filter (λ s, files_of reverseMap s ∩ unapproved ≠ ∅) suggested).

(** [rand.New(rand.NewSource(seed)).Perm] *)
Context (Perm : nat → list nat).

Definition GetShuffledApprovers (filenames : list string) : list string :=
  let approversList := GetAllPotentialApprovers filenames in
  omap (λ i, approversList !! i) (Perm (length approversList)).

Definition GetCCs (ap : Approvers_) : option (list string) :=
  let filenames := ap_filenames ap in
  let randomizedApprovers := GetShuffledApprovers filenames in
  let currentApprovers := GetCurrentApproversSet ap in
  let approversAndAssignees := currentApprovers ∪ ap_assignees ap in
  let leafReverseMap := GetReverseMap (GetLeafApprovers filenames) in
  suggested ← KeepCoveringApprovers filenames leafReverseMap approversAndAssignees
                randomizedApprovers;
  let approversAndSuggested := currentApprovers ∪ suggested in
  let everyone := approversAndSuggested ∪ ap_assignees ap in
  let fullReverseMap := GetReverseMap (GetApprovers filenames) in
  keepAssignees ← KeepCoveringApprovers filenames fullReverseMap approversAndSuggested
                    (set_list everyone);
  Some (set_list (suggested ∪ keepAssignees)).
End approvers.

(** ** The reduced OWNERS files stand for all *)

Section approval_proofs.
Context `{GoRange} {R : OwnersRepo}.

Lemma lookup_map_from f s fn : map_from f s !! fn = if decide (fn ∈ s) then Some (f fn) else None.
Proof.
  unfold map_from.
  assert (∀ l, (fn ∈ l → (foldl (λ m fn, <[fn := f fn]> m) ∅ l : gmap string (gset string)) !! fn
      = Some (f fn)) ∧
    (fn ∉ l → (foldl (λ m fn, <[fn := f fn]> m) ∅ l : gmap string (gset string)) !! fn = None))
    as Hl.
  { intros l. apply (foldl_ind _ (λ m seen, (fn ∈ seen → m !! fn = Some (f fn)) ∧
      (fn ∉ seen → m !! fn = None))).
    - split; [by intros ?%not_elem_of_nil|done].
    - intros m seen x [IH1 IH2]. destruct (decide (x = fn)) as [->|Hne].
      + rewrite lookup_insert_eq. split; [done|set_solver].
      + rewrite lookup_insert_ne by done. set_solver. }
  destruct (Hl (set_range s)) as [H1 H2]. rewrite elem_of_set_range in H1, H2.
  case_decide; auto.
Qed.

(** Someone who has approved is an approver of [fn], whatever the case. *)
Definition approves (ap : Approvers_) (fn : string) : Prop :=
  ∃ k al a, ap_approvers ap !! k = Some al ∧ a ∈ repo_Approvers fn ∧
            to_lower a = to_lower (al_Login al).

Lemma approves_set ap fn :
  approves ap fn ↔
  IntersectSetsCase (GetCurrentApproversSetCased ap) (repo_Approvers fn) ≠ ∅.
Proof.
  unfold IntersectSetsCase, GetCurrentApproversSetCased. split.
  - intros (k & al & a & Hk & Ha & El) E. apply (not_elem_of_empty (C := gset string) (al_Login al)).
    rewrite <-E. apply elem_of_filter. split.
    + apply elem_of_set_of, list_elem_of_fmap. exists a. by rewrite elem_of_set_range.
    + apply elem_of_set_of, list_elem_of_fmap. exists (k, al). by rewrite elem_of_map_range.
  - intros (x & [Hx Hin]%elem_of_filter)%set_choose_L.
    apply elem_of_set_of, list_elem_of_fmap in Hin as ([k al] & -> & Hk).
    apply elem_of_set_of, list_elem_of_fmap in Hx as (a & Ea & Ha).
    exists k, al, a. rewrite <-elem_of_map_range, <-elem_of_set_range. done.
Qed.

#[local] Instance approves_dec ap fn : Decision (approves ap fn).
Proof.
  destruct (decide (IntersectSetsCase (GetCurrentApproversSetCased ap) (repo_Approvers fn) = ∅))
    as [E|E]; [right|left]; rewrite approves_set; [by intros ?|done].
Qed.

Lemma elem_of_UnapprovedFiles ap fn :
  fn ∈ UnapprovedFiles ap ↔ fn ∈ GetOwnersSet (ap_filenames ap) ∧ ¬ approves ap fn.
Proof.
  unfold UnapprovedFiles, GetFilesApprovers, GetApprovers. rewrite elem_of_dom. unfold is_Some.
  setoid_rewrite map_lookup_filter_Some. setoid_rewrite lookup_fmap. rewrite lookup_map_from.
  rewrite approves_set. case_decide; cbn; split.
  - intros (x & [= <-] & E). split; [done|]. by intros ?.
  - intros [_ E]. eexists. split; [done|]. by apply dec_stable.
  - by intros (x & ? & _).
  - by intros [? _].
Qed.

Lemma AreFilesApproved_all ap :
  AreFilesApproved ap = true ↔ ∀ fn, fn ∈ GetOwnersSet (ap_filenames ap) → approves ap fn.
Proof.
  unfold AreFilesApproved. rewrite bool_decide_eq_true, size_empty_iff, leibniz_equiv_iff. split.
  - intros E fn Hin. apply dec_stable. intros Hn.
    apply (not_elem_of_empty (C := gset string) fn). rewrite <-E. by apply elem_of_UnapprovedFiles.
  - intros Hall. apply set_eq. intros fn. split; [|by intros ?%not_elem_of_empty].
    intros [Hin Hn]%elem_of_UnapprovedFiles. by destruct Hn; apply Hall.
Qed.

Context {L : OwnersRepoLaws R}.

Lemma canon_path segs : Forall good_seg segs → canon (path_of segs) = path_of segs.
Proof. intros Hg. unfold canon. by rewrite bool_decide_eq_false_2 by by apply path_of_not_dot. Qed.

Lemma canon_dot segs : Forall good_seg segs → canon (dot (path_of segs)) = path_of segs.
Proof.
  intros Hg. unfold dot. case_bool_decide as E; [by rewrite E|]. by apply canon_path.
Qed.

(** What a removed directory leaves: a directory of the set all of whose
    approvers are its own. *)
Lemma removeSubdir_ok ds es path fuel dirs :
  Forall good_seg (ds ++ es) → canon path = path_of ds → (ds ≠ [] → path = path_of ds) →
  repo_Approvers (path_of ds) ⊆ repo_Approvers (path_of (ds ++ es)) → length ds < fuel →
  ∃ r, removeSubdir fuel (path_of (ds ++ es)) path dirs = Some r ∧
    (r = dirs ∨ r = dirs ∖ {[path_of (ds ++ es)]} ∧
     ∃ k, k ∈ dirs ∧ k ≠ path_of (ds ++ es) ∧ repo_Approvers k ⊆ repo_Approvers (path_of (ds ++ es))).
Proof.
  revert es path fuel. induction ds as [|s ds IH] using rev_ind;
    intros es path [|fuel] Hg Hc Hp Hsub Hf; try (cbn in Hf; lia); cbn [removeSubdir].
  - rewrite Hc, bool_decide_eq_true_2, orb_true_r by done. eexists. split; [done|by left].
  - assert (Forall good_seg (ds ++ [s])) as Hds by by apply Forall_app in Hg as [? _].
    assert (Forall good_seg ds) as Hgd by by apply Forall_app in Hds as [? _].
    assert (path_of (ds ++ [s]) ≠ "") as Hne.
    { intros E. apply path_of_nil in E; [by destruct ds|done]. }
    rewrite Hc, (bool_decide_eq_false_2 (path_of (ds ++ [s]) = "")), orb_false_r by done.
    rewrite Hp by by destruct ds.
    destruct (repo_IsNoParentOwners _) eqn:Hno; [eexists; split; [done|by left]|].
    assert (repo_Approvers (path_of ds) ⊆ repo_Approvers (path_of ((ds ++ [s]) ++ es))) as Hsub'.
    { etrans; [|exact Hsub]. rewrite <-(canonicalize_dot ds), <-(Dir_path ds s) by done.
      apply parent_approvers; [by exists (ds ++ [s])|done|done]. }
    rewrite Dir_path, canon_dot by done. case_bool_decide as Hin.
    + eexists. split; [done|]. right. split; [done|]. exists (path_of ds). split_and!; [done| |done].
      intros E%path_of_inj; [|done..]. apply (f_equal length) in E. rewrite !length_app in E. cbn in E. lia.
    + rewrite <-app_assoc in *. rewrite length_app in Hf. cbn in Hf.
      apply IH; [done|by apply canon_dot| |done|lia].
      intros Hds'. unfold dot. rewrite bool_decide_eq_false_2; [done|].
      intros E. by apply path_of_nil in E.
Qed.

Lemma removeSubdirs_cover dirs :
  set_Forall clean_path dirs →
  removeSubdirs dirs ⊆ dirs ∧
  ∀ d, d ∈ dirs → ∃ k, k ∈ removeSubdirs dirs ∧ repo_Approvers k ⊆ repo_Approvers d.
Proof.
  intros Hclean. unfold removeSubdirs.
  assert (∀ d, d ∈ set_list dirs → d ∈ dirs) as Hl by (intros d; by rewrite elem_of_set_list).
  revert Hl. apply (foldl_ind _ (λ kept seen, (∀ d, d ∈ seen → d ∈ dirs) → kept ⊆ dirs ∧
    ∀ d, d ∈ dirs → ∃ k, k ∈ kept ∧ repo_Approvers k ⊆ repo_Approvers d)).
  { intros _. split; [done|]. intros d ?. by exists d. }
  intros kept seen dir IH Hseen. destruct IH as [Hsub Hcov]; [set_solver|].
  destruct (Hclean dir) as (segs & Hg & ->); [apply Hseen; set_solver|].
  pose proof (path_fuel_enough segs Hg) as Hf. rewrite <-(app_nil_r segs) in Hg.
  destruct (removeSubdir_ok segs [] (path_of segs) (path_fuel (path_of segs)) kept Hg)
    as (r & Hr & Hk); [|done| |done|]; rewrite ?app_nil_r in *; [by apply canon_path|done|].
  rewrite Hr. cbn. destruct Hk as [->|(-> & k & Hk & Hne & Hka)]; [done|].
  split; [set_solver|]. intros d Hd. destruct (Hcov d Hd) as (k' & Hk' & Hka').
  destruct (decide (k' = path_of segs)) as [->|]; [|exists k'; set_solver].
  exists k. split; [set_solver|]. by etrans.
Qed.

Lemma AreFilesApproved_ok ap :
  Forall clean_path (ap_filenames ap) →
  AreFilesApproved ap = true ↔
  Forall (λ file, approves ap (repo_FindApproverOwnersForFile file)) (ap_filenames ap).
Proof.
  intros Hclean. rewrite AreFilesApproved_all, Forall_forall. unfold GetOwnersSet.
  set (dirs := owners_of_files (ap_filenames ap)).
  assert (∀ d, d ∈ dirs ↔ ∃ file, d = repo_FindApproverOwnersForFile file ∧ file ∈ ap_filenames ap)
    as Hdirs by (intros d; unfold dirs, owners_of_files; by rewrite elem_of_set_of, list_elem_of_fmap).
  destruct (removeSubdirs_cover dirs) as [Hsub Hcov].
  { intros d (file & -> & Hin)%Hdirs. apply owners_clean. rewrite Forall_forall in Hclean. auto. }
  split.
  - intros Hall file Hin. destruct (Hcov (repo_FindApproverOwnersForFile file)) as (k & Hk & Hka).
    { apply Hdirs. eauto. }
    destruct (Hall k Hk) as (l & al & a & ? & ? & ?). exists l, al, a. set_solver.
  - intros Hall fn Hin. apply Hsub, Hdirs in Hin as (file & -> & Hin). by apply Hall.
Qed.

Lemma IsApproved_parts ap :
  IsApproved ap = true ↔
    ManuallyApproved ap = true ∨ AreFilesApproved ap = true ∧
    (RequireIssue ap = false ∨ AssociatedIssue ap ≠ 0%Z ∨ NoIssueApprovers ap ≠ ∅).
Proof.
  unfold IsApproved, RequirementsMet.
  assert (negb (RequireIssue ap) || bool_decide (AssociatedIssue ap ≠ 0%Z) ||
          bool_decide (NoIssueApprovers ap ≠ ∅) = true ↔
          (RequireIssue ap = false ∨ AssociatedIssue ap ≠ 0%Z ∨ NoIssueApprovers ap ≠ ∅)) as <-.
  { by rewrite !orb_true_iff, negb_true_iff, !bool_decide_eq_true, Logic.or_assoc. }
  destruct (AreFilesApproved ap), (negb (RequireIssue ap) || _ || _), (ManuallyApproved ap);
    cbn; naive_solver.
Qed.

(** ** Suggestions *)

(** A reverse map that sends people only to files they can approve. *)
Definition reverse_sound (reverseMap : gmap string (gset string)) : Prop :=
  ∀ a fn, fn ∈ files_of reverseMap a → a ∈ repo_Approvers fn.

Lemma elem_of_GetReverseMap m a fn :
  fn ∈ files_of (GetReverseMap m) a ↔ ∃ people, m !! fn = Some people ∧ a ∈ people.
Proof.
  clear L R.
  unfold GetReverseMap, files_of. setoid_rewrite <-(elem_of_map_range m).
  apply (foldl_ind _ (λ (rm : gmap string (gset string)) seen,
    fn ∈ default ∅ (rm !! a) ↔ ∃ people, (fn, people) ∈ seen ∧ a ∈ people)).
  { rewrite lookup_empty. cbn. set_solver. }
  intros rm seen [file people] IH. cbn beta iota.
  assert (fn ∈ default ∅ ((foldl (λ m approver, <[approver := default ∅ (m !! approver) ∪ {[file]}]> m)
            rm (set_range people) : gmap string (gset string)) !! a) ↔
          fn ∈ default ∅ (rm !! a) ∨ (fn = file ∧ a ∈ people)) as ->.
  { rewrite <-(elem_of_set_range people a).
    apply (foldl_ind _ (λ (rm' : gmap string (gset string)) seen,
      fn ∈ default ∅ (rm' !! a) ↔ fn ∈ default ∅ (rm !! a) ∨ (fn = file ∧ a ∈ seen))).
    { set_solver. }
    intros rm' seen' x IH'. destruct (decide (x = a)) as [->|Hne].
    - rewrite lookup_insert_eq. cbn. set_solver.
    - rewrite lookup_insert_ne by done. set_solver. }
  rewrite IH. setoid_rewrite elem_of_app. setoid_rewrite list_elem_of_singleton. naive_solver.
Qed.

Lemma reverse_sound_Approvers filenames : reverse_sound (GetReverseMap (GetApprovers filenames)).
Proof.
  intros a fn (people & Hl & Ha)%elem_of_GetReverseMap. unfold GetApprovers in Hl.
  rewrite lookup_map_from in Hl. case_decide; [|done]. by injection Hl as <-.
Qed.

Lemma owners_set_clean filenames fn :
  Forall clean_path filenames → fn ∈ GetOwnersSet filenames → clean_path fn.
Proof.
  intros Hclean Hin.
  assert (set_Forall clean_path (owners_of_files filenames)) as Hc.
  { intros d Hd. unfold owners_of_files in Hd.
    apply elem_of_set_of, list_elem_of_fmap in Hd as (file & -> & Hf).
    apply owners_clean. rewrite Forall_forall in Hclean. auto. }
  apply (removeSubdirs_cover _ Hc) in Hin. by apply Hc.
Qed.

Lemma reverse_sound_Leaf filenames :
  Forall clean_path filenames → reverse_sound (GetReverseMap (GetLeafApprovers filenames)).
Proof.
  intros Hclean a fn (people & Hl & Ha)%elem_of_GetReverseMap. unfold GetLeafApprovers in Hl.
  rewrite lookup_map_from in Hl. case_decide; [|done]. injection Hl as <-.
  eapply leaf_approvers; [|done]. by eapply owners_set_clean.
Qed.

(** The person found can approve something that is unapproved; if nobody is
    found, nobody can. *)
Lemma findMostCoveringApprover_spec people rm unapproved :
  "" ∉ people →
  let best := findMostCoveringApprover people rm unapproved in
  (best ∈ people ∧ files_of rm best ∩ unapproved ≠ ∅) ∨
  (best = "" ∧ ∀ p, p ∈ people → files_of rm p ∩ unapproved = ∅).
Proof.
  intros Hne. cbv zeta. unfold findMostCoveringApprover. set (f := λ '(maxCovered, bestPerson) approver, _).
  assert (((foldl f (0, "") people).2 ∈ people ∧
           files_of rm (foldl f (0, "") people).2 ∩ unapproved ≠ ∅) ∨
          ((foldl f (0, "") people).2 = "" ∧ (foldl f (0, "") people).1 = 0 ∧
           ∀ p, p ∈ people → files_of rm p ∩ unapproved = ∅)) as [?|(-> & _ & ?)]; [|by left|by right].
  apply (foldl_ind f (λ acc seen,
    (acc.2 ∈ seen ∧ files_of rm acc.2 ∩ unapproved ≠ ∅) ∨
    (acc.2 = "" ∧ acc.1 = 0 ∧ ∀ p, p ∈ seen → files_of rm p ∩ unapproved = ∅))).
  { right. split_and!; [done..|]. by intros p ?%not_elem_of_nil. }
  intros [maxCovered best] seen p IH. cbn [f fst snd] in *. case_bool_decide as Hm; cbn [fst snd].
  - left. split; [set_solver|]. intros E. rewrite E, size_empty in Hm. lia.
  - destruct IH as [[? ?]|(-> & -> & Hseen)]; [left; set_solver|right].
    split_and!; [done..|]. intros q [Hq| ->%list_elem_of_singleton]%elem_of_app; [by apply Hseen|].
    apply leibniz_equiv, size_empty_iff. lia.
Qed.

(** The keys are the logins in lower case. *)
Definition keys_ok (ap : Approvers_) : Prop :=
  map_Forall (λ k al, k = to_lower (al_Login al)) (ap_approvers ap).

Lemma AddApprover_ok a ap :
  keys_ok ap →
  keys_ok (AddApprover a "" false ap) ∧
  ap_filenames (AddApprover a "" false ap) = ap_filenames ap ∧
  RequireIssue (AddApprover a "" false ap) = RequireIssue ap ∧
  dom (ap_approvers (AddApprover a "" false ap)) = {[to_lower a]} ∪ dom (ap_approvers ap) ∧
  ∀ fn, approves (AddApprover a "" false ap) fn ↔
        approves ap fn ∨ ∃ b, b ∈ repo_Approvers fn ∧ to_lower b = to_lower a.
Proof.
  intros Hk. unfold AddApprover, add_approval.
  destruct (shouldNotOverrideApproval a false ap) eqn:Eo.
  - unfold shouldNotOverrideApproval in Eo. destruct (_ !! _) as [al|] eqn:El; [|done].
    split_and!; [done..| |].
    + assert (to_lower a ∈ dom (ap_approvers ap)) by (by eapply elem_of_dom_2). set_solver.
    + intros fn. split; [by left|]. intros [?|(b & Hb & Eb)]; [done|]. exists (to_lower a), al, b.
      split_and!; [done..|]. by rewrite <-(Hk _ _ El).
  - split_and!; [|done..| |].
    + apply map_Forall_insert_2; done.
    + cbn. by rewrite dom_insert_L.
    + intros fn. unfold approves. cbn. split.
      * intros (k & al & b & Hl & Hb & Eb). apply lookup_insert_Some in Hl as [[<- <-]|[_ Hl]].
        -- right. by exists b.
        -- left. by exists k, al, b.
      * intros [(k & al & b & Hl & Hb & Eb)|(b & Hb & Eb)].
        -- destruct (decide (k = to_lower a)) as [->|Hne].
           ++ eexists _, _, b. split; [apply lookup_insert_eq|]. split; [done|]. cbn.
              rewrite Eb. symmetry. by apply (Hk _ _ Hl).
           ++ exists k, al, b. by rewrite lookup_insert_ne.
        -- eexists _, _, b. by split; [apply lookup_insert_eq|].
Qed.

Lemma suggest_loop_ok rm people ap fuel :
  reverse_sound rm → "" ∉ people → keys_ok ap → RequireIssue ap = false →
  dom (ap_approvers ap) ⊆ set_of (to_lower <$> people) →
  size (UnapprovedFiles ap) < fuel →
  ∃ ap', suggest_loop fuel rm people ap = Some ap' ∧
    dom (ap_approvers ap') ⊆ set_of (to_lower <$> people) ∧
    ap_filenames ap' = ap_filenames ap ∧
    ∀ fn p, fn ∈ UnapprovedFiles ap' → p ∈ people → fn ∉ files_of rm p.
Proof.
  intros Hrm Hne. revert ap. induction fuel as [|fuel IH]; intros ap Hk Hr Hd Hf; [lia|].
  cbn [suggest_loop]. unfold RequirementsMet. rewrite Hr. cbn [negb orb]. rewrite andb_true_r.
  destruct (AreFilesApproved ap) eqn:Ea.
  { exists ap. split_and!; [done..|]. intros fn p Hfn. rewrite AreFilesApproved_all in Ea.
    apply elem_of_UnapprovedFiles in Hfn as [? Hn]. by destruct Hn; apply Ea. }
  destruct (findMostCoveringApprover_spec people rm (UnapprovedFiles ap) Hne)
    as [[Hin Hcov]|[-> Hnone]].
  2: { rewrite bool_decide_eq_true_2 by done. exists ap. split_and!; [done..|].
       intros fn p Hfn Hp. specialize (Hnone p Hp). set_solver. }
  set (best := findMostCoveringApprover _ _ _) in *. rewrite bool_decide_eq_false_2 by by intros ->.
  destruct (AddApprover_ok best ap Hk) as (Hk' & Hfs & Hr' & Hdom & Happ).
  destruct (IH (AddApprover best "" false ap)) as (ap' & E & H1 & H2 & H3); [done|by rewrite Hr'|..].
  - rewrite Hdom. assert (to_lower best ∈ set_of (to_lower <$> people)); [|set_solver].
    apply elem_of_set_of, list_elem_of_fmap. by exists best.
  - apply (Nat.lt_le_trans _ (size (UnapprovedFiles ap))); [|lia].
    apply set_choose_L in Hcov as (fn & [Hfn Hun]%elem_of_intersection).
    apply subset_size. split.
    + intros x [Hx Hxn]%elem_of_UnapprovedFiles. apply elem_of_UnapprovedFiles.
      rewrite Hfs in Hx. split; [done|]. intros Hxa. apply Hxn, Happ. by left.
    + intros Hsub. specialize (Hsub fn Hun). apply elem_of_UnapprovedFiles in Hsub as [_ Hn].
      apply Hn, Happ. right. exists best. split; [by apply Hrm|done].
  - exists ap'. rewrite E, H2, Hfs. done.
Qed.

Lemma GetSuggestedApprovers_ok filenames rm people :
  reverse_sound rm → "" ∉ people →
  ∃ ap, GetSuggestedApprovers filenames rm people = Some (dom (ap_approvers ap)) ∧
    ap_filenames ap = filenames ∧
    dom (ap_approvers ap) ⊆ set_of (to_lower <$> people) ∧
    ∀ fn p, fn ∈ UnapprovedFiles ap → p ∈ people → fn ∉ files_of rm p.
Proof.
  intros Hrm Hne. unfold GetSuggestedApprovers.
  destruct (suggest_loop_ok rm people (NewApprovers filenames) (suggest_fuel filenames))
    as (ap & -> & H1 & H2 & H3); [done..|apply map_Forall_empty|done| | |].
  - cbn. set_solver.
  - unfold suggest_fuel. assert (UnapprovedFiles (NewApprovers filenames) ⊆ GetOwnersSet filenames) as Hs.
    { intros fn [? _]%elem_of_UnapprovedFiles. done. }
    apply subseteq_size in Hs. lia.
  - exists ap. done.
Qed.

End approval_proofs.

(** ** RepoOwners implements the interface *)

Definition repo_of (o : RepoOwners) : OwnersRepo := {|
  repo_Approvers p := default ∅ (Approvers o p);
  repo_LeafApprovers p := default ∅ (LeafApprovers o p);
  repo_FindApproverOwnersForFile p := default "" (FindApproverOwnersForFile o p);
  repo_IsNoParentOwners p := IsNoParentOwners o p |}.

(** No OWNERS file has filters of its own. *)
Definition no_filters (o : RepoOwners) : Prop :=
  map_Forall (λ _ entries, Forall (λ e : option Regexp * gset string, e.1 = None) entries)
    (ro_approvers o).

Lemma repo_of_laws o : no_filters o → OwnersRepoLaws (repo_of o).
Proof.
  intros Hnf. split; cbn [repo_of repo_Approvers repo_LeafApprovers repo_FindApproverOwnersForFile
    repo_IsNoParentOwners].
  - intros p (segs & Hg & ->).
    destruct (entriesForFile_ok o (ro_approvers o) segs Hg) as (all & leaf & Ha & Hl & Hx & Hs).
    unfold Approvers, LeafApprovers. rewrite Ha, Hl. by eapply leaf_in_all.
  - intros p (segs & Hg & ->) Hne Hno. destruct segs as [|s ds _] using rev_ind; [done|].
    pose proof Hg as [Hds _]%Forall_app. rewrite Dir_path, canonicalize_dot by done.
    destruct (entriesForFile_ok o (ro_approvers o) ds Hds) as (all & _ & Ha & _ & Hx & _).
    destruct (entriesForFile_ok o (ro_approvers o) (ds ++ [s]) Hg) as (all' & _ & Ha' & _ & Hx' & _).
    unfold Approvers. rewrite Ha, Ha'. cbn [default from_option id]. intros x.
    rewrite Hx, Hx'. intros (d1 & e1 & n & -> & Hi & (re & Hin & _) & Hn).
    exists d1, (e1 ++ [s]), n. rewrite <-app_assoc in *. split_and!; [done| | |done].
    + apply inherits_snoc. done.
    + exists re. split; [done|]. unfold entries_of in Hin.
      destruct (ro_approvers o !! path_of d1) as [entries|] eqn:E; cbn in Hin;
        [|by apply not_elem_of_nil in Hin].
      specialize (Hnf _ _ E). rewrite Forall_forall in Hnf. specialize (Hnf _ Hin). cbn in Hnf. by subst re.
  - intros p (segs & Hg & ->). unfold FindApproverOwnersForFile.
    destruct (findOwnersForFile_ok (ro_approvers o) segs Hg) as (ds & es & -> & -> & _).
    exists ds. by apply Forall_app in Hg as [? _].
Qed.

(** ** When a change is approved *)

(** Someone among those who approved waived the issue, and is an approver of an OWNERS
    file whose approval the change needs (by the name in lower case). *)
Definition issue_waived `{GoRange} (o : RepoOwners) (ap : Approvers_) : Prop :=
  ∃ login al fn, ap_approvers ap !! login = Some al ∧ al_NoIssue al = true ∧
    fn ∈ GetOwnersSet (R := repo_of o) (ap_filenames ap) ∧ login ∈ repo_Approvers (OwnersRepo := repo_of o) fn.

Lemma NoIssueApprovers_waived `{GoRange} o ap :
  NoIssueApprovers (R := repo_of o) ap ≠ ∅ ↔ issue_waived o ap.
Proof.
  unfold NoIssueApprovers, issue_waived.
  assert (∀ k, files_of (GetReverseMap (GetApprovers (R := repo_of o) (ap_filenames ap))) k ≠ ∅ ↔
    ∃ fn, fn ∈ GetOwnersSet (R := repo_of o) (ap_filenames ap) ∧ k ∈ repo_Approvers (OwnersRepo := repo_of o) fn) as Hf.
  { intros k. split.
    - intros (fn & (people & Hl & Hk)%elem_of_GetReverseMap)%set_choose_L. unfold GetApprovers in Hl.
      rewrite lookup_map_from in Hl. case_decide as Hd; [|done]. injection Hl as <-. by exists fn.
    - intros (fn & Hd & Hk) E. apply (not_elem_of_empty (C := gset string) fn). rewrite <- E.
      apply elem_of_GetReverseMap. exists (repo_Approvers (OwnersRepo := repo_of o) fn). split; [|done].
      unfold GetApprovers. by rewrite lookup_map_from, decide_True. }
  split.
  - intros (k & al & [Hk [Hno Hfiles]]%map_lookup_filter_Some)%map_choose. cbn in *.
    apply Hf in Hfiles as (fn & ? & ?). by exists k, al, fn.
  - intros (k & al & fn & Hk & Hno & Hd & Ha) E. assert ((∅ : gmap string Approval) !! k = Some al) as He; [rewrite <- E|by rewrite lookup_empty in He].
    apply map_lookup_filter_Some. split; [done|]. split; [done|]. apply Hf. by exists fn.
Qed.

(** C33. Where OWNERS files have no filters of their own, a change of clean paths is
    approved exactly when it was approved by hand, or when each changed file has an
    approver of its own closest OWNERS file (with the inherited ones) among those who
    approved, in whatever case, and no issue is required, one is mentioned, or one of
    the approvers waived it.  The code asks only the topmost OWNERS files of the
    change: without filters that does not change the answer (with filters it does). *)
Theorem IsApproved_spec `{GoRange} o ap :
  no_filters o → Forall clean_path (ap_filenames ap) →
  IsApproved (R := repo_of o) ap = true ↔
    ManuallyApproved ap = true ∨
    Forall (λ file, ∃ login al approver,
      ap_approvers ap !! login = Some al ∧ to_lower approver = to_lower (al_Login al) ∧
      ∃ dir people, FindApproverOwnersForFile o file = Some dir ∧ Approvers o dir = Some people ∧
        approver ∈ people) (ap_filenames ap) ∧
    (RequireIssue ap = false ∨ AssociatedIssue ap ≠ 0%Z ∨ issue_waived o ap).
Proof.
  intros Hnf Hclean. pose proof (repo_of_laws o Hnf) as Hlaws.
  rewrite IsApproved_parts, (AreFilesApproved_ok (R := repo_of o)) by done.
  rewrite NoIssueApprovers_waived. do 2 f_equiv. rewrite !Forall_forall in *.
  assert (∀ file, file ∈ ap_filenames ap →
    approves (R := repo_of o) ap (repo_FindApproverOwnersForFile (OwnersRepo := repo_of o) file) ↔
    ∃ login al approver, ap_approvers ap !! login = Some al ∧ to_lower approver = to_lower (al_Login al) ∧
      ∃ dir people, FindApproverOwnersForFile o file = Some dir ∧ Approvers o dir = Some people ∧
        approver ∈ people) as Hone; [|split; intros Hall f Hf; apply Hone; auto].
  intros file Hfile. destruct (Hclean file Hfile) as (segs & Hg & ->). unfold approves, FindApproverOwnersForFile.
  cbn [repo_of repo_Approvers repo_FindApproverOwnersForFile]. unfold FindApproverOwnersForFile, Approvers.
  destruct (findOwnersForFile_ok (ro_approvers o) segs Hg) as (ds & es & -> & -> & _).
  cbn [default from_option id].
  apply Forall_app in Hg as [Hg _].
  destruct (entriesForFile_ok o (ro_approvers o) ds Hg) as (all & _ & Ha & _).
  rewrite Ha. cbn [default from_option id]. split.
  - intros (k & al & a & ? & ? & ?). exists k, al, a. split_and!; [done..|]. by exists (path_of ds), all.
  - intros (k & al & a & ? & ? & dir & people & [= <-] & E & ?). exists k, al, a. rewrite Ha in E. by injection E as <-.
Qed.

(** ** Where the code falls short of its names *)

(** The person said to cover most need not: after the first, the others are
    compared with all files the best one can approve. *)
Example findMostCoveringApprover_not_most :
  let rm : gmap string (gset string) :=
    {["ann" := {["a"; "x"; "y"; "z"]}; "bob" := {["a"; "b"; "c"]}]} in
  findMostCoveringApprover ["ann"; "bob"] rm {["a"; "b"; "c"]} = "ann" ∧
  size (files_of rm "ann" ∩ {["a"; "b"; "c"]}) = 1 ∧
  size (files_of rm "bob" ∩ {["a"; "b"; "c"]}) = 3.
Proof. vm_compute. done. Qed.

(** With filters a parent's approvers need not be the directory's: here the filter
    [^[^/]*$] of directory a is ann's and a/b/c is bob's.  A change to both is
    approved by ann alone, although only bob is an approver for the file below
    a/b/c, because the code drops a/b/c from the OWNERS files to be approved. *)
Definition filtered_owners : RepoOwners :=
  mkRepoOwners None
    {["a" := [(Some (λ s, negb (contains_char "/" s)), {["ann"]})];
      "a/b/c" := [(None, {["bob"]})]]} ∅ ∅ ∅ ∅ false.

Example filters_lose_approval :
  let _ := listing_order in
  let ap := AddApprover "ann" "" false (NewApprovers ["a/x.go"; "a/b/c/y.go"]) in
  @AreFilesApproved listing_order (repo_of filtered_owners) ap = true ∧
  FindApproverOwnersForFile filtered_owners "a/b/c/y.go" = Some "a/b/c" ∧
  Approvers filtered_owners "a/b/c" = Some {["bob"]}.
Proof. vm_compute. done. Qed.

(** ** Witnesses: a repository with a root OWNERS file and one below *)

Definition sample_owners : RepoOwners :=
  mkRepoOwners None {["" := [(None, {["root"]})]; "pkg" := [(None, {["ann"; "bob"]})]]}
    ∅ ∅ ∅ ∅ false.
Definition sample_files : list string := ["pkg/util/x.go"; "main.go"].

Lemma sample_clean : Forall clean_path sample_files.
Proof.
  apply Forall_cons. split; [exists ["pkg"; "util"; "x.go"]|].
  - split; [|done]. apply (bool_decide_eq_true_1 _). vm_compute. done.
  - apply Forall_cons. split; [exists ["main.go"]|done]. split; [|done].
    apply (bool_decide_eq_true_1 _). vm_compute. done.
Qed.

Lemma sample_no_filters : no_filters sample_owners.
Proof.
  intros p entries Hl. cbn in Hl.
  apply lookup_insert_Some in Hl as [[<- <-]|[_ Hl]]; [by repeat constructor|].
  apply lookup_singleton_Some in Hl as [<- <-]. by repeat constructor.
Qed.

Lemma IsApproved_spec_witness :
  Forall clean_path sample_files ∧ no_filters sample_owners ∧
  let ap := AddApprover "Root" "" false (NewApprovers sample_files) in
  Forall (λ file, ∃ login al approver,
      ap_approvers ap !! login = Some al ∧ to_lower approver = to_lower (al_Login al) ∧
      ∃ dir people, FindApproverOwnersForFile sample_owners file = Some dir ∧
        Approvers sample_owners dir = Some people ∧ approver ∈ people) sample_files.
Proof.
  split; [exact sample_clean|]. split; [exact sample_no_filters|]. cbv zeta.
  pose proof (proj1 (@IsApproved_spec listing_order sample_owners
    (AddApprover "Root" "" false (NewApprovers sample_files)) sample_no_filters sample_clean)) as Hs.
  destruct Hs as [Hm|[Hs _]]; [vm_compute; reflexivity|discriminate Hm|exact Hs].
Defined.

(** Ann's approval does not cover the root; root's covers both. *)
Example IsApproved_run :
  @IsApproved listing_order (repo_of sample_owners)
    (AddApprover "Ann" "" false (NewApprovers sample_files)) = false ∧
  @IsApproved listing_order (repo_of sample_owners)
    (AddApprover "Root" "" false (NewApprovers sample_files)) = true.
Proof. vm_compute. done. Qed.

