(* ===== verification/CommentPruner.v ===== *)
(** * Deleting the bot's comments (commentpruner/commentpruner.go)

    One client serves all handlers of an event: the comments are fetched once and
    then only filtered. *)

From S2P Require Import Prelude Api JobConfig PjUtil GoText Handler GitHub.
#[local] Open Scope go_scope.

(** [ec_comments] is [None] until the comments were fetched. *)
Record EventClient := mkEventClient {
  ec_org : string; ec_repo : string; ec_number : Z; ec_comments : option (list IssueComment) }.

Definition NewEventClient (org repo : string) (number : Z) : EventClient :=
  mkEventClient org repo number None.

Section pruner.
Context (gh : GitHub).

(** The comments of the bot; none if the bot's name is not known. *)
Definition fetch_comments (c : EventClient) : H Call (list IssueComment) :=
  match ec_comments c with
  | Some comments => hret comments
  | None =>
      let! botName := or_zero "" (ask (on_name gh) BotName) in
      let! comments := or_zero []
        (ask (on_comments gh) (ListIssueComments (ec_org c) (ec_repo c) (ec_number c))) in
      hret (if bool_decide (botName = "") then []
            else filter (λ comment, ic_User comment = botName) comments)
  end.

(** Deletes what matches; what could not be deleted remains. *)
Fixpoint prune_comments (org repo : string) (shouldPrune : IssueComment → bool)
    (comments : list IssueComment) : H Call (list IssueComment) :=
  match comments with
  | [] => hret []
  | comment :: comments =>
      if shouldPrune comment then
        let! deleted := attempt (ask (on_done gh) (DeleteComment org repo (ic_ID comment))) in
        let! remaining := prune_comments org repo shouldPrune comments in
        hret (match deleted with Ok _ => remaining | Err _ => comment :: remaining end)
      else
        let! remaining := prune_comments org repo shouldPrune comments in
        hret (comment :: remaining)
  end.

Definition PruneComments (shouldPrune : IssueComment → bool) (c : EventClient)
    : H Call EventClient :=
  let! comments := fetch_comments c in
  let! remaining := prune_comments (ec_org c) (ec_repo c) shouldPrune comments in
  hret (mkEventClient (ec_org c) (ec_repo c) (ec_number c) (Some remaining)).
End pruner.

(** Pruning changes nothing but comments. *)
Section pruner_proofs.
Context (gh : GitHub) (just : list Call → Call → Prop).

Lemma prune_ok P org repo shouldPrune comments :
  stable P → triple (may_act just) P (prune_comments gh org repo shouldPrune comments) (λ _, P).
Proof.
  intros HP. induction comments as [|comment comments IH]; cbn [prune_comments]; [by apply triple_ret|].
  apply triple_if; intros _.
  - eapply (triple_bind _ _ _ _ (λ _, P)).
    { apply triple_attempt; [exact HP|]. by eapply triple_conseq; [apply (triple_quiet P)|..]. }
    intros deleted. eapply triple_bind; [exact IH|]. intros remaining. by apply triple_ret.
  - eapply triple_bind; [exact IH|]. intros remaining. by apply triple_ret.
Qed.

Lemma PruneComments_ok P shouldPrune c :
  stable P → triple (may_act just) P (PruneComments gh shouldPrune c) (λ _, P).
Proof.
  intros HP. unfold PruneComments. eapply (triple_bind _ _ _ _ (λ _, P)).
  - unfold fetch_comments. destruct (ec_comments c); [by apply triple_ret|].
    eapply triple_bind; [by apply triple_quiet_zero|]. intros botName. cbn beta.
    eapply triple_bind; [by apply triple_quiet_zero|]. intros comments. by apply triple_ret.
  - intros comments. eapply triple_bind; [by apply prune_ok|]. intros ?. by apply triple_ret.
Qed.
End pruner_proofs.

(** [prune_comments] deletes exactly what matches, once: what remains is what did not match
    and what could not be deleted, and the calls are deletions in order. *)
Lemma prune_spec gh org repo shouldPrune comments tr :
  let '(tr', out) := prune_comments gh org repo shouldPrune comments tr in
  tr' = tr ++ ((λ c, DeleteComment org repo (ic_ID c)) <$> filter (λ c, shouldPrune c = true) comments) ∧
  ∃ remaining, out = Some (Ok remaining) ∧ sublist remaining comments ∧
    ∀ c, c ∈ comments → shouldPrune c = false → c ∈ remaining.
Proof.
  revert tr. induction comments as [|comment comments IH]; intros tr; cbn [prune_comments].
  { cbn. rewrite app_nil_r. split; [done|]. exists []. split_and!; [done..|].
    by intros c ?%not_elem_of_nil. }
  rewrite filter_cons. destruct (shouldPrune comment) eqn:Es.
  - rewrite decide_True by done. unfold hbind at 1. rewrite bind_app. unfold attempt, outcome, ask.
    specialize (IH (tr ++ [DeleteComment org repo (ic_ID comment)])).
    destruct (on_done gh _) as [?|?]; cbn -[prune_comments]; (unfold hbind; rewrite bind_app;
      destruct (prune_comments _ _ _ _ _ _) as [t o]; destruct IH as (-> & remaining & -> & Hsub & Hk);
      cbn; rewrite <- app_assoc; split; [done|]; eexists; split; [done|]).
    + split; [by apply sublist_cons|]. intros c [->|Hc]%elem_of_cons Hf; [congruence|auto].
    + split; [by apply sublist_skip|]. intros c [->|Hc]%elem_of_cons Hf; [left|right; auto].
  - rewrite decide_False by congruence. unfold hbind. rewrite bind_app.
    specialize (IH tr). destruct (prune_comments _ _ _ _ _ _) as [t o].
    destruct IH as (-> & remaining & -> & Hsub & Hk). cbn. split; [done|].
    eexists. split; [done|]. split; [by apply sublist_skip|].
    intros c [->|Hc]%elem_of_cons Hf; [left|right; auto].
Qed.
