(* ===== verification/Lgtm.v ===== *)
(** * The lgtm plugin (plugins/lgtm/lgtm.go)

    The label lgtm means that someone other than the author, who may review, looked
    at the change as it is; Tide waits for it.  A comment or a review adds or
    removes the label, and new commits remove it. *)

From S2P Require Import Prelude Api JobConfig PjUtil GoText Handler GitHub CommentPruner RepoOwners Trigger Samples.
#[local] Open Scope go_scope.

(** ** Texts and regular expressions *)

Definition removeLGTMLabelNoti : string :=
  "New changes are detected. LGTM label has been removed.".

(** [addLGTMLabelNotification], around the hash. *)
Definition noti_added : string := "LGTM label has been added".
Definition noti_tree : string := "  <details>Git tree hash: ".
Definition noti_end : string := "</details>".
Definition addLGTMLabelNotification (treeHash : string) : string :=
  noti_added +:+ "." +:+ noti_tree +:+ treeHash +:+ noti_end.

(** [(?mi)^/lgtm(?: no-issue)?\s*$] *)
Definition lgtm_line (line : string) : bool :=
  match trim_prefix_fold "/lgtm" line with
  | Some rest =>
      all_space rest ||
      match trim_prefix_fold " no-issue" rest with Some rest => all_space rest | None => false end
  | None => false
  end.
Definition lgtmRe (body : string) : bool := existsb lgtm_line (lines body).

(** [(?mi)^/lgtm cancel\s*$] *)
Definition lgtm_cancel_line (line : string) : bool :=
  match trim_prefix_fold "/lgtm cancel" line with Some rest => all_space rest | None => false end.
Definition lgtmCancelRe (body : string) : bool := existsb lgtm_cancel_line (lines body).

(** The group of [addLGTMLabelNotificationRe] if it matches here: the dot after
    "added" is any rune, the group reaches to the last "</details>" of the line. *)
Definition tree_hash_at (s : string) : option string :=
  rest ← trim_prefix_go noti_added s;
  rest ← skip_rune rest;
  rest ← trim_prefix_go noti_tree rest;
  fst <$> cut_last noti_end (first_line rest).

(** [addLGTMLabelNotificationRe.FindStringSubmatch], at the first place it matches. *)
Fixpoint tree_hash_of (s : string) : option string :=
  match tree_hash_at s with
  | Some hash => Some hash
  | None => match s with EmptyString => None | String _ s => tree_hash_of s end
  end.

(** ** Configuration (plugins/config.go) *)

Record Lgtm := mkLgtm {
  lg_Repos : list string; lg_ReviewActsAsLgtm : bool; lg_StoreTreeHash : bool;
  lg_StickyLgtmTeam : string }.

(** The entry of the repository, or else of the organization. *)
Definition LgtmFor (lgtms : list Lgtm) (org repo : string) : Lgtm :=
  let fullName := org +:+ "/" +:+ repo in
  match head (filter (λ l, fullName ∈ lg_Repos l) lgtms) with
  | Some lgtm => lgtm
  | None => default (mkLgtm [] false false "") (head (filter (λ l, org ∈ lg_Repos l) lgtms))
  end.

(** ** Events *)

(** [reviewCtx] *)
Record reviewCtx := mkReviewCtx {
  rc_author : string; rc_issueAuthor : string; rc_body : string; rc_htmlURL : string;
  rc_org : string; rc_repo : string; rc_assignees : list string; rc_number : Z }.

Section lgtm.
Context (gh : GitHub).
(** [repoowners.Client]: the owners of a repository at a branch. *)
Context (on_owners : list Call → result RepoOwners).
(** [Configuration.Lgtm] and [Configuration.Owners.SkipCollaborators]. *)
Context (lgtms : list Lgtm) (SkipCollaborators : list string).

(** The first team of the name with the author as a member; failures are passed
    over. *)
Fixpoint sticky_teams (author team : string) (teams : list (string * Z)) : H Call bool :=
  match teams with
  | [] => hret false
  | (name, id) :: teams =>
      if bool_decide (name = team) then
        let! members := or_zero [] (ask (on_members gh) (ListTeamMembers id RoleAll)) in
        if bool_decide (author ∈ members) then hret true else sticky_teams author team teams
      else sticky_teams author team teams
  end.

Definition stickyLgtm (lgtm : Lgtm) (author org : string) : H Call bool :=
  if bool_decide (lg_StickyLgtmTeam lgtm = "") then hret false
  else
    let! teams := or_zero [] (ask (on_teams gh) (ListTeams org)) in
    sticky_teams author (lg_StickyLgtmTeam lgtm) teams.

Definition skipCollaborators (org repo : string) : bool :=
  bool_decide (Exists (λ elem, elem = org ∨ elem = org +:+ "/" +:+ repo) SkipCollaborators).

Definition loadRepoOwners (org repo : string) (number : Z) : H Call RepoOwners :=
  let! pr := ask (on_pr gh) (GetPullRequest org repo number) in
  ask on_owners (LoadRepoOwners org repo (gpr_BaseRef pr)).

(** The error of the call is not part of the error. *)
Definition getChangedFiles (org repo : string) (number : Z) : H Call (list string) :=
  outcome (λ r, match r with
                | Ok files => Ok files
                | Err _ => Err (Errorf "cannot get PR changes for %s/%s#%d"
                                  [AStr org; AStr repo; AInt number])
                end) (ask (on_files gh) (GetPullRequestChanges org repo number)).

(** The look-ups end: see [RepoOwners.lookups_spec]. *)
Definition owners_of_file (ro : RepoOwners) (filename : string) : gset string :=
  default ∅ (Approvers ro filename) ∪ default ∅ (Reviewers ro filename).
Definition loadReviewers (ro : RepoOwners) (filenames : list string) : gset string :=
  foldl (λ reviewers filename, reviewers ∪ owners_of_file ro filename) ∅ filenames.

(** ** Comments and reviews *)

Definition reply (rc : reviewCtx) (resp : string) : H Call unit :=
  ask (on_done gh) (CreateComment (rc_org rc) (rc_repo rc) (rc_number rc)
    (FormatResponseRaw (rc_body rc) (rc_htmlURL rc) (rc_author rc) resp)).

Definition own_lgtm : string := "you cannot LGTM your own PR.".
Definition no_collaborator : string := "changing LGTM is restricted to collaborators".
Definition no_reviewer : string :=
  "adding LGTM is restricted to approvers and reviewers in OWNERS files.".

(** The comment that stores the tree, if wanted; its failures are only logged. *)
Definition store_tree (rc : reviewCtx) (opts : Lgtm) : H Call unit :=
  let org := rc_org rc in
  let repo := rc_repo rc in
  if lg_StoreTreeHash opts then
    let! sha := or_zero "" (let! pr := ask (on_pr gh) (GetPullRequest org repo (rc_number rc)) in
                            hret (gpr_HeadSHA pr)) in
    let! treeHash := or_zero "" (ask (on_name gh) (GetSingleCommit org repo sha)) in
    or_zero tt (ask (on_done gh)
      (CreateComment org repo (rc_number rc) (addLGTMLabelNotification treeHash)))
  else hret tt.

(** The label is only changed if it has to. *)
Definition set_label (wantLGTM : bool) (rc : reviewCtx) (cp : EventClient) : H Call unit :=
  let org := rc_org rc in
  let repo := rc_repo rc in
  let number := rc_number rc in
  let! labels := or_zero [] (ask (on_labels gh) (GetIssueLabels org repo number)) in
  let hasLGTM := HasLabel LGTM labels in
  let opts := LgtmFor lgtms org repo in
  if hasLGTM && negb wantLGTM then
    let! _ := ask (on_done gh) (RemoveLabel org repo number LGTM) in
    if lg_StoreTreeHash opts then
      let! _ := PruneComments gh (λ comment, bool_decide (is_Some (tree_hash_of (ic_Body comment)))) cp in
      hret tt
    else hret tt
  else if negb hasLGTM && wantLGTM then
    let! _ := ask (on_done gh) (AddLabel org repo number LGTM) in
    let! sticky := stickyLgtm opts (rc_issueAuthor rc) org in
    if sticky : bool then hret tt
    else
      let! _ := store_tree rc opts in
      let! _ := PruneComments gh (λ comment, contains (ic_Body comment) removeLGTMLabelNoti) cp in
      hret tt
  else hret tt.

Definition handle (wantLGTM : bool) (rc : reviewCtx) (cp : EventClient) : H Call unit :=
  let author := rc_author rc in
  let org := rc_org rc in
  let repo := rc_repo rc in
  let number := rc_number rc in
  let isAuthor := bool_decide (author = rc_issueAuthor rc) in
  if isAuthor && wantLGTM then reply rc own_lgtm else
  let isAssignee := bool_decide (author ∈ rc_assignees rc) in
  let skip := skipCollaborators org repo in
  let! isCollaborator := ask (on_bool gh) (IsCollaborator org repo author) in
  if negb isAuthor && negb skip && negb isCollaborator then reply rc no_collaborator else
  if negb isAuthor && negb isAssignee && negb skip then
    let! _ := or_zero tt (ask (on_done gh) (AssignIssue org repo number [author])) in
    set_label wantLGTM rc cp
  else if negb isAuthor && skip then
    let! ro := loadRepoOwners org repo number in
    let! filenames := getChangedFiles org repo number in
    if bool_decide (NormLogin author ∈ loadReviewers ro filenames) then set_label wantLGTM rc cp
    else reply rc no_reviewer
  else set_label wantLGTM rc cp.

(** What the text wants, if anything. *)
Definition wants (body : string) : option bool :=
  if lgtmRe body then Some true else if lgtmCancelRe body then Some false else None.

Definition comment_ctx (e : GenericCommentEvent) : reviewCtx :=
  mkReviewCtx (gc_User e) (gc_IssueAuthor e) (gc_Body e) (gc_HTMLURL e) (gc_Org e) (gc_Repo e)
    (gc_Assignees e) (gc_Number e).

Definition handleGenericComment (cp : EventClient) (e : GenericCommentEvent) : H Call unit :=
  if negb (gc_IsPR e) || bool_decide (gc_IssueState e ≠ "open")
     || bool_decide (gc_Action e ≠ GenericCommentActionCreated) then hret tt
  else match wants (gc_Body e) with
       | Some wantLGTM => handle wantLGTM (comment_ctx e) cp
       | None => hret tt
       end.

Definition review_ctx (e : ReviewEvent) : reviewCtx :=
  let pr := rv_PullRequest e in
  mkReviewCtx (rw_User (rv_Review e)) (gpr_UserLogin pr) (rw_Body (rv_Review e))
    (rw_HTMLURL (rv_Review e)) (rv_Org e) (rv_Repo e) (gpr_Assignees pr) (gpr_Number pr).

(** What the state of a review wants, whatever its case. *)
Definition review_wants (state : string) : option bool :=
  let reviewState := to_upper state in
  if bool_decide (reviewState = ReviewStateApproved) then Some true
  else if bool_decide (reviewState = ReviewStateChangesRequested) then Some false
  else None.

(** A review that has a command in its text is handled as a comment. *)
Definition handlePullRequestReview (cp : EventClient) (e : ReviewEvent) : H Call unit :=
  let body := rw_Body (rv_Review e) in
  if bool_decide (rv_Action e ≠ ReviewActionSubmitted) then hret tt
  else if lgtmRe body || lgtmCancelRe body then hret tt
  else match review_wants (rw_State (rv_Review e)) with
       | Some wantLGTM => handle wantLGTM (review_ctx e) cp
       | None => hret tt
       end.

Definition handlePullRequestReviewEvent (cp : EventClient) (e : ReviewEvent) : H Call unit :=
  if lg_ReviewActsAsLgtm (LgtmFor lgtms (rv_Org e) (rv_Repo e)) then handlePullRequestReview cp e
  else hret tt.

(** ** New commits *)

(** The hash of the latest notification the bot wrote and nobody edited. *)
Definition lastLgtmTreeHash (botname : string) (comments : list IssueComment) : string :=
  default "" (head (omap (λ comment,
    if bool_decide (ic_User comment = botname ∧ ic_UpdatedAt comment = ic_CreatedAt comment)
    then tree_hash_of (ic_Body comment) else None) (rev comments))).

(** Does the head have the tree that was looked at? *)
Definition same_tree (org repo : string) (pr : GitHubPullRequest) : H Call bool :=
  let! botname := ask (on_name gh) BotName in
  let! comments := or_zero [] (ask (on_comments gh) (ListIssueComments org repo (gpr_Number pr))) in
  let hash := lastLgtmTreeHash botname comments in
  if bool_decide (hash = "") then hret false
  else
    let! treeHash := or_zero "" (ask (on_name gh) (GetSingleCommit org repo (gpr_HeadSHA pr))) in
    hret (bool_decide (treeHash = hash)).

Definition handlePullRequest (pe : PullRequestEvent) : H Call unit :=
  let pr := pe_PullRequest pe in
  let org := gpr_BaseRepoOwner pr in
  let repo := gpr_BaseRepoName pr in
  let number := gpr_Number pr in
  if gpr_Merged pr then hret tt
  else if bool_decide (pe_Action pe ≠ PullRequestActionSynchronize) then hret tt
  else
    let opts := LgtmFor lgtms org repo in
    let! sticky := stickyLgtm opts (gpr_UserLogin pr) org in
    if sticky : bool then hret tt else
    let! labels := or_zero [] (ask (on_labels gh) (GetIssueLabels org repo number)) in
    if negb (HasLabel LGTM labels) then hret tt else
    let! same := if lg_StoreTreeHash opts then same_tree org repo pr else hret false in
    if same : bool then hret tt else
    let! _ := with_err "failed removing lgtm label: %v"
      (ask (on_done gh) (RemoveLabel org repo number LGTM)) in
    ask (on_done gh) (CreateComment org repo number removeLGTMLabelNoti).
End lgtm.

(** ** Who changes the label *)

Section lgtm_proofs.
Context (gh : GitHub) (on_owners : list Call → result RepoOwners).
Context (lgtms : list Lgtm) (SkipCollaborators : list string).

Section request.
Variables (want : bool) (rc : reviewCtx).
Let org := rc_org rc.
Let repo := rc_repo rc.
Let number := rc_number rc.
Let author := rc_author rc.
Let skip := skipCollaborators SkipCollaborators org repo.
Let is_own := author = rc_issueAuthor rc.

Definition collaborates (b : bool) : list Call → Prop :=
  answered (on_bool gh) (IsCollaborator org repo author) (λ x, x = b).

(** What GitHub and the OWNERS files said about reviewing the changed files. *)
Definition reviews (ok : Prop → Prop) (tr : list Call) : Prop :=
  ∃ pr ro files,
    answered (on_pr gh) (GetPullRequest org repo number) (λ x, x = pr) tr ∧
    answered on_owners (LoadRepoOwners org repo (gpr_BaseRef pr)) (λ x, x = ro) tr ∧
    answered (on_files gh) (GetPullRequestChanges org repo number) (λ x, x = files) tr ∧
    ok (NormLogin author ∈ loadReviewers ro files).

(** Someone else who collaborates, or, where that does not count, who is an approver
    or reviewer of a changed file. *)
Definition may_review (tr : list Call) : Prop :=
  ¬ is_own ∧ ((skip = false ∧ collaborates true tr) ∨ (skip = true ∧ reviews id tr)).

Definition lgtm_action (tr : list Call) (e : Call) : Prop :=
  match e with
  | AddLabel o r n l => want = true ∧ (o, r, n, l) = (org, repo, number, LGTM) ∧ may_review tr
  | RemoveLabel o r n l =>
      want = false ∧ (o, r, n, l) = (org, repo, number, LGTM) ∧ (is_own ∨ may_review tr)
  | _ => action e = false
  end.

(** The reply, and why. *)
Definition refused (tr : list Call) : Prop :=
  ∃ resp, CreateComment org repo number
            (FormatResponseRaw (rc_body rc) (rc_htmlURL rc) author resp) ∈ tr ∧
    ((is_own ∧ want = true ∧ resp = own_lgtm) ∨
     (¬ is_own ∧ skip = false ∧ collaborates false tr ∧ resp = no_collaborator) ∨
     (¬ is_own ∧ skip = true ∧ reviews not tr ∧ resp = no_reviewer)).

Definition label_was (b : bool) : list Call → Prop :=
  answered (on_labels gh) (GetIssueLabels org repo number) (λ l, HasLabel LGTM l = b).

(** The label is as wanted, or the request was refused; a failure to read the labels
    is taken for their absence. *)
Definition lgtm_done (tr : list Call) : Prop :=
  refused tr ∨
  if want then AddLabel org repo number LGTM ∈ tr ∨ label_was true tr
  else RemoveLabel org repo number LGTM ∈ tr ∨ label_was false tr ∨
       failed (on_labels gh) (GetIssueLabels org repo number) tr.

Notation allowed := (may_act lgtm_action).

Lemma stable_may_review : stable may_review.
Proof. unfold may_review, collaborates, reviews. auto 20 with prow. Qed.
Lemma stable_refused : stable refused.
Proof. unfold refused, collaborates, reviews. auto 20 with prow. Qed.
Lemma stable_done : stable lgtm_done.
Proof.
  unfold lgtm_done. destruct want; unfold label_was; auto using stable_refused with prow.
Qed.

Lemma reply_ok resp P :
  (∀ tr, P tr → lgtm_done (tr ++ [CreateComment org repo number
                (FormatResponseRaw (rc_body rc) (rc_htmlURL rc) author resp)])) →
  triple allowed P (reply gh rc resp) (λ _, lgtm_done).
Proof. intros Hd. apply triple_ask; [done|]. intros tr u Htr _. by apply Hd. Qed.

Lemma sticky_ok P opts login o :
  stable P → triple allowed P (stickyLgtm gh opts login o) (λ _, P).
Proof.
  intros HP. unfold stickyLgtm. apply triple_if; intros _; [by apply triple_ret|].
  eapply triple_bind; [by apply triple_quiet_zero|]. intros teams. cbn beta.
  induction teams as [|[name id] teams IH]; cbn [sticky_teams]; [by apply triple_ret|].
  apply triple_if; intros _; [|exact IH].
  eapply triple_bind; [by apply triple_quiet_zero|]. intros members. cbn beta.
  apply triple_if; intros _; [by apply triple_ret|exact IH].
Qed.

Lemma store_tree_ok P opts : stable P → triple allowed P (store_tree gh rc opts) (λ _, P).
Proof.
  intros HP. unfold store_tree. apply triple_if; intros _; [|by apply triple_ret].
  eapply (triple_bind _ _ _ _ (λ _, P)).
  { apply triple_or_zero; [exact HP|]. eapply triple_bind; [by apply (triple_quiet P)|].
    intros pr. by apply triple_ret. }
  intros sha. eapply triple_bind; [by apply triple_quiet_zero|]. intros hash. cbn beta.
  by apply triple_quiet_zero.
Qed.

(** The label is changed with the permission that was found. *)
Lemma set_label_ok cp P :
  stable P →
  (∀ tr, P tr → (want = true → may_review tr) ∧ (want = false → is_own ∨ may_review tr)) →
  triple allowed P (set_label gh lgtms want rc cp) (λ _, lgtm_done).
Proof.
  intros HP Hmay. unfold set_label. fold org repo number.
  eapply triple_bind; [by apply triple_question_zero|]. intros labels. cbn beta.
  set (read := λ tr, P tr ∧ (answered (on_labels gh) (GetIssueLabels org repo number) (λ x, x = labels) tr ∨
                  labels = [] ∧ failed (on_labels gh) (GetIssueLabels org repo number) tr)).
  assert (stable read) as Hread by (unfold read; auto 10 with prow).
  apply triple_if; intros E1; [|apply triple_if; intros E2].
  - apply andb_true_iff in E1 as [Hl Hw]. apply negb_true_iff in Hw.
    assert (∀ tr, read tr → lgtm_done (tr ++ [RemoveLabel org repo number LGTM])) as Hd.
    { intros tr _. right. rewrite Hw. left. apply elem_of_app. right. left. }
    eapply (triple_bind _ _ _ _ (λ _, lgtm_done)).
    { apply triple_ask; [|intros ? ? ? _; by apply Hd]. intros tr [Htr _] _.
      split_and!; [done|done|by apply Hmay]. }
    intros _. apply triple_if; intros _; [|by apply triple_ret].
    eapply triple_bind; [by apply PruneComments_ok, stable_done|]. intros ?. by apply triple_ret.
  - apply andb_true_iff in E2 as [Hl Hw].
    assert (∀ tr, read tr → lgtm_done (tr ++ [AddLabel org repo number LGTM])) as Hd.
    { intros tr _. right. rewrite Hw. left. apply elem_of_app. right. left. }
    eapply (triple_bind _ _ _ _ (λ _, lgtm_done)).
    { apply triple_ask; [|intros ? ? ? _; by apply Hd]. intros tr [Htr _] _.
      split_and!; [done|done|by apply Hmay]. }
    intros _. eapply triple_bind; [by apply sticky_ok, stable_done|]. intros sticky. cbn beta.
    apply triple_if; intros _; [by apply triple_ret|].
    eapply triple_bind; [by apply store_tree_ok, stable_done|]. intros ?. cbn beta.
    eapply triple_bind; [by apply PruneComments_ok, stable_done|]. intros ?. by apply triple_ret.
  - apply triple_ret. intros tr [_ Ha]. right.
    destruct want; [rewrite andb_true_r in E2|rewrite andb_true_r in E1].
    + right. apply negb_false_iff in E2. destruct Ha as [Ha|[-> _]]; [|done].
      eapply answered_weaken; [exact Ha|]. by intros ? ->.
    + right. destruct Ha as [Ha|[_ Hf]]; [left|by right].
      eapply answered_weaken; [exact Ha|]. by intros ? ->.
Qed.

Lemma handle_ok cp :
  triple allowed (λ _, True) (handle gh on_owners lgtms SkipCollaborators want rc cp)
    (λ _, lgtm_done).
Proof.
  unfold handle. fold org repo number author.
  destruct (bool_decide_reflect (author = rc_issueAuthor rc)) as [Ho|Ho].
  - destruct want eqn:Hw; cbn [andb negb].
    { apply reply_ok. intros tr _. left. exists own_lgtm. split; [apply elem_of_app; right; left|]. by left. }
    rewrite <- Hw. eapply triple_bind; [by apply (triple_quiet (λ _, True))|].
    intros c. cbn beta. apply (set_label_ok cp (λ _, True)); [done|]. intros tr _.
    split; [congruence|by left].
  - cbn [andb negb]. fold skip.
    eapply triple_bind; [by apply (triple_question (λ _, True))|]. intros c. cbn beta.
    destruct skip eqn:Hs; cbn [andb negb].
    + rewrite andb_false_r. rename Hs into Hskip.
      eapply (triple_bind _ _ _ _ (λ ro tr, ∃ pr,
        answered (on_pr gh) (GetPullRequest org repo number) (λ x, x = pr) tr ∧
        answered on_owners (LoadRepoOwners org repo (gpr_BaseRef pr)) (λ x, x = ro) tr)).
      { unfold loadRepoOwners. eapply triple_bind.
        { eapply triple_weaken; [by apply (triple_question (λ _, True))|done]. }
        intros pr. cbn beta. eapply triple_conseq.
        - apply (triple_question (answered (on_pr gh) (GetPullRequest org repo number) (λ x, x = pr)));
            [apply stable_answered|done].
        - by intros tr [_ ?].
        - intros ro tr [? ?]. by exists pr. }
      intros ro. eapply (triple_bind _ _ _ _ (λ files tr, ∃ pr,
        answered (on_pr gh) (GetPullRequest org repo number) (λ x, x = pr) tr ∧
        answered on_owners (LoadRepoOwners org repo (gpr_BaseRef pr)) (λ x, x = ro) tr ∧
        answered (on_files gh) (GetPullRequestChanges org repo number) (λ x, x = files) tr)).
      { unfold getChangedFiles. eapply triple_outcome_map.
        - apply (triple_question (λ tr, ∃ pr,
            answered (on_pr gh) (GetPullRequest org repo number) (λ x, x = pr) tr ∧
            answered on_owners (LoadRepoOwners org repo (gpr_BaseRef pr)) (λ x, x = ro) tr));
            [auto 10 with prow|done].
        - intros files files' tr [= <-] [(pr & ? & ?) ?]. by exists pr.
        - done. }
      intros files. apply triple_if; intros Hin.
      * apply bool_decide_eq_true in Hin. apply set_label_ok; [auto 10 with prow|].
        intros tr (pr & H1 & H2 & H3).
        assert (may_review tr) by (split; [done|right]; split; [done|]; by exists pr, ro, files).
        split; [done|]. intros _. by right.
      * apply bool_decide_eq_false in Hin. apply reply_ok. intros tr (pr & H1 & H2 & H3). left.
        exists no_reviewer. split; [apply elem_of_app; right; left|]. right. right.
        split_and!; [done..| |done]. exists pr, ro, files. split_and!; [by apply stable_answered..|done].
    + destruct c; cbn [negb].
      * assert (triple allowed (collaborates true) (set_label gh lgtms want rc cp) (λ _, lgtm_done)) as Hset.
        { apply set_label_ok; [apply stable_answered|]. intros tr Hc.
          assert (may_review tr) by (split; [done|by left]). split; [done|]. intros _. by right. }
        rewrite andb_true_r. apply triple_if; intros _.
        -- eapply triple_bind; [|intros ?; exact Hset].
           eapply triple_weaken; [apply (triple_quiet_zero (collaborates true)); [apply stable_answered|done]|].
           by intros tr [_ ?].
        -- eapply triple_weaken; [exact Hset|]. by intros tr [_ ?].
      * apply reply_ok. intros tr [_ Hc]. left. exists no_collaborator.
        split; [apply elem_of_app; right; left|]. right. left. split_and!; [done..| |done].
        by apply stable_answered.
Qed.
End request.

(** *** Comments and reviews *)

Inductive lgtm_event := EComment (e : GenericCommentEvent) | EReview (e : ReviewEvent).

Definition run_event (cp : EventClient) (ev : lgtm_event) : H Call unit :=
  match ev with
  | EComment e => handleGenericComment gh on_owners lgtms SkipCollaborators cp e
  | EReview e => handlePullRequestReviewEvent gh on_owners lgtms SkipCollaborators cp e
  end.

(** What an event asks for: a command in a new comment on an open pull request, or a
    new review without a command, where reviews count. *)
Definition request (ev : lgtm_event) : option (bool * reviewCtx) :=
  match ev with
  | EComment e =>
      if bool_decide (gc_IsPR e = true ∧ gc_IssueState e = "open" ∧
                      gc_Action e = GenericCommentActionCreated)
      then (λ want, (want, comment_ctx e)) <$> wants (gc_Body e) else None
  | EReview e =>
      if bool_decide (lg_ReviewActsAsLgtm (LgtmFor lgtms (rv_Org e) (rv_Repo e)) = true ∧
                      rv_Action e = ReviewActionSubmitted ∧ wants (rw_Body (rv_Review e)) = None)
      then (λ want, (want, review_ctx e)) <$> review_wants (rw_State (rv_Review e)) else None
  end.

Lemma run_request cp ev :
  run_event cp ev = match request ev with
                    | Some (want, rc) => handle gh on_owners lgtms SkipCollaborators want rc cp
                    | None => hret tt
                    end.
Proof.
  destruct ev as [e|e]; cbn [run_event request].
  - unfold handleGenericComment. destruct (gc_IsPR e); cbn [negb orb].
    2: by rewrite bool_decide_eq_false_2 by by intros [? _].
    repeat case_bool_decide; cbn [orb]; try done; try (by exfalso; intuition).
    by destruct (wants _).
  - unfold handlePullRequestReviewEvent, handlePullRequestReview, wants.
    destruct (lg_ReviewActsAsLgtm _); [|by rewrite bool_decide_eq_false_2 by by intros [? _]].
    destruct (lgtmRe _), (lgtmCancelRe _);
      repeat case_bool_decide; cbn [orb]; try done; try (by exfalso; intuition).
    by destruct (review_wants _).
Qed.

(** C6. A comment or a review that asks for nothing causes no call.  The label is only
    added by someone other than the author, who collaborates or, where configured,
    is an approver or reviewer of a changed file; only they and the author remove
    it; and if no call that matters fails, the request is refused for that reason,
    or the label is as it was asked for. *)
Theorem lgtm_label_spec cp ev :
  let '(calls, out) := run_event cp ev [] in
  match request ev with
  | None => calls = [] ∧ out = Some (Ok tt)
  | Some (want, rc) =>
      (∀ pre e post, calls = pre ++ e :: post → action e = true → lgtm_action want rc pre e) ∧
      (out = Some (Ok tt) → lgtm_done want rc calls)
  end.
Proof.
  rewrite run_request. destruct (request ev) as [[want rc]|]; [|done].
  destruct (handle_ok want rc cp [] I) as (new & E & Hs & Hq).
  destruct (handle _ _ _ _ _ _ _ []) as [calls out]. cbn in *. subst calls. split.
  - intros pre e post Hn Ha. by eapply Hs.
  - intros ->. by apply (Hq tt).
Qed.

End lgtm_proofs.

(** *** New commits *)

Section push.
Context (gh : GitHub) (lgtms : list Lgtm).
Variable pe : PullRequestEvent.
Let pr := pe_PullRequest pe.
Let org := gpr_BaseRepoOwner pr.
Let repo := gpr_BaseRepoName pr.
Let number := gpr_Number pr.
Let opts := LgtmFor lgtms org repo.

(** The author is in the team whose changes keep the label. *)
Definition is_sticky (tr : list Call) : Prop :=
  lg_StickyLgtmTeam opts ≠ "" ∧ ∃ teams id,
    answered (on_teams gh) (ListTeams org) (λ x, x = teams) tr ∧
    (lg_StickyLgtmTeam opts, id) ∈ teams ∧
    answered (on_members gh) (ListTeamMembers id RoleAll) (λ members, gpr_UserLogin pr ∈ members) tr.

(** The head has the tree that the bot noted last. *)
Definition same_as_noted (tr : list Call) : Prop :=
  lg_StoreTreeHash opts = true ∧ ∃ bot comments hash, hash ≠ "" ∧
    answered (on_name gh) BotName (λ x, x = bot) tr ∧
    answered (on_comments gh) (ListIssueComments org repo number) (λ x, x = comments) tr ∧
    lastLgtmTreeHash bot comments = hash ∧
    answered (on_name gh) (GetSingleCommit org repo (gpr_HeadSHA pr)) (λ x, x = hash) tr.

(** What is left of the label after a push. *)
Definition dismissed (tr : list Call) : Prop :=
  RemoveLabel org repo number LGTM ∈ tr ∨ is_sticky tr ∨ same_as_noted tr ∨
  answered (on_labels gh) (GetIssueLabels org repo number) (λ l, HasLabel LGTM l = false) tr ∨
  failed (on_labels gh) (GetIssueLabels org repo number) tr.

Definition push_action (tr : list Call) (e : Call) : Prop :=
  e = RemoveLabel org repo number LGTM ∧
  answered (on_labels gh) (GetIssueLabels org repo number) (λ l, HasLabel LGTM l = true) tr.

Notation allowed := (may_act push_action).

Lemma stable_sticky : stable is_sticky.
Proof. unfold is_sticky. auto 20 with prow. Qed.

Lemma stickyLgtm_ok :
  triple allowed (λ _, True) (stickyLgtm gh opts (gpr_UserLogin pr) org)
    (λ b tr, b = true → is_sticky tr).
Proof.
  unfold stickyLgtm. apply triple_if; intros Ht; [by apply triple_ret|].
  apply bool_decide_eq_false in Ht.
  eapply triple_bind; [by apply (triple_question_zero (λ _, True))|]. intros teams. cbn beta.
  assert (∀ rest done, teams = done ++ rest →
    triple allowed (λ tr, True ∧ (answered (on_teams gh) (ListTeams org) (λ x, x = teams) tr ∨
                            teams = [] ∧ failed (on_teams gh) (ListTeams org) tr))
      (sticky_teams gh (gpr_UserLogin pr) (lg_StickyLgtmTeam opts) rest)
      (λ b tr, b = true → is_sticky tr)) as Hl; [|by apply (Hl teams [])].
  induction rest as [|[name id] rest IH]; intros seen E; cbn [sticky_teams]; [by apply triple_ret|].
  assert (teams = (seen ++ [(name, id)]) ++ rest) as E' by by rewrite <- app_assoc.
  apply triple_if; intros Hn; [|by eapply IH]. apply bool_decide_eq_true in Hn as ->.
  eapply triple_bind; [apply triple_question_zero; [auto 10 with prow|done]|]. intros members. cbn beta.
  apply triple_if; intros Hm; [|eapply triple_weaken; [by eapply IH|by intros tr [? _]]].
  apply bool_decide_eq_true in Hm. apply triple_ret. intros tr [[_ Hteams] Hmem] _. split; [done|].
  assert ((lg_StickyLgtmTeam opts, id) ∈ teams) as Hin by (rewrite E; set_solver).
  exists teams, id. destruct Hteams as [Hteams|[-> _]]; [|by apply not_elem_of_nil in Hin].
  split_and!; [done..|]. destruct Hmem as [Hmem|[-> _]]; [|by apply not_elem_of_nil in Hm].
  eapply answered_weaken; [exact Hmem|]. by intros ? ->.
Qed.

Lemma same_tree_ok P :
  stable P →
  triple allowed P
    (if lg_StoreTreeHash opts then same_tree gh org repo pr else hret false)
    (λ b tr, P tr ∧ (b = true → same_as_noted tr)).
Proof.
  intros HP. apply triple_if; intros Hs; [|by apply triple_ret]. unfold same_tree. fold number.
  eapply triple_bind; [by apply (triple_question P)|]. intros bot. cbn beta.
  eapply triple_bind; [apply triple_question_zero; [auto with prow|done]|]. intros comments. cbn beta.
  apply triple_if; intros Hh; [by apply triple_ret; intros tr [[? _] _]|].
  apply bool_decide_eq_false in Hh.
  eapply triple_bind; [apply triple_question_zero; [auto 10 with prow|done]|]. intros hash. cbn beta.
  apply triple_ret. intros tr [[[Htr Hbot] Hc] Hhash]. split; [done|].
  intros Eh%bool_decide_eq_true. split; [done|]. exists bot, comments, hash.
  destruct Hc as [Hc|[-> _]]; [|done]. destruct Hhash as [Hhash|[-> _]]; [|by rewrite <- Eh in Hh].
  split_and!; [by rewrite Eh|done..].
Qed.

(** C7. When the handler of new commits of an unmerged pull request ends without an error,
    the removal of the label lgtm was asked for, unless GitHub answered that the label is
    not there, the author is in the team whose changes keep it, the tree is the one that
    the bot noted in its latest notification nobody edited, or the labels could not be
    read: then, without an error, a label that is there stays.  The label is removed only
    when GitHub answered that it is there, and no other label is changed. *)
Theorem push_dismisses_lgtm :
  let '(calls, out) := handlePullRequest gh lgtms pe [] in
  (∀ pre e post, calls = pre ++ e :: post → action e = true → push_action pre e) ∧
  (gpr_Merged pr = false → pe_Action pe = PullRequestActionSynchronize → out = Some (Ok tt) →
     dismissed calls).
Proof.
  assert (triple allowed (λ _, True) (handlePullRequest gh lgtms pe) (λ _ tr,
    gpr_Merged pr = false → pe_Action pe = PullRequestActionSynchronize → dismissed tr)) as Hok.
  { unfold handlePullRequest. fold pr org repo number. fold opts.
    apply triple_if; intros Em; [apply triple_ret; intros; congruence|].
    apply triple_if; intros Es; [apply bool_decide_eq_true in Es; apply triple_ret; intros; congruence|].
    eapply triple_bind; [apply stickyLgtm_ok|]. intros sticky. cbn beta.
    apply triple_if; intros Et.
    { apply triple_ret. intros tr Hst _ _. right. left. by apply Hst. }
    eapply triple_bind.
    { eapply triple_weaken; [by apply (triple_question_zero (λ _, True))|done]. }
    intros labels. cbn beta. apply triple_if; intros El.
    { apply triple_ret. intros tr [_ [Ha|[_ Hf]]] _ _; [|by repeat right].
      right. right. right. left. eapply answered_weaken; [exact Ha|].
      intros ? ->. by apply negb_true_iff. }
    apply negb_false_iff in El.
    eapply triple_bind.
    { eapply triple_weaken; [apply (same_tree_ok (answered (on_labels gh)
        (GetIssueLabels org repo number) (λ l, HasLabel LGTM l = true))), stable_answered|].
      intros tr [_ [Ha|[-> _]]]; [|done]. eapply answered_weaken; [exact Ha|]. by intros ? ->. }
    intros same. cbn beta. apply triple_if; intros Esame.
    { apply triple_ret. intros tr [_ Hsame] _ _. right. right. left. by apply Hsame. }
    eapply (triple_bind _ _ _ _ (λ _ tr, RemoveLabel org repo number LGTM ∈ tr)).
    { apply triple_with_err, triple_ask; [by intros tr [? _] _|].
      intros tr u _ _. apply elem_of_app. right. left. }
    intros u. apply triple_ask; [done|]. intros tr [] Htr _ _ _. left. apply elem_of_app. by left. }
  destruct (Hok [] I) as (new & E & Hs & Hq).
  destruct (handlePullRequest _ _ _ []) as [calls out]. cbn in *. subst calls. split.
  - intros pre e post Hn Ha. by eapply Hs.
  - intros Hm Ha ->. by apply (Hq tt).
Qed.
End push.

(** ** The notification stores the tree *)

Lemma tree_hash_at_notification hash :
  contains_char "010" hash = false → tree_hash_at (addLGTMLabelNotification hash) = Some hash.
Proof.
  intros Hn. unfold tree_hash_at, addLGTMLabelNotification.
  rewrite (proj2 (trim_prefix_go_Some noti_added _ _) eq_refl). cbn [mbind option_bind].
  change (skip_rune ("." +:+ noti_tree +:+ hash +:+ noti_end)) with (Some (noti_tree +:+ hash +:+ noti_end)).
  cbn [mbind option_bind]. rewrite (proj2 (trim_prefix_go_Some noti_tree _ _) eq_refl).
  cbn [mbind option_bind]. rewrite first_line_all by by rewrite contains_char_app, Hn.
  by rewrite cut_last_app by done.
Qed.

(** The notification is read back as the hash it was written with, whatever the
    hash, as long as it is one line. *)
Theorem tree_hash_roundtrip hash :
  contains_char "010" hash = false → tree_hash_of (addLGTMLabelNotification hash) = Some hash.
Proof.
  intros Hn. pose proof (tree_hash_at_notification hash Hn) as Ha.
  destruct (addLGTMLabelNotification hash); cbn [tree_hash_of]; by rewrite Ha.
Qed.

(** ** Witnesses and examples *)

Definition w_gh : GitHub := w_github ["reviewer"] [] [].
Definition w_cp : EventClient := NewEventClient "o" "r" 1.
Definition w_owners : list Call → result RepoOwners := λ _, Err (errors_New "no owners").
Definition w_tree : list Lgtm := [mkLgtm ["o"] true true ""].

Definition labels_set (calls : list Call) : list string :=
  omap (λ c, match c with
             | AddLabel _ _ _ l => Some ("add " +:+ l)
             | RemoveLabel _ _ _ l => Some ("remove " +:+ l)
             | _ => None
             end) calls.

Lemma lgtm_label_spec_witness :
  labels_set (run_event w_gh w_owners w_tree [] w_cp (EComment (w_comment "reviewer" "/LGTM no-issue"))
               []).1 = ["add lgtm"] ∧
  lgtm_done w_gh w_owners [] true (comment_ctx (w_comment "reviewer" "/LGTM no-issue"))
    (run_event w_gh w_owners w_tree [] w_cp (EComment (w_comment "reviewer" "/LGTM no-issue")) []).1.
Proof.
  pose proof (lgtm_label_spec w_gh w_owners w_tree [] w_cp
                (EComment (w_comment "reviewer" "/LGTM no-issue"))) as Hs.
  split; [vm_compute; reflexivity|].
  assert ((run_event w_gh w_owners w_tree [] w_cp (EComment (w_comment "reviewer" "/LGTM no-issue"))
             []).2 = Some (Ok tt)) as Hout by (vm_compute; reflexivity).
  assert (request w_tree (EComment (w_comment "reviewer" "/LGTM no-issue")) =
          Some (true, comment_ctx (w_comment "reviewer" "/LGTM no-issue"))) as Hr
    by (vm_compute; reflexivity).
  rewrite Hr in Hs. destruct (run_event _ _ _ _ _ _ _) as [calls out]. cbn [fst snd] in *.
  apply Hs, Hout.
Defined.

(** The author may cancel but not give an LGTM; a review counts like a comment. *)
Example own_lgtm_refused :
  labels_set (run_event w_gh w_owners w_tree [] w_cp (EComment (w_comment "author" "/lgtm")) []).1 = [].
Proof. vm_compute. reflexivity. Qed.
Example review_adds_lgtm :
  labels_set (run_event w_gh w_owners w_tree [] w_cp (EReview (mkReviewEvent "submitted" w_gpr "o" "r"
    (mkReview 7 "reviewer" "fine" "approved" "url" 0%Z) "guid")) []).1 = ["add lgtm"].
Proof. vm_compute. reflexivity. Qed.

Definition w_push : PullRequestEvent := mkPullRequestEvent "synchronize" 1 w_gpr "o" "r" "" "author" None "guid".
Definition w_noted (tree : string) : list IssueComment :=
  [mkIssueComment 5 (addLGTMLabelNotification tree) "bot" "url" 3%Z 3%Z].

Lemma push_dismisses_lgtm_witness :
  labels_set (handlePullRequest (w_github [] ["lgtm"] (w_noted "other")) w_tree w_push []).1 = ["remove lgtm"] ∧
  dismissed (w_github [] ["lgtm"] (w_noted "other")) w_tree w_push
    (handlePullRequest (w_github [] ["lgtm"] (w_noted "other")) w_tree w_push []).1.
Proof.
  pose proof (push_dismisses_lgtm (w_github [] ["lgtm"] (w_noted "other")) w_tree w_push) as Hs.
  split; [vm_compute; reflexivity|].
  assert ((handlePullRequest (w_github [] ["lgtm"] (w_noted "other")) w_tree w_push []).2 = Some (Ok tt))
    as Hout by (vm_compute; reflexivity).
  destruct (handlePullRequest _ _ _ _) as [calls out]. cbn [fst snd] in *.
  apply Hs; [reflexivity|reflexivity|exact Hout].
Defined.

(** The same tree keeps the label ([w_github] answers "base" for it). *)
Example squash_keeps_lgtm :
  labels_set (handlePullRequest (w_github [] ["lgtm"] (w_noted "base")) w_tree w_push []).1 = [].
Proof. vm_compute. reflexivity. Qed.

(** If the labels cannot be read, a cancelled or outdated LGTM stays, without an
    error. *)
Example unread_labels_keep_lgtm :
  let gh := without_labels (w_github ["reviewer"] ["lgtm"] []) in
  let cancelled := run_event gh w_owners w_tree [] w_cp (EComment (w_comment "reviewer" "/lgtm cancel")) [] in
  let pushed := handlePullRequest gh w_tree w_push [] in
  (labels_set cancelled.1, cancelled.2) = ([], Some (Ok tt)) ∧
  (labels_set pushed.1, pushed.2) = ([], Some (Ok tt)).
Proof. split; vm_compute; reflexivity. Qed.

Lemma tree_hash_roundtrip_witness :
  tree_hash_of (addLGTMLabelNotification "4b825dc</details>") = Some "4b825dc</details>".
Proof. apply tree_hash_roundtrip. vm_compute. reflexivity. Defined.
