(* ===== verification/ApproveMessage.v ===== *)
(** * The notification of the approve plugin (plugins/approve/approvers/owners.go)

    The comment that tells who has approved a pull request, who could, and which
    OWNERS files lack approval: the text template, expanded part by part. *)

From S2P Require Import Prelude Api JobConfig PjUtil GoText Paths RepoOwners Approvers.
#[local] Open Scope go_scope.

Definition ApprovalNotificationName : string := "ApprovalNotifier".

Definition Approval_String (a : Approval) : string :=
  "*<a href=" +:+ dquote +:+ al_Reference a +:+ dquote +:+ " title=" +:+ dquote +:+ al_How a
    +:+ dquote +:+ ">" +:+ al_Login a +:+ "</a>*".

Definition notification (name arguments context : string) : string :=
  let str := "[" +:+ to_upper name +:+ "]" in
  let args := trim_space arguments in
  let str := if bool_decide (args = "") then str else str +:+ " " +:+ args in
  let ctx := trim_space context in
  if bool_decide (ctx = "") then str else str +:+ newline +:+ newline +:+ ctx.

(** [json.Marshal] of a string: quotes, backslashes, control characters, angle
    brackets, ampersands and the two line separators of Unicode are escaped. *)
Definition lower_hex (n : nat) : ascii := ascii_to_lower (hex_digit n).
Definition json_char (c : ascii) : string :=
  let n := Ascii.nat_of_ascii c in
  if bool_decide (n = 34) then bytes [92; 34]
  else if bool_decide (n = 92) then bytes [92; 92]
  else if bool_decide (n = 10) then "\n" else if bool_decide (n = 13) then "\r"
  else if bool_decide (n = 9) then "\t"
  else if bool_decide (n < 32 ∨ n = 60 ∨ n = 62 ∨ n = 38)
  then "\u00" +:+ String (lower_hex (n / 16)) (String (lower_hex (n mod 16)) EmptyString)
  else String c EmptyString.
Fixpoint json_chars (s : string) : string :=
  match s with
  | EmptyString => EmptyString
  | String c s' =>
      match trim_prefix_go (bytes [128; 168]) s', trim_prefix_go (bytes [128; 169]) s' with
      | Some _, _ => if bool_decide (Ascii.nat_of_ascii c = 226) then "\u2028" +:+ json_tail 2 s'
                     else json_char c +:+ json_chars s'
      | _, Some _ => if bool_decide (Ascii.nat_of_ascii c = 226) then "\u2029" +:+ json_tail 2 s'
                     else json_char c +:+ json_chars s'
      | _, _ => json_char c +:+ json_chars s'
      end
  end
with json_tail (n : nat) (s : string) : string :=
  match s with
  | EmptyString => EmptyString
  | String _ s' => match n with S (S n) => json_tail (S n) s' | _ => json_chars s' end
  end.
Definition json_string (s : string) : string := dquote +:+ json_chars s +:+ dquote.

Definition getGubernatorMetadata (toBeAssigned : list string) : string :=
  newline +:+ "<!-- META={" +:+ quoted "approvers" +:+ ":["
    +:+ string_join "," (json_string <$> toBeAssigned) +:+ "]} -->".

(** An OWNERS file of the change, or a markdown file that holds owners itself. *)
Definition fullOwnersPath (path : string) : string :=
  if has_suffix ".md" path then path
  else Clean (string_join "/" (filter (λ s, s ≠ "") [path; ownersFileName])).

Section message.
Context `{GoRange} {R : OwnersRepo} (Perm : nat → list nat).
(** The link of the configuration with the path of a repository. *)
Context (baseURL : string).

Definition owners_link (branch path : string) : string :=
  baseURL +:+ "/blob/" +:+ branch +:+ "/" +:+ fullOwnersPath path.
Definition ApprovedFile_String (branch path : string) (approvers : gset string) : string :=
  "- ~~[" +:+ fullOwnersPath path +:+ "](" +:+ owners_link branch path +:+ ")~~ ["
    +:+ string_join "," (set_list approvers) +:+ "]" +:+ newline.
Definition UnapprovedFile_String (branch path : string) : string :=
  "- **[" +:+ fullOwnersPath path +:+ "](" +:+ owners_link branch path +:+ ")**" +:+ newline.

Definition GetFiles (branch : string) (ap : Approvers_) : list string :=
  let filesApprovers := GetFilesApprovers ap in
  (λ file, let approvers := default ∅ (filesApprovers !! file) in
           if bool_decide (size approvers = 0) then UnapprovedFile_String branch file
           else ApprovedFile_String branch file approvers) <$>
    set_list (GetOwnersSet (ap_filenames ap)).

(** Approvals in a line; the first after a space. *)
Definition approvals_line (l : list Approval) : string :=
  match l with [] => "" | _ => " " +:+ string_join ", " (Approval_String <$> l) end.

Definition process_link : string :=
  "https://git.k8s.io/community/contributors/guide/owners.md#the-code-review-process".

(** The template of [GetMessage], part by part; the metadata and the title follow.
    Suggesting ends ([Approvers.GetSuggestedApprovers_spec]). *)
Definition GetMessage (org repo branch : string) (ap : Approvers_) : string :=
  let ccs := default [] (GetCCs Perm ap) in
  let manual := ManuallyApproved ap in
  let open := negb (AreFilesApproved ap) && negb manual in
  let bypassed := if negb (RequirementsMet ap) && manual
    then text [""; "Approval requirements bypassed by manually added approval."; ""; ""] else "" in
  let approved_by := "This pull-request has been approved by:" +:+ approvals_line (ListApprovals ap) in
  let assign := if open
    then text [""; "To complete the [pull request process](" +:+ process_link +:+ "), please assign "
                     +:+ string_join ", " ((λ cc, "**" +:+ cc +:+ "**") <$> ccs);
               "You can assign the PR to them by writing `/assign "
                 +:+ string_join " " ((λ cc, "@" +:+ cc) <$> ccs) +:+ "` in a comment when ready."]
    else "" in
  let issue :=
    if negb (RequireIssue ap) then ""
    else if bool_decide (AssociatedIssue ap ≠ 0%Z)
    then text ["Associated issue: *#" +:+ itoa (AssociatedIssue ap) +:+ "*"; ""; ""]
    else if bool_decide (size (NoIssueApprovers ap) ≠ 0)
    then text ["Associated issue requirement bypassed by:" +:+ approvals_line (ListNoIssueApprovals ap); ""; ""]
    else if manual
    then text ["*No associated issue*. Requirement bypassed by manually added approval."; ""; ""]
    else text ["*No associated issue*. Update pull-request body to add a reference to an issue, or get approval with `/approve no-issue`"; ""; ""] in
  let process := if AreFilesApproved ap || manual
    then text ["The pull request process is described [here](" +:+ process_link +:+ ")"; ""; ""] else "" in
  let message := bypassed +:+ approved_by +:+ assign +:+ newline +:+ newline +:+ issue +:+
    text ["The full list of commands accepted by this bot can be found [here](https://go.k8s.io/bot-commands?repo="
            +:+ org +:+ "%2F" +:+ repo +:+ ")."; ""; ""] +:+ process +:+
    text ["<details " +:+ (if open then "open" else "") +:+ ">";
          "Needs approval from an approver in each of these files:"; "";
          string_join "" (GetFiles branch ap);
          "Approvers can indicate their approval by writing `/approve` in a comment";
          "Approvers can cancel approval by writing `/approve cancel` in a comment"; "</details>"] in
  let title := "This PR is **" +:+ (if IsApproved ap then "" else "NOT ") +:+ "APPROVED**" in
  notification ApprovalNotificationName title (message +:+ getGubernatorMetadata ccs).

End message.

#[local] Existing Instance listing_order.

(** The notification of a pull request that root's approval is missing for. *)
Example notification_text :
  GetMessage (R := repo_of sample_owners) (λ n, seq 0 n) "https://github.com/o/r" "o" "r" "master" (NewApprovers ["file"]) =
  text ["[APPROVALNOTIFIER] This PR is **NOT APPROVED**"; ""; "This pull-request has been approved by:";
    "To complete the [pull request process](https://git.k8s.io/community/contributors/guide/owners.md#the-code-review-process), please assign **root**";
    "You can assign the PR to them by writing `/assign @root` in a comment when ready."; "";
    "The full list of commands accepted by this bot can be found [here](https://go.k8s.io/bot-commands?repo=o%2Fr).";
    ""; "<details open>"; "Needs approval from an approver in each of these files:"; "";
    "- **[OWNERS](https://github.com/o/r/blob/master/OWNERS)**"; "";
    "Approvers can indicate their approval by writing `/approve` in a comment";
    "Approvers can cancel approval by writing `/approve cancel` in a comment"; "</details>";
    "<!-- META={" +:+ quoted "approvers" +:+ ":[" +:+ quoted "root" +:+ "]} -->"].
Proof. vm_compute. reflexivity. Qed.
