(* ===== verification/Approve.v ===== *)
(** * The approve plugin (plugins/approve/approve.go)

    Every event on a pull request makes the plugin read all comments again: the
    last word of each commenter decides who approves, [Approvers] whether that is
    enough, and the label approved and a notification follow. *)

From S2P Require Import Prelude Api JobConfig PjUtil GoText Handler GitHub Paths RepoOwners Approvers ApproveMessage Trigger Samples.
#[local] Open Scope go_scope.

Definition approveCommand : string := "APPROVE".
Definition cancelArgument : string := "cancel".
Definition lgtmCommand : string := "LGTM".
Definition noIssueArgument : string := "no-issue".
Definition deprecatedBotNames : list string := ["k8s-merge-robot"; "openshift-merge-robot"].
Definition isDeprecatedBot (login : string) : bool := bool_decide (login ∈ deprecatedBotNames).

(** ** Commands in comments *)

(** [commandRegex] on a line: a slash, a word, blanks and the rest up to a carriage
    return. *)
Definition command_of (line : string) : option (string * string) :=
  match line with
  | String "/" rest =>
      let '(word, rest) := span (λ c, negb (is_space c)) rest in
      if bool_decide (word = "") then None
      else
        let '(_, rest) := span (λ c, bool_decide (c = " "%char ∨ c = "009"%char)) rest in
        Some (word, (span (λ c, bool_decide (c ≠ "013"%char)) rest).1)
  | _ => None
  end.
Definition commands (body : string) : list (string * string) := omap command_of (lines body).

Record comment := mkComment {
  c_Body : string; c_Author : string; c_CreatedAt : Time; c_HTMLURL : string; c_ID : Z;
  c_ReviewState : string }.

Definition commentFromIssueComment (ic : IssueComment) : comment :=
  mkComment (ic_Body ic) (ic_User ic) (ic_CreatedAt ic) (ic_HTMLURL ic) (ic_ID ic) "".
Definition commentFromReviewComment (rc : ReviewComment) : comment :=
  mkComment (rm_Body rc) (rm_User rc) (rm_CreatedAt rc) (rm_HTMLURL rc) (rm_ID rc) "".
Definition commentFromReview (review : Review) : comment :=
  mkComment (rw_Body review) (rw_User review) (rw_SubmittedAt review) (rw_HTMLURL review)
    (rw_ID review) (rw_State review).

Definition isApprovalCommand (botName : string) (lgtmActsAsApprove : bool) (c : comment) : bool :=
  if bool_decide (c_Author c = botName) || isDeprecatedBot (c_Author c) then false
  else existsb (λ m : string * string,
         let cmd := to_upper m.1 in
         (bool_decide (cmd = lgtmCommand) && lgtmActsAsApprove) || bool_decide (cmd = approveCommand))
         (commands (c_Body c)).

Definition isApprovalState (botName : string) (reviewActsAsApprove : bool) (c : comment) : bool :=
  if bool_decide (c_Author c = botName) || isDeprecatedBot (c_Author c) then false
  else
    let reviewState := to_upper (c_ReviewState c) in
    reviewActsAsApprove &&
    bool_decide (reviewState ∈ [ReviewStateApproved; ReviewStateChangesRequested; ReviewStateDismissed]).

Definition approvalMatcher (botName : string) (lgtmActsAsApprove reviewActsAsApprove : bool)
    (c : comment) : bool :=
  isApprovalCommand botName lgtmActsAsApprove c || isApprovalState botName reviewActsAsApprove c.

(** ** The last word of each commenter *)

Definition apply_command (author : string) (c : comment) (ap : Approvers_) (m : string * string)
    : Approvers_ :=
  let name := to_upper m.1 in
  if bool_decide (name ≠ approveCommand ∧ name ≠ lgtmCommand) then ap else
  let args := to_lower (trim_space m.2) in
  if contains args cancelArgument then RemoveApprover (c_Author c) ap else
  let noIssue := bool_decide (args = noIssueArgument) in
  let ap := if bool_decide (c_Author c = author)
            then AddAuthorSelfApprover (c_Author c) (c_HTMLURL c) noIssue ap else ap in
  if bool_decide (name = approveCommand) then AddApprover (c_Author c) (c_HTMLURL c) noIssue ap
  else AddLGTMer (c_Author c) (c_HTMLURL c) noIssue ap.

Definition apply_comment (author : string) (reviewActsAsApprove : bool) (ap : Approvers_) (c : comment)
    : Approvers_ :=
  if bool_decide (c_Author c = "") then ap else
  let ap := if reviewActsAsApprove && bool_decide (c_ReviewState c = ReviewStateApproved)
            then AddApprover (c_Author c) (c_HTMLURL c) false ap else ap in
  let ap := if reviewActsAsApprove && bool_decide (c_ReviewState c = ReviewStateChangesRequested)
            then RemoveApprover (c_Author c) ap else ap in
  foldl (apply_command author c) ap (commands (c_Body c)).

Definition addApprovers (approveComments : list comment) (author : string)
    (reviewActsAsApprove : bool) (ap : Approvers_) : Approvers_ :=
  foldl (apply_comment author reviewActsAsApprove) ap approveComments.

(** ** The associated issue *)

Definition is_digit (c : ascii) : bool := bool_decide (48 ≤ Ascii.nat_of_ascii c ≤ 57).
Definition digits_at (s : string) : option string :=
  let d := (span is_digit s).1 in if bool_decide (d = "") then None else Some d.

(** [associatedIssueRegexFormat] here, for an organization whose name has no
    characters that regular expressions reserve (GitHub's have none). *)
Definition issue_at (org s : string) : option string :=
  match (rest ← trim_prefix_go (org +:+ "/") s;
         '(segment, rest) ← cut "/" rest;
         if bool_decide (segment = "") then None
         else rest ← trim_prefix_go "issues/" rest; digits_at rest) with
  | Some d => Some d
  | None => rest ← trim_prefix_go "#" s; digits_at rest
  end.
Fixpoint find_issue (org s : string) : option string :=
  match issue_at org s with
  | Some d => Some d
  | None => match s with EmptyString => None | String _ s => find_issue org s end
  end.

Definition findAssociatedIssue (body org : string) : result Z :=
  match find_issue org body with Some d => Atoi d | None => Ok 0%Z end.

(** ** Configuration (plugins/config.go) *)

Record Approve := mkApprove {
  ac_Repos : list string; ac_IssueRequired : bool;
  ac_DeprecatedImplicitSelfApprove : option bool; ac_RequireSelfApproval : option bool;
  ac_LgtmActsAsApprove : bool;
  ac_DeprecatedReviewActsAsApprove : option bool; ac_IgnoreReviewState : option bool }.

Definition HasSelfApproval (a : Approve) : bool :=
  match ac_DeprecatedImplicitSelfApprove a, ac_RequireSelfApproval a with
  | Some b, _ => b
  | None, Some b => negb b
  | None, None => true
  end.
Definition ConsiderReviewState (a : Approve) : bool :=
  match ac_DeprecatedReviewActsAsApprove a, ac_IgnoreReviewState a with
  | Some b, _ => b
  | None, Some b => negb b
  | None, None => true
  end.

Record ApproveConfiguration := mkApproveConfiguration {
  cf_Approve : list Approve; cf_UseDeprecatedSelfApprove : bool; cf_UseDeprecatedReviewApprove : bool }.

Definition ApproveFor (c : ApproveConfiguration) (org repo : string) : Approve :=
  let fullName := org +:+ "/" +:+ repo in
  let a := match head (filter (λ a, fullName ∈ ac_Repos a) (cf_Approve c)) with
           | Some a => a
           | None => default (mkApprove [] false None None false None None)
                       (head (filter (λ a, org ∈ ac_Repos a) (cf_Approve c)))
           end in
  let unset (o o' : option bool) (deprecated : bool) :=
    if bool_decide (o = None ∧ o' = None) && deprecated then Some false else o in
  mkApprove (ac_Repos a) (ac_IssueRequired a)
    (unset (ac_DeprecatedImplicitSelfApprove a) (ac_RequireSelfApproval a) (cf_UseDeprecatedSelfApprove c))
    (ac_RequireSelfApproval a) (ac_LgtmActsAsApprove a)
    (unset (ac_DeprecatedReviewActsAsApprove a) (ac_IgnoreReviewState a) (cf_UseDeprecatedReviewApprove c))
    (ac_IgnoreReviewState a).

(** ** When to notify *)

(** [notificationRegex] matches what starts so, in any case. *)
Definition notificationMatcher (botName : string) (c : comment) : bool :=
  (bool_decide (c_Author c = botName) || isDeprecatedBot (c_Author c)) &&
  bool_decide (is_Some (trim_prefix_fold ("[" +:+ ApprovalNotificationName +:+ "]") (c_Body c))).

Section notification.
Context `{GoRange} {R : OwnersRepo} (Perm : nat → list nat) (baseURL : string).

(** No new message if the latest one says it already. *)
Definition updateNotification (org repo branch : string) (latestNotification : option comment)
    (ap : Approvers_) : option string :=
  let message := GetMessage Perm baseURL org repo branch ap in
  match latestNotification with
  | Some latest => if contains (c_Body latest) message then None else Some message
  | None => Some message
  end.
End notification.

(** ** The handlers *)

(** [state]: the pull request. *)
Record state := mkState {
  st_org : string; st_repo : string; st_branch : string; st_number : Z; st_body : string;
  st_author : string; st_assignees : list string; st_htmlURL : string }.

Section approve.
Context `{GoRange} (gh : GitHub) (on_owners : list Call → result RepoOwners).
Context (config : ApproveConfiguration).
(** [rand.New(rand.NewSource(number)).Perm] and the link with a path. *)
Context (Perm : Z → nat → list nat) (linkURL : string → string).

(** Who labelled the pull request last, if it is labelled and it was not a bot. *)
Definition last_labeller (events : list ListedIssueEvent) : string :=
  default "" (le_Actor <$> last (filter (λ e, le_Event e = IssueActionLabeled ∧ le_Label e = Approved) events)).

Definition by_hand (botName : string) (events : list ListedIssueEvent) : bool :=
  let actor := last_labeller events in
  negb (bool_decide (actor = "") || bool_decide (actor = botName) || isDeprecatedBot actor).

Definition humanAddedApproved (pr : state) (botName : string) (hasLabel : bool) : H Call bool :=
  if negb hasLabel then hret false
  else
    let! events := or_zero []
      (ask (on_events gh) (ListIssueEvents (st_org pr) (st_repo pr) (st_number pr))) in
    hret (by_hand botName events).

(** Everything that was said, oldest first; of the same time, comments on lines
    before comments before reviews. *)
Definition all_comments (ics : list IssueComment) (rcs : list ReviewComment) (reviews : list Review)
    : list comment :=
  sort_stable c_CreatedAt ((commentFromReviewComment <$> rcs) ++ (commentFromIssueComment <$> ics)
                             ++ (commentFromReview <$> reviews)).

(** The approvals before anyone spoke. *)
Definition initial_approvers (opts : Approve) (pr : state) (filenames : list string) (manual : bool)
    : Approvers_ :=
  let issue := match findAssociatedIssue (st_body pr) (st_org pr) with Ok v => v | Err _ => 0%Z end in
  let ap := mkApprovers filenames ∅ ∅ issue (ac_IssueRequired opts) manual in
  if HasSelfApproval opts then AddAuthorSelfApprover (st_author pr) (st_htmlURL pr +:+ "#") false ap
  else AddAssignees [st_author pr] ap.

Definition final_approvers (opts : Approve) (pr : state) (filenames : list string) (manual : bool)
    (botName : string) (comments : list comment) : Approvers_ :=
  let rev := ConsiderReviewState opts in
  let approveComments :=
    filter (λ c, approvalMatcher botName (ac_LgtmActsAsApprove opts) rev c = true) comments in
  foldl (λ ap user, AddAssignees [user] ap)
    (addApprovers approveComments (st_author pr) rev (initial_approvers opts pr filenames manual))
    (st_assignees pr).

(** The old notifications go, a new one comes; failures are only logged. *)
Fixpoint delete_notifications (pr : state) (notifications : list comment) : H Call unit :=
  match notifications with
  | [] => hret tt
  | notif :: notifications =>
      let! _ := or_zero tt (ask (on_done gh) (DeleteComment (st_org pr) (st_repo pr) (c_ID notif))) in
      delete_notifications pr notifications
  end.

Definition notify (o : RepoOwners) (pr : state) (notifications : list comment) (ap : Approvers_)
    : H Call unit :=
  match updateNotification (R := repo_of o) (Perm (st_number pr)) (linkURL (st_org pr +:+ "/" +:+ st_repo pr))
          (st_org pr) (st_repo pr) (st_branch pr) (last notifications) ap with
  | None => hret tt
  | Some newMessage =>
      let! _ := delete_notifications pr notifications in
      or_zero tt (ask (on_done gh) (CreateComment (st_org pr) (st_repo pr) (st_number pr) newMessage))
  end.

Definition set_approved (o : RepoOwners) (pr : state) (hasApprovedLabel : bool) (ap : Approvers_)
    : H Call unit :=
  let org := st_org pr in
  let repo := st_repo pr in
  if negb (IsApproved (R := repo_of o) ap) then
    if hasApprovedLabel
    then or_zero tt (ask (on_done gh) (RemoveLabel org repo (st_number pr) Approved)) else hret tt
  else if negb hasApprovedLabel
  then or_zero tt (ask (on_done gh) (AddLabel org repo (st_number pr) Approved)) else hret tt.

Definition fetchErr {A} (pr : state) (context : string) (m : H Call A) : H Call A :=
  with_args "failed to get %s for %s/%s#%d: %v"
    [AStr context; AStr (st_org pr); AStr (st_repo pr); AInt (st_number pr)] m.

Definition handle (o : RepoOwners) (opts : Approve) (pr : state) : H Call unit :=
  let org := st_org pr in
  let repo := st_repo pr in
  let number := st_number pr in
  let! filenames := fetchErr pr "PR file changes" (ask (on_files gh) (GetPullRequestChanges org repo number)) in
  let! issueLabels := fetchErr pr "issue labels" (ask (on_labels gh) (GetIssueLabels org repo number)) in
  let hasApprovedLabel := bool_decide (Approved ∈ issueLabels) in
  let! botName := fetchErr pr "bot name" (ask (on_name gh) BotName) in
  let! issueComments := fetchErr pr "issue comments" (ask (on_comments gh) (ListIssueComments org repo number)) in
  let! reviewComments := fetchErr pr "review comments"
    (ask (on_review_comments gh) (ListPullRequestComments org repo number)) in
  let! reviews := fetchErr pr "reviews" (ask (on_reviews gh) (ListReviews org repo number)) in
  let comments := all_comments issueComments reviewComments reviews in
  let notifications :=
    filter (λ c, notificationMatcher botName c = true) (commentFromIssueComment <$> issueComments) in
  let! manual := humanAddedApproved pr botName hasApprovedLabel in
  let ap := final_approvers opts pr filenames manual botName comments in
  let! _ := notify o pr notifications ap in
  set_approved o pr hasApprovedLabel ap.

Definition handleGenericComment (ce : GenericCommentEvent) : H Call unit :=
  let org := gc_Org ce in
  let repo := gc_Repo ce in
  if bool_decide (gc_Action ce ≠ GenericCommentActionCreated) || negb (gc_IsPR ce)
     || bool_decide (gc_IssueState ce = "closed") then hret tt else
  let! botName := ask (on_name gh) BotName in
  let opts := ApproveFor config org repo in
  if negb (isApprovalCommand botName (ac_LgtmActsAsApprove opts)
             (mkComment (gc_Body ce) (gc_User ce) 0%Z "" 0%Z "")) then hret tt else
  let! pr := ask (on_pr gh) (GetPullRequest org repo (gc_Number ce)) in
  let! o := ask on_owners (LoadRepoOwners org repo (gpr_BaseRef pr)) in
  handle o opts (mkState org repo (gpr_BaseRef pr) (gc_Number ce) (gc_IssueBody ce)
    (gc_IssueAuthor ce) (gc_Assignees ce) (gc_IssueHTMLURL ce)).

Definition pr_state (org repo : string) (number : Z) (pr : GitHubPullRequest) : state :=
  mkState org repo (gpr_BaseRef pr) number (gpr_Body pr) (gpr_UserLogin pr) (gpr_Assignees pr)
    (gpr_HTMLURL pr).

Definition handleReview (re : ReviewEvent) : H Call unit :=
  let org := rv_Org re in
  let repo := rv_Repo re in
  let pr := rv_PullRequest re in
  let review := rv_Review re in
  if bool_decide (rv_Action re ≠ ReviewActionSubmitted ∧ rv_Action re ≠ ReviewActionDismissed)
  then hret tt else
  let! botName := ask (on_name gh) BotName in
  let opts := ApproveFor config org repo in
  if isApprovalCommand botName (ac_LgtmActsAsApprove opts)
       (mkComment (rw_Body review) (rw_User review) 0%Z "" 0%Z "") then hret tt else
  if negb (isApprovalState botName (ConsiderReviewState opts)
             (mkComment "" (rw_User review) 0%Z "" 0%Z (rw_State review))) then hret tt else
  let! o := ask on_owners (LoadRepoOwners org repo (gpr_BaseRef pr)) in
  handle o opts (pr_state org repo (gpr_Number pr) pr).

Definition handlePullRequest (pre : PullRequestEvent) : H Call unit :=
  let org := pe_Org pre in
  let repo := pe_Repo pre in
  let pr := pe_PullRequest pre in
  if bool_decide (pe_Action pre ∉ [PullRequestActionOpened; PullRequestActionReopened;
                                   PullRequestActionSynchronize; PullRequestActionLabeled])
  then hret tt else
  let! botName := ask (on_name gh) BotName in
  if bool_decide (pe_Action pre = PullRequestActionLabeled ∧
       (pe_Label pre ≠ Approved ∨ pe_Sender pre = botName ∨ gpr_State pr = "closed")) then hret tt else
  let! o := ask on_owners (LoadRepoOwners org repo (gpr_BaseRef pr)) in
  handle o (ApproveFor config org repo) (pr_state org repo (pe_Number pre) pr).
End approve.

(** ** The last word counts *)

(** What a command says: yes, no, or nothing. *)
Definition command_vote (m : string * string) : option bool :=
  let name := to_upper m.1 in
  if bool_decide (name = approveCommand ∨ name = lgtmCommand)
  then Some (negb (contains (to_lower (trim_space m.2)) cancelArgument)) else None.

(** What a comment says, in order: its review state and its commands. *)
Definition votes_of (reviewActsAsApprove : bool) (c : comment) : list bool :=
  (if reviewActsAsApprove then
     (if bool_decide (c_ReviewState c = ReviewStateApproved) then [true] else []) ++
     (if bool_decide (c_ReviewState c = ReviewStateChangesRequested) then [false] else [])
   else []) ++ omap command_vote (commands (c_Body c)).

(** The last word of a person, in whatever case the name is written. *)
Definition last_word (reviewActsAsApprove : bool) (comments : list comment) (login : string)
    : option bool :=
  last (flat_map (votes_of reviewActsAsApprove)
          (filter (λ c, c_Author c ≠ "" ∧ to_lower (c_Author c) = login) comments)).

(** The state after some votes. *)
Definition outcome_of (before : Prop) (votes : list bool) : Prop :=
  match last votes with Some v => v = true | None => before end.

Lemma outcome_of_app P v1 v2 : outcome_of P (v1 ++ v2) ↔ outcome_of (outcome_of P v1) v2.
Proof.
  unfold outcome_of. rewrite last_app. by destruct (last v2).
Qed.

Definition in_approvers (ap : Approvers_) (k : string) : Prop := k ∈ dom (ap_approvers ap).

(** What an operation leaves of the rest of the record. *)
Definition same_rest (ap ap' : Approvers_) : Prop :=
  ap_filenames ap' = ap_filenames ap ∧ AssociatedIssue ap' = AssociatedIssue ap ∧
  RequireIssue ap' = RequireIssue ap ∧ ManuallyApproved ap' = ManuallyApproved ap.

Lemma add_approval_dom how login ref noIssue ap k :
  in_approvers (add_approval how login ref noIssue ap) k ↔ to_lower login = k ∨ in_approvers ap k.
Proof.
  unfold add_approval, in_approvers. destruct (shouldNotOverrideApproval _ _ _) eqn:E.
  - unfold shouldNotOverrideApproval in E. destruct (_ !! _) as [al|] eqn:El; [|done].
    assert (to_lower login ∈ dom (ap_approvers ap)) by (by eapply elem_of_dom_2).
    split; [by right|]. by intros [<-|?].
  - cbn. rewrite dom_insert_L. set_solver.
Qed.

Lemma add_approval_keys how login ref noIssue ap :
  keys_ok ap → keys_ok (add_approval how login ref noIssue ap).
Proof.
  intros Hk. unfold add_approval. destruct (shouldNotOverrideApproval _ _ _); [done|].
  by apply map_Forall_insert_2.
Qed.

Lemma RemoveApprover_dom login ap k :
  in_approvers (RemoveApprover login ap) k ↔ to_lower login ≠ k ∧ in_approvers ap k.
Proof. unfold in_approvers. cbn. rewrite dom_delete_L. set_solver. Qed.

Lemma RemoveApprover_keys login ap : keys_ok ap → keys_ok (RemoveApprover login ap).
Proof. intros Hk. unfold keys_ok in *. cbn. by apply map_Forall_delete. Qed.

Lemma add_approval_rest how login ref noIssue ap : same_rest ap (add_approval how login ref noIssue ap).
Proof. unfold add_approval. by destruct (shouldNotOverrideApproval _ _ _). Qed.

Lemma same_rest_trans ap1 ap2 ap3 : same_rest ap1 ap2 → same_rest ap2 ap3 → same_rest ap1 ap3.
Proof. unfold same_rest. intuition congruence. Qed.

(** A step that lets a person vote: the person's own state follows the votes,
    nobody else's changes. *)
Record steps (login : string) (votes : list bool) (ap ap' : Approvers_) : Prop := {
  step_dom k : in_approvers ap' k ↔
    if bool_decide (to_lower login = k) then outcome_of (in_approvers ap k) votes else in_approvers ap k;
  step_keys : keys_ok ap → keys_ok ap';
  step_rest : same_rest ap ap' }.

Lemma steps_nil login ap : steps login [] ap ap.
Proof. split; [|done|done]. intros k. by case_bool_decide. Qed.

Lemma steps_app login v1 v2 ap1 ap2 ap3 :
  steps login v1 ap1 ap2 → steps login v2 ap2 ap3 → steps login (v1 ++ v2) ap1 ap3.
Proof.
  intros [D1 K1 R1] [D2 K2 R2]. split; [|auto|by eapply same_rest_trans].
  intros k. rewrite D2. case_bool_decide as E; [|by rewrite D1, bool_decide_eq_false_2].
  rewrite outcome_of_app. unfold outcome_of at 1 2. destruct (last v2); [done|].
  by rewrite D1, bool_decide_eq_true_2.
Qed.

Lemma steps_add how login ref noIssue ap : steps login [true] ap (add_approval how login ref noIssue ap).
Proof.
  split; [|apply add_approval_keys|apply add_approval_rest].
  intros k. rewrite add_approval_dom. case_bool_decide; cbn; naive_solver.
Qed.

Lemma steps_remove login ap : steps login [false] ap (RemoveApprover login ap).
Proof.
  split; [|apply RemoveApprover_keys|done].
  intros k. rewrite RemoveApprover_dom. case_bool_decide; cbn; naive_solver.
Qed.

Lemma steps_twice login ap1 ap2 ap3 :
  steps login [true] ap1 ap2 → steps login [true] ap2 ap3 → steps login [true] ap1 ap3.
Proof.
  intros H1 H2. destruct (steps_app _ _ _ _ _ _ H1 H2) as [D K R]. by split.
Qed.

Lemma apply_command_ok author c ap m :
  steps (c_Author c) (option_list (command_vote m)) ap (apply_command author c ap m).
Proof.
  unfold apply_command, command_vote.
  destruct (bool_decide_reflect (to_upper m.1 ≠ approveCommand ∧ to_upper m.1 ≠ lgtmCommand)) as [Hn|Hn].
  { rewrite bool_decide_eq_false_2 by naive_solver. apply steps_nil. }
  assert (to_upper m.1 = approveCommand ∨ to_upper m.1 = lgtmCommand) as Hv.
  { destruct (decide (to_upper m.1 = approveCommand)); [by left|right]. apply dec_stable. naive_solver. }
  rewrite bool_decide_eq_true_2 by exact Hv. cbn [option_list].
  destruct (contains _ _); [apply steps_remove|]. cbn [negb].
  set (noIssue := bool_decide (to_lower (trim_space m.2) = noIssueArgument)). set (ap1 := if bool_decide (c_Author c = author) then _ else ap).
  assert (∀ ap2, steps (c_Author c) [true] ap1 ap2 → steps (c_Author c) [true] ap ap2) as Hfirst.
  { intros ap2 H2. unfold ap1 in H2. destruct (bool_decide (c_Author c = author)); [|done].
    eapply steps_twice; [apply steps_add|exact H2]. }
  apply Hfirst. destruct (bool_decide (to_upper m.1 = approveCommand)); apply steps_add.
Qed.

Lemma apply_commands_ok author c l ap :
  steps (c_Author c) (omap command_vote l) ap (foldl (apply_command author c) ap l).
Proof.
  revert ap. induction l as [|m l IH]; intros ap; [apply steps_nil|].
  assert (omap command_vote (m :: l) = option_list (command_vote m) ++ omap command_vote l) as ->
    by (cbn; by destruct (command_vote m)).
  eapply steps_app; [apply apply_command_ok|apply IH].
Qed.

Lemma apply_comment_ok author rev ap c :
  c_Author c ≠ "" → steps (c_Author c) (votes_of rev c) ap (apply_comment author rev ap c).
Proof.
  intros Hne. unfold apply_comment, votes_of. rewrite (bool_decide_eq_false_2 (c_Author c = "")) by done.
  eapply steps_app; [|apply apply_commands_ok].
  destruct rev; cbn [andb]; [|apply steps_nil].
  apply steps_app with (ap2 := if bool_decide (c_ReviewState c = ReviewStateApproved)
                               then AddApprover (c_Author c) (c_HTMLURL c) false ap else ap).
  - destruct (bool_decide _); [apply steps_add|apply steps_nil].
  - destruct (bool_decide (c_ReviewState c = ReviewStateChangesRequested));
      [apply steps_remove|apply steps_nil].
Qed.

Lemma addApprovers_ok comments author rev ap :
  (∀ k, in_approvers (addApprovers comments author rev ap) k ↔
        match last_word rev comments k with Some v => v = true | None => in_approvers ap k end) ∧
  (keys_ok ap → keys_ok (addApprovers comments author rev ap)) ∧
  same_rest ap (addApprovers comments author rev ap).
Proof.
  revert ap. induction comments as [|c comments IH]; intros ap; [done|].
  cbn [addApprovers foldl]. unfold addApprovers in IH.
  destruct (IH (apply_comment author rev ap c)) as (Hd & Hk & Hr). clear IH.
  destruct (decide (c_Author c = "")) as [E|E].
  { assert (apply_comment author rev ap c = ap) as Hap
      by (unfold apply_comment; by rewrite bool_decide_eq_true_2).
    rewrite Hap in *. split_and!; [|done..]. intros k. rewrite Hd. unfold last_word.
    by rewrite filter_cons, decide_False by by intros [? _]. }
  destruct (apply_comment_ok author rev ap c E) as [D K R].
  split_and!; [|by auto|by eapply same_rest_trans].
  intros k. rewrite Hd. unfold last_word. rewrite filter_cons.
  destruct (decide (c_Author c ≠ "" ∧ to_lower (c_Author c) = k)) as [[_ Ek]|Hn].
  - cbn [flat_map]. rewrite last_app. destruct (last (flat_map _ _)); [done|].
    rewrite D, bool_decide_eq_true_2 by done. done.
  - destruct (last (flat_map _ _)); [done|]. rewrite D, bool_decide_eq_false_2; [done|]. naive_solver.
Qed.

(** C9. Who approves after all comments: those whose last word is yes, and those who
    approved before and said nothing.  Names are compared in lower case. *)
Theorem addApprovers_spec comments author reviewActsAsApprove ap k :
  k ∈ dom (ap_approvers (addApprovers comments author reviewActsAsApprove ap)) ↔
  match last_word reviewActsAsApprove comments k with
  | Some v => v = true
  | None => k ∈ dom (ap_approvers ap)
  end.
Proof. apply addApprovers_ok. Qed.

(** ** The label approved *)

Section approve_proofs.
Context `{GoRange} (gh : GitHub) (on_owners : list Call → result RepoOwners).
Context (config : ApproveConfiguration).
Context (Perm : Z → nat → list nat) (linkURL : string → string).

(** What the plugin finds out about a pull request. *)
Record knowledge := mkKnowledge {
  k_owners : RepoOwners; k_files : list string; k_labels : list string; k_bot : string;
  k_ics : list IssueComment; k_rcs : list ReviewComment; k_reviews : list Review }.

Definition facts (pr : state) (k : knowledge) (tr : list Call) : Prop :=
  let org := st_org pr in
  let repo := st_repo pr in
  let number := st_number pr in
  answered on_owners (LoadRepoOwners org repo (st_branch pr)) (λ x, x = k_owners k) tr ∧
  answered (on_files gh) (GetPullRequestChanges org repo number) (λ x, x = k_files k) tr ∧
  answered (on_labels gh) (GetIssueLabels org repo number) (λ x, x = k_labels k) tr ∧
  answered (on_name gh) BotName (λ x, x = k_bot k) tr ∧
  answered (on_comments gh) (ListIssueComments org repo number) (λ x, x = k_ics k) tr ∧
  answered (on_review_comments gh) (ListPullRequestComments org repo number) (λ x, x = k_rcs k) tr ∧
  answered (on_reviews gh) (ListReviews org repo number) (λ x, x = k_reviews k) tr.

Lemma stable_facts pr k : stable (facts pr k).
Proof. unfold facts. auto 20 with prow. Qed.

(** Whether a person put the label there, as far as the plugin knows. *)
Definition hand (pr : state) (k : knowledge) (manual : bool) (tr : list Call) : Prop :=
  let q := ListIssueEvents (st_org pr) (st_repo pr) (st_number pr) in
  if manual then Approved ∈ k_labels k ∧
                 answered (on_events gh) q (λ events, by_hand (k_bot k) events = true) tr
  else Approved ∉ k_labels k ∨
       answered (on_events gh) q (λ events, by_hand (k_bot k) events = false) tr ∨
       failed (on_events gh) q tr.

Lemma stable_hand pr k manual : stable (hand pr k manual).
Proof. unfold hand. destruct manual; auto with prow. Qed.

Section pull.
Variables (opts : Approve) (pr : state) (k : knowledge).

(** Everything said about the pull request. *)
Definition said : list comment := all_comments (k_ics k) (k_rcs k) (k_reviews k).

(** What a command counts for: /approve always, /lgtm where it is to act as approval. *)
Definition counted_vote (m : string * string) : option bool :=
  let name := to_upper m.1 in
  if bool_decide (name = approveCommand ∨ name = lgtmCommand ∧ ac_LgtmActsAsApprove opts = true)
  then Some (negb (contains (to_lower (trim_space m.2)) cancelArgument)) else None.

(** What a comment counts for: nothing if a bot wrote it; else the state of the review,
    where reviews count, and then the commands. *)
Definition counted_votes (c : comment) : list bool :=
  if bool_decide (c_Author c = k_bot k) || isDeprecatedBot (c_Author c) then []
  else (if ConsiderReviewState opts then
          (if bool_decide (c_ReviewState c = ReviewStateApproved) then [true] else []) ++
          (if bool_decide (c_ReviewState c = ReviewStateChangesRequested) then [false] else [])
        else []) ++ omap counted_vote (commands (c_Body c)).

(** Whose last word is yes; the author's silence is, where authors approve
    implicitly. *)
Definition says_yes (login : string) : Prop :=
  match last (flat_map counted_votes (filter (λ c, c_Author c ≠ "" ∧ to_lower (c_Author c) = login) said)) with
  | Some v => v = true
  | None => HasSelfApproval opts = true ∧ login = to_lower (st_author pr)
  end.

(** Where /lgtm is not to act as approval, no comment that counts for another reason
    also says /lgtm. *)
Definition lgtm_apart : Prop :=
  ac_LgtmActsAsApprove opts = false → ∀ c m, c ∈ said →
    approvalMatcher (k_bot k) false (ConsiderReviewState opts) c = true →
    m ∈ commands (c_Body c) → to_upper m.1 ≠ lgtmCommand.

(** The comments the code reads. *)
Definition heard : list comment :=
  filter (λ c, approvalMatcher (k_bot k) (ac_LgtmActsAsApprove opts) (ConsiderReviewState opts) c = true) said.

Lemma heard_votes c :
  lgtm_apart → c ∈ said →
  counted_votes c =
    if approvalMatcher (k_bot k) (ac_LgtmActsAsApprove opts) (ConsiderReviewState opts) c
    then votes_of (ConsiderReviewState opts) c else [].
Proof.
  intros Hapart Hc. unfold counted_votes.
  destruct (approvalMatcher _ _ _ c) eqn:Em; unfold approvalMatcher, isApprovalCommand, isApprovalState in Em;
    destruct (bool_decide (c_Author c = k_bot k) || isDeprecatedBot (c_Author c)) eqn:Eb; try done.
  - unfold votes_of. f_equal. apply list_omap_ext, Forall_Forall2_diag, Forall_forall.
    intros m Hm. unfold counted_vote, command_vote.
    assert (to_upper m.1 = approveCommand ∨ to_upper m.1 = lgtmCommand ∧ ac_LgtmActsAsApprove opts = true ↔
      to_upper m.1 = approveCommand ∨ to_upper m.1 = lgtmCommand) as E; [|by rewrite (bool_decide_ext _ _ E)].
    destruct (ac_LgtmActsAsApprove opts) eqn:El; [naive_solver|]. specialize (Hapart El c m Hc).
    unfold approvalMatcher, isApprovalCommand, isApprovalState in Hapart. rewrite Eb in Hapart.
    specialize (Hapart Em Hm). naive_solver.
  - apply orb_false_iff in Em as [Ec Es].
    assert (omap counted_vote (commands (c_Body c)) = []) as ->.
    { induction (commands (c_Body c)) as [|m l IH]; [done|]. cbn in Ec |- *.
      apply orb_false_iff in Ec as [[E1 E2%bool_decide_eq_false]%orb_false_iff El]. unfold counted_vote at 1.
      rewrite bool_decide_eq_false_2; [by apply IH|]. intros [?|[E3 E4]]; [done|].
      by rewrite E4, andb_true_r, bool_decide_eq_false in E1. }
    destruct (ConsiderReviewState opts); [|done]. cbn [andb] in Es. apply bool_decide_eq_false in Es.
    rewrite !bool_decide_eq_false_2; [done|..]; intros E; apply Es; rewrite E; decide_by_computing.
Qed.

Lemma says_yes_heard login :
  lgtm_apart →
  says_yes login ↔
  match last_word (ConsiderReviewState opts) heard login with
  | Some v => v = true
  | None => HasSelfApproval opts = true ∧ login = to_lower (st_author pr)
  end.
Proof.
  intros Hapart. unfold says_yes, last_word, heard. set (P := λ c, c_Author c ≠ "" ∧ _).
  assert (∀ l, l ⊆ said → flat_map counted_votes (filter P l) =
    flat_map (votes_of (ConsiderReviewState opts)) (filter P (filter (λ c, approvalMatcher (k_bot k)
      (ac_LgtmActsAsApprove opts) (ConsiderReviewState opts) c = true) l))) as ->; [|done|done].
  induction l as [|c l IH]; intros Hl; [done|].
  assert (c ∈ said) as Hc by (apply Hl; left). pose proof (heard_votes c Hapart Hc) as Hv.
  assert (l ⊆ said) as Hl' by (intros x Hx; apply Hl; by right). specialize (IH Hl').
  rewrite !filter_cons. destruct (approvalMatcher _ _ _ c).
  - rewrite (decide_True (P := true = true)) by done. rewrite filter_cons. case_decide; [|done].
    cbn [flat_map]. by rewrite Hv, IH.
  - rewrite (decide_False (P := false = true)) by done. case_decide; [|done]. cbn [flat_map]. by rewrite Hv, IH.
Qed.

Definition approvals (manual : bool) : Approvers_ :=
  final_approvers opts pr (k_files k) manual (k_bot k) said.

(** Each file has an approver, in its closest OWNERS file or inherited, who says yes;
    and an issue is mentioned if one is needed, or waived. *)
Definition enough (manual : bool) : Prop :=
  Forall (λ file, ∃ approver,
    approver ∈ repo_Approvers (OwnersRepo := repo_of (k_owners k))
      (repo_FindApproverOwnersForFile (OwnersRepo := repo_of (k_owners k)) file) ∧
    says_yes (to_lower approver)) (k_files k) ∧
  (ac_IssueRequired opts = false ∨ AssociatedIssue (approvals manual) ≠ 0%Z ∨
   issue_waived (k_owners k) (approvals manual)).

Lemma initial_ok manual login :
  in_approvers (initial_approvers opts pr (k_files k) manual) login ↔
  HasSelfApproval opts = true ∧ login = to_lower (st_author pr).
Proof.
  unfold initial_approvers. destruct (HasSelfApproval opts).
  - unfold AddAuthorSelfApprover. rewrite add_approval_dom. unfold in_approvers. cbn. set_solver.
  - unfold in_approvers. cbn. set_solver.
Qed.

Lemma initial_rest manual :
  let ap := initial_approvers opts pr (k_files k) manual in
  ap_filenames ap = k_files k ∧ RequireIssue ap = ac_IssueRequired opts ∧ ManuallyApproved ap = manual.
Proof.
  unfold initial_approvers. destruct (HasSelfApproval opts); [|done].
  unfold AddAuthorSelfApprover, add_approval. by destruct (shouldNotOverrideApproval _ _ _).
Qed.

Lemma initial_keys manual : keys_ok (initial_approvers opts pr (k_files k) manual).
Proof.
  unfold initial_approvers. destruct (HasSelfApproval opts); [apply add_approval_keys|];
    apply map_Forall_empty.
Qed.

Lemma AddAssignees_all users ap :
  ap_approvers (foldl (λ ap user, AddAssignees [user] ap) ap users) = ap_approvers ap ∧
  same_rest ap (foldl (λ ap user, AddAssignees [user] ap) ap users).
Proof.
  revert ap. induction users as [|user users IH]; intros ap; [done|]. cbn [foldl].
  destruct (IH (AddAssignees [user] ap)) as [E R]. split; [by rewrite E|]. by eapply same_rest_trans.
Qed.

Lemma approvals_ok manual :
  (lgtm_apart → ∀ login, in_approvers (approvals manual) login ↔ says_yes login) ∧ keys_ok (approvals manual) ∧
  ap_filenames (approvals manual) = k_files k ∧ ManuallyApproved (approvals manual) = manual ∧
  RequireIssue (approvals manual) = ac_IssueRequired opts.
Proof.
  unfold approvals, final_approvers. fold heard.
  set (ap0 := initial_approvers opts pr (k_files k) manual).
  destruct (addApprovers_ok heard (st_author pr) (ConsiderReviewState opts) ap0) as (Hd & Hk & Hr).
  set (ap1 := addApprovers _ _ _ _) in *.
  destruct (AddAssignees_all (st_assignees pr) ap1) as [Ea Ra].
  set (ap2 := foldl _ _ _) in *. pose proof (same_rest_trans _ _ _ Hr Ra) as (Ef & _ & Ei & Em).
  split_and!.
  - intros Hapart login. rewrite says_yes_heard by done. unfold in_approvers. rewrite Ea. rewrite (Hd login).
    destruct (last_word _ _ _); [done|]. apply initial_ok.
  - unfold keys_ok. rewrite Ea. apply Hk, initial_keys.
  - rewrite Ef. apply (initial_rest manual).
  - rewrite Em. apply (initial_rest manual).
  - rewrite Ei. apply (initial_rest manual).
Qed.

(** Approval in terms of what people said. *)
Lemma IsApproved_enough manual :
  lgtm_apart → no_filters (k_owners k) → Forall clean_path (k_files k) →
  IsApproved (R := repo_of (k_owners k)) (approvals manual) = true ↔ manual = true ∨ enough manual.
Proof.
  intros Hapart Hnf Hclean. destruct (approvals_ok manual) as (Hin & Hk & Hf & Hm & Hi). specialize (Hin Hapart).
  pose proof (repo_of_laws _ Hnf) as Hlaws.
  assert (AreFilesApproved (R := repo_of (k_owners k)) (approvals manual) = true ↔
    Forall (λ file, ∃ approver,
      approver ∈ repo_Approvers (OwnersRepo := repo_of (k_owners k))
        (repo_FindApproverOwnersForFile (OwnersRepo := repo_of (k_owners k)) file) ∧
      says_yes (to_lower approver)) (k_files k)) as Hfiles.
  { rewrite AreFilesApproved_ok by by rewrite Hf. rewrite Hf, !Forall_forall.
    setoid_rewrite <- Hin. unfold in_approvers. split; intros Hall file Hfile;
      specialize (Hall file Hfile).
    - destruct Hall as (l & al & a & Hl & Ha & E). exists a. split; [done|].
      rewrite E, <- (Hk _ _ Hl). by eapply elem_of_dom_2.
    - destruct Hall as (a & Ha & [al Hl]%elem_of_dom). exists (to_lower a), al, a.
      split_and!; [done..|]. by apply (Hk _ _ Hl). }
  unfold enough. by rewrite <- Hfiles, IsApproved_parts, NoIssueApprovers_waived, Hm, Hi.
Qed.

(** The judgement: what the code computed, and what it means. *)
Definition judged (manual b : bool) : Prop :=
  IsApproved (R := repo_of (k_owners k)) (approvals manual) = b ∧
  (lgtm_apart → no_filters (k_owners k) → Forall clean_path (k_files k) →
     b = true ↔ manual = true ∨ enough manual).

Definition label_action (tr : list Call) (e : Call) : Prop :=
  let org := st_org pr in
  let repo := st_repo pr in
  let number := st_number pr in
  hand pr k false tr ∧
  ((e = AddLabel org repo number Approved ∧ Approved ∉ k_labels k ∧ judged false true) ∨
   (e = RemoveLabel org repo number Approved ∧ Approved ∈ k_labels k ∧ judged false false)).

(** The label is where it belongs, or was put there. *)
Definition labelled_right (tr : list Call) : Prop :=
  ∃ manual b, hand pr k manual tr ∧ judged manual b ∧
    if b then Approved ∈ k_labels k ∨ AddLabel (st_org pr) (st_repo pr) (st_number pr) Approved ∈ tr
    else Approved ∉ k_labels k ∨ RemoveLabel (st_org pr) (st_repo pr) (st_number pr) Approved ∈ tr.

Lemma judged_ok manual : judged manual (IsApproved (R := repo_of (k_owners k)) (approvals manual)).
Proof. split; [done|]. intros. by apply IsApproved_enough. Qed.

Variable just : list Call → Call → Prop.
Hypothesis just_label : ∀ tr e, facts pr k tr → label_action tr e → just tr e.
Notation allowed := (may_act just).

Lemma notify_ok P notifications ap :
  stable P → triple allowed P (notify gh Perm linkURL (k_owners k) pr notifications ap) (λ _, P).
Proof.
  intros HP. unfold notify. destruct (updateNotification _ _ _ _ _ _ _); [|by apply triple_ret].
  eapply (triple_bind _ _ _ _ (λ _, P)); [|intros ?; by apply triple_quiet_zero].
  induction notifications as [|notif notifications IH]; cbn [delete_notifications]; [by apply triple_ret|].
  eapply triple_bind; [by apply triple_quiet_zero|]. intros ?. exact IH.
Qed.

Lemma set_approved_ok manual :
  triple allowed (λ tr, facts pr k tr ∧ hand pr k manual tr)
    (set_approved gh (k_owners k) pr (bool_decide (Approved ∈ k_labels k)) (approvals manual))
    (λ _ tr, facts pr k tr ∧ labelled_right tr).
Proof.
  pose proof (judged_ok manual) as Hj. unfold set_approved.
  assert (IsApproved (R := repo_of (k_owners k)) (approvals manual) = false → manual = false) as Hno.
  { intros E. destruct manual; [|done]. destruct (approvals_ok true) as (_ & _ & _ & Hman & _).
    assert (IsApproved (R := repo_of (k_owners k)) (approvals true) = true); [|congruence].
    apply IsApproved_parts. by left. }
  destruct (IsApproved _) eqn:E; cbn [negb]; case_bool_decide as Hl; cbn [negb].
  - apply triple_ret. intros tr [? ?]. split; [done|]. exists manual, true. split_and!; [done..|]. by left.
  - destruct manual; [intros tr (_ & ? & _); done|]. apply triple_or_zero_ask.
    + intros tr [? ?] _. apply just_label; [done|]. split; [done|]. by left.
    + intros tr [? ?]. split; [by apply stable_facts|]. exists false, true.
      split_and!; [by apply stable_hand|done|]. right. apply elem_of_app. right. left.
  - rewrite (Hno eq_refl) in *. apply triple_or_zero_ask.
    + intros tr [? ?] _. apply just_label; [done|]. split; [done|]. by right.
    + intros tr [? ?]. split; [by apply stable_facts|]. exists false, false.
      split_and!; [by apply stable_hand|done|]. right. apply elem_of_app. right. left.
  - apply triple_ret. intros tr [? ?]. split; [done|]. exists manual, false. split_and!; [done..|]. by left.
Qed.
End pull.

(** A call for a pull request is justified by something the plugin knows then. *)
Definition approve_action (opts : Approve) (pr : state) (tr : list Call) (e : Call) : Prop :=
  ∃ k, facts pr k tr ∧ label_action opts pr k tr e.
Definition approve_done (opts : Approve) (pr : state) (tr : list Call) : Prop :=
  ∃ k, facts pr k tr ∧ labelled_right opts pr k tr.

Lemma humanAddedApproved_ok just P pr k :
  stable P →
  triple (may_act just) P
    (humanAddedApproved gh pr (k_bot k) (bool_decide (Approved ∈ k_labels k)))
    (λ manual tr, P tr ∧ hand pr k manual tr).
Proof.
  intros HP. unfold humanAddedApproved. case_bool_decide as Hl; cbn [negb].
  2: { apply triple_ret. intros tr ?. split; [done|]. by left. }
  eapply triple_bind; [by apply triple_question_zero|]. intros events. apply triple_ret.
  intros tr [? Ha]. split; [done|]. unfold hand. destruct Ha as [Ha|[-> Hf]]; [|by right; right].
  destruct (by_hand (k_bot k) events) eqn:E; [split; [done|]|right; left];
    (eapply answered_weaken; [exact Ha|by intros ? ->]).
Qed.

Lemma approve_handle_ok opts pr o just :
  (∀ tr e, approve_action opts pr tr e → just tr e) →
  triple (may_act just)
    (answered on_owners (LoadRepoOwners (st_org pr) (st_repo pr) (st_branch pr)) (λ x, x = o))
    (handle gh Perm linkURL o opts pr) (λ _, approve_done opts pr).
Proof.
  intros Hjust. unfold handle, fetchErr. set (org := st_org pr). set (repo := st_repo pr).
  set (number := st_number pr).
  eapply triple_bind; [apply triple_with_args, triple_question; [auto with prow|done]|]. intros files. cbn beta.
  eapply triple_bind; [apply triple_with_args, triple_question; [auto with prow|done]|]. intros labels. cbn beta.
  eapply triple_bind; [apply triple_with_args, triple_question; [auto with prow|done]|]. intros bot. cbn beta.
  eapply triple_bind; [apply triple_with_args, triple_question; [auto with prow|done]|]. intros ics. cbn beta.
  eapply triple_bind; [apply triple_with_args, triple_question; [auto 10 with prow|done]|]. intros rcs. cbn beta.
  eapply triple_bind; [apply triple_with_args, triple_question; [auto 10 with prow|done]|]. intros revs. cbn beta.
  set (k := mkKnowledge o files labels bot ics rcs revs).
  eapply triple_bind; [eapply triple_weaken; [apply (humanAddedApproved_ok _ _ pr k), (stable_facts pr k)|]|].
  { intros tr ((((((? & ?) & ?) & ?) & ?) & ?) & ?). by repeat split. }
  intros manual. cbn beta.
  eapply triple_bind; [apply (notify_ok pr k), stable_and; [apply stable_facts|apply stable_hand]|].
  intros ?. cbn beta. eapply triple_conseq; [apply (set_approved_ok opts pr k)|done|].
  - intros tr e Hf Ha. apply Hjust. by exists k.
  - intros u tr [? ?]. by exists k.
Qed.

(** *** Events *)

Inductive approve_event :=
| AComment (ce : GenericCommentEvent) | AReview (re : ReviewEvent) | APull (pre : PullRequestEvent).

Definition run_event (ev : approve_event) : H Call unit :=
  match ev with
  | AComment ce => handleGenericComment gh on_owners config Perm linkURL ce
  | AReview re => handleReview gh on_owners config Perm linkURL re
  | APull pre => handlePullRequest gh on_owners config Perm linkURL pre
  end.

(** The pull request of an event; a comment does not say the branch. *)
Definition subject (ev : approve_event) (branch : string) : state :=
  match ev with
  | AComment ce => mkState (gc_Org ce) (gc_Repo ce) branch (gc_Number ce) (gc_IssueBody ce)
      (gc_IssueAuthor ce) (gc_Assignees ce) (gc_IssueHTMLURL ce)
  | AReview re => pr_state (rv_Org re) (rv_Repo re) (gpr_Number (rv_PullRequest re)) (rv_PullRequest re)
  | APull pre => pr_state (pe_Org pre) (pe_Repo pre) (pe_Number pre) (pe_PullRequest pre)
  end.

Definition options (pr : state) : Approve := ApproveFor config (st_org pr) (st_repo pr).

Definition event_action (ev : approve_event) (tr : list Call) (e : Call) : Prop :=
  ∃ branch, approve_action (options (subject ev branch)) (subject ev branch) tr e.

(** The event is not about approval: not open, not a command, not a review state that
    counts, not one of the changes of a pull request that matter. *)
Definition irrelevant (ev : approve_event) (bot : string) : Prop :=
  let opts := options (subject ev "") in
  match ev with
  | AComment ce =>
      gc_Action ce ≠ GenericCommentActionCreated ∨ gc_IsPR ce = false ∨ gc_IssueState ce = "closed" ∨
      isApprovalCommand bot (ac_LgtmActsAsApprove opts) (mkComment (gc_Body ce) (gc_User ce) 0%Z "" 0%Z "") = false
  | AReview re =>
      (rv_Action re ≠ ReviewActionSubmitted ∧ rv_Action re ≠ ReviewActionDismissed) ∨
      isApprovalCommand bot (ac_LgtmActsAsApprove opts)
        (mkComment (rw_Body (rv_Review re)) (rw_User (rv_Review re)) 0%Z "" 0%Z "") = true ∨
      isApprovalState bot (ConsiderReviewState opts)
        (mkComment "" (rw_User (rv_Review re)) 0%Z "" 0%Z (rw_State (rv_Review re))) = false
  | APull pre =>
      pe_Action pre ∉ [PullRequestActionOpened; PullRequestActionReopened;
                       PullRequestActionSynchronize; PullRequestActionLabeled] ∨
      pe_Action pre = PullRequestActionLabeled ∧
        (pe_Label pre ≠ Approved ∨ pe_Sender pre = bot ∨ gpr_State (pe_PullRequest pre) = "closed")
  end.

Definition event_done (ev : approve_event) (tr : list Call) : Prop :=
  (∃ bot, irrelevant ev bot) ∨
  ∃ branch, approve_done (options (subject ev branch)) (subject ev branch) tr.

Lemma load_and_handle_ok ev branch P :
  stable P →
  triple (may_act (event_action ev)) P
    (let! o := ask on_owners (LoadRepoOwners (st_org (subject ev branch)) (st_repo (subject ev branch))
                                (st_branch (subject ev branch))) in
     handle gh Perm linkURL o (options (subject ev branch)) (subject ev branch))
    (λ _, event_done ev).
Proof.
  intros HP. eapply triple_bind; [by apply (triple_question P)|]. intros o. cbn beta.
  eapply triple_conseq; [apply approve_handle_ok|by intros tr [_ ?]|].
  - intros tr e Ha. by exists branch.
  - intros u tr Hd. right. by exists branch.
Qed.

Lemma run_event_ok ev : triple (may_act (event_action ev)) (λ _, True) (run_event ev) (λ _, event_done ev).
Proof.
  destruct ev as [ce|re|pre]; cbn [run_event].
  - unfold handleGenericComment. apply triple_if; intros Ei.
    { apply triple_ret. intros tr _. left. exists "". cbn.
      apply orb_true_iff in Ei as [[?%bool_decide_eq_true|?%negb_true_iff]%orb_true_iff|?%bool_decide_eq_true];
        auto. }
    eapply triple_bind; [by apply (triple_quiet (λ _, True))|]. intros bot. cbn beta.
    apply triple_if; intros Ec.
    { apply triple_ret. intros tr _. left. exists bot. cbn. apply negb_true_iff in Ec. auto. }
    eapply triple_bind; [by apply (triple_quiet (λ _, True))|]. intros pr. cbn beta.
    by apply (load_and_handle_ok (AComment ce) (gpr_BaseRef pr) (λ _, True)).
  - unfold handleReview. apply triple_if; intros Ei.
    { apply bool_decide_eq_true in Ei. apply triple_ret. intros tr _. left. exists "". by left. }
    eapply triple_bind; [by apply (triple_quiet (λ _, True))|]. intros bot. cbn beta.
    apply triple_if; intros Ec; [|apply triple_if; intros Es].
    { apply triple_ret. intros tr _. left. exists bot. cbn. auto. }
    { apply triple_ret. intros tr _. left. exists bot. cbn. apply negb_true_iff in Es. auto. }
    by apply (load_and_handle_ok (AReview re) "" (λ _, True)).
  - unfold handlePullRequest. apply triple_if; intros Ei.
    { apply bool_decide_eq_true in Ei. apply triple_ret. intros tr _. left. exists "". by left. }
    eapply triple_bind; [by apply (triple_quiet (λ _, True))|]. intros bot. cbn beta.
    apply triple_if; intros Ec.
    { apply bool_decide_eq_true in Ec. apply triple_ret. intros tr _. left. exists bot. by right. }
    by apply (load_and_handle_ok (APull pre) "" (λ _, True)).
Qed.

End approve_proofs.

(** ** Witnesses and examples *)

#[local] Existing Instance listing_order.

Definition w_said (user body : string) (at_ : Time) : IssueComment :=
  mkIssueComment at_ body user "url" at_ at_.
Definition w_perm : Z → nat → list nat := λ _ n, seq 0 n.
Definition w_link : string → string := λ path, "https://github.com/" +:+ path.
Definition w_approvals : ApproveConfiguration := mkApproveConfiguration [] false false.
Definition w_run (said : list IssueComment) (labels : list string) : list Call * option (result unit) :=
  run_event (w_github [] labels said) (λ _, Ok sample_owners) w_approvals w_perm w_link
    (AComment (w_comment "root" "/approve")) [].
Definition labels_changed (calls : list Call) : list string :=
  omap (λ c, match c with
             | AddLabel _ _ _ l => Some ("add " +:+ l)
             | RemoveLabel _ _ _ l => Some ("remove " +:+ l)
             | _ => None
             end) calls.

(** An approver's last word decides; others' words and other commands do not. *)
Example approve_runs :
  labels_changed (w_run [w_said "Root" "/approve no-issue" 1%Z] []).1 = ["add approved"] ∧
  labels_changed (w_run [w_said "root" "/approve" 1%Z; w_said "root" "/approve cancel" 2%Z] ["approved"]).1
    = ["remove approved"] ∧
  labels_changed (w_run [w_said "someone" "/approve" 1%Z; w_said "root" "/retest" 2%Z] []).1 = [].
Proof. split_and!; vm_compute; reflexivity. Qed.

Lemma addApprovers_spec_witness :
  "root" ∈ dom (ap_approvers (addApprovers (commentFromIssueComment <$>
    [w_said "Root" "/approve" 1%Z; w_said "ann" "/approve cancel" 2%Z]) "author" true (NewApprovers ["file"]))).
Proof. apply addApprovers_spec. vm_compute. reflexivity. Defined.


(** Where /lgtm does not count as approval, it still does after another command in
    the same comment: the comment is read because of one command, and then all its
    commands count. *)
Example cancelled_and_approved :
  ac_LgtmActsAsApprove (ApproveFor w_approvals "o" "r") = false ∧
  labels_changed (w_run [w_said "root" ("/approve cancel" +:+ newline +:+ "/lgtm") 1%Z] []).1 = ["add approved"] ∧
  labels_changed (w_run [w_said "root" "/lgtm" 1%Z] []).1 = [].
Proof. split_and!; vm_compute; reflexivity. Qed.
