(* ===== verification/BranchProtector.v ===== *)
(** * The branch protector (cmd/branchprotector)

    Brings the branch protection of GitHub in line with the configuration: for each
    branch the policy of [BranchProtection] is rendered as a request, which is sent
    if GitHub's protection is not what it asks for. *)

From S2P Require Import Prelude Api JobConfig BranchProtection GoText Handler Samples.
#[local] Open Scope go_scope.

(** ** GitHub's protection and requests (github/types.go) *)

(** Users by login, teams by slug. *)
Record github_Restrictions := mkGitHubRestrictions { gr_Users : list string; gr_Teams : list string }.
Record RequiredStatusChecks := mkRequiredStatusChecks { sc_Strict : bool; sc_Contexts : list string }.
Record RequiredPullRequestReviews := mkRequiredPullRequestReviews {
  pr_DismissalRestrictions : option github_Restrictions; pr_DismissStaleReviews : bool;
  pr_RequireCodeOwnerReviews : bool; pr_RequiredApprovingReviewCount : Z }.
Record github_BranchProtection := mkGitHubBranchProtection {
  gb_RequiredStatusChecks : option RequiredStatusChecks; gb_EnforceAdmins : bool;
  gb_RequiredPullRequestReviews : option RequiredPullRequestReviews;
  gb_Restrictions : option github_Restrictions }.

Record RestrictionsRequest := mkRestrictionsRequest {
  rr_Users : option (list string); rr_Teams : option (list string) }.
Record RequiredPullRequestReviewsRequest := mkRequiredPullRequestReviewsRequest {
  qr_DismissalRestrictions : RestrictionsRequest; qr_DismissStaleReviews : bool;
  qr_RequireCodeOwnerReviews : bool; qr_RequiredApprovingReviewCount : Z }.
Record BranchProtectionRequest := mkBranchProtectionRequest {
  bq_RequiredStatusChecks : option RequiredStatusChecks; bq_EnforceAdmins : option bool;
  bq_RequiredPullRequestReviews : option RequiredPullRequestReviewsRequest;
  bq_Restrictions : option RestrictionsRequest }.

(** ** Rendering a policy (request.go) *)

Definition makeAdmins (val : option bool) : option bool := Some (default false val).
Definition makeBool (val : option bool) : bool := default false val.

Definition makeChecks (cp : option ContextPolicy) : option RequiredStatusChecks :=
  (λ cp, mkRequiredStatusChecks (makeBool (cp_Strict cp))
           (set_list (set_of (default [] (cp_Contexts cp))))) <$> cp.

Definition make_restrictions (rp : Restrictions) : RestrictionsRequest :=
  mkRestrictionsRequest (Some (set_list (set_of (default [] (rs_Users rp)))))
    (Some (set_list (set_of (default [] (rs_Teams rp))))).
Definition makeRestrictions (rp : option Restrictions) : option RestrictionsRequest :=
  make_restrictions <$> rp.

(** Without a number of approvals, or with none, reviews are not required. *)
Definition makeReviews (rp : option ReviewPolicy) : option RequiredPullRequestReviewsRequest :=
  rp ← rp;
  approvals ← rv_Approvals rp;
  if bool_decide (approvals = 0%Z) then None
  else Some (mkRequiredPullRequestReviewsRequest
         (default (mkRestrictionsRequest None None) (makeRestrictions (rv_DismissalRestrictions rp)))
         (makeBool (rv_DismissStale rp)) (makeBool (rv_RequireOwners rp)) approvals).

Definition makeRequest (policy : Policy) : BranchProtectionRequest :=
  mkBranchProtectionRequest (makeChecks (p_RequiredStatusChecks policy)) (makeAdmins (p_Admins policy))
    (makeReviews (p_RequiredPullRequestReviews policy)) (makeRestrictions (p_Restrictions policy)).

(** ** Comparing with what GitHub has (protect.go) *)

Definition equalStringSlices (s1 s2 : option (list string)) : bool :=
  match s1, s2 with
  | None, None => true
  | Some l1, Some l2 => bool_decide (sort_strings l1 = sort_strings l2)
  | _, _ => false
  end.

Definition equalRequiredStatusChecks (state request : option RequiredStatusChecks) : bool :=
  match state, request with
  | None, None => true
  | Some state, Some request =>
      bool_decide (sc_Strict state = sc_Strict request) &&
      equalStringSlices (Some (sc_Contexts state)) (Some (sc_Contexts request))
  | _, _ => false
  end.

Definition equalAdminEnforcement (state : bool) (request : option bool) : bool :=
  match request with
  | None => negb state
  | Some request => bool_decide (state = request)
  end.

Definition equalRestrictions (state : option github_Restrictions) (request : option RestrictionsRequest)
    : bool :=
  match state, request with
  | None, None => true
  | None, Some request => bool_decide (rr_Users request = None) && bool_decide (rr_Teams request = None)
  | Some state, Some request =>
      equalStringSlices (Some (gr_Teams state)) (rr_Teams request) &&
      equalStringSlices (Some (NormLogin <$> gr_Users state))
        (Some (NormLogin <$> default [] (rr_Users request)))
  | Some _, None => false
  end.

Definition equalRequiredPullRequestReviews (state : option RequiredPullRequestReviews)
    (request : option RequiredPullRequestReviewsRequest) : bool :=
  match state, request with
  | None, None => true
  | Some state, Some request =>
      bool_decide (pr_DismissStaleReviews state = qr_DismissStaleReviews request) &&
      bool_decide (pr_RequireCodeOwnerReviews state = qr_RequireCodeOwnerReviews request) &&
      bool_decide (pr_RequiredApprovingReviewCount state = qr_RequiredApprovingReviewCount request) &&
      equalRestrictions (pr_DismissalRestrictions state) (Some (qr_DismissalRestrictions request))
  | _, _ => false
  end.

Definition equalBranchProtections (state : option github_BranchProtection)
    (request : option BranchProtectionRequest) : bool :=
  match state, request with
  | None, None => true
  | Some state, Some request =>
      equalRequiredStatusChecks (gb_RequiredStatusChecks state) (bq_RequiredStatusChecks request) &&
      equalAdminEnforcement (gb_EnforceAdmins state) (bq_EnforceAdmins request) &&
      equalRequiredPullRequestReviews (gb_RequiredPullRequestReviews state)
        (bq_RequiredPullRequestReviews request) &&
      equalRestrictions (gb_Restrictions state) (bq_Restrictions request)
  | _, _ => false
  end.

Definition validateRestrictions (org repo : string) (bp : option BranchProtectionRequest)
    (authorizedCollaborators authorizedTeams : list string) : list error :=
  let check (who : string) (wanted : option (list string)) (authorized : list string) :=
    match wanted with
    | None => []
    | Some wanted =>
        let unauthorized := set_of wanted ∖ set_of authorized in
        if bool_decide (unauthorized = ∅) then []
        else [Errorf ("the following " +:+ who +:+ " are not authorized for %s/%s: %s")
                [AStr org; AStr repo; AStrs (set_list unauthorized)]]
    end in
  match bp ≫= bq_Restrictions with
  | None => []
  | Some r => check "collaborators" (rr_Users r) authorizedCollaborators ++
              check "teams" (rr_Teams r) authorizedTeams
  end.

(** ** Calls *)

Record requirements := mkRequirements {
  rq_Org : string; rq_Repo : string; rq_Branch : string; rq_Request : option BranchProtectionRequest }.

(** [Update] is a value sent to the goroutine that updates GitHub. *)
Inductive ProtectorCall :=
| GetRepos (org : string)
| GetGitHubRepo (org repo : string)
| GetBranches (org repo : string) (onlyProtected : bool)
| ListCollaborators (org repo : string)
| ListRepoTeams (org repo : string)
| GetCurrentProtection (org repo branch : string)
| Update (u : requirements).

Record github_Repo := mkGitHubRepo { gh_Name : string; gh_Archived : bool; gh_Private : bool }.
Record github_Branch := mkGitHubBranch { gh_Branch : string; gh_Protected : bool }.
(** A collaborator's login and whether they may administrate or push. *)
Record Collaborator := mkCollaborator { cb_Login : string; cb_Admin : bool; cb_Push : bool }.
Record RepoTeam := mkRepoTeam { rt_Slug : string; rt_Permission : string }.

Record ProtectorGitHub := mkProtectorGitHub {
  on_repos : list ProtectorCall → result (list github_Repo);
  on_repo : list ProtectorCall → result github_Repo;
  on_branches : list ProtectorCall → result (list github_Branch);
  on_collaborators : list ProtectorCall → result (list Collaborator);
  on_teams : list ProtectorCall → result (list RepoTeam);
  (** [None] for a branch without protection *)
  on_protection : list ProtectorCall → result (option github_BranchProtection) }.

(** [SecurityForkNameRE]: words and dashes around "-ghsa-". *)
Definition word_or_dash (c : ascii) : bool :=
  let n := Ascii.nat_of_ascii c in
  bool_decide (48 ≤ n ≤ 57 ∨ 65 ≤ n ≤ 90 ∨ 97 ≤ n ≤ 122 ∨ n = 95 ∨ n = 45).
Fixpoint all_chars (f : ascii → bool) (s : string) : bool :=
  match s with EmptyString => true | String c s => f c && all_chars f s end.
Fixpoint init (s : string) : string :=
  match s with
  | EmptyString | String _ EmptyString => EmptyString
  | String c s => String c (init s)
  end.
Definition SecurityForkNameRE (name : string) : bool :=
  all_chars word_or_dash name &&
  match name with EmptyString => false | String _ rest => contains (init rest) "-ghsa-" end.

(** Repositories that cannot be protected. *)
Definition unprotectable (r : github_Repo) : bool :=
  gh_Archived r || (gh_Private r && SecurityForkNameRE (gh_Name r)).

Section protector.
Context `{GoRange} (gh : ProtectorGitHub) (bp : BranchProtection)
  (PresubmitsStatic : gmap string (list Presubmit)) (verifyRestrictions : bool).
(** [regexp.Compile] *)
Context (Compile : string → result Regexp).

Definition authorizedCollaborators (org repo : string) : H ProtectorCall (list string) :=
  let! collaborators := ask (on_collaborators gh) (ListCollaborators org repo) in
  hret ((λ c, NormLogin (cb_Login c)) <$> filter (λ c, cb_Admin c || cb_Push c = true) collaborators).

Definition RepoPush : string := "push".
Definition RepoAdmin : string := "admin".
Definition authorizedTeams (org repo : string) : H ProtectorCall (list string) :=
  let! teams := ask (on_teams gh) (ListRepoTeams org repo) in
  hret (rt_Slug <$> filter (λ t, rt_Permission t = RepoPush ∨ rt_Permission t = RepoAdmin) teams).

Definition authorized_lists (org repo : string) : H ProtectorCall (list string * list string) :=
  if verifyRestrictions then
    let! collaborators := authorizedCollaborators org repo in
    let! teams := authorizedTeams org repo in
    hret (collaborators, teams)
  else hret ([], []).

(** The request of a policy. *)
Definition request_of (policy : Policy) (protect : bool) : option BranchProtectionRequest :=
  if protect then Some (makeRequest policy) else None.

Definition UpdateBranch (orgName repo branchName : string) (branch : Policy) (protected : bool)
    (collaborators teams : list string) : H ProtectorCall unit :=
  let! policy := with_err "get policy: %v" (lift (GetPolicy bp orgName repo branchName branch
    (default [] (PresubmitsStatic !! (orgName +:+ "/" +:+ repo))))) in
  match policy ≫= (λ policy, (policy,.) <$> p_Protect policy) with
  | None => hret tt
  | Some (policy, protect) =>
      if negb protected && negb protect then hret tt else
      let req := request_of policy protect in
      let errs := if verifyRestrictions then validateRestrictions orgName repo req collaborators teams
                  else [] in
      if bool_decide (errs ≠ []) then
        herr (Errorf "invalid branch protection request: %s/%s=%s: %s"
                [AStr orgName; AStr repo; AStr branchName; AErrs errs])
      else
        let! currentBP := with_err "get current branch protection: %v"
          (ask (on_protection gh) (GetCurrentProtection orgName repo branchName)) in
        if equalBranchProtections currentBP req then hret tt
        else ask (λ _, Ok tt) (Update (mkRequirements orgName repo branchName req))
  end.

(** The branches that are not excluded, or named by the configuration; the second
    listing says which are protected. *)
Definition note_branches (repo : Repo) (excluded : string → bool)
    (branches : gmap string bool) (bs : list github_Branch) : gmap string bool :=
  foldl (λ branches b,
    if bool_decide (r_Branches repo !! gh_Branch b = None) && excluded (gh_Branch b) then branches
    else <[gh_Branch b := gh_Protected b]> branches) branches bs.

Definition list_branches (orgName repoName : string) (repo : Repo) (excluded : string → bool)
    : H ProtectorCall (gmap string bool) :=
  let list onlyProtected := with_err "list branches: %v"
    (ask (on_branches gh) (GetBranches orgName repoName onlyProtected)) in
  let! all := list false in
  let! only := list true in
  hret (note_branches repo excluded (note_branches repo excluded ∅ all) only).

Fixpoint update_branches (orgName repoName : string) (repo : Repo) (collaborators teams : list string)
    (branches : list (string * bool)) (errs : list error) : H ProtectorCall unit :=
  match branches with
  | [] => lift (NewAggregate errs)
  | (bn, protected) :: branches =>
      match GetBranch repo bn with
      | Err e => update_branches orgName repoName repo collaborators teams branches
                   (errs ++ [Errorf "get %s: %v" [AStr bn; AErr e]])
      | Ok branch =>
          let! r := attempt (UpdateBranch orgName repoName bn branch protected collaborators teams) in
          update_branches orgName repoName repo collaborators teams branches
            (errs ++ ((λ e, Errorf "update %s from protected=%t: %v"
                        [AStr bn; AStr (if protected : bool then "true" else "false"); AErr e]) <$> errs_of r))
      end
  end.

Definition exclusions (repo : Repo) : result (string → bool) :=
  match default [] (p_Exclude (r_Policy repo)) with
  | [] => Ok (λ _, false)
  | exclude => Compile (string_join "|" exclude)
  end.

Definition UpdateRepo (orgName repoName : string) (repo : Repo) : H ProtectorCall unit :=
  let! githubRepo := with_err "could not get repo to check for archival: %v"
    (ask (on_repo gh) (GetGitHubRepo orgName repoName)) in
  if unprotectable githubRepo then hret tt else
  let! excluded := lift (exclusions repo) in
  let! branches := list_branches orgName repoName repo excluded in
  let! (collaborators, teams) := authorized_lists orgName repoName in
  update_branches orgName repoName repo collaborators teams (map_range branches) [].

(** All repositories of an organization that says whether to protect, else those
    that are configured. *)
Definition org_repos (orgName : string) (org : Org) : H ProtectorCall (list string) :=
  match p_Protect (o_Policy org) with
  | Some _ =>
      let! rs := with_err "list repos: %v" (ask (on_repos gh) (GetRepos orgName)) in
      hret (gh_Name <$> filter (λ r, unprotectable r = false) rs)
  | None => hret (map_range (o_Repos org)).*1
  end.

Fixpoint update_repos (orgName : string) (org : Org) (repos : list string) (errs : list error)
    : H ProtectorCall unit :=
  match repos with
  | [] => lift (NewAggregate errs)
  | repoName :: repos =>
      let! r := attempt (UpdateRepo orgName repoName (GetRepo org repoName)) in
      update_repos orgName org repos
        (errs ++ ((λ e, Errorf "update %s: %v" [AStr repoName; AErr e]) <$> errs_of r))
  end.

(** The repositories that were gone through, and the outcome. *)
Definition UpdateOrg (orgName : string) (org : Org) : H ProtectorCall (list string * result unit) :=
  let! repos := attempt (org_repos orgName org) in
  match repos with
  | Err e => hret ([], Err e)
  | Ok repos => let! r := attempt (update_repos orgName org repos []) in hret (repos, r)
  end.

Fixpoint protect_orgs (orgs : list string) (completedRepos : gset string) (errors : list error)
    : H ProtectorCall (gset string * list error) :=
  match orgs with
  | [] => hret (completedRepos, errors)
  | orgName :: orgs =>
      let! (repos, r) := UpdateOrg orgName (GetOrg bp orgName) in
      protect_orgs orgs (completedRepos ∪ set_of ((λ r, orgName +:+ "/" +:+ r) <$> repos))
        (errors ++ ((λ e, Errorf "update %s: %v" [AStr orgName; AErr e]) <$> errs_of r))
  end.

(** Each key is gone through once, so that completing it needs no note. *)
Fixpoint protect_tested (repos : list string) (completedRepos : gset string) (errors : list error)
    : H ProtectorCall (list error) :=
  match repos with
  | [] => hret errors
  | repo :: repos =>
      if bool_decide (repo ∈ completedRepos) then protect_tested repos completedRepos errors
      else match split_char "/" repo with
           | [orgName; repoName] =>
               let! r := attempt (UpdateRepo orgName repoName (GetRepo (GetOrg bp orgName) repoName)) in
               protect_tested repos completedRepos
                 (errors ++ ((λ e, Errorf "update %s/%s: %v" [AStr orgName; AStr repoName; AErr e])
                               <$> errs_of r))
           | _ => protect_tested repos completedRepos
                    (errors ++ [Errorf "bad presubmit repo: %s" [AStr repo]])
           end
  end.

(** The errors it adds; those of the updates come from [configureBranches]. *)
Definition protect : H ProtectorCall (list error) :=
  let! (completedRepos, errors) := protect_orgs (map_range (bp_Orgs bp)).*1 ∅ [] in
  if bp_ProtectTested bp then protect_tested (map_range PresubmitsStatic).*1 completedRepos errors
  else hret errors.
End protector.

(** ** The goroutine that updates GitHub *)

Inductive BranchCall :=
| RemoveBranchProtection (org repo branch : string)
| UpdateBranchProtection (org repo branch : string) (config : BranchProtectionRequest).

Definition update_call (u : requirements) : BranchCall :=
  match rq_Request u with
  | None => RemoveBranchProtection (rq_Org u) (rq_Repo u) (rq_Branch u)
  | Some request => UpdateBranchProtection (rq_Org u) (rq_Repo u) (rq_Branch u) request
  end.

(** The message also prints the request. *)
Definition update_error (u : requirements) (e : error) : error :=
  let format := match rq_Request u with
    | None => "remove %s/%s=%s protection failed: %v"
    | Some _ => "update %s/%s=%s protection to %v failed: %v"
    end in
  Errorf format [AStr (rq_Org u); AStr (rq_Repo u); AStr (rq_Branch u); AErr e].

Fixpoint configureBranches (on_done : list BranchCall → result unit) (updates : list requirements)
    (errors : list error) : H BranchCall (list error) :=
  match updates with
  | [] => hret errors
  | u :: updates =>
      let! r := attempt (ask on_done (update_call u)) in
      configureBranches on_done updates (errors ++ (update_error u <$> errs_of r))
  end.

(** ** Comparison is agreement

    Order does not matter, nor the case of logins; and asking for nothing means what
    GitHub does by default. *)

Definition agree_restrictions (state : option github_Restrictions) (request : RestrictionsRequest) : Prop :=
  match state with
  | None => rr_Users request = None ∧ rr_Teams request = None
  | Some state => (∃ teams, rr_Teams request = Some teams ∧ gr_Teams state ≡ₚ teams) ∧
                  NormLogin <$> gr_Users state ≡ₚ NormLogin <$> default [] (rr_Users request)
  end.

Definition agree_reviews (state : RequiredPullRequestReviews) (request : RequiredPullRequestReviewsRequest)
    : Prop :=
  pr_DismissStaleReviews state = qr_DismissStaleReviews request ∧
  pr_RequireCodeOwnerReviews state = qr_RequireCodeOwnerReviews request ∧
  pr_RequiredApprovingReviewCount state = qr_RequiredApprovingReviewCount request ∧
  agree_restrictions (pr_DismissalRestrictions state) (qr_DismissalRestrictions request).

Definition agree_checks (state request : RequiredStatusChecks) : Prop :=
  sc_Strict state = sc_Strict request ∧ sc_Contexts state ≡ₚ sc_Contexts request.

(** Both there and related, or both not there. *)
Definition both {A B} (R : A → B → Prop) (a : option A) (b : option B) : Prop :=
  match a, b with Some a, Some b => R a b | None, None => True | _, _ => False end.

Definition agree (state : github_BranchProtection) (request : BranchProtectionRequest) : Prop :=
  both agree_checks (gb_RequiredStatusChecks state) (bq_RequiredStatusChecks request) ∧
  gb_EnforceAdmins state = default false (bq_EnforceAdmins request) ∧
  both agree_reviews (gb_RequiredPullRequestReviews state) (bq_RequiredPullRequestReviews request) ∧
  match bq_Restrictions request with
  | Some r => agree_restrictions (gb_Restrictions state) r
  | None => gb_Restrictions state = None
  end.

Lemma equalStringSlices_Some l1 l2 : equalStringSlices (Some l1) (Some l2) = true ↔ l1 ≡ₚ l2.
Proof. cbn. by rewrite bool_decide_eq_true, sort_strings_eq. Qed.

Lemma equalRestrictions_ok state r :
  equalRestrictions state (Some r) = true ↔ agree_restrictions state r.
Proof.
  destruct state as [s|]; cbn [equalRestrictions agree_restrictions];
    rewrite andb_true_iff; [|by rewrite !bool_decide_eq_true].
  rewrite equalStringSlices_Some. destruct (rr_Teams r) as [teams|].
  - rewrite equalStringSlices_Some. naive_solver.
  - cbn [equalStringSlices]. naive_solver.
Qed.

Lemma equalReviews_ok s r : equalRequiredPullRequestReviews s r = true ↔ both agree_reviews s r.
Proof.
  destruct s as [s|], r as [r|]; cbn [equalRequiredPullRequestReviews both]; try done.
  rewrite !andb_true_iff, !bool_decide_eq_true, equalRestrictions_ok. unfold agree_reviews. tauto.
Qed.

Lemma equalChecks_ok s r : equalRequiredStatusChecks s r = true ↔ both agree_checks s r.
Proof.
  destruct s as [s|], r as [r|]; cbn [equalRequiredStatusChecks both]; try done.
  by rewrite andb_true_iff, bool_decide_eq_true, equalStringSlices_Some.
Qed.

Lemma equalAdmins_ok s r : equalAdminEnforcement s r = true ↔ s = default false r.
Proof. destruct r; cbn; [apply bool_decide_eq_true|by destruct s]. Qed.

Lemma equalBranchProtections_ok state request :
  equalBranchProtections state request = true ↔ both agree state request.
Proof.
  destruct state as [s|], request as [r|]; cbn [equalBranchProtections both]; try done.
  rewrite !andb_true_iff, equalChecks_ok, equalAdmins_ok, equalReviews_ok. unfold agree.
  destruct (bq_Restrictions r) as [rr|]; [rewrite equalRestrictions_ok; tauto|].
  destruct (gb_Restrictions s); cbn; naive_solver.
Qed.

(** ** What is updated *)

Section protector_proofs.
Context `{GoRange} (gh : ProtectorGitHub) (bp : BranchProtection)
  (PresubmitsStatic : gmap string (list Presubmit)) (verifyRestrictions : bool).
Context (Compile : string → result Regexp).

Definition is_update (e : ProtectorCall) : bool := match e with Update _ => true | _ => false end.

Definition config_of (org repo : string) : Repo := GetRepo (GetOrg bp org) repo.

(** The repositories to go through. *)
Definition in_scope (org repo : string) (tr : list ProtectorCall) : Prop :=
  (is_Some (bp_Orgs bp !! org) ∧
   if bool_decide (p_Protect (o_Policy (GetOrg bp org)) = None)
   then is_Some (o_Repos (GetOrg bp org) !! repo)
   else answered (on_repos gh) (GetRepos org)
          (λ rs, ∃ r, r ∈ rs ∧ gh_Name r = repo ∧ unprotectable r = false) tr) ∨
  (bp_ProtectTested bp = true ∧
   ∃ key, is_Some (PresubmitsStatic !! key) ∧ split_char "/" key = [org; repo]).

Section branch.
Variables (org repo : string).
Let rc := config_of org repo.

(** What the two listings say about a branch that is not excluded. *)
Definition listed_as (excluded : string → bool) (bs : list github_Branch) (bn : string) : option bool :=
  b ← last (filter (λ b, gh_Branch b = bn) bs);
  if bool_decide (r_Branches rc !! bn = None) && excluded bn then None else Some (gh_Protected b).

Lemma note_branches_ok excluded bs branches bn :
  note_branches rc excluded branches bs !! bn =
  match listed_as excluded bs bn with Some p => Some p | None => branches !! bn end.
Proof.
  revert branches. induction bs as [|b bs IH]; intros branches; [done|].
  unfold note_branches in *. cbn [foldl]. rewrite IH. clear IH. unfold listed_as. rewrite filter_cons.
  destruct (decide (gh_Branch b = bn)) as [<-|Hne].
  - rewrite last_cons. destruct (last (filter _ bs)) as [b'|]; cbn [mbind option_bind].
    + destruct (_ && _) eqn:E; [|done]. done.
    + destruct (_ && _) eqn:E; [done|]. by rewrite lookup_insert_eq.
  - destruct (last (filter _ bs)); cbn [mbind option_bind];
      (destruct (bool_decide (r_Branches rc !! gh_Branch b = None) && excluded (gh_Branch b));
       [done|by rewrite lookup_insert_ne]).
Qed.

Definition branch_listed (bn : string) (protected : bool) (tr : list ProtectorCall) : Prop :=
  ∃ excluded all only, exclusions Compile rc = Ok excluded ∧
    answered (on_branches gh) (GetBranches org repo false) (λ x, x = all) tr ∧
    answered (on_branches gh) (GetBranches org repo true) (λ x, x = only) tr ∧
    listed_as excluded (all ++ only) bn = Some protected.

Definition policy_for (bn : string) : result (option Policy) :=
  let? branch := GetBranch rc bn in
  GetPolicy bp org repo bn branch (default [] (PresubmitsStatic !! (org +:+ "/" +:+ repo))).

(** Who a request may name. *)
Definition authorized (req : option BranchProtectionRequest) (tr : list ProtectorCall) : Prop :=
  ∀ r, req ≫= bq_Restrictions = Some r →
  ∃ collaborators teams,
    answered (on_collaborators gh) (ListCollaborators org repo) (λ x, x = collaborators) tr ∧
    answered (on_teams gh) (ListRepoTeams org repo) (λ x, x = teams) tr ∧
    (∀ user, user ∈ default [] (rr_Users r) → ∃ c, c ∈ collaborators ∧
       NormLogin (cb_Login c) = user ∧ (cb_Admin c = true ∨ cb_Push c = true)) ∧
    (∀ team, team ∈ default [] (rr_Teams r) → ∃ t, t ∈ teams ∧
       rt_Slug t = team ∧ (rt_Permission t = RepoPush ∨ rt_Permission t = RepoAdmin)).

Definition current (ok : Prop → Prop) (bn : string) (req : option BranchProtectionRequest)
    (tr : list ProtectorCall) : Prop :=
  answered (on_protection gh) (GetCurrentProtection org repo bn) (λ cur, ok (both agree cur req)) tr.

Definition update_for (tr : list ProtectorCall) (u : requirements) : Prop :=
  ∃ bn protected policy protect,
    let req := request_of policy protect in
    u = mkRequirements org repo bn req ∧ in_scope org repo tr ∧
    answered (on_repo gh) (GetGitHubRepo org repo) (λ r, unprotectable r = false) tr ∧
    branch_listed bn protected tr ∧ policy_for bn = Ok (Some policy) ∧
    p_Protect policy = Some protect ∧ (protect = true ∨ protected = true) ∧
    (verifyRestrictions = true → authorized req tr) ∧ current not bn req tr.

(** A branch is as its policy wants, or will be. *)
Definition branch_done (bn : string) (protected : bool) (tr : list ProtectorCall) : Prop :=
  ∃ policy, policy_for bn = Ok policy ∧
  match policy ≫= (λ policy, (policy,.) <$> p_Protect policy) with
  | None => True
  | Some (policy, protect) =>
      let req := request_of policy protect in
      (protect = false ∧ protected = false) ∨ current id bn req tr ∨
      Update (mkRequirements org repo bn req) ∈ tr
  end.

Definition repo_done (tr : list ProtectorCall) : Prop :=
  answered (on_repo gh) (GetGitHubRepo org repo) (λ r, unprotectable r = true) tr ∨
  ∃ excluded all only, exclusions Compile rc = Ok excluded ∧
    answered (on_branches gh) (GetBranches org repo false) (λ x, x = all) tr ∧
    answered (on_branches gh) (GetBranches org repo true) (λ x, x = only) tr ∧
    ∀ bn protected, listed_as excluded (all ++ only) bn = Some protected → branch_done bn protected tr.
End branch.

Lemma listed_twice org repo excluded all only bn :
  note_branches (config_of org repo) excluded (note_branches (config_of org repo) excluded ∅ all) only !! bn
  = listed_as org repo excluded (all ++ only) bn.
Proof.
  rewrite !note_branches_ok, lookup_empty. unfold listed_as. rewrite filter_app, last_app.
  destruct (last (filter _ only)); cbn [mbind option_bind]; [|by destruct (last _); cbn; [destruct (_ && _)|]].
  destruct (_ && _); [|done]. by destruct (last _).
Qed.

Definition protector_action (tr : list ProtectorCall) (e : ProtectorCall) : Prop :=
  match e with Update u => ∃ org repo, update_for org repo tr u | _ => True end.
#[local] Notation allowed := (may is_update protector_action).

Lemma stable_branch_listed org repo bn protected : stable (branch_listed org repo bn protected).
Proof. unfold branch_listed. auto 20 with prow. Qed.
Lemma stable_authorized org repo req : stable (authorized org repo req).
Proof. unfold authorized. auto 20 with prow. Qed.
Lemma stable_in_scope org repo : stable (in_scope org repo).
Proof. unfold in_scope. case_bool_decide; auto 20 with prow. Qed.
Lemma stable_branch_done org repo bn protected : stable (branch_done org repo bn protected).
Proof.
  unfold branch_done, current. apply stable_ex. intros policy. apply stable_and; [apply stable_const|].
  destruct (policy ≫= _) as [[? ?]|]; auto 20 with prow.
Qed.
Lemma stable_repo_done org repo : stable (repo_done org repo).
Proof.
  unfold repo_done. pose proof (stable_branch_done org repo). auto 20 with prow.
Qed.

(** A set difference that is empty. *)
Lemma unauthorized_nil who wanted allowed_ org repo :
  match wanted with
  | None => []
  | Some wanted =>
      let unauthorized := set_of wanted ∖ set_of allowed_ in
      if bool_decide (unauthorized = ∅) then []
      else [Errorf ("the following " +:+ who +:+ " are not authorized for %s/%s: %s")
              [AStr org; AStr repo; AStrs (set_list unauthorized)]]
  end = [] →
  ∀ x, x ∈ default [] wanted → x ∈ allowed_.
Proof.
  destruct wanted as [wanted|]; cbn; [|by intros _ x ?%not_elem_of_nil].
  case_bool_decide as E; [|done]. intros _ x Hx.
  assert (x ∈ set_of wanted) as Hin by by apply elem_of_set_of.
  destruct (decide (x ∈ allowed_)) as [|Hn]; [done|].
  exfalso. apply (not_elem_of_empty (C := gset string) x). rewrite <- E.
  apply elem_of_difference. split; [done|]. by rewrite elem_of_set_of.
Qed.

Section one_branch.
Variables (org repo bn : string) (protected : bool) (collaborators teams : list string).
Let rc := config_of org repo.

(** What is known when a branch is looked at. *)
Definition known (tr : list ProtectorCall) : Prop :=
  in_scope org repo tr ∧
  answered (on_repo gh) (GetGitHubRepo org repo) (λ r, unprotectable r = false) tr ∧
  branch_listed org repo bn protected tr ∧
  (verifyRestrictions = true → ∃ cs ts,
     answered (on_collaborators gh) (ListCollaborators org repo) (λ x, x = cs) tr ∧
     answered (on_teams gh) (ListRepoTeams org repo) (λ x, x = ts) tr ∧
     collaborators = (λ c, NormLogin (cb_Login c)) <$> filter (λ c, cb_Admin c || cb_Push c = true) cs ∧
     teams = rt_Slug <$> filter (λ t, rt_Permission t = RepoPush ∨ rt_Permission t = RepoAdmin) ts).

Lemma stable_known : stable known.
Proof.
  unfold known. pose proof (stable_in_scope org repo). pose proof (stable_branch_listed org repo bn protected).
  auto 20 with prow.
Qed.

Lemma validate_authorized req tr :
  known tr → (if verifyRestrictions then validateRestrictions org repo req collaborators teams else []) = [] →
  verifyRestrictions = true → authorized org repo req tr.
Proof.
  intros (_ & _ & _ & Hk) Hv Hver. rewrite Hver in Hv.
  destruct (Hk Hver) as (cs & ts & Hc & Ht & -> & ->). intros r Hr.
  unfold validateRestrictions in Hv. rewrite Hr in Hv. cbv zeta beta in Hv.
  apply app_nil in Hv as [Hu Hteams]. exists cs, ts. split_and!; [done..| |].
  - intros user Hin. eapply unauthorized_nil in Hu; [|exact Hin].
    apply list_elem_of_fmap in Hu as (c & -> & [Hp Hc']%list_elem_of_filter).
    exists c. split_and!; [done..|]. by apply orb_true_iff.
  - intros team Hin. eapply unauthorized_nil in Hteams; [|exact Hin].
    apply list_elem_of_fmap in Hteams as (t & -> & [Hp Ht']%list_elem_of_filter). by exists t.
Qed.

Lemma UpdateBranch_ok branch :
  GetBranch rc bn = Ok branch →
  triple allowed known
    (UpdateBranch gh bp PresubmitsStatic verifyRestrictions org repo bn branch protected collaborators teams)
    (λ _ tr, known tr ∧ branch_done org repo bn protected tr).
Proof.
  intros Hb. unfold UpdateBranch.
  eapply (triple_bind _ _ _ _ (λ policy tr, policy_for org repo bn = Ok policy ∧ known tr)).
  { apply triple_with_err, triple_lift. intros policy tr Hp ?. split; [|done].
    unfold policy_for. fold rc. by rewrite Hb. }
  intros policy. apply triple_pure. intros Hpol.
  destruct (policy ≫= _) as [[p protect]|] eqn:Ep.
  2: { apply triple_ret. intros tr ?. split; [done|]. exists policy. by rewrite Ep. }
  assert (policy = Some p ∧ p_Protect p = Some protect) as [-> Hprot].
  { destruct policy as [q|]; [|done]. cbn in Ep. destruct (p_Protect q) eqn:E; [|done].
    by injection Ep as -> ->. }
  apply triple_if; intros Eu.
  { apply triple_ret. intros tr ?. split; [done|]. exists (Some p). rewrite Ep. split; [done|]. left.
    by apply andb_true_iff in Eu as [?%negb_true_iff ?%negb_true_iff]. }
  set (req := request_of p protect).
  apply triple_if; intros Ev; [apply triple_err|]. apply bool_decide_eq_false, dec_stable in Ev.
  eapply triple_bind; [apply triple_with_err, triple_question; [apply stable_known|done]|].
  intros cur. cbn beta. apply triple_if; intros Ec.
  - apply triple_ret. intros tr [Hk Ha]. split; [done|]. exists (Some p). rewrite Ep.
    split; [done|]. right. left. eapply answered_weaken; [exact Ha|]. intros ? ->.
    by apply equalBranchProtections_ok.
  - apply triple_ask.
    + intros tr [Hk Ha] _. exists org, repo. exists bn, protected, p, protect.
      pose proof Hk as (? & ? & ? & _). split_and!; [done..| | |].
      * apply andb_false_iff in Eu as [?%negb_false_iff|?%negb_false_iff]; [by right|by left].
      * by apply validate_authorized.
      * eapply answered_weaken; [exact Ha|]. intros ? -> Hag.
        apply equalBranchProtections_ok in Hag. fold req in Hag. congruence.
    + intros tr u [Hk _] _. split; [by apply stable_known|]. exists (Some p). rewrite Ep.
      split; [done|]. right. right. apply elem_of_app. right. left.
Qed.
End one_branch.

Section one_repo.
Variables (org repo : string).
Let rc := config_of org repo.

Definition repo_known (excluded : string → bool) (all only : list github_Branch)
    (collaborators teams : list string) (tr : list ProtectorCall) : Prop :=
  in_scope org repo tr ∧
  answered (on_repo gh) (GetGitHubRepo org repo) (λ r, unprotectable r = false) tr ∧
  (exclusions Compile rc = Ok excluded ∧
   answered (on_branches gh) (GetBranches org repo false) (λ x, x = all) tr ∧
   answered (on_branches gh) (GetBranches org repo true) (λ x, x = only) tr) ∧
  (verifyRestrictions = true → ∃ cs ts,
     answered (on_collaborators gh) (ListCollaborators org repo) (λ x, x = cs) tr ∧
     answered (on_teams gh) (ListRepoTeams org repo) (λ x, x = ts) tr ∧
     collaborators = (λ c, NormLogin (cb_Login c)) <$> filter (λ c, cb_Admin c || cb_Push c = true) cs ∧
     teams = rt_Slug <$> filter (λ t, rt_Permission t = RepoPush ∨ rt_Permission t = RepoAdmin) ts).

Lemma stable_repo_known excluded all only cs ts : stable (repo_known excluded all only cs ts).
Proof. unfold repo_known. pose proof (stable_in_scope org repo). auto 20 with prow. Qed.

Lemma repo_known_branch excluded all only cs ts bn protected tr :
  repo_known excluded all only cs ts tr → listed_as org repo excluded (all ++ only) bn = Some protected →
  known org repo bn protected cs ts tr.
Proof.
  intros (? & ? & (? & ? & ?) & ?) ?. split_and!; [done..| |done]. by exists excluded, all, only.
Qed.

Lemma update_branches_ok excluded all only cs ts l errs :
  (∀ bn p, (bn, p) ∈ l → listed_as org repo excluded (all ++ only) bn = Some p) →
  triple allowed (repo_known excluded all only cs ts)
    (update_branches gh bp PresubmitsStatic verifyRestrictions org repo rc cs ts l errs)
    (λ _ tr, errs = [] ∧ ∀ bn p, (bn, p) ∈ l → branch_done org repo bn p tr).
Proof.
  revert errs. induction l as [|[bn p] l IH]; intros errs Hl; cbn [update_branches].
  { apply triple_lift. intros [] tr He _. split; [by apply NewAggregate_Ok|]. by intros ? ? ?%not_elem_of_nil. }
  assert (∀ errs, triple allowed (repo_known excluded all only cs ts)
    (update_branches gh bp PresubmitsStatic verifyRestrictions org repo rc cs ts l errs)
    (λ _ tr, errs = [] ∧ ∀ bn p, (bn, p) ∈ l → branch_done org repo bn p tr)) as IH'
    by (intros es; apply IH; intros; apply Hl; by right).
  destruct (GetBranch rc bn) as [branch|e] eqn:Eb.
  2: { eapply triple_conseq; [apply IH'|done|]. intros u tr [Hnil _]. by destruct errs. }
  eapply triple_bind.
  { apply triple_attempt_result; [apply stable_repo_known|].
    eapply triple_weaken; [apply (UpdateBranch_ok org repo bn p cs ts branch Eb)|].
    intros tr Hk. eapply repo_known_branch; [exact Hk|]. apply Hl. left. }
  intros [u|e]; cbn beta iota.
  - cbn [errs_of fmap list_fmap]. rewrite app_nil_r.
    eapply triple_conseq; [apply (triple_frame _ (branch_done org repo bn p)); [apply stable_branch_done|apply IH']| |].
    + intros tr (? & _ & ?). done.
    + intros u' tr [Hd [? Hrest]]. split; [done|]. intros bn' p' [[= -> ->]|?]%elem_of_cons; auto.
  - eapply triple_conseq; [apply IH'|by intros tr [? _]|].
    intros u tr [Hnil _]. exfalso. by destruct errs.
Qed.

Lemma authorized_lists_ok P :
  stable P →
  triple allowed P
    (authorized_lists gh verifyRestrictions org repo)
    (λ l tr, P tr ∧ (verifyRestrictions = true → ∃ cs ts,
       answered (on_collaborators gh) (ListCollaborators org repo) (λ x, x = cs) tr ∧
       answered (on_teams gh) (ListRepoTeams org repo) (λ x, x = ts) tr ∧
       l.1 = (λ c, NormLogin (cb_Login c)) <$> filter (λ c, cb_Admin c || cb_Push c = true) cs ∧
       l.2 = rt_Slug <$> filter (λ t, rt_Permission t = RepoPush ∨ rt_Permission t = RepoAdmin) ts)).
Proof.
  intros HP. unfold authorized_lists. destruct verifyRestrictions; [|by apply triple_ret].
  eapply (triple_bind _ _ _ _ (λ cs tr, P tr ∧ ∃ l,
    answered (on_collaborators gh) (ListCollaborators org repo) (λ x, x = l) tr ∧
    cs = (λ c, NormLogin (cb_Login c)) <$> filter (λ c, cb_Admin c || cb_Push c = true) l)).
  { unfold authorizedCollaborators. eapply triple_bind; [by apply (triple_question P)|].
    intros l. apply triple_ret. intros tr [? ?]. split; [done|]. by exists l. }
  intros cs. eapply (triple_bind _ _ _ _ (λ ts tr, (P tr ∧ ∃ l,
    answered (on_collaborators gh) (ListCollaborators org repo) (λ x, x = l) tr ∧
    cs = (λ c, NormLogin (cb_Login c)) <$> filter (λ c, cb_Admin c || cb_Push c = true) l) ∧ ∃ l,
    answered (on_teams gh) (ListRepoTeams org repo) (λ x, x = l) tr ∧
    ts = rt_Slug <$> filter (λ t, rt_Permission t = RepoPush ∨ rt_Permission t = RepoAdmin) l)).
  { unfold authorizedTeams. eapply triple_bind; [apply triple_question; [auto 10 with prow|done]|].
    intros l. apply triple_ret. intros tr [? ?]. split; [done|]. by exists l. }
  intros ts. apply triple_ret. intros tr ((? & l1 & ? & ?) & l2 & ? & ?). split; [done|].
  intros _. by exists l1, l2.
Qed.

Lemma UpdateRepo_ok :
  triple allowed (in_scope org repo)
    (UpdateRepo gh bp PresubmitsStatic verifyRestrictions Compile org repo rc)
    (λ _, repo_done org repo).
Proof.
  unfold UpdateRepo.
  eapply triple_bind; [apply triple_with_err, triple_question; [apply stable_in_scope|done]|].
  intros r. cbn beta. apply triple_if; intros Er.
  { apply triple_ret. intros tr [_ Ha]. left. eapply answered_weaken; [exact Ha|]. by intros ? ->. }
  eapply (triple_bind _ _ _ _ (λ excluded tr, exclusions Compile rc = Ok excluded ∧ in_scope org repo tr ∧
    answered (on_repo gh) (GetGitHubRepo org repo) (λ r, unprotectable r = false) tr)).
  { apply triple_lift. intros excluded tr He [? Ha]. split_and!; [done..|].
    eapply answered_weaken; [exact Ha|]. by intros ? ->. }
  intros excluded. apply triple_pure. intros Hex.
  pose proof (stable_in_scope org repo) as Hsc.
  eapply (triple_bind _ _ _ _ (λ branches tr, ∃ all only,
    branches = note_branches rc excluded (note_branches rc excluded ∅ all) only ∧
    in_scope org repo tr ∧
    answered (on_repo gh) (GetGitHubRepo org repo) (λ r, unprotectable r = false) tr ∧
    answered (on_branches gh) (GetBranches org repo false) (λ x, x = all) tr ∧
    answered (on_branches gh) (GetBranches org repo true) (λ x, x = only) tr)).
  { unfold list_branches.
    eapply triple_bind; [apply triple_with_err, triple_question; [auto with prow|done]|]. intros all. cbn beta.
    eapply triple_bind; [apply triple_with_err, triple_question; [auto 10 with prow|done]|]. intros only. cbn beta.
    apply triple_ret. intros tr (((? & ?) & ?) & ?). by exists all, only. }
  intros branches. apply triple_exists. intros all. apply triple_exists. intros only.
  apply triple_pure. intros ->.
  eapply triple_bind; [apply authorized_lists_ok; auto 10 with prow|]. intros [cs ts]. cbn [fst snd].
  eapply triple_conseq.
  - apply (triple_frame _ (λ tr, exclusions Compile rc = Ok excluded ∧
      answered (on_branches gh) (GetBranches org repo false) (λ x, x = all) tr ∧
      answered (on_branches gh) (GetBranches org repo true) (λ x, x = only) tr)).
    { auto 10 with prow. }
    apply (update_branches_ok excluded all only cs ts).
    intros bn p Hin%elem_of_map_range. by rewrite <- listed_twice.
  - intros tr ((? & ? & ? & ?) & ?). split_and!; done.
  - intros u tr ((He & Ha & Ho) & _ & Hdone). right. exists excluded, all, only. split_and!; [done..|].
    intros bn p Hin. apply Hdone, elem_of_map_range. unfold rc. by rewrite listed_twice.
Qed.
End one_repo.

(** *** All repositories *)

(** The repositories gone through are done, if that made no error. *)
Definition all_done (org : string) (repos : list string) (tr : list ProtectorCall) : Prop :=
  ∀ repo, repo ∈ repos → repo_done org repo tr.

Lemma stable_all_done org repos : stable (all_done org repos).
Proof. unfold all_done. pose proof stable_repo_done. auto 10 with prow. Qed.

Lemma update_repos_ok org repos errs :
  triple allowed (λ tr, ∀ repo, repo ∈ repos → in_scope org repo tr)
    (update_repos gh bp PresubmitsStatic verifyRestrictions Compile org (GetOrg bp org) repos errs)
    (λ _ tr, errs = [] ∧ all_done org repos tr).
Proof.
  revert errs. induction repos as [|repo repos IH]; intros errs; cbn [update_repos].
  { apply triple_lift. intros [] tr He _. split; [by apply NewAggregate_Ok|]. by intros ? ?%not_elem_of_nil. }
  pose proof stable_in_scope as Hsc.
  eapply triple_bind.
  { apply triple_attempt_result; [auto with prow|].
    eapply triple_weaken; [apply (UpdateRepo_ok org repo)|]. intros tr Hin. apply Hin. left. }
  intros [u|e]; cbn beta iota.
  - cbn [errs_of fmap list_fmap]. rewrite app_nil_r. eapply triple_conseq.
    + apply (triple_frame _ (repo_done org repo)); [apply stable_repo_done|apply IH].
    + intros tr [Hin ?]. split; [done|]. intros ? ?. apply Hin. by right.
    + intros u' tr [Hd [? Hrest]]. split; [done|]. intros r [->|?]%elem_of_cons; auto.
  - eapply triple_conseq; [apply IH|intros tr [Hin _] r ?; apply Hin; by right|].
    intros u tr [Hnil _]. exfalso. by destruct errs.
Qed.

(** What an organization's repositories are. *)
Definition org_done (org : string) (tr : list ProtectorCall) : Prop :=
  if bool_decide (p_Protect (o_Policy (GetOrg bp org)) = None)
  then ∀ repo, is_Some (o_Repos (GetOrg bp org) !! repo) → repo_done org repo tr
  else ∃ rs, answered (on_repos gh) (GetRepos org) (λ x, x = rs) tr ∧
       ∀ r, r ∈ rs → unprotectable r = false → repo_done org (gh_Name r) tr.

Lemma stable_org_done org : stable (org_done org).
Proof.
  unfold org_done. pose proof stable_repo_done. case_bool_decide; auto 20 with prow.
Qed.

Lemma map_range_keys {A} (m : gmap string A) k : k ∈ (map_range m).*1 ↔ is_Some (m !! k).
Proof.
  rewrite list_elem_of_fmap. split.
  - intros ([k' a] & -> & Hin%elem_of_map_range). by exists a.
  - intros [a Ha]. exists (k, a). by rewrite elem_of_map_range.
Qed.

Lemma UpdateOrg_ok org P :
  stable P → is_Some (bp_Orgs bp !! org) →
  triple allowed P (UpdateOrg gh bp PresubmitsStatic verifyRestrictions Compile org (GetOrg bp org))
    (λ r tr, P tr ∧ (r.2 = Ok tt → org_done org tr ∧ all_done org r.1 tr)).
Proof.
  intros HP Horg. unfold UpdateOrg. pose proof stable_in_scope as Hsc.
  eapply triple_bind.
  { apply triple_attempt_result; [exact HP|].
    instantiate (1 := λ repos tr, (∀ repo, repo ∈ repos → in_scope org repo tr) ∧
      ∀ tr', all_done org repos (tr ++ tr') → org_done org (tr ++ tr')).
    unfold org_repos, in_scope, org_done.
    destruct (p_Protect (o_Policy (GetOrg bp org))) as [b|] eqn:Ep.
    - rewrite bool_decide_eq_false_2 by done.
      eapply triple_bind; [apply triple_with_err, (triple_question P); done|]. intros rs. cbn beta.
      apply triple_ret. intros tr [_ Ha]. split.
      + intros repo (r & -> & [Hr Hin]%list_elem_of_filter)%list_elem_of_fmap. left. split; [done|].
        eapply answered_weaken; [exact Ha|]. intros ? ->. by exists r.
      + intros tr' Hall. exists rs. split; [by apply stable_answered|]. intros r Hr Hun.
        apply Hall, list_elem_of_fmap. exists r. split; [done|]. by apply list_elem_of_filter.
    - rewrite bool_decide_eq_true_2 by done. apply triple_ret. intros tr _. split.
      + intros repo Hin%map_range_keys. by left.
      + intros tr' Hall repo Hr. by apply Hall, map_range_keys. }
  intros [repos|e]; cbn beta iota; [|by apply triple_ret; intros tr [? _]].
  apply (triple_weaken _ _ (λ tr, P tr ∧ (∀ tr', all_done org repos (tr ++ tr') → org_done org (tr ++ tr')) ∧
    ∀ repo, repo ∈ repos → in_scope org repo tr)); [|by intros tr (? & ? & ?)].
  eapply (triple_bind _ _ _ _ (λ r tr, P tr ∧ (r = Ok tt → org_done org tr ∧ all_done org repos tr))).
  - intros tr (Htr & Horgd & Hin).
    destruct (triple_attempt_result _ (λ tr, ∀ repo, repo ∈ repos → in_scope org repo tr) _ _
      ltac:(auto with prow) (update_repos_ok org repos []) tr Hin) as (new & E & Hs & Hq).
    exists new. split_and!; [done..|]. intros a Ha. split; [by apply HP|]. intros ->.
    destruct (Hq _ Ha) as [_ [_ Hall]]. split; [by apply Horgd|done].
  - intros r. apply triple_ret. intros tr [? Hr]. split; [done|]. exact Hr.
Qed.

Definition completed_done (completedRepos : gset string) (tr : list ProtectorCall) : Prop :=
  ∀ key, key ∈ completedRepos → ∃ org repo, key = org +:+ "/" +:+ repo ∧ repo_done org repo tr.

Lemma protect_orgs_ok orgs completed errs :
  (∀ org, org ∈ orgs → is_Some (bp_Orgs bp !! org)) →
  triple allowed (λ tr, errs = [] → completed_done completed tr)
    (protect_orgs gh bp PresubmitsStatic verifyRestrictions Compile orgs completed errs)
    (λ r tr, r.2 = [] → errs = [] ∧ completed_done r.1 tr ∧ ∀ org, org ∈ orgs → org_done org tr).
Proof.
  revert completed errs. induction orgs as [|org orgs IH]; intros completed errs Horgs; cbn [protect_orgs].
  { apply triple_ret. intros tr Hc He. split_and!; [done|by apply Hc|]. by intros ? ?%not_elem_of_nil. }
  pose proof stable_repo_done as Hrd.
  eapply triple_bind.
  { apply UpdateOrg_ok; [|apply Horgs; left]. unfold completed_done. auto 10 with prow. }
  intros [repos r]. cbn [fst snd]. set (errs' := errs ++ _).
  assert (errs' = [] → errs = [] ∧ r = Ok tt) as Herrs.
  { unfold errs'. destruct r as [[]|e]; cbn; [by rewrite app_nil_r|]. intros Hnil. by destruct errs. }
  eapply triple_conseq.
  - apply (triple_frame _ (λ tr, errs' = [] → org_done org tr)).
    + pose proof (stable_org_done org). auto with prow.
    + apply IH. intros o Ho. apply Horgs. by right.
  - intros tr [Hc Hr]. split.
    + intros He. destruct (Herrs He) as [_ ->]. by apply Hr.
    + intros He. destruct (Herrs He) as [Hnil ->]. destruct (Hr eq_refl) as [_ Hall].
      intros key [Hk|Hk]%elem_of_union; [by apply (Hc Hnil)|].
      apply elem_of_set_of, list_elem_of_fmap in Hk as (repo & -> & Hin). exists org, repo.
      split; [done|]. by apply Hall.
  - intros [completed' errs''] tr [Horg Hrest] He. cbn [fst snd] in *.
    destruct (Hrest He) as (Hnil & Hc & Ho). split_and!; [by apply Herrs|done|].
    intros o [->|?]%elem_of_cons; auto.
Qed.

Definition key_done (tr : list ProtectorCall) (key : string) : Prop :=
  ∃ org repo, (split_char "/" key = [org; repo] ∨ key = org +:+ "/" +:+ repo) ∧ repo_done org repo tr.

Lemma stable_key_done key : stable (λ tr, key_done tr key).
Proof. unfold key_done. pose proof stable_repo_done. auto 10 with prow. Qed.

Lemma protect_tested_ok keys completed errs :
  bp_ProtectTested bp = true → (∀ key, key ∈ keys → is_Some (PresubmitsStatic !! key)) →
  triple allowed (λ tr, errs = [] → completed_done completed tr)
    (protect_tested gh bp PresubmitsStatic verifyRestrictions Compile keys completed errs)
    (λ r tr, r = [] → errs = [] ∧ ∀ key, key ∈ keys → key_done tr key).
Proof.
  intros Ht. revert errs. induction keys as [|key keys IH]; intros errs Hkeys; cbn [protect_tested].
  { apply triple_ret. intros tr _ ?. split; [done|]. by intros ? ?%not_elem_of_nil. }
  assert (∀ es, triple allowed (λ tr, es = [] → completed_done completed tr)
    (protect_tested gh bp PresubmitsStatic verifyRestrictions Compile keys completed es)
    (λ r tr, r = [] → es = [] ∧ ∀ key, key ∈ keys → key_done tr key)) as IH'
    by (intros es; apply IH; intros; apply Hkeys; by right).
  pose proof stable_repo_done as Hrd.
  case_bool_decide as Hin.
  { eapply triple_conseq; [apply (triple_frame _ (λ tr, errs = [] → key_done tr key));
      [pose proof (stable_key_done key); auto with prow|apply IH']| |].
    - intros tr Hc. split; [|done]. intros He. destruct (Hc He _ Hin) as (o & r & ? & ?).
      exists o, r. split; [by right|done].
    - intros r tr [Hk Hrest] Hr. destruct (Hrest Hr) as [He Hall]. split; [done|].
      intros k [->|?]%elem_of_cons; auto. }
  assert (∀ e, triple allowed (λ tr, errs = [] → completed_done completed tr)
    (protect_tested gh bp PresubmitsStatic verifyRestrictions Compile keys completed (errs ++ [e]))
    (λ r tr, r = [] → errs = [] ∧ ∀ k, k ∈ key :: keys → key_done tr k)) as Hbad.
  { intros e. eapply triple_conseq; [apply IH'|intros tr _ Hnil; by destruct errs|].
    intros r tr Hrest Hr. destruct (Hrest Hr) as [Hnil _]. by destruct errs. }
  destruct (split_char "/" key) as [|org [|repo [|? ?]]] eqn:Es; [apply Hbad..| |apply Hbad].
  eapply triple_bind.
  { apply (triple_attempt_result _ (λ tr, errs = [] → completed_done completed tr)).
    { unfold completed_done. auto 10 with prow. }
    eapply triple_weaken; [apply (UpdateRepo_ok org repo)|]. intros tr _. right. split; [done|].
    exists key. split; [|done]. apply Hkeys. left. }
  intros [u|e]; cbn beta iota; cbn [errs_of fmap list_fmap].
  - rewrite app_nil_r. eapply triple_conseq; [apply (triple_frame _ (λ tr, key_done tr key));
      [apply stable_key_done|apply IH']| |].
    + intros tr [Hc Hd]. split; [|done]. exists org, repo. split; [by left|done].
    + intros r tr [Hk Hrest] Hr. destruct (Hrest Hr) as [He Hall]. split; [done|].
      intros k [->|?]%elem_of_cons; auto.
  - eapply triple_weaken; [apply Hbad|]. by intros tr [? _].
Qed.

(** C11. Updates are sent only for branches of repositories in scope that are neither
    archived nor private forks for security, listed and not excluded, with the request
    of the branch's policy, restricted to people and teams that are authorized (where
    that is verified), and only if GitHub's protection does not agree with it.  If
    there are no errors, every branch of every repository in scope is as its policy
    wants, or its update was sent. *)
Theorem protect_spec :
  let '(calls, out) := protect gh bp PresubmitsStatic verifyRestrictions Compile [] in
  (∀ pre u post, calls = pre ++ Update u :: post → ∃ org repo, update_for org repo pre u) ∧
  (out = Some (Ok []) →
     (∀ org, is_Some (bp_Orgs bp !! org) → org_done org calls) ∧
     (bp_ProtectTested bp = true → ∀ key, is_Some (PresubmitsStatic !! key) → key_done calls key)).
Proof.
  assert (triple allowed (λ _, True) (protect gh bp PresubmitsStatic verifyRestrictions Compile)
    (λ errs tr, errs = [] → (∀ org, is_Some (bp_Orgs bp !! org) → org_done org tr) ∧
       (bp_ProtectTested bp = true → ∀ key, is_Some (PresubmitsStatic !! key) → key_done tr key))) as Hok.
  { unfold protect. eapply triple_bind.
    { eapply triple_weaken; [apply (protect_orgs_ok _ ∅ [])|by intros tr _ _ ? ?%not_elem_of_empty].
      intros org. apply map_range_keys. }
    intros [completed errs]. cbn [fst snd]. apply triple_if; intros Ht.
    - eapply triple_conseq.
      + apply (triple_frame _ (λ tr, errs = [] → ∀ org, org ∈ (map_range (bp_Orgs bp)).*1 → org_done org tr)).
        * pose proof stable_org_done. auto 10 with prow.
        * apply protect_tested_ok; [done|]. intros key. apply map_range_keys.
      + intros tr Hc. split; [|by intros He; apply Hc]. intros He. by apply Hc.
      + intros r tr [Ho Hk] Hr. destruct (Hk Hr) as [He Hall]. split.
        * intros org Horg. by apply (Ho He), map_range_keys.
        * intros _ key Hkey. by apply Hall, map_range_keys.
    - apply triple_ret. intros tr Hc He. split; [|congruence].
      intros org Horg. by apply (Hc He), map_range_keys. }
  destruct (Hok [] I) as (new & E & Hs & Hq).
  destruct (protect _ _ _ _ _ _) as [calls out]. cbn in *. subst calls. split.
  - intros pre u post Hn. by apply (Hs _ _ _ Hn).
  - intros ->. by apply (Hq []).
Qed.
End protector_proofs.

(** ** A witness and examples *)

#[local] Existing Instance listing_order.

Definition w_protected : Policy := mkPolicy (Some true) None None None None (Some ["tmp.*"]).
Definition w_orgs : BranchProtection :=
  mkBranchProtection w_protected true {["o" := mkOrg empty_policy ∅]} false false.
(** The repositories r and old; r has the branches master and tmp1. *)
Definition w_protector_gh (current : option github_BranchProtection) : ProtectorGitHub :=
  mkProtectorGitHub (λ _, Ok [mkGitHubRepo "r" false false; mkGitHubRepo "old" true false])
    (λ _, Ok (mkGitHubRepo "r" false false))
    (λ calls, match last calls with
              | Some (GetBranches _ _ false) => Ok [mkGitHubBranch "master" false; mkGitHubBranch "tmp1" false]
              | _ => Ok []
              end)
    (λ _, Ok [mkCollaborator "Bob" false true]) (λ _, Ok []) (λ _, Ok current).
Definition w_tested : gmap string (list Presubmit) := {["o/r" := [w_job "unit"]]}.
Definition w_Compile : string → result Regexp :=
  λ re, if bool_decide (re = "tmp.*") then Ok (has_prefix "tmp") else Err (errors_New "regexp").
Definition updates (calls : list ProtectorCall) : list requirements :=
  omap (λ c, match c with Update u => Some u | _ => None end) calls.
Definition w_protect (current : option github_BranchProtection) : list ProtectorCall * option (result (list error)) :=
  protect (w_protector_gh current) w_orgs w_tested false w_Compile [].

(** The branch master of r is protected with the context of the job that always runs;
    archived and excluded ones are left alone. *)
Example protect_run :
  updates (w_protect None).1 =
  [mkRequirements "o" "r" "master" (Some (mkBranchProtectionRequest
     (Some (mkRequiredStatusChecks false ["unit"])) (Some false) None None))].
Proof. vm_compute. reflexivity. Qed.

(** A second run has nothing to do. *)
Example protect_again :
  updates (w_protect (Some (mkGitHubBranchProtection
    (Some (mkRequiredStatusChecks false ["unit"])) false None None))).1 = [].
Proof. vm_compute. reflexivity. Qed.

Lemma protect_spec_witness :
  (w_protect None).2 = Some (Ok []) ∧
  org_done (w_protector_gh None) w_orgs w_tested w_Compile "o" (w_protect None).1.
Proof.
  pose proof (protect_spec (w_protector_gh None) w_orgs w_tested false w_Compile) as Hs.
  assert ((w_protect None).2 = Some (Ok [])) as Hout by (vm_compute; reflexivity).
  split; [exact Hout|]. unfold w_protect in *. destruct (protect _ _ _ _ _ _) as [calls out].
  cbn [fst snd] in *. destruct Hs as [_ Hs]. destruct (Hs Hout) as [Ho _]. apply Ho.
  exists (mkOrg empty_policy ∅). reflexivity.
Defined.

(** Users are compared with the authorized collaborators as written, although those
    are in lower case: a collaborator written as GitHub does is not authorized. *)
Example collaborator_case :
  (authorizedCollaborators (w_protector_gh None) "o" "r" []).2 = Some (Ok ["bob"]) ∧
  validateRestrictions "o" "r" (Some (makeRequest (mkPolicy (Some true) None None
    (Some (mkRestrictions (Some ["Bob"]) None)) None None))) ["bob"] [] ≠ [].
Proof. split; [vm_compute; reflexivity|]. vm_compute. discriminate. Qed.

(** A user who is named in two cases: no protection that names each user once agrees,
    so that the branch is updated by every run. *)
Example user_in_two_cases teams :
  ¬ agree_restrictions (Some (mkGitHubRestrictions ["Bob"] teams))
      (make_restrictions (mkRestrictions (Some ["Bob"; "bob"]) (Some teams))).
Proof. intros [_ Hp]. apply Permutation_length in Hp. revert Hp. vm_compute. discriminate. Qed.
