(* ===== verification/Sinker.v ===== *)
(** * Garbage collection (cmd/sinker/main.go)

    One cleaning: old finished ProwJobs are deleted first, then the pods of old
    finished ProwJobs and those that no ProwJob stands for.  A failing deletion
    is only counted, so the answers do not steer what follows. *)

From S2P Require Import Prelude Api JobConfig PjUtil.
#[local] Open Scope go_scope.

(** The part of a pod that is read; no start time is [None]. *)
Record sinker_pod := mkSinkerPod {
  po_Name : string; po_Labels : gmap string string; po_StartTime : option Time }.

Inductive event : Type :=
| EvDeleteProwJob (pj : ProwJob)
| EvDeletePod (client : nat) (pod : sinker_pod).

(** [isExist] and [isFinished] *)
Record job_sets := mkJobSets { js_exist : gset string; js_finished : gset string }.

Section sinker.
(** [Sinker.MaxProwJobAge], [Sinker.MaxPodAge], the configured periodics, and the
    clock. *)
Context (maxProwJobAge maxPodAge : Z) (periodics : list string) (now : list event → Time)
        (delete : list event → result unit).

(** [time.Since(start) > age] *)
Definition older (age start : Z) : M event bool :=
  t ← observe now; mret (bool_decide (age < t - start)%Z).

(** Deletes a finished job that is old enough. *)
Definition clean_finished (pj : ProwJob) : M event unit :=
  old ← older maxProwJobAge (st_StartTime (pj_Status pj));
  if old : bool then _ ← call delete (EvDeleteProwJob pj); mret tt else mret tt.

Definition add_finished (pj : ProwJob) (s : job_sets) : job_sets :=
  mkJobSets (js_exist s) ({[pj_Name pj]} ∪ js_finished s).
Definition add_exist (pj : ProwJob) (s : job_sets) : job_sets :=
  mkJobSets ({[pj_Name pj]} ∪ js_exist s) (js_finished s).

(** The first loop: all jobs exist; periodics are left for the second. *)
Fixpoint clean_jobs (pjs : list ProwJob) (s : job_sets) : M event job_sets :=
  match pjs with
  | [] => mret s
  | pj :: pjs =>
      let s := add_exist pj s in
      if bool_decide (spec_Type (pj_Spec pj) = PeriodicJob) then clean_jobs pjs s
      else if negb (Complete pj) then clean_jobs pjs s
      else _ ← clean_finished pj; clean_jobs pjs (add_finished pj s)
  end.

(** The last job of an active periodic stays, horologium reads it.  A job the map
    lacks has the name of the zero ProwJob. *)
Definition is_latest (latestPeriodics : gmap string ProwJob) (pj : ProwJob) : bool :=
  bool_decide (spec_Job (pj_Spec pj) ∈ periodics) &&
  bool_decide (pj_Name pj = from_option pj_Name "" (latestPeriodics !! spec_Job (pj_Spec pj))).

Fixpoint clean_periodics (latestPeriodics : gmap string ProwJob) (pjs : list ProwJob)
    (s : job_sets) : M event job_sets :=
  match pjs with
  | [] => mret s
  | pj :: pjs =>
      if bool_decide (spec_Type (pj_Spec pj) ≠ PeriodicJob)
      then clean_periodics latestPeriodics pjs s
      else if is_latest latestPeriodics pj then clean_periodics latestPeriodics pjs s
      else if negb (Complete pj) then clean_periodics latestPeriodics pjs s
      else _ ← clean_finished pj; clean_periodics latestPeriodics pjs (add_finished pj s)
  end.

(** The ProwJob a pod belongs to. *)
Definition podJobName (pod : sinker_pod) : string :=
  default (po_Name pod) (po_Labels pod !! ProwJobIDLabel).

Definition clean_pod (client : nat) (s : job_sets) (pod : sinker_pod) : M event unit :=
  old ← match po_StartTime pod with
        | Some t => if IsZero t then mret false else older maxPodAge t
        | None => mret false
        end;
  let name := podJobName pod in
  let clean := if bool_decide (name ∈ js_finished s) then old : bool else false in
  let clean := if bool_decide (name ∈ js_exist s) then clean else true in
  if clean then _ ← call delete (EvDeletePod client pod); mret tt else mret tt.

Fixpoint clean_pods (client : nat) (s : job_sets) (pods : list sinker_pod) : M event unit :=
  match pods with
  | [] => mret tt
  | pod :: pods => _ ← clean_pod client s pod; clean_pods client s pods
  end.

(** The build clusters; a failing list ends the cleaning. *)
Fixpoint clean_clusters (client : nat) (s : job_sets) (clusters : list (result (list sinker_pod)))
    : M event unit :=
  match clusters with
  | [] => mret tt
  | Err _ :: _ => mret tt
  | Ok pods :: clusters => _ ← clean_pods client s pods; clean_clusters (S client) s clusters
  end.

Definition clean (prowJobs : result (list ProwJob)) (clusters : list (result (list sinker_pod)))
    : M event unit :=
  match prowJobs with
  | Err _ => mret tt
  | Ok pjs =>
      s ← clean_jobs pjs (mkJobSets ∅ ∅);
      s ← clean_periodics (GetLatestProwJobs pjs PeriodicJob) pjs s;
      clean_clusters 0 s clusters
  end.
End sinker.

(** ** What is deleted *)

Section latest.
Variable ty : ProwJobType.

Definition start_of (pj : ProwJob) : Time := st_StartTime (pj_Status pj).

(** The map holds, per job of the type that was ever started, a latest run. *)
Record latest_ok (seen : list ProwJob) (latest : gmap string ProwJob) : Prop := {
  la_entry name l : latest !! name = Some l →
    l ∈ seen ∧ spec_Type (pj_Spec l) = ty ∧ spec_Job (pj_Spec l) = name;
  la_max j : j ∈ seen → spec_Type (pj_Spec j) = ty → (0 < start_of j)%Z →
    ∃ l, latest !! spec_Job (pj_Spec j) = Some l ∧ (start_of j ≤ start_of l)%Z }.

Lemma GetLatestProwJobs_ok pjs : latest_ok pjs (GetLatestProwJobs pjs ty).
Proof.
  unfold GetLatestProwJobs. apply (foldl_ind _ (λ latest seen, latest_ok seen latest)).
  { split; [done|]. by intros j ?%not_elem_of_nil. }
  intros latest seen j [He Hm]. unfold Before. fold (start_of j).
  assert (∀ x, x ∈ seen → x ∈ seen ++ [j]) as Hs by set_solver.
  case_bool_decide as Hj.
  { split; [naive_solver|].
    intros x [Hx| ->%list_elem_of_singleton]%elem_of_app; [by apply Hm|done]. }
  destruct (_ <? start_of j)%Z eqn:Eb; [apply Z.ltb_lt in Eb|apply Z.ltb_ge in Eb].
  - split.
    + intros name l [[<- <-]|[_ Hl]]%lookup_insert_Some; [set_solver|naive_solver].
    + intros x Hx Hty Hpos. destruct (decide (spec_Job (pj_Spec j) = spec_Job (pj_Spec x))) as [E|E].
      * exists j. rewrite E, lookup_insert_eq. split; [done|].
        apply elem_of_app in Hx as [Hx| ->%list_elem_of_singleton]; [|done].
        destruct (Hm x Hx Hty Hpos) as (l & Hl & ?). rewrite E, Hl in Eb. cbn in Eb.
        unfold start_of in *. lia.
      * rewrite lookup_insert_ne by done.
        apply elem_of_app in Hx as [Hx| ->%list_elem_of_singleton]; [by apply Hm|done].
  - split; [naive_solver|].
    intros x [Hx| ->%list_elem_of_singleton]%elem_of_app Hty Hpos; [by apply Hm|].
    destruct (latest !! spec_Job (pj_Spec j)) as [l|]; cbn in Eb; [by exists l|unfold start_of in *; lia].
Qed.
End latest.

Section clean_proofs.
Context (maxProwJobAge maxPodAge : Z) (periodics : list string) (now : list event → Time)
        (delete : list event → result unit).
Context (pjs : list ProwJob) (clusters : list (result (list sinker_pod))).

(** The run of an active periodic that horologium needs. *)
Definition kept (pj : ProwJob) : Prop :=
  spec_Type (pj_Spec pj) = PeriodicJob ∧
  is_latest periodics (GetLatestProwJobs pjs PeriodicJob) pj = true.

Definition job_finished (pj : ProwJob) : Prop := pj ∈ pjs ∧ Complete pj = true ∧ ¬ kept pj.

(** A pod may go: no ProwJob has its name, or a finished one has and it is old. *)
Definition pod_garbage (t : Time) (pod : sinker_pod) : Prop :=
  podJobName pod ∉ pj_Name <$> pjs ∨
  (∃ pj, job_finished pj ∧ pj_Name pj = podJobName pod) ∧
  ∃ start, po_StartTime pod = Some start ∧ start ≠ 0%Z ∧ (maxPodAge < t - start)%Z.

(** What is garbage at time [t]. *)
Definition garbage (t : Time) (e : event) : Prop :=
  match e with
  | EvDeleteProwJob pj => job_finished pj ∧ (maxProwJobAge < t - start_of pj)%Z
  | EvDeletePod client pod => ∃ pods, clusters !! client = Some (Ok pods) ∧
      Forall (λ c, is_ok c = true) (take client clusters) ∧ pod ∈ pods ∧ pod_garbage t pod
  end.

(** [m] deletes, among the events of [scope], nothing that is not garbage at [t1]
    and all that is at [t0]. *)
Definition sweeps {A} (t0 t1 : Time) (scope : event → Prop) (m : M event A) (Q : A → Prop) : Prop :=
  ∀ tr, ∃ new, (m tr).1 = tr ++ new ∧ Q (m tr).2 ∧
    Forall (λ e, scope e ∧ garbage t1 e) new ∧ ∀ e, scope e → garbage t0 e → e ∈ new.

Variables (t0 t1 : Time).
Hypothesis clock : ∀ tr, (t0 ≤ now tr ≤ t1)%Z.

Lemma sweeps_ret {A} (a : A) (scope : event → Prop) (Q : A → Prop) :
  Q a → (∀ e, scope e → ¬ garbage t0 e) → sweeps t0 t1 scope (mret a) Q.
Proof.
  intros HQ Hs tr. exists []. rewrite app_nil_r. split_and!; [done|done|constructor|].
  intros e He Hg. by destruct (Hs e He).
Qed.

Lemma sweeps_bind {A B} (m : M event A) (k : A → M event B) (s1 s2 scope : event → Prop) Q R :
  sweeps t0 t1 s1 m Q → (∀ a, Q a → sweeps t0 t1 s2 (k a) R) →
  (∀ e, scope e ↔ s1 e ∨ s2 e) → sweeps t0 t1 scope (m ≫= k) R.
Proof.
  intros Hm Hk Hs tr. rewrite bind_app.
  destruct (Hm tr) as (n1 & E1 & HQ & Hn1 & Hc1).
  destruct (Hk _ HQ (m tr).1) as (n2 & E2 & HR & Hn2 & Hc2).
  exists (n1 ++ n2). rewrite E2, E1, app_assoc. rewrite E1 in HR. rewrite E1 in E2.
  split_and!; [done|done| |].
  - apply Forall_app. split; (eapply Forall_impl; [eassumption|]); intros e [? ?];
      (split; [apply Hs; auto|done]).
  - intros e [?|?]%Hs ?; apply elem_of_app; auto.
Qed.

Lemma sweeps_mono {A} (m : M event A) (s1 s2 : event → Prop) (Q R : A → Prop) :
  sweeps t0 t1 s1 m Q → (∀ a, Q a → R a) → (∀ e, s1 e → s2 e) →
  (∀ e, s2 e → garbage t0 e → s1 e) → sweeps t0 t1 s2 m R.
Proof.
  intros Hm HQ H1 H2 tr. destruct (Hm tr) as (new & E & Hq & Hn & Hc). exists new.
  split_and!; [done|by apply HQ| |auto]. eapply Forall_impl; [exact Hn|]. intros e [? ?]. auto.
Qed.

(** A decision on the age, taken at some time in between. *)
Lemma sweeps_older age start (m : bool → M event unit) e :
  (garbage t0 e → (age < t0 - start)%Z) → ((age < t1 - start)%Z → garbage t1 e) →
  m false = mret tt → m true = (_ ← call delete e; mret tt) →
  sweeps t0 t1 (λ e', e' = e) (old ← older now age start; m old) (λ _, True).
Proof.
  intros H0 H1 Ef Et tr. unfold older. rewrite bind_app. run. cbn [fst snd]. specialize (clock tr).
  case_bool_decide as Hage.
  - rewrite Et. run. exists [e]. split_and!; [done|done| |set_solver].
    constructor; [|done]. split; [done|]. apply H1. lia.
  - rewrite Ef. run. exists []. rewrite app_nil_r. split_and!; [done..|]. intros e' -> Hg.
    specialize (H0 Hg). lia.
Qed.

Lemma sweeps_finished pj :
  job_finished pj →
  sweeps t0 t1 (λ e, e = EvDeleteProwJob pj) (clean_finished maxProwJobAge now delete pj) (λ _, True).
Proof.
  intros Hj. unfold clean_finished. fold (start_of pj).
  eapply (sweeps_older _ _ (λ old, if old : bool then _ ← call delete _; mret tt else mret tt));
    [by intros [_ ?]|done|done|done].
Qed.

Definition job_scope (sel : ProwJob → Prop) (l : list ProwJob) (e : event) : Prop :=
  ∃ pj, e = EvDeleteProwJob pj ∧ pj ∈ l ∧ sel pj.

Lemma job_scope_cons sel pj l e :
  job_scope sel (pj :: l) e ↔ (e = EvDeleteProwJob pj ∧ sel pj) ∨ job_scope sel l e.
Proof. unfold job_scope. setoid_rewrite elem_of_cons. naive_solver. Qed.

(** Skipping a job that is not in the scope, or is no garbage. *)
Lemma sweeps_skip {A} sel pj l (m : M event A) Q R :
  (sel pj → ¬ job_finished pj) → sweeps t0 t1 (job_scope sel l) m Q → (∀ a, Q a → R a) →
  sweeps t0 t1 (job_scope sel (pj :: l)) m R.
Proof.
  intros Hs Hm HQ. eapply sweeps_mono; [exact Hm|done| |].
  - intros e He. apply job_scope_cons. by right.
  - intros e [[-> Hsel]|?]%job_scope_cons Hg; [|done]. destruct Hg as [Hf _]. by destruct (Hs Hsel).
Qed.

Lemma sweeps_clean {A} sel pj l (m : M event A) Q :
  sel pj → job_finished pj → sweeps t0 t1 (job_scope sel l) m Q →
  sweeps t0 t1 (job_scope sel (pj :: l))
    (_ ← clean_finished maxProwJobAge now delete pj; m) Q.
Proof.
  intros Hs Hf Hm. eapply sweeps_bind; [by apply sweeps_finished|by intros|].
  intros e. cbn. rewrite job_scope_cons. naive_solver.
Qed.

(** The sets after a loop: names are added for jobs that satisfy [sel]. *)
Definition names (sel : ProwJob → bool) (l : list ProwJob) : gset string :=
  set_of (pj_Name <$> filter (λ pj, sel pj = true) l).

Lemma names_cons sel pj l :
  names sel (pj :: l) = (if sel pj then {[pj_Name pj]} else ∅) ∪ names sel l.
Proof.
  unfold names. rewrite filter_cons. destruct (sel pj); [rewrite decide_True by done|rewrite decide_False by done].
  - done.
  - set_solver.
Qed.

Definition is_periodic (pj : ProwJob) : bool := bool_decide (spec_Type (pj_Spec pj) = PeriodicJob).

Lemma clean_jobs_ok l s :
  l ⊆ pjs →
  sweeps t0 t1 (job_scope (λ pj, is_periodic pj = false) l)
    (clean_jobs maxProwJobAge now delete l s)
    (λ s', js_exist s' = js_exist s ∪ names (λ _, true) l ∧
           js_finished s' = js_finished s ∪ names (λ pj, negb (is_periodic pj) && Complete pj) l).
Proof.
  revert s. induction l as [|pj l IH]; intros s Hl; cbn [clean_jobs].
  { apply sweeps_ret; [|by intros e (? & _ & ?%not_elem_of_nil & _)].
    change (names _ []) with (∅ : gset string). split; set_solver. }
  change (bool_decide (spec_Type (pj_Spec pj) = PeriodicJob)) with (is_periodic pj).
  rewrite !names_cons. destruct (is_periodic pj) eqn:Ep.
  - eapply sweeps_skip; [|apply IH; set_solver|].
    + intros Hn. congruence.
    + cbn. intros a [-> ->]. split; set_solver.
  - apply bool_decide_eq_false in Ep as Et. destruct (Complete pj) eqn:Ec; cbn [negb andb].
    + eapply sweeps_mono; [apply sweeps_clean| |done|done].
      * done.
      * split_and!; [set_solver|done|]. by intros [? _].
      * apply IH. set_solver.
      * cbn. intros a [-> ->]. split; set_solver.
    + eapply sweeps_skip; [|apply IH; set_solver|].
      * intros _ (_ & Hc & _). congruence.
      * cbn. intros a [-> ->]. split; set_solver.
Qed.

Lemma clean_periodics_ok l s :
  l ⊆ pjs →
  sweeps t0 t1 (job_scope (λ pj, is_periodic pj = true) l)
    (clean_periodics maxProwJobAge periodics now delete (GetLatestProwJobs pjs PeriodicJob) l s)
    (λ s', js_exist s' = js_exist s ∧
           js_finished s' = js_finished s ∪ names (λ pj, is_periodic pj && Complete pj &&
             negb (is_latest periodics (GetLatestProwJobs pjs PeriodicJob) pj)) l).
Proof.
  revert s. induction l as [|pj l IH]; intros s Hl; cbn [clean_periodics].
  { apply sweeps_ret; [|by intros e (? & _ & ?%not_elem_of_nil & _)].
    change (names _ []) with (∅ : gset string). split; [done|set_solver]. }
  rewrite names_cons. destruct (is_periodic pj) eqn:Ep; cbn [andb].
  - pose proof Ep as Et. apply bool_decide_eq_true in Et. rewrite bool_decide_eq_false_2 by naive_solver.
    destruct (is_latest _ _ pj) eqn:El; cbn [negb]; [|destruct (Complete pj) eqn:Ec; cbn [negb andb]].
    + rewrite andb_false_r. eapply sweeps_skip; [|apply IH; set_solver|].
      * intros _ (_ & _ & Hk). by apply Hk.
      * cbn. intros a [-> ->]. split; [done|set_solver].
    + eapply sweeps_mono; [apply sweeps_clean| |done|done].
      * done.
      * split_and!; [set_solver|done|]. intros [_ Hk]. congruence.
      * apply IH. set_solver.
      * cbn. intros a [-> ->]. split; [done|set_solver].
    + eapply sweeps_skip; [|apply IH; set_solver|].
      * intros _ (_ & Hc & _). congruence.
      * cbn. intros a [-> ->]. split; [done|set_solver].
  - pose proof Ep as Et. apply bool_decide_eq_false in Et. rewrite bool_decide_eq_true_2 by done.
    eapply sweeps_skip; [|apply IH; set_solver|].
    + intros Hp. congruence.
    + cbn. intros a [-> ->]. split; [done|set_solver].
Qed.

(** The sets after both loops. *)
Definition sets_ok (s : job_sets) : Prop :=
  (∀ n, n ∈ js_exist s ↔ n ∈ pj_Name <$> pjs) ∧
  (∀ n, n ∈ js_finished s ↔ ∃ pj, job_finished pj ∧ pj_Name pj = n).

Lemma elem_of_names sel n : n ∈ names sel pjs ↔ ∃ pj, pj ∈ pjs ∧ sel pj = true ∧ pj_Name pj = n.
Proof.
  unfold names. rewrite elem_of_set_of, list_elem_of_fmap. setoid_rewrite list_elem_of_filter.
  naive_solver.
Qed.

Lemma clean_pod_ok client s pod pods :
  sets_ok s → clusters !! client = Some (Ok pods) →
  Forall (λ c, is_ok c = true) (take client clusters) → pod ∈ pods →
  sweeps t0 t1 (λ e, e = EvDeletePod client pod) (clean_pod maxPodAge now delete client s pod) (λ _, True).
Proof.
  intros [Hex Hfin] Hc Hok Hpod tr. unfold clean_pod. rewrite bind_app.
  assert (∃ old, (match po_StartTime pod with
        | Some t => if IsZero t then mret false else older now maxPodAge t
        | None => mret false
        end : M event bool) tr = (tr, old) ∧
      (old = true ↔ ∃ start, po_StartTime pod = Some start ∧ start ≠ 0%Z ∧
                             (maxPodAge < now tr - start)%Z)) as (old & -> & Hold).
  { unfold older, IsZero. destruct (po_StartTime pod) as [t|].
    - case_bool_decide as Hz; run; eexists; (split; [done|]); rewrite ?bool_decide_eq_true; naive_solver.
    - eexists. split; [done|]. naive_solver. }
  cbn [fst snd]. specialize (clock tr).
  assert (∀ t, garbage t (EvDeletePod client pod) ↔ pod_garbage t pod) as Hg.
  { intros t. cbn. split; [by intros (? & ? & _ & _ & ?)|intros ?; by exists pods]. }
  destruct (if bool_decide (podJobName pod ∈ js_exist s) then _ else true) eqn:Ed.
  - run. exists [EvDeletePod client pod]. split_and!; [done|done| |set_solver].
    constructor; [|done]. split; [done|]. apply Hg. case_bool_decide as He; [|left; by rewrite <-Hex].
    case_bool_decide as Hf; [|done]. right. split; [by apply Hfin|].
    apply Hold in Ed as (start & ? & ? & ?). exists start. split_and!; [done..|lia].
  - run. exists []. rewrite app_nil_r. split_and!; [done..|]. intros e -> Hga. exfalso.
    apply Hg in Hga as [Hn|[Hj (start & Hs & Hz & Hage)]].
    + case_bool_decide as He; [|done]. by rewrite <-Hex in Hn.
    + rewrite !bool_decide_eq_true_2 in Ed.
      * assert (old = true); [|congruence]. apply Hold. exists start. split_and!; [done..|lia].
      * by apply Hfin.
      * destruct Hj as (pj & [Hp _] & <-). apply Hex, list_elem_of_fmap. by exists pj.
Qed.

Lemma clean_pods_ok client s pods l :
  sets_ok s → clusters !! client = Some (Ok pods) →
  Forall (λ c, is_ok c = true) (take client clusters) → l ⊆ pods →
  sweeps t0 t1 (λ e, ∃ pod, e = EvDeletePod client pod ∧ pod ∈ l)
    (clean_pods maxPodAge now delete client s l) (λ _, True).
Proof.
  intros Hs Hc Hok. induction l as [|pod l IH]; intros Hl; cbn [clean_pods].
  { apply sweeps_ret; [done|]. by intros e (? & _ & ?%not_elem_of_nil). }
  eapply sweeps_bind; [apply (clean_pod_ok _ _ _ pods); [done..|set_solver]|intros; apply IH; set_solver|].
  intros e. setoid_rewrite elem_of_cons. naive_solver.
Qed.

Lemma clean_clusters_ok client s cs :
  sets_ok s → drop client clusters = cs → Forall (λ c, is_ok c = true) (take client clusters) →
  sweeps t0 t1 (λ e, ∃ i pod, e = EvDeletePod i pod ∧ client ≤ i)
    (clean_clusters maxPodAge now delete client s cs) (λ _, True).
Proof.
  intros Hs. revert client. induction cs as [|c cs IH]; intros client Hd Hok; cbn [clean_clusters].
  - apply sweeps_ret; [done|]. intros e (i & pod & -> & Hi) (pods & Hl & _).
    apply lookup_lt_Some in Hl. apply (f_equal length) in Hd. rewrite length_drop in Hd. cbn in Hd. lia.
  - assert (clusters !! client = Some c) as Hc.
    { rewrite <-(Nat.add_0_r client), <-lookup_drop, Hd. done. }
    destruct c as [pods|e].
    + eapply (sweeps_mono _ (λ e, (∃ pod, e = EvDeletePod client pod ∧ pod ∈ pods) ∨
                                  ∃ i pod, e = EvDeletePod i pod ∧ S client ≤ i)); [|done| |].
      * eapply sweeps_bind; [by apply (clean_pods_ok _ _ pods pods)|intros _ _; apply IH|done].
        -- replace (S client) with (client + 1) by lia. by rewrite <-drop_drop, Hd.
        -- rewrite (take_S_r _ _ _ Hc). apply Forall_app. split; [done|by repeat constructor].
      * intros e [(pod & -> & _)|(i & pod & -> & Hi)]; [by exists client, pod|].
        exists i, pod. split; [done|lia].
      * intros e (i & pod & -> & Hi) (pods' & Hl & _ & Hin & _).
        destruct (decide (i = client)) as [->|Hne]; [|right; exists i, pod; split; [done|lia]].
        left. exists pod. rewrite Hc in Hl. by injection Hl as ->.
    + apply sweeps_ret; [done|]. intros e' (i & pod & -> & Hi) (pods' & Hl & Hf & _).
      destruct (decide (i = client)) as [->|Hne]; [congruence|].
      rewrite Forall_forall in Hf. specialize (Hf (Err e)). cbn in Hf.
      discriminate Hf. apply list_elem_of_lookup. exists client. rewrite lookup_take_lt by lia. done.
Qed.

(** Everything a cleaning does. *)
Lemma clean_ok :
  sweeps t0 t1 (λ _, True) (clean maxProwJobAge maxPodAge periodics now delete (Ok pjs) clusters) (λ _, True).
Proof.
  unfold clean.
  eapply (sweeps_mono _ (λ e, job_scope (λ pj, is_periodic pj = false) pjs e ∨
    (job_scope (λ pj, is_periodic pj = true) pjs e ∨ ∃ i pod, e = EvDeletePod i pod ∧ 0 ≤ i)));
    [|done|done|].
  - eapply (sweeps_bind _ _ _ (λ e, job_scope (λ pj, is_periodic pj = true) pjs e ∨
      ∃ i pod, e = EvDeletePod i pod ∧ 0 ≤ i)); [by apply clean_jobs_ok| |done].
    cbn. intros s1 [He1 Hf1].
    eapply (sweeps_bind _ _ _ (λ e, ∃ i pod, e = EvDeletePod i pod ∧ 0 ≤ i));
      [by apply clean_periodics_ok| |done]. cbn. intros s2 [He2 Hf2].
    apply clean_clusters_ok; [|done|constructor]. split.
    + intros n. rewrite He2, He1, elem_of_union, elem_of_names, list_elem_of_fmap. split.
      * intros [?%not_elem_of_empty|(pj & ? & _ & <-)]; [done|by exists pj].
      * intros (pj & -> & ?). right. by exists pj.
    + intros n. rewrite Hf2, Hf1, !elem_of_union, !elem_of_names. unfold job_finished, kept. split.
      * intros [[?%not_elem_of_empty|(pj & Hin & Hs & <-)]|(pj & Hin & Hs & <-)]; [done| |].
        -- apply andb_true_iff in Hs as [Hp%negb_true_iff%bool_decide_eq_false Hc].
           exists pj. split_and!; [done|done| |done]. by intros [? _].
        -- apply andb_true_iff in Hs as [[Hp Hc]%andb_true_iff Hl%negb_true_iff].
           exists pj. split_and!; [done|done| |done]. intros [_ ?]. congruence.
      * intros (pj & (Hin & Hc & Hk) & <-). destruct (is_periodic pj) eqn:Ep.
        -- right. exists pj. split_and!; [done| |done]. rewrite Ep, Hc. cbn.
           destruct (is_latest _ _ pj) eqn:El; [|done]. destruct Hk.
           split; [by apply bool_decide_eq_true in Ep|done].
        -- left. right. exists pj. by rewrite Ep, Hc.
  - intros [pj|i pod] _ Hg; [|right; right; exists i, pod; split; [done|lia]].
    destruct Hg as [(Hin & _) _].
    destruct (is_periodic pj) eqn:Ep; [right; left|left]; by exists pj.
Qed.

(** C39. While the clock is between [t0] and [t1], a cleaning deletes only garbage:
    finished ProwJobs older than the limit, never a run that is kept for
    horologium, and pods that no ProwJob stands for or that are old and whose
    ProwJob is finished; and all that was garbage at [t0] is deleted, whether
    other deletions fail or not.  A kept run is a latest one: of every configured
    periodic that has run, some latest run stays. *)
Theorem clean_spec tr :
  let '(tr', _) := clean maxProwJobAge maxPodAge periodics now delete (Ok pjs) clusters tr in
  (∃ new, tr' = tr ++ new ∧ Forall (garbage t1) new ∧ (∀ e, garbage t0 e → e ∈ new) ∧
    ∀ pj, pj ∈ pjs → spec_Type (pj_Spec pj) = PeriodicJob → spec_Job (pj_Spec pj) ∈ periodics →
      (0 < start_of pj)%Z →
      ∃ l, l ∈ pjs ∧ spec_Job (pj_Spec l) = spec_Job (pj_Spec pj) ∧
           (start_of pj ≤ start_of l)%Z ∧ EvDeleteProwJob l ∉ new).
Proof.
  pose proof (clean_ok tr) as (new & E & _ & Hn & Hc).
  destruct (clean _ _ _ _ _ _ _ tr) as [tr' u]. cbn in E. subst tr'. exists new. split; [done|].
  assert (Forall (garbage t1) new) as Hg by (eapply Forall_impl; [exact Hn|by intros e [_ ?]]).
  split_and!; [done|auto|]. intros pj Hin Hty Hper Hpos.
  destruct (GetLatestProwJobs_ok PeriodicJob pjs) as [He Hm].
  destruct (Hm pj Hin Hty Hpos) as (l & Hl & Hle).
  destruct (He _ _ Hl) as (Hlin & Hlty & Hlj). exists l. split_and!; [done..|].
  intros Hdel. rewrite Forall_forall in Hg. destruct (Hg _ Hdel) as [(_ & _ & Hk) _].
  apply Hk. split; [done|]. unfold is_latest. rewrite Hlj, Hl. cbn.
  by rewrite !bool_decide_eq_true_2.
Qed.
End clean_proofs.

(** ** Witness: an old finished job, and a pod nobody owns *)

Definition sample_job (name : string) (start : Time) : ProwJob :=
  mkProwJob name "ns" ∅ ∅ start
    (mkProwJobSpec "presubmit" "kubernetes" "" "" "unit" None [] true "unit" "" 1 false None None
       None None None None false)
    (mkProwJobStatus start None (Some (start + 1)%Z) "success" "" "" "" "" "" None).
Definition sample_pods : list (result (list sinker_pod)) :=
  [Ok [mkSinkerPod "gone" ∅ None; mkSinkerPod "new" ∅ (Some 95%Z)]].

Lemma clean_spec_witness :
  (∀ tr : list event, (100 ≤ (λ _, 100) tr ≤ 100)%Z) ∧
  let '(tr', _) := clean 50 50 [] (λ _, 100%Z) (λ _, Ok tt)
    (Ok [sample_job "old" 10%Z; sample_job "new" 95%Z]) sample_pods [] in
  ∃ new, tr' = [] ++ new ∧
    Forall (garbage 50 50 [] [sample_job "old" 10%Z; sample_job "new" 95%Z] sample_pods 100%Z) new.
Proof.
  assert (∀ tr : list event, (100 ≤ (λ _ : list event, 100) tr ≤ 100)%Z) as H by (intros; lia).
  split; [exact H|].
  pose proof (clean_spec 50 50 [] (λ _, 100%Z) (λ _, Ok tt)
    [sample_job "old" 10%Z; sample_job "new" 95%Z] sample_pods 100%Z 100%Z H []) as Hs.
  destruct (clean _ _ _ _ _ _ _ _) as [tr' u]. destruct Hs as (new & E & Hg & _).
  exists new. split; [exact E|exact Hg].
Defined.

Example clean_run :
  (clean 50 50 [] (λ _, 100%Z) (λ _, Ok tt)
     (Ok [sample_job "old" 10%Z; sample_job "new" 95%Z]) sample_pods []).1
  = [EvDeleteProwJob (sample_job "old" 10%Z); EvDeletePod 0 (mkSinkerPod "gone" ∅ None)].
Proof. reflexivity. Qed.
