(* ===== verification/Horologium.v ===== *)
(** * Periodic jobs (cron/cron.go, cmd/horologium/main.go)

    [Cron] keeps an entry in a third-party scheduler per cron job and collects
    which ones fired; horologium starts due periodics once a minute.  The
    scheduler is its map of entries; it can launch the function of an entry at any
    time, and the function takes the lock at any later time. *)

From S2P Require Import Prelude Api JobConfig PjUtil Handler.
#[local] Open Scope go_scope.

Record jobStatus := mkJobStatus { cj_entryID : nat; cj_triggered : bool; cj_cronStr : string }.
Definition set_triggered (b : bool) (s : jobStatus) : jobStatus :=
  mkJobStatus (cj_entryID s) b (cj_cronStr s).

(** [cr_agent]: the name in the closure of each scheduled entry. *)
Record Cron := mkCron { cr_agent : gmap nat string; cr_jobs : gmap string jobStatus }.

Definition New : Cron := mkCron ∅ ∅.

Section cron.
Context `{GoRange}.
(** [AddFunc]: the error for a schedule it cannot parse, and the identifier of
    the new entry. *)
Context (parse : string → result unit) (new_id : gmap nat string → nat).

(** The closure of an entry; a name without status is a nil dereference. *)
Definition entry_func (name : string) (c : Cron) : may_panic Cron :=
  s ← cr_jobs c !! name;
  Some (mkCron (cr_agent c) (<[name := set_triggered true s]> (cr_jobs c))).

Definition QueuedJobs (c : Cron) : Cron * list string :=
  (mkCron (cr_agent c) (set_triggered false <$> cr_jobs c),
   (filter (λ kv : string * jobStatus, cj_triggered kv.2 = true) (map_range (cr_jobs c))).*1).

Definition HasJob (name : string) (c : Cron) : bool := bool_decide (is_Some (cr_jobs c !! name)).

(** The state after a call that may fail halfway, and the error. *)
Definition addJob (name cron : string) (c : Cron) : Cron * option error :=
  match parse ("TZ=UTC " +:+ cron) with
  | Err err => (c, Some (Errorf "cronAgent fails to add job %s with cron %s: %v"
                                [AStr name; AStr cron; AErr err]))
  | Ok _ =>
      let id := new_id (cr_agent c) in
      (mkCron (<[id := name]> (cr_agent c))
         (<[name := mkJobStatus id (has_prefix "@every" cron) cron]> (cr_jobs c)), None)
  end.

Definition removeJob (name : string) (c : Cron) : Cron * option error :=
  match cr_jobs c !! name with
  | None => (c, Some (Errorf "job %s has not been added to cronAgent yet" [AStr name]))
  | Some job => (mkCron (delete (cj_entryID job) (cr_agent c)) (delete name (cr_jobs c)), None)
  end.

Definition addPeriodic (p : Periodic) (c : Cron) : Cron * option error :=
  let name := jb_Name (pe_JobBase p) in
  if bool_decide (pe_Cron p = "") then (c, None)
  else
    match cr_jobs c !! name with
    | Some job =>
        if bool_decide (cj_cronStr job = pe_Cron p) then (c, None)
        else match removeJob name c with
             | (c, Some err) => (c, Some err)
             | (c, None) => addJob name (pe_Cron p) c
             end
    | None => addJob name (pe_Cron p) c
    end.

Fixpoint add_periodics (ps : list Periodic) (c : Cron) : Cron * option error :=
  match ps with
  | [] => (c, None)
  | p :: ps => match addPeriodic p c with
               | (c, Some err) => (c, Some err)
               | (c, None) => add_periodics ps c
               end
  end.

Fixpoint remove_jobs (names : list string) (c : Cron) : Cron * list error :=
  match names with
  | [] => (c, [])
  | name :: names =>
      let '(c, err) := removeJob name c in
      let '(c, errs) := remove_jobs names c in
      (c, option_list err ++ errs)
  end.

(** The first schedule that does not parse ends the sync of the configuration. *)
Definition SyncConfig (periodics : list Periodic) (c : Cron) : Cron * option error :=
  match add_periodics periodics c with
  | (c, Some err) => (c, Some err)
  | (c, None) =>
      let periodicNames := set_of ((λ p, jb_Name (pe_JobBase p)) <$> periodics) in
      let existing : gset string := dom (cr_jobs c) in
      match remove_jobs (set_list (existing ∖ periodicNames)) c with
      | (c, []) => (c, None)
      | (c, errs) => (c, Some (Errorf "%v" [AErrs errs]))
      end
  end.

(** ** Horologium *)

Context (IsValidLabelValue : string → bool).
(** The clock and fresh names of new ProwJobs, and what [Create] answers. *)
Context (now_pj : list ProwJob → Time) (new_name : list ProwJob → string)
        (create : list ProwJob → result unit).

Definition create_periodic (p : Periodic) : M ProwJob (option error) :=
  t ← observe now_pj;
  name ← observe new_name;
  r ← call create (NewProwJob IsValidLabelValue name t (PeriodicSpec p)
                     (jb_Labels (pe_JobBase p)) (jb_Annotations (pe_JobBase p)));
  mret (match r with Ok _ => None | Err e => Some e end).

(** A periodic is due: by its interval, or because its schedule fired; never
    while its latest run is unfinished. *)
Definition is_due (latestJobs : gmap string ProwJob) (cronTriggers : gset string) (now : Time)
    (p : Periodic) : bool :=
  let name := jb_Name (pe_JobBase p) in
  let previous := latestJobs !! name in
  if bool_decide (pe_Cron p = "") then
    match previous with
    | None => true
    | Some j => Complete j && bool_decide (pe_interval p < now - st_StartTime (pj_Status j))%Z
    end
  else if bool_decide (name ∈ cronTriggers) then
    match previous with None => true | Some j => Complete j end
  else false.

Fixpoint start_periodics (latestJobs : gmap string ProwJob) (cronTriggers : gset string)
    (now : Time) (ps : list Periodic) (errs : list error) : M ProwJob (list error) :=
  match ps with
  | [] => mret errs
  | p :: ps =>
      if is_due latestJobs cronTriggers now p then
        err ← create_periodic p;
        start_periodics latestJobs cronTriggers now ps (errs ++ option_list err)
      else start_periodics latestJobs cronTriggers now ps errs
  end.

(** The events of the trace are the ProwJobs handed to [Create]; no entry fires between
    [SyncConfig] and [QueuedJobs], each of which takes the lock. *)
Definition sync (jobs : result (list ProwJob)) (periodics : list Periodic) (now : Time)
    (c : Cron) : M ProwJob (Cron * option error) :=
  match wrap_err "error listing prow jobs: %v" jobs with
  | Err e => mret (c, Some e)
  | Ok items =>
      let latestJobs := GetLatestProwJobs items PeriodicJob in
      let '(c, _) := SyncConfig periodics c in
      let '(c, queued) := QueuedJobs c in
      errs ← start_periodics latestJobs (set_of queued) now periodics [];
      mret (c, match errs with
               | [] => None
               | _ => Some (Errorf "failed to create %d prowjobs: %v"
                              [AInt (Z.of_nat (length errs)); AErrs errs])
               end)
  end.
End cron.

(** ** The scheduler and the map of jobs agree *)

Section cron_proofs.
Context `{GoRange}.
Context (parse : string → result unit) (new_id : gmap nat string → nat).
(** The scheduler never hands out the identifier of an existing entry. *)
Hypothesis fresh : ∀ agent, agent !! new_id agent = None.

Definition schedulable (cron : string) : Prop := is_ok (parse ("TZ=UTC " +:+ cron)) = true.
Definition pe_Name (p : Periodic) : string := jb_Name (pe_JobBase p).

(** Each job has exactly one entry, which carries its name. *)
Record cron_ok (c : Cron) : Prop := {
  co_job name s : cr_jobs c !! name = Some s → cr_agent c !! cj_entryID s = Some name;
  co_entry id name : cr_agent c !! id = Some name →
    ∃ s, cr_jobs c !! name = Some s ∧ cj_entryID s = id }.

(** What matters of a job: its schedule and whether it fired. *)
Definition view (c : Cron) (name : string) : option (string * bool) :=
  (λ s, (cj_cronStr s, cj_triggered s)) <$> cr_jobs c !! name.

(** The view of a job after its schedule was configured as [cron]. *)
Definition wanted (cron : string) (old : option (string * bool)) : option (string * bool) :=
  if bool_decide (cron = "") then old
  else match old with
       | Some (cron', triggered) =>
           if bool_decide (cron' = cron) then Some (cron, triggered)
           else Some (cron, has_prefix "@every" cron)
       | None => Some (cron, has_prefix "@every" cron)
       end.

Lemma New_ok : cron_ok New.
Proof. split; intros *; cbn; by rewrite lookup_empty. Qed.

(** Two jobs never share an entry. *)
Lemma entry_inj c n1 n2 s1 s2 :
  cron_ok c → cr_jobs c !! n1 = Some s1 → cr_jobs c !! n2 = Some s2 →
  cj_entryID s1 = cj_entryID s2 → n1 = n2.
Proof. intros Hc H1%Hc H2%Hc E. congruence. Qed.

(** Changing flags keeps the agreement. *)
Lemma same_entries c jobs :
  (∀ n, cj_entryID <$> jobs !! n = cj_entryID <$> cr_jobs c !! n) →
  cron_ok c → cron_ok (mkCron (cr_agent c) jobs).
Proof.
  intros E [Hj He]. split; cbn.
  - intros n s Hs. specialize (E n). rewrite Hs in E. symmetry in E.
    apply fmap_Some in E as (s' & Hs' & ->). by apply Hj.
  - intros id n Hn. destruct (He _ _ Hn) as (s & Hs & <-). specialize (E n). rewrite Hs in E.
    apply fmap_Some in E as (s' & Hs' & ->). by exists s'.
Qed.

Lemma entry_func_ok name c c' : cron_ok c → entry_func name c = Some c' → cron_ok c'.
Proof.
  intros Hc. unfold entry_func. destruct (cr_jobs c !! name) as [s|] eqn:Hs; [|done]. intros [= <-].
  apply same_entries; [|done]. intros n. destruct (decide (n = name)) as [->|].
  - by rewrite lookup_insert_eq, Hs.
  - by rewrite lookup_insert_ne.
Qed.

Lemma entry_func_view name c c' n : entry_func name c = Some c' →
  view c' n = if bool_decide (n = name) then (λ v, (v.1, true)) <$> view c n else view c n.
Proof.
  unfold entry_func, view. destruct (cr_jobs c !! name) as [s|] eqn:Hs; [|done]. intros [= <-]. cbn.
  case_bool_decide as Hn; [subst n; by rewrite lookup_insert_eq, Hs|by rewrite lookup_insert_ne].
Qed.

Lemma entry_func_panics name c : entry_func name c = None ↔ view c name = None.
Proof. unfold entry_func, view. by destruct (cr_jobs c !! name). Qed.

Lemma QueuedJobs_ok c : cron_ok c → cron_ok (QueuedJobs c).1.
Proof.
  intros Hc. apply same_entries; [|done]. intros n. rewrite lookup_fmap.
  by destruct (cr_jobs c !! n).
Qed.

Lemma QueuedJobs_view c n : view (QueuedJobs c).1 n = (λ v, (v.1, false)) <$> view c n.
Proof. unfold view. cbn. rewrite lookup_fmap. by destruct (cr_jobs c !! n). Qed.

Lemma QueuedJobs_list c n : n ∈ (QueuedJobs c).2 ↔ ∃ cron, view c n = Some (cron, true).
Proof.
  unfold view. cbn. rewrite list_elem_of_fmap. setoid_rewrite list_elem_of_filter. split.
  - intros ([n' s] & -> & Ht & Hs%elem_of_map_range). cbn in *. rewrite Hs. exists (cj_cronStr s).
    cbn. by rewrite Ht.
  - intros (cron & (s & Hs & [= -> Ht])%fmap_Some). exists (n, s).
    by rewrite elem_of_map_range.
Qed.

Lemma removeJob_ok name c :
  cron_ok c → cron_ok (removeJob name c).1.
Proof.
  intros Hc. unfold removeJob. destruct (cr_jobs c !! name) as [s|] eqn:Hs; [|done].
  split; cbn.
  - intros n s' [Hn Hs']%lookup_delete_Some. rewrite lookup_delete_ne; [by apply Hc|].
    intros E. by apply Hn, (entry_inj c _ _ s s').
  - intros id n [Hid Hn]%lookup_delete_Some. destruct (co_entry _ Hc _ _ Hn) as (s' & Hs' & E).
    exists s'. split; [|done]. rewrite lookup_delete_ne; [done|]. intros ->. congruence.
Qed.

Lemma removeJob_view name c n :
  view (removeJob name c).1 n = if bool_decide (n = name) then None else view c n.
Proof.
  unfold removeJob, view. case_bool_decide as Hn; [subst n|];
    destruct (cr_jobs c !! name) eqn:E; cbn; [by rewrite lookup_delete_eq|by rewrite E| |done].
  by rewrite lookup_delete_ne.
Qed.

Lemma removeJob_err name c : view c name ≠ None → (removeJob name c).2 = None.
Proof. unfold removeJob, view. by destruct (cr_jobs c !! name). Qed.

Lemma addJob_ok name cron c :
  view c name = None → cron_ok c → cron_ok (addJob parse new_id name cron c).1.
Proof.
  intros Hv Hc. apply fmap_None in Hv. unfold addJob. destruct (parse _); [|done].
  pose proof (fresh (cr_agent c)) as Hf. split; cbn.
  - intros n s [[<- <-]|[Hn Hs]]%lookup_insert_Some; cbn; [by rewrite lookup_insert_eq|].
    apply Hc in Hs. rewrite lookup_insert_ne; [done|]. intros E. congruence.
  - intros id n [[<- <-]|[Hid Hn]]%lookup_insert_Some;
      [eexists; by rewrite lookup_insert_eq|].
    destruct (co_entry _ Hc _ _ Hn) as (s & Hs & <-). exists s. split; [|done].
    rewrite lookup_insert_ne; [done|]. congruence.
Qed.

Lemma addJob_view name cron c n :
  schedulable cron →
  (addJob parse new_id name cron c).2 = None ∧
  view (addJob parse new_id name cron c).1 n =
    if bool_decide (n = name) then Some (cron, has_prefix "@every" cron) else view c n.
Proof.
  unfold schedulable, addJob. destruct (parse _); [|done]. intros _. split; [done|].
  unfold view. cbn [cr_jobs fst]. case_bool_decide as Hn; [by rewrite Hn, lookup_insert_eq|by rewrite lookup_insert_ne].
Qed.

Lemma addPeriodic_ok p c : cron_ok c → cron_ok (addPeriodic parse new_id p c).1.
Proof.
  intros Hc. unfold addPeriodic. fold (pe_Name p). case_bool_decide; [done|].
  destruct (cr_jobs c !! pe_Name p) as [s|] eqn:Hs.
  - case_bool_decide; [done|]. pose proof (removeJob_ok (pe_Name p) c Hc) as Hr.
    pose proof (removeJob_view (pe_Name p) c (pe_Name p)) as Hv.
    rewrite bool_decide_eq_true_2 in Hv by done.
    destruct (removeJob _ c) as [c1 [e|]]; [done|]. by apply addJob_ok.
  - apply addJob_ok; [unfold view; by rewrite Hs|done].
Qed.

Lemma addPeriodic_view p c n :
  (pe_Cron p ≠ "" → schedulable (pe_Cron p)) →
  (addPeriodic parse new_id p c).2 = None ∧
  view (addPeriodic parse new_id p c).1 n =
    if bool_decide (n = pe_Name p) then wanted (pe_Cron p) (view c n) else view c n.
Proof.
  intros Hp. unfold addPeriodic, wanted. fold (pe_Name p).
  case_bool_decide as Hcron; [split; [done|by case_bool_decide]|]. specialize (Hp Hcron).
  destruct (cr_jobs c !! pe_Name p) as [s|] eqn:Hs.
  - assert (view c (pe_Name p) = Some (cj_cronStr s, cj_triggered s)) as Hv
      by (unfold view; by rewrite Hs).
    case_bool_decide as Hsame.
    { split; [done|]. case_bool_decide as Hn; [|done]. subst n. cbn. rewrite Hv.
      rewrite bool_decide_eq_true_2 by done. by rewrite <- Hsame. }
    pose proof (removeJob_err (pe_Name p) c) as He. rewrite Hv in He.
    pose proof (removeJob_view (pe_Name p) c n) as Hr.
    destruct (removeJob _ c) as [c1 e1]. cbn in He, Hr. rewrite He by done.
    destruct (addJob_view (pe_Name p) (pe_Cron p) c1 n Hp) as [-> ->]. split; [done|]. rewrite Hr.
    case_bool_decide as Hn; [|done]. rewrite Hn, Hv. by rewrite bool_decide_eq_false_2.
  - destruct (addJob_view (pe_Name p) (pe_Cron p) c n Hp) as [-> ->]. split; [done|].
    case_bool_decide as Hn; [|done]. rewrite Hn. unfold view. by rewrite Hs.
Qed.

Lemma add_periodics_ok ps c : cron_ok c → cron_ok (add_periodics parse new_id ps c).1.
Proof.
  revert c. induction ps as [|p ps IH]; intros c Hc; [done|]. cbn.
  pose proof (addPeriodic_ok p c Hc) as Hp. destruct (addPeriodic _ _ p c) as [c1 [e|]]; [done|].
  by apply IH.
Qed.

(** The configured view of a name. *)
Definition configured (ps : list Periodic) (n : string) (old : option (string * bool))
    : option (string * bool) :=
  from_option (λ p, wanted (pe_Cron p) old) None
    (head (filter (λ p, pe_Name p = n) ps)).

Definition all_schedulable (ps : list Periodic) : Prop :=
  Forall (λ p, pe_Cron p ≠ "" → schedulable (pe_Cron p)) ps.

Lemma not_configured ps n : n ∉ pe_Name <$> ps → filter (λ p, pe_Name p = n) ps = [].
Proof.
  induction ps as [|p ps IH]; [done|]. rewrite fmap_cons, not_elem_of_cons. intros [Hp Hn].
  rewrite filter_cons_False by congruence. auto.
Qed.

Lemma add_periodics_view ps c n :
  all_schedulable ps → NoDup (pe_Name <$> ps) →
  (add_periodics parse new_id ps c).2 = None ∧
  view (add_periodics parse new_id ps c).1 n =
    if bool_decide (n ∈ pe_Name <$> ps) then configured ps n (view c n) else view c n.
Proof.
  revert c. induction ps as [|p ps IH]; intros c Hs Hnd; [done|]. cbn.
  apply Forall_cons in Hs as [Hp Hs]. apply NoDup_cons in Hnd as [Hni Hnd].
  destruct (addPeriodic_view p c n Hp) as [Ee Ev].
  destruct (addPeriodic _ _ p c) as [c1 e1]. cbn in Ee, Ev. rewrite Ee.
  destruct (IH c1 Hs Hnd) as [-> ->]. split; [done|]. rewrite Ev. clear IH Ev. unfold configured.
  case_bool_decide as Hin.
  - rewrite bool_decide_eq_false_2 by (intros ->; done).
    rewrite bool_decide_eq_true_2 by (rewrite elem_of_cons; auto).
    rewrite filter_cons_False; [done|]. intros E. rewrite E in Hni. done.
  - case_bool_decide as Hn.
    + rewrite bool_decide_eq_true_2 by (rewrite elem_of_cons; auto).
      by rewrite filter_cons_True.
    + rewrite bool_decide_eq_false_2; [done|]. rewrite elem_of_cons. naive_solver.
Qed.

Lemma remove_jobs_ok names c : cron_ok c → cron_ok (remove_jobs names c).1.
Proof.
  revert c. induction names as [|n names IH]; intros c Hc; [done|]. cbn.
  pose proof (removeJob_ok n c Hc) as Hr. destruct (removeJob n c) as [c1 e1].
  specialize (IH c1 Hr). by destruct (remove_jobs names c1).
Qed.

Lemma remove_jobs_view names c n :
  NoDup names → (∀ m, m ∈ names → view c m ≠ None) →
  (remove_jobs names c).2 = [] ∧
  view (remove_jobs names c).1 n = if bool_decide (n ∈ names) then None else view c n.
Proof.
  revert c. induction names as [|m names IH]; intros c Hnd Hin; [done|]. cbn.
  apply NoDup_cons in Hnd as [Hm Hnd].
  pose proof (removeJob_err m c (Hin _ ltac:(left))) as He.
  assert (∀ k, view (removeJob m c).1 k = if bool_decide (k = m) then None else view c k) as Hv
    by (intros k; apply removeJob_view).
  destruct (removeJob m c) as [c1 e1]. cbn in He, Hv. subst e1.
  destruct (IH c1 Hnd) as [E1 E2].
  { intros k Hk. rewrite Hv, bool_decide_eq_false_2 by (intros ->; done). apply Hin. by right. }
  destruct (remove_jobs names c1) as [c2 errs]. cbn in *. rewrite E1, E2, Hv. split; [done|].
  destruct (decide (n = m)) as [->|Hne].
  - rewrite (bool_decide_eq_true_2 (m = m)) by done.
    rewrite (bool_decide_eq_true_2 (m ∈ m :: names)) by (left). by case_bool_decide.
  - rewrite (bool_decide_eq_false_2 (n = m)) by done.
    by rewrite (bool_decide_ext (n ∈ names) (n ∈ m :: names)) by (rewrite elem_of_cons; naive_solver).
Qed.

Lemma SyncConfig_ok ps c : cron_ok c → cron_ok (SyncConfig parse new_id ps c).1.
Proof.
  intros Hc. unfold SyncConfig. pose proof (add_periodics_ok ps c Hc) as Ha.
  destruct (add_periodics _ _ ps c) as [c1 [e|]]; [done|]. cbn in Ha.
  match goal with |- context [remove_jobs ?names c1] => pose proof (remove_jobs_ok names c1 Ha) as Hr end.
  by destruct (remove_jobs _ c1) as [c2 [|]].
Qed.

Lemma SyncConfig_view ps c n :
  all_schedulable ps → NoDup (pe_Name <$> ps) →
  (SyncConfig parse new_id ps c).2 = None ∧
  view (SyncConfig parse new_id ps c).1 n = configured ps n (view c n).
Proof.
  intros Hs Hnd. unfold SyncConfig.
  assert (∀ k, view (add_periodics parse new_id ps c).1 k =
    if bool_decide (k ∈ pe_Name <$> ps) then configured ps k (view c k) else view c k) as Hv
    by (intros k; by apply add_periodics_view).
  destruct (add_periodics_view ps c n Hs Hnd) as [He _].
  destruct (add_periodics _ _ ps c) as [c1 e1]. cbn in He, Hv. subst e1.
  assert (∀ k, k ∈ dom (cr_jobs c1) ↔ view c1 k ≠ None) as Hdom.
  { intros k. rewrite elem_of_dom. unfold view. by destruct (cr_jobs c1 !! k). }
  change (λ p, jb_Name (pe_JobBase p)) with pe_Name.
  match goal with |- context [remove_jobs ?names c1] => set (gone := names) end.
  assert (∀ k, k ∈ gone ↔ view c1 k ≠ None ∧ k ∉ pe_Name <$> ps) as Hg.
  { intros k. unfold gone. rewrite elem_of_set_list, elem_of_difference, elem_of_set_of.
    by rewrite Hdom. }
  destruct (remove_jobs_view gone c1 n) as [E1 E2]; [apply NoDup_set_list|by intros k [? _]%Hg|].
  destruct (remove_jobs gone c1) as [c2 errs]. cbn in E1, E2. subst errs. split; [done|]. cbn. rewrite E2.
  case_bool_decide as Hin.
  - apply Hg in Hin as [_ Hno]. unfold configured. by rewrite not_configured.
  - rewrite Hv. case_bool_decide as Hps; [done|]. rewrite Hg in Hin.
    unfold configured. rewrite not_configured by done. cbn.
    specialize (Hv n). rewrite bool_decide_eq_false_2 in Hv by done. rewrite <- Hv.
    destruct (view c1 n); naive_solver.
Qed.

(** What happens: the scheduler launches the function of an entry, a launched function gets
    the lock and runs, a configuration is synced, the triggered jobs are read. *)
Inductive cron_event :=
| Launched (name : string)
| Ran (name : string)
| Synced (ps : list Periodic)
| Read (names : list string).

(** The state after a history, and the launched functions that wait for the lock. *)
Inductive reaches : list cron_event → Cron → list string → Prop :=
| Reach_new : reaches [] New []
| Reach_launch tr c waiting id name : reaches tr c waiting → cr_agent c !! id = Some name →
    reaches (tr ++ [Launched name]) c (name :: waiting)
| Reach_run tr c w1 name w2 c' : reaches tr c (w1 ++ name :: w2) → entry_func name c = Some c' →
    reaches (tr ++ [Ran name]) c' (w1 ++ w2)
| Reach_sync tr c waiting ps : reaches tr c waiting →
    reaches (tr ++ [Synced ps]) (SyncConfig parse new_id ps c).1 waiting
| Reach_read tr c waiting : reaches tr c waiting →
    reaches (tr ++ [Read (QueuedJobs c).2]) (QueuedJobs c).1 waiting.

Lemma reaches_ok tr c waiting : reaches tr c waiting → cron_ok c.
Proof.
  induction 1; [apply New_ok|done|by eapply entry_func_ok|by apply SyncConfig_ok|by apply QueuedJobs_ok].
Qed.

(** What an event means for one name. *)
Definition event_view (n : string) (old : option (string * bool)) (e : cron_event) : option (string * bool) :=
  match e with
  | Launched _ => old
  | Ran m => if bool_decide (n = m) then (λ v, (v.1, true)) <$> old else old
  | Synced ps => configured ps n old
  | Read _ => (λ v, (v.1, false)) <$> old
  end.
Definition history_view (n : string) (tr : list cron_event) : option (string * bool) :=
  foldl (event_view n) None tr.

(** Configurations with distinct names and schedules that parse. *)
Definition parsing (tr : list cron_event) : Prop :=
  ∀ ps, Synced ps ∈ tr → all_schedulable ps ∧ NoDup (pe_Name <$> ps).

Lemma parsing_app tr tr' : parsing (tr ++ tr') ↔ parsing tr ∧ parsing tr'.
Proof. unfold parsing. setoid_rewrite elem_of_app. naive_solver. Qed.
Lemma parsing_sync ps : parsing [Synced ps] → all_schedulable ps ∧ NoDup (pe_Name <$> ps).
Proof. intros Hp. apply Hp. by left. Qed.

Lemma reaches_view tr c waiting n : reaches tr c waiting → parsing tr → view c n = history_view n tr.
Proof.
  intros Hr. induction Hr as [|tr c w id name Hr IH Ha|tr c w1 name w2 c' Hr IH Hf|tr c w ps Hr IH|tr c w Hr IH];
    intros Hp; [unfold view; cbn; by rewrite lookup_empty|..];
    apply parsing_app in Hp as [Hp He]; unfold history_view in *; rewrite foldl_snoc, <- IH by done; cbn [event_view].
  - done.
  - by apply entry_func_view.
  - apply parsing_sync in He as [Hs Hnd]. by apply SyncConfig_view.
  - apply QueuedJobs_view.
Qed.

Lemma reaches_read tr c waiting tr1 names tr2 n :
  reaches tr c waiting → parsing tr → tr = tr1 ++ Read names :: tr2 →
  n ∈ names ↔ ∃ cron, history_view n tr1 = Some (cron, true).
Proof.
  intros Hr. revert tr2. induction Hr as [|tr c w id name Hr IH Ha|tr c w1 name w2 c' Hr IH Hf|tr c w ps Hr IH|tr c w Hr IH];
    intros tr2 Hp E; [by destruct tr1|..]; apply parsing_app in Hp as [Hp _];
    (destruct tr2 as [|e tr2 _] using rev_ind;
      [apply app_inj_tail in E as [-> E]; try discriminate E|
       rewrite app_comm_cons, app_assoc in E; apply app_inj_tail in E as [E _]; by eapply IH]).
  assert (names = (QueuedJobs c).2) as -> by congruence. rewrite QueuedJobs_list. by rewrite (reaches_view tr1 c w).
Qed.

(** The configuration leaves a job out. *)
Lemma configured_removed ps n v : configured ps n (Some v) = None → n ∉ pe_Name <$> ps.
Proof.
  unfold configured, wanted. intros E (p & -> & Hp)%list_elem_of_fmap.
  assert (p ∈ filter (λ q, pe_Name q = pe_Name p) ps) as Hf by (by apply list_elem_of_filter).
  destruct (filter _ ps); [by apply not_elem_of_nil in Hf|]. cbn in E. destruct v. by repeat case_bool_decide.
Qed.

(** A function whose job is gone was launched before a configuration without the job. *)
Definition outlived (name : string) (tr : list cron_event) : Prop :=
  ∃ tr1 tr2 ps, tr = tr1 ++ Launched name :: tr2 ∧ Synced ps ∈ tr2 ∧ name ∉ pe_Name <$> ps.

Lemma outlived_snoc name tr e : outlived name tr → outlived name (tr ++ [e]).
Proof.
  intros (tr1 & tr2 & ps & -> & Hs & Hn). exists tr1, (tr2 ++ [e]), ps. rewrite <- app_assoc.
  split_and!; [done| |done]. apply elem_of_app. by left.
Qed.

Lemma reaches_waiting tr c waiting name : reaches tr c waiting → parsing tr → name ∈ waiting →
  Launched name ∈ tr ∧ (view c name = None → outlived name tr).
Proof.
  intros Hr. induction Hr as [|tr c w id m Hr IH Ha|tr c w1 m w2 c' Hr IH Hf|tr c w ps Hr IH|tr c w Hr IH];
    intros Hp Hw; [by apply not_elem_of_nil in Hw|..]; apply parsing_app in Hp as [Hp He]; rewrite elem_of_app.
  - apply elem_of_cons in Hw as [->|Hw].
    + split; [right; by left|]. destruct (co_entry _ (reaches_ok _ _ _ Hr) _ _ Ha) as (s & Hs & _).
      unfold view. by rewrite Hs.
    + destruct (IH Hp Hw) as [? Ho]. split; [by left|]. intros Hv. by apply outlived_snoc, Ho.
  - destruct (IH Hp) as [? Ho]; [rewrite elem_of_app, elem_of_cons; apply elem_of_app in Hw; tauto|].
    split; [by left|]. rewrite (entry_func_view _ _ _ _ Hf). intros Hv. apply outlived_snoc, Ho.
    case_bool_decide; [by apply fmap_None in Hv|done].
  - destruct (IH Hp Hw) as [Hl Ho]. split; [by left|]. apply parsing_sync in He as [Hs Hnd].
    destruct (SyncConfig_view ps c name Hs Hnd) as [_ ->]. intros Hv.
    destruct (view c name) as [v|] eqn:Ev; [|by apply outlived_snoc, Ho].
    apply configured_removed in Hv. apply list_elem_of_split in Hl as (tr1 & tr2 & ->).
    exists tr1, (tr2 ++ [Synced ps]), ps. rewrite <- app_assoc. split_and!; [done| |done].
    apply elem_of_app. right. by left.
  - destruct (IH Hp Hw) as [Hl Ho]. split; [by left|]. rewrite QueuedJobs_view. intros Hv%fmap_None.
    by apply outlived_snoc, Ho.
Qed.


Definition reachable (c : Cron) : Prop := ∃ tr waiting, reaches tr c waiting.
End cron_proofs.

(** ** What horologium starts *)

Section sync_proofs.
Context `{GoRange}.
Context (parse : string → result unit) (new_id : gmap nat string → nat).
Context (IsValidLabelValue : string → bool).
Context (now_pj : list ProwJob → Time) (new_name : list ProwJob → string)
        (create : list ProwJob → result unit).

(** The ProwJob made of a periodic, whatever its name and creation time. *)
Definition run_of (p : Periodic) (pj : ProwJob) : Prop :=
  ∃ name t, pj = NewProwJob IsValidLabelValue name t (PeriodicSpec p)
                   (jb_Labels (pe_JobBase p)) (jb_Annotations (pe_JobBase p)).

Lemma start_periodics_ok latestJobs cronTriggers now ps errs tr :
  ∃ created,
    start_periodics IsValidLabelValue now_pj new_name create latestJobs cronTriggers now ps errs tr
    = (tr ++ created, errs ++ failures create tr created) ∧
    Forall2 run_of (filter (λ p, is_due latestJobs cronTriggers now p = true) ps) created.
Proof.
  revert errs tr. induction ps as [|p ps IH]; intros errs tr.
  { exists []. cbn. by rewrite !app_nil_r. }
  cbn [start_periodics]. destruct (is_due latestJobs cronTriggers now p) eqn:Ed.
  - rewrite filter_cons_True by done. unfold create_periodic. rewrite bind_app. run. cbn [fst snd].
    match goal with |- context [tr ++ [?pj]] => set (new := pj) end.
    destruct (IH (errs ++ option_list (match create (tr ++ [new]) with
                                       | Ok _ => None | Err e => Some e end)) (tr ++ [new]))
      as (created & E & Hf).
    exists (new :: created). split; [|constructor; [|done]; by do 2 eexists].
    rewrite E, <- !app_assoc. cbn [failures]. by destruct (create _).
  - rewrite filter_cons_False by (by rewrite Ed). apply IH.
Qed.

(** A periodic is to be started: it never ran, or its latest run is finished and
    the interval is over, or its schedule fired since the last look. *)
Definition idle (items : list ProwJob) (p : Periodic) : Prop :=
  ∀ j, GetLatestProwJobs items PeriodicJob !! pe_Name p = Some j → Complete j = true.
Definition elapsed (items : list ProwJob) (now : Time) (p : Periodic) : Prop :=
  ∀ j, GetLatestProwJobs items PeriodicJob !! pe_Name p = Some j →
    (pe_interval p < now - st_StartTime (pj_Status j))%Z.
Definition to_start (items : list ProwJob) (now : Time) (c : Cron) (p : Periodic) : Prop :=
  idle items p ∧
  if bool_decide (pe_Cron p = "") then elapsed items now p
  else wanted (pe_Cron p) (view c (pe_Name p)) = Some (pe_Cron p, true).

Lemma is_due_spec items queued now c p :
  (pe_Cron p ≠ "" → pe_Name p ∈ queued ↔
     wanted (pe_Cron p) (view c (pe_Name p)) = Some (pe_Cron p, true)) →
  is_due (GetLatestProwJobs items PeriodicJob) queued now p = true ↔ to_start items now c p.
Proof.
  unfold is_due, to_start, idle, elapsed. fold (pe_Name p). intros Hq.
  case_bool_decide as Hcron.
  - destruct (_ !! pe_Name p) as [j|]; [|naive_solver].
    rewrite andb_true_iff, bool_decide_eq_true. naive_solver.
  - rewrite <- Hq by done. case_bool_decide; destruct (_ !! pe_Name p); naive_solver.
Qed.

Lemma configured_in ps p old :
  NoDup (pe_Name <$> ps) → p ∈ ps → configured ps (pe_Name p) old = wanted (pe_Cron p) old.
Proof.
  unfold configured. induction ps as [|q ps IH]; [by intros _ ?%not_elem_of_nil|].
  rewrite fmap_cons, NoDup_cons, elem_of_cons. intros [Hq Hnd] Hp.
  destruct (decide (pe_Name q = pe_Name p)) as [E|E].
  - rewrite filter_cons_True by done. destruct Hp as [->|Hp]; [done|].
    exfalso. apply Hq. rewrite E. by apply list_elem_of_fmap_2.
  - rewrite filter_cons_False by done. apply IH; [done|]. by destruct Hp as [->|].
Qed.

Lemma wanted_cron cron old cron' b : cron ≠ "" → wanted cron old = Some (cron', b) → cron' = cron.
Proof.
  unfold wanted. intros Hc. rewrite bool_decide_eq_false_2 by done.
  destruct old as [[? ?]|]; [case_bool_decide|]; congruence.
Qed.

(** C38. Given configured periodics with distinct names and schedules that parse:
    a sync creates, in the order of the configuration, one run of exactly those
    periodics that are to be started, so at most one each and none whose latest
    run is unfinished; it tries them all, reports the calls that failed, and
    leaves every job of the scheduler waiting for its next firing. *)
Theorem sync_spec items periodics now c tr :
  (∀ agent, agent !! new_id agent = None) → reachable parse new_id c →
  all_schedulable parse periodics → NoDup (pe_Name <$> periodics) →
  ∃ started created c' err,
    sync parse new_id IsValidLabelValue now_pj new_name create (Ok items) periodics now c tr
      = (tr ++ created, (c', err)) ∧
    sublist started periodics ∧
    (∀ p, p ∈ periodics → p ∈ started ↔ to_start items now c p) ∧
    Forall2 run_of started created ∧
    (err = None ↔ failures create tr created = []) ∧
    reachable parse new_id c' ∧
    ∀ n, view c' n = (λ v, (v.1, false)) <$> configured periodics n (view c n).
Proof.
  intros Hf Hr Hs Hnd. unfold sync. cbn [wrap_err].
  pose proof (λ n, SyncConfig_view parse new_id periodics c n Hs Hnd) as Hv.
  assert (reachable parse new_id (SyncConfig parse new_id periodics c).1) as Hr1
    by (destruct Hr as (h & w & Hr); do 2 eexists; by apply Reach_sync).
  destruct (SyncConfig parse new_id periodics c) as [c1 e1]. cbn [fst snd] in *.
  assert (reachable parse new_id (QueuedJobs c1).1) as Hr2
    by (destruct Hr1 as (h & w & Hr1); do 2 eexists; by apply Reach_read).
  pose proof (QueuedJobs_list c1) as Hl. pose proof (QueuedJobs_view c1) as Hq.
  destruct (QueuedJobs c1) as [c2 queued]. cbn [fst snd] in *. rewrite bind_app.
  destruct (start_periodics_ok (GetLatestProwJobs items PeriodicJob) (set_of queued) now periodics
              [] tr) as (created & -> & Hc).
  eexists (filter _ periodics), created, c2, _. split; [done|].
  split_and!; [apply sublist_filter| |exact Hc| |done|].
  - intros p Hp. rewrite list_elem_of_filter, <- is_due_spec; [naive_solver|].
    intros Hcron. rewrite elem_of_set_of, Hl. destruct (Hv (pe_Name p)) as [_ ->].
    rewrite configured_in by done. split; [|naive_solver].
    intros (cron & E). by rewrite (wanted_cron _ _ _ _ Hcron E) in E.
  - cbn. destruct (failures create tr created); naive_solver.
  - intros n. rewrite Hq. by destruct (Hv n) as [_ ->].
Qed.
End sync_proofs.


(** ** Witnesses and examples: a nightly job and one that runs every hour *)

#[local] Existing Instance listing_order.

Definition sample_periodic (name cron : string) (interval : Z) : Periodic :=
  mkPeriodic (mkJobBase name ∅ 1 "kubernetes" "" None false "" None None ∅ None None false
                (mkUtilityConfig false "" "" false 0 [] None)) "" cron [] interval.
Definition sample_periodics : list Periodic :=
  [sample_periodic "nightly" "0 3 * * *" 0; sample_periodic "hourly" "@every 1h" 0;
   sample_periodic "steady" "" 3600].
Definition next_id (agent : gmap nat string) : nat := fresh (dom agent : gset nat).
Definition configured_cron : Cron := (SyncConfig (λ _, Ok tt) next_id sample_periodics New).1.

Lemma next_id_fresh agent : agent !! next_id agent = None.
Proof. apply (not_elem_of_dom (D:=gset nat)). exact (is_fresh (dom agent : gset nat)). Qed.

(** Twice configured, launched in between, left out at last: the function waits in vain. *)
Definition sample_history : list cron_event :=
  [Synced sample_periodics; Launched "nightly"; Synced []].

Lemma sample_reaches :
  reaches (λ _, Ok tt) next_id sample_history (SyncConfig (λ _, Ok tt) next_id [] configured_cron).1 ["nightly"].
Proof.
  apply (Reach_sync _ _ [Synced sample_periodics; Launched "nightly"] configured_cron).
  apply (Reach_launch _ _ [Synced sample_periodics] configured_cron [] (cj_entryID
    (default (mkJobStatus 0 false "") (cr_jobs configured_cron !! "nightly"))));
    [|vm_compute; reflexivity].
  apply (Reach_sync _ _ [] New), Reach_new.
Qed.


Lemma sync_spec_witness :
  all_schedulable (λ _, Ok tt) sample_periodics ∧ NoDup (pe_Name <$> sample_periodics) ∧
  ∃ started created c' err,
    sync (λ _, Ok tt) next_id (λ _, true) (λ _, 5%Z) (λ _, "uuid") (λ _, Ok tt) (Ok [])
      sample_periodics 5%Z configured_cron [] = (created, (c', err)) ∧
    Forall2 (run_of (λ _, true)) started created ∧
    (∀ p, p ∈ sample_periodics → p ∈ started ↔ to_start [] 5%Z configured_cron p).
Proof.
  assert (all_schedulable (λ _, Ok tt) sample_periodics) as Hs by (repeat constructor).
  assert (NoDup (pe_Name <$> sample_periodics)) as Hn by (apply (bool_decide_unpack _); vm_compute; exact I).
  assert (reachable (λ _, Ok tt) next_id configured_cron) as Hr
    by (exists [Synced sample_periodics], []; apply (Reach_sync _ _ [] New), Reach_new).
  split_and!; [exact Hs|exact Hn|].
  destruct (sync_spec (λ _, Ok tt) next_id (λ _, true) (λ _, 5%Z) (λ _, "uuid") (λ _, Ok tt) []
    sample_periodics 5%Z configured_cron [] next_id_fresh Hr Hs Hn)
    as (started & created & c' & err & E & _ & Hst & Hc & _).
  exists started, created, c', err. split_and!; [exact E|exact Hc|exact Hst].
Defined.

(** In the first sync the interval jobs start at once; the nightly one waits. *)
Example sync_run :
  spec_Job ∘ pj_Spec <$>
    (sync (λ _, Ok tt) next_id (λ _, true) (λ _, 5%Z) (λ _, "uuid") (λ _, Ok tt) (Ok [])
       sample_periodics 5%Z New []).1 = ["hourly"; "steady"].
Proof. vm_compute. reflexivity. Qed.

(** The closure of an entry takes the lock when it runs: one that waited while its
    job was removed finds no status. *)
Example late_entry_func :
  entry_func "nightly" (removeJob "nightly" configured_cron).1 = None.
Proof. vm_compute. reflexivity. Qed.

(** A periodic that no longer has a schedule keeps its entry. *)
Example emptied_schedule :
  HasJob "nightly" (SyncConfig (λ _, Ok tt) next_id [sample_periodic "nightly" "" 60]
                      configured_cron).1 = true.
Proof. vm_compute. reflexivity. Qed.
