(* ===== verification/JobSpec.v ===== *)
(** * What a job is told, and where its artifacts go

    The environment of a job (pod-utils/downwardapi/jobspec.go) and the paths of its
    artifacts in a bucket (pod-utils/gcs/target.go).  A function that may stop the
    program (a nil pointer, an index out of range, [logrus.Fatalf]) returns [None]
    there. *)

From S2P Require Import Prelude Api GoText Paths.
#[local] Open Scope go_scope.

Record JobSpec := mkJobSpec {
  jsp_Type : ProwJobType; jsp_Job : string; jsp_BuildID : string; jsp_ProwJobID : string;
  jsp_Refs : option Refs; jsp_ExtraRefs : list Refs; jsp_agent : ProwJobAgent }.

Definition NewJobSpec (spec : ProwJobSpec) (buildID prowJobID : string) : JobSpec :=
  mkJobSpec (spec_Type spec) (spec_Job spec) buildID prowJobID (spec_Refs spec)
    (spec_ExtraRefs spec) (spec_Agent spec).

(** ** The environment *)

Definition JobSpecEnv : string := "JOB_SPEC".
Definition jobNameEnv : string := "JOB_NAME".
Definition jobTypeEnv : string := "JOB_TYPE".
Definition prowJobIDEnv : string := "PROW_JOB_ID".
Definition buildIDEnv : string := "BUILD_ID".
Definition prowBuildIDEnv : string := "BUILD_NUMBER".
Definition repoOwnerEnv : string := "REPO_OWNER".
Definition repoNameEnv : string := "REPO_NAME".
Definition pullBaseRefEnv : string := "PULL_BASE_REF".
Definition pullBaseShaEnv : string := "PULL_BASE_SHA".
Definition pullRefsEnv : string := "PULL_REFS".
Definition pullNumberEnv : string := "PULL_NUMBER".
Definition pullPullShaEnv : string := "PULL_PULL_SHA".

Definition base_env (spec : JobSpec) : gmap string string :=
  let env := <[jobTypeEnv := jsp_Type spec]> (<[prowJobIDEnv := jsp_ProwJobID spec]>
    (<[buildIDEnv := jsp_BuildID spec]> {[jobNameEnv := jsp_Job spec]})) in
  if bool_decide (jsp_agent spec = KubernetesAgent)
  then <[prowBuildIDEnv := jsp_BuildID spec]> env else env.

Definition refs_env (refs : Refs) (env : gmap string string) : gmap string string :=
  <[pullRefsEnv := Refs_String refs]> (<[pullBaseShaEnv := refs_BaseSHA refs]>
    (<[pullBaseRefEnv := refs_BaseRef refs]> (<[repoNameEnv := refs_Repo refs]>
    (<[repoOwnerEnv := refs_Org refs]> env)))).

Definition pull_env (pull : Pull) (env : gmap string string) : gmap string string :=
  <[pullPullShaEnv := pull_SHA pull]> (<[pullNumberEnv := itoa (pull_Number pull)]> env).

Section env.
(** [json.Marshal] of the specification *)
Context (Marshal : JobSpec → result string).

Definition EnvForSpec (spec : JobSpec) : option (result (gmap string string)) :=
  match wrap_err "failed to marshal job spec: %v" (Marshal spec) with
  | Err e => Some (Err e)
  | Ok raw =>
      let env := <[JobSpecEnv := raw]> (base_env spec) in
      if bool_decide (jsp_Type spec = PeriodicJob) then Some (Ok env)
      else match jsp_Refs spec with
      | None => None
      | Some refs =>
          let env := refs_env refs env in
          if bool_decide (jsp_Type spec = PostsubmitJob ∨ jsp_Type spec = BatchJob)
          then Some (Ok env)
          else match refs_Pulls refs with
               | [] => None
               | pull :: _ => Some (Ok (pull_env pull env))
               end
      end
  end.
End env.

Definition baseEnv : list string :=
  [jobNameEnv; JobSpecEnv; jobTypeEnv; prowJobIDEnv; buildIDEnv; prowBuildIDEnv].
Definition refsEnv : list string :=
  [repoOwnerEnv; repoNameEnv; pullBaseRefEnv; pullBaseShaEnv; pullRefsEnv].
Definition pullEnv : list string := [pullNumberEnv; pullPullShaEnv].

Definition EnvForType (jobType : ProwJobType) : list string :=
  if bool_decide (jobType = PeriodicJob) then baseEnv
  else if bool_decide (jobType = PostsubmitJob ∨ jobType = BatchJob) then baseEnv ++ refsEnv
  else if bool_decide (jobType = PresubmitJob) then (baseEnv ++ refsEnv) ++ pullEnv
  else [].

Definition getRevisionFromRef (refs : Refs) : string :=
  match refs_Pulls refs with
  | pull :: _ => pull_SHA pull
  | [] => if bool_decide (refs_BaseSHA refs ≠ "") then refs_BaseSHA refs else refs_BaseRef refs
  end.

Definition MainRefs (s : JobSpec) : option Refs :=
  match jsp_Refs s with Some r => Some r | None => head (jsp_ExtraRefs s) end.

Definition GetRevisionFromSpec (spec : JobSpec) : string :=
  match jsp_Refs spec with
  | Some refs => getRevisionFromRef refs
  | None => match jsp_ExtraRefs spec with
            | extra :: _ => getRevisionFromRef extra
            | [] => ""
            end
  end.

(** ** Paths of artifacts *)

(** [path.Join] *)
Definition Join (elems : list string) : string :=
  match filter (λ e, e ≠ "") elems with
  | [] => ""
  | l => Clean (string_join "/" l)
  end.

Definition PRLogs : string := "pr-logs".
Definition NonPRLogs : string := "logs".

Definition RepoPathBuilder : Type := string → string → string.

(** [strings.Replace(repo, "/", "_", -1)] *)
Definition flatten_repo (repo : string) : string :=
  string_map (λ c, if bool_decide (c = "/"%char) then "_"%char else c) repo.

Definition NewLegacyRepoPathBuilder (defaultOrg defaultRepo : string) : RepoPathBuilder :=
  λ org repo,
    if bool_decide (org = defaultOrg)
    then if bool_decide (repo = defaultRepo) then "" else repo
    else org +:+ "_" +:+ flatten_repo repo.

Definition NewSingleDefaultRepoPathBuilder (defaultOrg defaultRepo : string) : RepoPathBuilder :=
  λ org repo,
    if bool_decide (org = defaultOrg ∧ repo = defaultRepo) then ""
    else org +:+ "_" +:+ flatten_repo repo.

Definition NewExplicitRepoPathBuilder : RepoPathBuilder :=
  λ org repo, org +:+ "_" +:+ flatten_repo repo.

(** What a presubmit's paths have of its pull request. *)
Definition pull_segs (pathSegment : RepoPathBuilder) (spec : JobSpec) : option (list string) :=
  refs ← jsp_Refs spec;
  pull ← head (refs_Pulls refs);
  Some [pathSegment (refs_Org refs) (refs_Repo refs); itoa (pull_Number pull)].

Definition PathForSpec (spec : JobSpec) (pathSegment : RepoPathBuilder) : option string :=
  if bool_decide (jsp_Type spec = PeriodicJob ∨ jsp_Type spec = PostsubmitJob) then
    Some (Join [NonPRLogs; jsp_Job spec; jsp_BuildID spec])
  else if bool_decide (jsp_Type spec = PresubmitJob) then
    segs ← pull_segs pathSegment spec;
    Some (Join ([PRLogs; "pull"] ++ segs ++ [jsp_Job spec; jsp_BuildID spec]))
  else if bool_decide (jsp_Type spec = BatchJob) then
    Some (Join [PRLogs; "pull"; "batch"; jsp_Job spec; jsp_BuildID spec])
  else None.

Definition AliasForSpec (spec : JobSpec) : option string :=
  if bool_decide (jsp_Type spec = PeriodicJob ∨ jsp_Type spec = PostsubmitJob
                  ∨ jsp_Type spec = BatchJob) then Some ""
  else if bool_decide (jsp_Type spec = PresubmitJob) then
    Some (Join [PRLogs; "directory"; jsp_Job spec; jsp_BuildID spec +:+ ".txt"])
  else None.

(** A nil [pathSegment] is [None]. *)
Definition LatestBuildForSpec (spec : JobSpec) (pathSegment : option RepoPathBuilder)
    : option (list string) :=
  let latest := "latest-build.txt" in
  let directory := Join [PRLogs; "directory"; jsp_Job spec; latest] in
  if bool_decide (jsp_Type spec = PeriodicJob ∨ jsp_Type spec = PostsubmitJob) then
    Some [Join [NonPRLogs; jsp_Job spec; latest]]
  else if bool_decide (jsp_Type spec = PresubmitJob) then
    match pathSegment with
    | None => Some [directory]
    | Some pathSegment =>
        segs ← pull_segs pathSegment spec;
        Some [directory; Join ([PRLogs; "pull"] ++ segs ++ [jsp_Job spec; latest])]
    end
  else if bool_decide (jsp_Type spec = BatchJob) then Some [directory]
  else Some [].

Definition RootForSpec (spec : JobSpec) : string :=
  if bool_decide (jsp_Type spec = PeriodicJob ∨ jsp_Type spec = PostsubmitJob) then
    Join [NonPRLogs; jsp_Job spec]
  else if bool_decide (jsp_Type spec = PresubmitJob ∨ jsp_Type spec = BatchJob) then
    Join [PRLogs; "directory"; jsp_Job spec]
  else "".

(** ** Properties *)

Definition job_type (t : ProwJobType) : Prop :=
  t ∈ [PeriodicJob; PostsubmitJob; BatchJob; PresubmitJob].
#[export] Instance job_type_dec t : Decision (job_type t).
Proof. unfold job_type. apply _. Defined.

(** A specification as its type promises it. *)
Definition complete_spec (spec : JobSpec) : Prop :=
  jsp_Type spec = PeriodicJob ∨
  ∃ refs, jsp_Refs spec = Some refs ∧
    (jsp_Type spec = PostsubmitJob ∨ jsp_Type spec = BatchJob ∨ refs_Pulls refs ≠ []).

(** The variables that identify the run, and those of the change. *)
Definition env_values (spec : JobSpec) (raw : string) (env : gmap string string) : Prop :=
  env !! jobNameEnv = Some (jsp_Job spec) ∧ env !! jobTypeEnv = Some (jsp_Type spec) ∧
  env !! buildIDEnv = Some (jsp_BuildID spec) ∧ env !! prowJobIDEnv = Some (jsp_ProwJobID spec) ∧
  env !! JobSpecEnv = Some raw ∧
  (jsp_Type spec ≠ PeriodicJob → ∃ refs, jsp_Refs spec = Some refs ∧
    env !! repoOwnerEnv = Some (refs_Org refs) ∧ env !! repoNameEnv = Some (refs_Repo refs) ∧
    env !! pullRefsEnv = Some (Refs_String refs)) ∧
  (jsp_Type spec = PresubmitJob → ∃ refs pull, jsp_Refs spec = Some refs ∧
    head (refs_Pulls refs) = Some pull ∧
    env !! pullNumberEnv = Some (itoa (pull_Number pull)) ∧
    env !! pullPullShaEnv = Some (pull_SHA pull)).

Ltac lookup_env := repeat (rewrite lookup_insert_ne by done); by rewrite ?lookup_insert_eq, ?lookup_singleton_eq.

Lemma base_env_values spec raw :
  let env := <[JobSpecEnv := raw]> (base_env spec) in
  env !! jobNameEnv = Some (jsp_Job spec) ∧ env !! jobTypeEnv = Some (jsp_Type spec) ∧
  env !! buildIDEnv = Some (jsp_BuildID spec) ∧ env !! prowJobIDEnv = Some (jsp_ProwJobID spec) ∧
  env !! JobSpecEnv = Some raw.
Proof. unfold base_env. case_bool_decide; split_and!; lookup_env. Qed.

Lemma base_env_dom spec raw :
  dom (<[JobSpecEnv := raw]> (base_env spec)) =
    set_of baseEnv ∖ (if bool_decide (jsp_agent spec = KubernetesAgent) then ∅ else {[prowBuildIDEnv]}).
Proof. unfold base_env. case_bool_decide; rewrite !dom_insert_L, dom_singleton_L; decide_by_computing. Qed.

Lemma env_dom_refs refs env : dom (refs_env refs env) = set_of refsEnv ∪ dom env.
Proof.
  unfold refs_env. rewrite !dom_insert_L, !(assoc_L (∪)). f_equal.
Qed.
Lemma env_dom_pull pull env : dom (pull_env pull env) = set_of pullEnv ∪ dom env.
Proof. unfold pull_env. rewrite !dom_insert_L, !(assoc_L (∪)). f_equal. Qed.

Lemma env_values_refs spec raw refs env :
  jsp_Refs spec = Some refs → jsp_Type spec ≠ PresubmitJob →
  env !! jobNameEnv = Some (jsp_Job spec) ∧ env !! jobTypeEnv = Some (jsp_Type spec) ∧
  env !! buildIDEnv = Some (jsp_BuildID spec) ∧ env !! prowJobIDEnv = Some (jsp_ProwJobID spec) ∧
  env !! JobSpecEnv = Some raw → env_values spec raw (refs_env refs env).
Proof.
  intros Hr Hp (? & ? & ? & ? & ?). unfold env_values, refs_env.
  repeat (split; [by repeat (rewrite lookup_insert_ne by done)|]). split; [|done].
  intros _. exists refs. split_and!; [done|lookup_env..].
Qed.

(** The environment of a job: it exists exactly for complete specifications, has the
    variables announced for the type (the old name of the build's number only for
    Kubernetes), and identifies the run and the change. *)
Lemma EnvForSpec_ok Marshal spec raw :
  job_type (jsp_Type spec) → Marshal spec = Ok raw →
  (is_Some (EnvForSpec Marshal spec) ↔ complete_spec spec) ∧
  (∀ env, EnvForSpec Marshal spec = Some (Ok env) →
     dom env = set_of (EnvForType (jsp_Type spec)) ∖
       (if bool_decide (jsp_agent spec = KubernetesAgent) then ∅ else {[prowBuildIDEnv]}) ∧
     env_values spec raw env) ∧
  (∀ e, EnvForSpec Marshal spec ≠ Some (Err e)).
Proof.
  intros Ht Hraw. unfold EnvForSpec. rewrite Hraw. cbn [wrap_err].
  pose proof (base_env_values spec raw) as Hbase. pose proof (base_env_dom spec raw) as Hdom.
  set (env0 := <[JobSpecEnv := raw]> (base_env spec)) in *. cbn zeta in Hbase.
  unfold complete_spec.
  destruct (bool_decide_reflect (jsp_Type spec = PeriodicJob)) as [Hper|Hper].
  { rewrite Hper. split_and!; [naive_solver| |done]. intros env [= <-]. split.
    - by rewrite Hdom.
    - destruct Hbase as (? & ? & ? & ? & ?). unfold env_values. rewrite Hper in *.
      split_and!; done. }
  destruct (jsp_Refs spec) as [refs|] eqn:Hrefs; cycle 1.
  { split_and!; [|done..]. split; [by intros []|]. intros [?|(? & ? & _)]; [contradiction|done]. }
  destruct (bool_decide_reflect (jsp_Type spec = PostsubmitJob ∨ jsp_Type spec = BatchJob)) as [Hpb|Hpb].
  { split_and!; [| |done].
    - split; [|done]. intros _. right. exists refs. naive_solver.
    - intros env [= <-]. split.
      + rewrite env_dom_refs, Hdom. unfold EnvForType.
        rewrite (bool_decide_eq_false_2 _ Hper), (bool_decide_eq_true_2 _ Hpb).
        case_bool_decide; decide_by_computing.
      + apply env_values_refs; [done| |done]. destruct Hpb as [-> | ->]; done. }
  assert (jsp_Type spec = PresubmitJob) as Hpre.
  { unfold job_type in Ht. set_solver. }
  destruct (refs_Pulls refs) as [|pull pulls] eqn:Hpulls.
  { split_and!; [|done..]. split; [by intros []|]. intros [?|(refs' & ? & H)]; [contradiction|].
    exfalso. simplify_eq. rewrite Hpulls in H. naive_solver. }
  split_and!; [| |done].
  { split; [|done]. intros _. right. exists refs. split; [done|]. by right; right; rewrite Hpulls. }
  intros env [= <-]. split.
  - rewrite env_dom_pull, env_dom_refs, Hdom, Hpre. case_bool_decide; decide_by_computing.
  - destruct Hbase as (? & ? & ? & ? & ?). unfold env_values, pull_env, refs_env.
    repeat (split; [by repeat (rewrite lookup_insert_ne by done)|]). split.
    + intros _. exists refs. split_and!; [done|lookup_env..].
    + intros _. exists refs, pull. rewrite Hpulls. split_and!; [done..| |]; lookup_env.
Qed.

(** ** Paths tell builds apart *)

(** The paths' parts are names; the segment of a default repository is empty. *)
Definition spec_segs (pathSegment : RepoPathBuilder) (spec : JobSpec) : list string :=
  if bool_decide (jsp_Type spec = PeriodicJob ∨ jsp_Type spec = PostsubmitJob) then
    [NonPRLogs; jsp_Job spec; jsp_BuildID spec]
  else if bool_decide (jsp_Type spec = PresubmitJob) then
    [PRLogs; "pull"] ++ filter (λ s, s ≠ "") (default [] (pull_segs pathSegment spec))
      ++ [jsp_Job spec; jsp_BuildID spec]
  else [PRLogs; "pull"; "batch"; jsp_Job spec; jsp_BuildID spec].

Definition named (pathSegment : RepoPathBuilder) (spec : JobSpec) : Prop :=
  good_seg (jsp_Job spec) ∧ good_seg (jsp_BuildID spec) ∧
  ∀ refs, jsp_Refs spec = Some refs →
    let seg := pathSegment (refs_Org refs) (refs_Repo refs) in seg = "" ∨ good_seg seg.

Lemma number_good z : good_seg (itoa z).
Proof.
  destruct (itoa_chars z) as [Hc Hn]. unfold good_seg. split_and!; [done|by intros E; rewrite E in Hc..|].
  revert Hc. generalize (itoa z) as s. clear. induction s as [|c s IH]; [done|].
  cbn. intros [Hc Hs]%andb_true_iff. rewrite (IH Hs).
  destruct (decide (c = "/"%char)) as [->|]; [by vm_compute in Hc|done].
Qed.

Lemma Join_good segs : segs ≠ [] → Forall good_seg segs → Join segs = path_of segs.
Proof.
  intros Hn Hg. unfold Join. rewrite filter_id; cycle 1.
  { intros x Hx. rewrite Forall_forall in Hg. by destruct (Hg x Hx). }
  destruct segs as [|s l]; [done|]. change (string_join "/" (s :: l)) with (path_of (s :: l)).
  rewrite Clean_path by done. unfold dot. rewrite bool_decide_eq_false_2; [done|].
  intros E. by apply path_of_nil in E.
Qed.

Lemma Join_filter l : Join (filter (λ e, e ≠ "") l) = Join l.
Proof. unfold Join. rewrite filter_id; [done|]. intros x. by rewrite list_elem_of_filter; intros []. Qed.

Lemma PathForSpec_segs b spec p :
  named b spec → PathForSpec spec b = Some p →
  p = path_of (spec_segs b spec) ∧ Forall good_seg (spec_segs b spec).
Proof.
  intros (Hj & Hb & Hseg) Hp. unfold PathForSpec, spec_segs in *.
  case_bool_decide as H1.
  { assert (Forall good_seg [NonPRLogs; jsp_Job spec; jsp_BuildID spec]) as Hg
      by (repeat constructor; try done; apply Hj || apply Hb).
    injection Hp as <-. by rewrite Join_good. }
  case_bool_decide as H2; cycle 1.
  { case_bool_decide; [|done]. injection Hp as <-.
    assert (Forall good_seg [PRLogs; "pull"; "batch"; jsp_Job spec; jsp_BuildID spec]) as Hg
      by (repeat constructor; try done; apply Hj || apply Hb).
    by rewrite Join_good. }
  unfold pull_segs in *. destruct (jsp_Refs spec) as [refs|]; [|done]. cbn in Hp |- *.
  destruct (refs_Pulls refs) as [|pull ?]; [done|]. cbn in Hp |- *. injection Hp as <-.
  specialize (Hseg refs eq_refl). cbn zeta in Hseg.
  set (seg := b (refs_Org refs) (refs_Repo refs)) in *. pose proof (number_good (pull_Number pull)) as Hn.
  rewrite <- Join_filter. rewrite !filter_cons.
  rewrite !(decide_True (P := itoa _ ≠ "")), !(decide_True (P := PRLogs ≠ "")), !(decide_True (P := "pull" ≠ ""))
    by (done || apply Hn).
  rewrite (decide_True (P := jsp_Job _ ≠ "")), (decide_True (P := jsp_BuildID _ ≠ ""))
    by (apply Hj || apply Hb).
  assert (Forall good_seg [PRLogs; "pull"]) as Hpre by (repeat constructor; done).
  assert (Forall good_seg [itoa (pull_Number pull); jsp_Job spec; jsp_BuildID spec]) as Hpost
    by (repeat constructor; apply Hn || apply Hj || apply Hb).
  inversion_clear Hpre as [|?? G1 G2]. inversion_clear G2 as [|?? G2' _].
  case_decide as Hs; rewrite ?filter_nil; cbn [app].
  - destruct Hseg as [?|Hseg]; [done|].
    assert (Forall good_seg [PRLogs; "pull"; seg; itoa (pull_Number pull); jsp_Job spec; jsp_BuildID spec])
      by (by repeat (constructor; [done|])).
    by rewrite Join_good.
  - assert (Forall good_seg [PRLogs; "pull"; itoa (pull_Number pull); jsp_Job spec; jsp_BuildID spec])
      by (by repeat (constructor; [done|])).
    by rewrite Join_good.
Qed.

(** Presubmits, batches, and the rest have trees of their own. *)
Definition tree (spec : JobSpec) : nat :=
  if bool_decide (jsp_Type spec = PresubmitJob) then 0
  else if bool_decide (jsp_Type spec = BatchJob) then 1 else 2.

(** The path of a run's artifacts tells the tree, the job and the build, and for a
    presubmit the pull request and the segment of its repository. *)
Lemma PathForSpec_ok b s1 s2 p :
  named b s1 → named b s2 → PathForSpec s1 b = Some p → PathForSpec s2 b = Some p →
  tree s1 = tree s2 ∧ jsp_Job s1 = jsp_Job s2 ∧ jsp_BuildID s1 = jsp_BuildID s2 ∧
  (jsp_Type s1 = PresubmitJob → pull_segs b s1 = pull_segs b s2).
Proof.
  intros Hn1 Hn2 H1 H2.
  destruct (PathForSpec_segs _ _ _ Hn1 H1) as [-> G1].
  destruct (PathForSpec_segs _ _ _ Hn2 H2) as [E G2]. apply path_of_inj in E; [|done..].
  assert (∀ s q, PathForSpec s b = Some q →
    (tree s = 2 ∧ spec_segs b s = [NonPRLogs; jsp_Job s; jsp_BuildID s] ∧ jsp_Type s ≠ PresubmitJob) ∨
    (tree s = 1 ∧ spec_segs b s = [PRLogs; "pull"; "batch"; jsp_Job s; jsp_BuildID s] ∧ jsp_Type s ≠ PresubmitJob) ∨
    (tree s = 0 ∧ ∃ seg n, pull_segs b s = Some [seg; itoa n] ∧
       spec_segs b s = [PRLogs; "pull"] ++ (if bool_decide (seg = "") then [] else [seg])
         ++ [itoa n; jsp_Job s; jsp_BuildID s])) as Hcases.
  { clear. intros s q Hq. unfold PathForSpec, tree, spec_segs in *.
    destruct (bool_decide_reflect (jsp_Type s = PeriodicJob ∨ jsp_Type s = PostsubmitJob)) as [Ht|Ht].
    { left. by destruct Ht as [-> | ->]. }
    right. destruct (bool_decide_reflect (jsp_Type s = PresubmitJob)) as [Hp|Hp].
    - right. split; [done|]. unfold pull_segs in *. destruct (jsp_Refs s) as [refs|]; [|done].
      cbn -[filter] in *. destruct (refs_Pulls refs) as [|pull ?]; [done|]. cbn -[filter].
      exists (b (refs_Org refs) (refs_Repo refs)), (pull_Number pull). split; [done|].
      rewrite !filter_cons, filter_nil. rewrite (decide_True (P := itoa _ ≠ "")) by apply number_good.
      case_decide; case_bool_decide; done.
    - left. case_bool_decide; done. }
  assert (∀ n, itoa n ≠ "batch") as Hbatch.
  { intros n En. destruct (itoa_chars n) as [Hc _]. rewrite En in Hc. by vm_compute in Hc. }
  destruct (Hcases _ _ H1) as [(T1 & E1 & P1)|[(T1 & E1 & P1)|(T1 & seg1 & n1 & S1 & E1)]],
    (Hcases _ _ H2) as [(T2 & E2 & P2)|[(T2 & E2 & P2)|(T2 & seg2 & n2 & S2 & E2)]];
    rewrite T1, T2; rewrite E1, E2 in E; clear T1 T2 E1 E2;
    repeat case_bool_decide; cbn in E; simplify_eq; try done;
    try (exfalso; by eapply Hbatch); rewrite S1, S2; by split_and!.
Qed.
