(* ===== verification/Decorate.v ===== *)
(** * The pod of a job (pod-utils/decorate/podspec.go)

    A ProwJob becomes a pod that runs the job's container; decorated, its sources are
    cloned before by one container, and what it leaves is uploaded by others.  The
    utilities get their options as JSON in an environment variable: the encoding is a
    parameter, so that theorems speak about the options.  [None] is a panic. *)

From S2P Require Import Prelude Api JobConfig PjUtil GoText Paths JobSpec Samples.
#[local] Open Scope go_scope.

(** Fallible and possibly panicking code. *)
Definition pbind {A B} (m : may_panic (result A)) (k : A → may_panic (result B)) : may_panic (result B) :=
  match m with
  | None => None
  | Some (Err e) => Some (Err e)
  | Some (Ok a) => k a
  end.
#[local] Notation "'let*' x ':=' m 'in' k" := (pbind m (fun x => k))
  (at level 200, x pattern, m at level 100, k at level 200).
Definition pret {A} (a : A) : may_panic (result A) := Some (Ok a).
Definition perr {A} (e : error) : may_panic (result A) := Some (Err e).
Definition pderef {A} (p : option A) : may_panic (result A) :=
  match p with Some a => pret a | None => None end.

(** ** Names *)

Definition logMountName : string := "logs".
Definition logMountPath : string := "/logs".
Definition artifactsEnv : string := "ARTIFACTS".
Definition artifactsPath : string := logMountPath +:+ "/artifacts".
Definition codeMountName : string := "code".
Definition codeMountPath : string := "/home/prow/go".
Definition gopathEnv : string := "GOPATH".
Definition toolsMountName : string := "tools".
Definition toolsMountPath : string := "/tools".
Definition gcsCredentialsMountName : string := "gcs-credentials".
Definition gcsCredentialsMountPath : string := "/secrets/gcs".
Definition outputMountName : string := "output".
Definition outputMountPath : string := "/output".
Definition oauthTokenFilename : string := "oauth-token".
Definition TestContainerName : string := "test".
Definition cloneRefsName : string := "clonerefs".
Definition cloneRefsCommand : string := "/clonerefs".

Definition Labels : list string := [ProwJobTypeLabel; CreatedByProw; ProwJobIDLabel].
Definition VolumeMounts : list string := [logMountName; codeMountName; toolsMountName; gcsCredentialsMountName].
Definition VolumeMountPaths : list string := [logMountPath; codeMountPath; toolsMountPath; gcsCredentialsMountPath].

(** ** Options of the utilities *)

Record CloneOptions := mkCloneOptions {
  co_SrcRoot : string; co_Log : string; co_GitUserName : string; co_GitUserEmail : string;
  co_GitRefs : list Refs; co_KeyFiles : list string; co_OauthTokenFile : string;
  co_HostFingerprints : list string; co_CookiePath : string }.
Record WrapperOptions := mkWrapperOptions {
  wo_Args : list string; wo_ProcessLog : string; wo_MarkerFile : string; wo_MetadataFile : string }.
Record EntrypointOptions := mkEntrypointOptions {
  eo_Timeout : Z; eo_GracePeriod : Z; eo_ArtifactDir : string; eo_PreviousMarker : string;
  eo_AlwaysZero : bool; eo_Options : WrapperOptions }.
Record GCSUploadOptions := mkGCSUploadOptions {
  go_Items : list string; go_SubDir : string; go_GCSConfiguration : option GCSConfiguration;
  go_GcsCredentialsFile : string; go_DryRun : bool }.
Record InitUploadOptions := mkInitUploadOptions { io_Options : GCSUploadOptions; io_Log : string }.
Record SidecarOptions := mkSidecarOptions {
  so_GcsOptions : GCSUploadOptions; so_Entries : list WrapperOptions; so_EntryError : bool }.

(** [json.Marshal] of the specification and of the options *)
Record Encoders := mkEncoders {
  enc_job : JobSpec → result string;
  enc_clonerefs : CloneOptions → result string;
  enc_entrypoint : EntrypointOptions → result string;
  enc_initupload : InitUploadOptions → result string;
  enc_sidecar : SidecarOptions → result string }.

(** ** Volumes, paths and environments *)

(** The environment, by name. *)
Definition KubeEnv (environment : gmap string string) : list EnvVar :=
  (λ key, mkEnvVar key (default "" (environment !! key))) <$> sort_strings (map_to_list environment).*1.

Definition tmpVolume (name : string) : Volume * VolumeMount :=
  (mkVolume name EmptyDir, mkVolumeMount name "/tmp" false).

Definition oauthVolume (secret key : string) : Volume * VolumeMount :=
  let name := "oauth-secret-" +:+ secret in
  (mkVolume name (SecretVolume secret None [(key, "./" +:+ oauthTokenFilename)]),
   mkVolumeMount name "/secrets/oauth" true).

(** The mode is octal 0400. *)
Definition sshVolume (secret : string) : Volume * VolumeMount :=
  let name := "ssh-keys-" +:+ secret in
  (mkVolume name (SecretVolume secret (Some 256%Z) []), mkVolumeMount name (Join ["/secrets/ssh"; secret]) true).

(** A secret, or a secret and the key in it; and the path of the cookie file. *)
Definition cookiefileVolume (secret : string) : Volume * VolumeMount * string :=
  let '(cookieSecret, base) := match cut "/" secret with Some parts => parts | None => (secret, secret) end in
  (mkVolume "cookiefile" (SecretVolume cookieSecret (Some 256%Z) []),
   mkVolumeMount "cookiefile" "/secrets/cookiefile" true, Join ["/secrets/cookiefile"; base]).

Definition CloneLogPath (logMount : VolumeMount) : string := Join [vm_MountPath logMount; "clone.json"].
Definition processLog (log : VolumeMount) (prefix : string) : string :=
  Join [vm_MountPath log; if bool_decide (prefix = "") then "process-log.txt" else prefix +:+ "-log.txt"].
Definition markerFile (log : VolumeMount) (prefix : string) : string :=
  Join [vm_MountPath log; if bool_decide (prefix = "") then "marker-file.txt" else prefix +:+ "-marker.txt"].
Definition artifactsDir (log : VolumeMount) : string := Join [vm_MountPath log; "artifacts"].
Definition metadataFile (log : VolumeMount) (prefix : string) : string :=
  Join [artifactsDir log; if bool_decide (prefix = "") then "metadata.json" else prefix +:+ "-metadata.json"].
Definition entrypointLocation (tools : VolumeMount) : string := Join [vm_MountPath tools; "entrypoint"].

(** [clone.PathForRefs] *)
Definition PathForRefs (baseDir : string) (refs : Refs) : string :=
  let clonePath := if bool_decide (refs_PathAlias refs ≠ "") then refs_PathAlias refs
                   else "github.com/" +:+ refs_Org refs +:+ "/" +:+ refs_Repo refs in
  baseDir +:+ "/src/" +:+ clonePath.

(** The refs that say so, or the first. *)
Definition DetermineWorkDir (baseDir : string) (refs : list Refs) : may_panic string :=
  match head (filter (λ ref, refs_WorkDir ref = true) refs) with
  | Some ref => Some (PathForRefs baseDir ref)
  | None => PathForRefs baseDir <$> head refs
  end.

Section decorate.
Context (enc : Encoders).

(** ** The containers *)

Definition clone_env (opt : CloneOptions) : result (list EnvVar) :=
  let? cloneConfigEnv := enc_clonerefs enc opt in Ok (KubeEnv {["CLONEREFS_OPTIONS" := cloneConfigEnv]}).

(** The volumes that hold secrets, with the mounts and what the options say about them. *)
Definition clone_secrets (dc : DecorationConfig)
    : list (Volume * VolumeMount) * list string * string * string * list string :=
  let ssh := sshVolume <$> dc_SSHKeySecrets dc in
  let sshKeyPaths := vm_MountPath ∘ snd <$> ssh in
  let '(oauth, oauthMountPath) :=
    match dc_OauthTokenSecret dc with
    | Some secret =>
        let vm := oauthVolume (ots_Name secret) (ots_Key secret) in
        ([vm], Join [vm_MountPath vm.2; oauthTokenFilename])
    | None => ([], "")
    end in
  let '(cookie, cookiefilePath, cloneArgs) :=
    (if bool_decide (dc_CookiefileSecret dc = "") then ([], "", [])
     else let '(v, vm, vp) := cookiefileVolume (dc_CookiefileSecret dc) in
          ([(v, vm)], vp, ["--cookiefile=" +:+ vp])) in
  (ssh ++ oauth ++ [tmpVolume "clonerefs-tmp"] ++ cookie, sshKeyPaths, oauthMountPath, cookiefilePath, cloneArgs).

(** The container, what it clones, and its volumes; none if there is nothing to clone. *)
Definition CloneRefs (pj : ProwJob) (codeMount logMount : VolumeMount)
    : may_panic (result (option (Container * list Refs * list Volume))) :=
  match spec_DecorationConfig (pj_Spec pj) with
  | None => pret None
  | Some dc =>
      if default false (dc_SkipCloning dc) then pret None
      else
        let refs := option_list (spec_Refs (pj_Spec pj)) ++ spec_ExtraRefs (pj_Spec pj) in
        if bool_decide (length refs = 0) then pret None
        else if bool_decide (vm_Name codeMount = "" ∨ vm_MountPath codeMount = "")
        then perr (errors_New "codeMount must set Name and MountPath")
        else if bool_decide (vm_Name logMount = "" ∨ vm_MountPath logMount = "")
        then perr (errors_New "logMount must set Name and MountPath")
        else
          let '(cloneVolumes, sshKeyPaths, oauthMountPath, cookiefilePath, cloneArgs) := clone_secrets dc in
          let* env := Some (wrap_err "clone env: %v" (clone_env
            (mkCloneOptions (vm_MountPath codeMount) (CloneLogPath logMount) "ci-robot" "ci-robot@k8s.io" refs
               sshKeyPaths oauthMountPath (dc_SSHHostFingerprints dc) cookiefilePath))) in
          let* images := pderef (dc_UtilityImages dc) in
          pret (Some (mkContainer cloneRefsName (ui_CloneRefs images) [cloneRefsCommand] cloneArgs "" env
                        ([logMount; codeMount] ++ cloneVolumes.*2), refs, cloneVolumes.*1))
  end.

(** The job's container runs below the entrypoint. *)
Definition InjectEntrypoint (c : Container) (timeout gracePeriod : Z) (prefix previousMarker : string)
    (exitZero : bool) (log tools : VolumeMount) : result (Container * WrapperOptions) :=
  let wrapperOptions := mkWrapperOptions (ct_Command c ++ ct_Args c) (processLog log prefix)
                          (markerFile log prefix) (metadataFile log prefix) in
  let? entrypointConfigEnv := enc_entrypoint enc
    (mkEntrypointOptions timeout gracePeriod (artifactsDir log) previousMarker exitZero wrapperOptions) in
  Ok (mkContainer (ct_Name c) (ct_Image c) [entrypointLocation tools] [] (ct_WorkingDir c)
        (ct_Env c ++ KubeEnv {["ENTRYPOINT_OPTIONS" := entrypointConfigEnv]})
        (ct_VolumeMounts c ++ [log; tools]), wrapperOptions).

Definition PlaceEntrypoint (image : string) (toolsMount : VolumeMount) : Container :=
  mkContainer "place-entrypoint" image ["/bin/cp"] ["/entrypoint"; entrypointLocation toolsMount] "" [] [toolsMount].

(** In local mode the output directory is written through the pointer to the
    configuration: that it then also stands in the ProwJob is not followed. *)
Definition GCSOptions (dc : DecorationConfig) (localMode : bool)
    : may_panic (option Volume * option VolumeMount * GCSUploadOptions) :=
  if localMode then
    gcs ← dc_GCSConfiguration dc;
    Some (None, None, mkGCSUploadOptions [] ""
      (Some (mkGCSConfiguration (gcs_Bucket gcs) (gcs_PathPrefix gcs) (gcs_PathStrategy gcs) (gcs_DefaultOrg gcs)
               (gcs_DefaultRepo gcs) (gcs_MediaTypes gcs) outputMountPath)) "" false)
  else
    Some (Some (mkVolume gcsCredentialsMountName (SecretVolume (dc_GCSCredentialsSecret dc) None [])),
          Some (mkVolumeMount gcsCredentialsMountName gcsCredentialsMountPath false),
          mkGCSUploadOptions [] "" (dc_GCSConfiguration dc) (gcsCredentialsMountPath +:+ "/service-account.json") false).

Definition InitUpload (image : string) (opt : GCSUploadOptions) (creds cloneLogMount outputMount : option VolumeMount)
    (encodedJobSpec : string) : result Container :=
  let log := match cloneLogMount with Some m => CloneLogPath m | None => "" end in
  let? initUploadConfigEnv := wrap_err "could not encode initupload configuration as JSON: %v"
                                (enc_initupload enc (mkInitUploadOptions opt log)) in
  Ok (mkContainer "initupload" image ["/initupload"] [] ""
        (KubeEnv (<["INITUPLOAD_OPTIONS" := initUploadConfigEnv]> {[JobSpecEnv := encodedJobSpec]}))
        (option_list cloneLogMount ++ option_list creds ++ option_list outputMount)).

Definition Sidecar (image : string) (gcsOptions : GCSUploadOptions) (gcsMount : option VolumeMount)
    (logMount : VolumeMount) (outputMount : option VolumeMount) (encodedJobSpec : string)
    (requirePassingEntries : bool) (wrappers : list WrapperOptions) : result Container :=
  let opt := mkGCSUploadOptions (go_Items gcsOptions ++ [artifactsDir logMount]) (go_SubDir gcsOptions)
               (go_GCSConfiguration gcsOptions) (go_GcsCredentialsFile gcsOptions) (go_DryRun gcsOptions) in
  let? sidecarConfigEnv := enc_sidecar enc (mkSidecarOptions opt wrappers requirePassingEntries) in
  Ok (mkContainer "sidecar" image ["/sidecar"] [] ""
        (KubeEnv (<["SIDECAR_OPTIONS" := sidecarConfigEnv]> {[JobSpecEnv := encodedJobSpec]}))
        ([logMount] ++ option_list gcsMount ++ option_list outputMount)).

(** ** Decoration *)

Definition logMount : VolumeMount := mkVolumeMount logMountName logMountPath false.
Definition codeMount : VolumeMount := mkVolumeMount codeMountName codeMountPath false.
Definition toolsMount : VolumeMount := mkVolumeMount toolsMountName toolsMountPath false.
Definition output_mount (localMode : bool) : option VolumeMount :=
  if localMode then Some (mkVolumeMount outputMountName outputMountPath false) else None.
Definition output_volume (outputDir : string) : option Volume :=
  if bool_decide (outputDir ≠ "") then Some (mkVolume outputMountName (HostPath outputDir)) else None.

Definition add_env (env : list EnvVar) (c : Container) : Container :=
  mkContainer (ct_Name c) (ct_Image c) (ct_Command c) (ct_Args c) (ct_WorkingDir c) (ct_Env c ++ env) (ct_VolumeMounts c).

(** The job's container gets the sources. *)
Definition with_code (workDir : string) (c : Container) : Container :=
  mkContainer (ct_Name c) (ct_Image c) (ct_Command c) (ct_Args c) workDir (ct_Env c) (ct_VolumeMounts c ++ [codeMount]).

Definition requirePassingEntries : bool := true.

Definition decorate (spec : PodSpec) (pj : ProwJob) (dc : DecorationConfig) (rawEnv : gmap string string)
    (outputDir : string) : may_panic (result PodSpec) :=
  let rawEnv := <[gopathEnv := codeMountPath]> (<[artifactsEnv := artifactsPath]> rawEnv) in
  let localMode := bool_decide (outputDir ≠ "") in
  let outputMount := output_mount localMode in
  let* (gcsVol, gcsMount, gcsOptions) := (Ok <$> GCSOptions dc localMode) in
  let* cloner := (wrap_err "create clonerefs container: %v" <$> CloneRefs pj codeMount logMount) in
  let encodedJobSpec := default "" (rawEnv !! JobSpecEnv) in
  let* images := pderef (dc_UtilityImages dc) in
  let* initUpload := Some (wrap_err "create initupload container: %v"
    (InitUpload (ui_InitUpload images) gcsOptions gcsMount (const logMount <$> cloner) outputMount encodedJobSpec)) in
  let initContainers := option_list ((λ c, c.1.1) <$> cloner) ++ ps_InitContainers spec ++
    [initUpload; PlaceEntrypoint (ui_Entrypoint images) toolsMount] in
  match ps_Containers spec with
  | [] => None
  | c0 :: containers =>
      let* (c0, wrapperOptions) := Some (wrap_err "wrap container: %v"
        (InjectEntrypoint (add_env (KubeEnv rawEnv) c0) (default 0%Z (dc_Timeout dc)) (default 0%Z (dc_GracePeriod dc))
           "" "" false logMount toolsMount)) in
      let* sidecar := Some (wrap_err "create sidecar: %v"
        (Sidecar (ui_Sidecar images) gcsOptions gcsMount logMount outputMount encodedJobSpec
           (negb requirePassingEntries) [wrapperOptions])) in
      let volumes := ps_Volumes spec ++ [mkVolume logMountName EmptyDir; mkVolume toolsMountName EmptyDir] ++
        option_list gcsVol ++ option_list (output_volume outputDir) in
      let with_spec c0 volumes :=
        mkPodSpec initContainers (c0 :: containers ++ [sidecar]) volumes (ps_RestartPolicy spec)
          (ps_ServiceAccountName spec) (ps_AutomountServiceAccountToken spec) in
      match cloner with
      | Some (_, refs, cloneVolumes) =>
          let* workDir := (Ok <$> DetermineWorkDir (vm_MountPath codeMount) refs) in
          pret (with_spec (with_code workDir c0) (volumes ++ cloneVolumes ++ [mkVolume codeMountName EmptyDir]))
      | None => pret (with_spec c0 volumes)
      end
  end.

(** ** The pod *)

(** [coreapi.Pod], as it is made here. *)
Record BuiltPod := mkBuiltPod {
  bp_Name : string; bp_Labels : gmap string string; bp_Annotations : gmap string string; bp_Spec : PodSpec }.

(** [validation.IsValidLabelValue] *)
Context (IsValidLabelValue : string → bool).

Definition LabelsAndAnnotationsForJob (pj : ProwJob) : gmap string string * gmap string string :=
  LabelsAndAnnotationsForSpec IsValidLabelValue (pj_Spec pj)
    (<[ProwBuildIDLabel := st_BuildID (pj_Status pj)]> (<[ProwJobIDLabel := pj_Name pj]> (pj_Labels pj)))
    (pj_Annotations pj).

(** The first container is the test; a token is mounted only if asked for. *)
Definition prepare_spec (spec : PodSpec) : may_panic PodSpec :=
  match ps_Containers spec with
  | [] => None
  | c :: containers =>
      let test := mkContainer TestContainerName (ct_Image c) (ct_Command c) (ct_Args c) (ct_WorkingDir c) (ct_Env c)
                    (ct_VolumeMounts c) in
      Some (mkPodSpec (ps_InitContainers spec) (test :: containers) (ps_Volumes spec) "Never" (ps_ServiceAccountName spec)
        (if bool_decide (ps_AutomountServiceAccountToken spec = None ∧ ps_ServiceAccountName spec = "") then Some false
         else ps_AutomountServiceAccountToken spec))
  end.

Definition add_env0 (env : list EnvVar) (spec : PodSpec) : PodSpec :=
  match ps_Containers spec with
  | [] => spec
  | c :: containers =>
      mkPodSpec (ps_InitContainers spec) (add_env env c :: containers) (ps_Volumes spec) (ps_RestartPolicy spec)
        (ps_ServiceAccountName spec) (ps_AutomountServiceAccountToken spec)
  end.

Definition ProwJobToPodLocal (pj : ProwJob) (buildID outputDir : string) : may_panic (result BuiltPod) :=
  match spec_PodSpec (pj_Spec pj) with
  | None => perr (Errorf "prowjob %q lacks a pod spec" [AStr (pj_Name pj)])
  | Some podSpec =>
      let* rawEnv := EnvForSpec (enc_job enc) (NewJobSpec (pj_Spec pj) buildID (pj_Name pj)) in
      let* spec := (Ok <$> prepare_spec podSpec) in
      let* spec := match spec_DecorationConfig (pj_Spec pj) with
                   | None => pret (add_env0 (KubeEnv rawEnv) spec)
                   | Some dc => wrap_err "error decorating podspec: %v" <$> decorate spec pj dc rawEnv outputDir
                   end in
      let '(podLabels, annotations) := LabelsAndAnnotationsForJob pj in
      pret (mkBuiltPod (pj_Name pj) podLabels annotations spec)
  end.
Definition ProwJobToPod (pj : ProwJob) (buildID : string) : may_panic (result BuiltPod) :=
  ProwJobToPodLocal pj buildID "".
End decorate.

(** ** A well-formed pod *)

Definition all_containers (spec : PodSpec) : list Container := ps_InitContainers spec ++ ps_Containers spec.

(** What the API server demands of names, mounts and paths; and no variable is set twice. *)
Record well_formed (spec : PodSpec) : Prop := {
  wf_containers : NoDup (ct_Name <$> all_containers spec);
  wf_volumes : NoDup (vol_Name <$> ps_Volumes spec);
  wf_backed c m : c ∈ all_containers spec → m ∈ ct_VolumeMounts c → vm_Name m ∈ vol_Name <$> ps_Volumes spec;
  wf_paths c : c ∈ all_containers spec → NoDup (vm_MountPath <$> ct_VolumeMounts c);
  wf_env c : c ∈ all_containers spec → NoDup (env_Name <$> ct_Env c) }.

(** The volumes of the secrets. *)
Definition secret_volumes (dc : DecorationConfig) : list string :=
  vol_Name <$> (clone_secrets dc).1.1.1.1.*1.
Definition hidden_volumes (dc : DecorationConfig) (outputDir : string) : list string :=
  secret_volumes dc ++ (vol_Name <$> option_list (output_volume outputDir)).
(** Variables that decoration sets. *)
Definition hidden_env : list string := [artifactsEnv; gopathEnv; "ENTRYPOINT_OPTIONS"].
Definition hidden_paths : list string := [logMountPath; toolsMountPath; codeMountPath].

(** A container whose names do not clash with those of the decoration. *)
Record fits (jobType : ProwJobType) (dc : DecorationConfig) (outputDir : string) (c : Container) (volumes : list Volume)
    : Prop := {
  fit_env : NoDup (env_Name <$> ct_Env c) ∧
    ∀ e, e ∈ ct_Env c → env_Name e ∉ EnvForType jobType ++ hidden_env;
  fit_volumes : NoDup (vol_Name <$> volumes) ∧
    ∀ v, v ∈ volumes → vol_Name v ∉ VolumeMounts ++ hidden_volumes dc outputDir;
  fit_mounts : NoDup (vm_MountPath <$> ct_VolumeMounts c) ∧
    ∀ m, m ∈ ct_VolumeMounts c → vm_MountPath m ∉ hidden_paths ∧ vm_Name m ∈ vol_Name <$> volumes }.

(** A complete decoration configuration: one kind of secret for git, each once and by a name. *)
Record decorates (dc : DecorationConfig) (images : UtilityImages) : Prop := {
  dec_images : dc_UtilityImages dc = Some images;
  dec_gcs : is_Some (dc_GCSConfiguration dc);
  dec_secrets : NoDup (dc_SSHKeySecrets dc) ∧ Forall good_seg (dc_SSHKeySecrets dc);
  dec_one : dc_OauthTokenSecret dc = None ∨ dc_SSHKeySecrets dc = [] }.

(** What is encoded can be. *)
Record total (enc : Encoders) : Prop := {
  tot_job o : ∃ s, enc_job enc o = Ok s;
  tot_clonerefs o : ∃ s, enc_clonerefs enc o = Ok s;
  tot_entrypoint o : ∃ s, enc_entrypoint enc o = Ok s;
  tot_initupload o : ∃ s, enc_initupload enc o = Ok s;
  tot_sidecar o : ∃ s, enc_sidecar enc o = Ok s }.

(** What is cloned. *)
Definition cloned (pj : ProwJob) (dc : DecorationConfig) : list Refs :=
  if default false (dc_SkipCloning dc) then []
  else option_list (spec_Refs (pj_Spec pj)) ++ spec_ExtraRefs (pj_Spec pj).

(** ** Environments *)

Lemma KubeEnv_names m : env_Name <$> KubeEnv m ≡ₚ elements (dom m).
Proof.
  unfold KubeEnv. rewrite <- list_fmap_compose.
  assert (env_Name ∘ (λ key, mkEnvVar key (default "" (m !! key))) = id) as -> by done.
  rewrite list_fmap_id, sort_strings_perm. apply NoDup_Permutation; [apply NoDup_fst_map_to_list|apply NoDup_elements|].
  intros k. rewrite elem_of_elements, elem_of_dom, list_elem_of_fmap. split.
  - intros ([k' v] & -> & Hk%elem_of_map_to_list). by exists v.
  - intros [v Hv]. exists (k, v). by rewrite elem_of_map_to_list.
Qed.

Lemma KubeEnv_NoDup m : NoDup (env_Name <$> KubeEnv m).
Proof. rewrite KubeEnv_names. apply NoDup_elements. Qed.

Lemma elem_of_KubeEnv m e : e ∈ KubeEnv m → env_Name e ∈ dom m.
Proof.
  intros He. apply elem_of_elements. rewrite <- KubeEnv_names. by apply list_elem_of_fmap_2.
Qed.

Lemma NoDup_env_app (l1 l2 : list EnvVar) :
  NoDup (env_Name <$> l1) → NoDup (env_Name <$> l2) → (∀ e, e ∈ l1 → env_Name e ∉ env_Name <$> l2) →
  NoDup (env_Name <$> l1 ++ l2).
Proof.
  intros H1 H2 H3. rewrite fmap_app. apply NoDup_app. split_and!; [done| |done].
  intros x (e & -> & He)%list_elem_of_fmap. by apply H3.
Qed.

(** The environment of a job is of its type. *)
Lemma job_env Marshal spec raw env :
  job_type (jsp_Type spec) → Marshal spec = Ok raw → EnvForSpec Marshal spec = Some (Ok env) →
  dom env ⊆ set_of (EnvForType (jsp_Type spec)).
Proof.
  intros Ht Hraw He. destruct (EnvForSpec_ok Marshal spec raw Ht Hraw) as (_ & Henv & _).
  destruct (Henv env He) as [-> _]. set_solver.
Qed.

(** ** Secrets *)

Lemma ssh_path s : good_seg s → Join ["/secrets/ssh"; s] = "/secrets/ssh/" +:+ s.
Proof.
  intros Hg. pose proof Hg as (Hs & Hn & Hd & Hdd). unfold Join. rewrite !filter_cons, filter_nil.
  rewrite decide_True by done. rewrite decide_True by done. unfold Clean.
  change (string_join "/" ["/secrets/ssh"; s]) with ("/secrets/ssh" +:+ String "/" s).
  assert (split_char "/" ("/secrets/ssh" +:+ String "/" s) = [""; "secrets"; "ssh"; s]) as ->.
  { change ("/secrets/ssh" +:+ String "/" s) with ("" +:+ String "/" ("secrets" +:+ String "/" ("ssh" +:+ String "/" s))).
    rewrite !split_char_app by done. by rewrite split_char_none. }
  cbn. rewrite (bool_decide_eq_false_2 (s = "" ∨ s = ".")) by naive_solver.
  by rewrite (bool_decide_eq_false_2 (s = "..")).
Qed.

Lemma secret_mounts_backed dc m :
  m ∈ (clone_secrets dc).1.1.1.1.*2 → vm_Name m ∈ secret_volumes dc.
Proof.
  unfold secret_volumes. set (l := (clone_secrets dc).1.1.1.1).
  assert (Forall (λ vm : Volume * VolumeMount, vol_Name vm.1 = vm_Name vm.2) l) as Hl.
  { subst l. unfold clone_secrets, cookiefileVolume. cbn.
    destruct (dc_OauthTokenSecret dc), (bool_decide (dc_CookiefileSecret dc = "")), (cut "/" (dc_CookiefileSecret dc)) as [[? ?]|];
      cbn; repeat (apply Forall_app; split); repeat constructor; try done;
      apply Forall_fmap, Forall_forall; done. }
  intros ([v m'] & -> & Hin)%list_elem_of_fmap. rewrite Forall_forall in Hl. specialize (Hl _ Hin). cbn in Hl |- *.
  rewrite <- Hl. apply list_elem_of_fmap_2. by apply (list_elem_of_fmap_2 fst _ (v, m')).
Qed.

(** The secrets, tidied up. *)
Lemma clone_secrets_volumes dc :
  (clone_secrets dc).1.1.1.1 =
    (sshVolume <$> dc_SSHKeySecrets dc) ++
    ((λ s, oauthVolume (ots_Name s) (ots_Key s)) <$> option_list (dc_OauthTokenSecret dc)) ++
    [tmpVolume "clonerefs-tmp"] ++
    (if bool_decide (dc_CookiefileSecret dc = "") then [] else [(cookiefileVolume (dc_CookiefileSecret dc)).1]).
Proof.
  unfold clone_secrets. destruct (dc_OauthTokenSecret dc), (bool_decide (dc_CookiefileSecret dc = "")); try done;
    by destruct (cookiefileVolume _) as [[]].
Qed.

Lemma cookiefile_names secret :
  vol_Name (cookiefileVolume secret).1.1 = "cookiefile" ∧
  vm_MountPath (cookiefileVolume secret).1.2 = "/secrets/cookiefile".
Proof. unfold cookiefileVolume. by destruct (cut "/" secret) as [[]|]. Qed.

Lemma secret_volumes_NoDup dc images : decorates dc images → NoDup (secret_volumes dc).
Proof.
  intros [_ _ [Hnd Hg] Hone]. unfold secret_volumes. rewrite clone_secrets_volumes, !fmap_app, <- !list_fmap_compose.
  pose proof (cookiefile_names (dc_CookiefileSecret dc)) as [Hcookie _].
  assert (NoDup ((vol_Name ∘ fst ∘ sshVolume) <$> dc_SSHKeySecrets dc)) as Hssh.
  { apply NoDup_fmap_2; [|done]. intros s1 s2. cbn. intros E. by apply (inj (String.append "ssh-keys-")) in E. }
  apply NoDup_app. split_and!; [exact Hssh| |].
  - intros x (s & -> & Hs)%list_elem_of_fmap.
    destruct Hone as [-> | Hnil]; [|rewrite Hnil in Hs; by apply not_elem_of_nil in Hs].
    destruct (bool_decide (dc_CookiefileSecret dc = "")); cbn; rewrite ?Hcookie;
      rewrite ?elem_of_cons, elem_of_nil; naive_solver discriminate.
  - destruct (dc_OauthTokenSecret dc) as [o|], (bool_decide (dc_CookiefileSecret dc = "")); cbn; rewrite ?Hcookie;
      repeat (apply NoDup_cons; split; [rewrite ?elem_of_cons, elem_of_nil; naive_solver discriminate|]);
      apply NoDup_nil_2.
Qed.

Lemma clone_paths_NoDup dc images : decorates dc images →
  NoDup (vm_MountPath <$> [logMount; codeMount] ++ (clone_secrets dc).1.1.1.1.*2).
Proof.
  intros [_ _ [Hnd Hg] Hone]. rewrite clone_secrets_volumes, !fmap_app, <- !list_fmap_compose.
  pose proof (cookiefile_names (dc_CookiefileSecret dc)) as [_ Hcookie].
  assert ((vm_MountPath ∘ snd ∘ sshVolume) <$> dc_SSHKeySecrets dc =
    String.append "/secrets/ssh/" <$> dc_SSHKeySecrets dc) as ->.
  { apply list_fmap_ext_ne || apply list_fmap_ext. intros i s Hs. cbn. apply ssh_path.
    rewrite Forall_forall in Hg. apply Hg. by eapply list_elem_of_lookup_2. }
  rewrite (assoc_L (++)), (Permutation_app_comm (vm_MountPath <$> [logMount; codeMount])), <- (assoc_L (++)).
  apply NoDup_app. split_and!.
  - apply NoDup_fmap_2; [|done]. intros s1 s2 E. by apply (inj (String.append "/secrets/ssh/")) in E.
  - intros x (s & -> & Hs)%list_elem_of_fmap.
    destruct Hone as [-> | Hnil]; [|rewrite Hnil in Hs; by apply not_elem_of_nil in Hs].
    destruct (bool_decide (dc_CookiefileSecret dc = "")); cbn; rewrite ?Hcookie;
      rewrite ?elem_of_cons, elem_of_nil; naive_solver discriminate.
  - destruct (dc_OauthTokenSecret dc) as [o|], (bool_decide (dc_CookiefileSecret dc = "")); cbn; rewrite ?Hcookie;
      repeat (apply NoDup_cons; split; [rewrite ?elem_of_cons, elem_of_nil; naive_solver discriminate|]);
      apply NoDup_nil_2.
Qed.

(** ** What is built *)

Section built.
Context (enc : Encoders) (Htotal : total enc).

Lemma CloneRefs_ok pj dc images :
  spec_DecorationConfig (pj_Spec pj) = Some dc → decorates dc images →
  ∃ cloner, CloneRefs enc pj codeMount logMount = Some (Ok cloner) ∧
    match cloner with
    | None => cloned pj dc = []
    | Some (c, refs, volumes) =>
        refs = cloned pj dc ∧ refs ≠ [] ∧ volumes = (clone_secrets dc).1.1.1.1.*1 ∧ ct_Name c = cloneRefsName ∧
        ct_VolumeMounts c = [logMount; codeMount] ++ (clone_secrets dc).1.1.1.1.*2 ∧
        ∃ opt raw, enc_clonerefs enc opt = Ok raw ∧ ct_Env c = KubeEnv {["CLONEREFS_OPTIONS" := raw]} ∧
          co_GitRefs opt = refs ∧ co_Log opt = "/logs/clone.json" ∧ co_SrcRoot opt = codeMountPath
    end.
Proof.
  intros Hdc Hdec. unfold CloneRefs, cloned. rewrite Hdc.
  destruct (default false (dc_SkipCloning dc)); [by exists None|]. cbv zeta.
  set (refs := option_list _ ++ _). destruct (bool_decide_reflect (length refs = 0)) as [Hlen|Hlen].
  { exists None. split; [done|]. by apply length_zero_iff_nil. }
  rewrite !bool_decide_eq_false_2 by (vm_compute; naive_solver).
  destruct (clone_secrets dc) as [[[[vols keys] oauth] cookie] args] eqn:Es.
  set (opt := mkCloneOptions _ _ _ _ _ _ _ _ _). destruct (tot_clonerefs enc Htotal opt) as [raw Hraw].
  unfold clone_env. rewrite Hraw. cbn [rbind wrap_err pbind]. rewrite (dec_images _ _ Hdec). cbn.
  eexists. split; [done|]. cbn. split_and!; try done.
  - intros Hnil. by rewrite Hnil in Hlen.
  - by exists opt, raw.
Qed.

(** The options agree: the sidecar waits for the command that the entrypoint runs, the
    upload reads the log of the clone if there is one, and the entrypoint is where it is put. *)
Definition wired (pj : ProwJob) (dc : DecorationConfig) (user : Container) (env : gmap string string) (spec : PodSpec)
    : Prop :=
  ∃ clone initUpload place test sidecar,
    ps_InitContainers spec = option_list clone ++ [initUpload; place] ∧ ps_Containers spec = [test; sidecar] ∧
    (is_Some clone ↔ cloned pj dc ≠ []) ∧
    ct_Name test = TestContainerName ∧ ct_Image test = ct_Image user ∧
    ct_Command test = [entrypointLocation toolsMount] ∧ ct_Args test = [] ∧
    ct_Args place = ["/entrypoint"; entrypointLocation toolsMount] ∧ ct_VolumeMounts place = [toolsMount] ∧
    (ct_WorkingDir test = ct_WorkingDir user ∧ cloned pj dc = [] ∨
     DetermineWorkDir codeMountPath (cloned pj dc) = Some (ct_WorkingDir test)) ∧
    (∀ c, clone = Some c → ∃ opt raw, enc_clonerefs enc opt = Ok raw ∧ mkEnvVar "CLONEREFS_OPTIONS" raw ∈ ct_Env c ∧
       co_GitRefs opt = cloned pj dc ∧ co_Log opt = "/logs/clone.json" ∧ co_SrcRoot opt = codeMountPath) ∧
    (∃ opt raw, enc_initupload enc opt = Ok raw ∧ mkEnvVar "INITUPLOAD_OPTIONS" raw ∈ ct_Env initUpload ∧
       io_Log opt = (if bool_decide (cloned pj dc = []) then "" else "/logs/clone.json")) ∧
    (∃ opt raw, enc_entrypoint enc opt = Ok raw ∧ mkEnvVar "ENTRYPOINT_OPTIONS" raw ∈ ct_Env test ∧
       wo_Args (eo_Options opt) = ct_Command user ++ ct_Args user ∧ eo_Timeout opt = default 0%Z (dc_Timeout dc) ∧
       ∃ sopt sraw, enc_sidecar enc sopt = Ok sraw ∧ mkEnvVar "SIDECAR_OPTIONS" sraw ∈ ct_Env sidecar ∧
         so_Entries sopt = [eo_Options opt] ∧ go_Items (so_GcsOptions sopt) = [eo_ArtifactDir opt] ∧
         eo_ArtifactDir opt = artifactsPath) ∧
    (∀ k v, env !! k = Some v → k ∉ [artifactsEnv; gopathEnv] → mkEnvVar k v ∈ ct_Env test).

Lemma elem_of_KubeEnv_2 m k v : m !! k = Some v → mkEnvVar k v ∈ KubeEnv m.
Proof.
  intros Hk. unfold KubeEnv. apply list_elem_of_fmap. exists k. rewrite Hk. split; [done|].
  rewrite sort_strings_perm. apply list_elem_of_fmap. exists (k, v). by rewrite elem_of_map_to_list.
Qed.

Lemma GCSOptions_ok dc images outputDir : decorates dc images →
  ∃ gcsVol gcsMount gcsOptions n path,
    GCSOptions dc (bool_decide (outputDir ≠ "")) = Some (gcsVol, gcsMount, gcsOptions) ∧
    vol_Name <$> option_list gcsVol ++ option_list (output_volume outputDir) = [n] ∧
    option_list gcsMount ++ option_list (output_mount (bool_decide (outputDir ≠ ""))) = [mkVolumeMount n path false] ∧
    path ≠ logMountPath ∧ (n = gcsCredentialsMountName ∨ n = outputMountName ∧ n ∈ hidden_volumes dc outputDir) ∧
    go_Items gcsOptions = [].
Proof.
  intros [_ [g Hg] _ _]. unfold GCSOptions, hidden_volumes, output_volume. case_bool_decide; cbn.
  - rewrite Hg. eexists _, _, _, _, _. split_and!; [done..|right|done]. split; [done|].
    apply elem_of_app. right. by left.
  - eexists _, _, _, _, _. split_and!; try done. by left.
Qed.

(** The names of secrets are none of the fixed ones. *)
Lemma secret_names dc x : x ∈ secret_volumes dc → x ∉ outputMountName :: VolumeMounts.
Proof.
  unfold secret_volumes. rewrite clone_secrets_volumes, !fmap_app, <- !list_fmap_compose, !elem_of_app.
  pose proof (cookiefile_names (dc_CookiefileSecret dc)) as [Hcookie _].
  intros [(s & -> & Hs)%list_elem_of_fmap|[(s & -> & Hs)%list_elem_of_fmap|[Hx|Hx]]].
  - unfold VolumeMounts. rewrite !not_elem_of_cons. split_and!; [discriminate..|apply not_elem_of_nil].
  - unfold VolumeMounts. rewrite !not_elem_of_cons. split_and!; [discriminate..|apply not_elem_of_nil].
  - cbn in Hx. apply list_elem_of_singleton in Hx as ->. decide_by_computing.
  - destruct (bool_decide _); cbn in Hx; [by apply not_elem_of_nil in Hx|].
    apply list_elem_of_singleton in Hx as ->. rewrite Hcookie. decide_by_computing.
Qed.

Lemma volumes_NoDup dc images outputDir (user : list string) n (cl : bool) :
  decorates dc images → NoDup user → (∀ x, x ∈ user → x ∉ VolumeMounts ++ hidden_volumes dc outputDir) →
  (n = gcsCredentialsMountName ∨ n = outputMountName ∧ n ∈ hidden_volumes dc outputDir) →
  NoDup (user ++ [logMountName; toolsMountName] ++ [n] ++ (if cl then secret_volumes dc ++ [codeMountName] else [])).
Proof.
  intros Hdec Hnd Huser Hn. pose proof (secret_names dc) as Hsecret. pose proof (secret_volumes_NoDup dc images Hdec) as Hs.
  assert (n ∈ [gcsCredentialsMountName; outputMountName]) as Hn' by set_solver.
  apply NoDup_app. split_and!; [done| |].
  - intros x Hx. specialize (Huser x Hx). rewrite not_elem_of_app in Huser. destruct Huser as [Hv Hh].
    unfold hidden_volumes in Hh, Hn. unfold VolumeMounts in Hv. rewrite !not_elem_of_cons in Hv.
    assert (x ≠ n) by (destruct Hn as [-> | [_ Hn]]; [tauto|by intros ->]).
    rewrite not_elem_of_app in Hh. destruct cl; cbn [app]; rewrite !elem_of_cons, ?elem_of_app, ?elem_of_cons, elem_of_nil; tauto.
  - assert (∀ x, x ∈ (if cl then secret_volumes dc ++ [codeMountName] else []) →
      x ∉ [logMountName; toolsMountName; gcsCredentialsMountName; outputMountName]) as Hrest.
    { intros x Hx. destruct cl; [|by apply not_elem_of_nil in Hx]. apply elem_of_app in Hx as [Hx%Hsecret|Hx].
      - unfold VolumeMounts in Hx. set_solver.
      - apply list_elem_of_singleton in Hx as ->. decide_by_computing. }
    assert (NoDup (if cl then secret_volumes dc ++ [codeMountName] else [])) as Hnd2.
    { destruct cl; [|apply NoDup_nil_2]. apply NoDup_app. split_and!; [done| |apply NoDup_singleton].
      intros x Hx%Hsecret. rewrite list_elem_of_singleton. intros ->. revert Hx. decide_by_computing. }
    cbn [app]. apply NoDup_cons. split.
    { rewrite !elem_of_cons. intros [?|[E|Hx%Hrest]]; [done| |set_solver].
      subst n. revert Hn'. decide_by_computing. }
    apply NoDup_cons. split.
    { rewrite !elem_of_cons. intros [E|Hx%Hrest]; [|set_solver]. subst n. revert Hn'. decide_by_computing. }
    apply NoDup_cons. split; [|done]. intros Hx%Hrest. set_solver.
Qed.

(** A container on its own. *)
Definition sound (volumes : list string) (c : Container) : Prop :=
  (∀ m, m ∈ ct_VolumeMounts c → vm_Name m ∈ volumes) ∧ NoDup (vm_MountPath <$> ct_VolumeMounts c) ∧
  NoDup (env_Name <$> ct_Env c).

Lemma sound_well_formed spec :
  NoDup (ct_Name <$> all_containers spec) → NoDup (vol_Name <$> ps_Volumes spec) →
  Forall (sound (vol_Name <$> ps_Volumes spec)) (all_containers spec) → well_formed spec.
Proof.
  intros Hc Hv Hs. rewrite Forall_forall in Hs. split; [done..|intros c m Hin; by apply Hs|intros c Hin; by apply Hs|].
  intros c Hin. by apply Hs.
Qed.

(** The user's container below the entrypoint, with the sources if there are any. *)
Lemma test_sound jobType dc outputDir c userVolumes rawEnv raw workDir (code : bool) volumes :
  fits jobType dc outputDir c userVolumes → dom rawEnv ⊆ set_of (EnvForType jobType) →
  (∀ x, x ∈ (vol_Name <$> userVolumes) ++ [logMountName; toolsMountName] ++ (if code then [codeMountName] else []) →
     x ∈ volumes) →
  let test := mkContainer (ct_Name c) (ct_Image c) [entrypointLocation toolsMount] [] workDir
    ((ct_Env c ++ KubeEnv (<[gopathEnv := codeMountPath]> (<[artifactsEnv := artifactsPath]> rawEnv))) ++
     KubeEnv {["ENTRYPOINT_OPTIONS" := raw]})
    ((ct_VolumeMounts c ++ [logMount; toolsMount]) ++ if code then [codeMount] else []) in
  sound volumes test.
Proof.
  intros [[He Hen] _ [Hp Hm]] Hdom Hvol. cbn zeta. split_and!; cbn [ct_VolumeMounts ct_Env].
  - intros m. rewrite !elem_of_app. intros [[Hin|Hin]|Hin]; apply Hvol.
    + apply elem_of_app. left. by apply Hm.
    + apply elem_of_app. right. apply elem_of_app. left. set_solver.
    + apply elem_of_app. right. apply elem_of_app. right. destruct code; set_solver.
  - rewrite <- (assoc_L (++)), fmap_app. apply NoDup_app. split_and!; [done| |].
    + intros x (m & -> & Hin)%list_elem_of_fmap. destruct (Hm m Hin) as [Hh _]. unfold hidden_paths in Hh.
      destruct code; cbn [app fmap list_fmap]; set_solver.
    + destruct code; decide_by_computing.
  - assert (∀ e, e ∈ KubeEnv (<[gopathEnv := codeMountPath]> (<[artifactsEnv := artifactsPath]> rawEnv)) →
      env_Name e ∈ EnvForType jobType ++ [gopathEnv; artifactsEnv]) as Hk.
    { intros e He'%elem_of_KubeEnv. rewrite !dom_insert_L in He'. apply elem_of_app.
      rewrite !elem_of_union, !elem_of_singleton in He'. destruct He' as [-> |[-> |Hd]]; [right; left|right; right; left|].
      left. apply Hdom in Hd. by apply elem_of_set_of. }
    assert (∀ jt, "ENTRYPOINT_OPTIONS" ∉ EnvForType jt) as Hent.
    { intros jt. unfold EnvForType. repeat case_bool_decide; decide_by_computing. }
    apply NoDup_env_app; [apply NoDup_env_app|apply KubeEnv_NoDup|].
    + done.
    + apply KubeEnv_NoDup.
    + intros e Hin Hd. apply list_elem_of_fmap in Hd as (e' & E & Hin'%Hk). specialize (Hen e Hin).
      rewrite E in Hen. apply Hen. unfold hidden_env. set_solver.
    + intros e Hin (e' & E & Hin'%elem_of_KubeEnv)%list_elem_of_fmap. rewrite dom_singleton_L in Hin'.
      apply elem_of_singleton in Hin'. rewrite Hin' in E. apply elem_of_app in Hin as [Hin|Hin%Hk].
      * apply (Hen e Hin). rewrite E. unfold hidden_env. set_solver.
      * rewrite E in Hin. apply elem_of_app in Hin as [Hin|Hin]; [by eapply Hent|]. revert Hin. decide_by_computing.
Qed.

(** The other containers mount volumes of the pod, each at a path of its own. *)
Lemma upload_sound volumes name image args env n path (log : bool) :
  NoDup (env_Name <$> env) → path ≠ logMountPath → logMountName ∈ volumes → n ∈ volumes →
  sound volumes (mkContainer name image args [] "" env
    ((if log then [logMount] else []) ++ [mkVolumeMount n path false])).
Proof.
  intros He Hp Hl Hn. split_and!; [|destruct log; cbn|done].
  - intros m. cbn. rewrite elem_of_app, list_elem_of_singleton. intros [Hm| ->]; [|done].
    destruct log; [|by apply not_elem_of_nil in Hm]. by apply list_elem_of_singleton in Hm as ->.
  - apply NoDup_cons. split; [by rewrite list_elem_of_singleton|apply NoDup_singleton].
  - apply NoDup_singleton.
Qed.

(** The decorated pod, laid out: [clone] clones with the volumes [secrets], [extra] is the volume
    for what is uploaded, at [path]. *)
Definition layout (images : UtilityImages) (spec0 : PodSpec) (c : Container) (env : gmap string string)
    (eraw iraw sraw : string) (clone : option Container) (secrets extra : list Volume) (n path workDir : string)
    : PodSpec :=
  let code := bool_decide (is_Some clone) in
  let jobSpec := default "" (env !! JobSpecEnv) in
  mkPodSpec
    (option_list clone ++
     [mkContainer "initupload" (ui_InitUpload images) ["/initupload"] [] ""
        (KubeEnv (<["INITUPLOAD_OPTIONS" := iraw]> {[JobSpecEnv := jobSpec]}))
        ((if code then [logMount] else []) ++ [mkVolumeMount n path false]);
      PlaceEntrypoint (ui_Entrypoint images) toolsMount])
    [mkContainer (ct_Name c) (ct_Image c) [entrypointLocation toolsMount] [] workDir
       ((ct_Env c ++ KubeEnv env) ++ KubeEnv {["ENTRYPOINT_OPTIONS" := eraw]})
       ((ct_VolumeMounts c ++ [logMount; toolsMount]) ++ if code then [codeMount] else []);
     mkContainer "sidecar" (ui_Sidecar images) ["/sidecar"] [] ""
       (KubeEnv (<["SIDECAR_OPTIONS" := sraw]> {[JobSpecEnv := jobSpec]})) ([logMount] ++ [mkVolumeMount n path false])]
    (ps_Volumes spec0 ++ [mkVolume logMountName EmptyDir; mkVolume toolsMountName EmptyDir] ++ extra ++
     (if code then secrets ++ [mkVolume codeMountName EmptyDir] else []))
    (ps_RestartPolicy spec0) (ps_ServiceAccountName spec0) (ps_AutomountServiceAccountToken spec0).

Lemma layout_well_formed images spec0 c jobType dc rawEnv eraw iraw sraw clone extra n path workDir outputDir :
  let env := <[gopathEnv := codeMountPath]> (<[artifactsEnv := artifactsPath]> rawEnv) in
  decorates dc images → fits jobType dc outputDir c (ps_Volumes spec0) → dom rawEnv ⊆ set_of (EnvForType jobType) →
  ct_Name c = TestContainerName → vol_Name <$> extra = [n] → path ≠ logMountPath →
  (n = gcsCredentialsMountName ∨ n = outputMountName ∧ n ∈ hidden_volumes dc outputDir) →
  (∀ cl, clone = Some cl → ct_Name cl = cloneRefsName ∧ NoDup (env_Name <$> ct_Env cl) ∧
     ct_VolumeMounts cl = [logMount; codeMount] ++ (clone_secrets dc).1.1.1.1.*2) →
  well_formed (layout images spec0 c env eraw iraw sraw clone (clone_secrets dc).1.1.1.1.*1 extra n path workDir).
Proof.
  intros env Hdec Hfit Hdom Hname Hextra Hpath Hn Hclone. set (secrets := (clone_secrets dc).1.1.1.1.*1).
  set (code := bool_decide (is_Some clone)).
  assert (vol_Name <$> ps_Volumes (layout images spec0 c env eraw iraw sraw clone secrets extra n path workDir) =
    (vol_Name <$> ps_Volumes spec0) ++ [logMountName; toolsMountName] ++ [n] ++
    (if code then secret_volumes dc ++ [codeMountName] else [])) as Hvol.
  { unfold layout. cbn [ps_Volumes]. rewrite !fmap_app, Hextra. fold code. by destruct code; rewrite ?fmap_app. }
  pose proof (fit_volumes _ _ _ _ _ Hfit) as [Huser Hclash].
  apply sound_well_formed.
  - unfold all_containers, layout. cbn [ps_InitContainers ps_Containers]. rewrite !fmap_app. cbn. rewrite Hname.
    destruct clone as [cl|]; cbn; [rewrite (proj1 (Hclone cl eq_refl))|]; decide_by_computing.
  - rewrite Hvol. eapply volumes_NoDup; [done..| |done]. intros x (v & -> & Hv)%list_elem_of_fmap. by apply Hclash.
  - rewrite Hvol. set (V := _ ++ _). unfold all_containers, layout. cbn [ps_InitContainers ps_Containers]. fold code.
    assert (logMountName ∈ V ∧ toolsMountName ∈ V ∧ n ∈ V) as (Hl & Ht & Hnv) by (subst V; set_solver).
    apply Forall_app; split; [apply Forall_app; split|].
    + destruct clone as [cl|]; constructor; [|constructor]. destruct (Hclone cl eq_refl) as (_ & He & Hm).
      subst V code. rewrite bool_decide_eq_true_2 by done. split_and!; [|rewrite Hm; by eapply clone_paths_NoDup|done].
      rewrite Hm. intros m. rewrite elem_of_app, !elem_of_app, !elem_of_cons.
      intros [Hin|Hin%secret_mounts_backed]; [|tauto].
      destruct Hin as [-> |[-> |[]%elem_of_nil]]; cbn; tauto.
    + constructor; [|constructor; [|constructor]].
      * apply (upload_sound V "initupload" (ui_InitUpload images) ["/initupload"] _ n path code);
          [apply KubeEnv_NoDup|done..].
      * split_and!; [|apply NoDup_singleton|apply NoDup_nil_2]. intros m. cbn. rewrite list_elem_of_singleton. by intros ->.
    + constructor; [|constructor; [|constructor]].
      * eapply test_sound; [done..|]. intros x. fold code. subst V. rewrite !elem_of_app. destruct code; rewrite ?elem_of_app; tauto.
      * apply (upload_sound V "sidecar" (ui_Sidecar images) ["/sidecar"] _ n path true); [apply KubeEnv_NoDup|done..].
Qed.

Lemma DetermineWorkDir_some baseDir refs : refs ≠ [] → is_Some (DetermineWorkDir baseDir refs).
Proof. intros Hr. unfold DetermineWorkDir. destruct (head (filter _ refs)); [done|]. by destruct refs. Qed.

(** Decoration comes to the layout. *)
Lemma decorate_layout pj dc images c rawEnv spec0 outputDir :
  let env := <[gopathEnv := codeMountPath]> (<[artifactsEnv := artifactsPath]> rawEnv) in
  spec_DecorationConfig (pj_Spec pj) = Some dc → decorates dc images →
  ps_InitContainers spec0 = [] → ps_Containers spec0 = [c] →
  ∃ clone extra n path workDir iopt iraw eopt eraw sopt sraw,
    decorate enc spec0 pj dc rawEnv outputDir =
      Some (Ok (layout images spec0 c env eraw iraw sraw clone (clone_secrets dc).1.1.1.1.*1 extra n path workDir)) ∧
    vol_Name <$> extra = [n] ∧ path ≠ logMountPath ∧
    (n = gcsCredentialsMountName ∨ n = outputMountName ∧ n ∈ hidden_volumes dc outputDir) ∧
    (is_Some clone ↔ cloned pj dc ≠ []) ∧
    (∀ cl, clone = Some cl → ct_Name cl = cloneRefsName ∧
       ct_VolumeMounts cl = [logMount; codeMount] ++ (clone_secrets dc).1.1.1.1.*2 ∧
       ∃ opt raw, enc_clonerefs enc opt = Ok raw ∧ ct_Env cl = KubeEnv {["CLONEREFS_OPTIONS" := raw]} ∧
         co_GitRefs opt = cloned pj dc ∧ co_Log opt = "/logs/clone.json" ∧ co_SrcRoot opt = codeMountPath) ∧
    (if bool_decide (is_Some clone) then DetermineWorkDir codeMountPath (cloned pj dc) = Some workDir
     else workDir = ct_WorkingDir c) ∧
    enc_initupload enc iopt = Ok iraw ∧
    io_Log iopt = (if bool_decide (is_Some clone) then "/logs/clone.json" else "") ∧
    enc_entrypoint enc eopt = Ok eraw ∧ wo_Args (eo_Options eopt) = ct_Command c ++ ct_Args c ∧
    eo_Timeout eopt = default 0%Z (dc_Timeout dc) ∧ eo_ArtifactDir eopt = artifactsPath ∧
    enc_sidecar enc sopt = Ok sraw ∧ so_Entries sopt = [eo_Options eopt] ∧ go_Items (so_GcsOptions sopt) = [artifactsPath].
Proof.
  intros env Hdc Hdec Hinit Hc. unfold decorate. rewrite Hc, Hinit. cbv zeta. fold env.
  destruct (CloneRefs_ok pj dc images Hdc Hdec) as (cloner & Hcl & Hcloner).
  destruct (GCSOptions_ok dc images outputDir Hdec)
    as (gcsVol & gcsMount & gcsOptions & n & path & Hgcs & Hvols & Hmounts & Hpath & Hn & Hitems).
  rewrite Hgcs, Hcl, (dec_images _ _ Hdec). clear Hcl Hgcs. cbn [fmap option_fmap option_map pbind wrap_err pderef pret].
  unfold InitUpload. set (iopt := mkInitUploadOptions _ _). destruct (tot_initupload enc Htotal iopt) as [iraw Hiraw].
  rewrite Hiraw. cbn [rbind wrap_err pbind].
  unfold InjectEntrypoint. set (w := mkWrapperOptions _ _ _ _). set (eopt := mkEntrypointOptions _ _ _ _ _ _).
  destruct (tot_entrypoint enc Htotal eopt) as [eraw Heraw]. rewrite Heraw. cbn [rbind wrap_err pbind].
  unfold Sidecar. cbv zeta. set (sopt := mkSidecarOptions _ _ _).
  destruct (tot_sidecar enc Htotal sopt) as [sraw Hsraw]. rewrite Hsraw. cbn [rbind wrap_err pbind].
  destruct cloner as [[[cl refs] cloneVolumes]|].
  - destruct Hcloner as (Hrefs & Hne & -> & Hname & Hm & Henv).
    destruct (DetermineWorkDir_some codeMountPath refs Hne) as [workDir Hwd].
    change (vm_MountPath codeMount) with codeMountPath. rewrite Hwd. cbn [fmap option_fmap option_map pbind pret].
    exists (Some cl), (option_list gcsVol ++ option_list (output_volume outputDir)), n, path, workDir,
      iopt, iraw, eopt, eraw, sopt, sraw. split_and!; try done.
    + unfold layout, with_code. rewrite (bool_decide_eq_true_2 (is_Some (Some cl))) by done. rewrite Hmounts.
      cbn [option_list fmap option_fmap option_map fst ct_Name ct_Image ct_Command ct_Args ct_Env ct_VolumeMounts add_env app const].
      unfold pret. do 3 f_equal; rewrite <- ?(assoc_L (++)); cbn [app option_list]; rewrite <- ?(assoc_L (++)); done.
    + by rewrite <- Hrefs.
    + intros ? [= <-]. split; [done|]. split; [done|]. rewrite <- Hrefs. exact Henv.
    + cbn. rewrite <- Hrefs. exact Hwd.
    + subst sopt. cbn. rewrite Hitems. done.
  - exists None, (option_list gcsVol ++ option_list (output_volume outputDir)), n, path, (ct_WorkingDir c),
      iopt, iraw, eopt, eraw, sopt, sraw. split_and!; try done.
    + unfold layout. rewrite (bool_decide_eq_false_2 (is_Some None)) by (by intros []). rewrite Hmounts.
      cbn [option_list fmap option_fmap option_map fst ct_Name ct_Image ct_Command ct_Args ct_Env ct_VolumeMounts ct_WorkingDir add_env app const].
      unfold pret. do 3 f_equal; rewrite <- ?(assoc_L (++)), ?app_nil_r; cbn [app option_list]; rewrite <- ?(assoc_L (++)), ?app_nil_r; done.
    + subst sopt. cbn. rewrite Hitems. done.
Qed.

Lemma decorate_ok pj dc images c rawEnv spec0 outputDir jobType :
  spec_DecorationConfig (pj_Spec pj) = Some dc → decorates dc images →
  ps_InitContainers spec0 = [] → ps_Containers spec0 = [c] → ct_Name c = TestContainerName →
  fits jobType dc outputDir c (ps_Volumes spec0) → dom rawEnv ⊆ set_of (EnvForType jobType) →
  ∃ spec, decorate enc spec0 pj dc rawEnv outputDir = Some (Ok spec) ∧ well_formed spec ∧
    wired pj dc c rawEnv spec ∧ ps_RestartPolicy spec = ps_RestartPolicy spec0 ∧
    ps_AutomountServiceAccountToken spec = ps_AutomountServiceAccountToken spec0.
Proof.
  intros Hdc Hdec Hinit Hc Hname Hfit Hdom.
  destruct (decorate_layout pj dc images c rawEnv spec0 outputDir Hdc Hdec Hinit Hc)
    as (clone & extra & n & path & workDir & iopt & iraw & eopt & eraw & sopt & sraw & Hd & Hextra & Hpath & Hn &
        Hsome & Hclone & Hwd & Hi & Hilog & He & Heargs & Het & Hea & Hs & Hse & Hsi).
  eexists. split; [exact Hd|]. split; [|split; [|done]].
  - apply (layout_well_formed images spec0 c jobType dc rawEnv eraw iraw sraw clone extra n path workDir outputDir); try done.
    intros cl Hcl. destruct (Hclone cl Hcl) as (? & ? & opt & raw & _ & Henv & _). split_and!; [done| |done].
    rewrite Henv. apply KubeEnv_NoDup.
  - unfold wired, layout. cbn [ps_InitContainers ps_Containers]. exists clone. do 4 eexists.
    split; [done|]. split; [done|]. split; [done|]. do 6 (split; [done|]). cbn [ct_WorkingDir ct_Env].
    split; [|split; [|split; [|split]]].
    + destruct clone as [cl|]; cbn in Hwd; [by right|left]. split; [done|].
      destruct (cloned pj dc) eqn:E; [done|]. destruct Hsome as [_ Hsome]. by destruct Hsome.
    + intros cl Hcl. destruct (Hclone cl Hcl) as (_ & _ & opt & raw & Hraw & Henv & Hoptions).
      exists opt, raw. rewrite Henv. split; [exact Hraw|]. split; [|exact Hoptions]. apply elem_of_KubeEnv_2, lookup_singleton_eq.
    + exists iopt, iraw. split; [exact Hi|]. split; [apply elem_of_KubeEnv_2, lookup_insert_eq|]. rewrite Hilog.
      destruct clone as [cl|]; cbn.
      * rewrite bool_decide_eq_false_2; [done|]. by apply Hsome.
      * rewrite bool_decide_eq_true_2; [done|]. destruct (cloned pj dc); [done|]. destruct Hsome as [_ Hsome].
        by destruct Hsome.
    + exists eopt, eraw. split; [exact He|]. split; [|split; [exact Heargs|split; [exact Het|]]].
      * apply elem_of_app. right. apply elem_of_KubeEnv_2, lookup_singleton_eq.
      * exists sopt, sraw. rewrite Hea. split; [exact Hs|]. split; [|exact (conj Hse (conj Hsi eq_refl))]. apply elem_of_KubeEnv_2, lookup_insert_eq.
    + intros k v Hk Hne. apply elem_of_app. left. apply elem_of_app. right. apply elem_of_KubeEnv_2.
      rewrite !lookup_insert_ne; [done|..]; intros <-; apply Hne; unfold artifactsEnv, gopathEnv; set_solver.
Qed.

(** The pod of a decorated job: given a complete decoration, and a single container whose
    names do not clash with those of the decoration, the pod is built; it is well formed, its
    utilities agree with each other and with the job, it never restarts, and the job's
    environment is that of its specification. *)
Theorem ProwJobToPod_spec IsValidLabelValue pj buildID outputDir podSpec dc images c raw :
  let job := NewJobSpec (pj_Spec pj) buildID (pj_Name pj) in
  job_type (spec_Type (pj_Spec pj)) → complete_spec job → enc_job enc job = Ok raw →
  spec_PodSpec (pj_Spec pj) = Some podSpec → ps_InitContainers podSpec = [] → ps_Containers podSpec = [c] →
  spec_DecorationConfig (pj_Spec pj) = Some dc → decorates dc images →
  fits (spec_Type (pj_Spec pj)) dc outputDir c (ps_Volumes podSpec) →
  ∃ pod env, ProwJobToPodLocal enc IsValidLabelValue pj buildID outputDir = Some (Ok pod) ∧
    bp_Name pod = pj_Name pj ∧ EnvForSpec (enc_job enc) job = Some (Ok env) ∧ env_values job raw env ∧
    well_formed (bp_Spec pod) ∧ wired pj dc c env (bp_Spec pod) ∧ ps_RestartPolicy (bp_Spec pod) = "Never" ∧
    (ps_ServiceAccountName podSpec = "" → ps_AutomountServiceAccountToken podSpec = None →
       ps_AutomountServiceAccountToken (bp_Spec pod) = Some false).
Proof.
  intros job Ht Hcomplete Hraw Hpod Hinit Hc Hdc Hdec Hfit.
  destruct (EnvForSpec_ok (enc_job enc) job raw Ht Hraw) as (Hsome & Hval & Herr).
  destruct (proj2 Hsome Hcomplete) as [[env|e] Henv]; [|by destruct (Herr e)].
  destruct (Hval env Henv) as [Hdom Hvalues].
  unfold ProwJobToPodLocal. rewrite Hpod. fold job. rewrite Henv. cbn [pbind]. unfold prepare_spec. rewrite Hc.
  cbn [fmap option_fmap option_map pbind]. rewrite Hdc.
  set (test := mkContainer TestContainerName _ _ _ _ _ _). set (spec0 := mkPodSpec _ _ _ _ _ _).
  destruct (decorate_ok pj dc images test env spec0 outputDir (spec_Type (pj_Spec pj)) Hdc Hdec)
    as (spec & Hd & Hwf & Hw & Hr & Ha); [done|done|done| | |].
  { destruct Hfit as [? ? ?]. by split. }
  { rewrite Hdom. intros x [Hx _]%elem_of_difference. done. }
  rewrite Hd. cbn [fmap option_fmap option_map wrap_err pbind].
  destruct (LabelsAndAnnotationsForJob _ _) as [podLabels annotations]. eexists _, env. split; [done|].
  cbn [bp_Name bp_Spec]. split_and!; try done.
  intros Hsa Hauto. rewrite Ha. cbn. by rewrite bool_decide_eq_true_2.
Qed.
End built.

(** ** A postsubmit whose sources are fetched with a key *)

Definition plain_encoders : Encoders :=
  mkEncoders (λ _, Ok "job") (λ _, Ok "clonerefs") (λ _, Ok "entrypoint") (λ _, Ok "initupload") (λ _, Ok "sidecar").
Definition sample_images : UtilityImages := mkUtilityImages "clonerefs:1" "initupload:1" "entrypoint:1" "sidecar:1".
Definition sample_decoration : DecorationConfig :=
  mkDecorationConfig (Some 7200%Z) (Some 15%Z) (Some sample_images)
    (Some (mkGCSConfiguration "bucket" "" "explicit" "" "" None "")) "gcs-secret" ["deploy-key"] [] None "" None.
Definition sample_container : Container := mkContainer "" "golang" ["go"] ["test"] "" [] [].
Definition sample_pod_spec : PodSpec := mkPodSpec [] [sample_container] [] "" "" None.
Definition sample_job : ProwJob :=
  mkProwJob "uuid" "ns" ∅ ∅ 5%Z
    (mkProwJobSpec PostsubmitJob "kubernetes" "" "" "unit" (Some (w_refs [])) [] true "unit" "" 1 false
       (Some sample_pod_spec) None None (Some sample_decoration) None None false)
    (w_status TriggeredState 5%Z).

Example decorated_pod :
  (λ r, match r with Ok pod => Some (ct_Name <$> all_containers (bp_Spec pod), vol_Name <$> ps_Volumes (bp_Spec pod))
                | Err _ => None end) <$> ProwJobToPod plain_encoders (λ _, true) sample_job "12" =
  Some (Some (["clonerefs"; "initupload"; "place-entrypoint"; "test"; "sidecar"],
              ["logs"; "tools"; "gcs-credentials"; "ssh-keys-deploy-key"; "clonerefs-tmp"; "code"])).
Proof. vm_compute. reflexivity. Qed.

Lemma ProwJobToPod_spec_witness :
  ∃ pod, ProwJobToPod plain_encoders (λ _, true) sample_job "12" = Some (Ok pod) ∧ well_formed (bp_Spec pod).
Proof.
  assert (total plain_encoders) as Htotal by (split; intros o; eexists; reflexivity).
  assert (decorates sample_decoration sample_images) as Hdec.
  { split; [reflexivity|by eexists| |by left]. split; [apply NoDup_singleton|].
    apply Forall_singleton, (bool_decide_unpack _). vm_compute. exact I. }
  assert (fits PostsubmitJob sample_decoration "" sample_container []) as Hfit.
  { split; (split; [apply NoDup_nil_2|]); intros x Hx; by apply not_elem_of_nil in Hx. }
  assert (job_type (spec_Type (pj_Spec sample_job))) as Ht by (apply (bool_decide_unpack _); vm_compute; exact I).
  assert (complete_spec (NewJobSpec (pj_Spec sample_job) "12" (pj_Name sample_job))) as Hc.
  { right. eexists. split; [reflexivity|by left]. }
  destruct (ProwJobToPod_spec plain_encoders Htotal (λ _, true) sample_job "12" "" sample_pod_spec sample_decoration
    sample_images sample_container "job" Ht Hc eq_refl eq_refl eq_refl eq_refl eq_refl Hdec Hfit)
    as (pod & env & E & _ & _ & _ & Hwf & _).
  exists pod. split; [exact E|exact Hwf].
Defined.
