(* ===== verification/Tot.v ===== *)
(** * Build numbers (cmd/tot/main.go, pjutil/tot.go)

    Tot hands out increasing build numbers per job and keeps them in a file; clients
    ask it over HTTP.  Requests hold a mutex, so a history of the server is a sequence
    of requests, restarts and crashes. *)

From S2P Require Import Prelude Api JobConfig GoText Paths JobSpec.
#[local] Open Scope go_scope.

(** An [int] of 64 bits *)
Definition wrap64 (z : Z) : Z := ((z + 2 ^ 63) `mod` 2 ^ 64 - 2 ^ 63)%Z.
Definition max_int : Z := (2 ^ 63 - 1)%Z.

(** What a [GET] gives: no response, or a status and what could be read of the body,
    with an error if that was not all of it. *)
Inductive get_answer : Type :=
| NoResponse (e : error)
| Response (StatusCode : Z) (status : string) (body : string) (read_err : option error).

(** ** The client: [GetBuildID] *)

Section client.
(** [url.Parse], which gives the path and [URL.String] as a function of the path; the
    snowflake node. *)
Context (ParseURL : string → result (string * (string → string))) (generate : string).
(** The answer to each attempt. *)
Variable http_get : nat → string → get_answer.

Definition vend_attempts : nat := 10.

Fixpoint vend_loop (todo attempt : nat) (url : string) (last : result string) : result string :=
  match todo with
  | 0 => last
  | S todo =>
      match http_get attempt url with
      | NoResponse e => vend_loop todo (S attempt) url (Err e)
      | Response code status body read_err =>
          if bool_decide (code ≠ 200%Z) then
            vend_loop todo (S attempt) url
              (Err (Errorf "got unexpected response from tot: %v" [AStr status]))
          else match read_err with None => Ok body | Some e => Err e end
      end
  end.

Definition GetBuildID (name totURL : string) : result string :=
  if bool_decide (totURL = "") then Ok generate
  else
    let? (path, url) := wrap_err "invalid tot url: %v" (ParseURL totURL) in
    vend_loop vend_attempts 0 (url (Join [path; "vend"; name])) (Ok "").
End client.

(** ** Numbers from a bucket, for jobs that have none *)

Section fallback.
Context `{GoRange}.

(** The URL's template is a function of the job's name. *)
Record fallbackHandler := mkFallbackHandler {
  fb_template : string → string; fb_config : option JobConfig; fb_bucket : string }.

Definition PresubmitToJobSpec (pre : Presubmit) : JobSpec :=
  mkJobSpec PresubmitJob (jb_Name (ps_JobBase pre)) "" "" None [] "".
Definition PostsubmitToJobSpec (post : Postsubmit) : JobSpec :=
  mkJobSpec PostsubmitJob (jb_Name (po_JobBase post)) "" "" None [] "".
Definition PeriodicToJobSpec (periodic : Periodic) : JobSpec :=
  mkJobSpec PeriodicJob (jb_Name (pe_JobBase periodic)) "" "" None [] "".

Definition find_spec (cfg : JobConfig) (jobName : string) : option JobSpec :=
  match list_find (λ p, jobName = jb_Name (ps_JobBase p)) (AllStaticPresubmits cfg []) with
  | Some (_, pre) => Some (PresubmitToJobSpec pre)
  | None =>
    match list_find (λ p, jobName = jb_Name (po_JobBase p)) (AllPostsubmits cfg []) with
    | Some (_, post) => Some (PostsubmitToJobSpec post)
    | None =>
      match list_find (λ p, jobName = jb_Name (pe_JobBase p)) (AllPeriodics cfg) with
      | Some (_, per) => Some (PeriodicToJobSpec per)
      | None => None
      end
    end
  end.

Definition getURL (f : fallbackHandler) (jobName : string) : string :=
  match fb_config f with
  | None => fb_template f jobName
  | Some cfg =>
      match find_spec cfg jobName with
      | None => ""
      | Some spec =>
          match LatestBuildForSpec spec None with
          | Some [path] => trim_suffix "/" (fb_bucket f) +:+ "/" +:+ path
          | _ => ""
          end
      end
  end.

(** The body as it is after the attempts; a response that could not be read whole
    leaves its part. *)
Fixpoint fallback_loop (http_get : nat → string → get_answer) (todo attempt : nat) (url body : string)
    : string :=
  match todo with
  | 0 => body
  | S todo =>
      match http_get attempt url with
      | NoResponse _ => fallback_loop http_get todo (S attempt) url body
      | Response code _ content read_err =>
          if bool_decide (code = 200%Z) then
            match read_err with
            | None => content
            | Some _ => fallback_loop http_get todo (S attempt) url content
            end
          else if bool_decide (code = 404%Z) then body
          else fallback_loop http_get todo (S attempt) url body
      end
  end.

Definition fallback_get (http_get : nat → string → get_answer) (f : fallbackHandler)
    (jobName : string) : Z :=
  match Atoi (trim_space (fallback_loop http_get 10 0 (getURL f jobName) "")) with
  | Ok n => n
  | Err _ => 0%Z
  end.
End fallback.

(** ** The store *)

(** [Number] is nil ([None]) if the file said so. *)
Record store := mkStore { st_Number : option (gmap string Z); st_fallback : option (string → Z) }.

(** The file and the temporary file next to it. *)
Record Disk := mkDisk { d_file : option string; d_tmp : option string }.

(** What the file system does in one [save]: [WriteFile] succeeds, or leaves the
    temporary file as [garbage]; [Rename] succeeds or not. *)
Record save_answer := mkSaveAnswer {
  sa_write : option (option string * error); sa_rename : result unit }.
Definition saves : save_answer := mkSaveAnswer None (Ok tt).

Section server.
(** [json.Marshal] and [json.Unmarshal] of the store's numbers. *)
Context (Marshal : gmap string Z → string) (Unmarshal : string → result (option (gmap string Z))).

(** [readable]: whether the file, if there is one, can be read. *)
Definition newStore (readable : result unit) (fallback : option (string → Z)) (d : Disk)
    : result store :=
  match d_file d with
  | None => Ok (mkStore (Some ∅) fallback)
  | Some buf =>
      let? _ := readable in
      let? number := Unmarshal buf in
      Ok (mkStore number fallback)
  end.

(** The failure of a save is only logged; an interrupted one stops after [write]. *)
Definition save (a : save_answer) (number : gmap string Z) (d : Disk) : Disk :=
  match sa_write a with
  | Some (garbage, _) => mkDisk (d_file d) garbage
  | None =>
      let d := mkDisk (d_file d) (Some (Marshal number)) in
      match sa_rename a with
      | Err _ => d
      | Ok _ => mkDisk (d_tmp d) None
      end
  end.

(** Assigning to a nil map panics. *)
Definition store_number (a : save_answer) (jobName : string) (n : Z) (s : store) (d : Disk)
    : option (store * Disk) :=
  number ← st_Number s;
  let number := <[jobName := n]> number in
  Some (mkStore (Some number) (st_fallback s), save a number d).

Definition lookup_number (s : store) (jobName : string) : option Z :=
  number ← st_Number s; number !! jobName.

Definition vend (a : save_answer) (jobName : string) (s : store) (d : Disk)
    : option (Z * (store * Disk)) :=
  let n := match lookup_number s jobName with
           | Some n => n
           | None => match st_fallback s with Some f => f jobName | None => 0%Z end
           end in
  let n := wrap64 (n + 1) in
  sd ← store_number a jobName n s d;
  Some (n, sd).

Definition peek (jobName : string) (s : store) : Z := default 0%Z (lookup_number s jobName).

Definition set (a : save_answer) (jobName : string) (n : Z) (s : store) (d : Disk)
    : option (store * Disk) :=
  store_number a jobName n s d.

(** [handle]: the body of the response, if one is written.  The multiplexer only
    hands over paths below /vend/. *)
Definition handle (a : save_answer) (method path : string) (body : result string) (s : store) (d : Disk)
    : option (option string * (store * Disk)) :=
  jobName ← trim_prefix_go "/vend/" path;
  if bool_decide (method = "GET") then
    '(n, sd) ← vend a jobName s d;
    Some (Some (itoa n), sd)
  else if bool_decide (method = "HEAD") then Some (Some (itoa (peek jobName s)), (s, d))
  else if bool_decide (method = "POST") then
    match body with
    | Err _ => Some (None, (s, d))
    | Ok body =>
        match Atoi body with
        | Err _ => Some (None, (s, d))
        | Ok n => sd ← set a jobName n s d; Some (None, sd)
        end
    end
  else Some (None, (s, d)).
End server.

(** ** Histories of a server *)

Section history.
Context (Marshal : gmap string Z → string) (Unmarshal : string → result (option (gmap string Z)))
  (utf8 : string → Prop).

(** What JSON can represent: keys in UTF-8, numbers of 64 bits. *)
Definition representable (m : gmap string Z) : Prop :=
  map_Forall (λ k n, utf8 k ∧ (- 2 ^ 63 ≤ n < 2 ^ 63)%Z) m.

(** A number that can still be increased. *)
Definition not_exhausted (s : store) (jobName : string) : Prop :=
  ∀ n, lookup_number s jobName = Some n → (n < max_int)%Z.

(** The histories without [POST] in which a request that is answered was saved.
    [served] lists the answers to [GET]: the job's name and the body. *)
Inductive history : list (string * string) → option store → Disk → Prop :=
| h_start d m : d_file d = Some (Marshal m) → representable m → history [] None d
| h_fresh d : d_file d = None → history [] None d
| h_up served d readable fallback s :
    history served None d → newStore Unmarshal readable fallback d = Ok s →
    history served (Some s) d
| h_request served s d method jobName body resp s' d' :
    history served (Some s) d → utf8 jobName → method ≠ "POST" → not_exhausted s jobName →
    handle Marshal saves method ("/vend/" +:+ jobName) body s d = Some (resp, (s', d')) →
    history (served ++ match resp with
                       | Some r => if bool_decide (method = "GET") then [(jobName, r)] else []
                       | None => [] end) (Some s') d'
(** A crash at any point of a request, whose answer is lost. *)
| h_crash_in served s d a method jobName body resp s' d' :
    history served (Some s) d → utf8 jobName → method ≠ "POST" → not_exhausted s jobName →
    handle Marshal a method ("/vend/" +:+ jobName) body s d = Some (resp, (s', d')) →
    history served None d'
| h_crash served s d : history served (Some s) d → history served None d.

Hypothesis Unmarshal_Marshal : ∀ m, representable m → Unmarshal (Marshal m) = Ok (Some m).

Definition on_disk (d : Disk) (m : gmap string Z) : Prop :=
  representable m ∧ (d_file d = Some (Marshal m) ∨ d_file d = None ∧ m = ∅).

(** The numbers handed out so far are below the one kept for the job. *)
Definition covered (served : list (string * string)) (m : gmap string Z) : Prop :=
  ∀ job r, (job, r) ∈ served → ∃ k n, r = itoa k ∧ m !! job = Some n ∧ (k ≤ n)%Z.

Definition increasing (served : list (string * string)) : Prop :=
  ∀ i j job r1 r2, i < j → served !! i = Some (job, r1) → served !! j = Some (job, r2) →
    ∃ k l, r1 = itoa k ∧ r2 = itoa l ∧ (k < l)%Z.

Lemma wrap64_range z : (- 2 ^ 63 ≤ wrap64 z < 2 ^ 63)%Z.
Proof. unfold wrap64. pose proof (Z.mod_pos_bound (z + 2 ^ 63) (2 ^ 64)). lia. Qed.

Lemma wrap64_id z : (- 2 ^ 63 ≤ z < 2 ^ 63)%Z → wrap64 z = z.
Proof. intros ?. unfold wrap64. rewrite Z.mod_small; lia. Qed.

(** What [vend] does to the numbers. *)
Lemma vend_step a jobName number fallback d n s' d' :
  vend Marshal a jobName (mkStore (Some number) fallback) d = Some (n, (s', d')) →
  representable number → utf8 jobName → not_exhausted (mkStore (Some number) fallback) jobName →
  let number' := <[jobName := n]> number in
  s' = mkStore (Some number') fallback ∧ d' = save Marshal a number' d ∧ representable number' ∧
  (∀ n0, number !! jobName = Some n0 → (n0 < n)%Z).
Proof.
  intros Hv Hrep Hutf Hex. unfold vend, store_number, lookup_number in Hv. cbn -[wrap64] in Hv.
  injection Hv as Hn <- <-. subst n. cbn zeta. split_and!; [done|done| |].
  - apply map_Forall_insert_2; [|done]. split; [done|apply wrap64_range].
  - intros n1 Hn1. rewrite Hn1. specialize (Hex n1). cbn in Hex. specialize (Hex Hn1).
    apply Hrep in Hn1 as [_ ?]. unfold max_int in Hex. rewrite wrap64_id; lia.
Qed.

(** The file after a save: new or old. *)
Lemma save_file a number d : d_file (save Marshal a number d) = Some (Marshal number) ∨
  d_file (save Marshal a number d) = d_file d.
Proof. unfold save. destruct (sa_write a) as [[g e]|]; [by right|]. destruct (sa_rename a); [by left|by right]. Qed.

Lemma covered_insert served m job n :
  covered served m → (∀ n0, m !! job = Some n0 → (n0 < n)%Z) → covered served (<[job := n]> m).
Proof.
  intros Hc Hlt job' r Hr. destruct (Hc _ _ Hr) as (k & n0 & -> & Hn0 & Hk).
  destruct (decide (job' = job)) as [->|?].
  - exists k, n. rewrite lookup_insert_eq. specialize (Hlt _ Hn0). split_and!; [done..|lia].
  - exists k, n0. by rewrite lookup_insert_ne.
Qed.

(** A request other than [POST] vends or leaves everything as it is. *)
Lemma handle_cases a method jobName body s d resp s' d' :
  method ≠ "POST" →
  handle Marshal a method ("/vend/" +:+ jobName) body s d = Some (resp, (s', d')) →
  (∃ n, method = "GET" ∧ resp = Some (itoa n) ∧ vend Marshal a jobName s d = Some (n, (s', d'))) ∨
  (method ≠ "GET" ∧ s' = s ∧ d' = d).
Proof.
  intros Hm. unfold handle. rewrite (proj2 (trim_prefix_go_Some _ _ jobName)) by done. cbn [mbind option_bind].
  case_bool_decide as Hg.
  { destruct (vend Marshal a jobName s d) as [[n sd]|] eqn:Ev; [|done]. cbn. intros [= <- ->].
    left. exists n. done. }
  case_bool_decide; [intros [= _ <- <-]; by right|].
  rewrite bool_decide_eq_false_2 by done. intros [= _ <- <-]. by right.
Qed.

(** The store holds what the file holds. *)
Lemma history_inv served os d :
  history served os d →
  ∃ m, on_disk d m ∧ (∀ s, os = Some s → st_Number s = Some m) ∧ covered served m ∧ increasing served.
Proof.
  induction 1 as [d m Hf Hrep|d Hf|served d readable fallback s _ IH Hs
    |served s d method jobName body resp s' d' _ IH Hutf Hm Hex Hh
    |served s d a method jobName body resp s' d' _ IH Hutf Hm Hex Hh|served s d _ IH].
  - exists m. split_and!; [split; [done|by left]|done| |]; [intros ? ? []%not_elem_of_nil|].
    intros ? ? ? ? ? _ [=].
  - exists ∅. split_and!; [split; [apply map_Forall_empty|by right]|done| |];
      [intros ? ? []%not_elem_of_nil|]. intros ? ? ? ? ? _ [=].
  - destruct IH as (m & [Hrep Hd] & _ & Hc & Hi). exists m. split_and!; [done| |done..].
    intros ? [= <-]. unfold newStore in Hs. destruct Hd as [Hd|[Hd ->]]; rewrite Hd in Hs.
    + ok_inv. rewrite Unmarshal_Marshal in * by done. by simplify_eq.
    + by simplify_eq.
  - destruct IH as (m & [Hrep Hd] & Hup & Hc & Hi). specialize (Hup s eq_refl).
    destruct s as [number fallback]. cbn in Hup. subst number.
    apply handle_cases in Hh as [(n & -> & -> & Hv)|(Hg & -> & ->)]; [|..|done]; cycle 1.
    { exists m. replace (served ++ _) with served; [by split_and!; try intros ? [= <-]|].
      destruct resp; [|by rewrite app_nil_r]. by rewrite bool_decide_eq_false_2, app_nil_r. }
    rewrite bool_decide_eq_true_2 by done.
    apply vend_step in Hv as (-> & -> & Hrep' & Hlt); [|done..].
    exists (<[jobName := n]> m). split_and!.
    + split; [done|]. by left.
    + by intros ? [= <-].
    + intros job r [Hr|Hr%list_elem_of_singleton]%elem_of_app.
      * by apply (covered_insert served).
      * simplify_eq. exists n, n. by rewrite lookup_insert_eq.
    + intros i j job r1 r2 Hij H1 H2.
      apply lookup_lt_Some in H2 as Hj. rewrite length_app in Hj. cbn in Hj.
      rewrite lookup_app_l in H1 by lia.
      destruct (decide (j < length served)) as [?|?].
      * rewrite lookup_app_l in H2 by done. by apply (Hi i j job).
      * rewrite lookup_app_r in H2 by lia. replace (j - length served) with 0 in H2 by lia.
        cbn in H2. injection H2 as -> <-. apply list_elem_of_lookup_2 in H1.
        destruct (Hc _ _ H1) as (k & nk & -> & Hnk & Hk). exists k, n. specialize (Hlt _ Hnk).
        split_and!; [done..|lia].
  - destruct IH as (m & [Hrep Hd] & Hup & Hc & Hi). specialize (Hup s eq_refl).
    destruct s as [number fallback]. cbn in Hup. subst number.
    apply handle_cases in Hh as [(n & -> & -> & Hv)|(Hg & -> & ->)]; [|..|done]; cycle 1.
    { by exists m. }
    apply vend_step in Hv as (-> & -> & Hrep' & Hlt); [|done..].
    destruct (save_file a (<[jobName := n]> m) d) as [E|E].
    + exists (<[jobName := n]> m). split_and!; [split; [done|by left]|done|by apply covered_insert|done].
    + exists m. split_and!; [split; [done|by rewrite E]|done..].
  - destruct IH as (m & Hd & _ & Hc & Hi). by exists m.
Qed.
End history.

(** ** Properties *)

Section properties.
Context (Marshal : gmap string Z → string) (Unmarshal : string → result (option (gmap string Z)))
  (utf8 : string → Prop).
Hypothesis Unmarshal_Marshal : ∀ m, representable utf8 m → Unmarshal (Marshal m) = Ok (Some m).

(** C22. Tot's build numbers of a job only increase, over all requests, restarts and
    crashes (even in the middle of a save), as long as nobody sets numbers, answered
    requests could be saved and the numbers are not exhausted; so no two builds of a
    job get the same number. *)
Theorem build_numbers_increase served os d :
  history Marshal Unmarshal utf8 served os d → increasing served ∧ NoDup served.
Proof.
  intros (m & _ & _ & _ & Hi)%history_inv; [|done]. split; [done|].
  apply NoDup_alt. intros i j [job r] H1 H2.
  destruct (Nat.lt_trichotomy i j) as [Hij|[?|Hji]]; [|done|].
  - destruct (Hi i j job r r Hij H1 H2) as (k & l & -> & E & ?). apply (inj pretty) in E. lia.
  - destruct (Hi j i job r r Hji H2 H1) as (k & l & -> & E & ?). apply (inj pretty) in E. lia.
Qed.
End properties.

(** A codec, for the witness. *)
Fixpoint pos_bits (p : positive) : string :=
  match p with xH => "" | xO p => String "0" (pos_bits p) | xI p => String "1" (pos_bits p) end.
Fixpoint bits_pos (s : string) : positive :=
  match s with
  | EmptyString => xH
  | String c s => if bool_decide (c = "0"%char) then xO (bits_pos s) else xI (bits_pos s)
  end.
Lemma bits_pos_bits p : bits_pos (pos_bits p) = p.
Proof. by induction p as [p IH|p IH|]; cbn; rewrite ?IH. Qed.
Definition w_marshal (m : gmap string Z) : string := pos_bits (encode m).
Definition w_unmarshal (s : string) : result (option (gmap string Z)) :=
  match decode (bits_pos s) with Some m => Ok (Some m) | None => Err (errors_New "unmarshal") end.
Lemma w_unmarshal_marshal m : w_unmarshal (w_marshal m) = Ok (Some m).
Proof. unfold w_unmarshal, w_marshal. by rewrite bits_pos_bits, decode_encode. Qed.

(** Numbers 1 and 2 are handed out, 2 is lost in a crash after its save, and after
    the restart 3 is handed out. *)
Lemma build_numbers_increase_witness :
  ∃ d, history w_marshal w_unmarshal (λ _, True) [("j", "1"); ("j", "3")]
         (Some (mkStore (Some {["j" := 3%Z]}) None)) d ∧ NoDup [("j", "1"); ("j", "3")].
Proof.
  set (h := history w_marshal w_unmarshal (λ _, True)).
  set (disk := λ n : Z, mkDisk (Some (w_marshal {["j" := n]})) None).
  set (up := λ n : Z, Some (mkStore (Some {["j" := n]}) None)).
  assert (∀ n, newStore w_unmarshal (Ok tt) None (disk n) = Ok (mkStore (Some {["j" := n]}) None)) as Hnew.
  { intros n. unfold newStore. cbn [disk d_file]. by rewrite w_unmarshal_marshal. }
  assert (h [] (Some (mkStore (Some ∅) None)) (mkDisk None None)) as H0.
  { apply (h_up _ _ _ _ _ (Ok tt) None); [by apply h_fresh|done]. }
  assert (h [("j", "1")] (up 1%Z) (disk 1%Z)) as H1.
  { eapply (h_request _ _ _ [] _ _ "GET" "j" (Ok "") (Some "1")); [exact H0|done|done|done|].
    reflexivity. }
  assert (h [("j", "1")] None (disk 2%Z)) as H2.
  { eapply (h_crash_in _ _ _ _ _ _ saves "GET" "j" (Ok "") (Some "2") (mkStore (Some {["j" := 2%Z]}) None));
      [exact H1|done|done|by intros n [= <-]|]. reflexivity. }
  assert (h [("j", "1")] (up 2%Z) (disk 2%Z)) as H3.
  { eapply h_up; [exact H2|apply Hnew]. }
  assert (h [("j", "1"); ("j", "3")] (up 3%Z) (disk 3%Z)) as H4.
  { eapply (h_request _ _ _ [("j", "1")] _ _ "GET" "j" (Ok "") (Some "3")); [exact H3|done|done|by intros n [= <-]|].
    reflexivity. }
  exists (disk 3%Z). split; [exact H4|].
  apply (build_numbers_increase w_marshal w_unmarshal (λ _, True) (λ m _, w_unmarshal_marshal m) _ _ _ H4).
Defined.

(** A number that could not be saved is handed out again after a restart: saving is
    a real condition of the theorem. *)
Example unsaved_number_repeats :
  let failing := mkSaveAnswer (Some (None, errors_New "disk full")) (Ok tt) in
  let s := mkStore (Some ∅) None in
  let d := mkDisk None None in
  ∃ s' d', handle w_marshal failing "GET" "/vend/j" (Ok "") s d = Some (Some "1", (s', d')) ∧
    newStore w_unmarshal (Ok tt) None d' = Ok s.
Proof. eexists _, _. split; reflexivity. Qed.

(** The largest number is followed by a negative one. *)
Example number_wraps :
  (λ r, fst r) <$> vend w_marshal saves "j" (mkStore (Some {["j" := max_int]}) None) (mkDisk None None)
    = Some (- 2 ^ 63)%Z.
Proof. reflexivity. Qed.

(** ** The client *)

Section client_properties.
Context (ParseURL : string → result (string * (string → string))) (generate : string)
  (http_get : nat → string → get_answer).

(** An attempt that is followed by another one. *)
Definition retried (a : get_answer) : Prop :=
  match a with NoResponse _ => True | Response code _ _ _ => code ≠ 200%Z end.

Lemma vend_loop_ok todo attempt url last :
  (∃ k code status body read_err, k < todo ∧
     (∀ i, i < k → retried (http_get (attempt + i) url)) ∧
     http_get (attempt + k) url = Response code status body read_err ∧ code = 200%Z ∧
     vend_loop http_get todo attempt url last =
       match read_err with None => Ok body | Some e => Err e end) ∨
  ((∀ i, i < todo → retried (http_get (attempt + i) url)) ∧
   (todo ≠ 0 → is_ok (vend_loop http_get todo attempt url last) = false)).
Proof.
  revert attempt last. induction todo as [|todo IH]; intros attempt last; [right; split; [lia|done]|].
  cbn [vend_loop].
  assert (∀ e, retried (http_get attempt url) →
    (∃ k code status body read_err, k < S todo ∧
       (∀ i, i < k → retried (http_get (attempt + i) url)) ∧
       http_get (attempt + k) url = Response code status body read_err ∧ code = 200%Z ∧
       vend_loop http_get todo (S attempt) url (Err e) =
         match read_err with None => Ok body | Some e => Err e end) ∨
    ((∀ i, i < S todo → retried (http_get (attempt + i) url)) ∧
     (S todo ≠ 0 → is_ok (vend_loop http_get todo (S attempt) url (Err e)) = false))) as Hnext.
  { intros e Hr.
    assert (∀ n, (∀ i, i < n → retried (http_get (S attempt + i) url)) →
      ∀ i, i < S n → retried (http_get (attempt + i) url)) as Hall.
    { intros n Hn [|i] ?; [by rewrite Nat.add_0_r|].
      replace (attempt + S i) with (S attempt + i) by lia. apply Hn. lia. }
    destruct (IH (S attempt) (Err e)) as [(k & code & st & body & re & Hk & Hi & Hg & Hc & Hv)|[Hi Hv]].
    - left. exists (S k), code, st, body, re. replace (attempt + S k) with (S attempt + k) by lia.
      split_and!; [lia|by apply Hall|done..].
    - right. split; [by apply Hall|]. intros _. destruct todo; [done|by apply Hv]. }
  destruct (http_get attempt url) as [e|code status body read_err] eqn:E; [by apply Hnext|].
  case_bool_decide as Hc; [by apply Hnext|].
  left. exists 0, code, status, body, read_err. rewrite Nat.add_0_r.
  split_and!; [lia|intros; lia|done|by destruct (decide (code = 200%Z))|done].
Qed.

(** A build ID from tot is the whole body of the first response with status 200 among
    ten attempts; without one there is an error. *)
Lemma GetBuildID_ok name totURL path url :
  totURL ≠ "" → ParseURL totURL = Ok (path, url) →
  let target := url (Join [path; "vend"; name]) in
  let r := GetBuildID ParseURL generate http_get name totURL in
  (∃ k status body read_err, k < vend_attempts ∧ (∀ i, i < k → retried (http_get i target)) ∧
     http_get k target = Response 200 status body read_err ∧
     r = match read_err with None => Ok body | Some e => Err e end) ∨
  ((∀ i, i < vend_attempts → retried (http_get i target)) ∧ is_ok r = false).
Proof.
  intros Hu Hp. cbn zeta. unfold GetBuildID. rewrite bool_decide_eq_false_2, Hp by done. cbn [wrap_err rbind].
  destruct (vend_loop_ok vend_attempts 0 (url (Join [path; "vend"; name])) (Ok ""))
    as [(k & code & st & body & re & ? & ? & ? & -> & ?)|[? Hv]].
  - left. exists k, st, body, re. done.
  - right. split; [done|]. by apply Hv.
Qed.
End client_properties.
