(* ===== verification/JenkinsClient.v ===== *)
(** * The client of Jenkins (jenkins/jenkins.go)

    Requests with retries, and what the controller asks of Jenkins: to list the builds
    of ProwJobs, to start one and to abort one.  An operation is a computation over
    the trace of HTTP requests. *)

From S2P Require Import Prelude Api GoText Handler JobSpec.
#[local] Open Scope go_scope.

Definition maxRetries : nat := 5.
Definition statusBuildID : string := "BUILD_ID".
Definition prowJobID : string := "PROW_JOB_ID".

Definition success : string := "SUCCESS".
Definition failure : string := "FAILURE".
Definition unstable : string := "UNSTABLE".
Definition aborted : string := "ABORTED".

(** ** Builds *)

(** A parameter whose value is no string has [None]. *)
Record Param := mkParam { pm_Name : string; pm_Value : option string }.
Definition Action : Type := list Param.

Record Build := mkBuild {
  bd_Actions : list Action; bd_Number : Z; bd_Result : option string; bd_enqueued : bool }.

Definition IsRunning (jb : Build) : bool := bool_decide (bd_Result jb = None).
Definition IsSuccess (jb : Build) : bool := bool_decide (bd_Result jb = Some success).
Definition IsFailure (jb : Build) : bool :=
  bool_decide (bd_Result jb = Some failure ∨ bd_Result jb = Some unstable).
Definition IsAborted (jb : Build) : bool := bool_decide (bd_Result jb = Some aborted).
Definition IsEnqueued (jb : Build) : bool := bd_enqueued jb.

Definition parameters (jb : Build) : list Param := concat (bd_Actions jb).

(** The first parameter of that name with a string. *)
Definition ProwJobID (jb : Build) : string :=
  default "" (head (omap (λ p, if bool_decide (pm_Name p = prowJobID) then pm_Value p else None)
                     (parameters jb))).

(** The last one of that name. *)
Definition BuildID (jb : Build) : string :=
  if existsb (λ p, bool_decide (pm_Name p = prowJobID)) (parameters jb)
  then default "" (last (omap (λ p, if bool_decide (pm_Name p = statusBuildID) then pm_Value p else None)
                          (parameters jb)))
  else "".

(** [ji_Parameters]: the number of parameters each property of the job defines. *)
Record JobInfo := mkJobInfo {
  ji_Builds : list Build; ji_LastBuild : option Build; ji_Parameters : list nat }.

Record BuildQueryParams := mkBuildQueryParams { bq_JobName : string; bq_ProwJobID : string }.

Definition getJobName (spec : ProwJobSpec) : string :=
  match spec_JenkinsSpec spec, spec_Refs spec with
  | Some js, Some refs =>
      if js_GitHubBranchSourceJob js then
        match refs_Pulls refs with
        | pull :: _ => spec_Job spec +:+ "/view/change-requests/job/PR-" +:+ itoa (pull_Number pull)
        | [] => spec_Job spec +:+ "/job/" +:+ refs_BaseRef refs
        end
      else spec_Job spec
  | _, _ => spec_Job spec
  end.

Definition getJobInfoPath (spec : ProwJobSpec) : string := "/job/" +:+ getJobName spec +:+ "/api/json".
Definition getBuildPath (spec : ProwJobSpec) : string := "/job/" +:+ getJobName spec +:+ "/build".
Definition getBuildWithParametersPath (spec : ProwJobSpec) : string :=
  "/job/" +:+ getJobName spec +:+ "/buildWithParameters".

(** ** Requests *)

(** The headers the client sets. *)
Inductive Header : Type :=
| BasicAuth (user token : string)
| Field (name value : string).

Record BasicAuthConfig := mkBasicAuthConfig { ba_User : string; ba_GetToken : string }.
Record AuthConfig := mkAuthConfig {
  au_Basic : option BasicAuthConfig; au_BearerToken : option string; au_CSRFProtect : bool;
  au_csrfToken : string; au_csrfRequestField : string }.

Inductive Request : Type := HTTP (method url : string) (headers : list Header).

(** [rs_Body]: the body, unless it cannot be read. *)
Record Response := mkResponse { rs_StatusCode : Z; rs_Status : string; rs_Body : result string }.

(** [GET] requests tell a missing job from other errors. *)
Inductive get_error : Type :=
| NotFoundError (e : error)
| OtherError (e : error).
Definition plain (e : get_error) : error := match e with NotFoundError e | OtherError e => e end.

(** [url.Values.Encode]: sorted by key *)
Definition Encode (params : gmap string string) : string :=
  string_join "&" ((λ k, query_escape k +:+ "=" +:+ query_escape (default "" (params !! k)))
                     <$> set_list (dom params)).

Section client.
(** The server and its answers, the decoders of its JSON, the text of an error, and
    [wait.ExponentialBackoff], which checks a condition up to a number of times; a
    condition that holds gives what the closure has stored.  [schedule]: the order in
    which the goroutines of [ListBuilds] end. *)
Context (baseURL : string) (dryRun : bool) (auth : option AuthConfig)
  (send : list Request → result Response)
  (unmarshal_builds unmarshal_items : string → result (list Build))
  (unmarshal_info : string → result JobInfo)
  (unmarshal_crumb : string → result (string * string))
  (Marshal : JobSpec → result string) (Error : error → string)
  (ExponentialBackoff : ∀ A, nat → H Request (option A) → H Request A)
  (schedule : list string → list string).
Arguments ExponentialBackoff {A} _ _.

Definition headers : list Header :=
  match auth with
  | None => []
  | Some a =>
      (match au_Basic a with Some b => [BasicAuth (ba_User b) (ba_GetToken b)] | None => [] end) ++
      (match au_BearerToken a with Some t => [Field "Authorization" ("Bearer " +:+ t)] | None => [] end) ++
      (if au_CSRFProtect a && bool_decide (au_csrfRequestField a ≠ "" ∧ au_csrfToken a ≠ "")
       then [Field (au_csrfRequestField a) (au_csrfToken a)] else [])
  end.

Definition doRequest (method url : string) : M Request (result Response) :=
  call send (HTTP method url headers).

(** A response that is not retried. *)
Definition settled (r : result Response) : bool :=
  match r with Ok resp => bool_decide (rs_StatusCode resp < 500)%Z | Err _ => false end.

(** [maxRetries] is at least one, so there is an answer. *)
Fixpoint request_loop (todo : nat) (method url : string) : M Request (result Response) :=
  r ← doRequest method url;
  match todo with
  | S todo => if settled r then mret r else request_loop todo method url
  | 0 => mret r
  end.

Definition request (method path : string) (params : option (gmap string string))
    : M Request (result Response) :=
  let url := baseURL +:+ path in
  let url := match params with None => url | Some p => url +:+ "?" +:+ Encode p end in
  request_loop (pred maxRetries) method url.

Definition readResp (resp : Response) : string + get_error :=
  if bool_decide (rs_StatusCode resp = 404%Z) then inr (NotFoundError (errors_New (rs_Status resp)))
  else if bool_decide (rs_StatusCode resp < 200 ∨ 300 ≤ rs_StatusCode resp)%Z
  then inr (OtherError (Errorf "response not 2XX: %s" [AStr (rs_Status resp)]))
  else match rs_Body resp with Ok b => inl b | Err e => inr (OtherError e) end.

(** [Get], and [GetSkipMetrics] *)
Definition Get (path : string) : M Request (string + get_error) :=
  r ← request "GET" path None;
  mret (match r with Ok resp => readResp resp | Err e => inr (OtherError e) end).

(** [CrumbRequest]: the token and the header's name to use from now on. *)
Definition CrumbRequest (a : AuthConfig) : M Request (result AuthConfig) :=
  if bool_decide (au_csrfToken a ≠ "" ∧ au_csrfRequestField a ≠ "") then mret (Ok a)
  else
    d ← Get "/crumbIssuer/api/json";
    mret (match d with
          | inr e => Err (plain e)
          | inl data =>
              let? (crumb, field) := wrap_err "cannot unmarshal crumb response: %v" (unmarshal_crumb data) in
              Ok (mkAuthConfig (au_Basic a) (au_BearerToken a) (au_CSRFProtect a) crumb field)
          end).

(** ** Jobs and builds *)

Definition of_result {A} (m : M Request (result A)) : H Request A := λ tr,
  let '(tr', r) := m tr in (tr', Some r).

Definition GetJobInfo (spec : ProwJobSpec) : M Request (result JobInfo) :=
  d ← Get (getJobInfoPath spec);
  mret (match d with
        | inr e => Err (plain e)
        | inl data => wrap_err "Cannot unmarshal job info from API: %v" (unmarshal_info data)
        end).

(** One property with parameter definitions is enough. *)
Definition JobParameterized (jobInfo : JobInfo) : bool := existsb (λ n, bool_decide (0 < n)) (ji_Parameters jobInfo).

Definition expect (ok : Z → bool) (format : string) (r : result Response) : result unit :=
  let? resp := r in
  if ok (rs_StatusCode resp) then Ok tt else Err (Errorf format [AStr (rs_Status resp)]).

Definition LaunchBuild (spec : ProwJobSpec) (params : option (gmap string string))
    : M Request (result unit) :=
  let path := match params with Some _ => getBuildWithParametersPath spec | None => getBuildPath spec end in
  r ← request "POST" path params;
  mret (expect (λ c, bool_decide (c = 201%Z)) "response not 201: %s" r).

Definition Abort (job : string) (build : Build) : M Request (result unit) :=
  if dryRun then mret (Ok tt)
  else
    r ← request "POST" ("/job/" +:+ job +:+ "/" +:+ itoa (bd_Number build) +:+ "/stop") None;
    mret (expect (λ c, bool_decide (200 ≤ c < 300)%Z) "response not 2XX: %s" r).

(** The conditions of [EnsureBuildableJob]; the first one stores what it found. *)
Definition job_appears (spec : ProwJobSpec) : H Request (option JobInfo) :=
  of_result (
    r ← GetJobInfo spec;
    mret (match r with
          | Ok jobInfo => Ok (Some jobInfo)
          | Err e => if contains (to_lower (Error e)) "404 not found" then Ok None else Err e
          end)).

Definition job_parameterized (spec : ProwJobSpec) : H Request (option unit) :=
  of_result (
    r ← GetJobInfo spec;
    match r with
    | Err _ => mret (Ok None)
    | Ok jobInfo =>
        if JobParameterized jobInfo then
          match ji_LastBuild jobInfo with
          | Some build => _ ← Abort (getJobName spec) build; mret (Ok (Some tt))
          | None => mret (Ok (Some tt))
          end
        else mret (Ok None)
    end).

Definition EnsureBuildableJob (spec : ProwJobSpec) : H Request unit :=
  let! r := attempt (ExponentialBackoff 2 (job_appears spec)) in
  match r with
  | Err _ => herr (Errorf "Job %v does not exist" [AStr (spec_Job spec)])
  | Ok jobInfo =>
      if JobParameterized jobInfo || bool_decide (ji_Builds jobInfo ≠ []) then hret tt
      else
        let! _ := of_result (LaunchBuild spec None) in
        ExponentialBackoff 10 (job_parameterized spec)
  end.

Definition BuildFromSpec (spec : ProwJobSpec) (buildID prowJobID : string) : H Request unit :=
  if dryRun then hret tt
  else
    let! r := deref (EnvForSpec Marshal (NewJobSpec spec buildID prowJobID)) in
    let! env := lift r in
    let! _ := with_args "Job %v cannot be build: %v" [AStr (spec_Job spec)] (EnsureBuildableJob spec) in
    of_result (LaunchBuild spec (Some env)).

Definition Client_Build (pj : ProwJob) (buildID : string) : H Request unit :=
  BuildFromSpec (pj_Spec pj) buildID (pj_Name pj).

(** ** Listing builds *)

Definition mark_enqueued (jb : Build) : Build :=
  mkBuild (bd_Actions jb) (bd_Number jb) (bd_Result jb) true.

(** Builds by their ProwJob; a later one replaces an earlier one. *)
Definition by_prow_job (builds : list Build) : gmap string Build :=
  foldl (λ m jb, if bool_decide (ProwJobID jb = "") then m else <[ProwJobID jb := jb]> m) ∅ builds.

Definition asked (jobs : list BuildQueryParams) (id : string) : bool :=
  existsb (λ job, bool_decide (id = bq_ProwJobID job)) jobs.

Definition GetEnqueuedBuilds (jobs : list BuildQueryParams) : M Request (result (gmap string Build)) :=
  d ← Get "/queue/api/json?tree=items[task[name],actions[parameters[name,value]]]";
  mret (match d with
        | inr e => Err (Errorf "cannot list builds from the queue: %v" [AErr (plain e)])
        | inl data =>
            let? items := wrap_err "cannot unmarshal builds from the queue: %v" (unmarshal_items data) in
            Ok (by_prow_job (mark_enqueued <$> filter (λ jb, asked jobs (ProwJobID jb) = true) items))
        end).

(** A job Jenkins does not know has no builds. *)
Definition GetBuilds (job : string) : M Request (result (gmap string Build)) :=
  d ← Get ("/job/" +:+ job +:+ "/api/json?tree=builds[number,result,actions[parameters[name,value]]]");
  mret (match d with
        | inr (NotFoundError _) => Ok ∅
        | inr (OtherError e) => Err (Errorf "cannot list builds for job %q: %v" [AStr job; AErr e])
        | inl data =>
            let? builds := wrap_args "cannot unmarshal builds for job %q: %v" [AStr job]
                             (unmarshal_builds data) in
            Ok (by_prow_job builds)
        end).

(** One goroutine per job; the first error counts. *)
Fixpoint get_all_builds (jobs : list string) : M Request (list (result (gmap string Build))) :=
  match jobs with
  | [] => mret []
  | job :: jobs =>
      r ← GetBuilds job;
      rs ← get_all_builds jobs;
      mret (r :: rs)
  end.

Definition merge_builds (queued : gmap string Build) (rs : list (result (gmap string Build)))
    : result (gmap string Build) :=
  rfold (λ m r, let? builds := r in Ok (builds ∪ m)) queued rs.

Definition ListBuilds (jobs : list BuildQueryParams) : M Request (result (gmap string Build)) :=
  queued ← GetEnqueuedBuilds jobs;
  match queued with
  | Err e => mret (Err e)
  | Ok queued =>
      rs ← get_all_builds (schedule (bq_JobName <$> jobs));
      mret (merge_builds queued rs)
  end.
End client.

(** ** Properties *)

Section client_properties.
Context (baseURL : string) (dryRun : bool) (auth : option AuthConfig)
  (send : list Request → result Response)
  (unmarshal_builds unmarshal_items : string → result (list Build))
  (unmarshal_info : string → result JobInfo)
  (Marshal : JobSpec → result string) (Error : error → string)
  (ExponentialBackoff : ∀ A, nat → H Request (option A) → H Request A)
  (schedule : list string → list string).

(** A request is made at most five times, until an answer is settled, and gives its
    last answer. *)
Lemma request_loop_ok todo method url tr :
  let ev := HTTP method url (headers auth) in
  ∃ n, 1 ≤ n ≤ S todo ∧
    request_loop auth send todo method url tr = (tr ++ repeat ev n, send (tr ++ repeat ev n)) ∧
    (∀ i, 1 ≤ i < n → settled (send (tr ++ repeat ev i)) = false) ∧
    (n = S todo ∨ settled (send (tr ++ repeat ev n)) = true).
Proof.
  cbn zeta. set (ev := HTTP method url (headers auth)).
  revert tr. induction todo as [|todo IH]; intros tr.
  { exists 1. split_and!; [lia|lia|done|intros; lia|by left]. }
  cbn [request_loop]. unfold doRequest. rewrite call_bind. fold ev.
  destruct (settled (send (tr ++ [ev]))) eqn:Es.
  { exists 1. split_and!; [lia|lia|done|intros; lia|by right]. }
  destruct (IH (tr ++ [ev])) as (n & Hn & Hrun & Hun & Hlast). exists (S n).
  assert (∀ i, (tr ++ [ev]) ++ repeat ev i = tr ++ repeat ev (S i)) as Happ
    by (intros; by rewrite <- app_assoc).
  rewrite !Happ in *. split_and!; [lia|lia|exact Hrun| |].
  - intros [|[|i]] Hi; [lia|exact Es|]. rewrite <- Happ. apply Hun. lia.
  - destruct Hlast as [->|?]; [by left|by right].
Qed.

Lemma request_ok method path params tr :
  let url := match params with None => baseURL +:+ path
             | Some p => (baseURL +:+ path) +:+ "?" +:+ Encode p end in
  let ev := HTTP method url (headers auth) in
  ∃ n, 1 ≤ n ≤ maxRetries ∧
    request baseURL auth send method path params tr = (tr ++ repeat ev n, send (tr ++ repeat ev n)) ∧
    (∀ i, 1 ≤ i < n → settled (send (tr ++ repeat ev i)) = false) ∧
    (n = maxRetries ∨ settled (send (tr ++ repeat ev n)) = true).
Proof. cbn zeta. unfold request. destruct params; apply request_loop_ok. Qed.

Lemma LaunchBuild_ok spec env tr tr' :
  LaunchBuild baseURL auth send spec (Some env) tr = (tr', Ok tt) →
  ∃ before resp,
    tr' = before ++ [HTTP "POST" ((baseURL +:+ getBuildWithParametersPath spec) +:+ "?" +:+ Encode env)
                       (headers auth)] ∧
    send tr' = Ok resp ∧ rs_StatusCode resp = 201%Z.
Proof.
  unfold LaunchBuild. rewrite bind_app.
  destruct (request_ok "POST" (getBuildWithParametersPath spec) (Some env) tr) as (n & Hn & -> & _ & _).
  cbn [fst snd]. set (ev := HTTP _ _ _). intros [= <- He].
  destruct (send (tr ++ repeat ev n)) as [resp|] eqn:Es; [|done]. cbn in He.
  case_bool_decide; [|done]. exists (tr ++ repeat ev (pred n)), resp.
  split_and!; [|done..]. destruct n as [|n]; [lia|]. cbn [pred]. rewrite <- app_assoc. f_equal.
  clear. induction n as [|n IH]; [done|]. cbn. by rewrite <- IH.
Qed.

(** A build that was started was started with the environment of the ProwJob: its name
    and the build ID are among the parameters. *)
Lemma Client_Build_ok pj buildID tr tr' :
  dryRun = false → job_type (spec_Type (pj_Spec pj)) →
  Client_Build baseURL dryRun auth send unmarshal_info Marshal Error ExponentialBackoff pj buildID tr
    = (tr', Some (Ok tt)) →
  ∃ env before resp,
    env !! prowJobID = Some (pj_Name pj) ∧ env !! statusBuildID = Some buildID ∧
    tr' = before ++ [HTTP "POST" ((baseURL +:+ getBuildWithParametersPath (pj_Spec pj))
                       +:+ "?" +:+ Encode env) (headers auth)] ∧
    send tr' = Ok resp ∧ rs_StatusCode resp = 201%Z.
Proof.
  intros -> Ht Hrun. unfold Client_Build, BuildFromSpec in Hrun.
  apply hbind_inv in Hrun as (t1 & r & [-> Henv]%deref_inv & Hrun).
  apply hbind_inv in Hrun as (t2 & env & [-> ->]%lift_inv & Hrun).
  apply hbind_inv in Hrun as (t3 & [] & _ & Hrun).
  unfold of_result in Hrun. destruct (LaunchBuild _ _ _ _ _ t3) as [t4 r] eqn:El.
  injection Hrun as <- ->. destruct (LaunchBuild_ok _ _ _ _ El) as (before & resp & Ht4 & Hs & Hc).
  exists env, before, resp.
  set (spec := NewJobSpec (pj_Spec pj) buildID (pj_Name pj)) in *.
  destruct (Marshal spec) as [raw|e] eqn:Em.
  - destruct (EnvForSpec_ok Marshal spec raw Ht Em) as (_ & Hval & _).
    destruct (Hval env Henv) as (_ & _ & _ & ? & ? & _). done.
  - unfold EnvForSpec in Henv. rewrite Em in Henv. done.
Qed.

(** *** The builds of ProwJobs *)

Definition newest (id : string) (builds : list Build) : option Build :=
  last (filter (λ b, ProwJobID b = id) builds).

Lemma by_prow_job_lookup builds id :
  by_prow_job builds !! id = if decide (id = "") then None else newest id builds.
Proof.
  unfold by_prow_job, newest.
  induction builds as [|b builds IH] using rev_ind; cbn.
  { rewrite lookup_empty. by case_decide. }
  rewrite foldl_app, filter_app. cbn [foldl]. rewrite filter_cons, filter_nil.
  case_bool_decide as Hb.
  - rewrite IH. case_decide; [done|]. rewrite decide_False by congruence. by rewrite app_nil_r.
  - destruct (decide (ProwJobID b = id)) as [<-|Hne].
    + rewrite lookup_insert_eq, decide_False by done. by rewrite last_snoc.
    + rewrite lookup_insert_ne by done. rewrite IH. case_decide; [done|]. by rewrite app_nil_r.
Qed.

(** The last of the lists that has the ProwJob. *)
Definition scheduled (id : string) (init : option Build) (bss : list (list Build)) : option Build :=
  foldl (λ acc bs, match newest id bs with Some b => Some b | None => acc end) init bss.

Lemma merge_builds_lookup queued rs m :
  merge_builds queued rs = Ok m →
  ∃ ms, rs = Ok <$> ms ∧
    ∀ id, m !! id = foldl (λ acc (m' : gmap string Build), match m' !! id with Some b => Some b | None => acc end)
                      (queued !! id) ms.
Proof.
  unfold merge_builds. revert queued. induction rs as [|r rs IH]; intros queued; cbn.
  { intros [= <-]. by exists []. }
  destruct r as [m1|]; [|done]. cbn. intros Hrun.
  destruct (IH _ Hrun) as (ms & -> & Hm).
  exists (m1 :: ms). split; [done|]. intros id. rewrite Hm. cbn. rewrite lookup_union.
  f_equal. destruct (m1 !! id), (queued !! id); done.
Qed.

Lemma get_all_builds_ok jobs tr tr' rs :
  get_all_builds baseURL auth send unmarshal_builds jobs tr = (tr', rs) →
  length rs = length jobs ∧
  ∀ m, Ok m ∈ rs → ∃ bs, m = by_prow_job bs ∧ (bs = [] ∨ ∃ data, unmarshal_builds data = Ok bs).
Proof.
  revert tr tr' rs. induction jobs as [|job jobs IH]; intros tr tr' rs; cbn [get_all_builds].
  { intros [= _ <-]. split; [done|]. intros m []%not_elem_of_nil. }
  rewrite bind_app. destruct (GetBuilds _ _ _ _ job tr) as [t1 r] eqn:E1. cbn [fst snd].
  rewrite bind_app. destruct (get_all_builds _ _ _ _ jobs t1) as [t2 rs'] eqn:E2. cbn [fst snd].
  intros [= <- <-]. destruct (IH _ _ _ E2) as [Hl Hm]. split; [by cbn; f_equal|].
  intros m [->%symmetry|?]%elem_of_cons; [|by apply Hm].
  unfold GetBuilds in E1. rewrite bind_app in E1. destruct (Get _ _ _ _ tr) as [t d]. cbn [fst snd] in E1.
  injection E1 as _ E1. destruct d as [data|[e|e]]; [|injection E1 as <-; exists []; by auto|done].
  destruct (unmarshal_builds data) as [bs|] eqn:Eu; [|done]. injection E1 as <-. exists bs. eauto.
Qed.

(** [ListBuilds] finds the newest build of every ProwJob it was asked for: among the
    scheduled ones, else in the queue. *)
Lemma ListBuilds_ok jobs tr tr' m :
  ListBuilds baseURL auth send unmarshal_builds unmarshal_items schedule jobs tr = (tr', Ok m) →
  ∃ items bss, length bss = length (schedule (bq_JobName <$> jobs)) ∧
    (∃ data, unmarshal_items data = Ok items) ∧
    Forall (λ bs, bs = [] ∨ ∃ data, unmarshal_builds data = Ok bs) bss ∧
    ∀ id, m !! id =
      if decide (id = "") then None
      else scheduled id (if asked jobs id then mark_enqueued <$> newest id items else None) bss.
Proof.
  unfold ListBuilds, GetEnqueuedBuilds. rewrite !bind_app.
  destruct (Get _ _ _ _ tr) as [t1 d]. cbn [fst snd]. rewrite ret_app. cbn [fst snd].
  destruct d as [data|e]; [|done].
  destruct (unmarshal_items data) as [items|] eqn:Ei; [|done]. cbn [wrap_err rbind].
  rewrite bind_app. destruct (get_all_builds _ _ _ _ _ t1) as [t2 rs] eqn:E2. cbn [fst snd].
  intros [= <- Hm]. apply merge_builds_lookup in Hm as (ms & -> & Hm).
  apply get_all_builds_ok in E2 as [Hl Hall]. rewrite length_fmap in Hl.
  assert (∃ bss, ms = by_prow_job <$> bss ∧
    Forall (λ bs, bs = [] ∨ ∃ data, unmarshal_builds data = Ok bs) bss) as (bss & -> & Hbss).
  { clear Hm Hl. induction ms as [|m1 ms IH]; [by exists []|].
    destruct IH as (bss & -> & Hbss); [intros; apply Hall; cbn; by apply list_elem_of_further|].
    destruct (Hall m1) as (bs & -> & Hbs); [apply list_elem_of_here|]. exists (bs :: bss). auto. }
  exists items, bss. rewrite length_fmap in Hl. split_and!; [done|by exists data|done|].
  intros id. rewrite Hm, by_prow_job_lookup. case_decide as Hid.
  - clear -Hid. induction bss as [|bs bss IH] using rev_ind; [done|].
    rewrite fmap_app, foldl_app. cbn. by rewrite by_prow_job_lookup, decide_True.
  - unfold scheduled.
    assert (newest id (mark_enqueued <$> filter (λ jb, asked jobs (ProwJobID jb) = true) items)
      = if asked jobs id then mark_enqueued <$> newest id items else None) as ->.
    { unfold newest. clear. induction items as [|b items IH] using rev_ind; [by destruct (asked jobs id)|].
      rewrite !filter_app, fmap_app, filter_app, !filter_cons, !filter_nil.
      destruct (decide (ProwJobID b = id)) as [<-|Hne].
      - destruct (asked jobs (ProwJobID b)) eqn:Ha.
        + rewrite decide_True by done. rewrite list_fmap_singleton, filter_cons, decide_True, filter_nil by done.
          rewrite !last_snoc. done.
        + rewrite decide_False by done. rewrite fmap_nil, filter_nil, app_nil_r. exact IH.
      - rewrite app_nil_r. rewrite <- IH. case_decide; [|by rewrite fmap_nil, filter_nil, app_nil_r].
        by rewrite list_fmap_singleton, filter_cons, decide_False, filter_nil, app_nil_r. }
    generalize (if asked jobs id then mark_enqueued <$> newest id items else None) as init.
    clear -Hid. induction bss as [|bs bss IH]; intros init; [done|]. cbn.
    by rewrite by_prow_job_lookup, decide_False, IH.
Qed.
End client_properties.
