(* ===== verification/Jenkins.v ===== *)
(** * The Jenkins controller (jenkins/controller.go)

    It follows the ProwJobs that run on Jenkins: a sync lists ProwJobs and builds,
    aborts superseded presubmits, moves pending jobs on, starts triggered ones within
    the limits, and reports.  Its calls are events; [JenkinsClient] models the client
    behind three of them. *)

From S2P Require Import Prelude Api JobConfig PjUtil GoText Handler GitHub JobSpec JenkinsClient Report Plank Samples.
#[local] Open Scope go_scope.

(** ** Configuration *)

Record Controller := mkController {
  co_MaxConcurrency : Z; co_MaxGoroutines : Z; co_AllowCancellations : bool;
  co_JobURLTemplate : ProwJob → result string;
  co_ReportTemplate : option (ProwJob → result string) }.
Record JenkinsOperator := mkJenkinsOperator {
  jo_Controller : Controller; jo_LabelSelectorString : string }.
Record OperatorConfig := mkOperatorConfig {
  oc_JenkinsOperators : list JenkinsOperator; oc_StatusErrorLink : string;
  oc_JobTypesToReport : list ProwJobType }.

(** [config]: without a matching operator the code panics. *)
Definition config (cfg : OperatorConfig) (selector : string) : option Controller :=
  match oc_JenkinsOperators cfg with
  | [o] => Some (jo_Controller o)
  | operators =>
      (λ found, jo_Controller found.2) <$> list_find (λ o, jo_LabelSelectorString o = selector) operators
  end.

(** ** Calls *)

Inductive jcall : Type :=
| ListProwJobs (selector : string)
| ListJenkinsBuilds (jobs : list BuildQueryParams)
| StartBuild (pj : ProwJob) (buildID : string)
| AbortBuild (job : string) (build : Build)
| NewBuildID (job : string)
| UpdateProwJob (pj : ProwJob)
| OnGitHub (c : Call).

Record Outside := mkOutside {
  on_prowjobs : list jcall → result (list ProwJob);
  on_builds : list jcall → result (gmap string Build);
  (** [None]: the client panics, as it does for a job without refs. *)
  on_start : list jcall → option (result unit);
  on_abort : list jcall → result unit;
  on_build_id : list jcall → result string;
  on_update : list jcall → result ProwJob;
  jenkins_now : list jcall → Time;
  on_github : option GitHub }.

Definition set_jenkins_build (n : string) (st : ProwJobStatus) : ProwJobStatus :=
  mkProwJobStatus (st_StartTime st) (st_PendingTime st) (st_CompletionTime st) (st_State st)
    (st_Description st) (st_URL st) (st_PodName st) (st_BuildID st) n (st_PrevReportStates st).

Definition github_call (e : jcall) : option Call := match e with OnGitHub c => Some c | _ => None end.

(** A presubmit's place in the table of [terminateDupes]; without a pull request the
    code panics. *)
Definition dupe_key (pj : ProwJob) : option string :=
  refs ← spec_Refs (pj_Spec pj);
  pull ← head (refs_Pulls refs);
  Some (spec_Job (pj_Spec pj) +:+ " " +:+ refs_Org refs +:+ "/" +:+ refs_Repo refs +:+ "#" +:+
        itoa (pull_Number pull)).

Definition dupe_candidate (pj : ProwJob) : bool :=
  negb (Complete pj) && bool_decide (spec_Type (pj_Spec pj) = PresubmitJob).

Definition getJenkinsJobs (pjs : list ProwJob) : list BuildQueryParams :=
  (λ pj, mkBuildQueryParams (getJobName (pj_Spec pj)) (pj_Name pj))
    <$> filter (λ pj, Complete pj = false) pjs.

Definition on_jenkins (items : list ProwJob) : list ProwJob :=
  filter (λ pj, spec_Agent (pj_Spec pj) = JenkinsAgent) items.

Section controller.
Context (cfg : OperatorConfig) (selector : string) (o : Outside).

(** What one sync sees of its operator's configuration. *)
Definition controller : H jcall Controller := deref (config cfg selector).

Definition get_now : H jcall Time := look (jenkins_now o).

Definition getBuildID (name : string) : H jcall string := ask (on_build_id o) (NewBuildID name).
Definition jc_Build (pj : ProwJob) (buildID : string) : H jcall unit := λ tr,
  (tr ++ [StartBuild pj buildID], on_start o (tr ++ [StartBuild pj buildID])).

Definition canExecuteConcurrently (c : Controller) (pj : ProwJob) (m : pending_map) : bool * pending_map :=
  let job := spec_Job (pj_Spec pj) in
  let limit := spec_MaxConcurrency (pj_Spec pj) in
  if bool_decide (0 < co_MaxConcurrency c ≤ total_pending m)%Z then (false, m)
  else if bool_decide (limit = 0%Z) then (true, incrementNumPendingJobs job m)
  else if bool_decide (limit ≤ num_pending m job)%Z then (false, m)
  else (true, incrementNumPendingJobs job m).

(** ** Superseded presubmits *)

Definition dupe_state : Type := list ProwJob * gmap string nat.

(** Cancelling one: the slice afterwards and the error to return. *)
Definition cancel_dupe (jbs : gmap string Build) (pjs : list ProwJob) (cancelIndex : nat)
    (toCancel : ProwJob) : H jcall (list ProwJob * option error) :=
  let! c := controller in
  let build := if co_AllowCancellations c then jbs !! pj_Name toCancel else None in
  if from_option IsEnqueued false build then hret (pjs, None)
  else
    let! _ := match build with
              | Some build => or_zero tt (ask (on_abort o) (AbortBuild (getJobName (pj_Spec toCancel)) build))
              | None => hret tt
              end in
    let! t := get_now in
    let toCancel := update_status (set_state AbortedState) (SetComplete t toCancel) in
    let! npj := attempt (ask (on_update o) (UpdateProwJob toCancel)) in
    hret (match npj with
          | Ok npj => (<[cancelIndex := npj]> pjs, None)
          | Err e => (pjs, Some e)
          end).

Definition dupe_step (jbs : gmap string Build) (i : nat) (st : dupe_state)
    : H jcall (dupe_state * option error) :=
  let '(pjs, dupes) := st in
  match pjs !! i with
  | None => hret (st, None)
  | Some pj =>
      if negb (dupe_candidate pj) then hret (st, None)
      else
        let! n := deref (dupe_key pj) in
        match dupes !! n ≫= λ prev, (λ p, (prev, p)) <$> pjs !! prev with
        | None => hret ((pjs, <[n := i]> dupes), None)
        | Some (prev, prevPJ) =>
            let newer := Before (st_StartTime (pj_Status prevPJ)) (st_StartTime (pj_Status pj)) in
            let! (pjs', err) := cancel_dupe jbs pjs (if newer then prev else i)
                                  (if newer then prevPJ else pj) in
            hret ((pjs', if newer then <[n := i]> dupes else dupes), err)
        end
  end.

Fixpoint dupe_loop (jbs : gmap string Build) (todo : list nat) (st : dupe_state)
    : H jcall (list ProwJob * option error) :=
  match todo with
  | [] => hret (st.1, None)
  | i :: todo =>
      let! (st, err) := dupe_step jbs i st in
      match err with
      | Some e => hret (st.1, Some e)
      | None => dupe_loop jbs todo st
      end
  end.

(** The slice with what was changed in it, and the error. *)
Definition terminateDupes (pjs : list ProwJob) (jbs : gmap string Build)
    : H jcall (list ProwJob * option error) :=
  dupe_loop jbs (seq 0 (length pjs)) (pjs, ∅).

(** ** One job *)

(** The map afterwards, what was sent to be reported, and the error. *)
Definition handled : Type := pending_map * option ProwJob * option error.
Definition waits (m : pending_map) : H jcall handled := hret (m, None, None).

(** The end of both handlers: report and update. *)
Definition finish (pj : ProwJob) (m : pending_map) : H jcall handled :=
  let! r := attempt (ask (on_update o) (UpdateProwJob pj)) in
  hret (m, Some pj, match r with Ok _ => None | Err e => Some e end).

(** [SetComplete], the state and the description *)
Definition complete_as (state : ProwJobState) (description : string) (t : Time) (pj : ProwJob) : ProwJob :=
  update_status (λ st, set_description description (set_state state st)) (SetComplete t pj).

(** The build's numbers and the URL. *)
Definition describe (c : Controller) (jb : Build) (pj : ProwJob) : ProwJob :=
  let pj := update_status (λ st, set_jenkins_build (itoa (bd_Number jb))
                                   (set_pod (BuildID jb) (pj_Name pj) st)) pj in
  match co_JobURLTemplate c pj with
  | Err _ => pj
  | Ok url => update_status (set_url url) pj
  end.

Definition running_description : string := "Jenkins job running.".

(** The [switch] of [syncPendingJob], for a build that is not in the queue. *)
Definition follow (t : Time) (jb : Build) (pj : ProwJob) : ProwJob :=
  if IsRunning jb then update_status (set_description running_description) pj
  else if IsSuccess jb then complete_as SuccessState "Jenkins job succeeded." t pj
  else if IsFailure jb then complete_as FailureState "Jenkins job failed." t pj
  else if IsAborted jb then complete_as AbortedState "Jenkins job aborted." t pj
  else pj.

Definition syncPendingJob (c : Controller) (jbs : gmap string Build) (pj : ProwJob) (m : pending_map)
    : H jcall handled :=
  let! t := get_now in
  match jbs !! pj_Name pj with
  | None =>
      finish (update_status (set_url (oc_StatusErrorLink cfg))
                (complete_as ErrorState "Error finding Jenkins job." t pj)) m
  | Some jb =>
      let m' := if IsEnqueued jb || IsRunning jb
                then incrementNumPendingJobs (spec_Job (pj_Spec pj)) m else m in
      if IsEnqueued jb then waits m'
      else if IsRunning jb && bool_decide (st_Description (pj_Status pj) = running_description)
      then waits m'
      else finish (describe c jb (follow t jb pj)) m'
  end.

Definition enqueue (t : option Time) (pj : ProwJob) : ProwJob :=
  update_status (λ st, set_description "Jenkins job enqueued." (set_state PendingState
    (match t with Some t => set_pending_time (Some t) st | None => st end))) pj.

Definition syncTriggeredJob (c : Controller) (jbs : gmap string Build) (pj : ProwJob) (m : pending_map)
    : H jcall handled :=
  match jbs !! pj_Name pj with
  | Some _ =>
      let! t := get_now in
      finish (enqueue (match st_PendingTime (pj_Status pj) with None => Some t | Some _ => None end) pj) m
  | None =>
      let '(ok, m) := canExecuteConcurrently c pj m in
      if negb ok then waits m
      else
        let! id := attempt (getBuildID (spec_Job (pj_Spec pj))) in
        match id with
        | Err e => hret (m, None, Some (Errorf "error getting build ID: %v" [AErr e]))
        | Ok buildID =>
            let! r := attempt (jc_Build pj buildID) in
            let! t := get_now in
            match r with
            | Err _ => finish (update_status (set_url (oc_StatusErrorLink cfg))
                                 (complete_as ErrorState "Error starting Jenkins job." t pj)) m
            | Ok _ => finish (enqueue (Some t) pj) m
            end
        end
  end.

(** ** A sync *)

Fixpoint handle_jobs (syncFn : ProwJob → pending_map → H jcall handled) (jobs : list ProwJob)
    (m : pending_map) : H jcall (pending_map * list ProwJob * list error) :=
  match jobs with
  | [] => hret (m, [], [])
  | pj :: jobs =>
      let! (m, report, err) := syncFn pj m in
      let! (m, reports, errs) := handle_jobs syncFn jobs m in
      hret (m, option_list report ++ reports, option_list err ++ errs)
  end.

(** [schedule]: the order in which the goroutines take the jobs.  Without goroutines
    no job is taken; [WaitGroup.Add] panics for a negative number. *)
Definition syncProwJobs (schedule : list ProwJob → list ProwJob)
    (syncFn : ProwJob → pending_map → H jcall handled) (maxSyncRoutines : Z) (jobs : list ProwJob)
    (m : pending_map) : H jcall (pending_map * list ProwJob * list error) :=
  let goroutines := Z.min maxSyncRoutines (Z.of_nat (length jobs)) in
  if bool_decide (goroutines < 0)%Z then panic
  else if bool_decide (goroutines = 0)%Z then hret (m, [], [])
  else handle_jobs syncFn (schedule jobs) m.

Fixpoint report_all (c : Controller) (reports : list ProwJob) : H jcall (list error) :=
  match reports with
  | [] => hret []
  | report :: reports =>
      let! r := attempt (embed OnGitHub github_call
                  (Report (co_ReportTemplate c) (on_github o) report (oc_JobTypesToReport cfg))) in
      let! errs := report_all c reports in
      hret (errs_of r ++ errs)
  end.

(** Pending jobs first, so that it is known how many may be started. *)
Definition handle_all (schedule : list ProwJob → list ProwJob) (c : Controller)
    (jbs : gmap string Build) (jenkinsJobs : list ProwJob) : H jcall (list ProwJob * list error) :=
  let '(pendingCh, triggeredCh) := PartitionActive jenkinsJobs in
  let! (m, reports1, errs1) :=
    syncProwJobs schedule (syncPendingJob c jbs) (co_MaxGoroutines c) pendingCh ∅ in
  let! (m, reports2, errs2) :=
    syncProwJobs schedule (syncTriggeredJob c jbs) (co_MaxGoroutines c) triggeredCh m in
  hret (reports1 ++ reports2, errs1 ++ errs2).

Definition Sync (schedule : list ProwJob → list ProwJob) : H jcall unit :=
  let! items := with_err "error listing prow jobs: %v" (ask (on_prowjobs o) (ListProwJobs selector)) in
  let jenkinsJobs := on_jenkins items in
  let! jbs := with_err "error listing jenkins builds: %v"
                (ask (on_builds o) (ListJenkinsBuilds (getJenkinsJobs jenkinsJobs))) in
  let! (jenkinsJobs, err) := terminateDupes jenkinsJobs jbs in
  let! c := controller in
  let! (reports, errs) := handle_all schedule c jbs jenkinsJobs in
  let! reportErrs := report_all c reports in
  match option_list err ++ errs, reportErrs with
  | [], [] => hret tt
  | syncErrs, reportErrs =>
      herr (Errorf "errors syncing: %v, errors reporting: %v" [AErrs syncErrs; AErrs reportErrs])
  end.
End controller.

(** ** The limits *)

Definition is_start (e : jcall) : bool := match e with StartBuild _ _ => true | _ => false end.
Definition starts_of (job : string) (e : jcall) : bool :=
  match e with StartBuild pj _ => bool_decide (spec_Job (pj_Spec pj) = job) | _ => false end.
Definition count (f : jcall → bool) (calls : list jcall) : Z :=
  Z.of_nat (length (filter (λ e, f e = true) calls)).

(** The pending job counts: its build is in the queue or running. *)
Definition occupied (jbs : gmap string Build) (pj : ProwJob) : bool :=
  from_option (λ jb, IsEnqueued jb || IsRunning jb) false (jbs !! pj_Name pj).
Definition running (jbs : gmap string Build) (pendingCh : list ProwJob) (job : string) : Z :=
  Z.of_nat (length (filter (λ pj, occupied jbs pj = true ∧ spec_Job (pj_Spec pj) = job) pendingCh)).
Definition running_total (jbs : gmap string Build) (pendingCh : list ProwJob) : Z :=
  Z.of_nat (length (filter (λ pj, occupied jbs pj = true) pendingCh)).

Section limits.
Context (cfg : OperatorConfig) (selector : string) (o : Outside) (c : Controller)
  (jbs : gmap string Build).

Lemma count_app f l k : count f (l ++ k) = (count f l + count f k)%Z.
Proof. unfold count. rewrite filter_app, length_app. lia. Qed.

Lemma count_nil f : count f [] = 0%Z.
Proof. done. Qed.

Lemma admission_cases pj m b m' :
  canExecuteConcurrently c pj m = (b, m') →
  (b = false ∧ m' = m) ∨
  (b = true ∧ m' = incrementNumPendingJobs (spec_Job (pj_Spec pj)) m ∧
   (0 < co_MaxConcurrency c → total_pending m < co_MaxConcurrency c)%Z ∧
   (spec_MaxConcurrency (pj_Spec pj) = 0 ∨
    num_pending m (spec_Job (pj_Spec pj)) < spec_MaxConcurrency (pj_Spec pj))%Z).
Proof.
  unfold canExecuteConcurrently. intros Hc.
  repeat case_bool_decide; simplify_eq; [by left|right|by left|right]; split_and!; try done; lia.
Qed.

(** The map after a triggered job. *)
Definition admitted (pj : ProwJob) (m : pending_map) : pending_map :=
  match jbs !! pj_Name pj with Some _ => m | None => (canExecuteConcurrently c pj m).2 end.

Lemma finish_run pj m tr :
  ∃ e, finish o pj m tr = (tr ++ [UpdateProwJob pj], Some (Ok (m, Some pj, e))).
Proof. unfold finish, hbind, attempt, outcome, ask. rewrite bind_app. cbn. by eexists. Qed.

Ltac no_start := match goal with |- (count ?f ?l ≤ _)%Z => change (count f l) with 0%Z; lia end.

Lemma syncTriggeredJob_run pj m tr :
  ∃ new, (syncTriggeredJob cfg o c jbs pj m tr).1 = tr ++ new ∧
    (∀ job, count (starts_of job) new ≤ num_pending (admitted pj m) job - num_pending m job)%Z ∧
    (count is_start new ≤ total_pending (admitted pj m) - total_pending m)%Z ∧
    (∀ m' r e, (syncTriggeredJob cfg o c jbs pj m tr).2 = Some (Ok (m', r, e)) → m' = admitted pj m).
Proof.
  unfold syncTriggeredJob, admitted. destruct (jbs !! pj_Name pj) as [jb|].
  { unfold hbind, get_now, look. rewrite bind_app. cbn [fst snd].
    edestruct finish_run as [e ->]. eexists. split_and!; [done|intros; no_start|no_start|].
    by intros ? ? ? [= <- _ _]. }
  destruct (canExecuteConcurrently c pj m) as [b m'] eqn:Hcan.
  apply admission_cases in Hcan as [[-> ->]|(-> & -> & _)]; cbn [negb snd].
  { exists []. rewrite app_nil_r. split_and!; [done|intros; no_start|no_start|]. by intros ? ? ? [= <- _ _]. }
  set (m' := incrementNumPendingJobs _ m).
  assert (∀ job, num_pending m' job - num_pending m job
    = if decide (spec_Job (pj_Spec pj) = job) then 1 else 0)%Z as Hn.
  { intros job. unfold m'. rewrite num_pending_increment. case_decide; lia. }
  assert (total_pending m' - total_pending m = 1)%Z as Ht.
  { unfold m'. rewrite total_pending_increment. lia. }
  setoid_rewrite Hn. rewrite Ht.
  assert (∀ job id, (count (starts_of job) [StartBuild pj id])
    = if decide (spec_Job (pj_Spec pj) = job) then 1 else 0)%Z as Hone.
  { intros job id. unfold count. cbn [starts_of]. rewrite filter_cons, filter_nil. cbn [starts_of].
    destruct (decide (spec_Job (pj_Spec pj) = job)) as [E|E].
    - by rewrite bool_decide_eq_true_2.
    - by rewrite bool_decide_eq_false_2. }
  unfold hbind, attempt, outcome, getBuildID, ask, jc_Build, get_now, look. rewrite !bind_app. cbn [fst snd fmap option_fmap option_map].
  destruct (on_build_id o _) as [id|e]; cycle 1.
  { eexists. split_and!; [done|intros; case_decide; no_start|no_start|]. by intros ? ? ? [= <- _ _]. }
  rewrite !bind_app. cbn [fst snd]. destruct (on_start o _) as [r|]; cbn [fst snd fmap option_fmap option_map]; cycle 1.
  { rewrite <- app_assoc. eexists. split_and!; [done| |by vm_compute|done]. intros job. cbn [app].
    change (count (starts_of job) [NewBuildID ?x; ?y]) with (count (starts_of job) [y]). rewrite Hone. lia. }
  rewrite !bind_app. cbn [fst snd].
  destruct r as [[]|e]; (edestruct finish_run as [e' ->]; rewrite <- !app_assoc; eexists;
    split_and!; [done| |by vm_compute|by intros ? ? ? [= <- _ _]]); intros job; cbn [app].
  all: match goal with |- (count _ (?a :: ?b :: ?l) ≤ _)%Z =>
    change (count (starts_of job) (a :: b :: l)) with (count (starts_of job) ([b] ++ l)) end.
  all: rewrite count_app, Hone; match goal with |- (_ + count ?f ?l ≤ _)%Z => change (count f l) with 0%Z end; lia.
Qed.

Lemma admitted_limits pj m :
  (∀ job, num_pending m job ≤ num_pending (admitted pj m) job)%Z ∧
  (total_pending m ≤ total_pending (admitted pj m))%Z ∧
  (∀ job lim, (spec_Job (pj_Spec pj) = job → spec_MaxConcurrency (pj_Spec pj) = lim) → 0 < lim →
     num_pending (admitted pj m) job ≤ Z.max lim (num_pending m job))%Z ∧
  (0 < co_MaxConcurrency c →
     total_pending (admitted pj m) ≤ Z.max (co_MaxConcurrency c) (total_pending m))%Z.
Proof.
  unfold admitted. destruct (jbs !! pj_Name pj); [split_and!; intros; lia|].
  destruct (canExecuteConcurrently c pj m) as [b m'] eqn:Hcan. cbn [snd].
  apply admission_cases in Hcan as [[-> ->]|(-> & -> & Hg & Hl)]; [split_and!; intros; lia|].
  split_and!; intros; rewrite ?num_pending_increment, ?total_pending_increment; [case_decide; lia|lia| |lia].
  case_decide as E; [|lia]. rewrite <- E in *. assert (spec_MaxConcurrency (pj_Spec pj) = lim) by auto. lia.
Qed.

Lemma handle_triggered jobs m tr lim :
  (∀ pj, pj ∈ jobs → spec_MaxConcurrency (pj_Spec pj) = lim (spec_Job (pj_Spec pj))) →
  ∃ new, (handle_jobs (syncTriggeredJob cfg o c jbs) jobs m tr).1 = tr ++ new ∧
    (∀ job, 0 < lim job →
       num_pending m job + count (starts_of job) new ≤ Z.max (lim job) (num_pending m job))%Z ∧
    (0 < co_MaxConcurrency c →
       total_pending m + count is_start new ≤ Z.max (co_MaxConcurrency c) (total_pending m))%Z.
Proof.
  revert m tr. induction jobs as [|pj jobs IH]; intros m tr Hlim; cbn [handle_jobs].
  { exists []. rewrite app_nil_r. split_and!; [done|intros; rewrite count_nil; lia..]. }
  destruct (syncTriggeredJob_run pj m tr) as (n1 & E1 & C1 & T1 & Hm1).
  destruct (admitted_limits pj m) as (A1 & A2 & A3 & A4).
  assert (∀ job, 0 < lim job →
    num_pending (admitted pj m) job ≤ Z.max (lim job) (num_pending m job))%Z as A3'.
  { intros job ?. apply A3; [|done]. intros <-. apply Hlim, list_elem_of_here. }
  unfold hbind at 1. rewrite bind_app. destruct (syncTriggeredJob cfg o c jbs pj m tr) as [t1 r1].
  cbn [fst snd] in *. subst t1.
  destruct r1 as [[[[m1 r] e]|]|]; cycle 1.
  1, 2: exists n1; split_and!; [done| |]; intros; [specialize (C1 job); specialize (A3' job)|]; lia.
  specialize (Hm1 _ _ _ eq_refl) as ->.
  destruct (IH (admitted pj m) (tr ++ n1)) as (n2 & E2 & C2 & T2).
  { intros p Hp. by apply Hlim, list_elem_of_further. }
  unfold hbind. rewrite bind_app.
  destruct (handle_jobs _ jobs (admitted pj m) (tr ++ n1)) as [t2 r2]. cbn [fst snd] in *. subst t2.
  exists (n1 ++ n2). rewrite app_assoc. split_and!.
  - by destruct r2 as [[[[? ?] ?]|]|].
  - intros job Hj. rewrite count_app. specialize (C1 job). specialize (C2 job Hj). specialize (A3' job Hj).
    specialize (A1 job). lia.
  - intros Hj. rewrite count_app. specialize (T2 Hj). specialize (A4 Hj). lia.
Qed.

(** The pending phase starts nothing and counts. *)
Lemma syncPendingJob_run pj m tr :
  ∃ new r e, syncPendingJob cfg o c jbs pj m tr
      = (tr ++ new, Some (Ok (if occupied jbs pj then incrementNumPendingJobs (spec_Job (pj_Spec pj)) m else m, r, e))) ∧
    filter (λ e, is_start e = true) new = [].
Proof.
  unfold syncPendingJob, occupied, hbind at 1, get_now, look. rewrite bind_app. cbn [fst snd].
  destruct (jbs !! pj_Name pj) as [jb|]; cbn [from_option].
  - set (m' := if IsEnqueued jb || IsRunning jb then _ else m).
    destruct (IsEnqueued jb); [exists [], None, None; by rewrite app_nil_r|].
    destruct (IsRunning jb && _); [exists [], None, None; by rewrite app_nil_r|].
    edestruct finish_run as [e ->]. by eexists _, _, _.
  - edestruct finish_run as [e ->]. by eexists _, _, _.
Qed.

Lemma handle_pending jobs m tr :
  ∃ new m' r e, handle_jobs (syncPendingJob cfg o c jbs) jobs m tr = (tr ++ new, Some (Ok (m', r, e))) ∧
    filter (λ e, is_start e = true) new = [] ∧
    (∀ job, num_pending m' job = num_pending m job + running jbs jobs job)%Z ∧
    (total_pending m' = total_pending m + running_total jbs jobs)%Z.
Proof.
  revert m tr. induction jobs as [|pj jobs IH]; intros m tr; cbn [handle_jobs].
  { exists [], m, [], []. rewrite app_nil_r. split_and!; [done|done|intros job|].
    - change (running jbs [] job) with 0%Z. lia.
    - change (running_total jbs []) with 0%Z. lia. }
  destruct (syncPendingJob_run pj m tr) as (n1 & r1 & e1 & E1 & S1).
  set (m1 := if occupied jbs pj then _ else _) in *.
  destruct (IH m1 (tr ++ n1)) as (n2 & m2 & r2 & e2 & E2 & S2 & N2 & T2).
  rewrite (hbind_ok _ _ _ _ _ E1). rewrite (hbind_ok _ _ _ _ _ E2).
  eexists (n1 ++ n2), m2, _, _. rewrite app_assoc. split_and!; [done|by rewrite filter_app, S1, S2| |].
  - intros job. rewrite N2. unfold m1, running. rewrite filter_cons.
    destruct (occupied jbs pj) eqn:Eo.
    + rewrite num_pending_increment. do 2 case_decide; cbn [length]; try naive_solver; lia.
    + rewrite decide_False by naive_solver. lia.
  - rewrite T2. unfold m1, running_total. rewrite filter_cons.
    destruct (occupied jbs pj) eqn:Eo.
    + rewrite total_pending_increment, decide_True by done. cbn [length]. lia.
    + rewrite decide_False by done. lia.
Qed.

Lemma running_perm l k job : l ≡ₚ k → running jbs l job = running jbs k job.
Proof. intros Hp. unfold running. by rewrite Hp. Qed.
Lemma running_total_perm l k : l ≡ₚ k → running_total jbs l = running_total jbs k.
Proof. intros Hp. unfold running_total. by rewrite Hp. Qed.

Lemma count_quiet job n : filter (λ e, is_start e = true) n = [] → count (starts_of job) n = 0%Z ∧ count is_start n = 0%Z.
Proof.
  intros Hn. unfold count. rewrite Hn. split; [|done].
  induction n as [|e n IH]; [done|]. rewrite filter_cons in Hn. case_decide as He; [done|].
  rewrite filter_cons, decide_False; [by apply IH|]. intros Hs. apply He. by destruct e.
Qed.

(** The phases of a sync; [g] goroutines. *)
Lemma sync_pending schedule g pendingCh tr :
  (∀ l, schedule l ≡ₚ l) →
  syncProwJobs schedule (syncPendingJob cfg o c jbs) g pendingCh ∅ tr = (tr, None) ∨
  ∃ new m r e, syncProwJobs schedule (syncPendingJob cfg o c jbs) g pendingCh ∅ tr
      = (tr ++ new, Some (Ok (m, r, e))) ∧
    (∀ job, count (starts_of job) new = 0 ∧ count is_start new = 0)%Z ∧
    (g ≤ 0 ∨ (∀ job, num_pending m job = running jbs pendingCh job) ∧
             total_pending m = running_total jbs pendingCh)%Z.
Proof.
  intros Hs. unfold syncProwJobs. case_bool_decide as Hneg; [by left|]. right.
  case_bool_decide as Hz.
  { exists [], ∅, [], []. rewrite app_nil_r. split_and!; [done..|].
    destruct (decide (g ≤ 0)%Z); [by left|]. right. destruct pendingCh; [done|]. cbn in Hz. lia. }
  destruct (handle_pending (schedule pendingCh) ∅ tr) as (n1 & m1 & r & e & E1 & S1 & N1 & T1).
  exists n1, m1, r, e. split_and!; [done|intros; by apply count_quiet|]. right.
  split; [intros job; by rewrite N1, (running_perm _ pendingCh)|].
  by rewrite T1, (running_total_perm _ pendingCh).
Qed.

Lemma sync_triggered schedule g triggeredCh m tr lim :
  (∀ l, schedule l ≡ₚ l) →
  (∀ pj, pj ∈ triggeredCh → spec_MaxConcurrency (pj_Spec pj) = lim (spec_Job (pj_Spec pj))) →
  ∃ new, (syncProwJobs schedule (syncTriggeredJob cfg o c jbs) g triggeredCh m tr).1 = tr ++ new ∧
    (new = [] ∨
     0 < g ∧
     (∀ job, 0 < lim job →
       num_pending m job + count (starts_of job) new ≤ Z.max (lim job) (num_pending m job)) ∧
     (0 < co_MaxConcurrency c →
       total_pending m + count is_start new ≤ Z.max (co_MaxConcurrency c) (total_pending m)))%Z.
Proof.
  intros Hs Hlim. unfold syncProwJobs.
  case_bool_decide as Hneg; [exists []; rewrite app_nil_r; by auto|].
  case_bool_decide as Hz; [exists []; rewrite app_nil_r; by auto|].
  destruct (handle_triggered (schedule triggeredCh) m tr lim) as (n2 & E2 & C2 & T2).
  { intros pj Hp. rewrite Hs in Hp. by apply Hlim. }
  exists n2. split; [done|]. right. split_and!; [lia|done..].
Qed.

(** In one sync, the builds that run or wait for the pending jobs together with those
    that are started stay within the limits of the job and of the controller, unless
    they were exceeded before, when nothing is started. *)
Lemma handle_all_limits schedule jobs tr lim :
  (∀ l, schedule l ≡ₚ l) →
  (∀ pj, pj ∈ jobs → pj_State pj = TriggeredState →
     spec_MaxConcurrency (pj_Spec pj) = lim (spec_Job (pj_Spec pj))) →
  let pendingCh := (PartitionActive jobs).1 in
  ∃ new, (handle_all cfg o schedule c jbs jobs tr).1 = tr ++ new ∧
    (∀ job, 0 < lim job →
       running jbs pendingCh job + count (starts_of job) new
         ≤ Z.max (lim job) (running jbs pendingCh job))%Z ∧
    (0 < co_MaxConcurrency c →
       running_total jbs pendingCh + count is_start new
         ≤ Z.max (co_MaxConcurrency c) (running_total jbs pendingCh))%Z.
Proof.
  intros Hs Hlim. unfold handle_all, PartitionActive. cbn [fst].
  set (pendingCh := filter _ jobs). set (triggeredCh := filter (λ pj, pj_State pj = TriggeredState) jobs).
  unfold hbind at 1. rewrite bind_app.
  destruct (sync_pending schedule (co_MaxGoroutines c) pendingCh tr Hs)
    as [->|(n1 & m & r & e & -> & Hq & Hm)]; cbn [fst snd].
  { exists []. rewrite ret_app, app_nil_r. split_and!; [done|intros; rewrite count_nil; lia..]. }
  destruct (sync_triggered schedule (co_MaxGoroutines c) triggeredCh m (tr ++ n1) lim Hs) as (n2 & E2 & Hn2).
  { intros pj Hp. unfold triggeredCh in Hp. apply list_elem_of_filter in Hp as [? ?]. by apply Hlim. }
  exists (n1 ++ n2). rewrite app_assoc. split.
  { unfold hbind. rewrite bind_app. destruct (syncProwJobs _ _ _ _ _ _) as [t2 r2]. cbn [fst snd] in *.
    subst t2. by destruct r2 as [[[[? ?] ?]|]|]. }
  destruct Hn2 as [->|(Hg & C2 & T2)].
  { rewrite app_nil_r. split; [intros job ?; destruct (Hq job)|intros; destruct (Hq "")]; lia. }
  destruct Hm as [?|[Hn Ht]]; [lia|]. split.
  - intros job Hj. rewrite count_app. destruct (Hq job) as [-> _]. specialize (C2 job Hj). rewrite Hn in C2. lia.
  - intros Hj. rewrite count_app. destruct (Hq "") as [_ ->]. specialize (T2 Hj). rewrite Ht in T2. lia.
Qed.
End limits.

(** ** What a sync does, and why *)

Section sync_safety.
Context (cfg : OperatorConfig) (selector : string) (o : Outside).

(** The calls that change something. *)
Definition acts (e : jcall) : bool :=
  match e with StartBuild _ _ | AbortBuild _ _ | UpdateProwJob _ => true | _ => false end.

(** The sync has listed these ProwJobs and builds. *)
Definition listed (items : list ProwJob) (jbs : gmap string Build) (tr : list jcall) : Prop :=
  answered (on_prowjobs o) (ListProwJobs selector) (λ x, x = items) tr ∧
  answered (on_builds o) (ListJenkinsBuilds (getJenkinsJobs (on_jenkins items))) (λ x, x = jbs) tr.

(** Another unfinished presubmit of the same job and pull request did not start
    earlier. *)
Definition superseded (jobs : list ProwJob) (pj : ProwJob) : Prop :=
  ∃ i j other n, i ≠ j ∧ jobs !! i = Some pj ∧ jobs !! j = Some other ∧
    dupe_candidate pj = true ∧ dupe_candidate other = true ∧
    dupe_key pj = Some n ∧ dupe_key other = Some n ∧ (start pj ≤ start other)%Z.

(** The state a build puts its ProwJob in. *)
Definition build_state (jb : Build) : ProwJobState :=
  match bd_Result jb with
  | None => PendingState
  | Some r => if bool_decide (r = success) then SuccessState
              else if bool_decide (r = failure ∨ r = unstable) then FailureState
              else if bool_decide (r = aborted) then AbortedState
              else PendingState
  end.

Definition moved (jbs : gmap string Build) (src dst : ProwJob) : Prop :=
  pj_Name dst = pj_Name src ∧ pj_Spec dst = pj_Spec src ∧
  ((pj_State src = PendingState ∧
    match jbs !! pj_Name src with
    | None => pj_State dst = ErrorState ∧ Complete dst = true
    | Some jb => IsEnqueued jb = false ∧ pj_State dst = build_state jb ∧
        Complete dst = Complete src || bool_decide (build_state jb ≠ PendingState)
    end) ∨
   (pj_State src = TriggeredState ∧
    (pj_State dst = PendingState ∧ Complete dst = Complete src ∨
     jbs !! pj_Name src = None ∧ pj_State dst = ErrorState ∧ Complete dst = true))).

Definition justified (tr : list jcall) (e : jcall) : Prop :=
  ∃ items jbs, listed items jbs tr ∧
  let jobs := on_jenkins items in
  match e with
  | StartBuild pj id =>
      pj ∈ jobs ∧ pj_State pj = TriggeredState ∧ jbs !! pj_Name pj = None ∧
      answered (on_build_id o) (NewBuildID (spec_Job (pj_Spec pj))) (λ x, x = id) tr
  | AbortBuild job jb =>
      ∃ pj, superseded jobs pj ∧ job = getJobName (pj_Spec pj) ∧ jbs !! pj_Name pj = Some jb ∧
        IsEnqueued jb = false
  | UpdateProwJob dst =>
      ∃ src, src ∈ jobs ∧
        (superseded jobs src ∧ (∃ t, dst = update_status (set_state AbortedState) (SetComplete t src)) ∨
         moved jbs src dst)
  | _ => False
  end.

Notation may_act := (may acts justified).

(** The API server answers an update with the job as it was sent, as far as its state
    is concerned. *)
Definition update_keeps_state : Prop :=
  ∀ tr pj new, on_update o (tr ++ [UpdateProwJob pj]) = Ok new → pj_State new = pj_State pj.
Hypothesis Hupdate : update_keeps_state.

Section one_sync.
Context (items : list ProwJob) (jbs : gmap string Build).
Local Abbreviation jobs := (on_jenkins items).
Local Abbreviation P := (listed items jbs).

Lemma listed_stable : stable P.
Proof. unfold listed. auto with prow. Qed.

(** *** Superseded presubmits *)

Record dupe_inv (k : nat) (st : dupe_state) : Prop := {
  di_length : length st.1 = length jobs;
  di_todo i : k ≤ i → st.1 !! i = jobs !! i;
  di_dupes n i : st.2 !! n = Some i → i < k ∧ ∃ pj, st.1 !! i = Some pj ∧ jobs !! i = Some pj ∧
    dupe_candidate pj = true ∧ dupe_key pj = Some n;
  di_origin pj : pj ∈ st.1 → pj ∈ jobs ∨ pj_State pj = AbortedState }.

Lemma dupe_inv_skip k st : dupe_inv k st → dupe_inv (S k) st.
Proof.
  intros [H1 H2 H3 H4]. split; [done|intros; apply H2; lia| |done].
  intros n i Hi. destruct (H3 n i Hi) as [? ?]. split; [lia|done].
Qed.

Lemma dupe_inv_note k pjs dupes pj n :
  dupe_inv k (pjs, dupes) → pjs !! k = Some pj → dupe_candidate pj = true → dupe_key pj = Some n →
  dupe_inv (S k) (pjs, <[n := k]> dupes).
Proof.
  intros [H1 H2 H3 H4] Hk Hc Hn. cbn in *. split; cbn; [done|intros; apply H2; lia| |done].
  intros n' i [[<- <-]|[Hne Hi]]%lookup_insert_Some.
  - split; [lia|]. exists pj. rewrite <- H2 by done. done.
  - destruct (H3 _ _ Hi) as [? ?]. split; [lia|done].
Qed.

(** Replacing a cancelled job by the server's answer. *)
Lemma dupe_inv_cancel k pjs dupes j new :
  dupe_inv k (pjs, dupes) → j < k → (∀ n, dupes !! n ≠ Some j) → pj_State new = AbortedState →
  dupe_inv k (<[j := new]> pjs, dupes).
Proof.
  intros [H1 H2 H3 H4] Hj Hd Hs. cbn in *. split; cbn.
  - by rewrite length_insert.
  - intros i Hi. rewrite list_lookup_insert_ne by lia. by apply H2.
  - intros n i Hi. destruct (H3 _ _ Hi) as (? & pj & ? & ?). split; [done|]. exists pj.
    rewrite list_lookup_insert_ne; [done|]. intros <-. by eapply Hd.
  - intros pj Hp. apply list_elem_of_lookup_1 in Hp as [i Hi].
    destruct (decide (i = j)) as [->|Hne].
    + apply lookup_lt_Some in Hi as Hl. rewrite length_insert in Hl.
      rewrite list_lookup_insert_eq in Hi by done. simplify_eq. by right.
    + rewrite list_lookup_insert_ne in Hi by done. by eapply H4, list_elem_of_lookup_2.
Qed.

(** What cancelling leaves: the slice as it was, or the answer in one place. *)
Definition cancelled (pjs : list ProwJob) (j : nat) (r : list ProwJob * option error) : Prop :=
  r.1 = pjs ∨ r.2 = None ∧ ∃ new, pj_State new = AbortedState ∧ r.1 = <[j := new]> pjs.

Lemma attempt_update (Q : result ProwJob → list jcall → Prop) (P' : list jcall → Prop) pj :
  (∀ tr, P' tr → justified tr (UpdateProwJob pj)) →
  (∀ tr r, P' tr → (∀ new, r = Ok new → pj_State new = pj_State pj) → Q r (tr ++ [UpdateProwJob pj])) →
  triple may_act P' (attempt (ask (on_update o) (UpdateProwJob pj))) Q.
Proof.
  intros Hj HQ tr Htr. exists [UpdateProwJob pj]. split_and!; [done| |].
  - intros [|? before] e after He; simplify_eq/=; [rewrite app_nil_r; by intros _; apply Hj|by destruct before].
  - intros r [= <-]. apply HQ; [done|]. intros new. apply Hupdate.
Qed.

Lemma cancel_update_triple pjs j pj :
  superseded jobs pj → pj ∈ jobs →
  triple may_act P
    (let! t := get_now o in
     let! npj := attempt (ask (on_update o)
                   (UpdateProwJob (update_status (set_state AbortedState) (SetComplete t pj)))) in
     hret (match npj with Ok npj => (<[j := npj]> pjs, None) | Err e => (pjs, Some e) end))
    (λ r tr, P tr ∧ cancelled pjs j r).
Proof.
  intros Hsup Hin. eapply triple_bind; [by apply (triple_look _ P _ (λ _, P))|]. intros t. cbn beta.
  eapply (triple_bind _ _ _ _ (λ r tr, P tr ∧ ∀ new, r = Ok new → pj_State new = AbortedState)).
  - apply attempt_update.
    + intros tr Htr. exists items, jbs. split; [done|]. exists pj. split; [done|]. left. eauto.
    + intros tr r Htr Hr. split; [by apply listed_stable|exact Hr].
  - intros npj. apply triple_ret. intros tr [Htr Hn]. split; [done|].
    destruct npj as [new|e]; [|by left]. right. split; [done|]. exists new. split; [by apply Hn|done].
Qed.

Lemma cancel_dupe_triple pjs j pj :
  superseded jobs pj → pj ∈ jobs →
  triple may_act P (cancel_dupe cfg selector o jbs pjs j pj) (λ r tr, P tr ∧ cancelled pjs j r).
Proof.
  intros Hsup Hin. unfold cancel_dupe, controller.
  eapply triple_bind; [by apply triple_deref; intros ? tr _ Htr; instantiate (1 := λ _, P)|]. intros c. cbn beta.
  destruct (if co_AllowCancellations c then jbs !! pj_Name pj else None) as [build|] eqn:Eb; cbn [from_option].
  - destruct (IsEnqueued build) eqn:Eq; [apply triple_ret; intros; split; [done|by left]|].
    assert (jbs !! pj_Name pj = Some build) as Hb by (by destruct (co_AllowCancellations c)).
    apply (triple_bind _ _ _ _ (λ _, P)); [|intros []; by apply cancel_update_triple].
    apply (triple_or_zero_ask _ P _ _ _ P); [|by intros; apply listed_stable].
    intros tr Htr _. exists items, jbs. split; [done|]. by exists pj.
  - eapply triple_bind; [by apply triple_ret; intros tr Htr; instantiate (1 := λ _, P)|].
    intros []. by apply cancel_update_triple.
Qed.

(** One round keeps the invariant; an error ends the loop. *)
Lemma dupe_step_triple k st :
  dupe_inv k st →
  triple may_act P (dupe_step cfg selector o jbs k st) (λ r tr, P tr ∧ dupe_inv (S k) r.1).
Proof.
  intros Hinv. destruct st as [pjs dupes]. unfold dupe_step.
  destruct (pjs !! k) as [pj|] eqn:Hk; [|apply triple_ret; intros; split; [done|by apply dupe_inv_skip]].
  destruct (dupe_candidate pj) eqn:Hc; cbn [negb];
    [|apply triple_ret; intros; split; [done|by apply dupe_inv_skip]].
  eapply (triple_bind _ _ _ _ (λ n tr, dupe_key pj = Some n ∧ P tr)); [by apply triple_deref|].
  intros n. apply triple_pure. intros Hn. pose proof Hinv as [Hlen Htodo Hdupes _]. cbn in Hlen, Htodo, Hdupes.
  destruct (dupes !! n) as [prev|] eqn:Hp; cbn [mbind option_bind]; cycle 1.
  { apply triple_ret. intros. split; [done|]. by apply (dupe_inv_note k pjs dupes pj). }
  destruct (Hdupes _ _ Hp) as (Hlt & prevPJ & Hp1 & Hp0 & Hpc & Hpk). rewrite Hp1. cbn [fmap option_fmap option_map].
  assert (jobs !! k = Some pj) as Hk0 by (by rewrite <- Htodo).
  set (newer := Before (st_StartTime (pj_Status prevPJ)) (st_StartTime (pj_Status pj))).
  assert (superseded jobs (if newer then prevPJ else pj) ∧ (if newer then prevPJ else pj) ∈ jobs) as [Hsup Hin].
  { unfold newer, Before. destruct (Z.ltb_spec (st_StartTime (pj_Status prevPJ)) (st_StartTime (pj_Status pj))).
    - split; [|by eapply list_elem_of_lookup_2]. exists prev, k, pj, n. unfold start. split_and!; [lia|done..|lia].
    - split; [|by eapply list_elem_of_lookup_2]. exists k, prev, prevPJ, n. unfold start. split_and!; [lia|done..|lia]. }
  eapply triple_bind; [by apply cancel_dupe_triple|]. intros [pjs' err].
  apply triple_ret. intros tr [Htr Hcan]. split; [done|]. cbn [fst].
  assert (dupe_inv (S k) (pjs, if newer then <[n := k]> dupes else dupes)) as Hinv'.
  { destruct newer; [by apply (dupe_inv_note k pjs dupes pj)|by apply dupe_inv_skip]. }
  destruct Hcan as [Hr|(_ & new & Hs & Hr)]; cbn in Hr; subst pjs'; [done|].
  apply dupe_inv_cancel; [done|destruct newer; lia| |done].
  intros n' Hn'. destruct newer.
  - apply lookup_insert_Some in Hn' as [[_ ?]|[Hne Hn']]; [lia|].
    destruct (Hdupes _ _ Hn') as (_ & pj' & ? & _ & _ & ?). congruence.
  - destruct (Hdupes _ _ Hn') as (? & _). lia.
Qed.

Lemma dupe_loop_triple todo k st :
  dupe_inv k st → todo = seq k (length todo) →
  triple may_act P (dupe_loop cfg selector o jbs todo st)
    (λ r tr, P tr ∧ ∀ pj, pj ∈ r.1 → pj ∈ jobs ∨ pj_State pj = AbortedState).
Proof.
  revert k st. induction todo as [|i todo IH]; intros k st Hinv Htodo; cbn [dupe_loop].
  { apply triple_ret. intros tr Htr. split; [done|]. apply Hinv. }
  injection Htodo as -> Htodo.
  eapply triple_bind; [by apply dupe_step_triple|]. intros [st' err]. cbn [fst].
  apply (triple_weaken _ _ (λ tr, dupe_inv (S k) st' ∧ P tr)); [|by intros tr []].
  apply triple_pure. intros Hinv'.
  destruct err as [e|]; [|by eapply IH]. apply triple_ret. intros tr Htr. split; [done|]. apply Hinv'.
Qed.

Lemma terminateDupes_triple :
  triple may_act P (terminateDupes cfg selector o jobs jbs)
    (λ r tr, P tr ∧ ∀ pj, pj ∈ r.1 → pj ∈ jobs ∨ pj_State pj = AbortedState).
Proof.
  unfold terminateDupes. apply (dupe_loop_triple _ 0); [|by rewrite length_seq].
  split; cbn; [done|done| |by left]. intros n i Hi. by rewrite lookup_empty in Hi.
Qed.

(** *** One job *)

Lemma finish_triple src dst m :
  src ∈ jobs → moved jbs src dst → triple may_act P (finish o dst m) (λ _, P).
Proof.
  intros Hin Hmv. unfold finish. apply (triple_bind _ _ _ _ (λ _, P)); [|intros; by apply triple_ret].
  apply attempt_update.
  - intros tr Htr. exists items, jbs. split; [done|]. exists src. split; [done|by right].
  - intros tr r Htr _. by apply listed_stable.
Qed.

Lemma describe_keeps c jb pj : pj_Name (describe c jb pj) = pj_Name pj ∧
  pj_Spec (describe c jb pj) = pj_Spec pj ∧ pj_State (describe c jb pj) = pj_State pj ∧
  Complete (describe c jb pj) = Complete pj.
Proof. unfold describe. by destruct (co_JobURLTemplate c _). Qed.

Lemma follow_moved c t jb pj :
  pj_State pj = PendingState → jbs !! pj_Name pj = Some jb → IsEnqueued jb = false →
  moved jbs pj (describe c jb (follow t jb pj)).
Proof.
  intros Hs Hjb Hq. destruct (describe_keeps c jb (follow t jb pj)) as (D1 & D2 & D3 & D4).
  unfold moved. rewrite D1, D2, D3, D4. clear D1 D2 D3 D4.
  assert (pj_Name (follow t jb pj) = pj_Name pj ∧ pj_Spec (follow t jb pj) = pj_Spec pj ∧
    pj_State (follow t jb pj) = build_state jb ∧
    Complete (follow t jb pj) = Complete pj || bool_decide (build_state jb ≠ PendingState))
    as (-> & -> & -> & ->).
  { unfold follow, build_state, IsRunning, IsSuccess, IsFailure, IsAborted.
    destruct (bd_Result jb) as [r|]; cycle 1.
    { rewrite bool_decide_eq_true_2 by done. split_and!; [done..|]. by rewrite orb_false_r. }
    rewrite bool_decide_eq_false_2 by done.
    assert (∀ s, bool_decide (Some r = Some s) = bool_decide (r = s)) as Hb.
    { intros s. apply bool_decide_ext. naive_solver. }
    rewrite !Hb. case_bool_decide as H1.
    { split_and!; [done..|]. by rewrite orb_true_r. }
    assert (bool_decide (Some r = Some failure ∨ Some r = Some unstable)
      = bool_decide (r = failure ∨ r = unstable)) as -> by (apply bool_decide_ext; naive_solver).
    case_bool_decide as H2; [split_and!; [done..|by rewrite orb_true_r]|].
    case_bool_decide as H3; [split_and!; [done..|by rewrite orb_true_r]|].
    split_and!; [done..|by rewrite orb_false_r]. }
  split_and!; [done..|]. left. rewrite Hjb. done.
Qed.

Lemma syncPendingJob_triple c pj m :
  pj ∈ jobs → pj_State pj = PendingState →
  triple may_act P (syncPendingJob cfg o c jbs pj m) (λ _, P).
Proof.
  intros Hin Hs. unfold syncPendingJob.
  eapply triple_bind; [by apply (triple_look _ P _ (λ _, P))|]. intros t. cbn beta.
  destruct (jbs !! pj_Name pj) as [jb|] eqn:Hjb.
  - destruct (IsEnqueued jb) eqn:Hq; [by apply triple_ret|].
    destruct (IsRunning jb && _); [by apply triple_ret|].
    apply (finish_triple pj); [done|by apply follow_moved].
  - apply (finish_triple pj); [done|]. split_and!; [done..|]. left. by rewrite Hjb.
Qed.

Lemma syncTriggeredJob_triple c pj m :
  pj ∈ jobs → pj_State pj = TriggeredState →
  triple may_act P (syncTriggeredJob cfg o c jbs pj m) (λ _, P).
Proof.
  intros Hin Hs. unfold syncTriggeredJob.
  assert (∀ t, moved jbs pj (enqueue t pj)) as Hen.
  { intros t. split_and!; [done..|]. right. split; [done|]. left. by destruct t. }
  destruct (jbs !! pj_Name pj) as [jb|] eqn:Hjb.
  { eapply triple_bind; [by apply (triple_look _ P _ (λ _, P))|]. intros t. by apply (finish_triple pj). }
  destruct (canExecuteConcurrently c pj m) as [[] m']; cbn [negb]; [|by apply triple_ret].
  eapply triple_bind.
  { unfold getBuildID. apply (triple_attempt_result _ P _ (λ a tr, P tr ∧ answered (on_build_id o) (NewBuildID (spec_Job (pj_Spec pj))) (λ x, x = a) tr));
      [apply listed_stable|]. apply triple_question; [apply listed_stable|done]. }
  intros id. cbn beta. destruct id as [buildID|e]; [|apply triple_ret; by intros ? []].
  apply (triple_bind _ _ _ _ (λ _, P)).
  - intros tr [Htr [_ Hid]]. exists [StartBuild pj buildID]. split_and!; [done| |].
    + intros [|? before] e after He; simplify_eq/=; [|by destruct before].
      rewrite app_nil_r. intros _. exists items, jbs. split; [done|]. done.
    + intros r _. by apply listed_stable.
  - intros r. cbn beta. eapply triple_bind; [by apply (triple_look _ P _ (λ _, P))|]. intros t. cbn beta.
    destruct r; [by apply (finish_triple pj)|].
    apply (finish_triple pj); [done|]. split_and!; [done..|]. right. split; [done|]. by right.
Qed.

Lemma handle_jobs_triple f l m :
  (∀ pj m, pj ∈ l → triple may_act P (f pj m) (λ _, P)) →
  triple may_act P (handle_jobs f l m) (λ _, P).
Proof.
  revert m. induction l as [|pj l IH]; intros m Hf; cbn [handle_jobs]; [by apply triple_ret|].
  apply (triple_bind _ _ _ _ (λ _, P)); [apply Hf, list_elem_of_here|]. intros [[m1 r] e].
  apply (triple_bind _ _ _ _ (λ _, P)); [|intros [[? ?] ?]; by apply triple_ret].
  apply IH. intros. by apply Hf, list_elem_of_further.
Qed.

Lemma syncProwJobs_triple schedule f g l m :
  (∀ l, schedule l ≡ₚ l) →
  (∀ pj m, pj ∈ l → triple may_act P (f pj m) (λ _, P)) →
  triple may_act P (syncProwJobs schedule f g l m) (λ _, P).
Proof.
  intros Hs Hf. unfold syncProwJobs. case_bool_decide; [apply triple_panic|].
  case_bool_decide; [by apply triple_ret|]. apply handle_jobs_triple. intros pj m' Hpj.
  rewrite Hs in Hpj. by apply Hf.
Qed.

Lemma handle_all_triple schedule c l :
  (∀ l, schedule l ≡ₚ l) → (∀ pj, pj ∈ l → pj ∈ jobs ∨ pj_State pj = AbortedState) →
  triple may_act P (handle_all cfg o schedule c jbs l) (λ _, P).
Proof.
  intros Hs Hl. unfold handle_all, PartitionActive.
  apply (triple_bind _ _ _ _ (λ _, P)).
  { apply syncProwJobs_triple; [done|]. intros pj m Hpj. apply list_elem_of_filter in Hpj as [Hst Hpj].
    apply syncPendingJob_triple; [|done]. destruct (Hl pj Hpj) as [|Ha]; [done|]. by rewrite Ha in Hst. }
  intros [[m1 r1] e1]. apply (triple_bind _ _ _ _ (λ _, P)); [|intros [[? ?] ?]; by apply triple_ret].
  apply syncProwJobs_triple; [done|]. intros pj m Hpj. apply list_elem_of_filter in Hpj as [Hst Hpj].
  apply syncTriggeredJob_triple; [|done]. destruct (Hl pj Hpj) as [|Ha]; [done|]. by rewrite Ha in Hst.
Qed.
End one_sync.

Lemma report_all_quiet c l (P : list jcall → Prop) :
  stable P → triple may_act P (report_all cfg o c l) (λ _, P).
Proof.
  intros HP. induction l as [|pj l IH]; cbn [report_all]; [by apply triple_ret|].
  apply (triple_bind _ _ _ _ (λ _, P)).
  - apply triple_attempt; [done|]. intros tr Htr. unfold embed.
    destruct (Report _ _ _ _ _) as [own r]. eexists. split_and!; [done| |done].
    intros before e after He Ha. exfalso.
    assert (e ∈ OnGitHub <$> drop (length (omap github_call tr)) own) as (call & -> & _)%list_elem_of_fmap.
    { rewrite He. apply elem_of_app. right. apply list_elem_of_here. }
    done.
  - intros r. apply (triple_bind _ _ _ _ (λ _, P)); [done|]. intros; by apply triple_ret.
Qed.

(** What a sync changes is justified by what it has listed. *)
Lemma Sync_ok schedule :
  (∀ l, schedule l ≡ₚ l) →
  triple may_act (λ _, True) (Sync cfg selector o schedule) (λ _ _, True).
Proof.
  intros Hs. unfold Sync.
  eapply triple_bind; [apply triple_with_err, triple_question; [apply stable_const|done]|].
  intros items. cbn beta.
  eapply triple_bind; [apply triple_with_err, triple_question; [auto with prow|done]|].
  intros jbs. apply (triple_weaken _ _ (listed items jbs)); [|by intros tr [[_ ?] ?]].
  eapply triple_bind; [by apply terminateDupes_triple|]. intros [l err]. cbn [fst].
  apply (triple_weaken _ _ (λ tr, (∀ pj, pj ∈ l → pj ∈ on_jenkins items ∨ pj_State pj = AbortedState)
    ∧ listed items jbs tr)); [|by intros tr []]. apply triple_pure. intros Hl.
  eapply triple_bind; [by apply triple_deref; intros ? tr _ Htr; instantiate (1 := λ _, listed items jbs)|].
  intros c. cbn beta.
  apply (triple_bind _ _ _ _ (λ _, listed items jbs)); [by apply handle_all_triple|].
  intros [reports errs]. apply (triple_bind _ _ _ _ (λ _, listed items jbs)).
  { apply report_all_quiet, listed_stable. }
  intros reportErrs. destruct (option_list err ++ errs), reportErrs;
    by (apply triple_ret || apply triple_err).
Qed.
End sync_safety.

(** ** Properties *)

(** C20. A sync of the Jenkins controller starts, aborts and updates only for ProwJobs
    and builds it has listed: it starts a build for a triggered job without one, under
    a fresh build ID; it aborts a build that left the queue, of a presubmit superseded
    by another one; and an update aborts a superseded presubmit or moves a job to the
    state of its build. *)
Theorem jenkins_sync_spec cfg selector o schedule before e after :
  (∀ l, schedule l ≡ₚ l) → update_keeps_state o →
  (Sync cfg selector o schedule []).1 = before ++ e :: after → acts e = true →
  justified selector o before e.
Proof.
  intros Hs Hu Htr He. destruct (Sync_ok cfg selector o Hu schedule Hs [] I) as (new & E & Hnew & _).
  rewrite Htr in E. cbn in E. by apply (Hnew before e after).
Qed.

(** In one sync of the Jenkins controller the builds that run or wait, together
    with those it starts, stay within the job's limit and the operator's; where a limit
    was exceeded before, nothing is started. *)
Theorem jenkins_limits_spec cfg o schedule c jbs jobs tr lim :
  (∀ l, schedule l ≡ₚ l) →
  (∀ pj, pj ∈ jobs → pj_State pj = TriggeredState →
     spec_MaxConcurrency (pj_Spec pj) = lim (spec_Job (pj_Spec pj))) →
  let pendingCh := (PartitionActive jobs).1 in
  ∃ new, (handle_all cfg o schedule c jbs jobs tr).1 = tr ++ new ∧
    (∀ job, 0 < lim job →
       running jbs pendingCh job + count (starts_of job) new
         ≤ Z.max (lim job) (running jbs pendingCh job))%Z ∧
    (0 < co_MaxConcurrency c →
       running_total jbs pendingCh + count is_start new
         ≤ Z.max (co_MaxConcurrency c) (running_total jbs pendingCh))%Z.
Proof. apply handle_all_limits. Qed.

(** An operator with two triggered presubmits of a pull request, and what it talks to:
    every build can be started. *)
Definition w_jenkins_spec (job : string) : ProwJobSpec :=
  mkProwJobSpec PresubmitJob JenkinsAgent "" "" job (Some (w_refs [w_pull 1 "sha"])) [] true job "" 1
    false None None None None None None false.
Definition w_jenkins_pj (name job : string) (start : Time) : ProwJob :=
  mkProwJob name "ns" ∅ ∅ start (w_jenkins_spec job) (w_status TriggeredState start).
Definition w_operator : OperatorConfig :=
  mkOperatorConfig [mkJenkinsOperator (mkController 0%Z 20%Z true (λ _, Ok "url") None) ""] "link" [PresubmitJob].
Definition w_sent (calls : list jcall) : result ProwJob :=
  match last calls with Some (UpdateProwJob pj) => Ok pj | _ => Err (errors_New "update") end.
Definition w_jenkins : Outside :=
  mkOutside (λ _, Ok [w_jenkins_pj "old" "unit" 1%Z; w_jenkins_pj "new" "unit" 2%Z])
    (λ _, Ok ∅) (λ _, Some (Ok tt)) (λ _, Ok tt) (λ _, Ok "42") w_sent (λ _, 7%Z)
    (Some (w_github [] [] [])).

Lemma jenkins_sync_spec_witness :
  let aborted := update_status (set_state AbortedState) (SetComplete 7%Z (w_jenkins_pj "old" "unit" 1%Z)) in
  let listing := [ListProwJobs ""; ListJenkinsBuilds [mkBuildQueryParams "unit" "old"; mkBuildQueryParams "unit" "new"]] in
  justified "" w_jenkins listing (UpdateProwJob aborted) ∧
  justified "" w_jenkins (listing ++ [UpdateProwJob aborted; NewBuildID "unit"])
    (StartBuild (w_jenkins_pj "new" "unit" 2%Z) "42").
Proof.
  cbn zeta.
  pose proof (jenkins_sync_spec w_operator "" w_jenkins id) as Hspec.
  assert (update_keeps_state w_jenkins) as Hu.
  { intros tr pj new. cbn. unfold w_sent. rewrite last_snoc. congruence. }
  split; (eapply Hspec; [done|exact Hu|vm_compute; reflexivity|reflexivity]).
Defined.

(** Two limited jobs with one slot: the second one waits. *)
Lemma jenkins_limits_spec_witness :
  let c := mkController 0%Z 20%Z true (λ _, Ok "url") None in
  let jobs := [w_jenkins_pj "a" "unit" 1%Z; w_jenkins_pj "b" "unit" 2%Z] in
  count (starts_of "unit") (handle_all w_operator w_jenkins id c ∅ jobs []).1 = 1%Z ∧
  ∃ new, (handle_all w_operator w_jenkins id c ∅ jobs []).1 = [] ++ new ∧
    (∀ job, (0 < 1)%Z → running ∅ (PartitionActive jobs).1 job + count (starts_of job) new
       ≤ Z.max 1 (running ∅ (PartitionActive jobs).1 job))%Z.
Proof.
  cbn zeta. split; [vm_compute; reflexivity|].
  edestruct (jenkins_limits_spec w_operator w_jenkins id (mkController 0%Z 20%Z true (λ _, Ok "url") None) ∅
    [w_jenkins_pj "a" "unit" 1%Z; w_jenkins_pj "b" "unit" 2%Z] [] (λ _, 1%Z)) as (new & E & Hn & _);
    [done|intros pj [->|[->|[]%not_elem_of_nil]%elem_of_cons]%elem_of_cons _; reflexivity|].
  by exists new.
Defined.

(** Jenkins' result NOT_BUILT leaves a ProwJob pending for ever: every sync updates it
    and none completes it. *)
Example not_built_stays_pending :
  let jb := mkBuild [[mkParam prowJobID (Some "p")]] 3%Z (Some "NOT_BUILT") false in
  let pj := update_status (set_state PendingState) (w_jenkins_pj "p" "unit" 1%Z) in
  let c := mkController 0%Z 20%Z true (λ _, Ok "url") None in
  ∃ dst, (syncPendingJob w_operator w_jenkins c {["p" := jb]} pj ∅ []).1 = [UpdateProwJob dst] ∧
    pj_State dst = PendingState ∧ Complete dst = false.
Proof. eexists. split_and!; reflexivity. Qed.
