(* ===== verification/Crier.v ===== *)
(** * Crier (crier/controller.go)

    A queue of ProwJobs that changed, handed to one reporter, which says whether and
    what to report.  The controller is written against the interface [Reporter]; the
    file Reporters has the reporters of the repository as instances. *)

From S2P Require Import Prelude Api Handler.
#[local] Open Scope go_scope.

(** A reporter with calls [R] of its own; [outward] calls tell somebody something. *)
Class Reporter (R : Type) := {
  GetName : string;
  ShouldReport : ProwJob → H R bool;
  Report : ProwJob → H R (list ProwJob);
  outward : R → bool }.

(** What a reporter promises: asking it tells nobody, and it agrees to report only with
    a reason; [reports pj pjs] may hold of the jobs it says it has reported. *)
Class LawfulReporter (R : Type) {rep : Reporter R} := {
  may_report : ProwJob → list R → Prop;
  reports : ProwJob → list ProwJob → Prop;
  may_report_stable pj : stable (may_report pj);
  ShouldReport_ok pj :
    triple (λ _ r, outward r = false) (λ _, True) (ShouldReport pj)
      (λ b tr, b = true → may_report pj tr);
  Report_ok pj : triple (λ _ _, True) (λ _, True) (Report pj) (λ pjs _, reports pj pjs) }.

Section crier.
Context {R : Type} {rep : Reporter R}.

Inductive rcall : Type :=
| GetListed (namespace name : string)
| GetFresh (namespace name : string)
| PatchReported (src dst : ProwJob)
| AddRateLimited (key : string)
| Forget (key : string)
| Done (key : string)
| OnReporter (r : R).

Definition reporter_call (e : rcall) : option R := match e with OnReporter r => Some r | _ => None end.

(** The lister's answer, with its error if it has no such job. *)
Inductive lister_answer : Type :=
| Found (pj : ProwJob)
| Missing (e : error)
| ListerFailed (e : error).

(** The lister, the API server and the queue; [make_patch]: marshalling both jobs and
    [jsonpatch.CreateMergePatch]; [Poll]: [wait.Poll] with its interval and timeout;
    [cache.SplitMetaNamespaceKey]. *)
Context (on_listed : list rcall → lister_answer) (on_fresh : list rcall → result ProwJob)
  (on_patch : list rcall → result unit) (NumRequeues : list rcall → string → nat)
  (make_patch : ProwJob → ProwJob → result unit)
  (Poll : H rcall bool → H rcall unit) (SplitKey : string → result (string * string)).

Definition notify (e : rcall) : H rcall unit := λ tr, (tr ++ [e], Some (Ok tt)).

Definition retries : nat := 5.

Definition retry (key : string) : H rcall unit :=
  let! n := look (λ tr, NumRequeues tr key) in
  if bool_decide (n < retries) then notify (AddRateLimited key) else notify (Forget key).

(** The state that was reported last; a missing one reads as empty. *)
Definition reported_state (pj : ProwJob) : ProwJobState :=
  default "" (default ∅ (st_PrevReportStates (pj_Status pj)) !! GetName).

(** The deep copy with its state noted. *)
Definition record_state (pj : ProwJob) : ProwJob :=
  update_status (λ st, set_prev_report
    (Some (<[GetName := st_State st]> (default ∅ (st_PrevReportStates st)))) st) pj.

Definition get_listed (namespace name : string) : H rcall ProwJob := λ tr,
  let tr := tr ++ [GetListed namespace name] in
  (tr, Some (match on_listed tr with Found pj => Ok pj | Missing e | ListerFailed e => Err e end)).

(** The condition looks at the listed job only for a map that is not nil. *)
Definition in_lister (newpj : ProwJob) : H rcall bool :=
  let! pj := get_listed (pj_Namespace newpj) (pj_Name newpj) in
  hret (bool_decide (is_Some (st_PrevReportStates (pj_Status pj))) &&
        bool_decide (reported_state newpj = pj_State newpj)).

Definition updateReportState (pj : ProwJob) : H rcall unit :=
  let newpj := record_state pj in
  let! _ := lift (make_patch pj newpj) in
  let! _ := ask on_patch (PatchReported pj newpj) in
  with_err "failed to wait for updated report status to be in lister: %v" (Poll (in_lister newpj)).

(** The loop over the reported jobs, with one more try on a fresh copy; it stops where
    the code gives up. *)
Fixpoint update_all (pjs : list ProwJob) : H rcall unit :=
  match pjs with
  | [] => hret tt
  | pjob :: pjs =>
      let! r := attempt (updateReportState pjob) in
      match r with
      | Ok _ => update_all pjs
      | Err _ =>
          let! fresh := attempt (ask on_fresh (GetFresh (pj_Namespace pjob) (pj_Name pjob))) in
          match fresh with
          | Err _ => hret tt
          | Ok updatedPJ =>
              let! r := attempt (updateReportState updatedPJ) in
              match r with Ok _ => update_all pjs | Err _ => hret tt end
          end
      end
  end.

(** A job without a map of states gets an empty one. *)
Definition init_states (pj : ProwJob) : ProwJob :=
  update_status (λ st, set_prev_report (Some (default ∅ (st_PrevReportStates st))) st) pj.

Definition handle_listed (key : string) (pj : ProwJob) : H rcall unit :=
  let! should := embed OnReporter reporter_call (ShouldReport pj) in
  if negb should then notify (Forget key)
  else
    let pj := init_states pj in
    if bool_decide (reported_state pj = pj_State pj) then notify (Forget key)
    else
      let! r := attempt (embed OnReporter reporter_call (Report pj)) in
      match r with
      | Err _ => retry key
      | Ok pjs =>
          let! _ := update_all pjs in
          notify (Forget key)
      end.

(** [processNextItem] for the key the queue has handed out. *)
Definition processNextItem (key : string) : H rcall unit :=
  let! _ :=
    match SplitKey key with
    | Err _ => notify (Forget key)
    | Ok (namespace, name) =>
        let! answer := look (λ tr, on_listed (tr ++ [GetListed namespace name])) in
        let! _ := notify (GetListed namespace name) in
        match answer with
        | Missing _ => notify (Forget key)
        | ListerFailed _ => retry key
        | Found pj => handle_listed key pj
        end
    end in
  notify (Done key).
End crier.
Arguments rcall R : clear implicits.

(** ** Properties *)

Section properties.
Context {R : Type} {rep : Reporter R} {law : LawfulReporter R}.
Context (on_listed : list (rcall R) → lister_answer) (on_fresh : list (rcall R) → result ProwJob)
  (on_patch : list (rcall R) → result unit) (NumRequeues : list (rcall R) → string → nat)
  (make_patch : ProwJob → ProwJob → result unit)
  (Poll : H (rcall R) bool → H (rcall R) unit) (SplitKey : string → result (string * string)).

(** [wait.Poll] does nothing but checking the condition. *)
Definition poll_checks : Prop := ∀ (S : list (rcall R) → rcall R → Prop) P c,
  stable P → triple S P c (λ _, P) → triple S P (Poll c) (λ _, P).
Hypothesis Hpoll : poll_checks.

Definition own_calls (tr : list (rcall R)) : list R := omap reporter_call tr.

(** The lister has answered with this job. *)
Definition heard (namespace name : string) (pj : ProwJob) (tr : list (rcall R)) : Prop :=
  ∃ pre post, tr = pre ++ GetListed namespace name :: post ∧
    on_listed (pre ++ [GetListed namespace name]) = Found pj.

Lemma heard_stable namespace name pj : stable (heard namespace name pj).
Proof. intros tr new (pre & post & -> & Hl). exists pre, (post ++ new). by rewrite <- app_assoc. Qed.

Definition acts (e : rcall R) : bool :=
  match e with
  | OnReporter r => outward r
  | PatchReported _ _ | AddRateLimited _ => true
  | _ => false
  end.

(** The listed job of the key. *)
Definition listed_job (key : string) (pj : ProwJob) (tr : list (rcall R)) : Prop :=
  ∃ namespace name, SplitKey key = Ok (namespace, name) ∧ heard namespace name pj tr.

(** By the lister's copy, it may be reported and its state is not the one noted last. *)
Definition due (key : string) (pj : ProwJob) (tr : list (rcall R)) : Prop :=
  listed_job key pj tr ∧ may_report pj (own_calls tr) ∧ reported_state pj ≠ pj_State pj.

(** [dst] is [src] with its own state noted as this reporter's, and nothing else changed. *)
Definition notes (src dst : ProwJob) : Prop :=
  (∀ name, default "" (default ∅ (st_PrevReportStates (pj_Status dst)) !! name) =
     if bool_decide (name = GetName) then pj_State src
     else default "" (default ∅ (st_PrevReportStates (pj_Status src)) !! name)) ∧
  update_status (set_prev_report (st_PrevReportStates (pj_Status src))) dst = src.

Lemma record_notes pj : notes pj (record_state pj).
Proof.
  split; [|by destruct pj as [? ? ? ? ? ? []]]. intros name. cbn. case_bool_decide as E.
  - by rewrite E, lookup_insert_eq.
  - by rewrite lookup_insert_ne.
Qed.

Definition justified (key : string) (tr : list (rcall R)) (e : rcall R) : Prop :=
  match e with
  | OnReporter r => ∃ pj, due key pj tr
  | PatchReported src dst =>
      notes src dst ∧
      ∃ pj pjs, due key pj tr ∧ reports (init_states pj) pjs ∧
        (src ∈ pjs ∨ ∃ pjob, pjob ∈ pjs ∧
           answered on_fresh (GetFresh (pj_Namespace pjob) (pj_Name pjob)) (λ x, x = src) tr)
  | AddRateLimited key' => key' = key ∧ NumRequeues tr key < retries
  | _ => True
  end.

Notation may_act key := (may acts (justified key)).

Lemma listed_job_stable key pj : stable (listed_job key pj).
Proof.
  unfold listed_job. apply stable_ex. intros ns. apply stable_ex. intros name.
  apply stable_and; [apply stable_const|apply heard_stable].
Qed.

Lemma may_report_own pj : stable (λ tr, may_report pj (own_calls tr)).
Proof. intros tr new Hm. unfold own_calls. rewrite omap_app. by apply may_report_stable. Qed.

Lemma due_stable key pj : stable (due key pj).
Proof.
  unfold due. apply stable_and; [apply listed_job_stable|].
  apply stable_and; [apply may_report_own|apply stable_const].
Qed.

Lemma notify_quiet key P e : stable P → acts e = false → triple (may_act key) P (notify e) (λ _, P).
Proof.
  intros HP He tr Htr. exists [e]. split_and!; [done| |].
  - intros [|? before] x after Hx Ha; simplify_eq/=; [congruence|by destruct before].
  - intros a _. by apply HP.
Qed.

Lemma retry_triple key P : stable P → triple (may_act key) P (retry NumRequeues key) (λ _, P).
Proof.
  intros HP tr Htr. unfold retry, hbind, look. rewrite bind_app. cbn [fst snd].
  case_bool_decide as Hn.
  - exists [AddRateLimited key]. split_and!; [done| |intros; by apply HP].
    intros [|? before] x after Hx Ha; simplify_eq/=; [by rewrite app_nil_r|by destruct before].
  - exists [Forget key]. split_and!; [done| |intros; by apply HP].
    intros [|? before] x after Hx Ha; simplify_eq/=; by destruct before.
Qed.

Lemma updateReportState_triple key (P : list (rcall R) → Prop) pj :
  stable P → (∀ tr, P tr → justified key tr (PatchReported pj (record_state pj))) →
  triple (may_act key) P (updateReportState on_listed on_patch make_patch Poll pj) (λ _, P).
Proof.
  intros HP HJ. unfold updateReportState.
  apply (triple_bind _ _ _ _ (λ _, P)); [by apply triple_lift|]. intros _.
  apply (triple_bind _ _ _ _ (λ _, P)).
  { apply triple_ask; [intros tr Htr _; by apply HJ|intros; by apply HP]. }
  intros _. apply triple_with_err, Hpoll; [done|]. unfold in_lister.
  apply (triple_bind _ _ _ _ (λ _, P)); [|intros; by apply triple_ret].
  intros tr Htr. eexists [_]. split_and!; [done| |intros; by apply HP].
  intros [|? before] x after Hx Ha; simplify_eq/=; by destruct before.
Qed.

(** Trying an update keeps what is stable, whatever its outcome. *)
Lemma try_update_triple key P pj :
  stable P → (∀ tr, P tr → justified key tr (PatchReported pj (record_state pj))) →
  triple (may_act key) P (attempt (updateReportState on_listed on_patch make_patch Poll pj)) (λ _, P).
Proof.
  intros HP HJ. apply triple_attempt; [done|]. eapply triple_conseq; [by apply updateReportState_triple|done|done].
Qed.

Lemma update_all_triple key pj pjs l :
  reports (init_states pj) pjs → (∀ x, x ∈ l → x ∈ pjs) →
  triple (may_act key) (due key pj) (update_all on_listed on_fresh on_patch make_patch Poll l) (λ _, due key pj).
Proof.
  intros Hr. induction l as [|pjob l IH]; intros Hl; cbn [update_all]; [by apply triple_ret|].
  assert (triple (may_act key) (due key pj)
    (update_all on_listed on_fresh on_patch make_patch Poll l) (λ _, due key pj)) as Hrest.
  { apply IH. intros. by apply Hl, list_elem_of_further. }
  assert (pjob ∈ pjs) as Hin by (apply Hl, list_elem_of_here).
  apply (triple_bind _ _ _ _ (λ _, due key pj)).
  { apply try_update_triple; [apply due_stable|]. intros tr Htr. split; [apply record_notes|]. exists pj, pjs. auto. }
  intros [_|_]; [exact Hrest|].
  set (q := GetFresh (pj_Namespace pjob) (pj_Name pjob)).
  eapply triple_bind.
  { apply (triple_attempt_result _ (due key pj) _ (λ a tr, due key pj tr ∧ answered on_fresh q (λ x, x = a) tr)).
    - apply due_stable.
    - apply triple_question; [apply due_stable|done]. }
  intros fresh. cbn beta. destruct fresh as [updatedPJ|e]; [|apply triple_ret; by intros ? []].
  apply (triple_weaken _ _ (λ tr, due key pj tr ∧ answered on_fresh q (λ x, x = updatedPJ) tr));
    [|by intros tr [_ ?]].
  apply (triple_bind _ _ _ _ (λ _ tr, due key pj tr ∧ answered on_fresh q (λ x, x = updatedPJ) tr)).
  - apply try_update_triple; [apply stable_and; [apply due_stable|apply stable_answered]|].
    intros tr [Htr Ha]. split; [apply record_notes|]. exists pj, pjs. split_and!; [done|done|]. right. by exists pjob.
  - intros [_|_]; [|apply triple_ret; by intros ? []].
    eapply triple_weaken; [exact Hrest|by intros ? []].
Qed.

Lemma reported_state_init pj : reported_state (init_states pj) = reported_state pj.
Proof. unfold reported_state, init_states. cbn. by destruct (st_PrevReportStates (pj_Status pj)). Qed.

Lemma handle_listed_triple key pj :
  triple (may_act key) (listed_job key pj)
    (handle_listed on_listed on_fresh on_patch NumRequeues make_patch Poll key pj) (λ _ _, True).
Proof.
  unfold handle_listed.
  assert (∀ e, reporter_call (OnReporter (R := R) e) = Some e) as Hinj by done.
  eapply triple_bind.
  { apply (triple_embed OnReporter reporter_call Hinj _ (may_act key) (listed_job key pj) _ _
      (ShouldReport_ok pj)); [apply listed_job_stable|]. intros tr r _ Hr Ha. cbn in Ha. congruence. }
  intros should. cbn beta. destruct should; cbn [negb]; cycle 1.
  { eapply triple_conseq; [apply (notify_quiet _ (λ _, True)); [by intros ? ?|done]|done|done]. }
  rewrite reported_state_init. change (pj_State (init_states pj)) with (pj_State pj).
  case_bool_decide as Hst.
  { eapply triple_conseq; [apply (notify_quiet _ (λ _, True)); [by intros ? ?|done]|done|done]. }
  apply (triple_weaken _ _ (due key pj)).
  2: { intros tr [Hl Hm]. split_and!; [done|by apply Hm|done]. }
  eapply triple_bind.
  { apply (triple_attempt_result _ (due key pj) _ (λ pjs tr, due key pj tr ∧ reports (init_states pj) pjs));
      [apply due_stable|].
    apply (triple_embed OnReporter reporter_call Hinj _ (may_act key) (due key pj) _ _
      (Report_ok (init_states pj))); [apply due_stable|]. intros tr r Htr _ _. by exists pj. }
  intros r. cbn beta. destruct r as [pjs|e].
  - apply (triple_weaken _ _ (λ tr, reports (init_states pj) pjs ∧ due key pj tr)); [|by intros tr (? & _ & ?)].
    apply triple_pure. intros Hr.
    apply (triple_bind _ _ _ _ (λ _, due key pj)); [by apply (update_all_triple key pj pjs)|].
    intros []. eapply triple_conseq; [apply (notify_quiet _ (λ _, True)); [by intros ? ?|done]|done|done].
  - eapply triple_conseq; [apply (retry_triple _ (λ _, True)); by intros ? ?|done|done].
Qed.

(** Processing an item acts only on a job that is due by the lister's copy. *)
Lemma processNextItem_ok key :
  triple (may_act key) (λ _, True)
    (processNextItem on_listed on_fresh on_patch NumRequeues make_patch Poll SplitKey key) (λ _ _, True).
Proof.
  unfold processNextItem.
  apply (triple_bind _ _ _ _ (λ _ _, True)); [|intros []; by apply (notify_quiet _ (λ _, True)); [intros ? ?|]].
  destruct (SplitKey key) as [[ns name]|e] eqn:Ek; [|by apply (notify_quiet _ (λ _, True)); [intros ? ?|]].
  intros tr _. unfold hbind at 1, look. rewrite bind_app. cbn [fst snd].
  unfold hbind at 1, notify at 1. rewrite bind_app. cbn [fst snd].
  set (tr1 := tr ++ [GetListed ns name]).
  set (rest := match on_listed tr1 with Missing _ => notify (Forget key) | ListerFailed _ => retry NumRequeues key
    | Found pj => handle_listed on_listed on_fresh on_patch NumRequeues make_patch Poll key pj end).
  assert (∃ new, (rest tr1).1 = tr1 ++ new ∧
    ∀ before e after, new = before ++ e :: after → may_act key (tr1 ++ before) e) as (new & E & Hnew).
  { unfold rest. destruct (on_listed tr1) as [pj|e|e] eqn:El.
    - destruct (handle_listed_triple key pj tr1) as (new & ? & ? & _); [|by exists new].
      exists ns, name. split; [done|]. exists tr, []. done.
    - destruct (notify_quiet key (λ _, True) (Forget key) ltac:(by intros ? ?) eq_refl tr1 I) as (new & ? & ? & _).
      by exists new.
    - destruct (retry_triple key (λ _, True) ltac:(by intros ? ?) tr1 I) as (new & ? & ? & _). by exists new. }
  exists ([GetListed ns name] ++ new). split_and!; [by rewrite app_assoc| |done].
  eapply calls_app; [|exact Hnew].
  intros [|? before] x after Hx Ha; simplify_eq/=; by destruct before.
Qed.

(** *** Retries *)

(** What the queue counts: the additions of a key since it was last forgotten. *)
Definition count_requeues (tr : list (rcall R)) (key : string) : nat :=
  foldl (λ n e, match e with
                | AddRateLimited k => if bool_decide (k = key) then S n else n
                | Forget k => if bool_decide (k = key) then 0 else n
                | _ => n
                end) 0 tr.

Lemma count_requeues_snoc tr e key :
  count_requeues (tr ++ [e]) key ≤ S (count_requeues tr key) ∧
  ((∀ k, e ≠ AddRateLimited k) → count_requeues (tr ++ [e]) key ≤ count_requeues tr key).
Proof.
  unfold count_requeues. rewrite foldl_app. cbn.
  destruct e; try case_bool_decide; split; try lia; intros Hk; by destruct (Hk key0).
Qed.

(** However often an item is processed, it is put back at most five times before it is
    forgotten. *)
Lemma retries_bounded key n tr :
  (∀ tr key, NumRequeues tr key = count_requeues tr key) →
  tr = Nat.iter n (λ tr, (processNextItem on_listed on_fresh on_patch NumRequeues make_patch Poll
                            SplitKey key tr).1) [] →
  ∀ pre post, tr = pre ++ post → count_requeues pre key ≤ retries.
Proof.
  intros HN. revert tr. induction n as [|n IH]; intros tr ->.
  { cbn. intros [|? ?] post Heq; [cbn; lia|done]. }
  rewrite Nat.iter_succ. set (tr0 := Nat.iter n _ []) in *. specialize (IH tr0 eq_refl). cbn beta.
  destruct (processNextItem_ok key tr0 I) as (new & -> & Hnew & _).
  assert (∀ k pre post, length pre ≤ length tr0 + k → tr0 ++ new = pre ++ post →
    count_requeues pre key ≤ retries) as Hall; [|intros pre post Heq].
  - induction k as [|k IHk]; intros pre post Hlen Heq.
    { apply app_eq_inv in Heq as [(l & -> & _)|(l & -> & _)]; [by eapply IH|].
      rewrite length_app in Hlen. assert (l = []) as -> by (destruct l; [done|cbn in Hlen; lia]).
      rewrite app_nil_r. apply (IH tr0 []). by rewrite app_nil_r. }
    destruct (decide (length pre ≤ length tr0 + k)) as [?|Hgt]; [by eapply IHk|].
    apply app_eq_inv in Heq as [(l & Htr & _)|(l & -> & Hl)].
    { rewrite Htr, length_app in Hgt. lia. }
    rewrite length_app in Hlen, Hgt. destruct l as [|e0 l0] using rev_ind; [cbn in Hgt; lia|]. clear IHl0.
    rewrite length_app in Hlen, Hgt. cbn in Hlen, Hgt. rewrite app_assoc.
    assert (count_requeues (tr0 ++ l0) key ≤ retries) as Hpre.
    { apply (IHk _ (e0 :: post)); [rewrite length_app; lia|]. by rewrite Hl, <- !app_assoc. }
    destruct (count_requeues_snoc (tr0 ++ l0) e0 key) as [H1 H2].
    destruct e0 as [| | |key'| | |]; try (specialize (H2 ltac:(done)); lia).
    assert (justified key (tr0 ++ l0) (AddRateLimited key')) as [_ Hlt].
    { apply (Hnew l0 (AddRateLimited key') post); [by rewrite Hl, <- app_assoc|done]. }
    rewrite HN in Hlt. lia.
  - apply (Hall (length new) pre post); [|done]. apply (f_equal length) in Heq.
    rewrite !length_app in Heq. lia.
Qed.
End properties.

(** C21. Crier tells somebody about a ProwJob only if, by the copy of it that the lister
    has, the reporter may report it and its state is not the one noted as this reporter's
    last.  It then notes on each job the reporter names that job's state, changing nothing
    else of it; where that fails, it asks the API server for the job and notes the state it
    has by then, which need not be the one that was reported.  And an item whose report
    failed is put back at most five times before it is forgotten, however often it is
    processed. *)
Theorem crier_spec {R} {rep : Reporter R} {law : LawfulReporter R} on_listed on_fresh on_patch NumRequeues make_patch Poll SplitKey key :
  poll_checks Poll →
  (∀ tr key, NumRequeues tr key = count_requeues tr key) →
  (∀ tr before e after,
     (processNextItem on_listed on_fresh on_patch NumRequeues make_patch Poll SplitKey key tr).1
       = tr ++ before ++ e :: after →
     acts e = true → justified on_listed on_fresh NumRequeues SplitKey key (tr ++ before) e) ∧
  (∀ n pre post,
     Nat.iter n (λ tr, (processNextItem on_listed on_fresh on_patch NumRequeues make_patch Poll
                          SplitKey key tr).1) [] = pre ++ post →
     count_requeues pre key ≤ retries).
Proof.
  intros Hpoll HN. split.
  - intros tr before e after Htr He.
    destruct (processNextItem_ok on_listed on_fresh on_patch NumRequeues make_patch Poll SplitKey Hpoll key tr I)
      as (new & E & Hnew & _).
    rewrite Htr in E. apply app_inv_head in E. by apply (Hnew before e after).
  - intros n pre post Heq. by eapply (retries_bounded on_listed on_fresh on_patch NumRequeues make_patch Poll
      SplitKey Hpoll key n).
Qed.
