(* ===== verification/Reporters.v ===== *)
(** * The reporters (github/reporter, gerrit/reporter, slack/reporter, pubsub/reporter)

    Each is an instance of crier's interface; its laws say when it reports. *)

From S2P Require Import Prelude Api JobConfig PjUtil GoText Handler GitHub Samples.
From S2P Require Report.
From S2P Require Import Crier.
#[local] Open Scope go_scope.

(** A label or annotation; a missing one reads as empty. *)
Definition value (m : gmap string string) (key : string) : string := default "" (m !! key).

(** [gerrit/client], [kube] *)
Definition GerritID : string := "prow.k8s.io/gerrit-id".
Definition GerritInstance : string := "prow.k8s.io/gerrit-instance".
Definition GerritRevision : string := "prow.k8s.io/gerrit-revision".
Definition GerritReportLabel : string := "prow.k8s.io/gerrit-report-label".
Definition CodeReview : string := "Code-Review".
Definition gerrit_LGTM : string := "+1".
Definition gerrit_LBTM : string := "-1".

(** ** GitHub *)

Module GitHubReporter.
Section reporter.
Context (gc : option GitHub) (reportTemplate : option (ProwJob → result string))
  (jobTypesToReport : list ProwJobType) (reportAgent : ProwJobAgent).

Definition github_should (pj : ProwJob) : bool :=
  if bool_decide (value (pj_Labels pj) GerritReportLabel ≠ "") then false
  else if negb (spec_Report (pj_Spec pj)) then false
  else if bool_decide (spec_Type (pj_Spec pj) ≠ PresubmitJob ∧ spec_Type (pj_Spec pj) ≠ PostsubmitJob)
  then false
  else negb (bool_decide (reportAgent ≠ "" ∧ spec_Agent (pj_Spec pj) ≠ reportAgent)).

Definition github_report (pj : ProwJob) : H Call (list ProwJob) :=
  let! _ := Report.Report reportTemplate gc pj jobTypesToReport in hret [pj].

#[export] Instance github_reporter : Reporter Call := {|
  GetName := GitHubReporterName;
  ShouldReport pj := hret (github_should pj);
  Report := github_report;
  outward c := match c with BotName | ListIssueComments _ _ _ => false | _ => true end |}.

(** It reports presubmits and postsubmits that ask for it and do not belong to gerrit. *)
Definition github_wanted (pj : ProwJob) : Prop :=
  value (pj_Labels pj) GerritReportLabel = "" ∧ spec_Report (pj_Spec pj) = true ∧
  (spec_Type (pj_Spec pj) = PresubmitJob ∨ spec_Type (pj_Spec pj) = PostsubmitJob) ∧
  (reportAgent = "" ∨ spec_Agent (pj_Spec pj) = reportAgent).

Lemma should_spec pj : github_should pj = true ↔ github_wanted pj.
Proof.
  unfold github_should, github_wanted.
  case_bool_decide as Hl; [split; [done|by intros [? _]]|].
  destruct (spec_Report (pj_Spec pj)); cbn [negb]; [|split; [done|by intros (_ & ? & _)]].
  case_bool_decide as Ht; [split; [done|intros (_ & _ & [?|?] & _); by destruct Ht]|].
  case_bool_decide as Ha; cbn [negb].
  - split; [done|]. intros (_ & _ & _ & [?|?]); by destruct Ha.
  - split; [intros _|done]. split_and!; [by destruct (decide (value (pj_Labels pj) GerritReportLabel = ""))|done| |].
    + destruct (decide (spec_Type (pj_Spec pj) = PresubmitJob)); [by left|right].
      by destruct (decide (spec_Type (pj_Spec pj) = PostsubmitJob)); [|exfalso; apply Ht].
    + destruct (decide (reportAgent = "")); [by left|right].
      by destruct (decide (spec_Agent (pj_Spec pj) = reportAgent)); [|exfalso; apply Ha].
Qed.

Lemma delete_comments_runs gh org repo ids :
  triple (λ _ _, True) (λ _, True) (Report.delete_comments gh org repo ids) (λ _ _, True).
Proof. induction ids as [|id ids IH]; cbn; [walk|]. walk. exact IH. Qed.

Lemma Report_runs pj :
  triple (λ _ _, True) (λ _, True) (Report.Report reportTemplate gc pj jobTypesToReport) (λ _ _, True).
Proof.
  unfold Report.Report, Report.reportStatus, Report.report_comment, Report.write_comment.
  walk; apply delete_comments_runs.
Qed.

#[export] Instance github_lawful : LawfulReporter Call (rep := github_reporter).
Proof.
  refine {| may_report pj _ := github_wanted pj; reports pj pjs := pjs = [pj] |}.
  - intros pj. apply stable_const.
  - intros pj. apply triple_ret. intros _ _. apply should_spec.
  - intros pj. apply (triple_bind _ _ _ _ (λ _ _, True)); [apply Report_runs|].
    intros. by apply triple_ret.
Defined.
End reporter.
End GitHubReporter.

(** ** Gerrit *)

Module GerritReporter.
Inductive gerrit_call : Type :=
| ListLabelled (selector : gmap string string)
| SetReview (instance id revision message : string) (labels : option (gmap string string)).

Definition cross : string := "❌".
Definition tick : string := "✔️".
Definition hourglass : string := "⏳".
Definition prohibited : string := "🚫".
Definition defaultProwHeader : string := "Prow Status:".

Definition statusIcon (state : ProwJobState) : string :=
  if bool_decide (state = PendingState ∨ state = TriggeredState) then hourglass
  else if bool_decide (state = SuccessState) then tick
  else if bool_decide (state = FailureState) then cross
  else prohibited.

(** [jobFromPJ(pj).serialize()] *)
Definition serialize (pj : ProwJob) : string :=
  statusIcon (pj_State pj) +:+ " " +:+ spec_Job (pj_Spec pj) +:+ " " +:+ to_upper (pj_State pj) +:+
  " - " +:+ st_URL (pj_Status pj) +:+ newline.

Definition succeeded (pj : ProwJob) : bool := bool_decide (pj_State pj = SuccessState).

(** The header and the message of [generateReport]. *)
Definition report_header (pjs : list ProwJob) : string :=
  defaultProwHeader +:+ " " +:+ itoa (Z.of_nat (length (filter (λ pj, succeeded pj = true) pjs))) +:+
  " out of " +:+ itoa (Z.of_nat (length pjs)) +:+ " pjs passed!" +:+ newline.
Definition report_message (pjs : list ProwJob) : string :=
  string_join "" ((λ pj, serialize pj +:+ newline) <$> pjs).

Definition selector (pj : ProwJob) : gmap string string :=
  let base := <[ProwJobTypeLabel := value (pj_Labels pj) ProwJobTypeLabel]>
                {[GerritRevision := value (pj_Labels pj) GerritRevision]} in
  if bool_decide (value (pj_Labels pj) GerritReportLabel = "") then base
  else <[GerritReportLabel := value (pj_Labels pj) GerritReportLabel]> base.

Definition unfinished (pj : ProwJob) : bool :=
  bool_decide (pj_State pj = TriggeredState ∨ pj_State pj = PendingState).

Definition has_metadata (pj : ProwJob) : bool :=
  bool_decide (value (pj_Annotations pj) GerritID ≠ "" ∧ value (pj_Annotations pj) GerritInstance ≠ "" ∧
               value (pj_Labels pj) GerritRevision ≠ "").

(** The newest run of every job; of runs created at the same time the first. *)
Definition note_recent (m : gmap string ProwJob) (pj : ProwJob) : gmap string ProwJob :=
  match m !! spec_Job (pj_Spec pj) with
  | Some job =>
      if Before (pj_CreationTimestamp job) (pj_CreationTimestamp pj)
      then <[spec_Job (pj_Spec pj) := pj]> m else m
  | None => <[spec_Job (pj_Spec pj) := pj]> m
  end.
Definition mostRecentJob (pjs : list ProwJob) : gmap string ProwJob := foldl note_recent ∅ pjs.

Section reporter.
Context `{GoRange} (on_list : list gerrit_call → result (list ProwJob))
  (on_review : list gerrit_call → result unit).

Definition gerrit_should (pj : ProwJob) : H gerrit_call bool :=
  if unfinished pj then hret false
  else if bool_decide (pj_State pj = AbortedState) then hret false
  else if negb (has_metadata pj) then hret false
  else
    let! pjs := attempt (ask on_list (ListLabelled (selector pj))) in
    hret (match pjs with Err _ => false | Ok pjs => negb (existsb unfinished pjs) end).

Definition toReportJobs (pjs : list ProwJob) : list ProwJob :=
  filter (λ pj, pj_State pj ≠ AbortedState) (map_range (mostRecentJob pjs)).*2.

Definition vote (jobs : list ProwJob) : string :=
  if bool_decide (length (filter (λ pj, succeeded pj = true) jobs) = length jobs)
  then gerrit_LGTM else gerrit_LBTM.

Definition gerrit_report (pj : ProwJob) : H gerrit_call (list ProwJob) :=
  let! pjs := ask on_list (ListLabelled (selector pj)) in
  let jobs := toReportJobs pjs in
  let message := report_header jobs +:+ report_message jobs in
  let reportLabel := default CodeReview (pj_Labels pj !! GerritReportLabel) in
  let review := λ message labels,
    ask on_review (SetReview (value (pj_Annotations pj) GerritInstance) (value (pj_Annotations pj) GerritID)
      (value (pj_Labels pj) GerritRevision) message labels) in
  match jobs with
  | [] => hret []
  | _ =>
      let! r := attempt (review message (Some {[reportLabel := vote jobs]})) in
      match r with
      | Ok _ => hret jobs
      | Err _ =>
          let! _ := review ("[NOTICE]: Prow Bot cannot access " +:+ reportLabel +:+ " label!" +:+ newline +:+
                            message) None in
          hret jobs
      end
  end.

#[export] Instance gerrit_reporter : Reporter gerrit_call := {|
  GetName := "gerrit-gerrit_reporter";
  ShouldReport := gerrit_should;
  Report := gerrit_report;
  outward c := match c with SetReview _ _ _ _ _ => true | ListLabelled _ => false end |}.

(** A finished run of a change none of whose runs of that kind is unfinished. *)
Definition gerrit_wanted (pj : ProwJob) (tr : list gerrit_call) : Prop :=
  unfinished pj = false ∧ pj_State pj ≠ AbortedState ∧ has_metadata pj = true ∧
  answered on_list (ListLabelled (selector pj)) (λ pjs, ∀ x, x ∈ pjs → unfinished x = false) tr.

(** A newest run of each job. *)
Definition newest (pjs : list ProwJob) (x : ProwJob) : Prop :=
  x ∈ pjs ∧ ∀ y, y ∈ pjs → spec_Job (pj_Spec y) = spec_Job (pj_Spec x) →
    (pj_CreationTimestamp y ≤ pj_CreationTimestamp x)%Z.

Lemma mostRecentJob_spec pjs :
  (∀ job x, mostRecentJob pjs !! job = Some x → spec_Job (pj_Spec x) = job ∧ newest pjs x) ∧
  (∀ y, y ∈ pjs → is_Some (mostRecentJob pjs !! spec_Job (pj_Spec y))).
Proof.
  unfold mostRecentJob.
  apply (foldl_ind note_recent (λ m l,
    (∀ job x, m !! job = Some x → spec_Job (pj_Spec x) = job ∧ newest l x) ∧
    (∀ y, y ∈ l → is_Some (m !! spec_Job (pj_Spec y))))).
  { split; [intros ? ? Hx; by rewrite lookup_empty in Hx|intros y []%not_elem_of_nil]. }
  intros m l a [Hn Hs]. set (job := spec_Job (pj_Spec a)).
  assert (∀ x, newest l x → (spec_Job (pj_Spec x) = job → pj_CreationTimestamp a ≤ pj_CreationTimestamp x)%Z →
    newest (l ++ [a]) x) as Hkeep.
  { intros x [Hin Hx] Ha. split; [apply elem_of_app; by left|].
    intros y [Hy| ->%list_elem_of_singleton]%elem_of_app Hj; [by apply Hx|]. by apply Ha. }

  assert (∀ m' : gmap string ProwJob, (∀ j, is_Some (m !! j) → is_Some (m' !! j)) → is_Some (m' !! job) →
    ∀ y, y ∈ l ++ [a] → is_Some (m' !! spec_Job (pj_Spec y))) as Hsome.
  { intros m' Hm Hj y [Hy| ->%list_elem_of_singleton]%elem_of_app; [by apply Hm, Hs|done]. }
  assert (∀ x, m !! job = Some x → (pj_CreationTimestamp x < pj_CreationTimestamp a)%Z → newest (l ++ [a]) a) as Hnew.
  { intros x Hx Hlt. destruct (Hn _ _ Hx) as [Hxj [_ Hxn]].
    split; [apply elem_of_app; right; apply list_elem_of_here|].
    intros y [Hy| ->%list_elem_of_singleton]%elem_of_app Hj; [|lia].
    specialize (Hxn y Hy). rewrite Hxj in Hxn. specialize (Hxn Hj). lia. }
  unfold note_recent. fold job. destruct (m !! job) as [x|] eqn:Hx.
  - unfold Before. destruct (Z.ltb_spec (pj_CreationTimestamp x) (pj_CreationTimestamp a)) as [Hlt|Hge].
    + split.
      * intros j z [[<- <-]|[Hne Hz]]%lookup_insert_Some; [split; [done|by eapply Hnew]|].
        destruct (Hn _ _ Hz) as [Hj Hz']. split; [done|]. apply Hkeep; [done|]. congruence.
      * apply Hsome; [|by rewrite lookup_insert_eq]. intros j Hj. apply lookup_insert_is_Some'. by right.
    + split; [|apply Hsome; [done|by rewrite Hx]].
      intros j z Hz. destruct (Hn _ _ Hz) as [Hj Hz']. split; [done|]. apply Hkeep; [done|].
      intros E. rewrite E in Hj. subst j. assert (z = x) as -> by congruence. done.
  - split; [|apply Hsome; [intros j Hj; apply lookup_insert_is_Some'; by right|by rewrite lookup_insert_eq]].
    intros j z [[<- <-]|[Hne Hz]]%lookup_insert_Some.
    + split; [done|]. split; [apply elem_of_app; right; apply list_elem_of_here|].
      intros y [Hy| ->%list_elem_of_singleton]%elem_of_app Hj; [|lia].
      destruct (Hs y Hy) as [? Hsy]. rewrite Hj in Hsy. unfold job in Hx. congruence.
    + destruct (Hn _ _ Hz) as [Hj Hz']. split; [done|]. apply Hkeep; [done|]. congruence.
Qed.

Lemma toReportJobs_elem pjs x : x ∈ toReportJobs pjs → newest pjs x ∧ pj_State x ≠ AbortedState.
Proof.
  unfold toReportJobs. rewrite list_elem_of_filter. intros [Hs Hx]. split; [|done].
  apply list_elem_of_fmap in Hx as ([job y] & -> & Hy). apply elem_of_map_range in Hy.
  by apply mostRecentJob_spec in Hy as [_ ?].
Qed.

(** Every job's newest run is reported, unless it was aborted. *)
Lemma toReportJobs_complete pjs y : y ∈ pjs →
  ∃ x, newest pjs x ∧ spec_Job (pj_Spec x) = spec_Job (pj_Spec y) ∧
    (x ∈ toReportJobs pjs ∨ pj_State x = AbortedState).
Proof.
  intros Hy. destruct (proj2 (mostRecentJob_spec pjs) y Hy) as [x Hx]. exists x.
  destruct (proj1 (mostRecentJob_spec pjs) _ _ Hx) as [Hj Hn]. split_and!; [done|done|].
  destruct (decide (pj_State x = AbortedState)); [by right|left].
  apply list_elem_of_filter. split; [done|]. apply list_elem_of_fmap.
  exists (spec_Job (pj_Spec y), x). split; [done|]. by apply elem_of_map_range.
Qed.

Lemma vote_spec jobs : vote jobs = gerrit_LGTM ↔ ∀ x, x ∈ jobs → pj_State x = SuccessState.
Proof.
  unfold vote. assert (length (filter (λ pj, succeeded pj = true) jobs) = length jobs ↔
    ∀ x, x ∈ jobs → pj_State x = SuccessState) as Hl.
  { split.
    - intros Hl x Hx.
      assert (filter (λ pj, succeeded pj = true) jobs = jobs) as E.
      { clear x Hx. induction jobs as [|a jobs IH]; [done|]. rewrite filter_cons in *. cbn in *.
        case_decide.
        - f_equal. apply IH. cbn in Hl. lia.
        - pose proof (length_filter (λ pj, succeeded pj = true) jobs). lia. }
      rewrite <-E, list_elem_of_filter in Hx. unfold succeeded in Hx. by destruct Hx as [?%bool_decide_eq_true _].
    - intros Ha. rewrite filter_id; [done|]. intros x Hx. unfold succeeded. apply bool_decide_eq_true. by apply Ha. }
  case_bool_decide as Hd; [split; [intros _; by apply Hl|done]|].
  split; [done|]. intros Ha. by destruct Hd, Hl; auto.
Qed.

(** A positive vote: some run is reported, and every job has a newest run that
    succeeded or was aborted. *)
Definition deserves (pjs : list ProwJob) : Prop :=
  (∃ x, newest pjs x ∧ pj_State x = SuccessState) ∧
  ∀ y, y ∈ pjs → ∃ x, newest pjs x ∧ spec_Job (pj_Spec x) = spec_Job (pj_Spec y) ∧
    (pj_State x = SuccessState ∨ pj_State x = AbortedState).

Definition honest (pj : ProwJob) (tr : list gerrit_call) (c : gerrit_call) : Prop :=
  match c with
  | SetReview _ _ _ _ (Some labels) =>
      ∃ label v, labels = {[label := v]} ∧
        (v = gerrit_LGTM → answered on_list (ListLabelled (selector pj)) deserves tr)
  | _ => True
  end.

(** The vote says +1 only where the runs deserve it. *)
Lemma report_honest pj :
  triple (honest pj) (λ _, True) (gerrit_report pj) (λ pjs _, ∀ x, x ∈ pjs → pj_State x ≠ AbortedState).
Proof.
  unfold gerrit_report.
  apply (triple_bind _ _ _ _ (λ pjs, answered on_list (ListLabelled (selector pj)) (λ x, x = pjs))).
  { apply triple_ask; [done|]. intros tr pjs _ Ha. exists tr, [], pjs. by rewrite Ha. }
  intros pjs. destruct (toReportJobs pjs) as [|j0 jobs'] eqn:Ej; [apply triple_ret; intros _ _ x []%not_elem_of_nil|].
  set (jobs := j0 :: jobs') in *.
  assert (∀ x, x ∈ jobs → pj_State x ≠ AbortedState) as Hna.
  { intros x Hx. rewrite <-Ej in Hx. by apply toReportJobs_elem in Hx as []. }
  apply (triple_bind _ _ _ _ (λ _ _, True)).
  - eapply (triple_weaken _ _ (answered on_list (ListLabelled (selector pj)) (λ x, x = pjs))); [|done].
    intros tr Htr. eexists [_]. split_and!; [done| |done].
    intros [|? before] e after He; simplify_eq/=; [|by destruct before].
    rewrite app_nil_r. eexists _, _. split; [done|]. rewrite vote_spec. intros Hv.
    eapply answered_weaken; [exact Htr|]. intros ? ->. split.
    + exists j0. split; [apply toReportJobs_elem; rewrite Ej; apply list_elem_of_here|apply Hv, list_elem_of_here].
    + intros y Hy. destruct (toReportJobs_complete pjs y Hy) as (x & Hx & Hj & Hr). exists x.
      split_and!; [done|done|]. destruct Hr as [Hr|?]; [left; apply Hv; by rewrite Ej in Hr|by right].
  - intros r; destruct r as [_|_]; [by apply triple_ret|].
    apply (triple_bind _ _ _ _ (λ _ _, True)); [by apply triple_ask|]. intros _. by apply triple_ret.
Qed.

#[export] Instance gerrit_lawful : LawfulReporter gerrit_call (rep := gerrit_reporter).
Proof.
  refine {| may_report := gerrit_wanted; reports _ pjs := ∀ x, x ∈ pjs → pj_State x ≠ AbortedState |}.
  - intros pj. unfold gerrit_wanted. auto 10 with prow.
  - intros pj. cbn. unfold gerrit_should.
    destruct (unfinished pj) eqn:Hu; [by apply triple_ret|].
    case_bool_decide as Ha; [by apply triple_ret|].
    destruct (has_metadata pj) eqn:Hm; cbn [negb]; [|by apply triple_ret].
    apply (triple_bind _ _ _ _ (λ r tr, ∀ pjs, r = Ok pjs →
      answered on_list (ListLabelled (selector pj)) (λ x, x = pjs) tr)).
    + intros tr _. exists [ListLabelled (selector pj)]. split_and!; [done| |].
      * intros [|? before] e after He; simplify_eq/=; [done|by destruct before].
      * intros r [= <-] pjs Hp. by exists tr, [], pjs.
    + intros r. apply triple_ret. intros tr Hr Hb. unfold gerrit_wanted. split_and!; [done..|].
      destruct r as [pjs|]; [|done]. eapply answered_weaken; [by apply Hr|]. intros ? ->.
      apply negb_true_iff in Hb. by apply existsb_false.
  - intros pj tr _. destruct (report_honest pj tr I) as (new & ? & _ & ?). by exists new.
Defined.
End reporter.
End GerritReporter.

(** ** Slack *)

Module SlackReporter.
Record config := mkConfig {
  sl_JobTypesToReport : list ProwJobType; sl_JobStatesToReport : list ProwJobState;
  sl_Channel : string; sl_ReportTemplate : string }.

(** Per org/repo, org, or "*"; a missing entry is the zero value. *)
Definition GetSlackReporter (cfg : gmap string config) (refs : option Refs) : config :=
  let any := default (mkConfig [] [] "" "") (cfg !! "*") in
  match refs with
  | None => any
  | Some refs =>
      match cfg !! (refs_Org refs +:+ "/" +:+ refs_Repo refs) with
      | Some slack => slack
      | None => default any (cfg !! refs_Org refs)
      end
  end.

Definition channel (cfg : config) (pj : ProwJob) : string :=
  match spec_ReporterConfig (pj_Spec pj) ≫= rep_SlackChannel with
  | Some ch => if bool_decide (ch ≠ "") then ch else sl_Channel cfg
  | None => sl_Channel cfg
  end.

(** A form posted to Slack: its URL and values in order. *)
Inductive slack_call : Type := PostForm (url : string) (values : list (string * string)).

Definition chatPostMessage : string := "https://slack.com/api/chat.postMessage".
Definition botName : string := "prow".
Definition botIconEmoji : string := ":prow:".

Section reporter.
(** The token, and whether the client is a fake; the answers: a status and what could
    be read of the body; parsing and executing a template. *)
Context (configs : gmap string config) (dryRun fake : bool) (token : string)
  (on_post : list slack_call → result (Z * string))
  (parse : string → result (ProwJob → result string)).

Definition cfg_of (pj : ProwJob) : config := GetSlackReporter configs (spec_Refs (pj_Spec pj)).

Definition urlValues : list (string * string) :=
  [("username", botName); ("icon_emoji", botIconEmoji); ("token", token)].

Definition postMessage (url : string) (values : list (string * string)) : H slack_call string :=
  let! (code, body) := ask on_post (PostForm url values) in
  if bool_decide (code ≠ 200%Z) then herr (errors_New body) else hret body.

Definition WriteMessage (text channel : string) : H slack_call unit :=
  if fake then hret tt
  else let! _ := postMessage chatPostMessage (urlValues ++ [("channel", channel); ("text", text)]) in hret tt.

Definition slack_report (pj : ProwJob) : H slack_call (list ProwJob) :=
  let cfg := cfg_of pj in
  let! tmpl := with_err "failed to parse template: %v" (lift (parse (sl_ReportTemplate cfg))) in
  let! text := with_err "failed to execute slack_report template: %v" (lift (tmpl pj)) in
  if dryRun then hret [pj]
  else
    let! _ := with_err "failed to write Slack message: %v" (WriteMessage text (channel cfg pj)) in
    hret [pj].

Definition slack_should (pj : ProwJob) : bool :=
  let cfg := cfg_of pj in
  bool_decide (pj_State pj ∈ sl_JobStatesToReport cfg) &&
  bool_decide (spec_Type (pj_Spec pj) ∈ sl_JobTypesToReport cfg).

#[export] Instance slack_reporter : Reporter slack_call := {|
  GetName := "slackreporter";
  ShouldReport pj := hret (slack_should pj);
  Report := slack_report;
  outward _ := true |}.

Definition slack_wanted (pj : ProwJob) : Prop :=
  pj_State pj ∈ sl_JobStatesToReport (cfg_of pj) ∧ spec_Type (pj_Spec pj) ∈ sl_JobTypesToReport (cfg_of pj).

#[export] Instance slack_lawful : LawfulReporter slack_call (rep := slack_reporter).
Proof.
  refine {| may_report pj _ := slack_wanted pj; reports pj pjs := pjs = [pj] |}.
  - intros pj. apply stable_const.
  - intros pj. apply triple_ret. intros _ _ Hs.
    apply andb_true_iff in Hs as [?%bool_decide_eq_true ?%bool_decide_eq_true]. done.
  - intros pj. cbn. unfold slack_report, WriteMessage, postMessage. walk.
Defined.
End reporter.
End SlackReporter.

(** ** Pub/Sub *)

Module PubsubReporter.
Definition PubSubProjectLabel : string := "prow.k8s.io/pubsub.project".
Definition PubSubTopicLabel : string := "prow.k8s.io/pubsub.topic".
Definition PubSubRunIDLabel : string := "prow.k8s.io/pubsub.runID".
Definition GCSPrefix : string := "gs://".

Record ReportMessage := mkReportMessage {
  rm_Project : string; rm_Topic : string; rm_RunID : string; rm_Status : ProwJobState;
  rm_URL : string; rm_GCSPath : string; rm_Refs : list Refs; rm_JobType : ProwJobType;
  rm_JobName : string }.

(** An annotation, or else the label. *)
Definition findLabel (pj : ProwJob) (label : string) : string :=
  if bool_decide (value (pj_Annotations pj) label ≠ "") then value (pj_Annotations pj) label
  else value (pj_Labels pj) label.

(** [Plank.GetJobURLPrefix] *)
Definition GetJobURLPrefix (JobURLPrefixConfig : gmap string string) (refs : option Refs) : string :=
  match refs with
  | None => value JobURLPrefixConfig "*"
  | Some refs =>
      let repo := value JobURLPrefixConfig (refs_Org refs +:+ "/" +:+ refs_Repo refs) in
      if bool_decide (repo ≠ "") then repo
      else let org := value JobURLPrefixConfig (refs_Org refs) in
        if bool_decide (org ≠ "") then org else value JobURLPrefixConfig "*"
  end.

(** [strings.Replace(s, old, new, 1)] *)
Definition replace_first (s old new : string) : string :=
  match cut old s with Some (before, after) => before +:+ new +:+ after | None => s end.

Inductive pubsub_call : Type :=
| NewPubsubClient (project : string)
| Publish (project topic data : string).

Section reporter.
Context (prefixes : gmap string string) (Marshal : ReportMessage → result string)
  (on_call : list pubsub_call → result unit).

Definition generateMessageFromPJ (pj : ProwJob) : ReportMessage :=
  mkReportMessage (findLabel pj PubSubProjectLabel) (findLabel pj PubSubTopicLabel)
    (findLabel pj PubSubRunIDLabel) (pj_State pj) (st_URL (pj_Status pj))
    (replace_first (st_URL (pj_Status pj)) (GetJobURLPrefix prefixes (spec_Refs (pj_Spec pj))) GCSPrefix)
    (option_list (spec_Refs (pj_Spec pj)) ++ spec_ExtraRefs (pj_Spec pj))
    (spec_Type (pj_Spec pj)) (spec_Job (pj_Spec pj)).

Definition pubsub_should (pj : ProwJob) : bool :=
  bool_decide (findLabel pj PubSubProjectLabel ≠ "" ∧ findLabel pj PubSubTopicLabel ≠ "").

Definition pubsub_report (pj : ProwJob) : H pubsub_call (list ProwJob) :=
  let m := generateMessageFromPJ pj in
  let! _ := with_err "could not create pubsub Client: %v" (ask on_call (NewPubsubClient (rm_Project m))) in
  let! d := with_err "could not marshal pubsub pubsub_report: %v" (lift (Marshal m)) in
  let! _ := with_args "failed to publish pubsub message with run ID %q to topic: %s/%s. %v"
              [AStr (rm_RunID m); AStr (rm_Project m); AStr (rm_Topic m)]
              (ask on_call (Publish (rm_Project m) (rm_Topic m) d)) in
  hret [pj].

#[export] Instance pubsub_reporter : Reporter pubsub_call := {|
  GetName := "pubsub-pubsub_reporter";
  ShouldReport pj := hret (pubsub_should pj);
  Report := pubsub_report;
  outward c := match c with Publish _ _ _ => true | _ => false end |}.

Definition pubsub_wanted (pj : ProwJob) : Prop :=
  findLabel pj PubSubProjectLabel ≠ "" ∧ findLabel pj PubSubTopicLabel ≠ "".

#[export] Instance pubsub_lawful : LawfulReporter pubsub_call (rep := pubsub_reporter).
Proof.
  refine {| may_report pj _ := pubsub_wanted pj; reports pj pjs := pjs = [pj] |}.
  - intros pj. apply stable_const.
  - intros pj. apply triple_ret. intros _ _ Hs. by apply bool_decide_eq_true in Hs.
  - intros pj. cbn. unfold pubsub_report. walk.
Defined.
End reporter.
End PubsubReporter.

(** ** Examples *)

(** A lister with one successful presubmit, whose status is reported. *)
Definition w_reported : ProwJob := w_pj PresubmitJob "unit" [w_pull 1 "sha"] SuccessState 1%Z.
Definition w_poll (c : H (rcall Call) bool) : H (rcall Call) unit :=
  let! b := c in if b : bool then hret tt else herr (errors_New "timed out waiting for the condition").
Definition w_split (key : string) : result (string * string) := Ok ("ns", key).
Definition w_found (tr : list (rcall Call)) : lister_answer := Found w_reported.
Definition w_crier : GitHub := w_github [] [] [].

Lemma crier_spec_witness :
  let rep := GitHubReporter.github_reporter (Some w_crier) None [PresubmitJob] "" in
  let lawful := GitHubReporter.github_lawful (Some w_crier) None [PresubmitJob] "" in
  let run := processNextItem (rep := rep) w_found (λ _, Ok w_reported) (λ _, Ok tt) count_requeues
               (λ _ _, Ok tt) w_poll w_split "unit1" in
  ∃ before status after,
    (run []).1 = before ++ OnReporter (CreateStatus "o" "r" "sha" status) :: after ∧
    justified (rep := rep) (law := lawful) w_found (λ _, Ok w_reported) count_requeues w_split "unit1"
      before (OnReporter (CreateStatus "o" "r" "sha" status)).
Proof.
  cbn zeta. eexists [GetListed "ns" "unit1"], _, _. split; [vm_compute; reflexivity|].
  eapply (proj1 (crier_spec (law := GitHubReporter.github_lawful (Some w_crier) None [PresubmitJob] "")
    w_found (λ _, Ok w_reported) (λ _, Ok tt) count_requeues (λ _ _, Ok tt) w_poll w_split "unit1"
    ltac:(intros S P c HP Hc; apply (triple_bind _ _ _ _ (λ _, P)); [exact Hc|];
          intros []; [by apply triple_ret|apply triple_err]) (λ _ _, eq_refl)) []);
    [vm_compute; reflexivity|reflexivity].
Defined.

(** A change with one passed and one aborted job is voted up, although the constant's
    comment says that all presubmits passed. *)
Example aborted_job_voted_up :
  let pjs := [w_pj PresubmitJob "unit" [] SuccessState 1%Z; w_pj PresubmitJob "e2e" [] AbortedState 1%Z] in
  GerritReporter.vote (@GerritReporter.toReportJobs listing_order pjs) = gerrit_LGTM.
Proof. vm_compute. reflexivity. Qed.

(** The wait for the lister ends at once even if the lister still has the old job. *)
Example wait_does_not_wait :
  let rep := GitHubReporter.github_reporter (Some w_crier) None [PresubmitJob] "" in
  let old := init_states w_reported in
  (in_lister (rep := rep) (λ _, Found old) (record_state (rep := rep) old) []).2 = Some (Ok true) ∧
  reported_state (rep := rep) old = "".
Proof. split; reflexivity. Qed.
