(* ===== verification/OrgConfig.v ===== *)
(** * Configuration of organizations (config/org) and what peribolos asks of GitHub

    The configuration of people, teams and repositories of an organization, GitHub's
    side of it (github/types.go), and the calls of peribolos (cmd/peribolos). *)

From S2P Require Import Prelude Api GoText Handler.
From Stdlib Require Import SpecFloat.
#[local] Open Scope go_scope.

(** ** Numbers of type float64

    [SpecFloat] is IEEE arithmetic; 53 and 1024 are the parameters of [float64]. *)

Definition float64 (n : nat) : spec_float := binary_normalize 53 1024 (Z.of_nat n) 0 false.
(** [float64(part) / float64(whole) > limit]; without a whole this is NaN, which exceeds nothing. *)
Definition exceeds (part whole : nat) (limit : spec_float) : bool :=
  SFltb limit (SFdiv 53 1024 (float64 part) (float64 whole)).

(** ** Configuration (config/org/org.go) *)

Record org_Metadata := mkOrgMetadata {
  md_BillingEmail : option string; md_Company : option string; md_Email : option string;
  md_Name : option string; md_Description : option string; md_Location : option string;
  md_HasOrganizationProjects : option bool; md_HasRepositoryProjects : option bool;
  md_DefaultRepositoryPermission : option string;
  md_MembersCanCreateRepositories : option bool }.

Record RepoCreateOptions := mkRepoCreateOptions {
  rco_AutoInit : option bool; rco_GitignoreTemplate : option string;
  rco_LicenseTemplate : option string }.

Record org_Repo := mkOrgRepo {
  or_Description : option string; or_HomePage : option string; or_Private : option bool;
  or_HasIssues : option bool; or_HasProjects : option bool; or_HasWiki : option bool;
  or_AllowSquashMerge : option bool; or_AllowMergeCommit : option bool;
  or_AllowRebaseMerge : option bool; or_DefaultBranch : option string;
  or_Archived : option bool; or_Previously : list string;
  or_OnCreate : option RepoCreateOptions }.

Inductive org_Team := mkOrgTeam {
  ot_Description : option string; ot_Privacy : option string;
  ot_Members : list string; ot_Maintainers : list string;
  ot_Children : gmap string org_Team; ot_Previously : list string;
  ot_Repos : gmap string string }.

Record org_Config := mkOrgConfig {
  oc_Metadata : org_Metadata; oc_Teams : gmap string org_Team;
  oc_Members : list string; oc_Admins : list string; oc_Repos : gmap string org_Repo }.

Definition Closed : string := "closed".
Definition Secret : string := "secret".
Definition privacySettings : list string := [Closed; Secret].
Definition Privacy_UnmarshalText (text : string) : result string :=
  if bool_decide (text ∈ privacySettings) then Ok text
  else Err (Errorf "bad privacy setting: %s" [AStr text]).

(** ** GitHub (github/types.go) *)

Record Organization := mkOrganization {
  go_BillingEmail : string; go_Company : string; go_Email : string; go_Location : string;
  go_Name : string; go_Description : string; go_HasOrganizationProjects : bool;
  go_HasRepositoryProjects : bool; go_DefaultRepositoryPermission : string;
  go_MembersCanCreateRepositories : bool }.

Inductive github_Team := mkGitHubTeam {
  gt_ID : Z; gt_Name : string; gt_Slug : string; gt_Description : string; gt_Privacy : string;
  gt_Parent : option github_Team; gt_ParentTeamID : option Z; gt_Permission : string }.

Record RepoPermissions := mkRepoPermissions { rp_Pull : bool; rp_Push : bool; rp_Admin : bool }.

(** The fields of [github.Repo] that are used. *)
Record hub_Repo := mkHubRepo {
  hr_Name : string; hr_DefaultBranch : string; hr_Archived : bool; hr_Private : bool;
  hr_Description : string; hr_Homepage : string; hr_HasIssues : bool; hr_HasProjects : bool;
  hr_HasWiki : bool; hr_Permissions : RepoPermissions }.
Record FullRepo := mkFullRepo {
  fr_Repo : hub_Repo; fr_AllowSquashMerge : bool; fr_AllowMergeCommit : bool;
  fr_AllowRebaseMerge : bool }.

Record RepoRequest := mkRepoRequest {
  rr_Name : option string; rr_Description : option string; rr_Homepage : option string;
  rr_Private : option bool; rr_HasIssues : option bool; rr_HasProjects : option bool;
  rr_HasWiki : option bool; rr_AllowSquashMerge : option bool;
  rr_AllowMergeCommit : option bool; rr_AllowRebaseMerge : option bool }.
Record RepoCreateRequest := mkRepoCreateRequest {
  rc_RepoRequest : RepoRequest; rc_AutoInit : option bool;
  rc_GitignoreTemplate : option string; rc_LicenseTemplate : option string }.
Record RepoUpdateRequest := mkRepoUpdateRequest {
  ru_RepoRequest : RepoRequest; ru_DefaultBranch : option string; ru_Archived : option bool }.

Definition set {A} (p : option A) : bool := bool_decide (is_Some p).

Definition RepoRequest_Defined (r : RepoRequest) : bool :=
  set (rr_Name r) || set (rr_Description r) || set (rr_Homepage r) || set (rr_Private r) ||
  set (rr_HasIssues r) || set (rr_HasProjects r) || set (rr_HasWiki r) ||
  set (rr_AllowSquashMerge r) || set (rr_AllowMergeCommit r) || set (rr_AllowRebaseMerge r).
Definition RepoUpdateRequest_Defined (r : RepoUpdateRequest) : bool :=
  RepoRequest_Defined (ru_RepoRequest r) || set (ru_DefaultBranch r) || set (ru_Archived r).

(** [RepoPermissionLevel] and the roles. *)
Definition Read : string := "read".
Definition Write : string := "write".
Definition Admin : string := "admin".
Definition None_ : string := "none".
Definition RoleAdmin : string := "admin".
Definition RoleMaintainer : string := "maintainer".
Definition RoleMember : string := "member".

Definition LevelFromPermissions (permissions : RepoPermissions) : string :=
  if rp_Admin permissions then Admin
  else if rp_Push permissions then Write
  else if rp_Pull permissions then Read
  else None_.

(** ** Errors of the GitHub client (github/client.go)

    An error of the client is a [requestError], as a value or behind a pointer, or
    something else. *)

(** A body of type [ClientError] (the messages of its sub-errors), of type
    [AlternativeClientError], or another error. *)
Inductive body_error :=
| ClientError (Message : string) (Errors : list string)
| AlternativeClientError (Message : string) (Errors : list string)
| OtherBody (e : error).
Record requestError := mkRequestError { re_ClientError : body_error; re_ErrorString : error }.
Inductive client_error :=
| AsValue (e : requestError)
| AsPointer (e : requestError)
| OtherError (e : error).

Definition ErrorMessages (r : requestError) : list string :=
  match re_ClientError r with
  | ClientError _ errors => errors
  | AlternativeClientError _ errors => errors
  | OtherBody _ => []
  end.
Definition IsNotFound (err : option client_error) : bool :=
  match err with
  | Some (AsPointer requestErr) =>
      existsb (λ errorMsg, contains errorMsg "status code 404") (ErrorMessages requestErr)
  | _ => false
  end.
Definition Error (e : client_error) : error :=
  match e with AsValue r | AsPointer r => re_ErrorString r | OtherError e => e end.

(** How [requestRaw] turns an answer's status into an error. *)
Definition status_error (StatusCode : Z) (exitCodes : list Z) (body : string) (clientError : body_error)
    : option client_error :=
  if bool_decide (StatusCode ∈ exitCodes) then None
  else Some (AsValue (mkRequestError clientError (Errorf "status code %d not one of %v, body: %s"
               [AInt StatusCode; AInts exitCodes; AStr body]))).

(** No answer of GitHub counts as not found, since errors are values. *)
Lemma status_error_IsNotFound code exitCodes body e : IsNotFound (status_error code exitCodes body e) = false.
Proof. unfold status_error. by case_bool_decide. Qed.

(** ** Calls *)

Inductive OrgCall :=
| GetOrg (name : string)
| EditOrg (name : string) (org : Organization)
| ListOrgInvitations (org : string)
| BotName
| ListOrgMembers (org role : string)
| RemoveOrgMembership (org user : string)
| UpdateOrgMembership (org user : string) (admin : bool)
| GetRepos (org : string)
| GetRepo (owner name : string)
| CreateRepo (owner : string) (request : RepoCreateRequest)
| UpdateRepo (owner name : string) (request : RepoUpdateRequest)
| ListTeams (org : string)
| CreateTeam (org : string) (team : github_Team)
| DeleteTeam (id : Z)
| EditTeam (team : github_Team)
| ListTeamMembers (id : Z) (role : string)
| ListTeamInvitations (id : Z)
| RemoveTeamMembership (id : Z) (user : string)
| UpdateTeamMembership (id : Z) (user : string) (maintainer : bool)
| ListTeamRepos (id : Z)
| UpdateTeamRepo (id : Z) (org repo permission : string)
| RemoveTeamRepo (id : Z) (org repo : string).

(** Members and invitations are given by their logins. *)
Record OrgGitHub := mkOrgGitHub {
  on_org : list OrgCall → result Organization;
  on_bot : list OrgCall → result string;
  on_logins : list OrgCall → result (list string);
  on_repos : list OrgCall → result (list hub_Repo);
  on_repo : list OrgCall → result FullRepo;
  on_teams : list OrgCall → result (list github_Team);
  on_team : list OrgCall → result github_Team;
  (** [None] if the membership was updated *)
  on_membership : list OrgCall → option client_error;
  (** calls whose answer says no more than whether they succeeded *)
  on_change : list OrgCall → result unit }.

(** Calls that change something. *)
Definition is_change (c : OrgCall) : bool :=
  match c with
  | EditOrg _ _ | RemoveOrgMembership _ _ | UpdateOrgMembership _ _ _ | CreateRepo _ _
  | UpdateRepo _ _ _ | CreateTeam _ _ | DeleteTeam _ | EditTeam _ | RemoveTeamMembership _ _
  | UpdateTeamMembership _ _ _ | UpdateTeamRepo _ _ _ _ | RemoveTeamRepo _ _ _ => true
  | _ => false
  end.

(** ** Loops *)

Section each.
Context {E A : Type} (f : A → H E unit).
(** A loop that collects the errors of its body, and one that ends with the first. *)
Fixpoint each (l : list A) (errs : list error) : H E (list error) :=
  match l with
  | [] => hret errs
  | a :: l => let! r := attempt (f a) in each l (errs ++ errs_of r)
  end.
Fixpoint for_each (l : list A) : H E unit :=
  match l with
  | [] => hret tt
  | a :: l => let! _ := f a in for_each l
  end.

Context (S : list E → E → Prop) (P : list E → Prop) (Q : A → list E → Prop).
Hypotheses (HP : stable P) (HQ : ∀ a, stable (Q a)).

Lemma triple_each l errs :
  (∀ a, a ∈ l → triple S P (f a) (λ _, Q a)) →
  triple S P (each l errs) (λ errs' tr, P tr ∧ (errs' = [] → errs = [] ∧ ∀ a, a ∈ l → Q a tr)).
Proof.
  revert errs. induction l as [|a l IH]; intros errs Hf; cbn [each].
  { apply triple_ret. intros tr Hp. split; [done|]. intros He. split; [done|]. by intros ? ?%not_elem_of_nil. }
  eapply triple_bind; [apply triple_attempt_result; [done|apply Hf; left]|].
  intros [u|e]; cbn beta iota; cbn [errs_of].
  - rewrite app_nil_r. eapply triple_conseq;
      [apply (triple_frame _ (Q a)); [done|apply IH; intros; apply Hf; by right]|intros tr [? ?]; by split|].
    intros errs' tr [Ha [Hp Hr]]. split; [done|]. intros He. destruct (Hr He) as [? Hall]. split; [done|].
    intros b [->|?]%elem_of_cons; auto.
  - eapply triple_conseq; [apply IH; intros; apply Hf; by right|by intros tr [? _]|].
    intros errs' tr [Hp Hr]. split; [done|]. intros He. destruct (Hr He) as [Hnil _]. by destruct errs.
Qed.

Lemma triple_for_each l :
  (∀ a, a ∈ l → triple S P (f a) (λ _, Q a)) →
  triple S P (for_each l) (λ _ tr, P tr ∧ ∀ a, a ∈ l → Q a tr).
Proof.
  induction l as [|a l IH]; intros Hf; cbn [for_each].
  { apply triple_ret. intros tr Hp. split; [done|]. by intros ? ?%not_elem_of_nil. }
  eapply (triple_bind _ _ _ _ (λ _ tr, P tr ∧ Q a tr)).
  - eapply triple_conseq; [apply (triple_frame _ P); [done|apply Hf; left]|by intros tr ?|done].
  - intros u. eapply triple_conseq;
      [apply (triple_frame _ (Q a)); [done|apply IH; intros; apply Hf; by right]|intros tr [? ?]; by split|].
    intros u' tr [Ha [Hp Hall]]. split; [done|]. intros b [->|?]%elem_of_cons; auto.
Qed.
End each.

(** ** Handlers that never panic *)

Section total.
Context {E : Type}.
Definition total {A} (m : H E A) : Prop := ∀ tr, is_Some (m tr).2.

Lemma total_ask {A} (f : list E → result A) e : total (ask f e).
Proof. intros tr. by eexists. Qed.
Lemma total_lift {A} (r : result A) : total (lift r).
Proof. intros tr. by eexists. Qed.
Lemma total_ret {A} (a : A) : total (hret a).
Proof. intros tr. by eexists. Qed.
Lemma total_err {A} (e : error) : total (A := A) (herr e).
Proof. intros tr. by eexists. Qed.
Lemma total_bind {A B} (m : H E A) (k : A → H E B) : total m → (∀ a, total (k a)) → total (hbind m k).
Proof.
  intros Hm Hk tr. unfold hbind. rewrite bind_app. specialize (Hm tr).
  destruct (m tr) as [tr' [[a|e]|]]; cbn; [apply Hk|done|by destruct Hm].
Qed.
Lemma total_outcome {A B} (f : result A → result B) (m : H E A) : total m → total (outcome f m).
Proof.
  intros Hm tr. specialize (Hm tr). unfold outcome. destruct (m tr) as [tr' [r|]]; [done|by destruct Hm].
Qed.
Lemma total_if {A} (b : bool) (m n : H E A) : total m → total n → total (if b then m else n).
Proof. by destruct b. Qed.
Lemma total_each {A} (f : A → H E unit) l errs : (∀ a, a ∈ l → total (f a)) → total (each f l errs).
Proof.
  revert errs. induction l as [|a l IH]; intros errs Hf; cbn [each]; [apply total_ret|].
  apply total_bind; [apply total_outcome, Hf; left|]. intros r. apply IH. intros; apply Hf; by right.
Qed.
Lemma total_for_each {A} (f : A → H E unit) l : (∀ a, a ∈ l → total (f a)) → total (for_each f l).
Proof.
  induction l as [|a l IH]; intros Hf; cbn [for_each]; [apply total_ret|].
  apply total_bind; [apply Hf; left|]. intros u. apply IH. intros; apply Hf; by right.
Qed.
End total.

#[export] Hint Resolve total_ask total_lift total_ret total_err total_bind total_outcome total_if : prow.
#[export] Hint Extern 2 (total (with_args _ _ _)) => apply total_outcome : prow.
#[export] Hint Extern 2 (total (with_err _ _)) => apply total_outcome : prow.
#[export] Hint Extern 2 (total (attempt _)) => apply total_outcome : prow.

(** Running a call and then the rest. *)
Lemma ask_run {E A B} (f : list E → result A) e (k : A → H E B) tr :
  hbind (ask f e) k tr =
  match f (tr ++ [e]) with Ok a => k a (tr ++ [e]) | Err er => (tr ++ [e], Some (Err er)) end.
Proof. unfold hbind. rewrite bind_app. cbn. by destruct (f (tr ++ [e])). Qed.

Lemma answered_now {E A} {f : list E → result A} q a tr :
  f (tr ++ [q]) = Ok a → answered f q (λ x, x = a) (tr ++ [q]).
Proof. intros Hf. exists tr, [], a. by split_and!. Qed.

Lemma NewAggregate_result errs u : NewAggregate errs = Ok u → errs = [].
Proof. by destruct errs. Qed.

Lemma ask_args_run {E A B} fmt args (f : list E → result A) e (k : A → H E B) tr :
  hbind (with_args fmt args (ask f e)) k tr =
  match f (tr ++ [e]) with
  | Ok a => k a (tr ++ [e])
  | Err er => (tr ++ [e], Some (Err (Errorf fmt (args ++ [AErr er]))))
  end.
Proof. unfold hbind. rewrite bind_app. cbn. by destruct (f (tr ++ [e])). Qed.

(** ** Options (cmd/peribolos/main.go) *)

Record options := mkOptions {
  opt_config : string; opt_confirm : bool; opt_dump : string; opt_dumpFull : bool;
  opt_maximumDelta : spec_float; opt_minAdmins : Z; opt_requireSelf : bool;
  opt_requiredAdmins : list string; opt_fixOrg : bool; opt_fixOrgMembers : bool;
  opt_fixTeamMembers : bool; opt_fixTeams : bool; opt_fixTeamRepos : bool; opt_fixRepos : bool;
  opt_ignoreSecretTeams : bool; opt_allowRepoArchival : bool; opt_allowRepoPublish : bool;
  opt_tokenBurst : Z; opt_tokensPerHour : Z; opt_TokenPath : string }.

(** The checks of [parseArgs] after parsing; those of the GitHub options and of the
    log level are left out. *)
Definition parseArgs (o : options) : result unit :=
  if bool_decide (0 < opt_tokensPerHour o ∧ opt_tokensPerHour o ≤ opt_tokenBurst o)%Z then
    Err (Errorf "--tokens=%d must exceed --token-burst=%d"
           [AInt (opt_tokensPerHour o); AInt (opt_tokenBurst o)])
  else if bool_decide (opt_minAdmins o < 2)%Z then
    Err (Errorf "--min-admins=%d must be at least 2" [AInt (opt_minAdmins o)])
  else if SFltb (float64 1) (opt_maximumDelta o) || SFltb (opt_maximumDelta o) (float64 0) then
    Err (Errorf "--maximum-removal-delta=%f must be a non-negative number less than 1.0"
           [AFloat (opt_maximumDelta o)])
  else if opt_confirm o && bool_decide (opt_dump o ≠ "") then
    Err (Errorf "--confirm cannot be used with --dump=%s" [AStr (opt_dump o)])
  else if bool_decide (opt_config o = "" ∧ opt_dump o = "") then
    Err (errors_New "--config-path or --dump required")
  else if bool_decide (opt_config o ≠ "" ∧ opt_dump o ≠ "") then
    Err (Errorf "--config-path=%s and --dump=%s cannot both be set"
           [AStr (opt_config o); AStr (opt_dump o)])
  else if opt_dumpFull o && bool_decide (opt_dump o = "") then
    Err (errors_New "--dump-full can't be used without --dump")
  else if opt_fixTeamMembers o && negb (opt_fixTeams o) then
    Err (Errorf "--fix-team-members requires --fix-teams" [])
  else if opt_fixTeamRepos o && negb (opt_fixTeams o) then
    Err (Errorf "--fix-team-repos requires --fix-teams" [])
  else Ok tt.
