(* ===== verification/OrgMembers.v ===== *)
(** * Members of organizations and teams (cmd/peribolos/main.go)

    The people of an organization or team, their roles, and the calls that bring
    them in line with the configuration. *)

From S2P Require Import Prelude Api GoText Handler OrgConfig.
From Stdlib Require Import SpecFloat.
#[local] Open Scope go_scope.

(** ** Memberships *)

Record memberships := mkMemberships { members : gset string; super : gset string }.
Definition all (m : memberships) : gset string := members m ∪ super m.
Definition normalize (s : gset string) : gset string := set_map NormLogin s.
Definition normalized (m : memberships) : memberships :=
  mkMemberships (normalize (members m)) (normalize (super m)).

Section configure.
Context `{GoRange} {E : Type} (adder : string → bool → H E unit) (remover : string → H E unit).

Definition configureMembers (have want : memberships) (invitees : gset string) : H E unit :=
  let have := normalized have in
  let want := normalized want in
  let both := super want ∩ members want in
  if bool_decide (both ≠ ∅) then
    herr (Errorf "users in both roles: %s" [AStr (string_join ", " (set_list both))])
  else
    let havePlusInvites := all have ∪ invitees in
    let remove := havePlusInvites ∖ all want in
    let new_members := members want ∖ members have in
    let supers := super want ∖ super have in
    let! errs := each (λ u, adder u false) (set_range new_members) [] in
    let! errs := each (λ u, adder u true) (set_range supers) errs in
    let! errs := each remover (set_range remove) errs in
    match errs with
    | [] => hret tt
    | _ => herr (Errorf "%d errors: %v" [AInt (Z.of_nat (length errs)); AErrs errs])
    end.
End configure.

(** ** The organization *)

Section org.
Context `{GoRange} (gh : OrgGitHub) (opt : options).

Definition orgInvitations (orgName : string) : H OrgCall (gset string) :=
  if negb (opt_fixOrgMembers opt) && negb (opt_fixTeamMembers opt) then hret ∅
  else
    let! invited := ask (on_logins gh) (ListOrgInvitations orgName) in
    hret (set_of (NormLogin <$> filter (λ login, login ≠ "") invited)).

(** The names that a loop over names has seen before. *)
Definition note_name (acc : gset string * gset string) (n : string) : gset string * gset string :=
  let '(used, dups) := acc in
  if bool_decide (n ∈ used) then (used, {[n]} ∪ dups) else ({[n]} ∪ used, dups).
Definition team_names (teams : list (string * org_Team)) : list string :=
  flat_map (λ nt : string * org_Team, nt.1 :: ot_Previously nt.2) teams.
Definition duplicated (names : list string) : gset string := (foldl note_name (∅, ∅) names).2.

Definition team_people (teams : list (string * org_Team)) : gset string :=
  set_of (flat_map (λ nt : string * org_Team, ot_Members nt.2 ++ ot_Maintainers nt.2) teams).

Definition check_self (orgName : string) (wantAdmins : gset string) : H OrgCall unit :=
  if opt_requireSelf opt then
    let! me := with_args "cannot determine user making requests for %s: %v" [AStr (opt_TokenPath opt)]
      (ask (on_bot gh) BotName) in
    if bool_decide (me ∈ wantAdmins) then hret tt
    else herr (Errorf "authenticated user %s is not an admin of %s" [AStr me; AStr orgName])
  else hret tt.

Definition org_adder (orgName : string) (invitees : gset string) (user : string) (is_super : bool)
    : H OrgCall unit :=
  if bool_decide (user ∈ invitees) then hret tt
  else
    let! err := ask (λ tr, Ok (on_membership gh tr)) (UpdateOrgMembership orgName user is_super) in
    match err with
    | Some e => if IsNotFound err then hret tt else herr (Error e)
    | None => hret tt
    end.
Definition org_remover (orgName user : string) : H OrgCall unit :=
  ask (on_change gh) (RemoveOrgMembership orgName user).

Definition configureOrgMembers (orgName : string) (orgConfig : org_Config) (invitees : gset string)
    : H OrgCall unit :=
  let wantAdmins := set_of (oc_Admins orgConfig) in
  let wantMembers := set_of (oc_Members orgConfig) in
  if bool_decide (Z.of_nat (size wantAdmins) < opt_minAdmins opt)%Z then
    herr (Errorf "%s must specify at least %d admins, only found %d"
            [AStr orgName; AInt (opt_minAdmins opt); AInt (Z.of_nat (size wantAdmins))])
  else
  let missing := filter (λ r, r ∉ wantAdmins) (opt_requiredAdmins opt) in
  if bool_decide (missing ≠ []) then
    herr (Errorf "%s must specify %v as admins, missing %v"
            [AStr orgName; AStrs (opt_requiredAdmins opt); AStrs missing])
  else
  let! _ := check_self orgName wantAdmins in
  let! admins := with_args "failed to list %s admins: %v" [AStr orgName]
    (ask (on_logins gh) (ListOrgMembers orgName RoleAdmin)) in
  let! plain := with_args "failed to list %s members: %v" [AStr orgName]
    (ask (on_logins gh) (ListOrgMembers orgName RoleMember)) in
  let have := normalized (mkMemberships (set_of plain) (set_of admins)) in
  let want := normalized (mkMemberships wantMembers wantAdmins) in
  let remove := all have ∖ all want in
  if exceeds (size remove) (size (all have)) (opt_maximumDelta opt) then
    herr (Errorf "cannot delete %d memberships or %.3f of %s (exceeds limit of %.3f)"
            [AInt (Z.of_nat (size remove)); AFloat (SFdiv 53 1024 (float64 (size remove)) (float64 (size (all have))));
             AStr orgName; AFloat (opt_maximumDelta opt)])
  else
  let teams := map_range (oc_Teams orgConfig) in
  let outside := normalize (team_people teams) ∖ all want in
  let duplicateTeamNames := duplicated (team_names teams) in
  if bool_decide (outside ≠ ∅) then
    herr (Errorf "all team members/maintainers must also be org members: %s"
            [AStr (string_join ", " (set_list outside))])
  else if bool_decide (duplicateTeamNames ≠ ∅) then
    herr (Errorf "team names must be unique (including previous names), %d duplicated names: %s"
            [AInt (Z.of_nat (size duplicateTeamNames)); AStr (string_join ", " (set_list duplicateTeamNames))])
  else configureMembers (org_adder orgName invitees) (org_remover orgName) have want invitees.

(** ** Teams *)

Definition teamInvitations (teamID : Z) : H OrgCall (gset string) :=
  let! invited := ask (on_logins gh) (ListTeamInvitations teamID) in
  hret (set_of (NormLogin <$> filter (λ login, login ≠ "") invited)).

Definition team_adder (id : Z) (invitees : gset string) (user : string) (is_super : bool)
    : H OrgCall unit :=
  if bool_decide (user ∈ invitees) then hret tt
  else ask (on_change gh) (UpdateTeamMembership id user is_super).
Definition team_remover (id : Z) (user : string) : H OrgCall unit :=
  ask (on_change gh) (RemoveTeamMembership id user).

Definition configureTeamMembers (gt : github_Team) (team : org_Team) : H OrgCall unit :=
  let id := gt_ID gt in
  let! plain := with_args "failed to list %d(%s) members: %v" [AInt id; AStr (gt_Name gt)]
    (ask (on_logins gh) (ListTeamMembers id RoleMember)) in
  let! maintainers := with_args "failed to list %d(%s) maintainers: %v" [AInt id; AStr (gt_Name gt)]
    (ask (on_logins gh) (ListTeamMembers id RoleMaintainer)) in
  let! invitees := with_args "failed to list %d(%s) invitees: %v" [AInt id; AStr (gt_Name gt)]
    (teamInvitations id) in
  let want := mkMemberships (set_of (ot_Members team)) (set_of (ot_Maintainers team)) in
  let have := mkMemberships (set_of plain) (set_of maintainers) in
  configureMembers (team_adder id invitees) (team_remover id) have want invitees.
End org.

(** ** The calls that are made

    Which calls are made does not depend on the answers. *)

Section exact.
Context {E : Type}.

(** [m] makes the calls [cs], whatever is answered, and does not panic. *)
Definition exact {A} (m : H E A) (cs : list E) : Prop :=
  ∀ tr, (m tr).1 = tr ++ cs ∧ is_Some (m tr).2.

Lemma exact_ask {A} (f : list E → result A) e : exact (ask f e) [e].
Proof. intros tr. by split. Qed.

Lemma exact_ret {A} (r : result A) : exact (lift r) [].
Proof. intros tr. split; [by rewrite app_nil_r|done]. Qed.

(** [done c]: the call [c] was made and succeeded. *)
Context (done : E → list E → Prop) (done_stable : ∀ c, stable (done c)).

(** If [m] ends well, its calls have succeeded. *)
Definition honest {A} (m : H E A) (cs : list E) : Prop :=
  ∀ tr a, (m tr).2 = Some (Ok a) → ∀ c, c ∈ cs → done c (m tr).1.

Lemma exact_each {A} (f : A → H E unit) (cs : A → list E) l errs :
  (∀ a, exact (f a) (cs a)) → (∀ a, honest (f a) (cs a)) →
  ∀ tr, ∃ new, each f l errs tr = (tr ++ flat_map cs l, Some (Ok (errs ++ new))) ∧
    (new = [] → ∀ c, c ∈ flat_map cs l → done c (tr ++ flat_map cs l)).
Proof.
  intros Hf Hh. revert errs. induction l as [|a l IH]; intros errs tr; cbn [each flat_map].
  { exists []. rewrite !app_nil_r. split; [done|]. by intros _ ? ?%not_elem_of_nil. }
  destruct (Hf a tr) as [E1 [r Er]]. specialize (Hh a tr).
  destruct (f a tr) as [tr' out] eqn:Ea. cbn in *; subst.
  erewrite hbind_ok by by eapply attempt_run.
  destruct (IH (errs ++ errs_of r) (tr ++ cs a)) as [new [-> Hd]]. exists (errs_of r ++ new).
  rewrite <- !app_assoc in *. split; [done|]. intros [Hr ->]%app_nil c [Hc|Hc]%elem_of_app; [|by apply Hd].
  destruct r as [[]|e]; [|done]. rewrite app_assoc. apply done_stable. by apply (Hh tt).
Qed.
End exact.

Section changes.
Context `{GoRange} {E : Type} (update : string → bool → E) (remove : string → E).

Definition updates (invitees : gset string) (role : bool) (us : list string) : list E :=
  flat_map (λ u, if bool_decide (u ∈ invitees) then [] else [update u role]) us.

(** What brings [have] in line with [want], both in normal form. *)
Definition membership_changes (have want : memberships) (invitees : gset string) : list E :=
  updates invitees false (set_range (members want ∖ members have)) ++
  updates invitees true (set_range (super want ∖ super have)) ++
  (remove <$> set_range ((all have ∪ invitees) ∖ all want)).

Context (done : E → list E → Prop) (done_stable : ∀ c, stable (done c)).

Lemma configureMembers_ok adder remover have want invitees :
  let adds u b := if bool_decide (u ∈ invitees) then [] else [update u b] in
  (∀ u b, exact (adder u b) (adds u b)) → (∀ u b, honest done (adder u b) (adds u b)) →
  (∀ u, exact (remover u) [remove u]) → (∀ u, honest done (remover u) [remove u]) →
  ∀ tr, let '(tr', out) := configureMembers adder remover have want invitees tr in
  is_Some out ∧
  (super (normalized want) ∩ members (normalized want) ≠ ∅ ∧ tr' = tr ∧ out ≠ Some (Ok tt) ∨
   super (normalized want) ∩ members (normalized want) = ∅ ∧
   let changes := membership_changes (normalized have) (normalized want) invitees in
   tr' = tr ++ changes ∧ (out = Some (Ok tt) → ∀ c, c ∈ changes → done c tr')).
Proof.
  intros adds Ha Hha Hr Hhr tr. unfold configureMembers. case_bool_decide as Hboth; [by split; [|left]|].
  edestruct (exact_each done done_stable (λ u, adder u false) (λ u, adds u false))
    as (e1 & E1 & D1); [done..|]. erewrite hbind_ok by apply E1.
  edestruct (exact_each done done_stable (λ u, adder u true) (λ u, adds u true))
    as (e2 & E2 & D2); [done..|]. erewrite hbind_ok by apply E2.
  edestruct (exact_each done done_stable remover (λ u, [remove u])) as (e3 & E3 & D3); [done..|].
  erewrite hbind_ok by apply E3.
  assert (∀ l, flat_map (λ u, [remove u]) l = remove <$> l) as Hfm
    by (induction l as [|u l IHl]; [done|cbn; by rewrite IHl]).
  assert (∀ l : list error, let '(tr', out) := match l with [] => hret tt
      | _ => herr (Errorf "%d errors: %v" [AInt (Z.of_nat (length l)); AErrs l]) end
      (tr ++ membership_changes (normalized have) (normalized want) invitees) in
    tr' = tr ++ membership_changes (normalized have) (normalized want) invitees ∧
    is_Some out ∧ (out = Some (Ok tt) → l = [])) as Hend by by intros [].
  rewrite Hfm, <- !app_assoc in *. specialize (Hend (e1 ++ e2 ++ e3)).
  unfold membership_changes, updates, adds in *.
  rewrite app_nil_l. match goal with |- let '(_, _) := ?x in _ => destruct x as [tr' out] end.
  destruct Hend as (-> & Hsome & Hnil). split; [done|]. right. split_and!; [done..|].
  intros Hok. specialize (Hnil Hok). apply app_nil in Hnil as [-> Hnil].
  apply app_nil in Hnil as [-> ->].
  intros c [Hc|[Hc|Hc]%elem_of_app]%elem_of_app; [|clear Hok|by apply D3].
  - rewrite app_assoc. apply done_stable. by apply D1.
  - pose proof (done_stable c _ (remove <$> set_range ((all (normalized have) ∪ invitees) ∖ all (normalized want)))
      (D2 eq_refl c Hc)) as Hd. by rewrite <- !app_assoc in Hd.
Qed.
End changes.

(** ** Their effect

    GitHub's side as a map from logins to whether they have the higher role. *)

Definition apply_change (c : OrgCall) (st : gmap string bool) : gmap string bool :=
  match c with
  | UpdateOrgMembership _ u b | UpdateTeamMembership _ u b => <[u := b]> st
  | RemoveOrgMembership _ u | RemoveTeamMembership _ u => delete u st
  | _ => st
  end.
Definition apply_changes (cs : list OrgCall) (st : gmap string bool) : gmap string bool :=
  foldl (λ st c, apply_change c st) st cs.

Definition role (m : memberships) (u : string) : option bool :=
  if bool_decide (u ∈ super m) then Some true
  else if bool_decide (u ∈ members m) then Some false else None.
(** Everybody in [m] has the role of [m], and nobody else is there. *)
Definition describes (st : gmap string bool) (m : memberships) : Prop := ∀ u, st !! u = role m u.

Definition as_map (m : memberships) : gmap string bool :=
  gset_to_gmap true (super m) ∪ gset_to_gmap false (members m).
Lemma describes_as_map m : describes (as_map m) m.
Proof.
  intros u. unfold as_map, role. rewrite lookup_union, !lookup_gset_to_gmap.
  repeat case_bool_decide; repeat case_guard; by naive_solver.
Qed.

Lemma apply_changes_app cs1 cs2 st :
  apply_changes (cs1 ++ cs2) st = apply_changes cs2 (apply_changes cs1 st).
Proof. apply foldl_app. Qed.

Section effect.
Context `{GoRange} (update : string → bool → OrgCall) (remove : string → OrgCall).
Hypothesis apply_update : ∀ u b st, apply_change (update u b) st = <[u := b]> st.
Hypothesis apply_remove : ∀ u st, apply_change (remove u) st = delete u st.

Lemma apply_updates invitees b us st u :
  apply_changes (updates update invitees b us) st !! u =
  if bool_decide (u ∈ us ∧ u ∉ invitees) then Some b else st !! u.
Proof.
  revert st. induction us as [|u' us IH]; intros st; cbn [updates flat_map].
  { rewrite bool_decide_eq_false_2 by (intros [?%not_elem_of_nil _]; done). done. }
  rewrite apply_changes_app. fold (updates update invitees b us). rewrite IH.
  destruct (bool_decide_reflect (u ∈ us ∧ u ∉ invitees)) as [[Hu Hi]|Hn].
  { rewrite bool_decide_eq_true_2; [done|]. split; [by right|done]. }
  destruct (bool_decide_reflect (u' ∈ invitees)) as [Hi|Hi]; cbn [apply_changes foldl].
  - rewrite bool_decide_eq_false_2; [done|]. intros [[->|?]%elem_of_cons ?]; [done|]. by apply Hn.
  - rewrite apply_update. destruct (decide (u = u')) as [->|Hne].
    + rewrite lookup_insert_eq, bool_decide_eq_true_2; [done|]. split; [left|done].
    + rewrite lookup_insert_ne by done. rewrite bool_decide_eq_false_2; [done|].
      intros [[?|?]%elem_of_cons ?]; [done|]. by apply Hn.
Qed.

Lemma apply_removes us st u :
  apply_changes (remove <$> us) st !! u = if bool_decide (u ∈ us) then None else st !! u.
Proof.
  revert st. induction us as [|u' us IH]; intros st.
  { by rewrite bool_decide_eq_false_2 by apply not_elem_of_nil. }
  rewrite fmap_cons. change (apply_changes (?c :: ?cs) st) with (apply_changes cs (apply_change c st)).
  rewrite IH, apply_remove.
  destruct (bool_decide_reflect (u ∈ us)) as [Hu|Hu]; [by rewrite bool_decide_eq_true_2 by by right|].
  destruct (decide (u = u')) as [->|Hne].
  - rewrite lookup_delete_eq, bool_decide_eq_true_2; [done|left].
  - rewrite lookup_delete_ne by done. rewrite bool_decide_eq_false_2; [done|].
    by intros [?|?]%elem_of_cons.
Qed.

(** After the changes everybody has the wanted role, except that invited people who
    are wanted are left alone. *)
Lemma membership_changes_effect have want invitees st u :
  super have ∩ members have = ∅ → super want ∩ members want = ∅ → describes st have →
  apply_changes (membership_changes update remove have want invitees) st !! u =
  if bool_decide (u ∈ invitees ∧ u ∈ all want) then st !! u else role want u.
Proof.
  intros Hh Hw Hst. unfold membership_changes.
  rewrite !apply_changes_app, apply_removes, !apply_updates, Hst. unfold role.
  repeat case_bool_decide; unfold all in *;
    repeat match goal with Hin : context [set_range _] |- _ => rewrite elem_of_set_range in Hin end;
    set_solver.
Qed.
End effect.

(** ** The organization's members *)

Lemma duplicated_go names used dups :
  (foldl note_name (used, dups) names).2 = ∅ ↔
  dups = ∅ ∧ NoDup names ∧ ∀ n, n ∈ names → n ∉ used.
Proof.
  revert used dups. induction names as [|n names IH]; intros used dups; cbn [foldl].
  { split; [|by intros (? & _)]. intros Hd. split_and!; [done|constructor|by intros ? ?%not_elem_of_nil]. }
  unfold note_name at 2. rewrite NoDup_cons. setoid_rewrite elem_of_cons.
  case_bool_decide as Hn; rewrite IH.
  - split; [intros (Hd & _); set_solver|]. intros (_ & _ & Hu). exfalso. apply (Hu n); auto.
  - split.
    + intros (-> & Hnd & Hu). split_and!; [done| |done|].
      * intros Hin. apply (Hu n Hin). set_solver.
      * intros m [->|Hm]; [done|]. specialize (Hu m Hm). set_solver.
    + intros (-> & (Hnn & Hnd) & Hu). split_and!; [done..|].
      intros m Hm [->%elem_of_singleton|Hin]%elem_of_union; [done|]. apply (Hu m); auto.
Qed.

Lemma duplicated_empty names : duplicated names = ∅ ↔ NoDup names.
Proof. unfold duplicated. rewrite duplicated_go. set_solver. Qed.

Section org_proofs.
Context `{GoRange} (gh : OrgGitHub) (opt : options).

(** The call [c] was made and answered with success, or, when somebody is added to an
    organization, that there is no such user. *)
Definition carried_out (c : OrgCall) (tr : list OrgCall) : Prop :=
  ∃ pre post, tr = pre ++ c :: post ∧
    match c with
    | UpdateOrgMembership _ _ _ =>
        on_membership gh (pre ++ [c]) = None ∨ IsNotFound (on_membership gh (pre ++ [c])) = true
    | _ => on_change gh (pre ++ [c]) = Ok tt
    end.

Lemma stable_carried_out c : stable (carried_out c).
Proof.
  intros tr new (pre & post & -> & Hc). exists pre, (post ++ new). by rewrite <- app_assoc.
Qed.

Lemma change_honest c :
  match c with UpdateOrgMembership _ _ _ => False | _ => True end →
  honest carried_out (ask (on_change gh) c) [c].
Proof.
  intros Hc tr [] Hok c' ->%list_elem_of_singleton. cbn in *. exists tr, []. split; [done|].
  injection Hok as Hok. by destruct c.
Qed.

Lemma org_adder_honest orgName invitees u b :
  honest carried_out (org_adder gh orgName invitees u b)
    (if bool_decide (u ∈ invitees) then [] else [UpdateOrgMembership orgName u b]).
Proof.
  intros tr [] Hok c Hc. revert Hok. unfold org_adder. case_bool_decide; [by apply not_elem_of_nil in Hc|].
  apply list_elem_of_singleton in Hc as ->. rewrite ask_run. intros Hok. exists tr, [].
  destruct (on_membership gh (tr ++ _)) as [e|]; [|by auto].
  destruct (IsNotFound (Some e)) eqn:Ei; [|done]. auto.
Qed.

Lemma team_adder_honest id invitees u b :
  honest carried_out (team_adder gh id invitees u b)
    (if bool_decide (u ∈ invitees) then [] else [UpdateTeamMembership id u b]).
Proof.
  unfold team_adder. case_bool_decide; [|by apply change_honest].
  by intros tr a _ c ?%not_elem_of_nil.
Qed.

Lemma org_adder_exact orgName invitees u b :
  exact (org_adder gh orgName invitees u b)
    (if bool_decide (u ∈ invitees) then [] else [UpdateOrgMembership orgName u b]).
Proof.
  unfold org_adder. case_bool_decide; [apply exact_ret|]. intros tr. rewrite ask_run.
  destruct (on_membership gh _) as [e|]; [|done]. by destruct (IsNotFound (Some e)).
Qed.

Lemma team_adder_exact id invitees u b :
  exact (team_adder gh id invitees u b)
    (if bool_decide (u ∈ invitees) then [] else [UpdateTeamMembership id u b]).
Proof. unfold team_adder. case_bool_decide; [apply exact_ret|apply exact_ask]. Qed.

Definition org_have (plain admins : list string) : memberships :=
  normalized (mkMemberships (set_of plain) (set_of admins)).
Definition org_want (cfg : org_Config) : memberships :=
  normalized (mkMemberships (set_of (oc_Members cfg)) (set_of (oc_Admins cfg))).

(** What has to hold before anybody is added or removed. *)
Definition org_checked (cfg : org_Config) (have : memberships) : Prop :=
  (opt_minAdmins opt ≤ Z.of_nat (size (set_of (oc_Admins cfg))))%Z ∧
  (∀ r, r ∈ opt_requiredAdmins opt → r ∈ oc_Admins cfg) ∧
  exceeds (size (all have ∖ all (org_want cfg))) (size (all have)) (opt_maximumDelta opt) = false ∧
  normalize (team_people (map_range (oc_Teams cfg))) ⊆ all (org_want cfg) ∧
  NoDup (team_names (map_range (oc_Teams cfg))) ∧
  super (normalized (org_want cfg)) ∩ members (normalized (org_want cfg)) = ∅.

(** Whether the bot is one of the configured admins, where that is required. *)
Definition self_checked (cfg : org_Config) (self : list OrgCall) (tr : list OrgCall) : Prop :=
  if opt_requireSelf opt
  then self = [BotName] ∧ ∃ me, on_bot gh (tr ++ [BotName]) = Ok me ∧ me ∈ oc_Admins cfg
  else self = [].

Definition no_change (cs : list OrgCall) : Prop := ∀ c, c ∈ cs → is_change c = false.

(** The outcome of [configureOrgMembers] after [tr]: a refusal that changes nothing, or
    exactly the calls that are needed. *)
Definition org_members_outcome (orgName : string) (cfg : org_Config) (invitees : gset string)
    (tr tr' : list OrgCall) (out : option (result unit)) : Prop :=
  (∃ new e, tr' = tr ++ new ∧ no_change new ∧ out = Some (Err e)) ∨
  (∃ self plain admins, let have := org_have plain admins in
     let asked := tr ++ self ++ [ListOrgMembers orgName RoleAdmin] in
     on_logins gh asked = Ok admins ∧
     on_logins gh (asked ++ [ListOrgMembers orgName RoleMember]) = Ok plain ∧
     self_checked cfg self tr ∧ org_checked cfg have ∧ is_Some out ∧
     let changes := membership_changes (UpdateOrgMembership orgName) (RemoveOrgMembership orgName)
       (normalized have) (normalized (org_want cfg)) invitees in
     tr' = (asked ++ [ListOrgMembers orgName RoleMember]) ++ changes ∧
     (out = Some (Ok tt) → ∀ c, c ∈ changes → carried_out c tr')).

Lemma no_change_nil : no_change [].
Proof. by intros ? ?%not_elem_of_nil. Qed.
Lemma no_change_cons c cs : is_change c = false → no_change cs → no_change (c :: cs).
Proof. intros ? ? ? [->|?]%elem_of_cons; auto. Qed.
Lemma no_change_app cs1 cs2 : no_change cs1 → no_change cs2 → no_change (cs1 ++ cs2).
Proof. intros ? ? ? [?|?]%elem_of_app; auto. Qed.

(** A change among reads and changes comes after all reads. *)
Lemma change_after_reads reads changes before e after :
  no_change reads → reads ++ changes = before ++ e :: after → is_change e = true →
  ∃ b, before = reads ++ b ∧ e ∈ changes.
Proof.
  intros Hn Heq Ec. apply app_eq_inv in Heq as [(b & -> & Hb)|(b & -> & Hb)].
  - destruct b as [|e' b]; cbn in Hb.
    + exists []. rewrite !app_nil_r. split; [done|]. rewrite <- Hb. left.
    + exfalso. injection Hb as <- _. rewrite Hn in Ec; [done|]. apply elem_of_app. right. left.
  - exists b. split; [done|]. rewrite Hb. apply elem_of_app. right. left.
Qed.

Lemma self_checked_no_change cfg self tr : self_checked cfg self tr → no_change self.
Proof.
  unfold self_checked. destruct (opt_requireSelf opt); [intros [-> _]|intros ->];
    auto using no_change_nil, no_change_cons.
Qed.

Lemma check_self_run orgName cfg {B} (k : unit → H OrgCall B) tr :
  (∃ new e, no_change new ∧
     hbind (check_self gh opt orgName (set_of (oc_Admins cfg))) k tr = (tr ++ new, Some (Err e))) ∨
  (∃ self, self_checked cfg self tr ∧
     hbind (check_self gh opt orgName (set_of (oc_Admins cfg))) k tr = k tt (tr ++ self)).
Proof.
  unfold check_self, self_checked. destruct (opt_requireSelf opt).
  - assert (no_change [BotName]) as Hn by (intros c ->%list_elem_of_singleton; done).
    destruct (on_bot gh (tr ++ [BotName])) as [me|e] eqn:Eb.
    + destruct (bool_decide_reflect (me ∈ set_of (oc_Admins cfg))) as [Hin|Hin].
      * right. exists [BotName]. split; [split; [done|]; exists me; split; [done|by apply elem_of_set_of]|].
        erewrite hbind_ok; [done|]. rewrite ask_args_run, Eb, bool_decide_eq_true_2; done.
      * left. exists [BotName]. eexists. split; [done|]. erewrite hbind_err; [done|].
        rewrite ask_args_run, Eb, bool_decide_eq_false_2; done.
    + left. exists [BotName]. eexists. split; [done|]. erewrite hbind_err; [done|].
      by rewrite ask_args_run, Eb.
  - right. exists []. split; [done|]. rewrite app_nil_r. by erewrite hbind_ok.
Qed.

Lemma configureOrgMembers_ok orgName cfg invitees tr :
  let '(tr', out) := configureOrgMembers gh opt orgName cfg invitees tr in
  org_members_outcome orgName cfg invitees tr tr' out.
Proof.
  unfold configureOrgMembers, org_members_outcome.
  assert (∀ e : error, let '(tr', out) := herr e tr in
    ∃ new e, tr' = tr ++ new ∧ no_change new ∧ out = Some (Err e : result unit)) as Hrefuse.
  { intros e. exists [], e. split_and!; [by rewrite app_nil_r|by intros ? ?%not_elem_of_nil|done]. }
  case_bool_decide as Hmin; [by left; apply Hrefuse|].
  case_bool_decide as Hmiss; [by left; apply Hrefuse|].
  match goal with |- context [hbind (check_self _ _ _ _) ?k tr] =>
    destruct (check_self_run orgName cfg k tr) as [(new & e & Hn & ->)|(self & Hself & ->)] end.
  { left. by exists new, e. }
  assert (∀ cs, no_change cs → ∀ e : error, let '(tr', out) := herr e ((tr ++ self) ++ cs) in
    ∃ new e, tr' = tr ++ new ∧ no_change new ∧ out = Some (Err e : result unit)) as Hrefuse2.
  { intros cs Hcs e. exists (self ++ cs), e. split_and!; [by rewrite app_assoc| |done].
    apply no_change_app; [by eapply self_checked_no_change|done]. }
  rewrite ask_args_run. destruct (on_logins gh _) as [admins|e] eqn:Ead;
    [|left; apply (Hrefuse2 [_]), no_change_cons; [done|by intros ? ?%not_elem_of_nil]].
  rewrite ask_args_run. destruct (on_logins gh (_ ++ [ListOrgMembers orgName RoleMember])) as [plain|e] eqn:Epl;
    [|left; rewrite <- !app_assoc, app_assoc; apply (Hrefuse2 [_; _]); repeat apply no_change_cons; try done;
      by intros ? ?%not_elem_of_nil].
  assert (∀ e : error, let '(tr', out) := herr e (((tr ++ self) ++ [ListOrgMembers orgName RoleAdmin])
      ++ [ListOrgMembers orgName RoleMember]) in
    ∃ new e, tr' = tr ++ new ∧ no_change new ∧ out = Some (Err e : result unit)) as Hrefuse3.
  { intros e. rewrite <- (app_assoc (tr ++ self)). apply (Hrefuse2 [_; _]). repeat apply no_change_cons; try done.
    by intros ? ?%not_elem_of_nil. }
  fold (org_have plain admins) (org_want cfg).
  destruct (exceeds _ _ _) eqn:Ex; [by left; apply Hrefuse3|].
  case_bool_decide as Hout; [by left; apply Hrefuse3|].
  case_bool_decide as Hdup; [by left; apply Hrefuse3|].
  pose proof (configureMembers_ok (UpdateOrgMembership orgName) (RemoveOrgMembership orgName)
    carried_out stable_carried_out
    (org_adder gh orgName invitees) (org_remover gh orgName) (org_have plain admins) (org_want cfg) invitees
    (org_adder_exact orgName invitees) (org_adder_honest orgName invitees)
    (λ u, exact_ask _ _) (λ u, change_honest (RemoveOrgMembership orgName u) I)
    (((tr ++ self) ++ [ListOrgMembers orgName RoleAdmin]) ++ [ListOrgMembers orgName RoleMember])) as Hc.
  destruct (configureMembers _ _ _ _ _ _) as [tr' out].
  destruct Hc as [Hsome [(Hb & -> & Hne)|(Hb & -> & Hdone)]].
  - left. destruct Hsome as [[[]|e] ->]; [done|]. apply Hrefuse3.
  - right. exists self, plain, admins. rewrite <- (app_assoc tr self) in *. split_and!; try done.
    unfold org_checked. split_and!; [lia| |done| |by apply duplicated_empty|done];
      [|by apply empty_difference_subseteq_L].
    intros r Hr. destruct (decide (r ∈ oc_Admins cfg)) as [|Hni]; [done|exfalso].
    assert (r ∈ filter (λ r, r ∉ set_of (oc_Admins cfg)) (opt_requiredAdmins opt)) as Hin.
    { apply list_elem_of_filter. by rewrite elem_of_set_of. }
    rewrite Hmiss in Hin. by apply not_elem_of_nil in Hin.
Qed.

Lemma apply_no_change cs st : no_change cs → apply_changes cs st = st.
Proof.
  revert st. induction cs as [|c cs IH]; intros st Hn; [done|].
  change (apply_changes (c :: cs) st) with (apply_changes cs (apply_change c st)).
  rewrite IH by (intros c' ?; apply Hn; by right).
  specialize (Hn c (list_elem_of_here _ _)). by destruct c.
Qed.

(** The members of an organization are left alone, with an error, unless enough
    admins are configured, all that are required and the bot among them, not too many
    members go, everybody in a team is in the organization, team names are unique and
    nobody has two roles.  Otherwise exactly the needed calls are made; once they have
    taken effect, everybody who was not only invited has the configured role and nobody
    else is left.  Without an error all of them were carried out. *)
Theorem configureOrgMembers_spec orgName cfg invitees :
  let '(calls, out) := configureOrgMembers gh opt orgName cfg invitees [] in
  (no_change calls ∧ ∃ e, out = Some (Err e)) ∨
  (is_Some out ∧ ∃ plain admins, let have := org_have plain admins in
     answered (on_logins gh) (ListOrgMembers orgName RoleAdmin) (λ l, l = admins) calls ∧
     answered (on_logins gh) (ListOrgMembers orgName RoleMember) (λ l, l = plain) calls ∧
     (opt_requireSelf opt = true → ∃ me, on_bot gh [BotName] = Ok me ∧ me ∈ oc_Admins cfg) ∧
     org_checked cfg have ∧
     (∀ st, super (normalized have) ∩ members (normalized have) = ∅ → describes st (normalized have) →
        let want := normalized (org_want cfg) in
        ∀ u, apply_changes calls st !! u =
             if bool_decide (u ∈ invitees ∧ u ∈ all want) then st !! u else role want u) ∧
     (out = Some (Ok tt) → ∀ c, c ∈ calls → is_change c = true → carried_out c calls)).
Proof.
  pose proof (configureOrgMembers_ok orgName cfg invitees []) as Hok.
  destruct (configureOrgMembers _ _ _ _ _ _) as [calls out].
  destruct Hok as [(new & e & -> & Hn & ->)|(self & plain & admins & Ha & Hp & Hself & Hck & Hsome & -> & Hdone)].
  { left. split; [done|by exists e]. }
  right. split; [done|]. exists plain, admins. cbn [app] in *.
  assert (no_change ((self ++ [ListOrgMembers orgName RoleAdmin]) ++ [ListOrgMembers orgName RoleMember])) as Hn.
  { apply no_change_app; [apply no_change_app; [by eapply self_checked_no_change|]|];
      apply no_change_cons; auto using no_change_nil. }
  refine (conj _ (conj _ (conj _ (conj Hck (conj _ _))))).
  - exists self. eexists _, admins. split_and!; [by rewrite <- !app_assoc|done..].
  - exists (self ++ [ListOrgMembers orgName RoleAdmin]). eexists _, plain.
    split_and!; [by rewrite <- !app_assoc|done..].
  - intros Hreq. unfold self_checked in Hself. rewrite Hreq in Hself. by destruct Hself as [_ ?].
  - intros st Hd Hst u. rewrite apply_changes_app, (apply_no_change _ st Hn).
    apply (membership_changes_effect (UpdateOrgMembership orgName) (RemoveOrgMembership orgName)); try done.
    by destruct Hck as (_ & _ & _ & _ & _ & ?).
  - intros Hout c [Hc|Hc]%elem_of_app Hch; [by rewrite Hn in Hch|]. by apply Hdone.
Qed.

(** ** A team's members *)

Lemma configureTeamMembers_ok gt team tr :
  let '(tr', out) := configureTeamMembers gh gt team tr in
  is_Some out ∧ ∃ reads, no_change reads ∧
  (tr' = tr ++ reads ∧ out ≠ Some (Ok tt) ∨
   ∃ plain maintainers invitees,
     let have := normalized (mkMemberships (set_of plain) (set_of maintainers)) in
     let want := normalized (mkMemberships (set_of (ot_Members team)) (set_of (ot_Maintainers team))) in
     answered (on_logins gh) (ListTeamMembers (gt_ID gt) RoleMember) (λ l, l = plain) (tr ++ reads) ∧
     answered (on_logins gh) (ListTeamMembers (gt_ID gt) RoleMaintainer) (λ l, l = maintainers) (tr ++ reads) ∧
     answered (on_logins gh) (ListTeamInvitations (gt_ID gt))
       (λ l, invitees = set_of (NormLogin <$> filter (λ login, login ≠ "") l)) (tr ++ reads) ∧
     super want ∩ members want = ∅ ∧
     let changes := membership_changes (UpdateTeamMembership (gt_ID gt)) (RemoveTeamMembership (gt_ID gt))
       have want invitees in
     tr' = (tr ++ reads) ++ changes ∧ (out = Some (Ok tt) → ∀ c, c ∈ changes → carried_out c tr')).
Proof.
  unfold configureTeamMembers. set (q1 := ListTeamMembers (gt_ID gt) RoleMember).
  set (q2 := ListTeamMembers (gt_ID gt) RoleMaintainer). set (q3 := ListTeamInvitations (gt_ID gt)).
  assert (no_change [q1] ∧ no_change [q1; q2] ∧ no_change [q1; q2; q3]) as (Hn1 & Hn2 & Hn3)
    by (split_and!; repeat apply no_change_cons; auto using no_change_nil).
  rewrite ask_args_run. destruct (on_logins gh (tr ++ [q1])) as [plain|e] eqn:E1.
  2: { split; [done|]. exists [q1]. split; [done|]. by left. }
  rewrite ask_args_run, <- app_assoc. cbn [app].
  destruct (on_logins gh (tr ++ [q1; q2])) as [maintainers|e] eqn:E2.
  2: { split; [done|]. exists [q1; q2]. split; [done|]. by left. }
  unfold teamInvitations, hbind at 1. rewrite bind_app. unfold with_args, outcome. rewrite ask_run, <- app_assoc.
  cbn [app]. fold q3. destruct (on_logins gh (tr ++ [q1; q2; q3])) as [invited|e] eqn:E3.
  2: { cbn [fmap option_fmap option_map wrap_args fst snd]; split; [done|]. exists [q1; q2; q3]. split; [done|]. by left. }
  cbn [fmap option_fmap option_map wrap_args fst snd hret]. set (invitees := set_of _).
  match goal with |- context [configureMembers ?a ?r ?h ?w _ ?t] =>
    pose proof (configureMembers_ok (UpdateTeamMembership (gt_ID gt)) (RemoveTeamMembership (gt_ID gt))
      carried_out stable_carried_out a r h w invitees
      (team_adder_exact (gt_ID gt) invitees) (team_adder_honest (gt_ID gt) invitees)
      (λ u, exact_ask _ _) (λ u, change_honest (RemoveTeamMembership (gt_ID gt) u) I) t) as Hc;
    destruct (configureMembers a r h w invitees t) as [tr' out] end.
  destruct Hc as [Hsome Hc]. split; [done|]. exists [q1; q2; q3]. split; [done|].
  destruct Hc as [(_ & -> & ?)|(Hb & -> & Hdone)]; [by left|right].
  exists plain, maintainers, invitees. split_and!; try done.
  - eexists tr, [q2; q3], plain. by split_and!.
  - eexists (tr ++ [q1]), [q3], maintainers. rewrite <- !app_assoc. by split_and!.
  - eexists (tr ++ [q1; q2]), [], invited. rewrite <- !app_assoc. by split_and!.
Qed.
End org_proofs.

(** ** A witness and examples *)

#[local] Existing Instance listing_order.

Definition quarter : spec_float := SFdiv 53 1024 (float64 1) (float64 4).
Definition w_options : options :=
  mkOptions "config" true "" false quarter 2 true ["alice"] true true true true true true
    false false false 100 300 "token".
Definition no_metadata : org_Metadata := mkOrgMetadata None None None None None None None None None None.
Definition w_people (admins plain : list string) : org_Config := mkOrgConfig no_metadata ∅ plain admins ∅.

(** The admins bot and Alice and four others; all changes succeed. *)
Definition w_org_gh : OrgGitHub :=
  mkOrgGitHub (λ _, Err (errors_New "")) (λ _, Ok "bot")
    (λ calls, match last calls with
              | Some (ListOrgMembers _ r) =>
                  Ok (if bool_decide (r = RoleAdmin) then ["bot"; "Alice"] else ["c"; "d"; "e"; "f"])
              | _ => Ok []
              end)
    (λ _, Ok []) (λ _, Err (errors_New "")) (λ _, Ok []) (λ _, Err (errors_New "")) (λ _, None) (λ _, Ok tt).

(** c becomes an admin, f leaves, g is new, h only waits for the invitation. *)
Definition w_run (admins plain : list string) : list OrgCall * option (result unit) :=
  configureOrgMembers w_org_gh w_options "o" (w_people admins plain) {["h"]} [].
Example members_run :
  w_run ["bot"; "alice"; "c"] ["d"; "e"; "g"; "h"] =
  ([BotName; ListOrgMembers "o" "admin"; ListOrgMembers "o" "member"; UpdateOrgMembership "o" "g" false;
    UpdateOrgMembership "o" "c" true; RemoveOrgMembership "o" "f"], Some (Ok tt)).
Proof. vm_compute. reflexivity. Qed.

(** Two of six may not leave at a limit of a quarter. *)
Example members_delta :
  filter (λ c, is_change c = true) (w_run ["bot"; "alice"] ["c"; "d"]).1 = [].
Proof. vm_compute. reflexivity. Qed.

(** An admin who is written in two cases counts twice towards the least number. *)
Example admins_counted_as_written :
  (configureOrgMembers w_org_gh w_options "o" (w_people ["bot"; "Bot"; "alice"] ["c"; "d"; "e"; "f"]) ∅ []).2
  = Some (Ok tt) ∧ size (set_of ["bot"; "Bot"; "alice"]) = 3 ∧ size (normalize (set_of ["bot"; "Bot"; "alice"])) = 2.
Proof. vm_compute. done. Qed.

Lemma configureOrgMembers_spec_witness :
  apply_changes (w_run ["bot"; "alice"; "c"] ["d"; "e"; "g"; "h"]).1
    (as_map (normalized (org_have ["c"; "d"; "e"; "f"] ["bot"; "Alice"]))) !! "c" = Some true.
Proof.
  pose proof (configureOrgMembers_spec w_org_gh w_options "o" (w_people ["bot"; "alice"; "c"] ["d"; "e"; "g"; "h"])
    {["h"]}) as Hs. fold (w_run ["bot"; "alice"; "c"] ["d"; "e"; "g"; "h"]) in Hs. rewrite members_run in *.
  destruct Hs as [[_ [e He]]|(_ & plain & admins & Ha & Hp & _ & _ & He & _)]; [discriminate He|].
  destruct Ha as (pre & post & a & _ & Ha & ->). destruct Hp as (pre' & post' & a' & _ & Hp & ->).
  cbn [on_logins w_org_gh] in Ha, Hp. rewrite last_snoc in Ha, Hp.
  injection Ha as <-. injection Hp as <-. cbn [fst].
  rewrite He; [vm_compute; reflexivity|decide_by_computing|apply describes_as_map].
Defined.
