(* ===== verification/OrgRepos.v ===== *)
(** * Repositories of an organization (cmd/peribolos/main.go)

    Creating and updating the configured repositories, without archiving or
    publishing what may not be. *)

From S2P Require Import Prelude Api GoText Handler OrgConfig.
#[local] Open Scope go_scope.

(** ** Requests *)

Definition newRepoCreateRequest (name : string) (definition : org_Repo) : RepoCreateRequest :=
  mkRepoCreateRequest
    (mkRepoRequest (Some name) (or_Description definition) (or_HomePage definition)
       (or_Private definition) (or_HasIssues definition) (or_HasProjects definition)
       (or_HasWiki definition) (or_AllowSquashMerge definition) (or_AllowMergeCommit definition)
       (or_AllowRebaseMerge definition))
    (or_OnCreate definition ≫= rco_AutoInit) (or_OnCreate definition ≫= rco_GitignoreTemplate) (or_OnCreate definition ≫= rco_LicenseTemplate).

(** [setString] and [setBool] *)
Definition set_field {A} `{EqDecision A} (current : A) (want : option A) : option A :=
  w ← want; if bool_decide (w ≠ current) then Some w else None.

Definition newRepoUpdateRequest (current : FullRepo) (name : string) (repo : org_Repo) : RepoUpdateRequest :=
  let cur := fr_Repo current in
  mkRepoUpdateRequest
    (mkRepoRequest (set_field (hr_Name cur) (Some name))
       (set_field (hr_Description cur) (or_Description repo))
       (set_field (hr_Homepage cur) (or_HomePage repo))
       (set_field (hr_Private cur) (or_Private repo))
       (set_field (hr_HasIssues cur) (or_HasIssues repo))
       (set_field (hr_HasProjects cur) (or_HasProjects repo))
       (set_field (hr_HasWiki cur) (or_HasWiki repo))
       (set_field (fr_AllowSquashMerge current) (or_AllowSquashMerge repo))
       (set_field (fr_AllowMergeCommit current) (or_AllowMergeCommit repo))
       (set_field (fr_AllowRebaseMerge current) (or_AllowRebaseMerge repo)))
    (set_field (hr_DefaultBranch cur) (or_DefaultBranch repo))
    (set_field (hr_Archived cur) (or_Archived repo)).

Definition without_archived (d : RepoUpdateRequest) : RepoUpdateRequest :=
  mkRepoUpdateRequest (ru_RepoRequest d) (ru_DefaultBranch d) None.
Definition without_private (d : RepoUpdateRequest) : RepoUpdateRequest :=
  let r := ru_RepoRequest d in
  mkRepoUpdateRequest
    (mkRepoRequest (rr_Name r) (rr_Description r) (rr_Homepage r) None (rr_HasIssues r)
       (rr_HasProjects r) (rr_HasWiki r) (rr_AllowSquashMerge r) (rr_AllowMergeCommit r)
       (rr_AllowRebaseMerge r))
    (ru_DefaultBranch d) (ru_Archived d).

Definition sanitizeRepoDelta (opt : options) (delta : RepoUpdateRequest) : RepoUpdateRequest * list error :=
  let '(delta, errs) :=
    if bool_decide (ru_Archived delta = Some false) then
      (without_archived delta,
       [Errorf "asked to unarchive an archived repo, unsupported by GH API" []])
    else (delta, []) in
  let '(delta, errs) :=
    if bool_decide (ru_Archived delta = Some true) && negb (opt_allowRepoArchival opt) then
      (without_archived delta,
       errs ++ [Errorf "asked to archive a repo but this is not allowed by default (see --allow-repo-archival)" []])
    else (delta, errs) in
  if bool_decide (rr_Private (ru_RepoRequest delta) = Some false) && negb (opt_allowRepoPublish opt) then
    (without_private delta,
     errs ++ [Errorf "asked to publish a private repo but this is not allowed by default (see --allow-repo-publish)" []])
  else (delta, errs).

(** ** Names *)

(** The names of one repository against those seen, and then noted. *)
Definition note_repo (acc : gmap string string * list string) (wr : string * org_Repo)
    : gmap string string * list string :=
  let '(seen, dups) := acc in
  let toCheck := wr.1 :: or_Previously wr.2 in
  (foldl (λ seen name, <[to_lower name := name]> seen) seen toCheck,
   dups ++ omap (λ name, (λ seenName, seenName +:+ "/" +:+ name) <$> seen !! to_lower name) toCheck).

Definition fr_Name (r : FullRepo) : string := hr_Name (fr_Repo r).

Definition repo_exists_step (repos : gmap string FullRepo) (ret : option FullRepo) (name : string)
    : result (option FullRepo) :=
  match repos !! to_lower name with
  | None => Ok ret
  | Some repo =>
      match ret with
      | None => Ok (Some repo)
      | Some r =>
          if bool_decide (fr_Name r ≠ fr_Name repo) then
            Err (Errorf "different repos already exist for current and previous names: %s and %s"
                   [AStr (fr_Name r); AStr (fr_Name repo)])
          else Ok ret
      end
  end.
Definition repoExists (repos : gmap string FullRepo) (name : string) (previousNames : list string)
    : result (option FullRepo) :=
  rfold (repo_exists_step repos) None (name :: previousNames).

Section repos.
Context `{GoRange} (gh : OrgGitHub) (opt : options).

Definition validateRepos (repos : gmap string org_Repo) : result unit :=
  match (foldl note_repo (∅, []) (map_range repos)).2 with
  | [] => Ok tt
  | dups => Err (Errorf "found duplicate repo names (GitHub repo names are case-insensitive): %s"
                   [AStr (string_join ", " dups)])
  end.

Fixpoint get_repos (orgName : string) (repoList : list hub_Repo) (byName : gmap string FullRepo)
    : H OrgCall (gmap string FullRepo) :=
  match repoList with
  | [] => hret byName
  | repo :: repoList =>
      let! full := with_err "failed to get details about repo: %v"
        (ask (on_repo gh) (GetRepo orgName (hr_Name repo))) in
      get_repos orgName repoList (<[to_lower (fr_Name full) := full]> byName)
  end.

(** What there is to update, after creating what is missing, and the errors so far. *)
Definition existing_or_created (orgName wantName : string) (wantRepo : org_Repo) (existing : option FullRepo)
    : H OrgCall (option FullRepo * list error) :=
  match existing with
  | Some r => hret (Some r, [])
  | None =>
      let! created := attempt (ask (on_repo gh)
        (CreateRepo orgName (newRepoCreateRequest wantName wantRepo))) in
      hret match created with Ok r => (Some r, []) | Err e => (None, [e]) end
  end.

Definition update_repo (orgName wantName : string) (wantRepo : org_Repo) (repo : FullRepo)
    : H OrgCall (list error) :=
  let '(delta, deltaErrors) := sanitizeRepoDelta opt (newRepoUpdateRequest repo wantName wantRepo) in
  if RepoUpdateRequest_Defined delta then
    let! r := attempt (ask (on_change gh) (UpdateRepo orgName (fr_Name repo) delta)) in
    hret (deltaErrors ++ errs_of r)
  else hret deltaErrors.

(** The errors of one configured repository. *)
Definition configure_repo (orgName : string) (byName : gmap string FullRepo) (wr : string * org_Repo)
    : H OrgCall (list error) :=
  let '(wantName, wantRepo) := wr in
  match repoExists byName wantName (or_Previously wantRepo) with
  | Err e => hret [e]
  | Ok existing =>
      let! (repo, errs) := existing_or_created orgName wantName wantRepo existing in
      match repo with
      | None => hret errs
      | Some repo => let! errs' := update_repo orgName wantName wantRepo repo in hret (errs ++ errs')
      end
  end.

Fixpoint configure_all_repos (orgName : string) (byName : gmap string FullRepo)
    (repos : list (string * org_Repo)) (allErrors : list error) : H OrgCall unit :=
  match repos with
  | [] => lift (NewAggregate allErrors)
  | wr :: repos =>
      let! errs := configure_repo orgName byName wr in
      configure_all_repos orgName byName repos (allErrors ++ errs)
  end.

Definition configureRepos (orgName : string) (orgConfig : org_Config) : H OrgCall unit :=
  let! _ := lift (validateRepos (oc_Repos orgConfig)) in
  let! repoList := with_err "failed to get repos: %v" (ask (on_repos gh) (GetRepos orgName)) in
  let! byName := get_repos orgName repoList ∅ in
  configure_all_repos orgName byName (map_range (oc_Repos orgConfig)) [].
End repos.

(** ** What an update does *)

(** A repository after an update. *)
Definition apply_update (cur : FullRepo) (d : RepoUpdateRequest) : FullRepo :=
  let r := fr_Repo cur in
  let u := ru_RepoRequest d in
  mkFullRepo
    (mkHubRepo (default (hr_Name r) (rr_Name u)) (default (hr_DefaultBranch r) (ru_DefaultBranch d))
       (default (hr_Archived r) (ru_Archived d)) (default (hr_Private r) (rr_Private u))
       (default (hr_Description r) (rr_Description u)) (default (hr_Homepage r) (rr_Homepage u))
       (default (hr_HasIssues r) (rr_HasIssues u)) (default (hr_HasProjects r) (rr_HasProjects u))
       (default (hr_HasWiki r) (rr_HasWiki u)) (hr_Permissions r))
    (default (fr_AllowSquashMerge cur) (rr_AllowSquashMerge u))
    (default (fr_AllowMergeCommit cur) (rr_AllowMergeCommit u))
    (default (fr_AllowRebaseMerge cur) (rr_AllowRebaseMerge u)).

(** The configured value, if there is one. *)
Definition given {A} (want : option A) (cur : A) : Prop := ∀ w, want = Some w → cur = w.

Definition as_wanted (name : string) (repo : org_Repo) (cur : FullRepo) : Prop :=
  let r := fr_Repo cur in
  hr_Name r = name ∧ given (or_Description repo) (hr_Description r) ∧
  given (or_HomePage repo) (hr_Homepage r) ∧ given (or_Private repo) (hr_Private r) ∧
  given (or_HasIssues repo) (hr_HasIssues r) ∧ given (or_HasProjects repo) (hr_HasProjects r) ∧
  given (or_HasWiki repo) (hr_HasWiki r) ∧ given (or_AllowSquashMerge repo) (fr_AllowSquashMerge cur) ∧
  given (or_AllowMergeCommit repo) (fr_AllowMergeCommit cur) ∧
  given (or_AllowRebaseMerge repo) (fr_AllowRebaseMerge cur) ∧
  given (or_DefaultBranch repo) (hr_DefaultBranch r) ∧ given (or_Archived repo) (hr_Archived r).

Lemma given_set_field {A} `{EqDecision A} (cur : A) (want : option A) :
  given want (default cur (set_field cur want)).
Proof. intros w ->. cbn. by destruct (bool_decide_reflect (w ≠ cur)) as [|Hn%dec_stable]. Qed.

Lemma set_field_None {A} `{EqDecision A} (cur : A) (want : option A) :
  set (set_field cur want) = false ↔ given want cur.
Proof.
  unfold given, set. destruct want as [w|]; cbn; [|by split; [intros _ ? [=]|]].
  destruct (bool_decide_reflect (w ≠ cur)) as [Hne|Heq].
  - rewrite bool_decide_eq_true_2 by done. split; [done|]. intros Hw. by destruct Hne; rewrite (Hw w).
  - apply dec_stable in Heq as ->. split; [by intros _ ? [= <-]|done].
Qed.

Lemma newRepoUpdateRequest_applies cur name repo :
  as_wanted name repo (apply_update cur (newRepoUpdateRequest cur name repo)).
Proof.
  unfold as_wanted, newRepoUpdateRequest, apply_update. cbn [fr_Repo].
  split_and!; try apply given_set_field. done.
Qed.

Lemma newRepoUpdateRequest_Defined cur name repo :
  RepoUpdateRequest_Defined (newRepoUpdateRequest cur name repo) = false ↔ as_wanted name repo cur.
Proof.
  unfold RepoUpdateRequest_Defined, RepoRequest_Defined, newRepoUpdateRequest, as_wanted.
  cbn [ru_RepoRequest ru_DefaultBranch ru_Archived rr_Name rr_Description rr_Homepage rr_Private
    rr_HasIssues rr_HasProjects rr_HasWiki rr_AllowSquashMerge rr_AllowMergeCommit rr_AllowRebaseMerge].
  rewrite !orb_false_iff, !set_field_None.
  assert (given (Some name) (hr_Name (fr_Repo cur)) ↔ hr_Name (fr_Repo cur) = name) as ->.
  { split; [intros Hg; by apply Hg|]. by intros -> ? [= <-]. }
  tauto.
Qed.

(** What is not allowed is taken out, each time with an error. *)
Lemma sanitizeRepoDelta_ok opt d :
  let '(d', errs) := sanitizeRepoDelta opt d in
  ru_Archived d' ≠ Some false ∧ (ru_Archived d' = Some true → opt_allowRepoArchival opt = true) ∧
  (rr_Private (ru_RepoRequest d') = Some false → opt_allowRepoPublish opt = true) ∧
  (errs = [] → d' = d).
Proof.
  unfold sanitizeRepoDelta. destruct d as [r b a]. destruct (opt_allowRepoArchival opt), (opt_allowRepoPublish opt);
    repeat (case_bool_decide; simplify_eq/=); split_and!; congruence.
Qed.

Lemma sanitize_undefined opt d :
  RepoUpdateRequest_Defined d = false → sanitizeRepoDelta opt d = (d, []).
Proof.
  unfold RepoUpdateRequest_Defined, RepoRequest_Defined, set. rewrite !orb_false_iff, !bool_decide_eq_false.
  intros [[Hr _] Ha]. unfold sanitizeRepoDelta.
  assert (ru_Archived d = None) as Ha' by by apply eq_None_not_Some.
  assert (rr_Private (ru_RepoRequest d) = None) as Hp by (apply eq_None_not_Some; tauto).
  rewrite bool_decide_eq_false_2 by by rewrite Ha'. rewrite bool_decide_eq_false_2 by by rewrite Ha'.
  cbn [andb]. by rewrite bool_decide_eq_false_2 by by rewrite Hp.
Qed.

(** ** What is created and updated *)

Section repos_proofs.
Context `{GoRange} (gh : OrgGitHub) (opt : options) (orgName : string) (repos : gmap string org_Repo).

(** The names a configured repository goes or went by. *)
Definition names_of (name : string) (repo : org_Repo) : list string :=
  to_lower <$> name :: or_Previously repo.

Definition fetched (r : FullRepo) (tr : list OrgCall) : Prop :=
  ∃ q, answered (on_repo gh) (GetRepo orgName q) (λ r', r' = r) tr.

(** No listed repository has one of the names. *)
Definition missing_repo (name : string) (repo : org_Repo) (tr : list OrgCall) : Prop :=
  ∃ listed, answered (on_repos gh) (GetRepos orgName) (λ l, l = listed) tr ∧
    ∀ hr, hr ∈ listed → ∃ full, answered (on_repo gh) (GetRepo orgName (hr_Name hr)) (λ r, r = full) tr ∧
      to_lower (fr_Name full) ∉ names_of name repo.

(** [cur] is the repository under one of the names, or has just been created. *)
Definition there (name : string) (repo : org_Repo) (cur : FullRepo) (tr : list OrgCall) : Prop :=
  (to_lower (fr_Name cur) ∈ names_of name repo ∧ fetched cur tr) ∨
  answered (on_repo gh) (CreateRepo orgName (newRepoCreateRequest name repo)) (λ r, r = cur) tr.

Definition delta_of (cur : FullRepo) (name : string) (repo : org_Repo) : RepoUpdateRequest :=
  newRepoUpdateRequest cur name repo.

Definition repo_allowed (tr : list OrgCall) (c : OrgCall) : Prop :=
  match c with
  | CreateRepo o rq => o = orgName ∧ ∃ name repo, repos !! name = Some repo ∧
      rq = newRepoCreateRequest name repo ∧ missing_repo name repo tr
  | UpdateRepo o n d => o = orgName ∧ ∃ name repo cur, repos !! name = Some repo ∧
      there name repo cur tr ∧ n = fr_Name cur ∧
      d = (sanitizeRepoDelta opt (delta_of cur name repo)).1 ∧ ¬ as_wanted name repo cur ∧
      ru_Archived d ≠ Some false ∧ (ru_Archived d = Some true → opt_allowRepoArchival opt = true) ∧
      (rr_Private (ru_RepoRequest d) = Some false → opt_allowRepoPublish opt = true)
  | c => is_change c = false
  end.

(** The repository is as configured, or was asked to become so. *)
Definition repo_configured (name : string) (repo : org_Repo) (tr : list OrgCall) : Prop :=
  ∃ cur, there name repo cur tr ∧
    (as_wanted name repo cur ∨
     as_wanted name repo (apply_update cur (delta_of cur name repo)) ∧
     answered (on_change gh) (UpdateRepo orgName (fr_Name cur) (delta_of cur name repo)) (λ _, True) tr).

Lemma stable_fetched r : stable (fetched r).
Proof. unfold fetched. auto 10 with prow. Qed.
Lemma stable_there name repo cur : stable (there name repo cur).
Proof. unfold there. pose proof stable_fetched. auto 10 with prow. Qed.
Lemma stable_repo_configured name repo : stable (repo_configured name repo).
Proof. unfold repo_configured. pose proof stable_there. auto 20 with prow. Qed.

(** What the map of repositories by name holds. *)
Definition indexed (listed : list hub_Repo) (byName : gmap string FullRepo) (tr : list OrgCall) : Prop :=
  (∀ hr, hr ∈ listed → ∃ full, answered (on_repo gh) (GetRepo orgName (hr_Name hr)) (λ r, r = full) tr ∧
     is_Some (byName !! to_lower (fr_Name full))) ∧
  (∀ k r, byName !! k = Some r → k = to_lower (fr_Name r) ∧ fetched r tr).

Lemma stable_indexed listed byName : stable (indexed listed byName).
Proof.
  unfold indexed. pose proof stable_fetched. auto 20 with prow.
Qed.

Lemma get_repos_ok todo seen byName :
  triple repo_allowed (indexed seen byName) (get_repos gh orgName todo byName)
    (λ byName tr, indexed (seen ++ todo) byName tr).
Proof.
  revert seen byName. induction todo as [|hr todo IH]; intros seen byName; cbn [get_repos].
  { apply triple_ret. intros tr. by rewrite app_nil_r. }
  eapply triple_bind; [apply triple_with_err, (triple_ask _ _ _ _ (λ full tr,
    indexed seen byName tr ∧ answered (on_repo gh) (GetRepo orgName (hr_Name hr)) (λ r, r = full) tr)); [done|]|].
  { intros tr full Hi Ha. split; [by apply stable_indexed|]. exists tr, [], full. by split_and!. }
  intros full. rewrite cons_middle, app_assoc. eapply triple_weaken; [apply IH|].
  intros tr [[Hl Hr] Ha]. split.
  - intros hr' [Hin| ->%list_elem_of_singleton]%elem_of_app.
    + destruct (Hl hr' Hin) as (full' & Ha' & [r Hs]). exists full'. split; [done|].
      destruct (decide (to_lower (fr_Name full') = to_lower (fr_Name full))) as [->|?];
        [by rewrite lookup_insert_eq|by rewrite lookup_insert_ne, Hs].
    + exists full. by rewrite lookup_insert_eq.
  - intros k r. destruct (decide (k = to_lower (fr_Name full))) as [->|Hne].
    + rewrite lookup_insert_eq. intros [= <-]. split; [done|by exists (hr_Name hr)].
    + rewrite lookup_insert_ne by done. apply Hr.
Qed.

Lemma repoExists_ok byName name previous r :
  repoExists byName name previous = Ok r →
  match r with
  | Some cur => ∃ n, n ∈ name :: previous ∧ byName !! to_lower n = Some cur
  | None => ∀ n, n ∈ name :: previous → byName !! to_lower n = None
  end.
Proof.
  unfold repoExists. apply (rfold_ind _ (λ r seen, match r with
    | Some cur => ∃ n, n ∈ seen ∧ byName !! to_lower n = Some cur
    | None => ∀ n, n ∈ seen → byName !! to_lower n = None
    end)); [by intros ? ?%not_elem_of_nil|].
  intros b done a b' Hb. unfold repo_exists_step. destruct (byName !! to_lower a) as [repo|] eqn:Ea.
  - destruct b as [cur|].
    + case_bool_decide; [done|]. intros [= <-]. destruct Hb as (n & Hn & ?). exists n.
      split; [apply elem_of_app; by left|done].
    + intros [= <-]. exists a. split; [apply elem_of_app; right; left|done].
  - intros [= <-]. destruct b as [cur|].
    + destruct Hb as (n & Hn & ?). exists n. split; [apply elem_of_app; by left|done].
    + intros n [Hn| ->%list_elem_of_singleton]%elem_of_app; auto.
Qed.

Lemma update_repo_ok name repo cur :
  repos !! name = Some repo →
  triple repo_allowed (there name repo cur) (update_repo gh opt orgName name repo cur)
    (λ errs tr, errs = [] → repo_configured name repo tr).
Proof.
  intros Hrepo. unfold update_repo.
  pose proof (sanitizeRepoDelta_ok opt (delta_of cur name repo)) as Hs. unfold delta_of in *.
  destruct (sanitizeRepoDelta opt (newRepoUpdateRequest cur name repo)) as [d errs] eqn:Es.
  destruct Hs as (Ha1 & Ha2 & Ha3 & Hsame).
  pose proof (newRepoUpdateRequest_Defined cur name repo) as Hdef.
  destruct (RepoUpdateRequest_Defined d) eqn:Ed.
  - assert (¬ as_wanted name repo cur) as Hnot.
    { intros Hw. apply Hdef in Hw. rewrite (sanitize_undefined opt _ Hw) in Es. congruence. }
    eapply triple_bind.
    { apply (triple_attempt_result _ (there name repo cur)); [apply stable_there|].
      apply (triple_ask _ _ _ _ (λ _, answered (on_change gh) (UpdateRepo orgName (fr_Name cur) d) (λ _, True)));
        [|intros tr [] Ht Hok; by eapply answered_weaken; [exact (answered_now _ _ _ Hok)|]].
      intros tr Ht. split; [done|]. exists name, repo, cur. split_and!; try done. unfold delta_of. by rewrite Es. }
    intros r. apply triple_ret. intros tr [Ht Hr] Hnil. apply app_nil in Hnil as [He Hr'].
    destruct r as [[]|]; [|done]. exists cur. split; [done|]. right. unfold delta_of. rewrite <- (Hsame He).
    split; [|done]. rewrite (Hsame He). apply newRepoUpdateRequest_applies.
  - apply triple_ret. intros tr Ht He. exists cur. split; [done|]. left. apply Hdef. by rewrite <- (Hsame He).
Qed.

Definition known (listed : list hub_Repo) (byName : gmap string FullRepo) (tr : list OrgCall) : Prop :=
  indexed listed byName tr ∧ answered (on_repos gh) (GetRepos orgName) (λ l, l = listed) tr.

Lemma known_stable listed byName : stable (known listed byName).
Proof. unfold known. pose proof (stable_indexed listed byName). auto with prow. Qed.

Lemma known_missing listed byName name repo tr :
  known listed byName tr → (∀ n, n ∈ name :: or_Previously repo → byName !! to_lower n = None) →
  missing_repo name repo tr.
Proof.
  intros [[Hl _] Ha] Hnone. exists listed. split; [done|]. intros hr Hin.
  destruct (Hl hr Hin) as (full & Hf & Hs). exists full. split; [done|].
  intros (n & Hn & Hn')%list_elem_of_fmap. rewrite Hn, Hnone in Hs by done. by destruct Hs.
Qed.

Lemma configure_repo_ok listed byName name repo :
  repos !! name = Some repo →
  triple repo_allowed (known listed byName) (configure_repo gh opt orgName byName (name, repo))
    (λ errs tr, known listed byName tr ∧ (errs = [] → repo_configured name repo tr)).
Proof.
  intros Hrepo. unfold configure_repo.
  destruct (repoExists byName name (or_Previously repo)) as [existing|e] eqn:Ex; [|by apply triple_ret].
  apply repoExists_ok in Ex. pose proof (known_stable listed byName) as Hst.
  eapply (triple_bind _ _ _ _ (λ re tr, known listed byName tr ∧
    match re.1 with Some cur => there name repo cur tr | None => re.2 ≠ [] end)).
  { unfold existing_or_created. destruct existing as [cur|].
    - apply triple_ret. intros tr Hk. split; [done|]. cbn. destruct Ex as (n & Hn & Hcur).
      destruct Hk as [[_ Hr] _]. destruct (Hr _ _ Hcur) as [Hk Hf]. left. split; [|done].
      unfold names_of. rewrite <- Hk. by apply list_elem_of_fmap_2.
    - eapply triple_bind.
      + apply (triple_attempt_result _ (known listed byName)); [done|].
        apply (triple_ask _ _ _ _ (λ cur, answered (on_repo gh)
          (CreateRepo orgName (newRepoCreateRequest name repo)) (λ r, r = cur)));
          [|intros tr cur _ Hok; exact (answered_now _ _ _ Hok)].
        intros tr Hk. split; [done|]. exists name, repo. split_and!; [done..|by eapply known_missing].
      + intros [cur|e]; apply triple_ret; intros tr [Hk Ha]; (split; [done|]); cbn; [by right|done]. }
  intros [[cur|] errs]; cbn [fst snd]; [|by apply triple_ret; intros tr [? ?]].
  eapply triple_bind.
  { eapply triple_weaken; [apply (triple_frame _ (known listed byName)); [done|by apply (update_repo_ok name repo cur)]|done]. }
  intros errs'. apply triple_ret. intros tr [Hk Hc]. split; [done|]. intros [_ ->]%app_nil. by apply Hc.
Qed.

Lemma configure_all_repos_ok listed byName todo errs :
  (∀ name repo, (name, repo) ∈ todo → repos !! name = Some repo) →
  triple repo_allowed (known listed byName) (configure_all_repos gh opt orgName byName todo errs)
    (λ _ tr, errs = [] ∧ ∀ name repo, (name, repo) ∈ todo → repo_configured name repo tr).
Proof.
  revert errs. induction todo as [|[name repo] todo IH]; intros errs Htodo; cbn [configure_all_repos].
  { apply triple_lift. intros [] tr He _. split; [by apply NewAggregate_Ok|]. by intros ? ? ?%not_elem_of_nil. }
  eapply triple_bind; [apply (configure_repo_ok listed); apply Htodo; left|]. intros errs'. cbn beta.
  eapply triple_conseq.
  - apply (triple_frame _ (λ tr, errs' = [] → repo_configured name repo tr));
      [pose proof (stable_repo_configured name repo); auto with prow|].
    apply IH. intros n r ?. apply Htodo. by right.
  - intros tr [Hk Hc]. by split.
  - intros _ tr [Hc [[-> ->]%app_nil Hall]]. split; [done|].
    intros n r [[= -> ->]|Hin]%elem_of_cons; [by apply Hc|by apply Hall].
Qed.

Lemma configureRepos_ok cfg :
  oc_Repos cfg = repos →
  triple repo_allowed (λ _, True) (configureRepos gh opt orgName cfg)
    (λ _ tr, ∀ name repo, repos !! name = Some repo → repo_configured name repo tr).
Proof.
  intros Hcfg. unfold configureRepos. rewrite Hcfg.
  eapply (triple_bind _ _ _ _ (λ _ _, True)); [by apply triple_lift|]. intros u.
  eapply triple_bind; [apply triple_with_err, (triple_ask _ _ _ _ (λ listed tr,
    answered (on_repos gh) (GetRepos orgName) (λ l, l = listed) tr)); [done|]|].
  { intros tr listed _ Ha. exists tr, [], listed. by split_and!. }
  intros listed. eapply triple_bind.
  { eapply triple_weaken; [apply (triple_frame _ (answered (on_repos gh) (GetRepos orgName) (λ l, l = listed)));
      [auto with prow|apply (get_repos_ok listed [] ∅)]|].
    intros tr Ha. split; [done|]. split; [by intros ? ?%not_elem_of_nil|]. intros k r.
    by rewrite lookup_empty. }
  intros byName. cbn beta.
  eapply triple_conseq; [apply (configure_all_repos_ok listed byName (map_range repos) [])| |].
  - intros name repo. apply elem_of_map_range.
  - intros tr [Ha Hi]. by split.
  - intros _ tr [_ Hall] name repo Hr. by apply Hall, elem_of_map_range.
Qed.
End repos_proofs.

Section repos_total.
Context `{GoRange} (gh : OrgGitHub) (opt : options) (orgName : string).

Lemma get_repos_total repoList byName : total (get_repos gh orgName repoList byName).
Proof.
  revert byName. induction repoList as [|r l IH]; intros byName; cbn [get_repos]; auto with prow.
Qed.
Lemma configure_repo_total byName wr : total (configure_repo gh opt orgName byName wr).
Proof.
  destruct wr as [name repo]. unfold configure_repo.
  destruct (repoExists byName name (or_Previously repo)) as [existing|e]; [|apply total_ret].
  apply total_bind; [unfold existing_or_created; destruct existing; auto with prow|].
  intros [[cur|] errs]; [|apply total_ret]. apply total_bind; [|intros; apply total_ret].
  unfold update_repo. destruct (sanitizeRepoDelta opt _) as [d es]. auto with prow.
Qed.
Lemma configureRepos_total cfg : total (configureRepos gh opt orgName cfg).
Proof.
  unfold configureRepos. apply total_bind; [apply total_lift|]. intros u.
  apply total_bind; [apply total_outcome, total_ask|]. intros l.
  apply total_bind; [apply get_repos_total|]. intros byName. generalize (map_range (oc_Repos cfg)), (@nil error).
  intros todo. induction todo as [|wr todo IH]; intros errs; cbn [configure_all_repos]; [apply total_lift|].
  apply total_bind; [apply configure_repo_total|]. intros errs'. apply IH.
Qed.
End repos_total.

(** Repositories are created only if configured and if none listed has one of their
    names; they are updated only where they differ from the configuration, with what
    differs, but never taken out of the archive, and archived or published only if that
    is allowed.  Without an error every configured repository is as configured, or will
    be by its update. *)
Theorem configureRepos_spec `{GoRange} gh opt orgName cfg :
  let '(calls, out) := configureRepos gh opt orgName cfg [] in
  (∀ pre c post, calls = pre ++ c :: post → repo_allowed gh opt orgName (oc_Repos cfg) pre c) ∧
  (out = Some (Ok tt) → ∀ name repo, oc_Repos cfg !! name = Some repo →
     repo_configured gh orgName name repo calls).
Proof.
  destruct (configureRepos_ok gh opt orgName (oc_Repos cfg) cfg eq_refl [] I) as (new & E & Hs & Hq).
  destruct (configureRepos _ _ _ _ _) as [calls out]. cbn in *. subst calls. split.
  - intros pre c post Hn. by apply (Hs _ _ _ Hn).
  - intros ->. by apply (Hq tt).
Qed.

(** ** A witness and examples *)

#[local] Existing Instance listing_order.

Definition w_full (name : string) (private archived : bool) : FullRepo :=
  mkFullRepo (mkHubRepo name "master" archived private "" "" true true true (mkRepoPermissions true true true))
    true true true.
Definition w_repo (private archived : option bool) (previously : list string) : org_Repo :=
  mkOrgRepo None None private None None None None None None None archived previously None.
Definition w_repo_config (repos : gmap string org_Repo) : org_Config :=
  mkOrgConfig (mkOrgMetadata None None None None None None None None None None) ∅ [] [] repos.

(** There is the private repository Old; what is created is public. *)
Definition w_repos_gh : OrgGitHub :=
  mkOrgGitHub (λ _, Err (errors_New "")) (λ _, Ok "bot") (λ _, Ok []) (λ _, Ok [fr_Repo (w_full "Old" true false)])
    (λ calls, match last calls with
              | Some (CreateRepo _ rq) => Ok (w_full (default "" (rr_Name (rc_RepoRequest rq))) false false)
              | _ => Ok (w_full "Old" true false)
              end)
    (λ _, Ok []) (λ _, Err (errors_New "")) (λ _, None) (λ _, Ok tt).
Definition w_opts (archive publish : bool) : options :=
  mkOptions "config" true "" false (float64 1) 2 true [] true true true true true true
    false archive publish 100 300 "token".
Definition w_renamed : gmap string org_Repo := {["new" := w_repo (Some false) (Some true) ["old"]]}.
Definition changes_of (calls : list OrgCall) : list OrgCall := filter (λ c, is_change c = true) calls.
Definition only_name (name : string) : RepoRequest :=
  mkRepoRequest (Some name) None None None None None None None None None.

(** A renamed repository that may neither be archived nor published is only renamed,
    with two errors. *)
Example renamed_repo :
  changes_of (configureRepos w_repos_gh (w_opts false false) "o" (w_repo_config w_renamed) []).1 =
  [UpdateRepo "o" "Old" (mkRepoUpdateRequest (only_name "new") None None)].
Proof. vm_compute. reflexivity. Qed.

(** A missing repository is created, and updated where it then differs. *)
Example created_repo :
  changes_of (configureRepos w_repos_gh (w_opts true true) "o"
    (w_repo_config {["r" := w_repo None (Some true) []]}) []).1 =
  [CreateRepo "o" (mkRepoCreateRequest (only_name "r") None None None);
   UpdateRepo "o" "r" (mkRepoUpdateRequest (mkRepoRequest None None None None None None None None None None) None (Some true))].
Proof. vm_compute. reflexivity. Qed.

Lemma configureRepos_spec_witness :
  let '(calls, out) := configureRepos w_repos_gh (w_opts true true) "o" (w_repo_config w_renamed) [] in
  out = Some (Ok tt) ∧ repo_configured w_repos_gh "o" "new" (w_repo (Some false) (Some true) ["old"]) calls.
Proof.
  pose proof (configureRepos_spec w_repos_gh (w_opts true true) "o" (w_repo_config w_renamed)) as Hs.
  assert ((configureRepos w_repos_gh (w_opts true true) "o" (w_repo_config w_renamed) []).2 = Some (Ok tt)) as Ho
    by (vm_compute; reflexivity).
  destruct (configureRepos _ _ _ _ _) as [calls out]. cbn [snd] in Ho. subst out.
  split; [done|]. apply (proj2 Hs eq_refl). reflexivity.
Defined.
