(* ===== verification/OrgTeams.v ===== *)
(** * Teams of an organization (cmd/peribolos/main.go)

    Matching configured teams with GitHub's, creating and deleting teams, and their
    settings, members, repositories and nesting. *)

From S2P Require Import Prelude Api GoText Handler OrgConfig OrgMembers.
From Stdlib Require Import SpecFloat.
#[local] Open Scope go_scope.

(** ** Nested teams

    A configuration nests teams to any depth; [forest_height] bounds the recursion
    over it. *)

Fixpoint height (t : org_Team) : nat :=
  S (map_fold (λ _ c h, Nat.max (height c) h) 0 (ot_Children t)).
Definition forest_height (m : gmap string org_Team) : nat :=
  map_fold (λ _ c h, Nat.max (height c) h) 0 m.

(** ** Which team is which *)

Fixpoint findTeam (teams : gmap string github_Team) (names : list string) : option github_Team :=
  match names with
  | [] => None
  | n :: names => match teams !! n with Some t => Some t | None => findTeam teams names end
  end.

(** Names are checked at the top level only. *)
Definition validateTeamNames `{GoRange} (orgConfig : org_Config) : result unit :=
  let dups := duplicated (team_names (map_range (oc_Teams orgConfig))) in
  if bool_decide (dups ≠ ∅) then
    Err (Errorf "%d duplicated names: %s"
           [AInt (Z.of_nat (size dups)); AStr (string_join ", " (set_list dups))])
  else Ok tt.

(** The team with the lowest ID of each name; the code also notes the others. *)
Definition note_team (names : gmap string github_Team) (t : github_Team) : gmap string github_Team :=
  match names !! gt_Name t with
  | None => <[gt_Name t := t]> names
  | Some val => if bool_decide (gt_ID t < gt_ID val)%Z then <[gt_Name t := t]> names else names
  end.

Definition lowest_ids (teams : list github_Team) : gmap string github_Team := foldl note_team ∅ teams.

Record matching := mkMatching {
  mt_matches : gmap string github_Team; mt_missing : gmap string org_Team; mt_used : gset Z }.

Definition match_team (names : gmap string github_Team) (name : string) (orgTeam : org_Team) (st : matching)
    : matching :=
  match findTeam names (name :: ot_Previously orgTeam) with
  | None => mkMatching (mt_matches st) (<[name := orgTeam]> (mt_missing st)) (mt_used st)
  | Some t => mkMatching (<[name := t]> (mt_matches st)) (mt_missing st) ({[gt_ID t]} ∪ mt_used st)
  end.

Section teams.
Context `{GoRange} (gh : OrgGitHub) (opt : options).

Fixpoint match_teams (fuel : nat) (names : gmap string github_Team) (teams : gmap string org_Team)
    (st : matching) : matching :=
  match fuel with
  | 0 => st
  | S fuel => foldl (λ st nt, match_team names nt.1 nt.2 (match_teams fuel names (ot_Children nt.2) st))
                st (map_range teams)
  end.

Definition listed_teams (teamList : list github_Team) : list github_Team :=
  filter (λ t, ¬ (opt_ignoreSecretTeams opt = true ∧ gt_Privacy t = Secret)) teamList.

Definition team_ids (teamList : list github_Team) : gmap Z github_Team :=
  foldl (λ ids t, <[gt_ID t := t]> ids) ∅ (listed_teams teamList).
Definition team_names_of (teamList : list github_Team) : gmap string github_Team :=
  lowest_ids (map_range (team_ids teamList)).*2.
Definition match_config (orgConfig : org_Config) (teamList : list github_Team) : matching :=
  match_teams (forest_height (oc_Teams orgConfig)) (team_names_of teamList) (oc_Teams orgConfig)
    (mkMatching ∅ ∅ ∅).
Definition unused_teams (orgConfig : org_Config) (teamList : list github_Team) : gset Z :=
  dom (team_ids teamList) ∖ mt_used (match_config orgConfig teamList).

Definition new_team (name : string) (orgTeam : org_Team) : github_Team :=
  mkGitHubTeam 0 name "" (default "" (ot_Description orgTeam)) (default "" (ot_Privacy orgTeam)) None None "".

(** What is created so far, the IDs in use, and the names that failed. *)
Fixpoint create_teams (orgName : string) (missing : list (string * org_Team))
    (matches : gmap string github_Team) (used : gset Z) (failures : list string)
    : H OrgCall (gmap string github_Team * gset Z * list string) :=
  match missing with
  | [] => hret (matches, used, failures)
  | (name, orgTeam) :: missing =>
      let! r := attempt (ask (on_team gh) (CreateTeam orgName (new_team name orgTeam))) in
      match r with
      | Err _ => create_teams orgName missing matches used (failures ++ [name])
      | Ok t => create_teams orgName missing (<[name := t]> matches) ({[gt_ID t]} ∪ used) failures
      end
  end.

Fixpoint delete_teams (ids : gmap Z github_Team) (unused : list Z) (failures : list string)
    : H OrgCall (list string) :=
  match unused with
  | [] => hret failures
  | id :: unused =>
      let! r := attempt (ask (on_change gh) (DeleteTeam id)) in
      delete_teams ids unused (failures ++
        match r with
        | Ok _ => []
        | Err _ => [itoa id +:+ "(" +:+ from_option gt_Name "" (ids !! id) +:+ ")"]
        end)
  end.

Definition team_failures {A} (format : string) (failures : list string) (a : A) : H OrgCall A :=
  match failures with
  | [] => hret a
  | _ => herr (Errorf format [AInt (Z.of_nat (length failures)); AStr (string_join ", " failures)])
  end.

Definition configureTeams (orgName : string) (orgConfig : org_Config)
    : H OrgCall (gmap string github_Team) :=
  let! _ := lift (validateTeamNames orgConfig) in
  let! teamList := with_err "failed to list teams: %v" (ask (on_teams gh) (ListTeams orgName)) in
  let ids := team_ids teamList in
  let st := match_config orgConfig teamList in
  let unused := unused_teams orgConfig teamList in
  if exceeds (size unused) (size (dom ids)) (opt_maximumDelta opt) then
    herr (Errorf "cannot delete %d teams or %.3f of %s teams (exceeds limit of %.3f)"
            [AInt (Z.of_nat (size unused));
             AFloat (SFdiv 53 1024 (float64 (size unused)) (float64 (size (dom ids))));
             AStr orgName; AFloat (opt_maximumDelta opt)])
  else
    let! (matches, used, failures) :=
      create_teams orgName (map_range (mt_missing st)) (mt_matches st) (mt_used st) [] in
    let! _ := team_failures "failed to create %d teams: %s" failures tt in
    let! failures := delete_teams ids (set_range (unused ∖ used)) [] in
    team_failures "failed to delete %d teams: %s" failures matches.

(** ** A team's settings *)

Definition PrivacyClosed : string := "closed".

(** The name and description to send; an empty description is not sent. *)
Definition edit_name (teamName : string) (team : org_Team) (gt : github_Team) : bool * github_Team :=
  let new_description := bool_decide (is_Some (ot_Description team) ∧ ot_Description team ≠ Some (gt_Description gt)) in
  (bool_decide (gt_Name gt ≠ teamName) || new_description,
   mkGitHubTeam (gt_ID gt) teamName (gt_Slug gt)
     (if new_description then default "" (ot_Description team) else "") (gt_Privacy gt) (gt_Parent gt)
     (gt_ParentTeamID gt) (gt_Permission gt)).

Definition set_parent (gt : github_Team) (Parent : option github_Team) (ParentTeamID : option Z) : github_Team :=
  mkGitHubTeam (gt_ID gt) (gt_Name gt) (gt_Slug gt) (gt_Description gt) (gt_Privacy gt) Parent ParentTeamID
    (gt_Permission gt).
Definition edit_parent (parent : option Z) (pg : bool * github_Team) : bool * github_Team :=
  let '(patch, gt) := pg in
  match gt_Parent gt, parent with
  | None, None => (patch, gt)
  | None, Some _ => (true, set_parent gt None parent)
  | Some p, None => (true, set_parent gt None parent)
  | Some p, Some id => if bool_decide (gt_ID p ≠ id) then (true, set_parent gt None parent) else (patch, gt)
  end.

Definition set_privacy (gt : github_Team) (Privacy : string) : github_Team :=
  mkGitHubTeam (gt_ID gt) (gt_Name gt) (gt_Slug gt) (gt_Description gt) Privacy (gt_Parent gt)
    (gt_ParentTeamID gt) (gt_Permission gt).
(** Nested teams and those that nest others must be closed. *)
Definition edit_privacy (team : org_Team) (parent : option Z) (pg : bool * github_Team) : bool * github_Team :=
  let '(patch, gt) := pg in
  match ot_Privacy team with
  | Some p => if bool_decide (gt_Privacy gt ≠ p) then (true, set_privacy gt p) else (patch, gt)
  | None => if bool_decide ((is_Some parent ∨ ot_Children team ≠ ∅) ∧ gt_Privacy gt ≠ PrivacyClosed)
            then (true, set_privacy gt PrivacyClosed) else (patch, gt)
  end.

(** Whether to patch, and with what. *)
Definition team_patch (teamName : string) (team : org_Team) (gt : github_Team) (parent : option Z)
    : bool * github_Team :=
  edit_privacy team parent (edit_parent parent (edit_name teamName team gt)).

Definition configureTeam (orgName teamName : string) (team : org_Team) (gt : github_Team) (parent : option Z)
    : H OrgCall unit :=
  let '(patch, gt) := team_patch teamName team gt parent in
  if patch then
    let! _ := with_args "failed to edit %s team %d(%s): %v" [AStr orgName; AInt (gt_ID gt); AStr (gt_Name gt)]
      (ask (on_team gh) (EditTeam gt)) in
    hret tt
  else hret tt.

Definition team_members_or_skip (name : string) (gt : github_Team) (team : org_Team) : H OrgCall unit :=
  if opt_fixTeamMembers opt
  then with_args "failed to update %s members: %v" [AStr name] (configureTeamMembers gh gt team)
  else hret tt.

Fixpoint configureTeamAndMembers (fuel : nat) (githubTeams : gmap string github_Team) (orgName : string)
    (parent : option Z) (nt : string * org_Team) : H OrgCall unit :=
  match fuel with
  | 0 => panic
  | S fuel =>
      let '(name, team) := nt in
      match githubTeams !! name with
      | None => herr (Errorf "%s not found in id list" [AStr name])
      | Some gt =>
          let! _ := with_args "failed to update %s metadata: %v" [AStr name]
            (configureTeam orgName name team gt parent) in
          let! _ := team_members_or_skip name gt team in
          for_each (λ child, with_args "failed to update %s child teams: %v" [AStr name]
              (configureTeamAndMembers fuel githubTeams orgName (Some (gt_ID gt)) child))
            (map_range (ot_Children team))
      end
  end.

(** ** A team's repositories *)

Definition repo_levels (repos : list hub_Repo) : gmap string string :=
  foldl (λ have repo, <[hr_Name repo := LevelFromPermissions (hr_Permissions repo)]> have) ∅ repos.

Definition repo_actions (want have : gmap string string) : gmap string string :=
  let actions := foldl (λ actions wp,
    if bool_decide (have !! wp.1 = Some wp.2) then actions else <[wp.1 := wp.2]> actions) ∅ (map_range want) in
  foldl (λ actions repo, if bool_decide (want !! repo = None) then <[repo := None_]> actions else actions)
    actions (map_range have).*1.

Definition repo_call (id : Z) (orgName : string) (rp : string * string) : OrgCall :=
  if bool_decide (rp.2 = None_) then RemoveTeamRepo id orgName rp.1
  else UpdateTeamRepo id orgName rp.1 rp.2.

Definition update_team_repo (id : Z) (name orgName : string) (rp : string * string) : H OrgCall unit :=
  with_args "failed to update team %d(%s) permissions on repo %s to %s: %v"
    [AInt id; AStr name; AStr rp.1; AStr rp.2] (ask (on_change gh) (repo_call id orgName rp)).

Fixpoint configureTeamRepos (fuel : nat) (githubTeams : gmap string github_Team) (orgName : string)
    (nt : string * org_Team) : H OrgCall unit :=
  match fuel with
  | 0 => panic
  | S fuel =>
      let '(name, team) := nt in
      match githubTeams !! name with
      | None => herr (Errorf "%s not found in id list" [AStr name])
      | Some gt =>
          let! repos := with_args "failed to list team %d(%s) repos: %v" [AInt (gt_ID gt); AStr name]
            (ask (on_repos gh) (ListTeamRepos (gt_ID gt))) in
          let actions := repo_actions (ot_Repos team) (repo_levels repos) in
          let! updateErrors := each (update_team_repo (gt_ID gt) name orgName) (map_range actions) [] in
          let! updateErrors := each (λ child,
              with_args "failed to configure %s child team %s repos: %v" [AStr orgName; AStr child.1]
                (configureTeamRepos fuel githubTeams orgName child))
            (map_range (ot_Children team)) updateErrors in
          lift (NewAggregate updateErrors)
      end
  end.
End teams.

(** ** Configured teams at any depth *)

Inductive in_forest : gmap string org_Team → string → org_Team → Prop :=
| forest_here m n t : m !! n = Some t → in_forest m n t
| forest_below m n t n' t' :
    m !! n = Some t → in_forest (ot_Children t) n' t' → in_forest m n' t'.

Lemma forest_height_child m n t : m !! n = Some t → S (forest_height (ot_Children t)) ≤ forest_height m.
Proof.
  unfold forest_height. revert n t.
  apply (map_fold_weak_ind (λ h m, ∀ n t, m !! n = Some t →
    S (map_fold (λ _ c h, Nat.max (height c) h) 0 (ot_Children t)) ≤ h)); [done|].
  intros k c m' h Hk IH n t. destruct (decide (k = n)) as [->|Hne].
  - rewrite lookup_insert_eq. intros [= ->]. destruct t. cbn. lia.
  - rewrite lookup_insert_ne by done. intros Ht. specialize (IH n t Ht). lia.
Qed.

(** ** What matching yields *)

Section matching_proofs.
Context `{GoRange} (names : gmap string github_Team).

Definition found_team (n : string) (team : org_Team) : option github_Team :=
  findTeam names (n :: ot_Previously team).

(** From [st] to [st'] by way of the configured teams that satisfy [T]. *)
Record matched (T : string → org_Team → Prop) (st st' : matching) : Prop := {
  matched_sound n t : mt_matches st' !! n = Some t →
    mt_matches st !! n = Some t ∨ ∃ team, T n team ∧ found_team n team = Some t;
  matched_missing n team : mt_missing st' !! n = Some team →
    mt_missing st !! n = Some team ∨ T n team ∧ found_team n team = None;
  matched_used id : id ∈ mt_used st' →
    id ∈ mt_used st ∨ ∃ n team t, T n team ∧ found_team n team = Some t ∧ gt_ID t = id;
  matched_mono : dom (mt_matches st) ⊆ dom (mt_matches st') ∧ dom (mt_missing st) ⊆ dom (mt_missing st') ∧
    mt_used st ⊆ mt_used st';
  matched_complete n team : T n team →
    match found_team n team with
    | Some t => n ∈ dom (mt_matches st') ∧ gt_ID t ∈ mt_used st'
    | None => n ∈ dom (mt_missing st')
    end }.

Lemma matched_refl (T : string → org_Team → Prop) st : (∀ n team, ¬ T n team) → matched T st st.
Proof. intros HT. split; [by left..|done|]. intros n team ?. by destruct (HT n team). Qed.

Lemma matched_trans (T1 T2 T : string → org_Team → Prop) st1 st2 st3 :
  (∀ n team, T n team ↔ T1 n team ∨ T2 n team) →
  matched T1 st1 st2 → matched T2 st2 st3 → matched T st1 st3.
Proof.
  intros HT [s1 m1 u1 (a1 & b1 & c1) k1] [s2 m2 u2 (a2 & b2 & c2) k2]. split.
  - intros n t Ht. destruct (s2 n t Ht) as [Ht'|(team & ? & ?)]; [|right; exists team; by rewrite HT; auto].
    destruct (s1 n t Ht') as [?|(team & ? & ?)]; [by left|right; exists team; rewrite HT; auto].
  - intros n team Ht. rewrite HT. destruct (m2 n team Ht) as [Ht'|[? ?]]; [|by auto].
    destruct (m1 n team Ht') as [?|[? ?]]; auto.
  - intros id Hid. destruct (u2 id Hid) as [Hid'|(n & team & t & ? & ? & ?)].
    + destruct (u1 id Hid') as [?|(n & team & t & ? & ? & ?)]; [by left|right].
      exists n, team, t. rewrite HT. auto.
    + right. exists n, team, t. rewrite HT. auto.
  - split_and!; [by transitivity (dom (mt_matches st2))|by transitivity (dom (mt_missing st2))
      |by transitivity (mt_used st2)].
  - intros n team [Ht|Ht]%HT; [|by apply k2]. specialize (k1 n team Ht).
    destruct (found_team n team); [split|]; set_solver.
Qed.

Lemma match_team_ok n team st :
  matched (λ n' team', n' = n ∧ team' = team) st (match_team names n team st).
Proof.
  unfold match_team. fold (found_team n team). destruct (found_team n team) as [t|] eqn:Ef;
    split; cbn [mt_matches mt_missing mt_used].
  - intros n' t'. destruct (decide (n = n')) as [->|?]; [|rewrite lookup_insert_ne by done; auto].
    rewrite lookup_insert_eq. intros [= <-]. right. by exists team.
  - auto.
  - intros id [->%elem_of_singleton|?]%elem_of_union; [|by left]. right. by exists n, team, t.
  - set_solver.
  - intros ? ? [-> ->]. rewrite Ef. set_solver.
  - auto.
  - intros n' team'. destruct (decide (n = n')) as [->|?]; [|rewrite lookup_insert_ne by done; auto].
    rewrite lookup_insert_eq. intros [= <-]. by right.
  - auto.
  - set_solver.
  - intros ? ? [-> ->]. rewrite Ef. set_solver.
Qed.

Lemma matched_ext (T T' : string → org_Team → Prop) st st' :
  (∀ n team, T n team ↔ T' n team) → matched T st st' → matched T' st st'.
Proof.
  intros HT Hm. eapply (matched_trans (λ _ _, False) T); [|apply (matched_refl (λ _ _, False)); auto|exact Hm].
  intros n team. rewrite <- HT. naive_solver.
Qed.

Lemma match_teams_ok fuel teams st :
  forest_height teams ≤ fuel → matched (in_forest teams) st (match_teams fuel names teams st).
Proof.
  revert teams st. induction fuel as [|fuel IH]; intros teams st Hf; cbn [match_teams].
  { apply matched_refl. intros n team Hin. destruct Hin as [m n t Hm|m n t ? ? Hm _];
      apply forest_height_child in Hm; lia. }
  apply (matched_ext (λ n team, ∃ nt, nt ∈ map_range teams ∧
    ((n, team) = nt ∨ in_forest (ot_Children nt.2) n team))).
  { intros n team. split.
    - intros ([n0 t0] & Hin%elem_of_map_range & [[= -> ->]|Hb]); [by constructor|by econstructor 2].
    - intros Hin. destruct Hin as [m n t Hm|m n t n' t' Hm Hb].
      + exists (n, t). rewrite elem_of_map_range. by auto.
      + exists (n, t). rewrite elem_of_map_range. by auto. }
  assert (∀ nt, nt ∈ map_range teams → S (forest_height (ot_Children nt.2)) ≤ S fuel) as Hall.
  { intros [n t] Hin%elem_of_map_range. apply forest_height_child in Hin. cbn. lia. }
  revert st Hall. generalize (map_range teams) as l. induction l as [|[n t] l IHl]; intros st Hall; cbn [foldl].
  { apply matched_refl. by intros n team (nt & ?%not_elem_of_nil & _). }
  eapply (matched_trans (λ n' team, (n', team) = (n, t) ∨ in_forest (ot_Children t) n' team)
    (λ n' team, ∃ nt, nt ∈ l ∧ ((n', team) = nt ∨ in_forest (ot_Children nt.2) n' team))).
  - intros n' team. split.
    + intros (nt & [->|Hin]%elem_of_cons & Hnt); [left; exact Hnt|]. right. by exists nt.
    + intros [Hnt|(nt & Hin & Hnt)]; [exists (n, t)|exists nt]; rewrite elem_of_cons; auto.
  - eapply (matched_trans (in_forest (ot_Children t)) (λ n' team', n' = n ∧ team' = t)).
    + intros n' team. split; [intros [[= -> ->]|?]|intros [?|[-> ->]]]; auto.
    + apply IH. specialize (Hall (n, t) (list_elem_of_here _ _)). cbn in Hall. lia.
    + apply match_team_ok.
  - apply IHl. intros nt ?. apply Hall. by right.
Qed.
End matching_proofs.

Lemma lowest_ids_ok l n :
  match lowest_ids l !! n with
  | Some t => t ∈ l ∧ gt_Name t = n ∧ ∀ t', t' ∈ l → gt_Name t' = n → (gt_ID t ≤ gt_ID t')%Z
  | None => ∀ t', t' ∈ l → gt_Name t' ≠ n
  end.
Proof.
  revert n. apply (foldl_ind _ (λ b seen, ∀ n, match b !! n with
    | Some t => t ∈ seen ∧ gt_Name t = n ∧ ∀ t', t' ∈ seen → gt_Name t' = n → (gt_ID t ≤ gt_ID t')%Z
    | None => ∀ t', t' ∈ seen → gt_Name t' ≠ n
    end)); [intros n; rewrite lookup_empty; by intros ? ?%not_elem_of_nil|].
  intros b seen t IH n. unfold note_team.
  assert (t ∈ seen ++ [t]) as Hlast by (apply elem_of_app; right; left).
  assert (∀ t', t' ∈ seen → t' ∈ seen ++ [t]) as Hseen by (intros; apply elem_of_app; by left).
  specialize (IH n). destruct (decide (gt_Name t = n)) as [<-|Hne].
  - destruct (b !! gt_Name t) as [v|] eqn:Eb.
    + destruct IH as (Hv & Hn & Hle). case_bool_decide as Hid.
      * rewrite lookup_insert_eq. split_and!; [done..|]. intros t' [Ht'| ->%list_elem_of_singleton]%elem_of_app Hn'; [|lia].
        specialize (Hle t' Ht' Hn'). lia.
      * rewrite Eb. split_and!; [by apply Hseen|done|]. intros t' [Ht'| ->%list_elem_of_singleton]%elem_of_app Hn'; [by apply Hle|lia].
    + rewrite lookup_insert_eq. split_and!; [done..|]. intros t' [Ht'| ->%list_elem_of_singleton]%elem_of_app Hn'; [|lia].
      by destruct (IH t').
  - assert (∀ m, <[gt_Name t := t]> m !! n = m !! n) as Hins by (intros; by apply lookup_insert_ne).
    assert ((match b !! gt_Name t with
      | Some val => if bool_decide (gt_ID t < gt_ID val)%Z then <[gt_Name t := t]> b else b
      | None => <[gt_Name t := t]> b end) !! n = b !! n) as ->.
    { destruct (b !! gt_Name t); [case_bool_decide|]; by rewrite ?Hins. }
    destruct (b !! n) as [v|].
    + destruct IH as (Hv & Hn & Hle). split_and!; [by apply Hseen|done|]. intros t' [Ht'| ->%list_elem_of_singleton]%elem_of_app Hn'; [by apply Hle|done].
    + intros t' [Ht'| ->%list_elem_of_singleton]%elem_of_app; [by apply IH|done].
Qed.

(** ** What is created and deleted *)

Section team_proofs.
Context `{GoRange} (gh : OrgGitHub) (opt : options) (orgName : string) (cfg : org_Config).

Definition known_teams (l : list github_Team) (tr : list OrgCall) : Prop :=
  answered (on_teams gh) (ListTeams orgName) (λ x, x = l) tr.
(** The team of GitHub that a configured one is: the first of its names that is in use
    counts, and there the lowest ID. *)
Definition team_of (l : list github_Team) (n : string) (team : org_Team) : option github_Team :=
  found_team (team_names_of opt l) n team.
Definition created (n : string) (t : github_Team) (tr : list OrgCall) : Prop :=
  ∃ team, in_forest (oc_Teams cfg) n team ∧
    answered (on_team gh) (CreateTeam orgName (new_team n team)) (λ x, x = t) tr.
(** Not more than the limit would be deleted. *)
Definition within_delta (l : list github_Team) : Prop :=
  exceeds (size (unused_teams opt cfg l)) (size (dom (team_ids opt l))) (opt_maximumDelta opt) = false.

Definition team_allowed (tr : list OrgCall) (c : OrgCall) : Prop :=
  match c with
  | CreateTeam o t => o = orgName ∧ ∃ l n team, known_teams l tr ∧ within_delta l ∧
      in_forest (oc_Teams cfg) n team ∧ team_of l n team = None ∧ t = new_team n team
  | DeleteTeam id => ∃ l, known_teams l tr ∧ within_delta l ∧ id ∈ dom (team_ids opt l) ∧
      ∀ n team, in_forest (oc_Teams cfg) n team →
        match team_of l n team with
        | Some t => gt_ID t ≠ id
        | None => ∃ t, created n t tr ∧ gt_ID t ≠ id
        end
  | c => is_change c = false
  end.

(** The team that stands for a configured one in the result. *)
Definition team_for (l : list github_Team) (n : string) (t : github_Team) (tr : list OrgCall) : Prop :=
  (∃ team, in_forest (oc_Teams cfg) n team ∧ team_of l n team = Some t) ∨ created n t tr.

Lemma stable_created n t : stable (created n t).
Proof. unfold created. auto 10 with prow. Qed.
Lemma stable_team_for l n t : stable (team_for l n t).
Proof. unfold team_for. pose proof (stable_created n t). auto 10 with prow. Qed.

Lemma match_config_ok l :
  matched (team_names_of opt l) (in_forest (oc_Teams cfg)) (mkMatching ∅ ∅ ∅) (match_config opt cfg l).
Proof. by apply match_teams_ok. Qed.

Lemma elem_of_unused_teams l id :
  id ∈ unused_teams opt cfg l ↔ id ∈ dom (team_ids opt l) ∧
    ∀ n team t, in_forest (oc_Teams cfg) n team → team_of l n team = Some t → gt_ID t ≠ id.
Proof.
  unfold unused_teams. rewrite elem_of_difference. destruct (match_config_ok l) as [_ _ Hu _ Hc].
  split; intros [Hid Hn]; (split; [done|]).
  - intros n team t Hin Ht <-. specialize (Hc n team Hin). unfold team_of in Ht. rewrite Ht in Hc. by apply Hn, Hc.
  - intros Hused. destruct (Hu id Hused) as [[]%not_elem_of_empty|(n & team & t & Hin & Ht & <-)].
    by apply (Hn n team t Hin Ht).
Qed.

Definition creatable (l : list github_Team) (n : string) (team : org_Team) : Prop :=
  in_forest (oc_Teams cfg) n team ∧ team_of l n team = None.

Lemma create_teams_ok l todo matches used failures :
  within_delta l → NoDup todo.*1 → (∀ n team, (n, team) ∈ todo → creatable l n team) →
  triple team_allowed (known_teams l) (create_teams gh orgName todo matches used failures)
    (λ r tr, known_teams l tr ∧ (r.2 = [] → failures = [] ∧ used ⊆ r.1.2 ∧
       (∀ n, n ∉ todo.*1 → r.1.1 !! n = matches !! n) ∧
       (∀ n, n ∈ todo.*1 → ∃ t, created n t tr ∧ r.1.1 !! n = Some t ∧ gt_ID t ∈ r.1.2) ∧
       (∀ id, id ∈ r.1.2 → id ∈ used ∨ ∃ n t, created n t tr ∧ gt_ID t = id))).
Proof.
  intros Hd. revert matches used failures.
  induction todo as [|[n team] todo IH]; intros matches used failures Hnd Hcr; cbn [create_teams].
  { apply triple_ret. intros tr Hk. split; [done|]. intros Hf. split_and!; [done..|by intros ? ?%not_elem_of_nil|by left]. }
  rewrite fmap_cons, NoDup_cons in Hnd. destruct Hnd as [Hn Hnd]. cbn [fst] in *.
  destruct (Hcr n team (list_elem_of_here _ _)) as [Hin Hnone].
  assert (∀ n team, (n, team) ∈ todo → creatable l n team) as Hcr' by (intros; apply Hcr; by right).
  eapply triple_bind.
  { apply (triple_attempt_result _ (known_teams l)); [unfold known_teams; auto with prow|].
    apply (triple_ask _ _ _ _ (λ t, created n t)).
    - intros tr Hk. split; [done|]. by exists l, n, team.
    - intros tr t _ Ht. exists team. split; [done|]. exact (answered_now _ _ _ Ht). }
  intros [t|e]; cbn beta iota.
  - eapply triple_conseq; [apply (triple_frame _ (created n t)); [apply stable_created|apply IH; [exact Hnd|exact Hcr']]|intros tr [? ?]; by split|].
    intros r tr [Hc [Hk Hr]]. split; [done|]. intros Hf. destruct (Hr Hf) as (-> & Hu & Hsame & Hall & Hids).
    rewrite fmap_cons. cbn [fst]. split_and!; [done|by transitivity ({[gt_ID t]} ∪ used); [apply union_subseteq_r|]| | |].
    + intros n' Hn'. apply not_elem_of_cons in Hn' as [? ?]. rewrite Hsame by done. by rewrite lookup_insert_ne.
    + intros n' [->|Hn']%elem_of_cons; [|by apply Hall]. exists t. split; [done|]. split; [|apply Hu, elem_of_union_l, elem_of_singleton; done].
      rewrite Hsame by done. apply lookup_insert_eq.
    + intros id [[->%elem_of_singleton|?]%elem_of_union|?]%Hids; [right; by exists n, t|by left|by right].
  - eapply triple_conseq; [apply IH; [exact Hnd|exact Hcr']|by intros tr [? _]|].
    intros r tr [Hk Hr]. split; [done|]. intros Hf. destruct (Hr Hf) as [Hnil _]. by destruct failures.
Qed.

Lemma delete_teams_ok ids todo failures (P : list OrgCall → Prop) :
  stable P → (∀ id tr, id ∈ todo → P tr → team_allowed tr (DeleteTeam id)) →
  triple team_allowed P (delete_teams gh ids todo failures)
    (λ failures' tr, P tr ∧ (failures' = [] → failures = [] ∧
       ∀ id, id ∈ todo → answered (on_change gh) (DeleteTeam id) (λ _, True) tr)).
Proof.
  intros HP. revert failures. induction todo as [|id todo IH]; intros failures Hok; cbn [delete_teams].
  { apply triple_ret. intros tr Hp. split; [done|]. intros Hf. split; [done|]. by intros ? ?%not_elem_of_nil. }
  eapply triple_bind.
  { apply (triple_attempt_result _ P); [done|].
    apply (triple_ask _ _ _ _ (λ _, answered (on_change gh) (DeleteTeam id) (λ _, True))).
    - intros tr Hp. apply (Hok id tr); [left|done].
    - intros tr [] _ Ht. by eapply answered_weaken; [exact (answered_now _ _ _ Ht)|]. }
  intros r. assert (∀ id tr, id ∈ todo → P tr → team_allowed tr (DeleteTeam id)) as Hok'
    by (intros; apply Hok; [by right|done]).
  destruct r as [u|e]; cbn beta iota.
  - rewrite app_nil_r. eapply triple_conseq.
    + apply (triple_frame _ (answered (on_change gh) (DeleteTeam id) (λ _, True))); [auto with prow|by apply IH].
    + intros tr [? ?]; by split.
    + intros fs tr [Ha [Hp Hr]]. split; [done|]. intros Hf. destruct (Hr Hf) as [Hnil Hall]. split; [done|].
      intros id' [->|?]%elem_of_cons; auto.
  - eapply triple_conseq; [by apply IH|by intros tr [? _]|]. intros fs tr [Hp Hr]. split; [done|]. intros Hf.
    destruct (Hr Hf) as [Hnil _]. by destruct failures.
Qed.

Lemma team_failures_ok {A} (P : list OrgCall → Prop) fmt failures (a : A) :
  triple team_allowed P (team_failures fmt failures a) (λ a' tr, P tr ∧ failures = [] ∧ a' = a).
Proof. destruct failures; [by apply triple_ret|apply triple_err]. Qed.

(** What holds of the result of [configureTeams]. *)
Definition teams_result (matches : gmap string github_Team) (tr : list OrgCall) : Prop :=
  ∃ l, known_teams l tr ∧ within_delta l ∧
    (∀ n team, in_forest (oc_Teams cfg) n team → ∃ t, matches !! n = Some t ∧ team_for l n t tr) ∧
    ∀ id, id ∈ unused_teams opt cfg l →
      answered (on_change gh) (DeleteTeam id) (λ _, True) tr ∨ ∃ n t, created n t tr ∧ gt_ID t = id.

Lemma stable_teams_result matches : stable (teams_result matches).
Proof.
  unfold teams_result, known_teams. pose proof stable_team_for. pose proof stable_created. auto 20 with prow.
Qed.

(** Everything missing was created, and [used] holds the new IDs. *)
Definition all_created (l : list github_Team) (matches : gmap string github_Team) (used : gset Z)
    (tr : list OrgCall) : Prop :=
  (∀ n team, in_forest (oc_Teams cfg) n team → team_of l n team = None →
     ∃ t, created n t tr ∧ matches !! n = Some t ∧ gt_ID t ∈ used) ∧
  (∀ n team, in_forest (oc_Teams cfg) n team → ∃ t, matches !! n = Some t ∧ team_for l n t tr) ∧
  (∀ id, id ∈ used → id ∈ unused_teams opt cfg l → ∃ n t, created n t tr ∧ gt_ID t = id).

Lemma create_missing_ok l :
  within_delta l → let st := match_config opt cfg l in
  triple team_allowed (known_teams l)
    (create_teams gh orgName (map_range (mt_missing st)) (mt_matches st) (mt_used st) [])
    (λ r tr, known_teams l tr ∧ (r.2 = [] → all_created l r.1.1 r.1.2 tr)).
Proof.
  intros Hd st. destruct (match_config_ok l) as [Hs Hm Hu _ Hc]. fold st in Hs, Hm, Hu, Hc.
  assert (∀ n, n ∈ (map_range (mt_missing st)).*1 ↔ n ∈ dom (mt_missing st)) as Hdom.
  { intros n. rewrite elem_of_dom, list_elem_of_fmap. split.
    - intros ([n' team] & -> & ?%elem_of_map_range). by exists team.
    - intros [team ?]. exists (n, team). by rewrite elem_of_map_range. }
  eapply triple_conseq; [apply (create_teams_ok l); [done|apply NoDup_map_range|]|done|].
  { intros n team Hin%elem_of_map_range. destruct (Hm n team Hin) as [Hno|[? ?]]; [cbn [mt_missing mt_matches] in Hno; by rewrite lookup_empty in Hno|done]. }
  intros [[matches used] failures] tr [Hk Hr]. cbn [fst snd] in *. split; [done|]. intros Hf.
  destruct (Hr Hf) as (_ & Hsub & Hsame & Hall & Hids). split_and!.
  - intros n team Hin Hnone. specialize (Hc n team Hin). unfold team_of in Hnone. rewrite Hnone in Hc.
    by apply Hall, Hdom.
  - intros n team Hin. destruct (decide (n ∈ (map_range (mt_missing st)).*1)) as [Hmis|Hmis].
    + destruct (Hall n Hmis) as (t & ? & ? & _). exists t. split; [done|by right].
    + specialize (Hc n team Hin). destruct (found_team _ n team) as [t|] eqn:Ef; [|by rewrite <- Hdom in Hc].
      destruct Hc as [[t' Ht']%elem_of_dom _]. exists t'. rewrite Hsame by done. split; [done|]. left.
      destruct (Hs n t' Ht') as [Hno|(team' & ? & ?)]; [cbn [mt_missing mt_matches] in Hno; by rewrite lookup_empty in Hno|by exists team'].
  - intros id Hid [_ Hun]%elem_of_unused_teams. destruct (Hids id Hid) as [Hid'|?]; [|done].
    destruct (Hu id Hid') as [[]%not_elem_of_empty|(n & team & t & Hin & Ht & Hidt)].
    by destruct (Hun n team t Hin Ht).
Qed.

Lemma stable_all_created l matches used : stable (all_created l matches used).
Proof.
  unfold all_created. pose proof stable_team_for. pose proof stable_created. auto 20 with prow.
Qed.

Lemma deletable l matches used id tr :
  within_delta l → id ∈ set_range (unused_teams opt cfg l ∖ used) →
  known_teams l tr ∧ all_created l matches used tr → team_allowed tr (DeleteTeam id).
Proof.
  intros Hd [Hun Hnu]%elem_of_set_range%elem_of_difference [Hk (Hc & _ & _)].
  apply elem_of_unused_teams in Hun as [Hdom Hne]. exists l. split_and!; [done..|].
  intros n team Hin. destruct (team_of l n team) as [t|] eqn:Et; [by apply (Hne n team)|].
  destruct (Hc n team Hin Et) as (t & ? & _ & ?). exists t. split; [done|]. by intros <-.
Qed.

Lemma configureTeams_ok :
  triple team_allowed (λ _, True) (configureTeams gh opt orgName cfg) teams_result.
Proof.
  unfold configureTeams. eapply (triple_bind _ _ _ _ (λ _ _, True)); [by apply triple_lift|]. intros u.
  eapply triple_bind; [apply triple_with_err, (triple_ask _ _ _ _ known_teams); [done|]|].
  { intros tr l _ Ha. exact (answered_now _ _ _ Ha). }
  intros l. cbn beta zeta. apply triple_if; intros Hd; [apply triple_err|].
  eapply triple_bind; [apply (create_missing_ok l Hd)|]. intros [[matches used] failures]. cbn [fst snd].
  eapply triple_bind; [apply team_failures_ok|]. intros []. cbn beta.
  eapply triple_bind.
  { eapply triple_weaken; [apply (delete_teams_ok _ _ _ (λ tr, known_teams l tr ∧ all_created l matches used tr))|].
    - pose proof (stable_all_created l matches used). unfold known_teams. auto with prow.
    - intros id tr Hid. by apply deletable.
    - intros tr [[Hk Hc] [Hf _]]. split; [done|by apply Hc]. }
  intros failures'. cbn beta. eapply triple_conseq; [apply team_failures_ok|intros tr Hp; exact Hp|].
  intros matches' tr [[[Hk (_ & Hall & Hids)] Hdel] [Hf ->]]. destruct (Hdel Hf) as [_ Hdel'].
  exists l. split_and!; [done..|]. intros id Hid. destruct (decide (id ∈ used)) as [Hu|Hu].
  - right. by apply Hids.
  - left. apply Hdel', elem_of_set_range. set_solver.
Qed.
End team_proofs.

(** ** A team's settings *)

(** What of a team is configured; the parent by its ID. *)
Record team_view := mkTeamView {
  tv_Name : string; tv_Description : string; tv_Privacy : string; tv_parent : option Z }.
Definition view_of (gt : github_Team) : team_view :=
  mkTeamView (gt_Name gt) (gt_Description gt) (gt_Privacy gt) (gt_ID <$> gt_Parent gt).
(** The team after an edit: empty fields are not sent, the ID of the parent always is. *)
Definition after_edit (cur e : github_Team) : team_view :=
  let sent new old := if bool_decide (new = "") then old else new in
  mkTeamView (gt_Name e) (sent (gt_Description e) (gt_Description cur))
    (sent (gt_Privacy e) (gt_Privacy cur)) (gt_ParentTeamID e).

Definition wanted_view (name : string) (team : org_Team) (parent : option Z) (v : team_view) : Prop :=
  tv_Name v = name ∧ (∀ d, ot_Description team = Some d → tv_Description v = d) ∧ tv_parent v = parent ∧
  match ot_Privacy team with
  | Some p => tv_Privacy v = p
  | None => is_Some parent ∨ ot_Children team ≠ ∅ → tv_Privacy v = PrivacyClosed
  end.

(** As GitHub answers: the ID of the parent is only sent, never answered. *)
Definition answered_team (gt : github_Team) : Prop := gt_ParentTeamID gt = None.

Section settings.
Context (name : string) (team : org_Team) (gt : github_Team) (parent : option Z).
Hypothesis Hgt : answered_team gt.

Definition description_differs : Prop :=
  is_Some (ot_Description team) ∧ ot_Description team ≠ Some (gt_Description gt).
Definition wanted_privacy (pr : string) : Prop :=
  match ot_Privacy team with
  | Some p => pr = p
  | None => is_Some parent ∨ ot_Children team ≠ ∅ → pr = PrivacyClosed
  end.

Lemma edit_parent_ok pg :
  let g := (edit_parent parent pg).2 in
  ((edit_parent parent pg).1 = false ↔ pg.1 = false ∧ gt_ID <$> gt_Parent pg.2 = parent) ∧
  gt_Name g = gt_Name pg.2 ∧ gt_Description g = gt_Description pg.2 ∧ gt_Privacy g = gt_Privacy pg.2 ∧
  gt_ID g = gt_ID pg.2 ∧
  gt_ParentTeamID g = (if bool_decide (gt_ID <$> gt_Parent pg.2 = parent) then gt_ParentTeamID pg.2 else parent).
Proof.
  destruct pg as [patch g]. unfold edit_parent. cbn [fst snd].
  destruct (gt_Parent g) as [q|], parent as [id|]; cbn [fmap option_fmap option_map].
  - destruct (bool_decide_reflect (gt_ID q ≠ id)) as [Hne|Heq%dec_stable]; cbn [fst snd set_parent gt_Name
      gt_Description gt_Privacy gt_ID gt_ParentTeamID].
    + rewrite bool_decide_eq_false_2 by congruence. split_and!; try done. naive_solver congruence.
    + rewrite bool_decide_eq_true_2 by congruence. split_and!; try done. naive_solver congruence.
  - rewrite bool_decide_eq_false_2 by done. cbn. split_and!; try done. naive_solver.
  - rewrite bool_decide_eq_false_2 by done. cbn. split_and!; try done. naive_solver.
  - rewrite bool_decide_eq_true_2 by done. cbn. split_and!; try done. naive_solver.
Qed.

Lemma edit_privacy_ok pg :
  let g := (edit_privacy team parent pg).2 in
  ((edit_privacy team parent pg).1 = false ↔ pg.1 = false ∧ wanted_privacy (gt_Privacy pg.2)) ∧
  gt_Name g = gt_Name pg.2 ∧ gt_Description g = gt_Description pg.2 ∧ gt_ID g = gt_ID pg.2 ∧
  gt_ParentTeamID g = gt_ParentTeamID pg.2 ∧ wanted_privacy (gt_Privacy g).
Proof.
  destruct pg as [patch g]. unfold edit_privacy, wanted_privacy. cbn [fst snd].
  destruct (ot_Privacy team) as [p|]; case_bool_decide as Hp; cbn [fst snd set_privacy gt_Name gt_Description
    gt_ID gt_ParentTeamID gt_Privacy]; split_and!; try done.
  - split; [done|]. by intros [_ ?].
  - by split; [|intros []].
  - split; [done|]. intros [_ Hw]. destruct Hp as [Hn Hne]. by destruct Hne; apply Hw.
  - split; [|by intros []]. intros ->. split; [done|]. intros Hn. destruct (decide (gt_Privacy g = PrivacyClosed)); tauto.
  - intros Hn. destruct (decide (gt_Privacy g = PrivacyClosed)); tauto.
Qed.

Lemma team_patch_none :
  (team_patch name team gt parent).1 = false ↔ wanted_view name team parent (view_of gt).
Proof.
  unfold team_patch. rewrite (proj1 (edit_privacy_ok _)).
  destruct (edit_parent_ok (edit_name name team gt)) as (-> & _ & _ & -> & _).
  unfold edit_name, wanted_view, view_of, wanted_privacy.
  cbn [fst snd gt_Parent gt_Privacy tv_Name tv_Description tv_parent tv_Privacy].
  rewrite orb_false_iff, !bool_decide_eq_false.
  assert (¬ gt_Name gt ≠ name ↔ gt_Name gt = name) as -> by (split; [apply dec_stable|tauto]).
  assert (¬ (is_Some (ot_Description team) ∧ ot_Description team ≠ Some (gt_Description gt)) ↔
    ∀ d, ot_Description team = Some d → gt_Description gt = d) as ->; [|tauto].
  split.
  - intros Hd d Ed. destruct (decide (gt_Description gt = d)) as [|Hne]; [done|]. destruct Hd. rewrite Ed.
    split; [done|]. congruence.
  - intros Hd [[d Ed] Hne]. apply Hne. rewrite Ed. by rewrite (Hd d).
Qed.

(** What is sent: the ID of the parent is missing if it is right already. *)
Lemma team_patch_fields :
  let e := (team_patch name team gt parent).2 in
  gt_ID e = gt_ID gt ∧ gt_Name e = name ∧ wanted_privacy (gt_Privacy e) ∧
  gt_Description e = (if bool_decide description_differs then default "" (ot_Description team) else "") ∧
  gt_ParentTeamID e = if bool_decide (gt_ID <$> gt_Parent gt = parent) then gt_ParentTeamID gt else parent.
Proof.
  unfold team_patch. destruct (edit_privacy_ok (edit_parent parent (edit_name name team gt))) as (_ & -> & -> & -> & -> & Hw).
  destruct (edit_parent_ok (edit_name name team gt)) as (_ & -> & -> & _ & -> & ->). by split_and!.
Qed.

(** The edit [e] sends the wanted name and privacy, the description if it differs, and the
    parent if it differs. *)
Definition team_edit (e : github_Team) : Prop :=
  gt_ID e = gt_ID gt ∧ gt_Name e = name ∧ wanted_privacy (gt_Privacy e) ∧
  gt_Description e = (if bool_decide description_differs then default "" (ot_Description team) else "") ∧
  gt_ParentTeamID e = if bool_decide (gt_ID <$> gt_Parent gt = parent) then gt_ParentTeamID gt else parent.

(** What an edit can send: a description that is not empty, and a parent only together with
    a change of it. *)
Definition sendable : Prop :=
  (gt_ID <$> gt_Parent gt ≠ parent ∨ parent = None) ∧
  ot_Description team ≠ Some "" ∧ ot_Privacy team ≠ Some "".

(** After an edit everything is as configured, if it can be sent. *)
Lemma team_edit_applies e :
  team_edit e → sendable → wanted_view name team parent (after_edit gt e).
Proof using Hgt.
  intros (_ & Hn & Hw & Hde & Hid) (Hpar & Hd & Hpr).
  unfold wanted_view, after_edit. cbn [tv_Name tv_Description tv_parent tv_Privacy].
  rewrite Hde, Hid. split_and!; [done| | |].
  - intros d Ed. destruct (bool_decide_reflect description_differs) as [Hdi|Hdi].
    + rewrite Ed. cbn [default from_option]. rewrite bool_decide_eq_false_2; [done|]. cbn. congruence.
    + rewrite bool_decide_eq_true_2 by done. destruct (decide (gt_Description gt = d)) as [|Hne]; [done|].
      destruct Hdi. split; [by rewrite Ed|]. congruence.
  - case_bool_decide; [|done]. destruct Hpar as [|Hpar]; [done|]. by rewrite Hpar.
  - unfold wanted_privacy in Hw. destruct (ot_Privacy team) as [p|].
    + rewrite Hw. rewrite bool_decide_eq_false_2; [done|]. congruence.
    + intros Hnest. by rewrite (Hw Hnest), bool_decide_eq_false_2.
Qed.

(** A patch of a team whose parent is right takes the parent away. *)
Lemma team_patch_loses_parent :
  gt_ID <$> gt_Parent gt = parent → tv_parent (after_edit gt (team_patch name team gt parent).2) = None.
Proof using All.
  intros Hpar. destruct team_patch_fields as (_ & _ & _ & _ & Hid). unfold after_edit. cbn [tv_parent].
  by rewrite Hid, bool_decide_eq_true_2.
Qed.
End settings.

(** ** Nested teams, their members and repositories *)

(** The teams at any depth, with the ID of the team each is nested in. *)
Inductive nested (githubTeams : gmap string github_Team) :
    option Z → gmap string org_Team → option Z → string → org_Team → Prop :=
| nested_here parent m n t : m !! n = Some t → nested githubTeams parent m parent n t
| nested_below parent m n t gt parent' n' t' :
    m !! n = Some t → githubTeams !! n = Some gt →
    nested githubTeams (Some (gt_ID gt)) (ot_Children t) parent' n' t' →
    nested githubTeams parent m parent' n' t'.

Lemma nested_in_map githubTeams parent m n0 t0 parent' n t :
  m !! n0 = Some t0 → nested githubTeams parent {[n0 := t0]} parent' n t →
  nested githubTeams parent m parent' n t.
Proof.
  intros Hm Hn. inversion Hn as [? ? ? ? Hl|? ? ? ? gt ? ? ? Hl Hg Hc]; subst;
    apply lookup_singleton_Some in Hl as [<- <-]; [by constructor|by econstructor].
Qed.
Lemma nested_single githubTeams parent m parent' n t :
  nested githubTeams parent m parent' n t →
  ∃ n0 t0, m !! n0 = Some t0 ∧ nested githubTeams parent {[n0 := t0]} parent' n t.
Proof.
  intros Hn. inversion Hn as [? ? ? ? Hl|? ? n0 t0 gt ? ? ? Hl Hg Hc]; subst.
  - exists n, t. split; [done|]. constructor. apply lookup_singleton_eq.
  - exists n0, t0. split; [done|]. eapply nested_below; [apply lookup_singleton_eq|done..].
Qed.

Section nested_proofs.
Context `{GoRange} (gh : OrgGitHub) (opt : options) (orgName : string) (githubTeams : gmap string github_Team)
  (teams : gmap string org_Team).

(** The call [c] is needed for the members of [team]. *)
Definition member_change (gt : github_Team) (team : org_Team) (tr : list OrgCall) (c : OrgCall) : Prop :=
  ∃ plain maintainers invited,
    answered (on_logins gh) (ListTeamMembers (gt_ID gt) RoleMember) (λ l, l = plain) tr ∧
    answered (on_logins gh) (ListTeamMembers (gt_ID gt) RoleMaintainer) (λ l, l = maintainers) tr ∧
    answered (on_logins gh) (ListTeamInvitations (gt_ID gt)) (λ l, l = invited) tr ∧
    c ∈ membership_changes (UpdateTeamMembership (gt_ID gt)) (RemoveTeamMembership (gt_ID gt))
      (normalized (mkMemberships (set_of plain) (set_of maintainers)))
      (normalized (mkMemberships (set_of (ot_Members team)) (set_of (ot_Maintainers team))))
      (set_of (NormLogin <$> filter (λ login, login ≠ "") invited)).
(** All that are needed were carried out. *)
Definition members_done (gt : github_Team) (team : org_Team) (tr : list OrgCall) : Prop :=
  ∃ plain maintainers invited,
    answered (on_logins gh) (ListTeamMembers (gt_ID gt) RoleMember) (λ l, l = plain) tr ∧
    answered (on_logins gh) (ListTeamMembers (gt_ID gt) RoleMaintainer) (λ l, l = maintainers) tr ∧
    answered (on_logins gh) (ListTeamInvitations (gt_ID gt)) (λ l, l = invited) tr ∧
    ∀ c, c ∈ membership_changes (UpdateTeamMembership (gt_ID gt)) (RemoveTeamMembership (gt_ID gt))
      (normalized (mkMemberships (set_of plain) (set_of maintainers)))
      (normalized (mkMemberships (set_of (ot_Members team)) (set_of (ot_Maintainers team))))
      (set_of (NormLogin <$> filter (λ login, login ≠ "") invited)) → carried_out gh c tr.

Lemma stable_member_change gt team c : stable (λ tr, member_change gt team tr c).
Proof. unfold member_change. auto 20 with prow. Qed.
Lemma stable_members_done gt team : stable (members_done gt team).
Proof. unfold members_done. pose proof (stable_carried_out gh). auto 20 with prow. Qed.

Lemma configureTeamMembers_triple (S : list OrgCall → OrgCall → Prop) gt team :
  (∀ tr c, is_change c = false → S tr c) → (∀ tr c, member_change gt team tr c → S tr c) →
  triple S (λ _, True) (configureTeamMembers gh gt team) (λ _, members_done gt team).
Proof.
  intros HS1 HS2 tr _. pose proof (configureTeamMembers_ok gh gt team tr) as Hok.
  destruct (configureTeamMembers gh gt team tr) as [tr' out].
  destruct Hok as (_ & reads & Hn & [[-> Hne]|(plain & mts & inv & Hp & Hm & (pre & post & l & Ei & Ha & ->) & _ & -> & Hd)]).
  { exists reads. cbn. split_and!; [done| |].
    - intros before e after ->. apply HS1, Hn, elem_of_app. right. left.
    - intros [] ->. done. }
  assert (answered (on_logins gh) (ListTeamInvitations (gt_ID gt)) (λ x, x = l) (tr ++ reads)) as Hi
    by (rewrite Ei; exists pre, post, l; by split_and!).
  set (changes := membership_changes _ _ _ _ _) in *. exists (reads ++ changes). cbn.
  rewrite !app_assoc. split_and!; [done| |].
  - intros before e after Heq. destruct (is_change e) eqn:Ec; [|by apply HS1]. apply HS2.
    destruct (change_after_reads reads changes before e after Hn Heq Ec) as (b & -> & He).
    rewrite app_assoc. apply stable_member_change. by exists plain, mts, l.
  - intros [] ->. exists plain, mts, l. split_and!; try by apply stable_answered. by apply Hd.
Qed.

(** The team was as configured, or an edit was answered that sends what differs: after it
    the team is as configured if that can be sent.  [gt] is a team as GitHub lists it. *)
Definition settings_done (n : string) (team : org_Team) (gt : github_Team) (parent : option Z)
    (tr : list OrgCall) : Prop :=
  wanted_view n team parent (view_of gt) ∨
  ∃ e, answered (on_team gh) (EditTeam e) (λ _, True) tr ∧ team_edit n team gt parent e ∧
    (answered_team gt → sendable team gt parent → wanted_view n team parent (after_edit gt e)).

Lemma stable_settings_done n team gt parent : stable (settings_done n team gt parent).
Proof. unfold settings_done. auto 20 with prow. Qed.

(** An edit of a team that is not as configured. *)
Definition settings_change (n : string) (team : org_Team) (gt : github_Team) (parent : option Z) (c : OrgCall) : Prop :=
  ¬ wanted_view n team parent (view_of gt) ∧ ∃ e, c = EditTeam e ∧ team_edit n team gt parent e.

Lemma configureTeam_triple (S : list OrgCall → OrgCall → Prop) n team gt parent :
  (∀ tr c, settings_change n team gt parent c → S tr c) →
  triple S (λ _, True) (configureTeam gh orgName n team gt parent) (λ _, settings_done n team gt parent).
Proof.
  intros HS. unfold configureTeam, settings_done.
  pose proof (team_patch_none n team gt parent) as Hnone. pose proof (team_patch_fields n team gt parent) as He.
  destruct (team_patch n team gt parent) as [[] e]; cbn [fst snd] in *; [|apply triple_ret; left; by apply Hnone].
  eapply triple_bind; [apply triple_with_args, (triple_ask _ _ _ _ (λ _, answered (on_team gh) (EditTeam e) (λ _, True)))|].
  - intros tr _. apply HS. split; [by intros Hw%Hnone|]. by exists e.
  - intros tr t _ Ha. by eapply answered_weaken; [exact (answered_now _ _ _ Ha)|].
  - intros t. apply triple_ret. intros tr Ha. right. exists e. split_and!; [done..|].
    intros Hgt. by apply team_edit_applies.
Qed.

(** What configuring the teams and their members may do, and what it has done. *)
Definition nested_allowed (tr : list OrgCall) (c : OrgCall) : Prop :=
  is_change c = false ∨
  ∃ n team parent gt, nested githubTeams None teams parent n team ∧ githubTeams !! n = Some gt ∧
    (settings_change n team gt parent c ∨
     opt_fixTeamMembers opt = true ∧ member_change gt team tr c).
Definition team_configured (n : string) (team : org_Team) (parent : option Z) (tr : list OrgCall) : Prop :=
  ∃ gt, githubTeams !! n = Some gt ∧ settings_done n team gt parent tr ∧
    (opt_fixTeamMembers opt = true → members_done gt team tr).

Lemma stable_team_configured n team parent : stable (team_configured n team parent).
Proof.
  unfold team_configured. pose proof stable_members_done. pose proof stable_settings_done. auto 20 with prow.
Qed.

(** A team and all that are nested in it. *)
Definition subtree_configured (parent : option Z) (nt : string * org_Team) (tr : list OrgCall) : Prop :=
  ∀ parent' n team, nested githubTeams parent {[nt.1 := nt.2]} parent' n team → team_configured n team parent' tr.

Lemma stable_subtree_configured parent nt : stable (subtree_configured parent nt).
Proof. unfold subtree_configured. pose proof stable_team_configured. auto 20 with prow. Qed.

Lemma configureTeamAndMembers_ok fuel parent name team :
  (∀ parent' n' team', nested githubTeams parent {[name := team]} parent' n' team' →
     nested githubTeams None teams parent' n' team') →
  triple nested_allowed (λ _, True) (configureTeamAndMembers gh opt fuel githubTeams orgName parent (name, team))
    (λ _, subtree_configured parent (name, team)).
Proof.
  revert parent name team. induction fuel as [|fuel IH]; intros parent name team Hsub; cbn [configureTeamAndMembers].
  { apply triple_panic. }
  destruct (githubTeams !! name) as [gt|] eqn:Eg; [|apply triple_err].
  assert (nested githubTeams None teams parent name team) as Hhere
    by (apply Hsub; constructor; apply lookup_singleton_eq).
  eapply triple_bind.
  { apply triple_with_args, (configureTeam_triple nested_allowed). intros tr c Hc. right.
    exists name, team, parent, gt. split_and!; [done..|]. by left. }
  intros u. cbn beta. eapply (triple_bind _ _ _ _ (λ _ tr, settings_done name team gt parent tr ∧
    (opt_fixTeamMembers opt = true → members_done gt team tr))).
  { eapply triple_conseq; [apply (triple_frame _ (settings_done name team gt parent) (λ _, True) _
      (λ _ tr, opt_fixTeamMembers opt = true → members_done gt team tr))|done|].
    - apply stable_settings_done.
    - unfold team_members_or_skip. apply triple_if; intros Hf.
      + apply triple_with_args. eapply triple_conseq;
          [apply (configureTeamMembers_triple nested_allowed gt team); [by left|]|done|by intros].
        intros tr c Hc. right. exists name, team, parent, gt. split_and!; [done..|]. by right.
      + apply triple_ret. congruence.
    - intros u' tr Hq. exact Hq. }
  intros u'. cbn beta. eapply triple_conseq.
  - apply (triple_for_each _ nested_allowed (λ tr, settings_done name team gt parent tr ∧
      (opt_fixTeamMembers opt = true → members_done gt team tr)) (subtree_configured (Some (gt_ID gt)))).
    + pose proof stable_members_done. pose proof stable_settings_done. auto 10 with prow.
    + apply stable_subtree_configured.
    + intros [cn child] Hc%elem_of_map_range. apply triple_with_args.
      eapply triple_weaken; [apply IH|done]. intros parent' n' t' Hn. apply Hsub.
      eapply nested_below; [apply lookup_singleton_eq|exact Eg|]. by eapply nested_in_map.
  - done.
  - intros u'' tr [[Hs Hm] Hall] parent' n t Hn. cbn [fst snd] in Hn. inversion Hn as [? ? ? ? Hl|? ? n0 t0 gt' ? ? ? Hl Hg Hc]; subst;
      apply lookup_singleton_Some in Hl as [<- <-].
    + by exists gt.
    + assert (gt' = gt) as -> by congruence. apply nested_single in Hc as (n1 & t1 & Hl1 & Hc).
      by apply (Hall (n1, t1)); [apply elem_of_map_range|].
Qed.

(** ** Repositories *)

Lemma wanted_actions (have : gmap string string) (l : list (string * string)) r :
  NoDup l.*1 →
  foldl (λ actions wp, if bool_decide (have !! wp.1 = Some wp.2) then actions else <[wp.1 := wp.2]> actions)
    (∅ : gmap string string) l !! r =
  match list_to_map (M := gmap string string) l !! r with
  | Some p => if bool_decide (have !! r = Some p) then None else Some p
  | None => None
  end.
Proof.
  revert r. induction l as [|[k p] l IH] using rev_ind; intros r Hnd; [by cbn; rewrite lookup_empty|].
  rewrite fmap_app in Hnd. apply NoDup_app in Hnd as (Hnd & Hdis & _).
  rewrite foldl_app, list_to_map_app, lookup_union. cbn [foldl fst snd].
  assert (k ∉ l.*1) as Hk by (intros Hk; apply (Hdis k Hk); left).
  destruct (decide (k = r)) as [->|Hne].
  - rewrite (not_elem_of_list_to_map_1 _ _ Hk), (left_id_L None (∪)). cbn. rewrite lookup_insert_eq.
    case_bool_decide; [|by rewrite lookup_insert_eq]. rewrite IH by done.
    by rewrite (not_elem_of_list_to_map_1 _ _ Hk).
  - cbn. rewrite lookup_insert_ne, lookup_empty, (right_id_L None (∪)) by done.
    case_bool_decide; [by rewrite IH|]. rewrite lookup_insert_ne by done. by rewrite IH.
Qed.

Lemma removed_actions (want : gmap string string) ks (actions : gmap string string) r :
  foldl (λ actions repo, if bool_decide (want !! repo = None) then <[repo := None_]> actions else actions)
    actions ks !! r =
  if bool_decide (r ∈ ks ∧ want !! r = None) then Some None_ else actions !! r.
Proof.
  revert actions. induction ks as [|k ks IH]; intros actions; cbn [foldl].
  { rewrite bool_decide_eq_false_2; [done|]. by intros [?%not_elem_of_nil _]. }
  rewrite IH. destruct (bool_decide_reflect (r ∈ ks ∧ want !! r = None)) as [[Hin Hn]|Hno].
  { rewrite bool_decide_eq_true_2; [done|]. split; [by right|done]. }
  destruct (decide (k = r)) as [->|Hne].
  - destruct (bool_decide_reflect (want !! r = None)) as [Hn|Hn].
    + rewrite lookup_insert_eq, bool_decide_eq_true_2; [done|]. split; [left|done].
    + rewrite bool_decide_eq_false_2; [done|]. by intros [_ ?].
  - assert (¬ (r ∈ k :: ks ∧ want !! r = None)) as Hno'.
    { intros [[->|?]%elem_of_cons ?]; [done|]. by apply Hno. }
    rewrite (bool_decide_eq_false_2 _ Hno'). case_bool_decide; [by rewrite lookup_insert_ne|done].
Qed.

(** Exactly what differs is changed. *)
Lemma repo_actions_ok want have r :
  repo_actions want have !! r =
  match want !! r with
  | Some p => if bool_decide (have !! r = Some p) then None else Some p
  | None => if bool_decide (is_Some (have !! r)) then Some None_ else None
  end.
Proof.
  unfold repo_actions. rewrite removed_actions, wanted_actions by apply NoDup_map_range.
  assert (list_to_map (map_range want) = want) as ->.
  { transitivity (list_to_map (M := gmap string string) (map_to_list want)); [|apply list_to_map_to_list].
    apply list_to_map_proper; [apply NoDup_map_range|apply map_range_perm]. }
  assert (r ∈ (map_range have).*1 ↔ is_Some (have !! r)) as Hdom.
  { rewrite list_elem_of_fmap. split.
    - intros ([k p] & -> & ?%elem_of_map_range). by exists p.
    - intros [p ?]. exists (r, p). by rewrite elem_of_map_range. }
  destruct (want !! r) as [p|] eqn:Ew.
  - rewrite bool_decide_eq_false_2; [done|]. by intros [_ ?].
  - by rewrite (bool_decide_ext _ (is_Some (have !! r))) by (rewrite Hdom; tauto).
Qed.

Definition needed_levels (gt : github_Team) (team : org_Team) (tr : list OrgCall) (actions : gmap string string)
    : Prop :=
  ∃ repos, answered (on_repos gh) (ListTeamRepos (gt_ID gt)) (λ l, l = repos) tr ∧
    actions = repo_actions (ot_Repos team) (repo_levels repos).

Definition team_repos_allowed (tr : list OrgCall) (c : OrgCall) : Prop :=
  is_change c = false ∨
  ∃ n team gt actions r p, in_forest teams n team ∧ githubTeams !! n = Some gt ∧
    needed_levels gt team tr actions ∧ actions !! r = Some p ∧ c = repo_call (gt_ID gt) orgName (r, p).
Definition levels_done (n : string) (team : org_Team) (tr : list OrgCall) : Prop :=
  ∃ gt actions, githubTeams !! n = Some gt ∧ needed_levels gt team tr actions ∧
    ∀ r p, actions !! r = Some p →
      answered (on_change gh) (repo_call (gt_ID gt) orgName (r, p)) (λ _, True) tr.
Definition subtree_levels (nt : string * org_Team) (tr : list OrgCall) : Prop :=
  ∀ n team, in_forest {[nt.1 := nt.2]} n team → levels_done n team tr.

Lemma stable_levels_done n team : stable (levels_done n team).
Proof. unfold levels_done, needed_levels. auto 20 with prow. Qed.
Lemma stable_subtree_levels nt : stable (subtree_levels nt).
Proof. unfold subtree_levels. pose proof stable_levels_done. auto 10 with prow. Qed.

Lemma in_forest_single m n t : in_forest m n t ↔ ∃ n0 t0, m !! n0 = Some t0 ∧ in_forest {[n0 := t0]} n t.
Proof.
  split.
  - intros Hn. destruct Hn as [m n t Hl|m n0 t0 n t Hl Hb].
    + exists n, t. split; [done|]. constructor. apply lookup_singleton_eq.
    + exists n0, t0. split; [done|]. eapply forest_below; [apply lookup_singleton_eq|done].
  - intros (n0 & t0 & Hl & Hn). inversion Hn as [? ? ? Hs|? ? ? ? ? Hs Hb]; subst;
      apply lookup_singleton_Some in Hs as [<- <-]; [by constructor|by eapply forest_below].
Qed.

Lemma configureTeamRepos_ok fuel name team :
  (∀ n' team', in_forest {[name := team]} n' team' → in_forest teams n' team') →
  triple team_repos_allowed (λ _, True) (configureTeamRepos gh fuel githubTeams orgName (name, team))
    (λ _, subtree_levels (name, team)).
Proof.
  revert name team. induction fuel as [|fuel IH]; intros name team Hsub; cbn [configureTeamRepos].
  { apply triple_panic. }
  destruct (githubTeams !! name) as [gt|] eqn:Eg; [|apply triple_err].
  eapply triple_bind; [apply triple_with_args, (triple_ask _ _ _ _ (λ repos tr,
    needed_levels gt team tr (repo_actions (ot_Repos team) (repo_levels repos)))); [by left|]|].
  { intros tr repos _ Ha. exists repos. split; [exact (answered_now _ _ _ Ha)|done]. }
  intros repos. cbn beta zeta. set (actions := repo_actions _ _).
  assert (stable (λ tr, needed_levels gt team tr actions)) as Hst by (unfold needed_levels; auto 10 with prow).
  eapply triple_bind.
  { apply (triple_each _ _ _ (λ rp, answered (on_change gh) (repo_call (gt_ID gt) orgName rp) (λ _, True)));
      [exact Hst|auto with prow|].
    intros [r p] Hrp%elem_of_map_range. apply triple_with_args, triple_ask.
    - intros tr Hn. right. exists name, team, gt, actions, r, p. split_and!; try done.
      apply Hsub. constructor. apply lookup_singleton_eq.
    - intros tr [] _ Ha. by eapply answered_weaken; [exact (answered_now _ _ _ Ha)|]. }
  intros errs. cbn beta.
  eapply triple_bind.
  { eapply triple_weaken; [apply (triple_frame _ (λ tr, needed_levels gt team tr actions ∧ (errs = [] → ∀ rp,
      rp ∈ map_range actions → answered (on_change gh) (repo_call (gt_ID gt) orgName rp) (λ _, True) tr)) (λ _, True))|].
    - auto 10 with prow.
    - apply (triple_each _ _ _ subtree_levels); [auto with prow|apply stable_subtree_levels|].
      intros [cn child] Hc%elem_of_map_range. apply triple_with_args, IH. intros n' t' Hn. apply Hsub.
      eapply forest_below; [apply lookup_singleton_eq|]. apply in_forest_single. by exists cn, child.
    - intros tr [Hn Hr]. split; [|done]. split; [done|]. intros He. by apply Hr. }
  intros errs'. cbn beta. apply triple_lift. intros u tr He%NewAggregate_result [[Hn Hr] [_ Hch]].
  destruct (Hch He) as [He' Hall]. specialize (Hr He'). intros n t Hin. cbn [fst snd] in Hin.
  inversion Hin as [? ? ? Hs|? ? ? ? ? Hs Hb]; subst; apply lookup_singleton_Some in Hs as [<- <-].
  - exists gt, actions. split_and!; [done..|]. intros r p Hrp. apply (Hr (r, p)). by apply elem_of_map_range.
  - apply in_forest_single in Hb as (n1 & t1 & Hl & Hb). by apply (Hall (n1, t1)); [apply elem_of_map_range|].
Qed.
End nested_proofs.

(** ** The recursion ends

    With as much fuel as a team is high nothing runs out of it. *)

Lemma height_forest t : height t = S (forest_height (ot_Children t)).
Proof. by destruct t. Qed.
Lemma height_child t n c : ot_Children t !! n = Some c → S (height c) ≤ height t.
Proof. intros Hc%forest_height_child. rewrite !height_forest. lia. Qed.
Lemma height_in_forest m n t : m !! n = Some t → height t ≤ forest_height m.
Proof. intros Hc%forest_height_child. rewrite height_forest. lia. Qed.

Section total_proofs.
Context `{GoRange} (gh : OrgGitHub) (opt : options) (orgName : string) (githubTeams : gmap string github_Team).

Lemma configureTeam_total n team gt parent : total (configureTeam gh orgName n team gt parent).
Proof. unfold configureTeam. destruct (team_patch n team gt parent) as [[] e]; auto with prow. Qed.

Lemma configureTeamMembers_total gt team : total (configureTeamMembers gh gt team).
Proof.
  intros tr. pose proof (configureTeamMembers_ok gh gt team tr) as Hok.
  destruct (configureTeamMembers gh gt team tr) as [tr' out]. by destruct Hok.
Qed.

Lemma configureTeamAndMembers_total fuel parent nt :
  height nt.2 ≤ fuel → total (configureTeamAndMembers gh opt fuel githubTeams orgName parent nt).
Proof.
  revert parent nt. induction fuel as [|fuel IH]; intros parent [name team] Hf; cbn [snd] in Hf.
  { rewrite height_forest in Hf. lia. }
  cbn [configureTeamAndMembers]. destruct (githubTeams !! name) as [gt|]; [|apply total_err].
  apply total_bind; [apply total_outcome, configureTeam_total|]. intros u.
  apply total_bind.
  { apply total_if; [apply total_outcome, configureTeamMembers_total|apply total_ret]. }
  intros u'. apply total_for_each. intros [cn child] Hc%elem_of_map_range.
  apply total_outcome, IH. cbn [snd]. apply height_child in Hc. lia.
Qed.

Lemma configureTeamRepos_total fuel nt :
  height nt.2 ≤ fuel → total (configureTeamRepos gh fuel githubTeams orgName nt).
Proof.
  revert nt. induction fuel as [|fuel IH]; intros [name team] Hf; cbn [snd] in Hf.
  { rewrite height_forest in Hf. lia. }
  cbn [configureTeamRepos]. destruct (githubTeams !! name) as [gt|]; [|apply total_err].
  apply total_bind; [apply total_outcome, total_ask|]. intros repos. cbn zeta.
  apply total_bind; [apply total_each; intros; apply total_outcome, total_ask|]. intros errs.
  apply total_bind; [|intros; apply total_lift].
  apply total_each. intros [cn child] Hc%elem_of_map_range. apply total_outcome, IH. cbn [snd].
  apply height_child in Hc. lia.
Qed.

Lemma create_teams_total todo matches used failures : total (create_teams gh orgName todo matches used failures).
Proof.
  revert matches used failures. induction todo as [|[n team] todo IH]; intros matches used failures; cbn [create_teams];
    [apply total_ret|]. apply total_bind; [apply total_outcome, total_ask|]. intros []; apply IH.
Qed.
Lemma delete_teams_total ids todo failures : total (delete_teams gh ids todo failures).
Proof.
  revert failures. induction todo as [|id todo IH]; intros failures; cbn [delete_teams]; [apply total_ret|].
  apply total_bind; [apply total_outcome, total_ask|]. intros r. apply IH.
Qed.
Lemma team_failures_total {A} fmt failures (a : A) : total (team_failures fmt failures a).
Proof. destruct failures; [apply total_ret|apply total_err]. Qed.

Lemma configureTeams_total cfg : total (configureTeams gh opt orgName cfg).
Proof.
  unfold configureTeams. apply total_bind; [apply total_lift|]. intros u.
  apply total_bind; [apply total_outcome, total_ask|]. intros l. cbn zeta. apply total_if; [apply total_err|].
  apply total_bind; [apply create_teams_total|]. intros [[matches used] failures].
  apply total_bind; [apply team_failures_total|]. intros u'.
  apply total_bind; [apply delete_teams_total|]. intros fs. apply team_failures_total.
Qed.
End total_proofs.

(** ** Examples *)

#[local] Existing Instance listing_order.

Definition w_team (privacy : option string) (children : gmap string org_Team) (previously : list string) : org_Team :=
  mkOrgTeam (Some "new") privacy [] [] children previously ∅.
Definition w_hub_team (id : Z) (name : string) (parent : option github_Team) : github_Team :=
  mkGitHubTeam id name "" "old" PrivacyClosed parent None "".

(** Whenever a nested team that is nested right gets another description, what is sent
    takes it out of its parent; the next run puts it back. *)
Example description_unnests :
  let leads := w_hub_team 1 "leads" None in
  let '(patch, e) := team_patch "docs" (w_team None ∅ []) (w_hub_team 2 "docs" (Some leads)) (Some 1%Z) in
  patch = true ∧ after_edit (w_hub_team 2 "docs" (Some leads)) e = mkTeamView "docs" "new" PrivacyClosed None.
Proof. vm_compute. done. Qed.

(** Only top-level names are checked: two teams called a at different places pass, and
    both are the same team of GitHub. *)
Example nested_names_unchecked :
  let cfg := mkOrgConfig (mkOrgMetadata None None None None None None None None None None)
    {["a" := w_team None ∅ []; "b" := w_team None {["a" := w_team None ∅ []]} []]} [] [] ∅ in
  validateTeamNames cfg = Ok tt ∧
  mt_missing (match_config w_options cfg [w_hub_team 1 "a" None; w_hub_team 2 "b" None]) = ∅ ∧
  unused_teams w_options cfg [w_hub_team 1 "a" None; w_hub_team 2 "b" None] = ∅.
Proof. split; [vm_compute; reflexivity|]. split; vm_compute; reflexivity. Qed.
