(* ===== verification/Peribolos.v ===== *)
(** * Peribolos (cmd/peribolos/main.go)

    The settings of an organization, and the whole of what peribolos does to one:
    settings, people, repositories and teams. *)

From S2P Require Import Prelude Api GoText Handler OrgConfig OrgMembers OrgRepos OrgTeams.
From Stdlib Require Import SpecFloat.
#[local] Open Scope go_scope.

(** ** Settings *)

(** [updateString] and [updateBool]: whether something changes, and the new value. *)
Definition update_field {A} `{EqDecision A} (have : A) (want : option A) : bool * A :=
  match want with
  | None => (false, have)
  | Some w => if bool_decide (have = w) then (false, have) else (true, w)
  end.
Definition updateString : string → option string → bool * string := update_field.
Definition updateBool : bool → option bool → bool * bool := update_field.

(** A wanted default permission overwrites whether something changed before. *)
Definition org_update (cur : Organization) (want : org_Metadata) : bool * Organization :=
  let '(c1, billing) := updateString (go_BillingEmail cur) (md_BillingEmail want) in
  let '(c2, company) := updateString (go_Company cur) (md_Company want) in
  let '(c3, email) := updateString (go_Email cur) (md_Email want) in
  let '(c4, name) := updateString (go_Name cur) (md_Name want) in
  let '(c5, description) := updateString (go_Description cur) (md_Description want) in
  let '(c6, location) := updateString (go_Location cur) (md_Location want) in
  let change := c1 || c2 || c3 || c4 || c5 || c6 in
  let '(c7, permission) := updateString (go_DefaultRepositoryPermission cur) (md_DefaultRepositoryPermission want) in
  let change := if set (md_DefaultRepositoryPermission want) then c7 else change in
  let '(c8, orgProjects) := updateBool (go_HasOrganizationProjects cur) (md_HasOrganizationProjects want) in
  let '(c9, repoProjects) := updateBool (go_HasRepositoryProjects cur) (md_HasRepositoryProjects want) in
  let '(c10, create) := updateBool (go_MembersCanCreateRepositories cur) (md_MembersCanCreateRepositories want) in
  (change || c8 || c9 || c10,
   mkOrganization billing company email location name description orgProjects repoProjects permission create).

Section peribolos.
Context `{GoRange} (gh : OrgGitHub) (opt : options).

Definition configureOrgMeta (orgName : string) (want : org_Metadata) : H OrgCall unit :=
  let! cur := with_args "failed to get %s metadata: %v" [AStr orgName] (ask (on_org gh) (GetOrg orgName)) in
  let '(change, cur) := org_update cur want in
  if change then
    with_args "failed to edit %s metadata: %v" [AStr orgName] (ask (on_change gh) (EditOrg orgName cur))
  else hret tt.

(** ** An organization *)

Definition team_and_repos (orgName : string) (githubTeams : gmap string github_Team) (nt : string * org_Team)
    : H OrgCall unit :=
  let! _ := with_args "failed to configure %s teams: %v" [AStr orgName]
    (configureTeamAndMembers gh opt (height nt.2) githubTeams orgName None nt) in
  if opt_fixTeamRepos opt then
    with_args "failed to configure %s team %s repos: %v" [AStr orgName; AStr nt.1]
      (configureTeamRepos gh (height nt.2) githubTeams orgName nt)
  else hret tt.

Definition configure_teams_if (orgName : string) (orgConfig : org_Config) : H OrgCall unit :=
  if opt_fixTeams opt then
    let! githubTeams := with_args "failed to configure %s teams: %v" [AStr orgName]
      (configureTeams gh opt orgName orgConfig) in
    for_each (team_and_repos orgName githubTeams) (map_range (oc_Teams orgConfig))
  else hret tt.

Definition configureOrg (orgName : string) (orgConfig : org_Config) : H OrgCall unit :=
  let! _ := if opt_fixOrg opt then configureOrgMeta orgName (oc_Metadata orgConfig) else hret tt in
  let! invitees := with_args "failed to list %s invitations: %v" [AStr orgName]
    (orgInvitations gh opt orgName) in
  let! _ := if opt_fixOrgMembers opt then
      with_args "failed to configure %s members: %v" [AStr orgName]
        (configureOrgMembers gh opt orgName orgConfig invitees)
    else hret tt in
  let! _ := if opt_fixRepos opt then
      with_args "failed to configure %s repos: %v" [AStr orgName] (configureRepos gh opt orgName orgConfig)
    else hret tt in
  configure_teams_if orgName orgConfig.

(** The loop of [main] over the configured organizations. *)
Definition configure_orgs (orgs : gmap string org_Config) : H OrgCall unit :=
  for_each (λ nc, configureOrg nc.1 nc.2) (map_range orgs).
End peribolos.

(** ** Dumping an organization *)

(** Defaults need not be written down; those of projects depend on the organization. *)
Definition prune {A} `{EqDecision A} (p : option A) (def : A) : option A :=
  if bool_decide (p = Some def) then None else p.
Definition pruneRepoDefaults (repo : org_Repo) : org_Repo :=
  mkOrgRepo (prune (or_Description repo) "") (prune (or_HomePage repo) "") (prune (or_Private repo) false)
    (prune (or_HasIssues repo) true) (or_HasProjects repo) (prune (or_HasWiki repo) true)
    (prune (or_AllowSquashMerge repo) true) (prune (or_AllowMergeCommit repo) true)
    (prune (or_AllowRebaseMerge repo) true) (prune (or_DefaultBranch repo) "master")
    (prune (or_Archived repo) false) (or_Previously repo) (or_OnCreate repo).

Definition dump_metadata (meta : Organization) : org_Metadata :=
  mkOrgMetadata (Some (go_BillingEmail meta)) (Some (go_Company meta)) (Some (go_Email meta))
    (Some (go_Name meta)) (Some (go_Description meta)) (Some (go_Location meta))
    (Some (go_HasOrganizationProjects meta)) (Some (go_HasRepositoryProjects meta))
    (Some (go_DefaultRepositoryPermission meta)) (Some (go_MembersCanCreateRepositories meta)).

Definition dump_repo (full : FullRepo) : org_Repo :=
  let r := fr_Repo full in
  pruneRepoDefaults
    (mkOrgRepo (Some (hr_Description r)) (Some (hr_Homepage r)) (Some (hr_Private r)) (Some (hr_HasIssues r))
       (Some (hr_HasProjects r)) (Some (hr_HasWiki r)) (Some (fr_AllowSquashMerge full))
       (Some (fr_AllowMergeCommit full)) (Some (fr_AllowRebaseMerge full)) (Some (hr_DefaultBranch r))
       (Some (hr_Archived r)) [] None).

(** What is known of the teams: [names], [idMap], [children] and [tops]. *)
Record dumped_teams := mkDumpedTeams {
  dt_names : gmap Z string; dt_idMap : gmap Z org_Team; dt_children : gmap Z (list Z); dt_tops : list Z }.

Definition note_dumped (t : github_Team) (nt : org_Team) (d : dumped_teams) : dumped_teams :=
  let names := <[gt_ID t := gt_Name t]> (dt_names d) in
  let idMap := <[gt_ID t := nt]> (dt_idMap d) in
  match gt_Parent t with
  | None => mkDumpedTeams names idMap (dt_children d) (dt_tops d ++ [gt_ID t])
  | Some p => mkDumpedTeams names idMap (map_append (gt_ID p) (gt_ID t) (dt_children d)) (dt_tops d)
  end.

(** [makeChild]: the zero team for an unknown ID; a cycle of parents exhausts the stack. *)
Definition zero_team : org_Team := mkOrgTeam None None [] [] ∅ [] ∅.
Definition with_children (t : org_Team) (children : gmap string org_Team) : org_Team :=
  mkOrgTeam (ot_Description t) (ot_Privacy t) (ot_Members t) (ot_Maintainers t) children
    (ot_Previously t) (ot_Repos t).
Fixpoint makeChild (fuel : nat) (d : dumped_teams) (id : Z) : option org_Team :=
  match fuel with
  | 0 => None
  | S fuel =>
      let t := default zero_team (dt_idMap d !! id) in
      children ← foldl (λ acc cid, acc ← acc; child ← makeChild fuel d cid;
          Some (<[default "" (dt_names d !! cid) := child]> acc))
        (Some (ot_Children t)) (default [] (dt_children d !! id));
      Some (with_children t children)
  end.

Section dump.
Context (gh : OrgGitHub).

Definition dump_team (t : github_Team) : H OrgCall org_Team :=
  let! maintainers := with_args "failed to list team %d(%s) maintainers: %v" [AInt (gt_ID t); AStr (gt_Name t)]
    (ask (on_logins gh) (ListTeamMembers (gt_ID t) RoleMaintainer)) in
  let! plain := with_args "failed to list team %d(%s) members: %v" [AInt (gt_ID t); AStr (gt_Name t)]
    (ask (on_logins gh) (ListTeamMembers (gt_ID t) RoleMember)) in
  let! repos := with_args "failed to list team %d(%s) repos: %v" [AInt (gt_ID t); AStr (gt_Name t)]
    (ask (on_repos gh) (ListTeamRepos (gt_ID t))) in
  hret (mkOrgTeam (Some (gt_Description t)) (Some (gt_Privacy t)) plain maintainers ∅ [] (repo_levels repos)).

Fixpoint dump_teams (ignoreSecretTeams : bool) (teams : list github_Team) (d : dumped_teams)
    : H OrgCall dumped_teams :=
  match teams with
  | [] => hret d
  | t :: teams =>
      if ignoreSecretTeams && bool_decide (gt_Privacy t = Secret) then dump_teams ignoreSecretTeams teams d
      else let! nt := dump_team t in dump_teams ignoreSecretTeams teams (note_dumped t nt d)
  end.

Fixpoint make_tops (d : dumped_teams) (tops : list Z) (teams : gmap string org_Team) : option (gmap string org_Team) :=
  match tops with
  | [] => Some teams
  | id :: tops =>
      t ← makeChild (S (size (dt_idMap d))) d id;
      make_tops d tops (<[default "" (dt_names d !! id) := t]> teams)
  end.

Fixpoint dump_repos (orgName : string) (repos : list hub_Repo) (out : gmap string org_Repo)
    : H OrgCall (gmap string org_Repo) :=
  match repos with
  | [] => hret out
  | repo :: repos =>
      let! full := with_err "failed to get repo: %v" (ask (on_repo gh) (GetRepo orgName (hr_Name repo))) in
      dump_repos orgName repos (<[fr_Name full := dump_repo full]> out)
  end.

Definition dumpOrgConfig (orgName : string) (ignoreSecretTeams : bool) : H OrgCall org_Config :=
  let! meta := with_err "failed to get org: %v" (ask (on_org gh) (GetOrg orgName)) in
  let! runningAs := outcome (λ r, match r with
      | Err _ => Err (Errorf "failed to obtain username for this token" []) | r => r end)
    (ask (on_bot gh) BotName) in
  let! admins := with_err "failed to list org admins: %v" (ask (on_logins gh) (ListOrgMembers orgName RoleAdmin)) in
  if bool_decide (runningAs ∉ admins) then herr (Errorf "--dump must be run with admin:org scope token" []) else
  let! orgMembers := with_err "failed to list org members: %v"
    (ask (on_logins gh) (ListOrgMembers orgName RoleMember)) in
  let! teamList := with_err "failed to list teams: %v" (ask (on_teams gh) (ListTeams orgName)) in
  let! d := dump_teams ignoreSecretTeams teamList (mkDumpedTeams ∅ ∅ ∅ []) in
  let! teams := deref (make_tops d (dt_tops d) ∅) in
  let! repos := with_err "failed to list org repos: %v" (ask (on_repos gh) (GetRepos orgName)) in
  let! out := dump_repos orgName repos ∅ in
  hret (mkOrgConfig (dump_metadata meta) teams orgMembers admins out).
End dump.

(** ** Settings end as wanted, unless a change is forgotten *)

Definition settings_wanted (want : org_Metadata) (o : Organization) : Prop :=
  given (md_BillingEmail want) (go_BillingEmail o) ∧ given (md_Company want) (go_Company o) ∧
  given (md_Email want) (go_Email o) ∧ given (md_Name want) (go_Name o) ∧
  given (md_Description want) (go_Description o) ∧ given (md_Location want) (go_Location o) ∧
  given (md_DefaultRepositoryPermission want) (go_DefaultRepositoryPermission o) ∧
  given (md_HasOrganizationProjects want) (go_HasOrganizationProjects o) ∧
  given (md_HasRepositoryProjects want) (go_HasRepositoryProjects o) ∧
  given (md_MembersCanCreateRepositories want) (go_MembersCanCreateRepositories o).

Lemma update_field_ok {A} `{EqDecision A} (have : A) (want : option A) :
  given want (update_field have want).2 ∧ ((update_field have want).1 = false ↔ given want have).
Proof.
  unfold update_field, given. destruct want as [w|]; [|by split; [|split]].
  case_bool_decide as Hd; cbn; (split; [by intros ? [= <-]|]); split; try done.
  - by intros _ ? [= <-].
  - intros Hw. by destruct (Hd (Hw w eq_refl)).
Qed.

(** The edit [o] sends the wanted settings, and what there is of the others. *)
Definition settings_edit (want : org_Metadata) (cur o : Organization) : Prop :=
  go_BillingEmail o = default (go_BillingEmail cur) (md_BillingEmail want) ∧
  go_Company o = default (go_Company cur) (md_Company want) ∧
  go_Email o = default (go_Email cur) (md_Email want) ∧
  go_Location o = default (go_Location cur) (md_Location want) ∧
  go_Name o = default (go_Name cur) (md_Name want) ∧
  go_Description o = default (go_Description cur) (md_Description want) ∧
  go_HasOrganizationProjects o = default (go_HasOrganizationProjects cur) (md_HasOrganizationProjects want) ∧
  go_HasRepositoryProjects o = default (go_HasRepositoryProjects cur) (md_HasRepositoryProjects want) ∧
  go_DefaultRepositoryPermission o = default (go_DefaultRepositoryPermission cur) (md_DefaultRepositoryPermission want) ∧
  go_MembersCanCreateRepositories o =
    default (go_MembersCanCreateRepositories cur) (md_MembersCanCreateRepositories want).

Lemma update_field_value {A} `{EqDecision A} (have : A) (want : option A) :
  (update_field have want).2 = default have want.
Proof. unfold update_field. destruct want as [w|]; [|done]. by case_bool_decide. Qed.

Lemma org_update_edit cur want : settings_edit want cur (org_update cur want).2.
Proof.
  unfold org_update, settings_edit, updateString, updateBool.
  repeat match goal with |- context [update_field ?h ?w] =>
    pose proof (update_field_value h w); destruct (update_field h w) as [? ?] end.
  cbn [snd] in *. cbn. by split_and!.
Qed.

(** The default permission is wanted as it is: then a text that is not as wanted goes
    unnoticed, but no flag does. *)
Definition texts_forgotten (want : org_Metadata) (cur : Organization) : Prop :=
  md_DefaultRepositoryPermission want = Some (go_DefaultRepositoryPermission cur) ∧
  given (md_HasOrganizationProjects want) (go_HasOrganizationProjects cur) ∧
  given (md_HasRepositoryProjects want) (go_HasRepositoryProjects cur) ∧
  given (md_MembersCanCreateRepositories want) (go_MembersCanCreateRepositories cur).

Lemma org_update_none cur want :
  (org_update cur want).1 = false → settings_wanted want cur ∨ texts_forgotten want cur.
Proof.
  unfold org_update, settings_wanted, texts_forgotten, updateString, updateBool.
  repeat match goal with |- context [update_field ?h ?w] =>
    pose proof (proj2 (update_field_ok h w)); destruct (update_field h w) as [? ?] end.
  cbn [fst snd] in *. intros Hc. rewrite !orb_false_iff in Hc. destruct Hc as [[[Hc ?] ?] ?].
  destruct (md_DefaultRepositoryPermission want) as [w|]; cbn in Hc.
  - right. assert (given (Some w) (go_DefaultRepositoryPermission cur)) as Hg by tauto.
    rewrite (Hg w eq_refl). tauto.
  - left. rewrite !orb_false_iff in Hc. split_and!; try tauto. by intros w.
Qed.

Lemma org_update_needed cur want : (org_update cur want).1 = true → ¬ settings_wanted want cur.
Proof.
  unfold org_update, settings_wanted, updateString, updateBool. intros Hc Hw. revert Hc.
  repeat match goal with |- context [update_field ?h ?w] =>
    pose proof (proj2 (update_field_ok h w)); destruct (update_field h w) as [[] ?]; cbn [fst] in *; [exfalso; naive_solver|] end.
  by destruct (set _).
Qed.

(** ** All of an organization *)

Section org_spec.
Context `{GoRange} (gh : OrgGitHub) (opt : options) (orgName : string) (cfg : org_Config).

Definition meta_allowed (tr : list OrgCall) (c : OrgCall) : Prop :=
  ∃ cur o, answered (on_org gh) (GetOrg orgName) (λ o, o = cur) tr ∧
    ¬ settings_wanted (oc_Metadata cfg) cur ∧ c = EditOrg orgName o ∧ settings_edit (oc_Metadata cfg) cur o.
Definition meta_done (tr : list OrgCall) : Prop :=
  ∃ cur, answered (on_org gh) (GetOrg orgName) (λ o, o = cur) tr ∧
    (settings_wanted (oc_Metadata cfg) cur ∨ texts_forgotten (oc_Metadata cfg) cur ∨
     ∃ o, settings_edit (oc_Metadata cfg) cur o ∧ answered (on_change gh) (EditOrg orgName o) (λ _, True) tr).

Definition invited (tr : list OrgCall) (invitees : gset string) : Prop :=
  ∃ l, answered (on_logins gh) (ListOrgInvitations orgName) (λ x, x = l) tr ∧
    invitees = set_of (NormLogin <$> filter (λ login, login ≠ "") l).
Definition org_member_changes (tr : list OrgCall) (cs : list OrgCall) : Prop :=
  ∃ invitees plain admins, invited tr invitees ∧
    answered (on_logins gh) (ListOrgMembers orgName RoleAdmin) (λ l, l = admins) tr ∧
    answered (on_logins gh) (ListOrgMembers orgName RoleMember) (λ l, l = plain) tr ∧
    (opt_requireSelf opt = true → answered (on_bot gh) BotName (λ me, me ∈ oc_Admins cfg) tr) ∧
    org_checked opt cfg (org_have plain admins) ∧
    cs = membership_changes (UpdateOrgMembership orgName) (RemoveOrgMembership orgName)
      (normalized (org_have plain admins)) (normalized (org_want cfg)) invitees.

(** The calls peribolos may make, each kind only where its flag is set. *)
Definition org_allowed (tr : list OrgCall) (c : OrgCall) : Prop :=
  is_change c = false ∨
  (opt_fixOrg opt = true ∧ meta_allowed tr c) ∨
  (opt_fixOrgMembers opt = true ∧ ∃ cs, org_member_changes tr cs ∧ c ∈ cs) ∨
  (opt_fixRepos opt = true ∧ repo_allowed gh opt orgName (oc_Repos cfg) tr c) ∨
  (opt_fixTeams opt = true ∧
    (team_allowed gh opt orgName cfg tr c ∨
     ∃ githubTeams, teams_result gh opt orgName cfg githubTeams tr ∧
       (nested_allowed gh opt githubTeams (oc_Teams cfg) tr c ∨
        opt_fixTeamRepos opt = true ∧ team_repos_allowed gh orgName githubTeams (oc_Teams cfg) tr c))).

(** What is as configured in the end. *)
Definition org_done (tr : list OrgCall) : Prop :=
  (opt_fixOrg opt = true → meta_done tr) ∧
  (opt_fixOrgMembers opt = true → ∃ cs, org_member_changes tr cs ∧ ∀ c, c ∈ cs → carried_out gh c tr) ∧
  (opt_fixRepos opt = true → ∀ name repo, oc_Repos cfg !! name = Some repo → repo_configured gh orgName name repo tr) ∧
  (opt_fixTeams opt = true → ∃ githubTeams, teams_result gh opt orgName cfg githubTeams tr ∧
     ∀ nt, nt ∈ map_range (oc_Teams cfg) → subtree_configured gh opt githubTeams None nt tr ∧
       (opt_fixTeamRepos opt = true → subtree_levels gh orgName githubTeams nt tr)).

Definition or_read (S : list OrgCall → OrgCall → Prop) (tr : list OrgCall) (c : OrgCall) : Prop :=
  is_change c = false ∨ S tr c.

Lemma configureOrgMeta_ok :
  triple (or_read meta_allowed) (λ _, True) (configureOrgMeta gh orgName (oc_Metadata cfg)) (λ _, meta_done).
Proof.
  unfold configureOrgMeta. eapply triple_bind; [apply triple_with_args, (triple_ask _ _ _ _ (λ cur,
    answered (on_org gh) (GetOrg orgName) (λ o, o = cur))); [by left|]|].
  { intros tr cur _ Ha. exact (answered_now _ _ _ Ha). }
  intros cur. cbn beta. pose proof (org_update_edit cur (oc_Metadata cfg)) as He.
  pose proof (org_update_none cur (oc_Metadata cfg)) as Hnone.
  pose proof (org_update_needed cur (oc_Metadata cfg)) as Hneed.
  destruct (org_update cur (oc_Metadata cfg)) as [[] o]; cbn [fst snd] in *.
  - apply triple_with_args, triple_ask.
    + intros tr Hc. right. exists cur, o. split_and!; [done|by apply Hneed|done..].
    + intros tr [] Hc Ha. exists cur. split; [by apply stable_answered|]. right. right. exists o. split; [done|].
      by eapply answered_weaken; [exact (answered_now _ _ _ Ha)|].
  - apply triple_ret. intros tr Hc. exists cur. split; [done|]. destruct (Hnone eq_refl); auto.
Qed.

Lemma orgInvitations_ok (S : list OrgCall → OrgCall → Prop) :
  (∀ tr c, is_change c = false → S tr c) →
  triple S (λ _, True) (orgInvitations gh opt orgName)
    (λ invitees tr, opt_fixOrgMembers opt = true → invited tr invitees).
Proof.
  intros HS. unfold orgInvitations. apply triple_if; intros Hf.
  - apply triple_ret. intros tr _ Hm. by rewrite Hm in Hf.
  - eapply triple_bind; [apply (triple_ask _ _ _ _ (λ l, answered (on_logins gh) (ListOrgInvitations orgName)
      (λ x, x = l))); [by intros; apply HS|]|].
    + intros tr l _ Ha. exact (answered_now _ _ _ Ha).
    + intros l. apply triple_ret. intros tr Ha _. by exists l.
Qed.

Lemma stable_org_member_changes cs : stable (λ tr, org_member_changes tr cs).
Proof. unfold org_member_changes, invited. auto 30 with prow. Qed.

Lemma configureOrgMembers_triple invitees :
  triple (or_read (λ tr c, ∃ cs, org_member_changes tr cs ∧ c ∈ cs)) (λ tr, invited tr invitees)
    (configureOrgMembers gh opt orgName cfg invitees)
    (λ _ tr, ∃ cs, org_member_changes tr cs ∧ ∀ c, c ∈ cs → carried_out gh c tr).
Proof.
  intros tr Hinv. pose proof (configureOrgMembers_ok gh opt orgName cfg invitees tr) as Hok.
  destruct (configureOrgMembers _ _ _ _ _ _) as [tr' out].
  destruct Hok as [(new & e & -> & Hn & ->)|(self & plain & admins & Ha & Hp & Hself & Hck & _ & -> & Hd)].
  { exists new. cbn. split_and!; [done| |done]. intros before c after ->. left. apply Hn, elem_of_app.
    right. left. }
  set (changes := membership_changes _ _ _ _ _) in *.
  set (reads := self ++ [ListOrgMembers orgName RoleAdmin; ListOrgMembers orgName RoleMember]).
  assert ((tr ++ self ++ [ListOrgMembers orgName RoleAdmin]) ++ [ListOrgMembers orgName RoleMember] = tr ++ reads)
    as Er by (unfold reads; by rewrite <- !app_assoc). rewrite Er in *.
  assert (no_change reads) as Hn.
  { apply no_change_app; [by eapply self_checked_no_change|]. repeat apply no_change_cons; auto using no_change_nil. }
  assert (∀ post, org_member_changes ((tr ++ reads) ++ post) changes) as Hch.
  { intros post. apply stable_org_member_changes. exists invitees, plain, admins. split_and!; [| | | |done|done].
    - destruct Hinv as (l & Hl & ->). exists l. split; [by apply stable_answered|done].
    - exists (tr ++ self), [ListOrgMembers orgName RoleMember], admins. unfold reads.
      split_and!; [by rewrite <- !app_assoc|by rewrite <- app_assoc|done].
    - exists (tr ++ self ++ [ListOrgMembers orgName RoleAdmin]), [], plain. by rewrite <- Er in *.
    - intros Hr. unfold self_checked in Hself. rewrite Hr in Hself. destruct Hself as (-> & me & Hme & Hin).
      exists tr. eexists _, me. split_and!; [reflexivity|done..]. }
  exists (reads ++ changes). cbn. rewrite <- !app_assoc in *. split_and!; [done| |].
  - intros before c after Heq. destruct (is_change c) eqn:Ec; [right|by left].
    destruct (change_after_reads _ _ _ _ _ Hn Heq Ec) as (b & -> & Hc). exists changes.
    rewrite app_assoc. by split.
  - intros [] ->. exists changes. rewrite !app_assoc in *. split; [apply Hch|by apply Hd].
Qed.

(** A step that is only taken if its flag is set, beside what held before. *)
Lemma triple_step (S : list OrgCall → OrgCall → Prop) (b : bool) m (P D : list OrgCall → Prop) :
  stable P → (b = true → triple S P m (λ _, D)) →
  triple S P (if b then m else hret tt) (λ _ tr, P tr ∧ (b = true → D tr)).
Proof.
  intros HP Hm. destruct b; [|by apply triple_ret].
  eapply triple_conseq; [apply (triple_frame _ P P), Hm; [done..]|done|]. intros [] tr [? ?]. by split.
Qed.

Definition teams_done (githubTeams : gmap string github_Team) (nt : string * org_Team) (tr : list OrgCall) : Prop :=
  subtree_configured gh opt githubTeams None nt tr ∧
  (opt_fixTeamRepos opt = true → subtree_levels gh orgName githubTeams nt tr).
Lemma stable_teams_done githubTeams nt : stable (teams_done githubTeams nt).
Proof.
  unfold teams_done. pose proof (stable_subtree_configured gh opt githubTeams None nt).
  pose proof (stable_subtree_levels gh orgName githubTeams nt). auto with prow.
Qed.

Lemma team_and_repos_ok githubTeams nt :
  opt_fixTeams opt = true → nt ∈ map_range (oc_Teams cfg) →
  triple org_allowed (teams_result gh opt orgName cfg githubTeams) (team_and_repos gh opt orgName githubTeams nt)
    (λ _, teams_done githubTeams nt).
Proof.
  intros Hf Hin. destruct nt as [name team]. apply elem_of_map_range in Hin.
  set (F := teams_result gh opt orgName cfg githubTeams).
  assert (stable F) as HF by apply stable_teams_result.
  unfold team_and_repos. cbn [fst snd]. eapply (triple_bind _ _ _ _ (λ _ tr, F tr ∧
    subtree_configured gh opt githubTeams None (name, team) tr)).
  - apply triple_with_args. apply (triple_allow (λ tr c, F tr ∧ nested_allowed gh opt githubTeams (oc_Teams cfg) tr c));
      [|eapply triple_conseq; [apply (triple_known F _ (λ _, True)); [done|apply configureTeamAndMembers_ok]
       |done|intros ? ? Hq; exact Hq]].
    + intros tr c [Hk Hc]. do 4 right. split; [done|]. right. exists githubTeams. split; [done|by left].
    + intros parent' n' t' Hn. by eapply nested_in_map.
  - intros u. eapply triple_conseq; [apply (triple_step _ (opt_fixTeamRepos opt) _ (λ tr, F tr ∧
      subtree_configured gh opt githubTeams None (name, team) tr) (subtree_levels gh orgName githubTeams (name, team)))| |].
    + pose proof (stable_subtree_configured gh opt githubTeams None (name, team)). auto with prow.
    + intros Hr. apply triple_with_args.
      apply (triple_allow (λ tr c, F tr ∧ team_repos_allowed gh orgName githubTeams (oc_Teams cfg) tr c));
        [|eapply triple_conseq; [apply (triple_known F _ (λ _, True)); [done|apply configureTeamRepos_ok]
         |by intros tr [? _]|intros ? tr [_ Hq]; exact Hq]].
      * intros tr c [Hk Hc]. do 4 right. split; [done|]. right. exists githubTeams. split; [done|by right].
      * intros n' t' Hn. apply in_forest_single. by exists name, team.
    + done.
    + intros u' tr [[_ Hs] Hl]. by split.
Qed.

Lemma configure_teams_if_ok :
  triple org_allowed (λ _, True) (configure_teams_if gh opt orgName cfg)
    (λ _ tr, opt_fixTeams opt = true → ∃ githubTeams, teams_result gh opt orgName cfg githubTeams tr ∧
       ∀ nt, nt ∈ map_range (oc_Teams cfg) → teams_done githubTeams nt tr).
Proof.
  unfold configure_teams_if. apply triple_if; intros Hf; [|apply triple_ret; congruence].
  eapply triple_bind; [apply triple_with_args; eapply triple_allow; [|apply configureTeams_ok]|].
  { intros tr c Hc. do 4 right. split; [done|]. by left. }
  intros githubTeams. cbn beta. eapply triple_conseq.
  - apply (triple_for_each _ org_allowed (teams_result gh opt orgName cfg githubTeams) (teams_done githubTeams)).
    + apply stable_teams_result.
    + apply stable_teams_done.
    + intros nt Hin. by apply team_and_repos_ok.
  - done.
  - intros u tr Hr _. by exists githubTeams.
Qed.

Lemma configureOrg_ok : triple org_allowed (λ _, True) (configureOrg gh opt orgName cfg) (λ _, org_done).
Proof.
  unfold configureOrg.
  assert (stable (λ tr, opt_fixOrg opt = true → meta_done tr)) as St1 by (unfold meta_done; auto 10 with prow).
  set (D1 := λ tr, opt_fixOrg opt = true → meta_done tr) in *.
  set (D2 := λ tr, opt_fixOrgMembers opt = true → ∃ cs, org_member_changes tr cs ∧ ∀ c, c ∈ cs → carried_out gh c tr).
  assert (stable D2) as St2.
  { pose proof stable_org_member_changes. pose proof (stable_carried_out gh). unfold D2. auto 10 with prow. }
  set (D3 := λ tr, opt_fixRepos opt = true → ∀ name repo, oc_Repos cfg !! name = Some repo →
    repo_configured gh orgName name repo tr).
  assert (stable D3) as St3 by (pose proof (stable_repo_configured gh orgName); unfold D3; auto 10 with prow).
  eapply (triple_bind _ _ _ _ (λ _, D1)).
  { eapply triple_conseq; [apply (triple_step _ _ _ (λ _, True) meta_done); [auto with prow|]|done|by intros u tr [_ ?]].
    intros Hf. eapply triple_allow; [|apply configureOrgMeta_ok].
    intros tr c [?|?]; [by left|right; by left]. }
  intros u1. eapply (triple_bind _ _ _ _ (λ invitees tr, D1 tr ∧ (opt_fixOrgMembers opt = true → invited tr invitees))).
  { eapply triple_conseq; [apply (triple_frame _ D1 (λ _, True)); [done|]; apply triple_with_args,
      (orgInvitations_ok org_allowed); by left|done|done]. }
  intros invitees. cbn beta. eapply (triple_bind _ _ _ _ (λ _ tr, D1 tr ∧ D2 tr)).
  { eapply triple_conseq; [apply (triple_step _ (opt_fixOrgMembers opt) _ (λ tr, D1 tr ∧
      (opt_fixOrgMembers opt = true → invited tr invitees)) (λ tr, ∃ cs, org_member_changes tr cs ∧
        ∀ c, c ∈ cs → carried_out gh c tr))| |].
    - unfold invited. auto 10 with prow.
    - intros Hf. apply triple_with_args. eapply triple_weaken; [eapply triple_allow; [|apply configureOrgMembers_triple]|].
      + intros tr c [?|?]; [by left|]. right. right. by left.
      + intros tr [_ Hi]. by apply Hi.
    - done.
    - intros u tr [[? _] ?]. by split. }
  intros u2. eapply (triple_bind _ _ _ _ (λ _ tr, (D1 tr ∧ D2 tr) ∧ D3 tr)).
  { apply triple_step; [auto with prow|]. intros Hf. apply triple_with_args.
    eapply triple_weaken; [eapply triple_allow; [|by apply configureRepos_ok]|done].
    intros tr c Hc. do 3 right. by left. }
  intros u3. eapply triple_conseq; [apply (triple_frame _ (λ tr, (D1 tr ∧ D2 tr) ∧ D3 tr) (λ _, True));
    [auto with prow|apply configure_teams_if_ok]|done|].
  intros u4 tr [[[? ?] ?] ?]. by split_and!.
Qed.

Lemma configureOrg_total : total (configureOrg gh opt orgName cfg).
Proof.
  unfold configureOrg. apply total_bind.
  { apply total_if; [|apply total_ret]. unfold configureOrgMeta.
    apply total_bind; [apply total_outcome, total_ask|]. intros cur.
    destruct (org_update cur (oc_Metadata cfg)) as [[] o]; auto with prow. }
  intros u1. apply total_bind; [apply total_outcome; unfold orgInvitations; auto with prow|].
  intros invitees. apply total_bind.
  { apply total_if; [apply total_outcome|apply total_ret]. intros tr.
    pose proof (configureOrgMembers_ok gh opt orgName cfg invitees tr) as Hok.
    destruct (configureOrgMembers _ _ _ _ _ _) as [tr' out].
    by destruct Hok as [(? & e & _ & _ & ->)|(? & ? & ? & _ & _ & _ & _ & ? & _)]. }
  intros u2. apply total_bind; [apply total_if; [apply total_outcome, configureRepos_total|apply total_ret]|].
  intros u3. unfold configure_teams_if. apply total_if; [|apply total_ret].
  apply total_bind; [apply total_outcome, configureTeams_total|]. intros gts.
  apply total_for_each. intros [name team] Hin. unfold team_and_repos.
  apply total_bind; [by apply total_outcome, configureTeamAndMembers_total|]. intros u4.
  apply total_if; [by apply total_outcome, configureTeamRepos_total|apply total_ret].
Qed.

End org_spec.

(** ** A witness and examples *)

#[local] Existing Instance listing_order.

Definition w_settings (billing permission : option string) : org_Metadata :=
  mkOrgMetadata billing None None None None None None None permission None.
Definition w_organization : Organization := mkOrganization "old@x.org" "" "" "" "o" "" true true "read" false.

(** The wanted billing address is forgotten if the wanted default permission is the
    current one. *)
Example forgotten_change :
  org_update w_organization (w_settings (Some "new@x.org") None) =
    (true, mkOrganization "new@x.org" "" "" "" "o" "" true true "read" false) ∧
  (org_update w_organization (w_settings (Some "new@x.org") (Some "read"))).1 = false.
Proof. vm_compute. done. Qed.

(** An organization with two admins, a member, and the teams leads and docs. *)
Definition w_leads : github_Team := w_hub_team 1 "leads" None.
Definition w_gh : OrgGitHub :=
  mkOrgGitHub (λ _, Ok w_organization) (λ _, Ok "bot")
    (λ calls, match last calls with
              | Some (ListOrgMembers _ r) => Ok (if bool_decide (r = RoleAdmin) then ["bot"; "Alice"] else ["c"])
              | Some (ListTeamMembers id r) =>
                  Ok (if bool_decide (r = RoleMember ∧ id = 1%Z) then ["c"] else [])
              | _ => Ok []
              end)
    (λ calls, Ok [])
    (λ _, Err (errors_New "")) (λ _, Ok [w_leads; w_hub_team 2 "docs" None; w_hub_team 3 "old" None])
    (λ calls, match last calls with Some (CreateTeam _ t) => Ok (w_hub_team 4 (gt_Name t) None) | _ => Ok w_leads end)
    (λ _, None) (λ _, Ok tt).
Definition w_org_config : org_Config :=
  mkOrgConfig (w_settings None None)
    {["leads" := mkOrgTeam None None ["c"; "alice"] [] {["writers" := mkOrgTeam None None [] [] ∅ ["docs"] {["r" := "write"]}]} [] ∅]}
    ["c"] ["bot"; "alice"] ∅.
Definition w_all_options : options :=
  mkOptions "config" true "" false (SFdiv 53 1024 (float64 1) (float64 2)) 2 true ["alice"] true true true true true true
    false false false 100 300 "token".

(** Team old is deleted, docs becomes writers below leads, Alice joins leads. *)
Example org_run :
  changes_of (configureOrg w_gh w_all_options "o" w_org_config []).1 =
  [DeleteTeam 3; UpdateTeamMembership 1 "alice" false;
   EditTeam (mkGitHubTeam 2 "writers" "" "" PrivacyClosed None (Some 1%Z) "");
   UpdateTeamRepo 2 "o" "r" "write"].
Proof. vm_compute. reflexivity. Qed.

