(* ===== verification/OrgDump.v ===== *)
(** * Dumping an organization and configuring it again (cmd/peribolos/main.go)

    The dump of an organization is a configuration of it: configuring the
    organization by its own dump changes nothing. *)

From S2P Require Import Prelude Api GoText Handler OrgConfig OrgMembers OrgRepos OrgTeams Peribolos.
From Stdlib Require Import SpecFloat.
#[local] Open Scope go_scope.

(** ** An organization at rest

    GitHub's answers while nobody changes anything and no invitation is pending;
    [on_...] say what it answers to changes. *)

Record hub_state := mkHubState {
  hs_org : Organization; hs_bot : string; hs_admins : list string; hs_plain : list string;
  hs_teams : list github_Team; hs_maintainers : Z → list string; hs_members : Z → list string;
  hs_team_repos : Z → list hub_Repo; hs_repos : list hub_Repo; hs_full : string → FullRepo }.

Definition hub (W : hub_state) (team : list OrgCall → result github_Team)
    (membership : list OrgCall → option client_error) (change : list OrgCall → result unit) : OrgGitHub :=
  mkOrgGitHub (λ _, Ok (hs_org W)) (λ _, Ok (hs_bot W))
    (λ calls, Ok match last calls with
      | Some (ListOrgMembers _ r) => if bool_decide (r = RoleAdmin) then hs_admins W else hs_plain W
      | Some (ListTeamMembers id r) => if bool_decide (r = RoleMaintainer) then hs_maintainers W id else hs_members W id
      | _ => []
      end)
    (λ calls, Ok match last calls with Some (ListTeamRepos id) => hs_team_repos W id | _ => hs_repos W end)
    (λ calls, match last calls with
      | Some (GetRepo _ name) => Ok (hs_full W name) | _ => Err (errors_New "no repository") end)
    (λ _, Ok (hs_teams W)) team membership change.

(** ** Handlers that only read and succeed *)

Section idle.
Context {A B : Type}.
Definition idle {A} (m : H OrgCall A) (a : A) : Prop :=
  ∀ tr, ∃ reads, m tr = (tr ++ reads, Some (Ok a)) ∧ no_change reads.

Lemma idle_ret (a : A) : idle (hret a) a.
Proof. intros tr. exists []. by rewrite app_nil_r; split; [|apply no_change_nil]. Qed.
Lemma idle_lift (r : result A) a : r = Ok a → idle (lift r) a.
Proof. intros -> tr. exists []. by rewrite app_nil_r; split; [|apply no_change_nil]. Qed.
Lemma idle_ask (f : list OrgCall → result A) c a :
  is_change c = false → (∀ tr, f (tr ++ [c]) = Ok a) → idle (ask f c) a.
Proof.
  intros Hc Hf tr. exists [c]. unfold ask. rewrite Hf. split; [done|]. by apply no_change_cons, no_change_nil.
Qed.
Lemma idle_bind (m : H OrgCall A) a (k : A → H OrgCall B) b : idle m a → idle (k a) b → idle (hbind m k) b.
Proof.
  intros Hm Hk tr. destruct (Hm tr) as (r1 & E1 & N1). destruct (Hk (tr ++ r1)) as (r2 & E2 & N2).
  exists (r1 ++ r2). rewrite app_assoc. split; [by erewrite hbind_ok|by apply no_change_app].
Qed.
Lemma idle_outcome (f : result A → result B) (m : H OrgCall A) a b :
  idle m a → f (Ok a) = Ok b → idle (outcome f m) b.
Proof.
  intros Hm Hf tr. destruct (Hm tr) as (r1 & E1 & N1). exists r1. split; [|done].
  unfold outcome. rewrite E1. cbn. by rewrite Hf.
Qed.
End idle.

Lemma idle_with_args {A} fmt args (m : H OrgCall A) a : idle m a → idle (with_args fmt args m) a.
Proof. intros Hm. by eapply idle_outcome. Qed.
Lemma idle_with_err {A} fmt (m : H OrgCall A) a : idle m a → idle (with_err fmt m) a.
Proof. intros Hm. by eapply idle_outcome. Qed.
Lemma idle_if (b : bool) m : (b = true → idle m tt) → idle (if b then m else hret tt) tt.
Proof. destruct b; [auto|intros; apply idle_ret]. Qed.
Lemma idle_for_each {A} (f : A → H OrgCall unit) l : (∀ a, a ∈ l → idle (f a) tt) → idle (for_each f l) tt.
Proof.
  induction l as [|a l IH]; intros Hf; cbn [for_each]; [apply idle_ret|].
  eapply idle_bind; [apply Hf; left|]. apply IH. intros; apply Hf; by right.
Qed.
Lemma idle_each {A} (f : A → H OrgCall unit) l : (∀ a, a ∈ l → idle (f a) tt) → idle (each f l []) [].
Proof.
  induction l as [|a l IH]; intros Hf; cbn [each]; [apply idle_ret|].
  eapply idle_bind; [eapply idle_outcome; [apply Hf; left|reflexivity]|].
  cbn [errs_of]. rewrite app_nil_r. apply IH. intros; apply Hf; by right.
Qed.

(** ** What the dump is *)

Section dump_proofs.
Context `{GoRange} (W : hub_state) (on_team : list OrgCall → result github_Team)
  (on_membership : list OrgCall → option client_error) (on_change : list OrgCall → result unit).
Context (opt : options) (orgName : string).
Notation gh := (hub W on_team on_membership on_change).

(** The teams that are looked at. *)
Definition teams_in : list github_Team := listed_teams opt (hs_teams W).

(** What is dumped of a team itself. *)
Definition own_team (t : github_Team) : org_Team :=
  mkOrgTeam (Some (gt_Description t)) (Some (gt_Privacy t)) (hs_members W (gt_ID t)) (hs_maintainers W (gt_ID t))
    ∅ [] (repo_levels (hs_team_repos W (gt_ID t))).
Definition dumped_all : dumped_teams :=
  foldl (λ d t, note_dumped t (own_team t) d) (mkDumpedTeams ∅ ∅ ∅ []) teams_in.
Definition dumped_repos : gmap string org_Repo :=
  foldl (λ out r, let full := hs_full W (hr_Name r) in <[fr_Name full := dump_repo full]> out) ∅ (hs_repos W).

Lemma dump_team_idle t : idle (dump_team gh t) (own_team t).
Proof.
  unfold dump_team. eapply idle_bind; [apply idle_with_args, idle_ask; [done|]; intros tr; cbn; by rewrite last_snoc|].
  eapply idle_bind; [apply idle_with_args, idle_ask; [done|]; intros tr; cbn; by rewrite last_snoc|].
  eapply idle_bind; [apply idle_with_args, idle_ask; [done|]; intros tr; cbn; by rewrite last_snoc|].
  cbn. apply idle_ret.
Qed.

Lemma dump_teams_idle ignore ts d :
  idle (dump_teams gh ignore ts d)
    (foldl (λ d t, note_dumped t (own_team t) d) d (filter (λ t, ¬ (ignore = true ∧ gt_Privacy t = Secret)) ts)).
Proof.
  revert d. induction ts as [|t ts IH]; intros d; cbn [dump_teams]; [apply idle_ret|].
  rewrite filter_cons. destruct (bool_decide_reflect (gt_Privacy t = Secret)) as [Hs|Hs], ignore; cbn [andb].
  - rewrite decide_False by tauto. apply IH.
  - rewrite decide_True by naive_solver. eapply idle_bind; [apply dump_team_idle|apply IH].
  - rewrite decide_True by tauto. eapply idle_bind; [apply dump_team_idle|apply IH].
  - rewrite decide_True by tauto. eapply idle_bind; [apply dump_team_idle|apply IH].
Qed.

Lemma dump_repos_idle repos out :
  idle (dump_repos gh orgName repos out)
    (foldl (λ out r, let full := hs_full W (hr_Name r) in <[fr_Name full := dump_repo full]> out) out repos).
Proof.
  revert out. induction repos as [|r repos IH]; intros out; cbn [dump_repos foldl]; [apply idle_ret|].
  eapply idle_bind; [apply idle_with_err, idle_ask; [done|]; intros tr; cbn; by rewrite last_snoc|apply IH].
Qed.

Lemma dumpOrgConfig_idle teams :
  hs_bot W ∈ hs_admins W → make_tops dumped_all (dt_tops dumped_all) ∅ = Some teams →
  idle (dumpOrgConfig gh orgName (opt_ignoreSecretTeams opt))
    (mkOrgConfig (dump_metadata (hs_org W)) teams (hs_plain W) (hs_admins W) dumped_repos).
Proof.
  intros Hbot Htops. unfold dumpOrgConfig.
  eapply idle_bind; [apply idle_with_err, idle_ask; [done|]; intros tr; reflexivity|].
  eapply idle_bind; [eapply idle_outcome; [apply idle_ask; [done|]; intros tr; reflexivity|reflexivity]|].
  eapply idle_bind; [apply idle_with_err, idle_ask; [done|]; intros tr; cbn; by rewrite last_snoc|].
  change (bool_decide (RoleAdmin = RoleAdmin)) with true. cbn beta iota.
  rewrite (bool_decide_eq_false_2 (_ ∉ _)) by auto.
  eapply idle_bind; [apply idle_with_err, idle_ask; [done|]; intros tr; cbn; by rewrite last_snoc|].
  eapply idle_bind; [apply idle_with_err, idle_ask; [done|]; intros tr; reflexivity|].
  apply (idle_bind _ dumped_all); [apply dump_teams_idle|].
  rewrite Htops. eapply idle_bind; [apply idle_ret|].
  eapply idle_bind; [apply idle_with_err, idle_ask; [done|]; intros tr; cbn; by rewrite last_snoc|].
  eapply idle_bind; [apply dump_repos_idle|]. apply idle_ret.
Qed.
End dump_proofs.

(** ** The tree of dumped teams *)

Lemma same_key {A K} (f : A → K) l t t' : NoDup (f <$> l) → t ∈ l → t' ∈ l → f t = f t' → t = t'.
Proof.
  intros Hnd [i Hi]%list_elem_of_lookup_1 [j Hj]%list_elem_of_lookup_1 Heq.
  assert (i = j) as ->; [|congruence].
  eapply NoDup_lookup; [exact Hnd|by rewrite list_lookup_fmap, Hi|]. rewrite list_lookup_fmap, Hj. cbn. by f_equal.
Qed.

Section tree.
Context (own : github_Team → org_Team) (ts : list github_Team).
Hypothesis own_plain : ∀ t, ot_Children (own t) = ∅.
Hypothesis ids : NoDup (gt_ID <$> ts).
Hypothesis names : NoDup (gt_Name <$> ts).

Definition parent_id (t : github_Team) : option Z := gt_ID <$> gt_Parent t.
Definition noted (l : list github_Team) : dumped_teams :=
  foldl (λ d t, note_dumped t (own t) d) (mkDumpedTeams ∅ ∅ ∅ []) l.

Lemma noted_snoc l t : noted (l ++ [t]) = note_dumped t (own t) (noted l).
Proof. unfold noted. by rewrite foldl_app. Qed.

Lemma note_dumped_maps t nt d :
  dt_names (note_dumped t nt d) = <[gt_ID t := gt_Name t]> (dt_names d) ∧
  dt_idMap (note_dumped t nt d) = <[gt_ID t := nt]> (dt_idMap d).
Proof. unfold note_dumped. by destruct (gt_Parent t). Qed.

Lemma noted_names l t : NoDup (gt_ID <$> l) → t ∈ l →
  dt_names (noted l) !! gt_ID t = Some (gt_Name t) ∧ dt_idMap (noted l) !! gt_ID t = Some (own t).
Proof.
  induction l as [|t0 l IH] using rev_ind; intros Hnd Ht; [by apply not_elem_of_nil in Ht|].
  rewrite noted_snoc. destruct (note_dumped_maps t0 (own t0) (noted l)) as [-> ->].
  apply elem_of_app in Ht as [Ht| ->%list_elem_of_singleton]; [|by rewrite !lookup_insert_eq].
  rewrite fmap_app in Hnd. apply NoDup_app in Hnd as (Hnd & Hdis & _).
  assert (gt_ID t0 ≠ gt_ID t) as Hne.
  { intros Heq. apply (Hdis (gt_ID t)); [by apply list_elem_of_fmap_2|]. rewrite <- Heq. left. }
  rewrite !lookup_insert_ne by done. by apply IH.
Qed.

Lemma noted_dom l id : is_Some (dt_idMap (noted l) !! id) → id ∈ gt_ID <$> l.
Proof.
  induction l as [|t0 l IH] using rev_ind.
  { intros [? Hx]. cbn in Hx. by rewrite lookup_empty in Hx. }
  rewrite noted_snoc. destruct (note_dumped_maps t0 (own t0) (noted l)) as [_ ->].
  rewrite fmap_app, elem_of_app. destruct (decide (gt_ID t0 = id)) as [<-|Hne]; [intros _; right; left|].
  rewrite lookup_insert_ne by done. auto.
Qed.

Lemma noted_size l : NoDup (gt_ID <$> l) → size (dt_idMap (noted l)) = length l.
Proof.
  induction l as [|t0 l IH] using rev_ind; intros Hnd; [done|].
  rewrite noted_snoc. destruct (note_dumped_maps t0 (own t0) (noted l)) as [_ ->].
  rewrite fmap_app in Hnd. apply NoDup_app in Hnd as (Hnd & Hdis & _).
  rewrite map_size_insert_None, IH, length_app; [cbn; lia|done|].
  apply eq_None_not_Some. intros Hs%noted_dom. apply (Hdis (gt_ID t0) Hs). left.
Qed.

Lemma noted_children l id :
  default [] (dt_children (noted l) !! id) = gt_ID <$> filter (λ t, parent_id t = Some id) l.
Proof.
  induction l as [|t0 l IH] using rev_ind; [by cbn; rewrite lookup_empty|].
  rewrite noted_snoc, filter_app, fmap_app, filter_cons, filter_nil. unfold note_dumped.
  destruct (gt_Parent t0) as [p|] eqn:Ep; cbn [dt_children].
  - assert (parent_id t0 = Some (gt_ID p)) as Hp by (unfold parent_id; by rewrite Ep).
    rewrite lookup_map_append, IH. destruct (decide (gt_ID p = id)) as [<-|Hne].
    + by rewrite decide_True by done.
    + rewrite decide_False by congruence. by rewrite app_nil_r.
  - assert (parent_id t0 = None) as Hp by (unfold parent_id; by rewrite Ep).
    rewrite IH, decide_False by congruence. by rewrite app_nil_r.
Qed.

Lemma noted_tops l : dt_tops (noted l) = gt_ID <$> filter (λ t, parent_id t = None) l.
Proof.
  induction l as [|t0 l IH] using rev_ind; [done|].
  rewrite noted_snoc, filter_app, fmap_app, <- IH. unfold note_dumped, parent_id.
  rewrite filter_cons, filter_nil. destruct (gt_Parent t0) as [p|] eqn:Ep; cbn [dt_tops].
  - by rewrite decide_False, app_nil_r by done.
  - by rewrite decide_True by done.
Qed.

(** [team] is the dump of [t] and of all that are nested in it. *)
Inductive dumped : github_Team → org_Team → Prop :=
| dumped_intro t m :
    (∀ n c, m !! n = Some c → ∃ t', t' ∈ ts ∧ parent_id t' = Some (gt_ID t) ∧ gt_Name t' = n ∧ dumped t' c) →
    (∀ t', t' ∈ ts → parent_id t' = Some (gt_ID t) → ∃ c, m !! gt_Name t' = Some c ∧ dumped t' c) →
    dumped t (with_children (own t) m).

(** What a map of the dumps of the teams [l] is. *)
Definition dump_map (l : list github_Team) (m : gmap string org_Team) : Prop :=
  (∀ n c, m !! n = Some c → ∃ t, t ∈ l ∧ gt_Name t = n ∧ dumped t c) ∧
  (∀ t, t ∈ l → ∃ c, m !! gt_Name t = Some c ∧ dumped t c).

Lemma dump_map_snoc l t m c :
  (∀ t', t' ∈ l ++ [t] → t' ∈ ts) → dump_map l m → dumped t c → dump_map (l ++ [t]) (<[gt_Name t := c]> m).
Proof.
  intros Hin [H1 H2] Hc. split.
  - intros n c'. destruct (decide (gt_Name t = n)) as [<-|Hne].
    + rewrite lookup_insert_eq. intros [= <-]. exists t. rewrite elem_of_app. split; [right; left|done].
    + rewrite lookup_insert_ne by done. intros (t' & Ht' & ? & ?)%H1. exists t'. rewrite elem_of_app. auto.
  - intros t' Ht'. destruct (decide (gt_Name t = gt_Name t')) as [Heq|Hne].
    + assert (t = t') as <-. { eapply (same_key gt_Name ts); [done|apply Hin, elem_of_app; right; left|by apply Hin|done]. }
      exists c. by rewrite lookup_insert_eq.
    + rewrite lookup_insert_ne by done. apply elem_of_app in Ht' as [Ht'| ->%list_elem_of_singleton]; [by apply H2|done].
Qed.

Context (rank : Z → nat).
Hypothesis ranked : ∀ t, t ∈ ts → ∀ id, parent_id t = Some id → rank id < rank (gt_ID t).

Lemma noted_team t : t ∈ ts → dt_names (noted ts) !! gt_ID t = Some (gt_Name t) ∧ dt_idMap (noted ts) !! gt_ID t = Some (own t).
Proof. by apply noted_names. Qed.

Lemma dump_children fuel l :
  (∀ t, t ∈ l → t ∈ ts ∧ ∃ team, makeChild fuel (noted ts) (gt_ID t) = Some team ∧ dumped t team) →
  ∃ m, foldl (λ acc cid, acc ← acc; child ← makeChild fuel (noted ts) cid;
      Some (<[default "" (dt_names (noted ts) !! cid) := child]> acc)) (Some ∅) (gt_ID <$> l) = Some m ∧ dump_map l m.
Proof.
  induction l as [|t l IH] using rev_ind; intros Hl.
  { exists ∅. split; [done|]. split; [intros n c; by rewrite lookup_empty|by intros ? ?%not_elem_of_nil]. }
  destruct IH as (m & Em & Hm); [intros t' ?; apply Hl, elem_of_app; by left|].
  destruct (Hl t) as (Ht & c & Hc & Hd); [apply elem_of_app; right; left|].
  rewrite fmap_app, foldl_app. cbn [fmap list_fmap foldl]. rewrite Em. cbn. rewrite Hc. cbn.
  destruct (noted_team t Ht) as [-> _]. eexists. split; [done|]. apply dump_map_snoc; [|done..].
  intros t' Ht'. by apply Hl.
Qed.

(** Enough fuel: whoever is above [t] is another team. *)
Lemma makeChild_ok fuel t (above : list Z) :
  t ∈ ts → NoDup above → (∀ id, id ∈ above → id ∈ gt_ID <$> ts ∧ rank id < rank (gt_ID t)) →
  length ts < fuel + length above →
  ∃ team, makeChild fuel (noted ts) (gt_ID t) = Some team ∧ dumped t team.
Proof.
  revert t above. induction fuel as [|fuel IH]; intros t above Ht Hnd Habove Hlen.
  { exfalso. assert (above ⊆+ (gt_ID <$> ts)) as Hs by (apply NoDup_submseteq; [done|]; intros ? ?; by apply Habove).
    apply submseteq_length in Hs. rewrite length_fmap in Hs. cbn in Hlen. lia. }
  assert (∀ t', t' ∈ ts → parent_id t' = Some (gt_ID t) →
    ∃ team, makeChild fuel (noted ts) (gt_ID t') = Some team ∧ dumped t' team) as Hch.
  { intros t' Ht' Hp. pose proof (ranked t' Ht' _ Hp) as Hr. apply (IH t' (gt_ID t :: above)); [done| | |cbn; lia].
    - constructor; [|done]. intros Hin. apply Habove in Hin. lia.
    - intros id [->|Hid]%elem_of_cons; [split; [by apply list_elem_of_fmap_2|done]|].
      destruct (Habove id Hid). split; [done|lia]. }
  cbn [makeChild]. rewrite noted_children. destruct (noted_team t Ht) as [_ ->].
  change (default zero_team (Some (own t))) with (own t). rewrite own_plain. set (l := filter (λ t', parent_id t' = Some (gt_ID t)) ts).
  destruct (dump_children fuel l) as (m & -> & Hm).
  { intros t' [Hp Ht']%list_elem_of_filter. auto. }
  cbn. exists (with_children (own t) m). split; [done|]. destruct Hm as [H1 H2]. constructor.
  - intros n c (t' & [Hp Ht']%list_elem_of_filter & ? & ?)%H1. by exists t'.
  - intros t' Ht' Hp. apply H2, list_elem_of_filter. by split.
Qed.

Lemma make_tops_ok l0 l m :
  (∀ t, t ∈ l0 ++ l → t ∈ ts) → dump_map l0 m →
  ∃ m', make_tops (noted ts) (gt_ID <$> l) m = Some m' ∧ dump_map (l0 ++ l) m'.
Proof.
  revert l0 m. induction l as [|t l IH]; intros l0 m Hin Hm; cbn [fmap list_fmap make_tops].
  { exists m. by rewrite app_nil_r. }
  assert (t ∈ ts) as Ht by (apply Hin, elem_of_app; right; left).
  destruct (makeChild_ok (S (size (dt_idMap (noted ts)))) t []) as (c & -> & Hc); [done|constructor| | |].
  { by intros ? ?%not_elem_of_nil. }
  { rewrite noted_size by done. cbn. lia. }
  cbn. destruct (noted_team t Ht) as [-> _]. cbn. rewrite cons_middle, app_assoc in *. apply IH; [done|].
  apply dump_map_snoc; [|done..]. intros t' ?. apply Hin, elem_of_app. by left.
Qed.

(** The dump of the teams exists, as every chain of parents ends. *)
Lemma tops_ok :
  ∃ m, make_tops (noted ts) (dt_tops (noted ts)) ∅ = Some m ∧
    dump_map (filter (λ t, parent_id t = None) ts) m.
Proof.
  rewrite noted_tops. apply (make_tops_ok []).
  - intros t Ht. by apply list_elem_of_filter in Ht as [_ ?].
  - split; [intros n c; by rewrite lookup_empty|by intros ? ?%not_elem_of_nil].
Qed.
End tree.

(** ** Configuring by the dump *)

Lemma map_range_empty `{GoRange} {A} : map_range (∅ : gmap string A) = [].
Proof.
  apply Permutation_nil_r. rewrite map_range_perm. by rewrite map_to_list_empty.
Qed.
Lemma set_range_empty `{GoRange} `{Countable K} : set_range (∅ : gset K) = [].
Proof.
  destruct (set_range (∅ : gset K)) as [|x l] eqn:E; [done|].
  assert (x ∈ (∅ : gset K)) as []%not_elem_of_empty by (apply elem_of_set_range; rewrite E; left).
Qed.

(** Nothing of anything is 0 or NaN. *)
Lemma exceeds_nothing n limit : SFltb limit (float64 0) = false → exceeds 0 n limit = false.
Proof.
  unfold exceeds. change (float64 0) with (S754_zero false).
  intros Hl. destruct (float64 n) as [s|s| |s m e]; cbn [SFdiv]; try (by destruct limit as [|[]| |[]]).
Qed.

Lemma normalized_members m : members (normalized m) = normalize (members m).
Proof. done. Qed.

Lemma in_forest_children m n team n' c :
  in_forest m n team → ot_Children team !! n' = Some c → in_forest m n' c.
Proof.
  induction 1 as [m n t Hn|m n0 t0 n t Hn _ IH]; intros Hc.
  - eapply forest_below; [done|]. by constructor.
  - eapply forest_below; [done|auto].
Qed.

Section again.
Context `{GoRange} (W : hub_state) (on_team : list OrgCall → result github_Team)
  (on_membership : list OrgCall → option client_error) (on_change : list OrgCall → result unit).
Context (opt : options) (orgName : string).
Notation gh := (hub W on_team on_membership on_change).
Notation ts := (teams_in W opt).

(** What GitHub guarantees, and options that fit the organization. *)
Record at_rest : Prop := {
  rest_bot : hs_bot W ∈ hs_admins W;
  rest_min : (opt_minAdmins opt ≤ Z.of_nat (size (set_of (hs_admins W))))%Z;
  rest_required r : r ∈ opt_requiredAdmins opt → r ∈ hs_admins W;
  rest_delta : SFltb (opt_maximumDelta opt) (float64 0) = false;
  rest_roles : let m := normalized (org_have (hs_plain W) (hs_admins W)) in super m ∩ members m = ∅;
  rest_ids : NoDup (gt_ID <$> ts);
  rest_names : NoDup (gt_Name <$> ts);
  rest_parents : ∃ rank : Z → nat, ∀ t, t ∈ ts → ∀ id, parent_id t = Some id →
    (∃ t', t' ∈ ts ∧ gt_ID t' = id) ∧ rank id < rank (gt_ID t);
  rest_people t u : t ∈ ts → u ∈ hs_members W (gt_ID t) ++ hs_maintainers W (gt_ID t) →
    NormLogin u ∈ all (org_have (hs_plain W) (hs_admins W));
  rest_team_roles t : t ∈ ts →
    let m := normalized (mkMemberships (set_of (hs_members W (gt_ID t))) (set_of (hs_maintainers W (gt_ID t)))) in
    super m ∩ members m = ∅;
  rest_repos : NoDup ((λ r, to_lower (hr_Name r)) <$> hs_repos W);
  rest_full r : r ∈ hs_repos W → fr_Name (hs_full W (hr_Name r)) = hr_Name r }.

Hypothesis rest : at_rest.
Notation own := (own_team W).
Notation is_dump := (dumped own ts).

Lemma configureMembers_idle adder remover m :
  super (normalized m) ∩ members (normalized m) = ∅ → idle (configureMembers adder remover m m ∅) tt.
Proof.
  intros Hr. unfold configureMembers. rewrite bool_decide_eq_false_2 by (by intros []).
  rewrite !difference_diag_L, union_empty_r_L, difference_diag_L, !set_range_empty.
  cbn [each]. eapply idle_bind; [apply idle_ret|]. eapply idle_bind; [apply idle_ret|].
  eapply idle_bind; [apply idle_ret|]. apply idle_ret.
Qed.

(** *** Settings *)
Lemma configureOrgMeta_idle : idle (configureOrgMeta gh orgName (dump_metadata (hs_org W))) tt.
Proof.
  unfold configureOrgMeta. eapply idle_bind; [apply idle_with_args, idle_ask; [done|]; intros tr; reflexivity|].
  assert ((org_update (hs_org W) (dump_metadata (hs_org W))).1 = false) as Hu.
  { unfold org_update, dump_metadata, updateString, updateBool, update_field. cbn.
    by rewrite !bool_decide_eq_true_2 by done. }
  destruct (org_update _ _) as [c o]. cbn in Hu. subst c. apply idle_ret.
Qed.

Lemma orgInvitations_idle : idle (orgInvitations gh opt orgName) ∅.
Proof.
  unfold orgInvitations. destruct (_ && _); [apply idle_ret|].
  eapply idle_bind; [apply idle_ask; [done|]; intros tr; cbn; by rewrite last_snoc|]. apply idle_ret.
Qed.

(** *** People *)
Lemma dump_map_fields l m n c :
  dump_map own ts l m → m !! n = Some c → ∃ t, t ∈ l ∧ gt_Name t = n ∧ is_dump t c ∧
    ot_Members c = hs_members W (gt_ID t) ∧ ot_Maintainers c = hs_maintainers W (gt_ID t) ∧ ot_Previously c = [].
Proof.
  intros [H1 _] (t & ? & ? & Hd)%H1. exists t. split_and!; try done; by inversion Hd.
Qed.

Lemma dump_people teams l :
  (∀ t, t ∈ l → t ∈ ts) → dump_map own ts l teams →
  normalize (team_people (map_range teams)) ∖ all (org_have (hs_plain W) (hs_admins W)) = ∅.
Proof.
  intros Hl Hm. apply subseteq_empty_difference_L. intros u Hu. unfold normalize in Hu.
  apply elem_of_map in Hu as (u' & -> & Hu').
  apply elem_of_set_of, list_elem_of_In, in_flat_map in Hu' as ([n c] & Hin & Hu').
  apply list_elem_of_In, elem_of_map_range in Hin. apply list_elem_of_In in Hu'.
  destruct (dump_map_fields _ _ _ _ Hm Hin) as (t & Ht & _ & _ & E1 & E2 & _).
  cbn [snd] in Hu'. rewrite E1, E2 in Hu'. apply (rest_people rest t); auto.
Qed.

Lemma dump_names teams l : dump_map own ts l teams → duplicated (team_names (map_range teams)) = ∅.
Proof.
  intros Hm. apply duplicated_empty.
  assert (team_names (map_range teams) = (map_range teams).*1) as ->; [|apply NoDup_map_range].
  assert (∀ n c, (n, c) ∈ map_range teams → ot_Previously c = []) as Hp.
  { intros n c Hin%elem_of_map_range.
    by destruct (dump_map_fields _ _ _ _ Hm Hin) as (t & _ & _ & _ & _ & _ & ?). }
  revert Hp. generalize (map_range teams). induction l0 as [|[n c] l0 IH]; intros Hp; [done|].
  cbn. rewrite (Hp n c) by left. cbn. f_equal. apply IH. intros n' c' ?. apply (Hp n'). by right.
Qed.

Lemma configureOrgMembers_idle teams repos l :
  (∀ t, t ∈ l → t ∈ ts) → dump_map own ts l teams →
  idle (configureOrgMembers gh opt orgName
    (mkOrgConfig (dump_metadata (hs_org W)) teams (hs_plain W) (hs_admins W) repos) ∅) tt.
Proof.
  intros Hl Hm. unfold configureOrgMembers. cbn [oc_Admins oc_Members oc_Teams].
  rewrite bool_decide_eq_false_2 by (pose proof (rest_min rest); lia).
  rewrite (filter_none _ (opt_requiredAdmins opt)) by
    (intros r Hr Hn; apply Hn, elem_of_set_of; by apply (rest_required rest)).
  rewrite bool_decide_eq_false_2 by (by intros []).
  apply (idle_bind _ tt).
  { unfold check_self. apply idle_if. intros _.
    eapply idle_bind; [apply idle_with_args, idle_ask; [done|]; intros tr; reflexivity|].
    cbn [hs_bot]. rewrite bool_decide_eq_true_2; [apply idle_ret|]. apply elem_of_set_of, (rest_bot rest). }
  eapply idle_bind; [apply idle_with_args, idle_ask; [done|]; intros tr; cbn; by rewrite last_snoc|].
  eapply idle_bind; [apply idle_with_args, idle_ask; [done|]; intros tr; cbn; by rewrite last_snoc|].
  change (bool_decide (RoleAdmin = RoleAdmin)) with true. change (bool_decide (RoleMember = RoleAdmin)) with false.
  cbn beta iota. fold (org_have (hs_plain W) (hs_admins W)).
  rewrite difference_diag_L, size_empty, exceeds_nothing by apply (rest_delta rest).
  rewrite (dump_people teams l Hl Hm), (dump_names teams l Hm).
  rewrite !bool_decide_eq_false_2 by (by intros []).
  apply configureMembers_idle, (rest_roles rest).
Qed.

(** *** Repositories *)
Lemma dumped_repos_inv n rp :
  dumped_repos W !! n = Some rp → ∃ r, r ∈ hs_repos W ∧ hr_Name r = n ∧ rp = dump_repo (hs_full W n).
Proof.
  unfold dumped_repos. pose proof (rest_full rest) as Hf. revert n rp.
  induction (hs_repos W) as [|r l IH] using rev_ind; intros n rp; [by cbn; rewrite lookup_empty|].
  rewrite foldl_app. cbn [foldl]. rewrite (Hf r) by (apply elem_of_app; right; left).
  setoid_rewrite elem_of_app. destruct (decide (hr_Name r = n)) as [<-|Hne].
  - rewrite lookup_insert_eq. intros [= <-]. exists r. split_and!; [right; left|done..].
  - rewrite lookup_insert_ne by done. intros (r' & ? & ? & ?)%IH; [exists r'; auto|].
    intros r' ?. apply Hf, elem_of_app. by left.
Qed.

Lemma no_duplicate_repos (l : list (string * org_Repo)) seen :
  NoDup (to_lower <$> l.*1) → (∀ n r, (n, r) ∈ l → or_Previously r = [] ∧ seen !! to_lower n = None) →
  (foldl note_repo (seen, []) l).2 = [].
Proof.
  revert seen. induction l as [|[n r] l IH]; intros seen Hnd Hl; [done|].
  rewrite !fmap_cons, NoDup_cons in Hnd. destruct Hnd as [Hn Hnd]. cbn [fst] in Hn.
  destruct (Hl n r) as [Hp Hs]; [left|]. cbn [foldl note_repo fst snd]. rewrite Hp. cbn. rewrite Hs. cbn.
  apply IH; [done|]. intros n' r' Hin. destruct (Hl n' r') as [? ?]; [by right|]. split; [done|].
  rewrite lookup_insert_ne; [done|]. intros Heq. apply Hn. rewrite Heq.
  apply list_elem_of_fmap_2. apply (list_elem_of_fmap_2 fst _ (n', r')). done.
Qed.

Lemma validateRepos_idle : validateRepos (dumped_repos W) = Ok tt.
Proof.
  unfold validateRepos. rewrite no_duplicate_repos; [done| |].
  - apply NoDup_fmap_2_strong; [|apply NoDup_map_range].
    intros n1 n2 ([? rp1] & -> & H1%elem_of_map_range%dumped_repos_inv)%list_elem_of_fmap
      ([? rp2] & -> & H2%elem_of_map_range%dumped_repos_inv)%list_elem_of_fmap. cbn [fst].
    destruct H1 as (r1 & Hr1 & <- & _), H2 as (r2 & Hr2 & <- & _). intros Heq.
    by rewrite (same_key _ _ r1 r2 (rest_repos rest)).
  - intros n r Hin%elem_of_map_range%dumped_repos_inv. destruct Hin as (r' & _ & _ & ->).
    split; [done|apply lookup_empty].
Qed.

Lemma get_repos_idle repos byName :
  (∀ r, r ∈ repos → r ∈ hs_repos W) →
  ∃ byName', idle (get_repos gh orgName repos byName) byName' ∧
    ∀ r, r ∈ hs_repos W → byName !! to_lower (hr_Name r) = Some (hs_full W (hr_Name r)) ∨ r ∈ repos →
      byName' !! to_lower (hr_Name r) = Some (hs_full W (hr_Name r)).
Proof.
  revert byName. induction repos as [|r0 repos IH]; intros byName Hin; cbn [get_repos].
  { exists byName. split; [apply idle_ret|]. intros r _ [?|[]%not_elem_of_nil]; done. }
  assert (r0 ∈ hs_repos W) as Hr0 by (apply Hin; left).
  destruct (IH (<[to_lower (fr_Name (hs_full W (hr_Name r0))) := hs_full W (hr_Name r0)]> byName))
    as (byName' & Hid & Hall); [intros; apply Hin; by right|].
  exists byName'. split.
  - eapply idle_bind; [apply idle_with_err, idle_ask; [done|]; intros tr; cbn; by rewrite last_snoc|exact Hid].
  - intros r Hr Hor. apply Hall; [done|]. rewrite (rest_full rest r0 Hr0).
    destruct (decide (to_lower (hr_Name r0) = to_lower (hr_Name r))) as [Heq|Hne].
    + left. rewrite <- Heq, lookup_insert_eq. by rewrite (same_key _ _ r0 r (rest_repos rest)).
    + destruct Hor as [?|[->|?]%elem_of_cons]; [left; by rewrite lookup_insert_ne|done|by right].
Qed.

Lemma dump_repo_wanted full : as_wanted (fr_Name full) (dump_repo full) full.
Proof.
  unfold as_wanted, dump_repo, pruneRepoDefaults, prune. cbn.
  split_and!; try done; unfold given; intros w; try case_bool_decide; congruence.
Qed.

Lemma configureRepos_idle cfg :
  oc_Repos cfg = dumped_repos W → idle (configureRepos gh opt orgName cfg) tt.
Proof.
  intros Hcfg. unfold configureRepos. rewrite Hcfg.
  eapply idle_bind; [apply idle_lift, validateRepos_idle|].
  eapply idle_bind; [apply idle_with_err, idle_ask; [done|]; intros tr; cbn; by rewrite last_snoc|].
  destruct (get_repos_idle (hs_repos W) ∅) as (byName & Hget & Hall); [done|].
  eapply idle_bind; [exact Hget|].
  assert (∀ n rp, (n, rp) ∈ map_range (dumped_repos W) → idle (configure_repo gh opt orgName byName (n, rp)) []) as Hone.
  { intros n rp Hin%elem_of_map_range%dumped_repos_inv. destruct Hin as (r & Hr & <- & ->).
    unfold configure_repo, repoExists. cbn [or_Previously dump_repo pruneRepoDefaults rfold].
    unfold repo_exists_step. rewrite (Hall r) by auto. cbn [rbind].
    eapply idle_bind; [apply idle_ret|]. cbn beta iota.
    pose proof (dump_repo_wanted (hs_full W (hr_Name r))) as Hw. rewrite (rest_full rest r Hr) in Hw.
    apply newRepoUpdateRequest_Defined in Hw.
    unfold update_repo. rewrite sanitize_undefined by done. rewrite Hw.
    eapply idle_bind; [apply idle_ret|]. apply idle_ret. }
  revert Hone. generalize (map_range (dumped_repos W)). induction l as [|[n rp] l IH]; intros Hone;
    cbn [configure_all_repos]; [by apply idle_lift|].
  eapply idle_bind; [apply Hone; left|]. apply IH. intros n' rp' ?. apply Hone. by right.
Qed.

(** *** Teams *)
Lemma team_ids_ok id t : team_ids opt (hs_teams W) !! id = Some t ↔ t ∈ ts ∧ gt_ID t = id.
Proof.
  unfold team_ids. pose proof (rest_ids rest) as Hnd. unfold teams_in in *. revert Hnd id t.
  induction (listed_teams opt (hs_teams W)) as [|t0 l IH] using rev_ind; intros Hnd id t.
  { cbn. rewrite lookup_empty. split; [done|]. by intros [?%not_elem_of_nil _]. }
  rewrite foldl_app. cbn [foldl]. rewrite fmap_app in Hnd. apply NoDup_app in Hnd as (Hnd & Hdis & _).
  rewrite elem_of_app, list_elem_of_singleton. destruct (decide (gt_ID t0 = id)) as [<-|Hne].
  - rewrite lookup_insert_eq. split; [intros [= <-]; auto|]. intros [[Ht| ->] He]; [|done]. exfalso.
    apply (Hdis (gt_ID t0)); [rewrite <- He; by apply list_elem_of_fmap_2|left].
  - rewrite lookup_insert_ne, IH by done. split; [intros []; auto|]. by intros [[?| ->] ?].
Qed.

Lemma team_names_ok t : t ∈ ts → team_names_of opt (hs_teams W) !! gt_Name t = Some t.
Proof.
  intros Ht. unfold team_names_of. set (l := (map_range (team_ids opt (hs_teams W))).*2).
  assert (∀ t', t' ∈ l ↔ t' ∈ ts) as Hl.
  { intros t'. unfold l. rewrite list_elem_of_fmap. split.
    - intros ([id t''] & -> & Hin%elem_of_map_range). by apply team_ids_ok in Hin as [? _].
    - intros Ht'. exists (gt_ID t', t'). split; [done|]. by apply elem_of_map_range, team_ids_ok. }
  pose proof (lowest_ids_ok l (gt_Name t)) as Hlow. destruct (lowest_ids l !! gt_Name t) as [t'|].
  - destruct Hlow as (Ht' & Hn & _). f_equal. apply (same_key gt_Name ts); [apply (rest_names rest)|by apply Hl|done|done].
  - by destruct (Hlow t (proj2 (Hl t) Ht)).
Qed.

(** Every team of the dump, at any depth, is the dump of a team of GitHub. *)
Lemma in_forest_dumped l m n team :
  (∀ t, t ∈ l → t ∈ ts) → dump_map own ts l m → in_forest m n team → ∃ t, t ∈ ts ∧ gt_Name t = n ∧ is_dump t team.
Proof.
  intros Hl [Hm _] Hin. revert l Hl Hm. induction Hin as [m n team Hn|m n0 t0 n team Hn _ IH]; intros l Hl Hm.
  - destruct (Hm n team Hn) as (t & ? & ? & ?). exists t. auto.
  - destruct (Hm n0 t0 Hn) as (t & Ht & _ & Hd). inversion Hd as [? m' H1 H2]; subst.
    apply (IH (filter (λ t', parent_id t' = Some (gt_ID t)) ts)).
    + by intros t' [_ ?]%list_elem_of_filter.
    + cbn [ot_Children with_children]. intros n' c (t' & Ht' & Hp & ? & ?)%H1. exists t'.
      split_and!; [by apply list_elem_of_filter|done..].
Qed.

Notation tops := (filter (λ t, parent_id t = None) ts).

(** And every team of GitHub is in the dump. *)
Lemma dumped_in_forest m t : dump_map own ts tops m → t ∈ ts → ∃ team, in_forest m (gt_Name t) team ∧ is_dump t team.
Proof.
  intros [_ Hm]. destruct (rest_parents rest) as [rank Hrank].
  remember (rank (gt_ID t)) as r eqn:Er. revert t Er.
  induction (lt_wf r) as [r _ IH]. intros t -> Ht. destruct (parent_id t) as [id|] eqn:Ep.
  - destruct (Hrank t Ht id Ep) as [(p & Hp & <-) Hlt].
    destruct (IH _ Hlt p eq_refl Hp) as (pt & Hin & Hd). inversion Hd as [? m' H1 H2]; subst.
    destruct (H2 t Ht Ep) as (c & Hc & Hdc). exists c. split; [|done].
    by eapply in_forest_children.
  - destruct (Hm t) as (c & Hc & Hd); [by apply list_elem_of_filter|]. exists c. split; [by constructor|done].
Qed.

Section with_teams.
Context (teams : gmap string org_Team) (repos : gmap string org_Repo).
Hypothesis Hteams : dump_map own ts tops teams.
Notation cfg := (mkOrgConfig (dump_metadata (hs_org W)) teams (hs_plain W) (hs_admins W) repos).

Lemma tops_in t : t ∈ tops → t ∈ ts.
Proof. by intros [_ ?]%list_elem_of_filter. Qed.

(** Each dumped team is found under its name. *)
Lemma found_dumped n team :
  in_forest teams n team → ∃ t, t ∈ ts ∧ gt_Name t = n ∧ found_team (team_names_of opt (hs_teams W)) n team = Some t.
Proof.
  intros Hin. destruct (in_forest_dumped _ _ _ _ tops_in Hteams Hin) as (t & Ht & <- & Hd).
  exists t. split_and!; [done..|]. unfold found_team. cbn [findTeam]. by rewrite team_names_ok.
Qed.

(** Nothing is missing, nothing unused, and every team is matched with itself. *)
Lemma match_dumped :
  let st := match_config opt cfg (hs_teams W) in
  mt_missing st = ∅ ∧ unused_teams opt cfg (hs_teams W) = ∅ ∧ ∀ t, t ∈ ts → mt_matches st !! gt_Name t = Some t.
Proof.
  intros st. destruct (match_config_ok opt cfg (hs_teams W)) as [Hs Hm _ _ Hc]. cbn [oc_Teams] in *. fold st in Hs, Hm, Hc.
  assert (∀ t, t ∈ ts → gt_Name t ∈ dom (mt_matches st) ∧ gt_ID t ∈ mt_used st) as Hall.
  { intros t Ht. destruct (dumped_in_forest _ t Hteams Ht) as (team & Hin & _). specialize (Hc _ _ Hin).
    destruct (found_dumped _ _ Hin) as (t' & Ht' & Hn & Ef). rewrite Ef in Hc.
    assert (t = t') as <- by by apply (same_key gt_Name ts); [apply (rest_names rest)|..]. exact Hc. }
  split_and!.
  - apply map_eq. intros n. rewrite lookup_empty. destruct (mt_missing st !! n) as [team|] eqn:Et; [|done].
    destruct (Hm n team Et) as [He|[Hin Hf]]; [cbn in He; by rewrite lookup_empty in He|].
    destruct (found_dumped _ _ Hin) as (t & _ & _ & Ef). congruence.
  - unfold unused_teams. fold st. apply subseteq_empty_difference_L. intros id [t Ht]%elem_of_dom.
    apply team_ids_ok in Ht as [Ht <-]. by apply Hall.
  - intros t Ht. destruct (Hall t Ht) as [[t' Ht']%elem_of_dom _]. rewrite Ht'. f_equal.
    destruct (Hs _ _ Ht') as [He|(team & Hin & Ef)]; [cbn in He; by rewrite lookup_empty in He|].
    destruct (found_dumped _ _ Hin) as (t'' & Ht'' & Hn & Ef'). rewrite Ef in Ef'. injection Ef' as ->.
    by apply (same_key gt_Name ts); [apply (rest_names rest)|..].
Qed.

Lemma configureTeams_idle :
  ∃ githubTeams, idle (configureTeams gh opt orgName cfg) githubTeams ∧
    ∀ t, t ∈ ts → githubTeams !! gt_Name t = Some t.
Proof.
  destruct match_dumped as (Hmis & Hun & Hall).
  exists (mt_matches (match_config opt cfg (hs_teams W))). split; [|done]. unfold configureTeams.
  apply (idle_bind _ tt).
  { apply idle_lift. unfold validateTeamNames. cbn [oc_Teams]. rewrite (dump_names teams tops Hteams).
    by rewrite bool_decide_eq_false_2 by (by intros []). }
  eapply idle_bind; [apply idle_with_err, idle_ask; [done|]; intros tr; reflexivity|].
  cbn zeta. rewrite Hun, Hmis, size_empty, exceeds_nothing by apply (rest_delta rest).
  rewrite map_range_empty. eapply idle_bind; [apply idle_ret|]. cbn beta iota.
  eapply idle_bind; [apply idle_ret|].
  assert (∀ X : gset Z, ∅ ∖ X = ∅) as -> by set_solver. rewrite set_range_empty.
  eapply idle_bind; [apply idle_ret|]. apply idle_ret.
Qed.

Context (githubTeams : gmap string github_Team).
Hypothesis Hgt : ∀ t, t ∈ ts → githubTeams !! gt_Name t = Some t.

Lemma dumped_patch t team : t ∈ ts → is_dump t team → (team_patch (gt_Name t) team t (parent_id t)).1 = false.
Proof.
  intros Ht Hd. inversion Hd as [? m _ _]; subst. unfold team_patch.
  destruct (edit_parent_ok (parent_id t) (edit_name (gt_Name t) (with_children (own t) m) t)) as (Hiff & _ & _ & Hpr & _).
  apply (edit_privacy_ok (with_children (own t) m) (parent_id t)). split.
  - apply Hiff. unfold edit_name. cbn [fst snd gt_Parent]. split; [|done].
    rewrite bool_decide_eq_false_2 by (by intros []). cbn [orb].
    apply bool_decide_eq_false_2. intros [_ Hne]. by apply Hne.
  - rewrite Hpr. done.
Qed.

Lemma configureTeamMembers_idle t team :
  t ∈ ts → is_dump t team → idle (configureTeamMembers gh t team) tt.
Proof.
  intros Ht Hd. inversion Hd as [? m _ _]; subst. unfold configureTeamMembers. cbn [ot_Members ot_Maintainers with_children].
  eapply idle_bind; [apply idle_with_args, idle_ask; [done|]; intros tr; cbn; by rewrite last_snoc|].
  eapply idle_bind; [apply idle_with_args, idle_ask; [done|]; intros tr; cbn; by rewrite last_snoc|].
  apply (idle_bind _ ∅).
  { apply idle_with_args. unfold teamInvitations.
    eapply idle_bind; [apply idle_ask; [done|]; intros tr; cbn; by rewrite last_snoc|]. apply idle_ret. }
  change (bool_decide (RoleMaintainer = RoleMaintainer)) with true.
  change (bool_decide (RoleMember = RoleMaintainer)) with false. cbn beta iota.
  by apply configureMembers_idle, (rest_team_roles rest).
Qed.

Lemma configureTeamAndMembers_idle fuel t team :
  t ∈ ts → is_dump t team → height team ≤ fuel →
  idle (configureTeamAndMembers gh opt fuel githubTeams orgName (parent_id t) (gt_Name t, team)) tt.
Proof.
  revert t team. induction fuel as [|fuel IH]; intros t team Ht Hd Hf; [rewrite height_forest in Hf; lia|].
  cbn [configureTeamAndMembers]. rewrite Hgt by done.
  apply (idle_bind _ tt).
  { apply idle_with_args. unfold configureTeam. pose proof (dumped_patch t team Ht Hd) as Hp.
    destruct (team_patch _ _ _ _) as [p e]. cbn in Hp. subst p. apply idle_ret. }
  apply (idle_bind _ tt).
  { apply idle_if. intros _. by apply idle_with_args, configureTeamMembers_idle. }
  apply idle_for_each. intros [n c] Hc%elem_of_map_range. apply idle_with_args.
  inversion Hd as [? m H1 H2]; subst. destruct (H1 n c Hc) as (t' & Ht' & Hp & <- & Hd').
  rewrite <- Hp. apply IH; [done..|]. apply height_child in Hc. lia.
Qed.

Lemma repo_actions_same want : repo_actions want want = ∅.
Proof.
  apply map_eq. intros r. rewrite repo_actions_ok, lookup_empty. destruct (want !! r); [|done].
  by rewrite bool_decide_eq_true_2.
Qed.

Lemma configureTeamRepos_idle fuel t team :
  t ∈ ts → is_dump t team → height team ≤ fuel →
  idle (configureTeamRepos gh fuel githubTeams orgName (gt_Name t, team)) tt.
Proof.
  revert t team. induction fuel as [|fuel IH]; intros t team Ht Hd Hf; [rewrite height_forest in Hf; lia|].
  cbn [configureTeamRepos]. rewrite Hgt by done.
  eapply idle_bind; [apply idle_with_args, idle_ask; [done|]; intros tr; cbn; by rewrite last_snoc|].
  inversion Hd as [? m H1 H2]; subst. cbn [ot_Repos with_children own_team]. rewrite repo_actions_same, map_range_empty.
  cbn zeta. eapply idle_bind; [apply idle_ret|]. apply (idle_bind _ []); [|by apply idle_lift].
  apply idle_each. intros [n c] Hc%elem_of_map_range. apply idle_with_args.
  destruct (H1 n c Hc) as (t' & Ht' & Hp & <- & Hd'). apply IH; [done..|].
  apply (height_child (with_children (own t) m)) in Hc. lia.
Qed.
End with_teams.

Lemma dump_roundtrip_ok :
  ∃ calls cfg, dumpOrgConfig gh orgName (opt_ignoreSecretTeams opt) [] = (calls, Some (Ok cfg)) ∧ no_change calls ∧
  ∃ calls', configureOrg gh opt orgName cfg calls = (calls ++ calls', Some (Ok tt)) ∧ no_change calls'.
Proof.
  destruct (rest_parents rest) as [rank Hrank].
  destruct (tops_ok own ts (λ t, eq_refl) (rest_ids rest) (rest_names rest) rank
    (λ t Ht id Hp, proj2 (Hrank t Ht id Hp))) as (teams & Htops & Hm).
  destruct (dumpOrgConfig_idle W on_team on_membership on_change opt orgName teams (rest_bot rest) Htops [])
    as (calls & Ed & Hn).
  exists calls. eexists. split; [exact Ed|]. split; [done|].
  enough (idle (configureOrg gh opt orgName
    (mkOrgConfig (dump_metadata (hs_org W)) teams (hs_plain W) (hs_admins W) (dumped_repos W))) tt) as Hidle
    by by apply Hidle.
  unfold configureOrg.
  apply (idle_bind _ tt); [apply idle_if; intros _; apply configureOrgMeta_idle|].
  apply (idle_bind _ ∅); [apply idle_with_args, orgInvitations_idle|].
  apply (idle_bind _ tt).
  { apply idle_if. intros _. apply idle_with_args, (configureOrgMembers_idle _ _ tops); [apply tops_in|done]. }
  apply (idle_bind _ tt); [apply idle_if; intros _; by apply idle_with_args, configureRepos_idle|].
  unfold configure_teams_if. apply idle_if. intros _.
  destruct (configureTeams_idle teams (dumped_repos W) Hm) as (gts & Hg & Hall).
  eapply idle_bind; [apply idle_with_args, Hg|]. apply idle_for_each.
  intros [n team] Hin%elem_of_map_range. cbn [oc_Teams] in Hin.
  destruct (proj1 Hm n team Hin) as (t & [Hp Ht]%list_elem_of_filter & <- & Hd).
  unfold team_and_repos. cbn [fst snd]. apply (idle_bind _ tt).
  - apply idle_with_args. rewrite <- Hp. by apply (configureTeamAndMembers_idle gts).
  - apply idle_if. intros _. apply idle_with_args. by apply (configureTeamRepos_idle gts).
Qed.
End again.

(** C24. Configuring an organization by its own dump changes nothing: if nobody changes
    anything meanwhile, no invitation is pending, GitHub's own guarantees hold (unique
    IDs and names, one role per person, people of teams in the organization, teams
    nested without cycles) and the options fit, then the dump succeeds and configuring
    by it ends without an error and makes no call that changes anything. *)
Theorem dump_roundtrip `{GoRange} W on_team on_membership on_change opt orgName :
  at_rest W opt →
  let gh := hub W on_team on_membership on_change in
  ∃ calls cfg, dumpOrgConfig gh orgName (opt_ignoreSecretTeams opt) [] = (calls, Some (Ok cfg)) ∧ no_change calls ∧
  ∃ calls', configureOrg gh opt orgName cfg calls = (calls ++ calls', Some (Ok tt)) ∧ no_change calls'.
Proof. apply dump_roundtrip_ok. Qed.

(** ** A witness and an example *)

#[local] Existing Instance listing_order.

(** Two nested teams and a repository. *)
Definition w_parent : github_Team := mkGitHubTeam 1 "leads" "leads" "those who lead" Closed None None "".
Definition w_child : github_Team := mkGitHubTeam 2 "docs" "docs" "" Closed (Some w_parent) None "".
Definition w_state : hub_state :=
  mkHubState w_organization "bot" ["bot"; "Alice"] ["carol"; "dave"] [w_child; w_parent]
    (λ id, if bool_decide (id = 1%Z) then ["Alice"] else []) (λ _, ["carol"])
    (λ _, [fr_Repo (w_full "r" false false)]) [fr_Repo (w_full "r" false false)] (λ name, w_full name false false).
Definition w_hub : OrgGitHub :=
  hub w_state (λ _, Err (errors_New "team")) (λ _, None) (λ _, Err (errors_New "refused")).

Definition w_dump_options : options :=
  mkOptions "config" true "" false (float64 0) 2 true ["Alice"] true true true true true true
    false false false 100 300 "token".

Lemma w_at_rest : at_rest w_state w_dump_options.
Proof.
  assert (∀ t, t ∈ teams_in w_state w_dump_options → t = w_child ∨ t = w_parent) as Hts.
  { intros t Ht. apply list_elem_of_filter in Ht as [_ [->|[->|[]%not_elem_of_nil]%elem_of_cons]%elem_of_cons]; auto. }
  assert (w_parent ∈ teams_in w_state w_dump_options) as Hp.
  { apply list_elem_of_filter. split; [by intros [? ?]|]. right. left. }
  constructor; try decide_by_computing; try done.
  - intros r ->%list_elem_of_singleton. right. left.
  - exists Z.to_nat. intros t [-> | ->]%Hts id; cbn; [intros [= <-]|done]. split; [by exists w_parent|vm_compute; lia].
  - intros t u [-> | ->]%Hts; cbn; intros Hu; revert u Hu; apply Forall_forall; decide_by_computing.
  - intros t [-> | ->]%Hts; decide_by_computing.
Qed.

Lemma dump_roundtrip_witness :
  ∃ calls cfg, dumpOrgConfig w_hub "o" false [] = (calls, Some (Ok cfg)) ∧ no_change calls ∧
  ∃ calls', configureOrg w_hub w_dump_options "o" cfg calls = (calls ++ calls', Some (Ok tt)) ∧ no_change calls'.
Proof.
  exact (dump_roundtrip w_state _ _ _ w_dump_options "o" w_at_rest).
Defined.

(** The dump says nothing of pending invitations, and configuring by it withdraws them. *)
Definition w_inviting : OrgGitHub :=
  mkOrgGitHub (on_org w_hub) (on_bot w_hub)
    (λ calls, match last calls with Some (ListOrgInvitations _) => Ok ["erin"] | _ => on_logins w_hub calls end)
    (on_repos w_hub) (on_repo w_hub) (on_teams w_hub) (on_team w_hub) (on_membership w_hub) (λ _, Ok tt).
Example dump_withdraws_invitations :
  match dumpOrgConfig w_inviting "o" false [] with
  | (calls, Some (Ok cfg)) =>
      changes_of (configureOrg w_inviting w_dump_options "o" cfg calls).1 = [RemoveOrgMembership "o" "erin"]
  | _ => False
  end.
Proof. vm_compute. reflexivity. Qed.
