(* ===== verification/BugzillaOptions.v ===== *)
(** * Options for Bugzilla bugs (plugins/config.go, bugzilla/status.go)

    The states of bugs, and the options of a branch: a cascade over global,
    organization and repository settings, with a wildcard at each level. *)

From S2P Require Import Prelude.
#[local] Open Scope go_scope.

(** What the plugin reads of a bug (bugzilla/types.go) and what it writes. *)
Record Bug := mkBug {
  bug_ID : Z; bug_DependsOn : list Z; bug_IsOpen : bool; bug_Status : string;
  bug_Resolution : string; bug_TargetRelease : list string }.
Record BugUpdate := mkBugUpdate { bu_Status : string; bu_Resolution : string }.

Definition PrettyStatus (status resolution : string) : string :=
  if bool_decide (resolution = "") then status
  else if bool_decide (status = "") then "any status with resolution " +:+ resolution
  else status +:+ " (" +:+ resolution +:+ ")".

(** ** States *)

Record BugzillaBugState := mkBugState { bs_Status : string; bs_Resolution : string }.

#[export] Instance BugzillaBugState_eq_dec : EqDecision BugzillaBugState.
Proof. solve_decision. Defined.
#[export] Program Instance BugzillaBugState_countable : Countable BugzillaBugState :=
  inj_countable' (λ s, (bs_Status s, bs_Resolution s)) (λ p, mkBugState p.1 p.2) _.
Next Obligation. by intros []. Qed.

Definition BugzillaBugState_String (s : BugzillaBugState) : string :=
  PrettyStatus (bs_Status s) (bs_Resolution s).

(** [s.Field != "" && (bug == nil || s.Field != bug.Field)] *)
Definition differs (wanted : string) (actual : option string) : bool :=
  bool_decide (wanted ≠ "" ∧ actual ≠ Some wanted).

Definition AsBugUpdate (s : option BugzillaBugState) (bug : option Bug) : option BugUpdate :=
  match s with
  | None => None
  | Some s =>
      let status := differs (bs_Status s) (bug_Status <$> bug) in
      let resolution := differs (bs_Resolution s) (bug_Resolution <$> bug) in
      if status || resolution
      then Some (mkBugUpdate (if status then bs_Status s else "")
                   (if resolution then bs_Resolution s else ""))
      else None
  end.

Definition Matches (s : option BugzillaBugState) (bug : option Bug) : bool :=
  match s, bug with
  | Some s, Some bug =>
      if bool_decide (bs_Status s ≠ "" ∧ bs_Status s ≠ bug_Status bug) then false
      else if bool_decide (bs_Resolution s ≠ "" ∧ bs_Resolution s ≠ bug_Resolution bug) then false
      else true
  | _, _ => false
  end.

(** A Bugzilla server applies an update: fields left out stay. *)
Definition apply_update (u : BugUpdate) (bug : Bug) : Bug :=
  mkBug (bug_ID bug) (bug_DependsOn bug) (bug_IsOpen bug)
    (if bool_decide (bu_Status u = "") then bug_Status bug else bu_Status u)
    (if bool_decide (bu_Resolution u = "") then bug_Resolution bug else bu_Resolution u)
    (bug_TargetRelease bug).

(** [BugzillaBugStateSet] *)
Definition BugzillaBugStateSet : Type := gset BugzillaBugState.
Definition NewBugzillaBugStateSet (states : list BugzillaBugState) : BugzillaBugStateSet :=
  list_to_set states.
Definition Has (s : BugzillaBugStateSet) (state : BugzillaBugState) : bool :=
  bool_decide (state ∈ s).
Definition Insert (states : list BugzillaBugState) (s : BugzillaBugStateSet) : BugzillaBugStateSet :=
  foldl (λ s state, {[state]} ∪ s) s states.

(** The order [mergeStatusesIntoStates] sorts by. *)
Definition state_le (a b : BugzillaBugState) : Prop :=
  if decide (bs_Status a = bs_Status b) then String.le (bs_Resolution a) (bs_Resolution b)
  else String.le (bs_Status a) (bs_Status b).

#[export] Instance state_le_dec : RelDecision state_le.
Proof. intros a b. unfold state_le. case_decide; apply _. Defined.
#[export] Instance state_le_trans : Transitive state_le.
Proof.
  intros a b c. unfold state_le. repeat case_decide; intros; try congruence.
  - by etrans.
  - assert (bs_Status a = bs_Status b); [|done]. apply (anti_symm String.le); congruence.
  - by etrans.
Qed.
#[export] Instance state_le_total : Total state_le.
Proof.
  intros a b. unfold state_le. repeat case_decide; try congruence; apply (total String.le).
Qed.
#[export] Instance state_le_antisymm : AntiSymm (=) state_le.
Proof.
  intros [s r] [s' r']. unfold state_le; cbn. repeat case_decide; try congruence; intros H1 H2.
  - subst. f_equal. by apply (anti_symm String.le).
  - by assert (s = s') by by apply (anti_symm String.le).
Qed.

(** ** Options of a branch *)

Record BugzillaBranchOptions := mkBranchOptions {
  bo_ExcludeDefaults : option bool;
  bo_ValidateByDefault : option bool;
  bo_IsOpen : option bool;
  bo_TargetRelease : option string;
  bo_Statuses : option (list string);
  bo_ValidStates : option (list BugzillaBugState);
  bo_DependentBugStatuses : option (list string);
  bo_DependentBugStates : option (list BugzillaBugState);
  bo_DependentBugTargetRelease : option string;
  bo_StatusAfterValidation : option string;
  bo_StateAfterValidation : option BugzillaBugState;
  bo_AddExternalLink : option bool;
  bo_StatusAfterMerge : option string;
  bo_StateAfterMerge : option BugzillaBugState }.

Definition no_options : BugzillaBranchOptions :=
  mkBranchOptions None None None None None None None None None None None None None None.

Record BugzillaRepoOptions := mkRepoOptions { br_Branches : gmap string BugzillaBranchOptions }.
Record BugzillaOrgOptions := mkOrgOptions {
  bg_Default : gmap string BugzillaBranchOptions; bg_Repos : gmap string BugzillaRepoOptions }.
Record Bugzilla := mkBugzilla {
  bz_Default : gmap string BugzillaBranchOptions; bz_Orgs : gmap string BugzillaOrgOptions }.

Definition BugzillaOptionsWildcard : string := "*".

Definition isSome {A} (o : option A) : bool := match o with Some _ => true | None => false end.

(** [if o != nil { field = o }] *)
Definition override {A} (field o : option A) : option A := match o with Some _ => o | None => field end.

Section options.
Context `{GoRange}.

Definition statesMatch (first second : list BugzillaBugState) : bool :=
  if bool_decide (length first ≠ length second) then false
  else forallb (Has (NewBugzillaBugStateSet second)) (set_range (NewBugzillaBugStateSet first)).

(** Both pointers nil, or neither and the values related. *)
Definition both {A} (same : A → A → bool) (x y : option A) : bool :=
  match x, y with
  | None, None => true
  | Some a, Some b => same a b
  | _, _ => false
  end.
Definition same {A} `{EqDecision A} (a b : A) : bool := bool_decide (a = b).

Definition matches (o other : BugzillaBranchOptions) : bool :=
  both same (bo_ValidateByDefault o) (bo_ValidateByDefault other) &&
  both same (bo_IsOpen o) (bo_IsOpen other) &&
  both same (bo_TargetRelease o) (bo_TargetRelease other) &&
  both statesMatch (bo_ValidStates o) (bo_ValidStates other) &&
  both statesMatch (bo_DependentBugStates o) (bo_DependentBugStates other) &&
  both same (bo_StateAfterValidation o) (bo_StateAfterValidation other) &&
  both same (bo_AddExternalLink o) (bo_AddExternalLink other) &&
  both same (bo_StateAfterMerge o) (bo_StateAfterMerge other).

Definition mergeStatusesIntoStates (states : option (list BugzillaBugState))
    (statuses : option (list string)) : option (list BugzillaBugState) :=
  let stateSet := Insert (default [] states) ∅ in
  let stateSet := foldl (λ s status, Insert [mkBugState status ""] s) stateSet (default [] statuses) in
  match merge_sort state_le (set_range stateSet) with
  | [] => None
  | newStates => Some newStates
  end.

(** [if statuses != nil { states = mergeStatusesIntoStates(states, statuses) }] *)
Definition merge_if (states : option (list BugzillaBugState)) (statuses : option (list string))
    : option (list BugzillaBugState) :=
  match statuses with Some _ => mergeStatusesIntoStates states statuses | None => states end.

(** [populate with the parent] *)
Definition populate (parent : BugzillaBranchOptions) : BugzillaBranchOptions :=
  mkBranchOptions None (bo_ValidateByDefault parent) (bo_IsOpen parent) (bo_TargetRelease parent)
    (bo_Statuses parent) (merge_if (bo_ValidStates parent) (bo_Statuses parent))
    (bo_DependentBugStatuses parent)
    (merge_if (bo_DependentBugStates parent) (bo_DependentBugStatuses parent)) None
    (bo_StatusAfterValidation parent)
    (override ((λ s, mkBugState s "") <$> bo_StatusAfterValidation parent) (bo_StateAfterValidation parent))
    (bo_AddExternalLink parent) (bo_StatusAfterMerge parent)
    (override ((λ s, mkBugState s "") <$> bo_StatusAfterMerge parent) (bo_StateAfterMerge parent)).

(** The states of the child, if it sets any, replace those so far. *)
Definition override_states (output child : option (list BugzillaBugState)) (statuses : option (list string))
    : option (list BugzillaBugState) :=
  let output := override output child in
  match statuses with
  | Some _ => mergeStatusesIntoStates (match child with None => None | Some _ => output end) statuses
  | None => output
  end.
Definition override_state (output : option BugzillaBugState) (status : option string)
    (child : option BugzillaBugState) : option BugzillaBugState :=
  let output := match status, child with
                | Some s, None => Some (mkBugState s "")
                | _, _ => output
                end in
  override output child.

Definition ResolveBugzillaOptions (parent child : BugzillaBranchOptions) : BugzillaBranchOptions :=
  let output := if default false (bo_ExcludeDefaults child) then no_options else populate parent in
  mkBranchOptions None
    (override (bo_ValidateByDefault output) (bo_ValidateByDefault child))
    (override (bo_IsOpen output) (bo_IsOpen child))
    (override (bo_TargetRelease output) (bo_TargetRelease child))
    None
    (override_states (bo_ValidStates output) (bo_ValidStates child) (bo_Statuses child))
    None
    (override_states (bo_DependentBugStates output) (bo_DependentBugStates child)
       (bo_DependentBugStatuses child))
    None
    None
    (override_state (bo_StateAfterValidation output) (bo_StatusAfterValidation child)
       (bo_StateAfterValidation child))
    (override (bo_AddExternalLink output) (bo_AddExternalLink child))
    None
    (override_state (bo_StateAfterMerge output) (bo_StatusAfterMerge child) (bo_StateAfterMerge child)).

Definition OptionsForItem (item : string) (config : gmap string BugzillaBranchOptions)
    : BugzillaBranchOptions :=
  ResolveBugzillaOptions (default no_options (config !! BugzillaOptionsWildcard))
    (default no_options (config !! item)).

Definition OptionsForBranch (b : Bugzilla) (org repo branch : string) : BugzillaBranchOptions :=
  let options := OptionsForItem branch (bz_Default b) in
  match bz_Orgs b !! org with
  | None => options
  | Some orgOptions =>
      let options := ResolveBugzillaOptions options (OptionsForItem branch (bg_Default orgOptions)) in
      match bg_Repos orgOptions !! repo with
      | None => options
      | Some repoOptions =>
          ResolveBugzillaOptions options (OptionsForItem branch (br_Branches repoOptions))
      end
  end.

(** [for branch := range table { options[branch] = b.OptionsForBranch(org, repo, branch) }] *)
Definition note_branches (b : Bugzilla) (org repo : string) (table : gmap string BugzillaBranchOptions)
    (options : gmap string BugzillaBranchOptions) : gmap string BugzillaBranchOptions :=
  foldl (λ options branch, <[branch := OptionsForBranch b org repo branch]> options) options
    (map_range table).*1.

Definition OptionsForRepo (b : Bugzilla) (org repo : string) : gmap string BugzillaBranchOptions :=
  let options := note_branches b org repo (bz_Default b) ∅ in
  let orgOptions := default (mkOrgOptions ∅ ∅) (bz_Orgs b !! org) in
  let options := note_branches b org repo (bg_Default orgOptions) options in
  let repoOptions := default (mkRepoOptions ∅) (bg_Repos orgOptions !! repo) in
  let options := note_branches b org repo (br_Branches repoOptions) options in
  let wildcard := default no_options (options !! BugzillaOptionsWildcard) in
  let toDelete := (filter (λ '(branch, branchOptions),
    matches branchOptions wildcard = true ∧ branch ≠ BugzillaOptionsWildcard) (map_range options)).*1 in
  foldl (λ options branch, delete branch options) options toDelete.
End options.

(** ** States: what the functions promise *)

Section state_lemmas.
Context `{GoRange}.

Lemma elem_of_Insert x states s : x ∈ Insert states s ↔ x ∈ states ∨ x ∈ s.
Proof.
  unfold Insert. revert s. induction states as [|y states IH]; intros s; cbn [foldl].
  - rewrite elem_of_nil. naive_solver.
  - rewrite IH, elem_of_union, elem_of_singleton, elem_of_cons. naive_solver.
Qed.

Lemma elem_of_insert_statuses x statuses s :
  x ∈ foldl (λ s status, Insert [mkBugState status ""] s) s statuses ↔
  x ∈ s ∨ ∃ status, status ∈ statuses ∧ x = mkBugState status "".
Proof.
  revert s. induction statuses as [|y statuses IH]; intros s; cbn [foldl].
  - setoid_rewrite elem_of_nil. naive_solver.
  - rewrite IH, elem_of_Insert, list_elem_of_singleton. setoid_rewrite elem_of_cons. naive_solver.
Qed.

Lemma NoDup_set_range `{Countable K} (s : gset K) : NoDup (set_range s).
Proof. apply NoDup_map_range. Qed.

(** The union of the states and the bare statuses, in order and without duplicates, or
    nothing if there are none. *)
Lemma mergeStatusesIntoStates_spec states statuses :
  let l := default [] (mergeStatusesIntoStates states statuses) in
  (∀ x, x ∈ l ↔ x ∈ default [] states ∨ ∃ status, status ∈ default [] statuses ∧ x = mkBugState status "") ∧
  StronglySorted state_le l ∧ NoDup l ∧ mergeStatusesIntoStates states statuses ≠ Some [].
Proof.
  unfold mergeStatusesIntoStates. set (s := foldl _ _ _).
  assert (default [] (match merge_sort state_le (set_range s) with [] => None | n => Some n end)
          = merge_sort state_le (set_range s)) as -> by by destruct (merge_sort _ _).
  split_and!.
  - intros x. rewrite merge_sort_Permutation, elem_of_set_range. unfold s.
    rewrite elem_of_insert_statuses, elem_of_Insert. set_solver.
  - apply (StronglySorted_merge_sort _).
  - rewrite merge_sort_Permutation. apply NoDup_set_range.
  - by destruct (merge_sort _ _).
Qed.

Lemma statesMatch_spec first second :
  statesMatch first second = true ↔ length first = length second ∧ ∀ x, x ∈ first → x ∈ second.
Proof.
  unfold statesMatch, NewBugzillaBugStateSet, Has. case_bool_decide as Hl.
  - split; [done|]. by intros [? _].
  - rewrite forallb_forall. split.
    + intros Hs. split; [done|]. intros x Hx. specialize (Hs x).
      rewrite <- list_elem_of_In, elem_of_set_range, bool_decide_eq_true, !elem_of_list_to_set in Hs. auto.
    + intros [_ Hs] x. rewrite <- list_elem_of_In, elem_of_set_range, bool_decide_eq_true, !elem_of_list_to_set.
      auto.
Qed.

Lemma matches_refl o : matches o o = true.
Proof.
  assert (∀ l, statesMatch l l = true) as Hs by by intros; apply statesMatch_spec.
  assert (∀ A `{EqDecision A} (x : A), same x x = true) as Hr by by intros; apply bool_decide_eq_true.
  unfold matches, both. by repeat (case_match; rewrite ?Hs, ?Hr).
Qed.
End state_lemmas.

(** Two lists with the same length need not have the same states for the first to match. *)
Lemma statesMatch_asymmetric `{GoRange} a b : a ≠ b →
  statesMatch [a; a] [a; b] = true ∧ statesMatch [a; b] [a; a] = false.
Proof.
  intros Hab. split; [apply statesMatch_spec; set_solver|].
  apply not_true_iff_false. rewrite statesMatch_spec. set_solver.
Qed.

Lemma Matches_true s bug : Matches (Some s) (Some bug) = true ↔
  (bs_Status s = "" ∨ bs_Status s = bug_Status bug) ∧
  (bs_Resolution s = "" ∨ bs_Resolution s = bug_Resolution bug).
Proof.
  unfold Matches.
  destruct (decide (bs_Status s = "")), (decide (bs_Status s = bug_Status bug)),
    (decide (bs_Resolution s = "")), (decide (bs_Resolution s = bug_Resolution bug));
    repeat case_bool_decide; naive_solver.
Qed.

Lemma differs_true s a : differs s a = true ↔ s ≠ "" ∧ a ≠ Some s.
Proof. apply bool_decide_eq_true. Qed.

Lemma differs_false s a : differs s a = false ↔ s = "" ∨ a = Some s.
Proof.
  rewrite <- not_true_iff_false, differs_true. destruct (decide (s = "")), (decide (a = Some s)); naive_solver.
Qed.

(** An update is made exactly for a bug that is not in the state, and brings it there. *)
Lemma AsBugUpdate_spec s bug :
  match AsBugUpdate (Some s) (Some bug) with
  | None => Matches (Some s) (Some bug) = true
  | Some u => Matches (Some s) (Some bug) = false ∧ Matches (Some s) (Some (apply_update u bug)) = true
  end.
Proof.
  unfold AsBugUpdate. cbn [fmap option_fmap option_map].
  destruct (differs (bs_Status s) _) eqn:E1, (differs (bs_Resolution s) _) eqn:E2; cbn [orb];
    rewrite ?differs_true, ?differs_false in *; rewrite <- ?not_true_iff_false, ?Matches_true; cbn;
    repeat (case_bool_decide; try done); destruct s, bug; naive_solver.
Qed.

(** ** The cascade

    The most specific table that sets an option decides; inside a table the entry of
    the branch comes before the wildcard. *)

Section cascade.
Context `{GoRange}.

(** The tables that apply, the most general one first. *)
Definition tables (b : Bugzilla) (org repo : string) : list (gmap string BugzillaBranchOptions) :=
  bz_Default b ::
  match bz_Orgs b !! org with
  | None => []
  | Some o => bg_Default o :: match bg_Repos o !! repo with
                              | None => []
                              | Some r => [br_Branches r]
                              end
  end.

(** An option: its field after resolution, what an entry says, and whether it says it. *)
Record reading (A : Type) := mkReading {
  rd_get : BugzillaBranchOptions → option A;
  rd_own : BugzillaBranchOptions → option A;
  rd_sets : BugzillaBranchOptions → bool }.
Arguments mkReading {A} _ _ _.
Arguments rd_get {A} _ _.
Arguments rd_own {A} _ _.
Arguments rd_sets {A} _ _.

Definition plain {A} (f : BugzillaBranchOptions → option A) : reading A :=
  mkReading f f (isSome ∘ f).
Definition states_of (f : BugzillaBranchOptions → option (list BugzillaBugState))
    (g : BugzillaBranchOptions → option (list string)) : reading (list BugzillaBugState) :=
  mkReading f (λ o, merge_if (f o) (g o)) (λ o, isSome (f o) || isSome (g o)).
Definition state_of (f : BugzillaBranchOptions → option BugzillaBugState)
    (g : BugzillaBranchOptions → option string) : reading BugzillaBugState :=
  let own o := override ((λ s, mkBugState s "") <$> g o) (f o) in
  mkReading f own (isSome ∘ own).

Definition excludes (o : BugzillaBranchOptions) : bool := default false (bo_ExcludeDefaults o).

Definition in_table {A} (r : reading A) (branch : string) (t : gmap string BugzillaBranchOptions)
    : option A :=
  let wildcard := default no_options (t !! BugzillaOptionsWildcard) in
  let entry := default no_options (t !! branch) in
  if rd_sets r entry then rd_own r entry
  else if excludes entry then None else rd_own r wildcard.

Definition most_specific {A} (r : reading A) (b : Bugzilla) (org repo branch : string) : option A :=
  last (omap (in_table r branch) (tables b org repo)).

(** Resolution does what the reading says, and what it returns is read as it is. *)
Class Resolved {A} (r : reading A) : Prop := {
  resolved_get : ∀ p c, rd_get r (ResolveBugzillaOptions p c) =
    if rd_sets r c then rd_own r c else if excludes c then None else rd_own r p;
  resolved_own : ∀ p c, rd_own r (ResolveBugzillaOptions p c) = rd_get r (ResolveBugzillaOptions p c);
  resolved_sets : ∀ p c,
    rd_sets r (ResolveBugzillaOptions p c) = isSome (rd_get r (ResolveBugzillaOptions p c)) }.

Ltac resolved := split; intros [] [];
  unfold ResolveBugzillaOptions, excludes, override_states, override_state, merge_if;
  cbn -[mergeStatusesIntoStates]; unfold override, isSome;
  repeat (case_match; cbn -[mergeStatusesIntoStates] in *; simplify_eq; try done).

#[export] Instance ValidateByDefault_resolved : Resolved (plain bo_ValidateByDefault).
Proof. resolved. Qed.
#[export] Instance IsOpen_resolved : Resolved (plain bo_IsOpen).
Proof. resolved. Qed.
#[export] Instance TargetRelease_resolved : Resolved (plain bo_TargetRelease).
Proof. resolved. Qed.
#[export] Instance AddExternalLink_resolved : Resolved (plain bo_AddExternalLink).
Proof. resolved. Qed.
#[export] Instance ValidStates_resolved : Resolved (states_of bo_ValidStates bo_Statuses).
Proof. resolved. Qed.
#[export] Instance DependentBugStates_resolved :
  Resolved (states_of bo_DependentBugStates bo_DependentBugStatuses).
Proof. resolved. Qed.
#[export] Instance StateAfterValidation_resolved :
  Resolved (state_of bo_StateAfterValidation bo_StatusAfterValidation).
Proof. resolved. Qed.
#[export] Instance StateAfterMerge_resolved : Resolved (state_of bo_StateAfterMerge bo_StatusAfterMerge).
Proof. resolved. Qed.

Section one.
Context {A} (r : reading A) `{!Resolved r}.

Lemma OptionsForItem_get branch t : rd_get r (OptionsForItem branch t) = in_table r branch t.
Proof. apply resolved_get. Qed.

(** A more specific table on top of what was resolved so far. *)
Lemma resolve_table q branch t :
  rd_own r q = rd_get r q →
  rd_get r (ResolveBugzillaOptions q (OptionsForItem branch t)) = override (rd_get r q) (in_table r branch t).
Proof.
  intros Hq. rewrite resolved_get, Hq, <- (OptionsForItem_get branch t). unfold OptionsForItem.
  rewrite resolved_sets, resolved_own. by destruct (rd_get r (ResolveBugzillaOptions _ _)).
Qed.

Lemma cascade org repo branch b :
  rd_get r (OptionsForBranch b org repo branch) = most_specific r b org repo branch.
Proof.
  unfold OptionsForBranch, most_specific, tables.
  destruct (bz_Orgs b !! org) as [o|]; [|cbn -[in_table]; rewrite OptionsForItem_get; by case_match].
  destruct (bg_Repos o !! repo) as [rp|]; cbn -[in_table];
    rewrite !resolve_table, OptionsForItem_get by apply resolved_own;
    by repeat (case_match; cbn -[in_table]).
Qed.
End one.
End cascade.

Arguments rd_get {A} _ _.
Arguments rd_own {A} _ _.
Arguments rd_sets {A} _ _.

(** ** The options of a repository *)

Lemma foldl_delete_lookup `{Countable K} {A} (l : list K) (m : gmap K A) k :
  foldl (λ m k, delete k m) m l !! k = if bool_decide (k ∈ l) then None else m !! k.
Proof.
  revert m. induction l as [|x l IH]; intros m; cbn [foldl]; [done|]. rewrite IH.
  destruct (decide (k = x)) as [->|Hne].
  - rewrite (bool_decide_eq_true_2 (x ∈ x :: l)) by set_solver.
    rewrite lookup_delete_eq. by case_bool_decide.
  - rewrite lookup_delete_ne by done.
    rewrite (bool_decide_ext (k ∈ x :: l) (k ∈ l)); [done|]. set_solver.
Qed.

Section repo_options.
Context `{GoRange} (b : Bugzilla) (org repo : string).

Let of_branch branch := OptionsForBranch b org repo branch.

Lemma note_branches_lookup t options branch :
  note_branches b org repo t options !! branch =
  match t !! branch with Some _ => Some (of_branch branch) | None => options !! branch end.
Proof.
  unfold note_branches.
  assert (∀ l opts, foldl (λ options br, <[br := OptionsForBranch b org repo br]> options) opts l !! branch
                    = if bool_decide (branch ∈ l) then Some (of_branch branch) else opts !! branch) as ->.
  { intros l. induction l as [|x l IH]; intros opts; cbn [foldl]; [done|]. rewrite IH.
    destruct (decide (branch = x)) as [->|Hne].
    - rewrite lookup_insert_eq, (bool_decide_eq_true_2 (x ∈ x :: l)) by set_solver. by case_bool_decide.
    - rewrite lookup_insert_ne by done. rewrite (bool_decide_ext (branch ∈ x :: l) (branch ∈ l)); [done|].
      set_solver. }
  assert (branch ∈ (map_range t).*1 ↔ is_Some (t !! branch)) as Hb.
  { rewrite list_elem_of_fmap. split.
    - intros ([k a] & -> & Hk%elem_of_map_range). by eexists.
    - intros [a Ha%elem_of_map_range]. by exists (branch, a). }
  destruct (t !! branch) as [a|].
  - rewrite bool_decide_eq_true_2; [done|]. apply Hb. by eexists.
  - rewrite bool_decide_eq_false_2; [done|]. rewrite Hb. by intros [].
Qed.

(** The entry of the wildcard on top of itself adds nothing. *)
Lemma resolve_self o : ResolveBugzillaOptions o o = ResolveBugzillaOptions o no_options.
Proof.
  destruct o as [ex ? ? ? sts vs dsts ds ? sv stv ? sm stm]. unfold ResolveBugzillaOptions, populate, override_states,
    override_state, merge_if. cbn -[mergeStatusesIntoStates].
  destruct ex as [[]|]; unfold override; cbn -[mergeStatusesIntoStates];
    f_equal; repeat (case_match; cbn -[mergeStatusesIntoStates] in *; simplify_eq; try done).
Qed.

Lemma unnamed_item branch t : t !! branch = None →
  OptionsForItem branch t = OptionsForItem BugzillaOptionsWildcard t.
Proof. intros E. unfold OptionsForItem. rewrite E. cbn. by rewrite resolve_self. Qed.

Definition named (branch : string) : Prop :=
  ∃ t, t ∈ tables b org repo ∧ is_Some (t !! branch).

(** A branch that no table names has the options of the wildcard. *)
Lemma unnamed_branch branch : ¬ named branch → of_branch branch = of_branch BugzillaOptionsWildcard.
Proof.
  intros Hn. assert (∀ t, t ∈ tables b org repo → t !! branch = None) as Ht.
  { intros t Hin. apply eq_None_not_Some. intros Hs. apply Hn. by exists t. }
  unfold of_branch, OptionsForBranch. unfold tables in Ht.
  destruct (bz_Orgs b !! org) as [o|]; [destruct (bg_Repos o !! repo)|];
    rewrite !(unnamed_item branch) by (apply Ht; set_solver); done.
Qed.

Lemma nothing_configured : ¬ named BugzillaOptionsWildcard →
  of_branch BugzillaOptionsWildcard = no_options.
Proof.
  intros Hn. assert (∀ t, t ∈ tables b org repo → OptionsForItem BugzillaOptionsWildcard t = no_options) as Ht.
  { intros t Hin. unfold OptionsForItem. destruct (t !! BugzillaOptionsWildcard) eqn:E; [|done].
    exfalso. apply Hn. exists t. by rewrite E. }
  unfold of_branch, OptionsForBranch. unfold tables in Ht.
  destruct (bz_Orgs b !! org) as [o|]; [destruct (bg_Repos o !! repo)|];
    rewrite !Ht by set_solver; done.
Qed.

(** All named branches, before the redundant ones are left out. *)
Lemma noted_branches branch :
  let orgOptions := default (mkOrgOptions ∅ ∅) (bz_Orgs b !! org) in
  let repoOptions := default (mkRepoOptions ∅) (bg_Repos orgOptions !! repo) in
  let full := note_branches b org repo (br_Branches repoOptions)
    (note_branches b org repo (bg_Default orgOptions) (note_branches b org repo (bz_Default b) ∅)) in
  (named branch ∧ full !! branch = Some (of_branch branch)) ∨ (¬ named branch ∧ full !! branch = None).
Proof.
  cbn zeta. rewrite !note_branches_lookup, lookup_empty.
  set (orgOptions := default _ (bz_Orgs b !! org)). set (repoOptions := default _ (bg_Repos orgOptions !! repo)).
  assert (named branch ↔ is_Some (br_Branches repoOptions !! branch) ∨ is_Some (bg_Default orgOptions !! branch)
                         ∨ is_Some (bz_Default b !! branch)) as ->.
  { unfold named, tables, repoOptions, orgOptions. clear repoOptions orgOptions.
    destruct (bz_Orgs b !! org) as [o|]; cbn; [destruct (bg_Repos o !! repo) as [rp|]; cbn|];
      rewrite ?lookup_empty; cbn; (split; [intros (t & Ht & Hs)|intros Hs]);
      rewrite ?elem_of_cons, ?elem_of_nil in *; try (naive_solver; fail);
      destruct Hs as [Hs|[Hs|Hs]]; try (by destruct Hs);
      eexists; (split; [|exact Hs]); set_solver. }
  destruct (br_Branches repoOptions !! branch); [left; eauto|].
  destruct (bg_Default orgOptions !! branch); [left; eauto|].
  destruct (bz_Default b !! branch); [left; eauto|].
  right. split; [|done]. by intros [[]|[[]|[]]].
Qed.

(** What the map says of a branch, by its entry or by the wildcard's, matches the options
    of the branch; entries that say what the wildcard says are left out. *)
Lemma OptionsForRepo_ok branch :
  let options := OptionsForRepo b org repo in
  let wildcard := default no_options (options !! BugzillaOptionsWildcard) in
  wildcard = of_branch BugzillaOptionsWildcard ∧
  matches (of_branch branch) (default wildcard (options !! branch)) = true ∧
  (∀ o, options !! branch = Some o → o = of_branch branch ∧
     (branch = BugzillaOptionsWildcard ∨ matches o wildcard = false)).
Proof.
  cbn zeta. unfold OptionsForRepo. cbn zeta. set (full := note_branches _ _ _ (br_Branches _) _).
  assert (∀ br, (named br ∧ full !! br = Some (of_branch br)) ∨ (¬ named br ∧ full !! br = None)) as Hf
    by apply noted_branches. clearbody full.
  set (w := default no_options (full !! _)). set (dropped := (filter _ (map_range full)).*1).
  assert (w = of_branch BugzillaOptionsWildcard) as Hw.
  { unfold w. destruct (Hf BugzillaOptionsWildcard) as [[_ ->]|[Hn ->]]; [done|].
    by rewrite nothing_configured. }
  assert (∀ br, br ∈ dropped ↔ ∃ o, full !! br = Some o ∧ matches o w = true ∧ br ≠ BugzillaOptionsWildcard)
    as Hd.
  { intros br. unfold dropped. rewrite list_elem_of_fmap. split.
    - intros ([k o] & -> & [Hk Hin]%list_elem_of_filter). apply elem_of_map_range in Hin. by exists o.
    - intros (o & Ho & Hm). exists (br, o). split; [done|]. apply list_elem_of_filter.
      by rewrite elem_of_map_range. }
  assert (∀ br, foldl (λ opts br, delete br opts) full dropped !! br
                = if bool_decide (br ∈ dropped) then None else full !! br) as Hl
    by (intros br; apply foldl_delete_lookup).
  rewrite !Hl. assert (bool_decide (BugzillaOptionsWildcard ∈ dropped) = false) as ->.
  { apply bool_decide_eq_false. rewrite Hd. naive_solver. }
  fold w. split_and!; [done| |].
  - case_bool_decide as Hb.
    + apply Hd in Hb as (o & Ho & Hm & _). cbn. by destruct (Hf branch) as [[_ Eo]|[_ Eo]]; simplify_eq.
    + destruct (Hf branch) as [[_ ->]|[Hn ->]]; cbn; [apply matches_refl|].
      rewrite Hw, unnamed_branch by done. apply matches_refl.
  - intros o Ho. case_bool_decide as Hb; [done|].
    destruct (Hf branch) as [[_ Eo]|[_ Eo]]; [|congruence]. split; [congruence|].
    destruct (decide (branch = BugzillaOptionsWildcard)); [by left|right].
    apply not_true_iff_false. intros Hm. apply Hb, Hd. by exists o.
Qed.
End repo_options.

(** Whatever the configuration says about the release of dependent bugs is dropped. *)
Lemma dependent_release_dropped `{GoRange} b org repo branch :
  bo_DependentBugTargetRelease (OptionsForBranch b org repo branch) = None.
Proof. unfold OptionsForBranch. by repeat case_match. Qed.

(** An entry that excludes defaults is excluded from the wildcard beside it only, not from
    the options of the organization or the global ones. *)
Example excludes_own_table_only :
  let H := listing_order in
  let open := mkBranchOptions None None (Some true) None None None None None None None None None None None in
  let excluding := mkBranchOptions (Some true) None None (Some "4.0") None None None None None None None None None None in
  let b := mkBugzilla {["*" := open]}
             {["org" := mkOrgOptions ∅ {["repo" := mkRepoOptions {["main" := excluding]}]}]} in
  bo_IsOpen (OptionsForBranch b "org" "repo" "main") = Some true.
Proof. vm_compute. reflexivity. Qed.

(** Every field of the options of a branch is what the most specific table says. *)
Lemma OptionsForBranch_fields `{GoRange} b org repo branch :
  let o := OptionsForBranch b org repo branch in
  let resolved A (r : reading A) := most_specific r b org repo branch in
  o = mkBranchOptions None
        (resolved _ (plain bo_ValidateByDefault)) (resolved _ (plain bo_IsOpen))
        (resolved _ (plain bo_TargetRelease)) None (resolved _ (states_of bo_ValidStates bo_Statuses)) None
        (resolved _ (states_of bo_DependentBugStates bo_DependentBugStatuses)) None None
        (resolved _ (state_of bo_StateAfterValidation bo_StatusAfterValidation))
        (resolved _ (plain bo_AddExternalLink)) None
        (resolved _ (state_of bo_StateAfterMerge bo_StatusAfterMerge)).
Proof.
  cbn zeta beta. rewrite <- !cascade by apply _. cbn [rd_get plain states_of state_of].
  unfold OptionsForBranch. by repeat case_match.
Qed.

(** ** Entries without exclusions *)

Section entries.
Context `{GoRange} (b : Bugzilla) (org repo branch : string).

(** The entries that concern a branch, the most specific first: of the repository, of the
    organization and the global ones, that of the branch before the wildcard. *)
Definition entries : list BugzillaBranchOptions :=
  let table t := option_list (t !! branch) ++ option_list (t !! "*") in
  match bz_Orgs b !! org with
  | None => []
  | Some o => match bg_Repos o !! repo with None => [] | Some r => table (br_Branches r) end ++ table (bg_Default o)
  end ++ table (bz_Default b).

(** An entry that excludes nothing, and names a status where it gives a list of them. *)
Definition ordinary (e : BugzillaBranchOptions) : Prop :=
  bo_ExcludeDefaults e ≠ Some true ∧ bo_Statuses e ≠ Some [] ∧ bo_DependentBugStatuses e ≠ Some [].

(** The first entry that sets a field decides. *)
Definition first_set {A} (f : BugzillaBranchOptions → option A) : option A := head (omap f entries).

(** A state, or a status that stands for one. *)
Definition state_or_status (f : BugzillaBranchOptions → option BugzillaBugState)
    (g : BugzillaBranchOptions → option string) (e : BugzillaBranchOptions) : option BugzillaBugState :=
  match f e, g e with
  | Some s, _ => Some s
  | None, Some status => Some (mkBugState status "")
  | None, None => None
  end.

(** The states of the first entry that gives states or statuses, and its statuses. *)
Definition first_states (f : BugzillaBranchOptions → option (list BugzillaBugState))
    (g : BugzillaBranchOptions → option (list string)) (v : option (list BugzillaBugState)) : Prop :=
  match head (filter (λ e, is_Some (f e) ∨ is_Some (g e)) entries) with
  | None => v = None
  | Some e => ∃ l, v = Some l ∧
      ∀ s, s ∈ l ↔ s ∈ default [] (f e) ∨ ∃ status, status ∈ default [] (g e) ∧ s = mkBugState status ""
  end.

Lemma head_omap_app {A B} (f : A → option B) l1 l2 :
  head (omap f (l1 ++ l2)) = match head (omap f l1) with Some y => Some y | None => head (omap f l2) end.
Proof. rewrite omap_app. by destruct (omap f l1). Qed.

Section reading.
Context {A} (r : reading A).
Hypothesis sets_own : ∀ e, e ∈ entries → rd_sets r e = isSome (rd_own r e).
Hypothesis nothing : rd_sets r no_options = false ∧ rd_own r no_options = None.

Lemma in_table_first (t : gmap string BugzillaBranchOptions) :
  let l := option_list (t !! branch) ++ option_list (t !! "*") in
  (∀ e, e ∈ l → e ∈ entries ∧ excludes e = false) → in_table r branch t = head (omap (rd_own r) l).
Proof.
  cbn zeta. intros Hl. unfold in_table. change BugzillaOptionsWildcard with "*". destruct nothing as [Hs Ho].
  rewrite head_omap_app.
  assert (head (omap (rd_own r) (option_list (t !! "*"))) = rd_own r (default no_options (t !! "*"))) as ->.
  { destruct (t !! "*") as [w|]; cbn; [by destruct (rd_own r w)|done]. }
  destruct (t !! branch) as [e|]; cbn [option_list default from_option id] in *; [|by rewrite Hs].
  destruct (Hl e) as [Hin Hex]; [left|]. rewrite sets_own, Hex by done. cbn. by destruct (rd_own r e).
Qed.

Lemma most_specific_first :
  (∀ e, e ∈ entries → excludes e = false) → most_specific r b org repo branch = first_set (rd_own r).
Proof.
  intros Hex. unfold most_specific, first_set, tables.
  assert (∀ t, (∀ e, e ∈ option_list (t !! branch) ++ option_list (t !! "*") → e ∈ entries) →
    in_table r branch t = head (omap (rd_own r) (option_list (t !! branch) ++ option_list (t !! "*")))) as Ht.
  { intros t Hl. apply in_table_first. intros e He. auto. }
  unfold entries in *. destruct (bz_Orgs b !! org) as [o|]; [destruct (bg_Repos o !! repo) as [rp|]|].
  - cbn -[in_table]. rewrite !Ht by (intros e He; rewrite !elem_of_app in *; tauto).
    rewrite <- (assoc_L (++)), !(head_omap_app _ (_ ++ _)).
    do 3 (destruct (head (omap (rd_own r) (_ ++ _))); cbn); done.
  - cbn -[in_table]. rewrite !Ht by (intros e He; rewrite !elem_of_app in *; tauto).
    rewrite !(head_omap_app _ (_ ++ _)). do 2 (destruct (head (omap (rd_own r) (_ ++ _))); cbn); done.
  - cbn -[in_table]. rewrite Ht by (intros e He; done). by destruct (head _).
Qed.
End reading.

Lemma merge_if_ok states statuses :
  statuses ≠ Some [] →
  (merge_if states statuses = None ↔ states = None ∧ statuses = None) ∧
  ∀ s, s ∈ default [] (merge_if states statuses) ↔
    s ∈ default [] states ∨ ∃ status, status ∈ default [] statuses ∧ s = mkBugState status "".
Proof.
  intros Hne. unfold merge_if. destruct statuses as [l|].
  - destruct (mergeStatusesIntoStates_spec states (Some l)) as (Hm & _ & _ & _). split; [|done]. split; [|by intros []].
    intros E. rewrite E in Hm. destruct l as [|st l]; [done|]. exfalso.
    apply (not_elem_of_nil (mkBugState st "")), Hm. right. exists st. split; [left|done].
  - split; [naive_solver|]. intros s. cbn. setoid_rewrite elem_of_nil. naive_solver.
Qed.

Lemma first_states_ok f g :
  (∀ e, e ∈ entries → g e ≠ Some []) → first_states f g (first_set (rd_own (states_of f g))).
Proof.
  intros Hg. unfold first_states, first_set. cbn [rd_own states_of].
  induction entries as [|e l IH]; [done|]. rewrite filter_cons. cbn [omap list_omap].
  destruct (merge_if_ok (f e) (g e)) as [Hn Hs]; [apply Hg; left|]. case_decide as Hd.
  - cbn [head]. destruct (merge_if (f e) (g e)) as [v|] eqn:Em; [by exists v|].
    destruct (proj1 Hn eq_refl) as [E1 E2]. rewrite E1, E2 in Hd. by destruct Hd as [[]|[]].
  - assert (merge_if (f e) (g e) = None) as ->.
    { apply Hn. split; apply eq_None_not_Some; tauto. }
    apply IH. intros e' He'. apply Hg. by right.
Qed.
End entries.

(** The same settings: the flags and states after events equal, and as many valid states,
    those of the first among those of the second. *)
Definition agree (o o' : BugzillaBranchOptions) : Prop :=
  let states x y := match x, y with
    | None, None => True | Some l, Some l' => length l = length l' ∧ l ⊆ l' | _, _ => False end in
  bo_ValidateByDefault o = bo_ValidateByDefault o' ∧ bo_IsOpen o = bo_IsOpen o' ∧
  bo_TargetRelease o = bo_TargetRelease o' ∧ bo_AddExternalLink o = bo_AddExternalLink o' ∧
  bo_StateAfterValidation o = bo_StateAfterValidation o' ∧ bo_StateAfterMerge o = bo_StateAfterMerge o' ∧
  states (bo_ValidStates o) (bo_ValidStates o') ∧ states (bo_DependentBugStates o) (bo_DependentBugStates o').

Lemma matches_agree `{GoRange} o o' : matches o o' = true → agree o o'.
Proof.
  unfold matches, agree. rewrite !andb_true_iff. intros Hm.
  assert (∀ A `{EqDecision A} (x y : option A), both same x y = true → x = y) as Hs.
  { intros A ? [x|] [y|]; try done. cbn. unfold same. rewrite bool_decide_eq_true. by intros ->. }
  assert (∀ x y, both statesMatch x y = true → match x, y with
    | None, None => True | Some l, Some l' => length l = length l' ∧ l ⊆ l' | _, _ => False end) as Hl.
  { intros [x|] [y|]; try done. cbn. by rewrite statesMatch_spec. }
  destruct Hm as [[[[[[[? ?] ?] ?] ?] ?] ?] ?].
  refine (conj _ (conj _ (conj _ (conj _ (conj _ (conj _ (conj _ _)))))));
    first [by eapply Hs | by apply (Hl (Some _) (Some _)) | by apply Hl].
Qed.

