(* ===== verification/BugzillaClient.v ===== *)
(** * The client of Bugzilla (bugzilla/client.go)

    Requests to the REST and JSONRPC interfaces of a Bugzilla server, and the
    identifiers under which a tracker knows a pull request. *)

From S2P Require Import Prelude GoText BugzillaOptions.
#[local] Open Scope go_scope.

(** ** Identifiers of pull requests *)

Definition IdentifierForPull (org repo : string) (num : Z) : string :=
  org +:+ "/" +:+ repo +:+ "/pull/" +:+ itoa num.

(** An identifier for something else than a pull request has an error type of its own. *)
Inductive identifier_error : Type :=
| identifierNotForPull (identifier : string)
| invalidIdentifier (e : error).
Definition IsIdentifierNotForPullErr (e : identifier_error) : bool :=
  match e with identifierNotForPull _ => true | _ => false end.
Definition identifier_Error (e : identifier_error) : error :=
  match e with
  | identifierNotForPull id => Errorf "identifier %q is not for a pull request" [AStr id]
  | invalidIdentifier e => e
  end.

Definition PullFromIdentifier (identifier : string) : (string * string * Z) + identifier_error :=
  match split_char "/" identifier with
  | [p0; p1; p2; p3] =>
      if bool_decide (p2 ≠ "pull") then inr (identifierNotForPull identifier)
      else match Atoi p3 with
           | Ok number => inl (p0, p1, number)
           | Err e => inr (invalidIdentifier
               (Errorf "invalid pull identifier: could not parse %s as number: %v" [AStr p3; AErr e]))
           end
  | parts => inr (invalidIdentifier
      (Errorf "invalid pull identifier with %d parts: %q" [AInt (Z.of_nat (length parts)); AStr identifier]))
  end.

(** ** Data *)

Record ExternalBug := mkExternalBug {
  eb_TypeURL : string; eb_BugzillaBugID : Z; eb_ExternalBugID : string;
  eb_Org : string; eb_Repo : string; eb_Num : Z }.
Definition github_url : string := "https://github.com/".

(** The payload of [ExternalBugs.add_external_bug]; [rp_Result]: ID and added external bugs. *)
Record AddExternalBugParameters := mkAddExternalBugParameters {
  ap_APIKey : string; ap_BugIDs : list Z; ap_ExternalBugs : list (string * string) }.
Record rpcPayload := mkRpcPayload {
  rp_Version : string; rp_Method : string; rp_Parameters : list AddExternalBugParameters; rp_ID : string }.
Record rpcResponse := mkRpcResponse {
  rr_Error : option (Z * string); rr_ID : string; rr_Result : option (list (Z * string)) }.

Record Request := mkRequest {
  rq_Method : string; rq_URL : string; rq_Query : list (string * string);
  rq_Header : list (string * string); rq_Body : option string }.
(** [rs_Body]: the body, unless it cannot be read. *)
Record Response := mkResponse { rs_StatusCode : Z; rs_Body : result string }.
(** [http.Client.Do] may come with a response beside its error. *)
Inductive Answer : Type :=
| Answered (resp : Response)
| Failed (code : option Z) (e : error).

(** [requestError] keeps the status of the response, minus one without a response. *)
Inductive bz_error : Type :=
| requestError (statusCode : Z) (message : error)
| other_error (e : error).
Definition bz_Error (e : bz_error) : error :=
  match e with requestError _ m => m | other_error e => e end.
Definition IsNotFound (e : bz_error) : bool :=
  match e with requestError code _ => bool_decide (code = 404)%Z | other_error _ => false end.

Section client.
(** The key, the endpoint, [http.NewRequest]'s errors, the server, and the JSON codecs. *)
Context (apiKey endpoint : string) (new_request : string → option error)
  (send : list Request → Answer)
  (unmarshal_bugs : string → result (list (option Bug)))
  (unmarshal_external : string → result (list (list ExternalBug)))
  (unmarshal_rpc : string → result rpcResponse)
  (Marshal_update : BugUpdate → result string) (Marshal_rpc : rpcPayload → result string).

(** [if apiKey := c.getAPIKey(); len(apiKey) > 0] *)
Definition authorized (req : Request) : Request :=
  if bool_decide (apiKey = "") then req
  else mkRequest (rq_Method req) (rq_URL req) (rq_Query req ++ [("api_key", apiKey)])
         (rq_Header req ++ [("X-BUGZILLA-API-KEY", apiKey)]) (rq_Body req).

Definition response (a : Answer) : string + bz_error :=
  match a with
  | Failed code e => inr (requestError (default (-1)%Z code) e)
  | Answered resp =>
      if bool_decide (rs_StatusCode resp ≠ 200)%Z
      then inr (requestError (rs_StatusCode resp)
                  (Errorf "response code %d not %d" [AInt (rs_StatusCode resp); AInt 200]))
      else match rs_Body resp with
           | Ok raw => inl raw
           | Err e => inr (other_error (Errorf "could not read response body: %v" [AErr e]))
           end
  end.

Definition request (req : Request) : M Request (string + bz_error) :=
  r ← call send (authorized req);
  mret (response r).

Definition bug_url (id : Z) : string := endpoint +:+ "/rest/bug/" +:+ itoa id.

(** [http.NewRequest], the request, and what is made of its body. *)
Definition exchange {A} (req : Request) (decode : string → A + bz_error) : M Request (A + bz_error) :=
  match new_request (rq_URL req) with
  | Some e => mret (inr (other_error e))
  | None =>
      r ← request req;
      mret (match r with inl raw => decode raw | inr e => inr e end)
  end.

Definition unmarshalled {A B} (format : string) (r : result A) (k : A → B + bz_error) : B + bz_error :=
  match r with Ok a => k a | Err e => inr (other_error (Errorf format [AErr e])) end.

(** [did not get one bug]: the whole response is printed too. *)
Definition one_of {A B} (bugs : list A) (k : A → B + bz_error) : B + bz_error :=
  match bugs with
  | [bug] => k bug
  | _ => inr (other_error (Errorf "did not get one bug, but %d" [AInt (Z.of_nat (length bugs))]))
  end.

Definition GetBug (id : Z) : M Request (option Bug + bz_error) :=
  exchange (mkRequest "GET" (bug_url id) [] [] None) (λ raw,
    unmarshalled "could not unmarshal response body: %v" (unmarshal_bugs raw) (λ bugs, one_of bugs inl)).

(** The external bugs that are pull requests on GitHub. *)
Fixpoint external_prs (id : Z) (bugs : list ExternalBug) : list ExternalBug + bz_error :=
  match bugs with
  | [] => inl []
  | bug :: bugs =>
      if bool_decide (eb_BugzillaBugID bug ≠ id) then external_prs id bugs
      else if bool_decide (eb_TypeURL bug ≠ github_url) then external_prs id bugs
      else match PullFromIdentifier (eb_ExternalBugID bug) with
           | inr err =>
               if IsIdentifierNotForPullErr err then external_prs id bugs
               else inr (other_error (Errorf "could not parse external identifier %q as pull: %v"
                      [AStr (eb_ExternalBugID bug); AErr (identifier_Error err)]))
           | inl (org, repo, num) =>
               match external_prs id bugs with
               | inl prs => inl (mkExternalBug (eb_TypeURL bug) (eb_BugzillaBugID bug)
                                   (eb_ExternalBugID bug) org repo num :: prs)
               | inr e => inr e
               end
           end
  end.

Definition GetExternalBugPRsOnBug (id : Z) : M Request (list ExternalBug + bz_error) :=
  exchange (mkRequest "GET" (bug_url id) [("include_fields", "external_bugs")] [] None) (λ raw,
    unmarshalled "could not unmarshal response body: %v" (unmarshal_external raw)
      (λ bugs, one_of bugs (external_prs id))).

Definition json : list (string * string) := [("Content-Type", "application/json")].

Definition UpdateBug (id : Z) (update : BugUpdate) : M Request (unit + bz_error) :=
  match Marshal_update update with
  | Err e => mret (inr (other_error (Errorf "failed to marshal update payload: %v" [AErr e])))
  | Ok body => exchange (mkRequest "PUT" (bug_url id) [] json (Some body)) (λ _, inl tt)
  end.

Definition rpc_identifier : string := "identifier".
Definition external_bug_payload (id : Z) (pullIdentifier : string) : rpcPayload :=
  mkRpcPayload "1.0" "ExternalBugs.add_external_bug"
    [mkAddExternalBugParameters apiKey [id] [(github_url, pullIdentifier)]] rpc_identifier.

(** Was something added to the bug? *)
Definition rpc_changed (id : Z) (pullIdentifier : string) (raw : string) : bool + bz_error :=
  unmarshalled "failed to unmarshal JSONRPC response: %v" (unmarshal_rpc raw) (λ response,
    match rr_Error response with
    | Some (code, message) => inr (other_error (Errorf "JSONRPC error %d: %v" [AInt code; AStr message]))
    | None =>
        if bool_decide (rr_ID response ≠ rpc_identifier)
        then inr (other_error (Errorf "JSONRPC returned mismatched identifier, expected %s but got %s"
               [AStr rpc_identifier; AStr (rr_ID response)]))
        else inl (existsb (λ '(bug_id, added), bool_decide (bug_id = id) && contains added pullIdentifier)
                    (default [] (rr_Result response)))
    end).

Definition AddPullRequestAsExternalBug (id : Z) (org repo : string) (num : Z) : M Request (bool + bz_error) :=
  let pullIdentifier := IdentifierForPull org repo num in
  match Marshal_rpc (external_bug_payload id pullIdentifier) with
  | Err e => mret (inr (other_error (Errorf "failed to marshal JSONRPC payload: %v" [AErr e])))
  | Ok body =>
      exchange (mkRequest "POST" (endpoint +:+ "/jsonrpc.cgi") [] json (Some body))
        (rpc_changed id pullIdentifier)
  end.
End client.

(** ** Identifiers are read back *)

Lemma no_slash (f : ascii → bool) s :
  all_chars f s = true → f "/"%char = false → contains_char "/" s = false.
Proof.
  intros Hs Hf. induction s as [|c s IH]; [done|]. cbn in *.
  apply andb_true_iff in Hs as [Hc Hs]. case_decide; [subst; congruence|]. by apply IH.
Qed.

Lemma itoa_no_slash z : contains_char "/" (itoa z) = false.
Proof. eapply no_slash; [apply (proj1 (itoa_chars z))|done]. Qed.

Lemma split_identifier org repo s :
  contains_char "/" org = false → contains_char "/" repo = false → contains_char "/" s = false →
  split_char "/" (org +:+ "/" +:+ repo +:+ "/pull/" +:+ s) = [org; repo; "pull"; s].
Proof.
  intros Ho Hr Hs.
  change (org +:+ "/" +:+ repo +:+ "/pull/" +:+ s)
    with (org +:+ String "/" (repo +:+ String "/" ("pull" +:+ String "/" s))).
  by rewrite !split_char_app, split_char_none.
Qed.

Lemma PullFromIdentifier_roundtrip org repo num :
  contains_char "/" org = false → contains_char "/" repo = false → (- 2 ^ 63 ≤ num < 2 ^ 63)%Z →
  PullFromIdentifier (IdentifierForPull org repo num) = inl (org, repo, num).
Proof.
  intros Ho Hr Hn. unfold PullFromIdentifier, IdentifierForPull.
  rewrite split_identifier by (done || apply itoa_no_slash).
  rewrite bool_decide_eq_false_2 by (intros ?; done). by rewrite Atoi_itoa.
Qed.

(** What is read is what the identifier says. *)
Lemma PullFromIdentifier_inv identifier org repo num :
  PullFromIdentifier identifier = inl (org, repo, num) →
  ∃ digits, identifier = org +:+ "/" +:+ repo +:+ "/pull/" +:+ digits ∧ Atoi digits = Ok num.
Proof.
  unfold PullFromIdentifier. pose proof (split_join "/" identifier) as Hj.
  destruct (split_char _ _) as [|p0 [|p1 [|p2 [|p3 [|]]]]]; try done. case_bool_decide as Hp; [done|].
  subst p2. destruct (Atoi p3) eqn:En; [|done]. intros [= -> -> ->].
  exists p3. split; [|done]. by rewrite <- Hj.
Qed.

(** ** The pull requests linked to a bug *)

(** An external bug that is a pull request on GitHub of this bug. *)
Definition pr_of (id : Z) (bug : ExternalBug) : option ExternalBug :=
  if bool_decide (eb_BugzillaBugID bug = id ∧ eb_TypeURL bug = github_url) then
    match PullFromIdentifier (eb_ExternalBugID bug) with
    | inl (org, repo, num) => Some (mkExternalBug github_url id (eb_ExternalBugID bug) org repo num)
    | inr _ => None
    end
  else None.

Definition malformed (id : Z) (bug : ExternalBug) : Prop :=
  eb_BugzillaBugID bug = id ∧ eb_TypeURL bug = github_url ∧
  ∃ e, PullFromIdentifier (eb_ExternalBugID bug) = inr (invalidIdentifier e).

Lemma external_prs_spec id bugs :
  match external_prs id bugs with
  | inl prs => prs = omap (pr_of id) bugs ∧ ∀ bug, bug ∈ bugs → ¬ malformed id bug
  | inr e => IsNotFound e = false ∧ ∃ bug, bug ∈ bugs ∧ malformed id bug
  end.
Proof.
  induction bugs as [|bug bugs IH]; [by split; [|intros ? ?%not_elem_of_nil]|].
  assert (∀ P : ExternalBug → Prop, (∃ b, b ∈ bug :: bugs ∧ P b) ↔ P bug ∨ ∃ b, b ∈ bugs ∧ P b) as Hex
    by (intros P; setoid_rewrite elem_of_cons; naive_solver).
  assert (∀ P : ExternalBug → Prop, (∀ b, b ∈ bug :: bugs → P b) ↔ P bug ∧ ∀ b, b ∈ bugs → P b) as Hall
    by (intros P; setoid_rewrite elem_of_cons; naive_solver).
  cbn [external_prs omap list_omap].
  assert (pr_of id bug = None → ¬ malformed id bug →
    match external_prs id bugs with
    | inl prs => prs = omap (pr_of id) (bug :: bugs) ∧ ∀ b, b ∈ bug :: bugs → ¬ malformed id b
    | inr e => IsNotFound e = false ∧ ∃ b, b ∈ bug :: bugs ∧ malformed id b
    end) as Hskip.
  { intros Hp Hm. cbn [omap list_omap]. rewrite Hp.
    destruct (external_prs id bugs); rewrite ?Hall, ?Hex; naive_solver. }
  case_bool_decide as Hid.
  { apply Hskip; [unfold pr_of; rewrite bool_decide_eq_false_2 by naive_solver; done|by intros []]. }
  case_bool_decide as Ht.
  { apply Hskip; [unfold pr_of; rewrite bool_decide_eq_false_2 by naive_solver; done|by intros (_ & ? & _)]. }
  assert (pr_of id bug = match PullFromIdentifier (eb_ExternalBugID bug) with
    | inl (org, repo, num) => Some (mkExternalBug github_url id (eb_ExternalBugID bug) org repo num)
    | inr _ => None end) as Epr by (unfold pr_of; by rewrite bool_decide_eq_true_2).
  destruct (PullFromIdentifier _) as [[[org repo] num]|[|]] eqn:Ep; cbn [IsIdentifierNotForPullErr].
  - rewrite Hid, Ht, Epr. destruct (external_prs id bugs) as [prs|]; rewrite ?Hall, ?Hex; [|naive_solver].
    destruct IH as [-> IH]. split_and!; [done| |done]. intros (_ & _ & e & He). congruence.
  - apply Hskip; [done|]. intros (_ & _ & e & He). congruence.
  - rewrite Hex. split; [done|]. left. split_and!; [done..|]. eauto.
Qed.

(** ** Requests *)

Section client_spec.
Context (apiKey endpoint : string) (new_request : string → option error) (send : list Request → Answer).

(** At most one request, with the key; its response is decoded or its error returned. *)
Lemma exchange_run {A} req (decode : string → A + bz_error) tr :
  exchange apiKey new_request send req decode tr =
  match new_request (rq_URL req) with
  | Some e => (tr, inr (other_error e))
  | None =>
      let sent := tr ++ [authorized apiKey req] in
      (sent, match response (send sent) with inl raw => decode raw | inr e => inr e end)
  end.
Proof. unfold exchange. by destruct (new_request _). Qed.

(** A bug is reported as not found exactly if the server says so. *)
Lemma GetBug_not_found unmarshal id tr :
  new_request (bug_url endpoint id) = None →
  let sent := tr ++ [authorized apiKey (mkRequest "GET" (bug_url endpoint id) [] [] None)] in
  (∃ e, (GetBug apiKey endpoint new_request send unmarshal id tr).2 = inr e ∧ IsNotFound e = true) ↔
  match send sent with
  | Answered resp => rs_StatusCode resp = 404%Z
  | Failed code _ => code = Some 404%Z
  end.
Proof.
  intros Hn sent. unfold GetBug. rewrite exchange_run. cbn [rq_URL]. rewrite Hn. cbn [snd]. fold sent.
  destruct (send sent) as [resp|[code|] err]; cbn [response].
  - case_bool_decide as Hc; cbn.
    + split; [|intros Hs; eexists; split; [done|by apply bool_decide_eq_true]].
      intros (e & [= <-] & ?%bool_decide_eq_true). done.
    + split; [|congruence]. intros (e & He & Hf). exfalso.
      destruct (rs_Body resp); [|by simplify_eq]. unfold unmarshalled, one_of in He.
      repeat case_match; simplify_eq; done.
  - split; [|intros [= ->]; eexists; done].
    intros (e & [= <-] & Hc%bool_decide_eq_true). by rewrite Hc.
  - split; [|done]. intros (e & [= <-] & Hc%bool_decide_eq_true). done.
Qed.

(** What is added as an external bug is read back as the pull request. *)
Lemma external_bug_roundtrip id org repo num o r n type identifier :
  contains_char "/" org = false → contains_char "/" repo = false → (- 2 ^ 63 ≤ num < 2 ^ 63)%Z →
  In (type, identifier)
    (concat (ap_ExternalBugs <$> rp_Parameters (external_bug_payload apiKey id (IdentifierForPull org repo num)))) →
  external_prs id [mkExternalBug type id identifier o r n] = inl [mkExternalBug type id identifier org repo num].
Proof.
  intros Ho Hr Hn [[= <- <-]|[]]. cbn [external_prs eb_BugzillaBugID eb_TypeURL eb_ExternalBugID].
  rewrite !bool_decide_eq_false_2 by (intros ?; done). by rewrite PullFromIdentifier_roundtrip.
Qed.
End client_spec.
