(* ===== verification/Bugzilla.v ===== *)
(** * The bugzilla plugin (plugins/bugzilla/bugzilla.go)

    A pull request refers to a Bugzilla bug in its title.  The plugin labels it by the
    validity of the bug, moves a valid bug to its next state and links it, and moves it
    on once all linked pull requests have merged. *)

From S2P Require Import Prelude Api JobConfig PjUtil GoText Handler GitHub Trigger BugzillaOptions BugzillaClient.
#[local] Open Scope go_scope.

Definition ValidBug : string := "bugzilla/valid-bug".
Definition InvalidBug : string := "bugzilla/invalid-bug".

(** ** Titles and commands *)

(** [Bug ([0-9]+):] here, in any case *)
Definition title_at (s : string) : option string :=
  rest ← trim_prefix_fold "Bug " s;
  let '(digits, rest) := span digit rest in
  if bool_decide (digits = "") then None
  else match rest with String ":" _ => Some digits | _ => None end.

(** [titleMatch.FindStringSubmatch]: the first place on the first line *)
Fixpoint titleMatch (s : string) : option string :=
  match title_at s with
  | Some digits => Some digits
  | None =>
      match s with
      | EmptyString => None
      | String c s => if bool_decide (c = "010"%char) then None else titleMatch s
      end
  end.

(** [(?mi)^/bugzilla refresh\s*$] *)
Definition commandMatch (body : string) : bool :=
  existsb (λ line, match trim_prefix_fold "/bugzilla refresh" line with
                   | Some rest => all_space rest
                   | None => false
                   end) (lines body).

(** ** Events *)

Record event := mkEvent {
  ev_org : string; ev_repo : string; ev_baseRef : string; ev_number : Z; ev_bugId : Z;
  ev_missing : bool; ev_merged : bool; ev_body : string; ev_htmlUrl : string; ev_login : string }.

(** What the plugin calls: GitHub, and the interface of the Bugzilla client. *)
Inductive Ev : Type :=
| Hub (c : Call)
| BGetBug (id : Z)
| BGetExternalBugPRsOnBug (id : Z)
| BUpdateBug (id : Z) (update : BugUpdate)
| BAddPullRequestAsExternalBug (id : Z) (org repo : string) (num : Z).

(** The answers to the last call. *)
Record Answers := mkAnswers {
  an_done : list Ev → result unit;
  an_pr : list Ev → result GitHubPullRequest;
  an_labels : list Ev → result (list string);
  an_bug : list Ev → option Bug + bz_error;
  an_prs : list Ev → list ExternalBug + bz_error;
  an_update : list Ev → option bz_error;
  an_link : list Ev → bool + bz_error }.

(** ** Validation *)

Definition bugMatchesStates (bug : Bug) (states : list BugzillaBugState) : bool :=
  existsb (λ state, Matches (Some state) (Some bug)) states.

Definition prettyStates (statuses : list BugzillaBugState) : list string :=
  BugzillaBugState_String <$> statuses.

Definition bugLink (id : Z) (endpoint : string) : string :=
  "[Bugzilla bug " +:+ itoa id +:+ "](" +:+ endpoint +:+ "/show_bug.cgi?id=" +:+ itoa id +:+ ")".

(** A check: the reason why the bug fails it, if it does. *)
Definition check_release (expected wanted : string) (bug : Bug) : option string :=
  match bug_TargetRelease bug with
  | [] => Some ("expected " +:+ expected +:+ " to target the " +:+ quoted wanted +:+
                  " release, but no target release was set")
  | release :: _ =>
      if bool_decide (wanted ≠ release)
      then Some ("expected " +:+ expected +:+ " to target the " +:+ quoted wanted +:+
                   " release, but it targets " +:+ quoted release +:+ " instead")
      else None
  end.

Definition check_states (expected : string) (allowed : list BugzillaBugState) (bug : Bug) : option string :=
  if bugMatchesStates bug allowed then None
  else Some ("expected " +:+ expected +:+ " to be in one of the following states: " +:+
               string_join ", " (prettyStates allowed) +:+ ", but it is " +:+
               PrettyStatus (bug_Status bug) (bug_Resolution bug) +:+ " instead").

Definition check_open (open : bool) (bug : Bug) : option string :=
  if bool_decide (open ≠ bug_IsOpen bug)
  then Some ("expected the bug to " +:+ (if open then "" else "not ") +:+ "be open, but it " +:+
               (if open then "isn't" else "is"))
  else None.

(** [allowed]: the valid states, and the one a bug is moved to. *)
Definition allowed_states (options : BugzillaBranchOptions) : list BugzillaBugState :=
  default [] (bo_ValidStates options) ++ option_list (bo_StateAfterValidation options).

Definition dependent_link (endpoint : string) (bug : Bug) : string :=
  "dependent " +:+ bugLink (bug_ID bug) endpoint.

(** The checks the options ask for, in order. *)
Definition checks (bug : Bug) (dependents : list Bug) (options : BugzillaBranchOptions)
    (endpoint : string) : list (option string) :=
  (match bo_IsOpen options with Some open => [check_open open bug] | None => [] end) ++
  (match bo_TargetRelease options with
   | Some release => [check_release "the bug" release bug] | None => [] end) ++
  (match bo_ValidStates options with
   | Some _ => [check_states "the bug" (allowed_states options) bug] | None => [] end) ++
  (match bo_DependentBugStates options with
   | Some states => (λ b, check_states (dependent_link endpoint b) states b) <$> dependents
   | None => [] end) ++
  (match bo_DependentBugTargetRelease options with
   | Some release => (λ b, check_release (dependent_link endpoint b) release b) <$> dependents
   | None => [] end).

(** [valid = false; errors = append(errors, reason)] *)
Definition note (acc : bool * list string) (failure : option string) : bool * list string :=
  match failure with Some reason => (false, acc.2 ++ [reason]) | None => acc end.

Definition validateBug (bug : Bug) (dependents : list Bug) (options : BugzillaBranchOptions)
    (endpoint : string) : bool * list string :=
  foldl note (true, []) (checks bug dependents options endpoint).

(** ** The handlers *)

Section bugzilla.
Context (an : Answers).
(** The endpoint of the server and the text of an error. *)
Context (endpoint : string) (Error : error → string).

Definition hub {A} (answer : list Ev → result A) (c : Call) : H Ev A := ask answer (Hub c).
(** A call of the Bugzilla client; its error has a type of its own. *)
Definition bz {A} (answer : list Ev → A) (e : Ev) : H Ev A := ask (λ tr, Ok (answer tr)) e.

Definition comment (e : event) (body : string) : H Ev unit :=
  hub (an_done an) (CreateComment (ev_org e) (ev_repo e) (ev_number e)
    (FormatResponseRaw (ev_body e) (ev_htmlUrl e) (ev_login e) body)).

Definition formatError (action : string) (bugId : Z) (err : error) : string :=
  text ["An error was encountered " +:+ action +:+ " for bug " +:+ itoa bugId +:+
          " on the Bugzilla server at " +:+ endpoint +:+ ":";
        "> " +:+ Error err;
        "Please contact an administrator to resolve this issue, then request a bug refresh with <code>/bugzilla refresh</code>."].

Definition no_bug (bugId : Z) : string :=
  text ["No Bugzilla bug with ID " +:+ itoa bugId +:+ " exists in the tracker at " +:+ endpoint +:+ ".";
        "Once a valid bug is referenced in the title of this pull request, request a bug refresh with <code>/bugzilla refresh</code>."].

(** [None]: there is nothing more to do but the comment that was made. *)
Definition getBug (e : event) : H Ev (option Bug) :=
  let! r := bz (an_bug an) (BGetBug (ev_bugId e)) in
  match r with
  | inl (Some bug) => hret (Some bug)
  | inl None => let! _ := comment e (no_bug (ev_bugId e)) in hret None
  | inr err =>
      if IsNotFound err then let! _ := comment e (no_bug (ev_bugId e)) in hret None
      else let! _ := comment e (formatError "searching" (ev_bugId e) (bz_Error err)) in hret None
  end.

(** The bugs it depends on; [None]: one could not be had, and the comment says so. *)
Fixpoint get_dependents (e : event) (ids : list Z) : H Ev (option (list Bug)) :=
  match ids with
  | [] => hret (Some [])
  | id :: ids =>
      let! r := bz (an_bug an) (BGetBug id) in
      match r with
      | inr err =>
          let! _ := comment e (formatError ("searching for dependent bug " +:+ itoa id) (ev_bugId e)
                                 (bz_Error err)) in
          hret None
      | inl dependent =>
          let! dependent := deref dependent in
          let! rest := get_dependents e ids in
          hret (cons dependent <$> rest)
      end
  end.

Definition dependents_of (e : event) (options : BugzillaBranchOptions) (bug : Bug)
    : H Ev (option (list Bug)) :=
  if isSome (bo_DependentBugStates options) || isSome (bo_DependentBugTargetRelease options)
  then get_dependents e (bug_DependsOn bug) else hret (Some []).

Definition pretty_state (s : option BugzillaBugState) : string :=
  from_option BugzillaBugState_String "<nil>" s.

(** Moving a valid bug: what is added to the response; [None]: an error was reported. *)
Definition move_valid (e : event) (options : BugzillaBranchOptions) (bug : Bug) : H Ev (option string) :=
  let state := bo_StateAfterValidation options in
  match AsBugUpdate state (Some bug) with
  | None => hret (Some "")
  | Some update =>
      let! failure := bz (an_update an) (BUpdateBug (ev_bugId e) update) in
      match failure with
      | Some err =>
          let! _ := comment e (formatError ("updating to the " +:+ pretty_state state +:+ " state")
                                 (ev_bugId e) (bz_Error err)) in
          hret None
      | None => hret (Some (" The bug has been moved to the " +:+ pretty_state state +:+ " state."))
      end
  end.

Definition link_pr (e : event) (options : BugzillaBranchOptions) : H Ev (option string) :=
  if default false (bo_AddExternalLink options) then
    let! r := bz (an_link an) (BAddPullRequestAsExternalBug (ev_bugId e) (ev_org e) (ev_repo e) (ev_number e)) in
    match r with
    | inr err =>
        let! _ := comment e (formatError "adding this pull request to the external tracker bugs"
                               (ev_bugId e) (bz_Error err)) in
        hret None
    | inl changed =>
        hret (Some (if changed then " The bug has been updated to refer to the pull request using the external bug tracker." else ""))
    end
  else hret (Some "").

Definition valid_response (e : event) : string :=
  "This pull request references " +:+ bugLink (ev_bugId e) endpoint +:+ ", which is valid.".
Definition invalid_response (e : event) (why : list string) : string :=
  text ["This pull request references " +:+ bugLink (ev_bugId e) endpoint +:+ ", which is invalid:";
        foldl (λ s reason, s +:+ " - " +:+ reason +:+ newline) "" why;
        "Comment <code>/bugzilla refresh</code> to re-evaluate validity if changes to the Bugzilla bug are made, or edit the title of this pull request to link to a different bug."].
Definition missing_response : string :=
  text ["No Bugzilla bug is referenced in the title of this pull request.";
        "To reference a bug, add 'Bug XXX:' to the title of this pull request and request another bug refresh with <code>/bugzilla refresh</code>."].

(** What a pull request needs: the label for a valid or an invalid bug, and the response. *)
Record assessment := mkAssessment {
  needsValidLabel : bool; needsInvalidLabel : bool; response_text : string }.

Definition assess (e : event) (options : BugzillaBranchOptions) : H Ev (option assessment) :=
  if ev_missing e then hret (Some (mkAssessment false false missing_response))
  else
    let! bug := getBug e in
    match bug with
    | None => hret None
    | Some bug =>
        let! dependents := dependents_of e options bug in
        match dependents with
        | None => hret None
        | Some dependents =>
            let '(valid, why) := validateBug bug dependents options endpoint in
            if valid : bool then
              let! moved := move_valid e options bug in
              match moved with
              | None => hret None
              | Some moved =>
                  let! linked := link_pr e options in
                  match linked with
                  | None => hret None
                  | Some linked =>
                      hret (Some (mkAssessment true false (valid_response e +:+ moved +:+ linked)))
                  end
              end
            else hret (Some (mkAssessment false true (invalid_response e why)))
        end
    end.

(** The label is changed only if it has to; a failure is only logged. *)
Definition adjust_label (e : event) (label : string) (needs has : bool) : H Ev unit :=
  if needs && negb has
  then or_zero tt (hub (an_done an) (AddLabel (ev_org e) (ev_repo e) (ev_number e) label))
  else if negb needs && has
  then or_zero tt (hub (an_done an) (RemoveLabel (ev_org e) (ev_repo e) (ev_number e) label))
  else hret tt.

Definition adjust_labels (e : event) (a : assessment) : H Ev unit :=
  let! currentLabels := or_zero []
    (hub (an_labels an) (GetIssueLabels (ev_org e) (ev_repo e) (ev_number e))) in
  let! _ := adjust_label e ValidBug (needsValidLabel a) (bool_decide (ValidBug ∈ currentLabels)) in
  adjust_label e InvalidBug (needsInvalidLabel a) (bool_decide (InvalidBug ∈ currentLabels)).

(** ** After the merge *)

(** Have all linked pull requests merged?  [None]: one could not be had. *)
Fixpoint all_merged (e : event) (prs : list ExternalBug) : H Ev (option bool) :=
  match prs with
  | [] => hret (Some true)
  | item :: prs =>
      if bool_decide (ev_org e = eb_Org item ∧ ev_repo e = eb_Repo item ∧ ev_number e = eb_Num item) then
        if ev_merged e then all_merged e prs else hret (Some false)
      else
        let! r := attempt (hub (an_pr an) (GetPullRequest (eb_Org item) (eb_Repo item) (eb_Num item))) in
        match r with
        | Err err =>
            let! _ := comment e (formatError ("checking the state of a related pull request at https://github.com/"
              +:+ eb_Org item +:+ "/" +:+ eb_Repo item +:+ "/pull/" +:+ itoa (eb_Num item)) (ev_bugId e) err) in
            hret None
        | Ok pr => if gpr_Merged pr then all_merged e prs else hret (Some false)
        end
  end.

Definition migrate (e : event) (options : BugzillaBranchOptions) : H Ev unit :=
  let! r := bz (an_prs an) (BGetExternalBugPRsOnBug (ev_bugId e)) in
  match r with
  | inr err => comment e (formatError "searching for external tracker bugs" (ev_bugId e) (bz_Error err))
  | inl prs =>
      let! shouldMigrate := all_merged e prs in
      match shouldMigrate, AsBugUpdate (bo_StateAfterMerge options) None with
      | Some true, Some update =>
          let state := pretty_state (bo_StateAfterMerge options) in
          let! failure := bz (an_update an) (BUpdateBug (ev_bugId e) update) in
          match failure with
          | Some err => comment e (formatError ("updating to the " +:+ state +:+ " state") (ev_bugId e) (bz_Error err))
          | None => comment e ("All pull requests linked via external trackers have merged. " +:+
                      bugLink (ev_bugId e) endpoint +:+ " has been moved to the " +:+ state +:+ " state.")
          end
      | _, _ => hret tt
      end
  end.

Definition handleMerge (e : event) (options : BugzillaBranchOptions) : H Ev unit :=
  match bo_StateAfterMerge options with
  | None => hret tt
  | Some state =>
      if ev_missing e then hret tt
      else if isSome (bo_ValidStates options) || isSome (bo_StateAfterValidation options) then
        let! bug := getBug e in
        match bug with
        | None => hret tt
        | Some bug =>
            if bugMatchesStates bug (allowed_states options) then migrate e options
            else comment e (bugLink (ev_bugId e) endpoint +:+ " is in an unrecognized state (" +:+
                   PrettyStatus (bug_Status bug) (bug_Resolution bug) +:+ ") and will not be moved to the " +:+
                   BugzillaBugState_String state +:+ " state.")
        end
      else migrate e options
  end.

Definition handle (e : event) (options : BugzillaBranchOptions) : H Ev unit :=
  if ev_merged e then handleMerge e options
  else
    let! a := assess e options in
    match a with
    | None => hret tt
    | Some a =>
        let! _ := adjust_labels e a in
        comment e (response_text a)
    end.

(** ** What is handled *)

Definition issue_response : string :=
  "Bugzilla bug referencing is only supported for Pull Requests, not issues.".

(** The bug a title refers to. *)
Definition with_bug (e : Z → bool → event) (title : string) : result event :=
  match titleMatch title with
  | None => Ok (e 0%Z true)
  | Some digits => rbind (Atoi digits) (λ id, Ok (e id false))
  end.

Definition digestComment (gce : GenericCommentEvent) : H Ev (option event) :=
  if bool_decide (gc_Action gce ≠ GenericCommentActionCreated) then hret None
  else if negb (commandMatch (gc_Body gce)) then hret None
  else
    let org := gc_Org gce in
    let repo := gc_Repo gce in
    let number := gc_Number gce in
    if negb (gc_IsPR gce) then
      let! _ := hub (an_done an) (CreateComment org repo number
        (FormatResponseRaw (gc_Body gce) (gc_HTMLURL gce) (gc_User gce) issue_response)) in
      hret None
    else
      let! pr := hub (an_pr an) (GetPullRequest org repo number) in
      let! e := lift (with_bug (λ id missing, mkEvent org repo (gpr_BaseRef pr) number id missing
        (gpr_Merged pr) (gc_Body gce) (gc_HTMLURL gce) (gc_User gce)) (gpr_Title pr)) in
      hret (Some e).

(** [title_from]: the former title in the changes, if they can be unmarshalled. *)
Definition digestPR (title_from : option string) (pre : PullRequestEvent)
    (validateByDefault : option bool) : result (option event) :=
  let pr := pe_PullRequest pre in
  if bool_decide (pe_Action pre ≠ PullRequestActionOpened) &&
     bool_decide (pe_Action pre ≠ PullRequestActionReopened) &&
     bool_decide (pe_Action pre ≠ PullRequestActionEdited) &&
     negb (bool_decide (pe_Action pre = "closed") && gpr_Merged pr) then Ok None
  else
    rbind (with_bug (λ id missing, mkEvent (gpr_BaseRepoOwner pr) (gpr_BaseRepoName pr) (gpr_BaseRef pr)
      (gpr_Number pr) id missing (gpr_Merged pr) (gpr_Title pr) (gpr_HTMLURL pr) (gpr_UserLogin pr))
      (gpr_Title pr)) (λ e,
    let intermediate :=
      if negb (ev_missing e) || default false validateByDefault then Some e else None in
    match title_from with
    | None => Ok intermediate
    | Some from =>
        match titleMatch from with
        | None => Ok intermediate
        | Some prev =>
            match Atoi prev with
            | Err _ => Ok intermediate
            | Ok prevId => if bool_decide (prevId = ev_bugId e) then Ok None else Ok (Some e)
            end
        end
    end).

Context `{GoRange} (config : BugzillaOptions.Bugzilla) (changes_title : PullRequestEvent → option string).

Definition handleGenericComment (gce : GenericCommentEvent) : H Ev unit :=
  let! event := digestComment gce in
  match event with
  | Some e => handle e (OptionsForBranch config (ev_org e) (ev_repo e) (ev_baseRef e))
  | None => hret tt
  end.

Definition handlePullRequest (pre : PullRequestEvent) : H Ev unit :=
  let pr := pe_PullRequest pre in
  let options := OptionsForBranch config (gpr_BaseRepoOwner pr) (gpr_BaseRepoName pr) (gpr_BaseRef pr) in
  let! event := lift (digestPR (changes_title pre) pre (bo_ValidateByDefault options)) in
  match event with
  | Some e => handle e options
  | None => hret tt
  end.
End bugzilla.

(** ** Titles *)

Example titleMatch_first : titleMatch "fix: bug 12: and Bug 13:" = Some "12".
Proof. reflexivity. Qed.
Example titleMatch_line : titleMatch (text ["some"; "Bug 13: x"]) = None.
Proof. reflexivity. Qed.

(** A bug is valid exactly if it passes every check. *)
Lemma validateBug_valid bug dependents options endpoint :
  (validateBug bug dependents options endpoint).1 =
  bool_decide (Forall (λ r, r = None) (checks bug dependents options endpoint)).
Proof.
  unfold validateBug. generalize (checks bug dependents options endpoint). intros l.
  assert (∀ acc, (foldl note acc l).1 = acc.1 && bool_decide (Forall (λ r, r = None) l)) as ->; [|done].
  induction l as [|r l IH]; intros [b errs]; cbn [foldl]; [by rewrite andb_true_r|].
  rewrite IH, (bool_decide_ext (Forall (λ x, x = None) (r :: l)) (r = None ∧ Forall (λ x, x = None) l))
    by (rewrite Forall_cons; done).
  destruct r as [x|]; cbn [note fst].
  - rewrite (bool_decide_eq_false_2 (Some x = None ∧ _)) by naive_solver. by rewrite andb_false_r.
  - f_equal. apply bool_decide_ext. naive_solver.
Qed.

(** ** What is done, and on account of what *)

Section spec.
Context (an : Answers) (endpoint : string) (Error : error → string).

(** The answer of the Bugzilla client to a call made before. *)
Definition told {A} (answer : list Ev → A) (q : Ev) (P : A → Prop) (tr : list Ev) : Prop :=
  answered (λ tr, Ok (answer tr)) q P tr.

Definition is_bug (bug : Bug) (r : option Bug + bz_error) : Prop := r = inl (Some bug).
Definition no_bug_told (r : option Bug + bz_error) : Prop := ∀ bug, r ≠ inl (Some bug).

Section one.
Variables (e : event) (options : BugzillaBranchOptions).

(** The bug and those it depends on were had, and the verdict on them. *)
Definition judged (bug : Bug) (valid : bool) (tr : list Ev) : Prop :=
  ∃ dependents,
    told (an_bug an) (BGetBug (ev_bugId e)) (is_bug bug) tr ∧
    (if isSome (bo_DependentBugStates options) || isSome (bo_DependentBugTargetRelease options)
     then Forall2 (λ id d, told (an_bug an) (BGetBug id) (is_bug d) tr) (bug_DependsOn bug) dependents
     else dependents = []) ∧
    (validateBug bug dependents options endpoint).1 = valid.

(** The state of the bug is one it was let into, if any are named. *)
Definition expected_state (tr : list Ev) : Prop :=
  isSome (bo_ValidStates options) || isSome (bo_StateAfterValidation options) = true →
  ∃ bug, told (an_bug an) (BGetBug (ev_bugId e)) (is_bug bug) tr ∧
    bugMatchesStates bug (allowed_states options) = true.

(** A linked pull request has merged: this one, or one GitHub said so of. *)
Definition item_merged (item : ExternalBug) (tr : list Ev) : Prop :=
  (ev_org e = eb_Org item ∧ ev_repo e = eb_Repo item ∧ ev_number e = eb_Num item) ∨
  answered (an_pr an) (Hub (GetPullRequest (eb_Org item) (eb_Repo item) (eb_Num item)))
    (λ pr, gpr_Merged pr = true) tr.

(** All linked pull requests have merged. *)
Definition all_linked_merged (tr : list Ev) : Prop :=
  ∃ prs, told (an_prs an) (BGetExternalBugPRsOnBug (ev_bugId e)) (λ r, r = inl prs) tr ∧
    ∀ item, item ∈ prs → item_merged item tr.

Definition on_this (org repo : string) (number : Z) : Prop :=
  org = ev_org e ∧ repo = ev_repo e ∧ number = ev_number e.

Definition justified (tr : list Ev) (c : Ev) : Prop :=
  match c with
  | BUpdateBug id u =>
      id = ev_bugId e ∧ ev_missing e = false ∧
      (if ev_merged e
       then AsBugUpdate (bo_StateAfterMerge options) None = Some u ∧ expected_state tr ∧ all_linked_merged tr
       else ∃ bug, judged bug true tr ∧ AsBugUpdate (bo_StateAfterValidation options) (Some bug) = Some u)
  | BAddPullRequestAsExternalBug id org repo number =>
      id = ev_bugId e ∧ on_this org repo number ∧ ev_missing e = false ∧ ev_merged e = false ∧
      bo_AddExternalLink options = Some true ∧ ∃ bug, judged bug true tr
  | Hub (AddLabel org repo number label) =>
      on_this org repo number ∧ ev_missing e = false ∧ ev_merged e = false ∧
      ∃ bug valid, judged bug valid tr ∧ label = if valid then ValidBug else InvalidBug
  | Hub (RemoveLabel org repo number label) =>
      on_this org repo number ∧ ev_merged e = false ∧ (label = ValidBug ∨ label = InvalidBug) ∧
      (ev_missing e = true ∨ ∃ bug valid, judged bug valid tr ∧ label = if valid then InvalidBug else ValidBug)
  | _ => False
  end.

(** The calls that change something. *)
Definition bz_act (c : Ev) : bool :=
  match c with
  | Hub c => action c
  | BUpdateBug _ _ | BAddPullRequestAsExternalBug _ _ _ _ => true
  | _ => false
  end.

(** A question to Bugzilla failed. *)
Definition stopped (tr : list Ev) : Prop :=
  (∃ id, told (an_bug an) (BGetBug id) no_bug_told tr) ∨
  (∃ u, told (an_update an) (BUpdateBug (ev_bugId e) u) is_Some tr) ∨
  (∃ err, told (an_link an) (BAddPullRequestAsExternalBug (ev_bugId e) (ev_org e) (ev_repo e) (ev_number e))
     (λ r, r = inr err) tr).

(** A label is there if it is needed and not otherwise, or the call for that was made. *)
Definition label_right (labels : list string) (label : string) (needs : bool) (tr : list Ev) : Prop :=
  if needs then label ∈ labels ∨ Hub (AddLabel (ev_org e) (ev_repo e) (ev_number e) label) ∈ tr
  else label ∉ labels ∨ Hub (RemoveLabel (ev_org e) (ev_repo e) (ev_number e) label) ∈ tr.

Definition read_labels (labels : list string) (tr : list Ev) : Prop :=
  let q := Hub (GetIssueLabels (ev_org e) (ev_repo e) (ev_number e)) in
  answered (an_labels an) q (λ x, x = labels) tr ∨ labels = [] ∧ failed (an_labels an) q tr.

(** The labels say the verdict, as far as they could be read. *)
Definition settled (tr : list Ev) : Prop :=
  ∃ needs_valid needs_invalid labels,
    (if ev_missing e then needs_valid = false ∧ needs_invalid = false
     else ∃ bug, judged bug needs_valid tr ∧ needs_invalid = negb needs_valid) ∧
    read_labels labels tr ∧
    label_right labels ValidBug needs_valid tr ∧ label_right labels InvalidBug needs_invalid tr.

Lemma stable_judged bug valid : stable (judged bug valid).
Proof.
  intros tr new (deps & Hb & Hd & Hv). exists deps. split_and!; [by apply stable_answered| |done].
  destruct (_ || _); [|done]. eapply Forall2_impl; [exact Hd|]. intros. by apply stable_answered.
Qed.

Lemma stable_stopped : stable stopped.
Proof. unfold stopped, told. apply stable_or; [|apply stable_or]; auto with prow. Qed.

Lemma stable_label_right labels label needs : stable (label_right labels label needs).
Proof. unfold label_right. destruct needs; apply stable_or; auto with prow. Qed.

(** ** The parts of a handler *)

Let S := may bz_act justified.

Lemma comment_quiet P body : stable P → triple S P (comment an e body) (λ _, P).
Proof. intros HP. by apply triple_quiet. Qed.

Lemma told_question {A} P (answer : list Ev → A) q :
  stable P → bz_act q = false →
  triple S P (bz answer q) (λ a tr, P tr ∧ told answer q (λ x, x = a) tr).
Proof. intros HP Hq. by apply triple_question. Qed.

Lemma comment_none {A} P body : stable P →
  triple S P (let! _ := comment an e body in hret (@None A)) (λ r tr, P tr ∧ r = None).
Proof.
  intros HP. eapply triple_bind; [by apply comment_quiet|]. intros []. by apply triple_ret.
Qed.

Definition or_stopped {A} (Q : A → list Ev → Prop) (r : option A) (tr : list Ev) : Prop :=
  match r with Some a => Q a tr | None => stopped tr end.

(** A part that reports an error and goes no further, after a question that failed. *)
Lemma stop {A} P F body (Q : A → list Ev → Prop) : stable P → stable F → (∀ tr, F tr → stopped tr) →
  triple S (λ tr, P tr ∧ F tr) (let! _ := comment an e body in hret (@None A))
    (λ r tr, P tr ∧ or_stopped Q r tr).
Proof.
  intros HP HF Hs.
  eapply triple_conseq; [apply (comment_none (λ tr, P tr ∧ F tr)); by apply stable_and|done|].
  intros r tr [[Htr Hf] ->]. split; [done|by apply Hs].
Qed.

(** What was asked for could not be had. *)
Lemma no_bug_stopped id r tr :
  no_bug_told r → told (an_bug an) (BGetBug id) (λ x, x = r) tr → stopped tr.
Proof. intros Hr Ht. left. exists id. eapply answered_weaken; [exact Ht|]. by intros ? ->. Qed.

Lemma getBug_ok P : stable P →
  triple S P (getBug an endpoint Error e)
    (λ r tr, P tr ∧ or_stopped (λ bug, told (an_bug an) (BGetBug (ev_bugId e)) (is_bug bug)) r tr).
Proof.
  intros HP. eapply triple_bind; [by apply told_question|]. intros r.
  destruct r as [[bug|]|err]; [by apply triple_ret| |case_match];
    (apply stop; [done|apply stable_answered|]; intros tr; by apply no_bug_stopped).
Qed.

Lemma get_dependents_ok ids P : stable P →
  triple S P (get_dependents an endpoint Error e ids)
    (λ r tr, P tr ∧ or_stopped (λ deps tr,
       Forall2 (λ id d, told (an_bug an) (BGetBug id) (is_bug d) tr) ids deps) r tr).
Proof.
  revert P. induction ids as [|id ids IH]; intros P HP; cbn [get_dependents].
  { apply triple_ret. intros tr Htr. split; [done|]. constructor. }
  eapply triple_bind; [by apply told_question|]. intros [dependent|err].
  - eapply triple_bind.
    { apply (triple_deref _ _ _ (λ d tr, P tr ∧ told (an_bug an) (BGetBug id) (is_bug d) tr)).
      intros d tr -> Htr. exact Htr. }
    intros d. eapply triple_bind.
    { apply IH. apply stable_and; [done|apply stable_answered]. }
    intros rest. apply triple_ret. intros tr [[Htr Hd] Hr]. split; [done|].
    destruct rest; [|exact Hr]. cbn in *. by constructor.
  - apply stop; [done|apply stable_answered|]. intros tr. by apply no_bug_stopped.
Qed.

Lemma dependents_of_ok bug P : stable P →
  (∀ tr, P tr → told (an_bug an) (BGetBug (ev_bugId e)) (is_bug bug) tr) →
  triple S P (dependents_of an endpoint Error e options bug)
    (λ r tr, P tr ∧ or_stopped (λ deps tr, judged bug (validateBug bug deps options endpoint).1 tr) r tr).
Proof.
  intros HP Hb. unfold dependents_of, judged. destruct (_ || _) eqn:En.
  - eapply triple_conseq; [by apply get_dependents_ok|done|]. intros [deps|] tr [Htr Hd]; [|done].
    split; [done|]. exists deps. auto.
  - apply triple_ret. intros tr Htr. split; [done|]. exists []. auto.
Qed.

(** Moving a bug that was found valid. *)
Lemma move_valid_ok bug : ev_missing e = false → ev_merged e = false →
  triple S (judged bug true) (move_valid an endpoint Error e options bug)
    (λ r tr, judged bug true tr ∧ or_stopped (λ _ _, True) r tr).
Proof.
  intros Hm Hg. unfold move_valid. pose proof (stable_judged bug true) as HP.
  destruct (AsBugUpdate _ _) as [update|] eqn:Eu; [|by apply triple_ret].
  apply (triple_bind _ _ _ _ (λ failure tr, judged bug true tr ∧
    told (an_update an) (BUpdateBug (ev_bugId e) update) (λ x, x = failure) tr)).
  { apply triple_ask.
    - intros tr Htr _. cbn. rewrite Hg. split_and!; [done..|]. by exists bug.
    - intros tr failure Htr [= <-]. split; [by apply HP|]. by exists tr, [], (an_update an (tr ++ [BUpdateBug (ev_bugId e) update])). }
  intros [err|]; [|apply triple_ret; by intros tr [? _]].
  apply stop; [done|apply stable_answered|]. intros tr Ht. right. left. exists update.
  eapply answered_weaken; [exact Ht|]. by intros ? ->.
Qed.

Lemma link_pr_ok bug : ev_missing e = false → ev_merged e = false →
  triple S (judged bug true) (link_pr an endpoint Error e options)
    (λ r tr, judged bug true tr ∧ or_stopped (λ _ _, True) r tr).
Proof.
  intros Hm Hg. unfold link_pr. pose proof (stable_judged bug true) as HP.
  destruct (bo_AddExternalLink options) as [[]|] eqn:El; [|by apply triple_ret..]. cbn [default from_option id].
  set (q := BAddPullRequestAsExternalBug _ _ _ _).
  apply (triple_bind _ _ _ _ (λ r tr, judged bug true tr ∧ told (an_link an) q (λ x, x = r) tr)).
  { apply triple_ask.
    - intros tr Htr _. cbn. split_and!; [done..|]. by exists bug.
    - intros tr failure Htr [= <-]. split; [by apply HP|]. by exists tr, [], (an_link an (tr ++ [q])). }
  intros [changed|err]; [apply triple_ret; by intros tr [? _]|].
  apply stop; [done|apply stable_answered|]. intros tr Ht. right. right. by exists err.
Qed.

Definition assessed (a : assessment) (tr : list Ev) : Prop :=
  if ev_missing e then needsValidLabel a = false ∧ needsInvalidLabel a = false
  else ∃ bug, judged bug (needsValidLabel a) tr ∧ needsInvalidLabel a = negb (needsValidLabel a).

Lemma stable_assessed a : stable (assessed a).
Proof.
  unfold assessed. destruct (ev_missing e); [apply stable_const|].
  apply stable_ex. intros bug. apply stable_and; [apply stable_judged|apply stable_const].
Qed.

Lemma assess_ok : ev_merged e = false →
  triple S (λ _, True) (assess an endpoint Error e options) (or_stopped assessed).
Proof.
  intros Hg. unfold assess. destruct (ev_missing e) eqn:Hm.
  { apply triple_ret. intros tr _. cbn. unfold assessed. by rewrite Hm. }
  eapply triple_bind; [apply getBug_ok, stable_const|].
  intros [bug|]; [|apply triple_ret; by intros tr [_ ?]].
  eapply triple_bind.
  { eapply triple_weaken; [apply (dependents_of_ok bug (told (an_bug an) (BGetBug (ev_bugId e)) (is_bug bug)))|];
      [apply stable_answered|done|by intros tr [_ ?]]. }
  intros [deps|]; [|apply triple_ret; by intros tr [_ ?]].
  eapply (triple_weaken _ _ (judged bug (validateBug bug deps options endpoint).1)); [|by intros tr [_ ?]].
  destruct (validateBug bug deps options endpoint) as [[] why]; cbn [fst].
  - eapply triple_bind; [by apply move_valid_ok|]. intros [moved|]; [|apply triple_ret; by intros tr [_ ?]].
    eapply triple_bind; [eapply triple_weaken; [by apply (link_pr_ok bug)|by intros tr [? _]]|].
    intros [linked|]; [|apply triple_ret; by intros tr [_ ?]].
    apply triple_ret. intros tr [Hj _]. cbn. unfold assessed. rewrite Hm. by exists bug.
  - apply triple_ret. intros tr Hj. cbn. unfold assessed. rewrite Hm. by exists bug.
Qed.

(** ** Labels *)

Lemma adjust_label_ok P label (labels : list string) (needs : bool) :
  stable P → (label = ValidBug ∨ label = InvalidBug) → ev_merged e = false →
  (∀ tr, P tr → if needs then ev_missing e = false ∧ ∃ bug valid, judged bug valid tr ∧ label = (if valid then ValidBug else InvalidBug)
                else ev_missing e = true ∨ ∃ bug valid, judged bug valid tr ∧ label = (if valid then InvalidBug else ValidBug)) →
  triple S P (adjust_label an e label needs (bool_decide (label ∈ labels)))
    (λ _ tr, P tr ∧ label_right labels label needs tr).
Proof.
  intros HP Hl Hg Hj. unfold adjust_label, label_right. destruct needs; case_bool_decide as Hin; cbn [andb negb].
  - apply triple_ret. auto.
  - apply triple_or_zero_ask.
    + intros tr Htr _. destruct (Hj tr Htr) as [? ?]. done.
    + intros tr Htr. split; [by apply HP|]. right. set_solver.
  - apply triple_or_zero_ask.
    + intros tr Htr _. split_and!; [done..|]. by apply Hj.
    + intros tr Htr. split; [by apply HP|]. right. set_solver.
  - apply triple_ret. auto.
Qed.

Lemma adjust_labels_ok a : ev_merged e = false →
  triple S (assessed a) (adjust_labels an e a) (λ _, settled).
Proof.
  intros Hg. unfold adjust_labels.
  eapply triple_bind; [apply triple_question_zero; [apply stable_assessed|done]|]. intros labels.
  set (F := λ tr, assessed a tr ∧ read_labels labels tr).
  assert (stable F) as HF by (apply stable_and; [apply stable_assessed|apply stable_or; auto with prow]).
  apply (triple_weaken _ _ F); [|done].
  eapply triple_bind.
  { apply (adjust_label_ok F _ labels); [done|by left|done|]. intros tr [Ha _]. unfold assessed in Ha.
    destruct (ev_missing e) eqn:Hm.
    - destruct Ha as [-> _]. by left.
    - destruct Ha as (bug & Hj & _). destruct (needsValidLabel a); [split; [done|]|right]; by eexists bug, _. }
  intros []. eapply triple_conseq.
  { apply (adjust_label_ok (λ tr, F tr ∧ label_right labels ValidBug (needsValidLabel a) tr) _ labels);
      [apply stable_and; [done|apply stable_label_right]|by right|done|].
    intros tr [[Ha _] _]. unfold assessed in Ha. destruct (ev_missing e) eqn:Hm.
    - destruct Ha as [_ ->]. by left.
    - destruct Ha as (bug & Hj & ->). destruct (needsValidLabel a); [right|split; [done|]]; by eexists bug, _. }
  { done. }
  intros _ tr [[[Ha Hl] Hv] Hi]. exists (needsValidLabel a), (needsInvalidLabel a), labels. done.
Qed.

(** ** After the merge *)

Lemma stable_item_merged item : stable (item_merged item).
Proof. apply stable_or; auto with prow. Qed.

Lemma all_merged_ok prs P : stable P →
  triple S P (all_merged an endpoint Error e prs)
    (λ r tr, P tr ∧ (r = Some true → ∀ item, item ∈ prs → item_merged item tr)).
Proof.
  revert P. induction prs as [|item prs IH]; intros P HP; cbn [all_merged].
  { apply triple_ret. intros tr Htr. split; [done|]. by intros _ ? ?%not_elem_of_nil. }
  assert (∀ r : option bool, r ≠ Some true → ∀ tr, P tr →
    P tr ∧ (r = Some true → ∀ it, it ∈ item :: prs → item_merged it tr)) as Hstop by naive_solver.
  assert (triple S (λ tr, P tr ∧ item_merged item tr) (all_merged an endpoint Error e prs)
    (λ r tr, P tr ∧ (r = Some true → ∀ it, it ∈ item :: prs → item_merged it tr))) as Hrest.
  { eapply triple_conseq;
      [apply (IH (λ tr, P tr ∧ item_merged item tr)), stable_and; [exact HP|apply stable_item_merged]|done|].
    intros r tr [[Htr Hi] Hr]. split; [done|]. intros E it [->|?]%elem_of_cons; auto. }
  case_bool_decide as Hthis.
  { case_match; [|apply triple_ret; by apply Hstop].
    eapply triple_weaken; [exact Hrest|]. intros tr Htr. split; [done|by left]. }
  eapply triple_bind; [apply triple_attempt_result; [done|by apply triple_question]|]. intros [pr|err].
  - destruct (gpr_Merged pr) eqn:Em.
    + eapply triple_weaken; [exact Hrest|]. intros tr [Htr [_ Hpr]]. split; [done|right].
      eapply answered_weaken; [exact Hpr|]. by intros ? ->.
    + apply triple_ret. intros tr [Htr _]. by apply Hstop.
  - eapply triple_conseq; [by apply (comment_none P)|by intros tr [? _]|].
    intros r tr [Htr ->]. by apply Hstop.
Qed.

Lemma stable_expected_state : stable expected_state.
Proof.
  unfold expected_state. apply stable_impl, stable_ex. intros bug. apply stable_and; [apply stable_answered|apply stable_const].
Qed.

(** Nothing more than a comment. *)
Ltac comment_only :=
  eapply triple_weaken; [apply (comment_quiet (λ _, True)); apply stable_const|done].

Lemma migrate_ok : ev_missing e = false → ev_merged e = true →
  triple S expected_state (migrate an endpoint Error e options) (λ _ _, True).
Proof.
  intros Hm Hg. unfold migrate. pose proof stable_expected_state as HP.
  eapply triple_bind; [by apply told_question|]. intros [prs|err].
  - eapply triple_bind; [apply all_merged_ok, stable_and; [done|apply stable_answered]|].
    intros [[]|]; [|by apply triple_ret..].
    destruct (AsBugUpdate _ _) as [update|] eqn:Eu; [|by apply triple_ret].
    eapply (triple_bind _ _ _ _ (λ _ _, True)).
    { apply triple_ask; [|done]. intros tr [[He Hp] Hall] _. cbn. rewrite Hg. split_and!; [done..|].
      exists prs. split; [done|]. by apply Hall. }
    intros [err|]; comment_only.
  - comment_only.
Qed.

Lemma handleMerge_ok : ev_merged e = true →
  triple S (λ _, True) (handleMerge an endpoint Error e options) (λ _ _, True).
Proof.
  intros Hg. unfold handleMerge. destruct (bo_StateAfterMerge options); [|by apply triple_ret].
  destruct (ev_missing e) eqn:Hm; [by apply triple_ret|].
  destruct (isSome (bo_ValidStates options) || _) eqn:Es.
  - eapply triple_bind; [apply getBug_ok, stable_const|]. intros [bug|]; [|by apply triple_ret].
    destruct (bugMatchesStates _ _) eqn:Eb.
    + eapply triple_weaken; [by apply migrate_ok|]. intros tr [_ Hb] _. by exists bug.
    + comment_only.
  - eapply triple_weaken; [by apply migrate_ok|]. intros tr _ H. congruence.
Qed.

Definition concluded (tr : list Ev) : Prop := ev_merged e = true ∨ stopped tr ∨ settled tr.

Lemma bugzilla_handle_ok : triple S (λ _, True) (handle an endpoint Error e options) (λ _, concluded).
Proof.
  unfold handle. destruct (ev_merged e) eqn:Hg.
  { eapply triple_conseq; [by apply handleMerge_ok|done|]. intros. by left. }
  eapply triple_bind; [by apply assess_ok|]. intros [a|]; [|apply triple_ret; intros; right; by left].
  eapply triple_bind; [by apply adjust_labels_ok|]. intros [].
  eapply triple_conseq; [apply (comment_quiet settled)|done|].
  - unfold settled. repeat (apply stable_ex; intros ?). apply stable_and; [|apply stable_and; [|apply stable_and]];
      [|apply stable_or; auto with prow|apply stable_label_right..].
    destruct (ev_missing e); [apply stable_const|]. apply stable_ex. intros ?.
    apply stable_and; [apply stable_judged|apply stable_const].
  - intros [] tr Hs. by right; right.
Qed.
End one.
End spec.

(** ** Both entry points *)

Section entry.
Context (an : Answers) (endpoint : string) (Error : error → string).
Context `{GoRange} (config : BugzillaOptions.Bugzilla) (changes_title : PullRequestEvent → option string).

(** The event is about the bug in the title of the pull request. *)
Definition refers (pr : GitHubPullRequest) (org repo : string) (number : Z) (e : event) : Prop :=
  ev_org e = org ∧ ev_repo e = repo ∧ ev_number e = number ∧
  ev_baseRef e = gpr_BaseRef pr ∧ ev_merged e = gpr_Merged pr ∧
  match titleMatch (gpr_Title pr) with
  | None => ev_missing e = true
  | Some digits => ev_missing e = false ∧ Atoi digits = Ok (ev_bugId e)
  end.

Lemma with_bug_refers mk pr org repo number e :
  (∀ id missing, mk id missing = mkEvent org repo (gpr_BaseRef pr) number id missing (gpr_Merged pr)
     (ev_body (mk id missing)) (ev_htmlUrl (mk id missing)) (ev_login (mk id missing))) →
  with_bug mk (gpr_Title pr) = Ok e → refers pr org repo number e.
Proof.
  intros Hmk. unfold with_bug, refers. destruct (titleMatch _) as [digits|].
  - destruct (Atoi digits) as [id|] eqn:Ea; cbn; [|done]. intros [= <-]. by rewrite Hmk.
  - intros [= <-]. by rewrite Hmk.
Qed.

Definition options_of (e : event) : BugzillaBranchOptions :=
  OptionsForBranch config (ev_org e) (ev_repo e) (ev_baseRef e).

(** What a comment asks for. *)
Definition asked (gce : GenericCommentEvent) : Prop :=
  gc_Action gce = GenericCommentActionCreated ∧ commandMatch (gc_Body gce) = true ∧ gc_IsPR gce = true.

(** The pull request of a comment as GitHub knows it. *)
Definition comment_event (gce : GenericCommentEvent) (e : event) (tr : list Ev) : Prop :=
  asked gce ∧ ∃ pr, refers pr (gc_Org gce) (gc_Repo gce) (gc_Number gce) e ∧
  answered (an_pr an) (Hub (GetPullRequest (gc_Org gce) (gc_Repo gce) (gc_Number gce))) (λ x, x = pr) tr.

Lemma digestComment_ok gce :
  triple (λ _ c, bz_act c = false) (λ _, True) (digestComment an gce)
    (λ r tr, match r with Some e => comment_event gce e tr | None => ¬ asked gce end).
Proof.
  unfold digestComment. case_bool_decide as Ha; [apply triple_ret; by intros tr _ [? _]|].
  destruct (commandMatch _) eqn:Ec; cbn [negb]; [|apply triple_ret; intros tr _ (_ & ? & _); congruence].
  destruct (gc_IsPR gce) eqn:Ep; cbn [negb]; cycle 1.
  { apply (triple_bind _ _ _ _ (λ _ _, True)); [by apply triple_ask|]. intros [].
    apply triple_ret. intros tr _ (_ & _ & ?). congruence. }
  set (q := GetPullRequest _ _ _).
  apply (triple_bind _ _ _ _ (λ pr, answered (an_pr an) (Hub q) (λ x, x = pr))).
  { apply triple_ask; [done|]. intros tr pr _ Hpr. by exists tr, [], pr. }
  intros pr. eapply triple_bind; [apply (triple_lift _ _ _ (λ e tr, comment_event gce e tr))|by intros e; apply triple_ret].
  intros e tr He Hpr. split; [done|]. exists pr. split; [|exact Hpr].
  eapply with_bug_refers; [|exact He]. done.
Qed.

Lemma digestPR_refers pre title_from v e :
  digestPR title_from pre v = Ok (Some e) →
  refers (pe_PullRequest pre) (gpr_BaseRepoOwner (pe_PullRequest pre)) (gpr_BaseRepoName (pe_PullRequest pre))
    (gpr_Number (pe_PullRequest pre)) e.
Proof.
  unfold digestPR. case_match; [done|]. intros (e' & He & Hr)%rbind_Ok_inv.
  assert (e' = e) as -> by (repeat case_match; simplify_eq; done).
  eapply with_bug_refers; [|exact He]. done.
Qed.
End entry.

(** C28. A bug is moved or linked, and the labels that say whether it is valid are changed, only for
    the bug that the title of the pull request refers to and on account of what Bugzilla answered:
    before the merge after validating the bug and those it depends on by the options of the branch,
    after the merge if the bug is in a state it was let into and all linked pull requests have
    merged.  When a handler ends well on an open pull request, the labels say the verdict, unless a
    question to Bugzilla failed. *)
Theorem bugzilla_spec (an : Answers) endpoint Error `{GoRange} config changes_title :
  (∀ gce, triple
     (λ tr c, bz_act c = true → ∃ e, comment_event an gce e tr ∧
        justified an endpoint e (options_of config e) tr c)
     (λ _, True) (handleGenericComment an endpoint Error config gce)
     (λ _ tr, ¬ asked gce ∨ ∃ e, comment_event an gce e tr ∧ concluded an endpoint e (options_of config e) tr)) ∧
  (∀ pre, let pr := pe_PullRequest pre in
     let options := OptionsForBranch config (gpr_BaseRepoOwner pr) (gpr_BaseRepoName pr) (gpr_BaseRef pr) in
     let event := digestPR (changes_title pre) pre (bo_ValidateByDefault options) in
     triple
     (λ tr c, bz_act c = true → ∃ e, event = Ok (Some e) ∧
        refers pr (gpr_BaseRepoOwner pr) (gpr_BaseRepoName pr) (gpr_Number pr) e ∧
        justified an endpoint e options tr c)
     (λ _, True) (handlePullRequest an endpoint Error config changes_title pre)
     (λ _ tr, ∀ e, event = Ok (Some e) → concluded an endpoint e options tr)).
Proof.
  split; cbn zeta.
  - intros gce. unfold handleGenericComment. eapply triple_bind.
    { eapply triple_allow; [|apply digestComment_ok]. cbn. congruence. }
    intros [e|]; [|apply triple_ret; by left].
    assert (stable (comment_event an gce e)) as Hst.
    { apply stable_and; [apply stable_const|]. apply stable_ex. intros pr.
      apply stable_and; [apply stable_const|apply stable_answered]. }
    eapply (triple_conseq _ _ (λ tr, comment_event an gce e tr ∧ True)); [|done|].
    + eapply triple_allow; [|apply (triple_known (comment_event an gce e)), bugzilla_handle_ok; exact Hst].
      intros tr c [He Hj] Hc. exists e. split; [exact He|]. by apply Hj.
    + intros [] tr [He Hc]. right. by exists e.
  - intros pre. unfold handlePullRequest. set (options := OptionsForBranch _ _ _ _).
    eapply (triple_bind _ _ _ _ (λ r _, digestPR _ _ _ = Ok r)); [by apply triple_lift|].
    intros [e|]; [|apply triple_ret; congruence].
    apply triple_fact. intros He. eapply (triple_conseq _ _ (λ _, True)); [|done|].
    + eapply triple_allow; [|apply bugzilla_handle_ok].
      intros tr c Hj Hc. exists e. split_and!; [done|by eapply digestPR_refers|]. by apply Hj.
    + intros [] tr Hc e' He'. assert (e' = e) as -> by congruence. done.
Qed.
