(* ===== verification/PluginConfig.v ===== *)
(** * The configuration of the plugins (plugins/config.go)

    Defaults, validation, and what applies to an organization or a repository. *)

From S2P Require Import Prelude Api JobConfig GoText Handler GitHub BugzillaOptions Trigger Lgtm Approve.
#[local] Open Scope go_scope.

(** ** Data *)

Record ExternalPlugin := mkExternalPlugin {
  xp_Name : string; xp_Endpoint : string; xp_Events : list string }.

Definition xp_names (plugins : list ExternalPlugin) : list string := xp_Name <$> plugins.

Record Blunderbuss := mkBlunderbuss {
  bb_ReviewerCount : option Z; bb_MaxReviewerCount : Z; bb_FileWeightCount : option Z;
  bb_ExcludeApprovers : bool; bb_UseStatusAvailability : bool }.

Record Owners := mkOwners {
  ow_MDYAMLRepos : list string; ow_SkipCollaborators : list string;
  ow_LabelsBlackList : option (list string) }.

Record Size := mkSize { sz_S : Z; sz_M : Z; sz_L : Z; sz_Xl : Z; sz_Xxl : Z }.

Record Blockade := mkBlockade {
  bl_Repos : list string; bl_BlockRegexps : list string; bl_ExceptionRegexps : list string;
  bl_Explanation : string }.

(** A regular expression and what it is compiled into when the configuration is loaded. *)
Record SigMention := mkSigMention { sm_Regexp : string; sm_Re : Regexp }.
Record Heart := mkHeart { ht_Adorees : list string; ht_CommentRegexp : string; ht_CommentRe : Regexp }.
Record CherryPickUnapproved := mkCherryPickUnapproved {
  cp_BranchRegexp : string; cp_BranchRe : Regexp; cp_Comment : string }.

Record RequireMatchingLabel := mkRequireMatchingLabel {
  rl_Org : string; rl_Repo : string; rl_Branch : string; rl_PRs : bool; rl_Issues : bool;
  rl_Regexp : string; rl_Re : Regexp; rl_MissingLabel : string; rl_MissingComment : string;
  rl_GracePeriod : string; rl_GracePeriodDuration : Z }.

Record ConfigMapSpec := mkConfigMapSpec {
  cs_Name : string; cs_Key : string; cs_Namespace : string; cs_AdditionalNamespaces : list string;
  cs_GZIP : option bool; cs_Namespaces : list string; cs_Clusters : gmap string (list string) }.
Record ConfigUpdater := mkConfigUpdater {
  cu_Maps : gmap string ConfigMapSpec; cu_ConfigFile : string; cu_PluginFile : string; cu_GZIP : bool }.

Record Milestone := mkMilestone {
  ms_MaintainersID : Z; ms_MaintainersTeam : string; ms_MaintainersFriendlyName : string }.

Record Dco := mkDco {
  dc_SkipDCOCheckForMembers : bool; dc_TrustedOrg : string; dc_SkipDCOCheckForCollaborators : bool }.

Record ProjectRepoConfig := mkProjectRepoConfig {
  pr_MaintainerTeamID : Z; pr_ProjectColumnMap : gmap string string }.
Record ProjectOrgConfig := mkProjectOrgConfig {
  po_MaintainerTeamID : Z; po_ProjectColumnMap : gmap string string;
  po_Repos : gmap string ProjectRepoConfig }.
Record ProjectConfig := mkProjectConfig { pg_Orgs : gmap string ProjectOrgConfig }.

Record ManagedColumn := mkManagedColumn {
  mc_ID : option Z; mc_Name : string; mc_State : string; mc_Labels : list string; mc_Org : string }.
Record ManagedProject := mkManagedProject { mp_Columns : list ManagedColumn }.
Record ManagedOrgRepo := mkManagedOrgRepo { mo_Projects : gmap string ManagedProject }.
Record ProjectManager := mkProjectManager { pm_OrgRepos : gmap string ManagedOrgRepo }.

Record Override := mkOverride {
  ov_AllowTopLevelOwners : bool; ov_AllowedGitHubTeams : gmap string (list string) }.

(** The parts of [Configuration] that its methods use or that a modelled plugin reads. *)
Record Configuration := mkConfiguration {
  pc_Plugins : gmap string (list string);
  pc_ExternalPlugins : gmap string (list ExternalPlugin);
  pc_Owners : Owners;
  pc_Approve : ApproveConfiguration;
  pc_Blockades : list Blockade;
  pc_Blunderbuss : Blunderbuss;
  pc_Bugzilla : BugzillaOptions.Bugzilla;
  pc_CherryPickUnapproved : CherryPickUnapproved;
  pc_ConfigUpdater : ConfigUpdater;
  pc_Dco : gmap string (option Dco);
  pc_Heart : Heart;
  pc_AdditionalLabels : list string;
  pc_Lgtm : list Lgtm;
  pc_RepoMilestone : gmap string Milestone;
  pc_Project : ProjectConfig;
  pc_ProjectManager : ProjectManager;
  pc_RequireMatchingLabel : list RequireMatchingLabel;
  pc_SigMention : SigMention;
  pc_Size : Size;
  pc_Triggers : list Trigger;
  pc_Override : Override }.

(** ** Look-ups *)

Definition full_name (org repo : string) : string := org +:+ "/" +:+ repo.

Definition listed_for (org repo : string) (elems : list string) : bool :=
  existsb (λ elem, bool_decide (elem = org ∨ elem = full_name org repo)) elems.
Definition MDYAMLEnabled (c : Configuration) (org repo : string) : bool :=
  listed_for org repo (ow_MDYAMLRepos (pc_Owners c)).
Definition SkipCollaborators (c : Configuration) (org repo : string) : bool :=
  listed_for org repo (ow_SkipCollaborators (pc_Owners c)).

Definition DcoFor (c : Configuration) (org repo : string) : Dco :=
  match pc_Dco c !! full_name org repo, pc_Dco c !! org, pc_Dco c !! "*" with
  | Some (Some dco), _, _ => dco
  | _, Some (Some dco), _ => dco
  | _, _, Some (Some dco) => dco
  | _, _, _ => mkDco false "" false
  end.

Definition GetMaintainerTeam (p : ProjectConfig) (org repo : string) : Z :=
  match pg_Orgs p !! org with
  | None => (-1)%Z
  | Some orgConfig =>
      match po_Repos orgConfig !! repo with
      | Some repoConfig => pr_MaintainerTeamID repoConfig
      | None => po_MaintainerTeamID orgConfig
      end
  end.
Definition GetColumnMap (p : ProjectConfig) (org repo : string) : gmap string string :=
  match pg_Orgs p !! org with
  | None => ∅
  | Some orgConfig =>
      match po_Repos orgConfig !! repo with
      | Some repoConfig => pr_ProjectColumnMap repoConfig
      | None => po_ProjectColumnMap orgConfig
      end
  end.
Definition GetOrgColumnMap (p : ProjectConfig) (org : string) : gmap string string :=
  from_option po_ProjectColumnMap ∅ (pg_Orgs p !! org).

(** Organizations and repositories of a table of names, by the slash. *)
Definition split_enabled (entries : list string) : list string * list string :=
  foldl (λ '(orgs, repos) repo,
    if contains_char "/" repo then (orgs, repos ++ [repo]) else (orgs ++ [repo], repos)) ([], []) entries.

Section enabled.
Context `{GoRange}.
Definition EnabledReposForPlugin (c : Configuration) (plugin : string) : list string * list string :=
  split_enabled (filter (λ '(_, plugins), plugin ∈ plugins) (map_range (pc_Plugins c))).*1.
Definition EnabledReposForExternalPlugin (c : Configuration) (plugin : string)
    : list string * list string :=
  split_enabled
    (filter (λ '(_, plugins), plugin ∈ xp_names plugins) (map_range (pc_ExternalPlugins c))).*1.
End enabled.

(** [ConfigAgent.getPlugins]: those of the organization, then those of the repository. *)
Definition getPlugins (c : Configuration) (owner repo : string) : list string :=
  default [] (pc_Plugins c !! owner) ++ default [] (pc_Plugins c !! full_name owner repo).

(** The handlers of one kind of event, by the plugins they are registered for. *)
Definition handlers_for {A} (registered : gmap string A) (c : Configuration) (owner repo : string)
    : gmap string A :=
  foldl (λ hs p, match registered !! p with Some h => <[p := h]> hs | None => hs end) ∅
    (getPlugins c owner repo).

(** ** Defaults *)

Definition default_maps (c : ConfigUpdater) : gmap string ConfigMapSpec :=
  let cf := if bool_decide (cu_ConfigFile c = "") then "config/prow/config.yaml" else cu_ConfigFile c in
  let pf := if bool_decide (cu_PluginFile c = "") then "config/prow/plugins.yaml" else cu_PluginFile c in
  let spec name := mkConfigMapSpec name "" "" [] None [] ∅ in
  <[pf := spec "plugins"]> {[cf := spec "config"]}.

Definition default_spec (spec : ConfigMapSpec) : ConfigMapSpec :=
  let namespaces := cs_Namespace spec :: cs_AdditionalNamespaces spec in
  mkConfigMapSpec (cs_Name spec) (cs_Key spec) (cs_Namespace spec) (cs_AdditionalNamespaces spec)
    (cs_GZIP spec) namespaces
    (if bool_decide (cs_Clusters spec = ∅) then {[DefaultClusterAlias := namespaces]} else cs_Clusters spec).

Definition ConfigUpdater_SetDefaults (c : ConfigUpdater) : ConfigUpdater :=
  let maps := if bool_decide (cu_Maps c = ∅) then default_maps c else cu_Maps c in
  mkConfigUpdater (default_spec <$> maps) (cu_ConfigFile c) (cu_PluginFile c) (cu_GZIP c).

(** [if s == "" { s = d }] *)
Definition or_default (s d : string) : string := if bool_decide (s = "") then d else s.

Definition default_endpoint (p : ExternalPlugin) : ExternalPlugin :=
  mkExternalPlugin (xp_Name p) (or_default (xp_Endpoint p) ("http://" +:+ xp_Name p)) (xp_Events p).

Definition defaultBlunderbussReviewerCount : Z := 2.
Definition default_blunderbuss (b : Blunderbuss) : Blunderbuss :=
  match bb_ReviewerCount b, bb_FileWeightCount b with
  | None, None => mkBlunderbuss (Some defaultBlunderbussReviewerCount) (bb_MaxReviewerCount b) None
                    (bb_ExcludeApprovers b) (bb_UseStatusAvailability b)
  | _, _ => b
  end.

Definition default_grace (r : RequireMatchingLabel) : RequireMatchingLabel :=
  mkRequireMatchingLabel (rl_Org r) (rl_Repo r) (rl_Branch r) (rl_PRs r) (rl_Issues r) (rl_Regexp r)
    (rl_Re r) (rl_MissingLabel r) (rl_MissingComment r) (or_default (rl_GracePeriod r) "5s")
    (rl_GracePeriodDuration r).

Definition default_sig_regexp : string :=
  "(?m)@kubernetes/sig-([\w-]*)-(misc|test-failures|bugs|feature-requests|proposals|pr-reviews|api-reviews)".
Definition default_cherry_comment : string :=
  "This PR is not for the master branch but does not have the `cherry-pick-approved`  label. Adding the `do-not-merge/cherry-pick-not-approved`  label.".

(** The loop over [RepoMilestone] assigns to its variable, a copy, so the map stays. *)
Definition setDefaults (c : Configuration) : Configuration :=
  let ow := pc_Owners c in
  let sm := pc_SigMention c in
  let cp := pc_CherryPickUnapproved c in
  mkConfiguration (pc_Plugins c) ((λ plugins : list ExternalPlugin, default_endpoint <$> plugins) <$> pc_ExternalPlugins c)
    (mkOwners (ow_MDYAMLRepos ow) (ow_SkipCollaborators ow)
       (Some (default [Approved; LGTM] (ow_LabelsBlackList ow))))
    (pc_Approve c) (pc_Blockades c) (default_blunderbuss (pc_Blunderbuss c)) (pc_Bugzilla c)
    (mkCherryPickUnapproved (or_default (cp_BranchRegexp cp) "^release-.*$") (cp_BranchRe cp)
       (or_default (cp_Comment cp) default_cherry_comment))
    (ConfigUpdater_SetDefaults (pc_ConfigUpdater c)) (pc_Dco c) (pc_Heart c) (pc_AdditionalLabels c)
    (pc_Lgtm c) (pc_RepoMilestone c) (pc_Project c) (pc_ProjectManager c)
    (default_grace <$> pc_RequireMatchingLabel c)
    (mkSigMention (or_default (sm_Regexp sm) default_sig_regexp) (sm_Re sm)) (pc_Size c)
    (SetDefaults <$> pc_Triggers c) (pc_Override c).

(** ** Validation *)

(** [path.Base] *)
Fixpoint trim_slashes (s : string) : string :=
  match s with
  | EmptyString => EmptyString
  | String c s' =>
      match trim_slashes s' with
      | EmptyString => if bool_decide (c = "/"%char) then EmptyString else String c EmptyString
      | s'' => String c s''
      end
  end.
Definition path_Base (path : string) : string :=
  if bool_decide (path = "") then "."
  else match trim_slashes path with
       | EmptyString => "/"
       | path => default "" (last (split_char "/" path))
       end.

(** One duplicate per pair of equal entries. *)
Definition findDuplicatedPluginConfig (repoConfig orgConfig : list string) : list string :=
  foldl (λ dupes repoPlugin,
    foldl (λ dupes orgPlugin, if bool_decide (repoPlugin = orgPlugin) then dupes ++ [repoPlugin] else dupes)
      dupes orgConfig) [] repoConfig.

(** [strings.Split(repo, "/")[0]] *)
Definition org_of (repo : string) : string := default "" (head (split_char "/" repo)).

(** The plugins that a repository and its organization both configure. *)
Definition duplicates (plugins : gmap string (list string)) (entry : string * list string) : list string :=
  if contains_char "/" entry.1
  then findDuplicatedPluginConfig entry.2 (default [] (plugins !! org_of entry.1)) else [].

Definition validateBlunderbuss (b : Blunderbuss) : result unit :=
  if bool_decide (is_Some (bb_ReviewerCount b) ∧ is_Some (bb_FileWeightCount b))
  then Err (errors_New "cannot use both request_count and file_weight_count in blunderbuss")
  else match bb_ReviewerCount b, bb_FileWeightCount b with
       | Some n, _ =>
           if bool_decide (n < 1)%Z
           then Err (Errorf "invalid request_count: %v (needs to be positive)" [AInt n]) else Ok tt
       | None, Some n =>
           if bool_decide (n < 1)%Z
           then Err (Errorf "invalid file_weight_count: %v (needs to be positive)" [AInt n]) else Ok tt
       | None, None => Ok tt
       end.

Definition validateSizes (s : Size) : result unit :=
  if bool_decide (sz_S s > sz_M s ∨ sz_M s > sz_L s ∨ sz_L s > sz_Xl s ∨ sz_Xl s > sz_Xxl s)%Z
  then Err (errors_New "invalid size plugin configuration - one of the smaller sizes is bigger than a larger one")
  else Ok tt.

Definition RequireMatchingLabel_validate (r : RequireMatchingLabel) : result unit :=
  if bool_decide (rl_Org r = "") then Err (errors_New "must specify 'org'")
  else if contains_char "/" (rl_Repo r)
  then Err (errors_New "'repo' may not contain '/'; specify the organization with 'org'")
  else if bool_decide (rl_Regexp r = "") then Err (errors_New "must specify 'regexp'")
  else if bool_decide (rl_MissingLabel r = "") then Err (errors_New "must specify 'missing_label'")
  else if bool_decide (rl_GracePeriod r = "") then Err (errors_New "must specify 'grace_period'")
  else if negb (rl_PRs r) && negb (rl_Issues r)
  then Err (errors_New "must specify 'prs: true' and/or 'issues: true'")
  else if negb (rl_PRs r) && bool_decide (rl_Branch r ≠ "")
  then Err (errors_New "branch cannot be specified without `prs: true'")
  else if rl_Re r (rl_MissingLabel r) then Err (errors_New "'regexp' must not match 'missing_label'")
  else Ok tt.

(** [Describe] *)
Definition RequireMatchingLabel_Describe (r : RequireMatchingLabel) : string :=
  "Applies the '" +:+ rl_MissingLabel r +:+ "' label " +:+
  (if bool_decide (rl_MissingComment r = "") then "to " else "and comments on ") +:+
  (if rl_Issues r then "Issues " +:+ (if rl_PRs r then "and " else "") else "") +:+
  (if rl_PRs r
   then (if bool_decide (rl_Branch r ≠ "") then "'" +:+ rl_Branch r +:+ "' branch " else "") +:+ "PRs " else "") +:+
  (if bool_decide (rl_Repo r = "") then "in the '" +:+ rl_Org r +:+ "' GitHub org "
   else "in the '" +:+ rl_Org r +:+ "/" +:+ rl_Repo r +:+ "' GitHub repo ") +:+
  "that have no labels matching the regular expression '" +:+ rl_Regexp r +:+ "'.".

Fixpoint validate_rmls (i : Z) (rs : list RequireMatchingLabel) : result unit :=
  match rs with
  | [] => Ok tt
  | r :: rs =>
      match RequireMatchingLabel_validate r with
      | Err e => Err (Errorf "error validating require_matching_label config #%d: %v" [AInt i; AErr e])
      | Ok _ => validate_rmls (i + 1) rs
      end
  end.
Definition validateRequireMatchingLabel (rs : list RequireMatchingLabel) : result unit := validate_rmls 0 rs.

(** [ConfigMapID]: name, namespace and cluster *)
Definition ConfigMapID : Type := string * string * string.

(** [labelSets]: those of the columns before. *)
Definition validate_column (orgRepoName projectName : string) (labelSets : list (gset string))
    (c : ManagedColumn) : result (list (gset string)) :=
  let args := [AStr orgRepoName; AStr projectName; AStr (mc_Name c)] in
  if bool_decide (mc_ID c = None ∧ mc_Name c = "")
  then Err (Errorf "Org/repo: %s, project %s, column %v, has no name/id configured" args)
  else if bool_decide (mc_Labels c = [])
  then Err (Errorf "Org/repo: %s, project %s, column %s, has no labels configured" args)
  else if bool_decide (mc_Org c = "")
  then Err (Errorf "Org/repo: %s, project %s, column %s, has no org configured" args)
  else
    let sSet := set_of (mc_Labels c) in
    if bool_decide (sSet ∈ labelSets)
    then Err (Errorf "Org/repo: %s, project %s, column %s has same labels configured as another column" args)
    else Ok (labelSets ++ [sSet]).

Section validation.
Context `{GoRange}.

Definition validatePluginsDupes (plugins : gmap string (list string)) : result unit :=
  NewAggregate (foldl (λ errs entry,
    match duplicates plugins entry with
    | [] => errs
    | dupes => errs ++ [Errorf "plugins %v are duplicated for %s and %s"
                          [AStrs dupes; AStr entry.1; AStr (org_of entry.1)]]
    end) [] (map_range plugins)).

(** The names of external plugins are checked in the same way. *)
Definition validateExternalPlugins (pluginMap : gmap string (list ExternalPlugin)) : result unit :=
  let names := xp_names <$> pluginMap in
  let errs := foldl (λ errs entry,
    match duplicates names (entry.1, xp_names entry.2) with
    | [] => errs
    | dupes => errs ++ [Errorf "external plugins %v are duplicated for %s and %s"
                          [AStrs dupes; AStr entry.1; AStr (org_of entry.1)]]
    end) [] (map_range pluginMap) in
  match errs with
  | [] => Ok tt
  | _ => Err (Errorf "invalid plugin configuration:\n\t%v" [AErrs errs])
  end.

(** A plugin that is not registered. *)
Definition ValidatePluginsUnknown (pluginHelp : gset string) (c : Configuration) : result unit :=
  NewAggregate (foldl (λ errs entry,
    foldl (λ errs plugin,
      if bool_decide (plugin ∈ pluginHelp) then errs else errs ++ [Errorf "unknown plugin: %s" [AStr plugin]])
      errs entry.2) [] (map_range (pc_Plugins c))).

(** A file updates a key of a config map. *)
Definition note_key (keys : gmap ConfigMapID (gset string)) (target : ConfigMapID * string)
    : result (gmap ConfigMapID (gset string)) :=
  let '(cmID, key) := target in
  match keys !! cmID with
  | Some known =>
      if bool_decide (key ∈ known)
      then Err (Errorf "key %s in configmap %s updated with more than one file" [AStr key; AStr cmID.1.1])
      else Ok (<[cmID := {[key]} ∪ known]> keys)
  | None => Ok (<[cmID := {[key]}]> keys)
  end.
Definition note_file (keys : gmap ConfigMapID (gset string)) (entry : string * ConfigMapSpec)
    : result (gmap ConfigMapID (gset string)) :=
  let '(file, config) := entry in
  let key := or_default (cs_Key config) (path_Base file) in
  rfold (λ keys '(cluster, namespaces),
    rfold (λ keys namespace, note_key keys ((cs_Name config, namespace, cluster), key))
      keys namespaces) keys (map_range (cs_Clusters config)).

(** The updater with its defaults, which [SetDefaults] writes, and whether it is valid. *)
Definition validateConfigUpdater (updater : ConfigUpdater) : ConfigUpdater * result unit :=
  let updater := ConfigUpdater_SetDefaults updater in
  (updater, rbind (rfold note_file ∅ (map_range (cu_Maps updater))) (λ _, Ok tt)).

Definition validate_project (orgRepoName : string) (entry : string * ManagedProject) : result unit :=
  let '(projectName, managedProject) := entry in
  if bool_decide (mp_Columns managedProject = [])
  then Err (Errorf "Org/repo: %s, project %s, has no columns configured" [AStr orgRepoName; AStr projectName])
  else rbind (rfold (validate_column orgRepoName projectName) [] (mp_Columns managedProject)) (λ _, Ok tt).
Definition validate_org_repo (entry : string * ManagedOrgRepo) : result unit :=
  let '(orgRepoName, managedOrgRepo) := entry in
  if bool_decide (mo_Projects managedOrgRepo = ∅)
  then Err (Errorf "Org/repo: %s, has no projects configured" [AStr orgRepoName])
  else rbind (rmap (validate_project orgRepoName) (map_range (mo_Projects managedOrgRepo))) (λ _, Ok tt).
Definition validateProjectManager (pm : ProjectManager) : result unit :=
  rbind (rmap validate_org_repo (map_range (pm_OrgRepos pm))) (λ _, Ok tt).

(** [validateTrigger] only warns. *)
Definition validateTrigger (triggers : list Trigger) : result unit := Ok tt.

(** [regexp.Compile] and [time.ParseDuration] *)
Context (Compile : string → result Regexp) (ParseDuration : string → result Z).

Definition compile_rml (r : RequireMatchingLabel) : result RequireMatchingLabel :=
  match Compile (rl_Regexp r) with
  | Err e => Err (Errorf "failed to compile label regexp: %q, error: %v" [AStr (rl_Regexp r); AErr e])
  | Ok re =>
      match ParseDuration (rl_GracePeriod r) with
      | Err e => Err (Errorf "failed to compile grace period duration: %q, error: %v"
                        [AStr (rl_GracePeriod r); AErr e])
      | Ok dur => Ok (mkRequireMatchingLabel (rl_Org r) (rl_Repo r) (rl_Branch r) (rl_PRs r) (rl_Issues r)
                        (rl_Regexp r) re (rl_MissingLabel r) (rl_MissingComment r) (rl_GracePeriod r) dur)
      end
  end.

Definition compileRegexpsAndDurations (pc : Configuration) : result Configuration :=
  let sm := pc_SigMention pc in
  let cp := pc_CherryPickUnapproved pc in
  let ht := pc_Heart pc in
  let? cRe := Compile (sm_Regexp sm) in
  let? branchRe := Compile (cp_BranchRegexp cp) in
  let? commentRe := Compile (ht_CommentRegexp ht) in
  let? rs := rmap compile_rml (pc_RequireMatchingLabel pc) in
  Ok (mkConfiguration (pc_Plugins pc) (pc_ExternalPlugins pc) (pc_Owners pc) (pc_Approve pc) (pc_Blockades pc)
        (pc_Blunderbuss pc) (pc_Bugzilla pc)
        (mkCherryPickUnapproved (cp_BranchRegexp cp) branchRe (cp_Comment cp)) (pc_ConfigUpdater pc) (pc_Dco pc)
        (mkHeart (ht_Adorees ht) (ht_CommentRegexp ht) commentRe) (pc_AdditionalLabels pc) (pc_Lgtm pc)
        (pc_RepoMilestone pc) (pc_Project pc) (pc_ProjectManager pc) rs (mkSigMention (sm_Regexp sm) cRe)
        (pc_Size pc) (pc_Triggers pc) (pc_Override pc)).

Definition set_ConfigUpdater (pc : Configuration) (updater : ConfigUpdater) : Configuration :=
  mkConfiguration (pc_Plugins pc) (pc_ExternalPlugins pc) (pc_Owners pc) (pc_Approve pc) (pc_Blockades pc)
    (pc_Blunderbuss pc) (pc_Bugzilla pc) (pc_CherryPickUnapproved pc) updater (pc_Dco pc) (pc_Heart pc)
    (pc_AdditionalLabels pc) (pc_Lgtm pc) (pc_RepoMilestone pc) (pc_Project pc) (pc_ProjectManager pc)
    (pc_RequireMatchingLabel pc) (pc_SigMention pc) (pc_Size pc) (pc_Triggers pc) (pc_Override pc).

Definition Validate (c : Configuration) : result Configuration :=
  let c := setDefaults c in
  let? c := compileRegexpsAndDurations c in
  let? _ := validatePluginsDupes (pc_Plugins c) in
  let? _ := validateExternalPlugins (pc_ExternalPlugins c) in
  let? _ := validateBlunderbuss (pc_Blunderbuss c) in
  let '(updater, updates) := validateConfigUpdater (pc_ConfigUpdater c) in
  let? _ := updates in
  let c := set_ConfigUpdater c updater in
  let? _ := validateSizes (pc_Size c) in
  let? _ := validateRequireMatchingLabel (pc_RequireMatchingLabel c) in
  let? _ := validateProjectManager (pc_ProjectManager c) in
  let? _ := validateTrigger (pc_Triggers c) in
  Ok c.

(** [ConfigAgent.Load], after the file is read and decoded. *)
Definition Load (read : result Configuration) (checkUnknownPlugins : bool) (pluginHelp : gset string)
    (current : Configuration) : Configuration * result unit :=
  match (let? np := read in
         let? np := Validate np in
         let? _ := (if checkUnknownPlugins then ValidatePluginsUnknown pluginHelp np else Ok tt) in
         Ok np) with
  | Ok np => (np, Ok tt)
  | Err e => (current, Err e)
  end.
End validation.

(** ** What a valid configuration is *)

(** No plugin is enabled for a repository and for its organization. *)
Definition no_overlap (plugins : gmap string (list string)) : Prop :=
  ∀ repo l p, plugins !! repo = Some l → contains_char "/" repo = true → p ∈ l →
    p ∉ default [] (plugins !! org_of repo).

Definition valid_blunderbuss (b : Blunderbuss) : Prop :=
  (bb_ReviewerCount b = None ∨ bb_FileWeightCount b = None) ∧
  (∀ n, bb_ReviewerCount b = Some n ∨ bb_FileWeightCount b = Some n → 1 ≤ n)%Z.

Definition valid_sizes (s : Size) : Prop :=
  (sz_S s ≤ sz_M s ≤ sz_L s ∧ sz_L s ≤ sz_Xl s ≤ sz_Xxl s)%Z.

Definition valid_rml (r : RequireMatchingLabel) : Prop :=
  rl_Org r ≠ "" ∧ contains_char "/" (rl_Repo r) = false ∧ rl_Regexp r ≠ "" ∧ rl_MissingLabel r ≠ "" ∧
  rl_GracePeriod r ≠ "" ∧ (rl_PRs r = true ∨ rl_Issues r = true) ∧
  (rl_Branch r ≠ "" → rl_PRs r = true) ∧ rl_Re r (rl_MissingLabel r) = false.

(** The keys that files update, one for each cluster and namespace. *)
Definition file_targets (entry : string * ConfigMapSpec) (cluster : string * list string)
    : list (ConfigMapID * string) :=
  (λ namespace, ((cs_Name entry.2, namespace, cluster.1), or_default (cs_Key entry.2) (path_Base entry.1)))
    <$> cluster.2.
Definition targets (maps : gmap string ConfigMapSpec) : list (ConfigMapID * string) :=
  entry ← map_to_list maps; cluster ← map_to_list (cs_Clusters entry.2); file_targets entry cluster.

Definition valid_column (c : ManagedColumn) : Prop :=
  (mc_ID c ≠ None ∨ mc_Name c ≠ "") ∧ mc_Labels c ≠ [] ∧ mc_Org c ≠ "".
Definition valid_project (p : ManagedProject) : Prop :=
  mp_Columns p ≠ [] ∧ Forall valid_column (mp_Columns p) ∧
  NoDup ((λ c, set_of (mc_Labels c)) <$> mp_Columns p).
Definition valid_org_repo (o : ManagedOrgRepo) : Prop :=
  mo_Projects o ≠ ∅ ∧ map_Forall (λ _, valid_project) (mo_Projects o).

Definition valid (c : Configuration) : Prop :=
  no_overlap (pc_Plugins c) ∧ no_overlap (xp_names <$> pc_ExternalPlugins c) ∧
  valid_blunderbuss (pc_Blunderbuss c) ∧ NoDup (targets (cu_Maps (pc_ConfigUpdater c))) ∧
  valid_sizes (pc_Size c) ∧ Forall valid_rml (pc_RequireMatchingLabel c) ∧
  map_Forall (λ _, valid_org_repo) (pm_OrgRepos (pc_ProjectManager c)).

(** ** Loops that succeed *)

Lemma rmap_ok {A B} (f : A → result B) l :
  (∃ r, rmap f l = Ok r) ↔ ∀ a, a ∈ l → ∃ b, f a = Ok b.
Proof.
  induction l as [|a l IH]; cbn [rmap].
  - split; [by intros _ ? ?%not_elem_of_nil|by eexists].
  - setoid_rewrite elem_of_cons. split.
    + intros (r & (b & Hb & (bs & Hbs & _)%rbind_Ok_inv)%rbind_Ok_inv) x [->|Hx]; [by exists b|].
      apply IH; [by exists bs|done].
    + intros Hl. destruct (Hl a (or_introl eq_refl)) as [b Hb].
      destruct (proj2 IH) as [bs Hbs]; [auto|]. exists (b :: bs). by rewrite Hb, Hbs.
Qed.

Lemma done_ok {A} (m : result A) : rbind m (λ _, Ok tt) = Ok tt ↔ ∃ a, m = Ok a.
Proof. destruct m as [a|e]; cbn; [split; [by exists a|done]|split; [done|by intros []]]. Qed.

Lemma rfold_app {A B} (f : B → A → result B) b l1 l2 :
  rfold f b (l1 ++ l2) = rbind (rfold f b l1) (λ b', rfold f b' l2).
Proof.
  revert b. induction l1 as [|a l1 IH]; intros b; [done|]. cbn. destruct (f b a); cbn; [apply IH|done].
Qed.

(** Nested loops as one. *)
Lemma rfold_bind {A B C} (f : B → C → result B) (g : A → list C) b l :
  rfold (λ b a, rfold f b (g a)) b l = rfold f b (l ≫= g).
Proof.
  revert b. induction l as [|a l IH]; intros b; [done|]. cbn [rfold mbind list_bind].
  rewrite rfold_app. destruct (rfold f b (g a)); cbn; [apply IH|done].
Qed.

Lemma rfold_fmap {A B C} (f : B → C → result B) (g : A → C) b l :
  rfold (λ b a, f b (g a)) b l = rfold f b (g <$> l).
Proof. revert b. induction l as [|a l IH]; intros b; [done|]. cbn. destruct (f b (g a)); cbn; auto. Qed.

Lemma rfold_ext {A B} (f g : B → A → result B) b l : (∀ b a, f b a = g b a) → rfold f b l = rfold g b l.
Proof.
  intros Hfg. revert b. induction l as [|a l IH]; intros b; [done|]. cbn. rewrite Hfg.
  destruct (g b a); cbn; auto.
Qed.

(** ** Each check *)

Lemma findDuplicatedPluginConfig_nil l orgConfig :
  findDuplicatedPluginConfig l orgConfig = [] ↔ ∀ p, p ∈ l → p ∉ orgConfig.
Proof.
  unfold findDuplicatedPluginConfig.
  assert (∀ r dupes, foldl (λ dupes orgPlugin, if bool_decide (r = orgPlugin) then dupes ++ [r] else dupes) dupes orgConfig
                     = dupes ++ ((λ _, r) <$> filter (λ o, r = o) orgConfig)) as Hin.
  { intros r. induction orgConfig as [|o orgConfig IH]; intros dupes; cbn [foldl].
    - by rewrite app_nil_r.
    - rewrite IH. case_bool_decide as Hr.
      + rewrite filter_cons_True by done. cbn. by rewrite <- app_assoc.
      + by rewrite filter_cons_False. }
  assert (∀ dupes, foldl (λ dupes r, foldl (λ dupes orgPlugin,
      if bool_decide (r = orgPlugin) then dupes ++ [r] else dupes) dupes orgConfig) dupes l = []
    ↔ dupes = [] ∧ ∀ p, p ∈ l → p ∉ orgConfig) as Hout; [|rewrite Hout; naive_solver].
  induction l as [|r l IH]; intros dupes; cbn [foldl].
  - split; [|by intros []]. intros ->. split; [done|]. by intros ? ?%not_elem_of_nil.
  - rewrite IH, Hin. setoid_rewrite elem_of_cons.
    assert ((λ _, r) <$> filter (λ o, r = o) orgConfig = [] ↔ r ∉ orgConfig) as Hr.
    { split.
      - intros Hf%fmap_nil_inv Hr. assert (r ∈ filter (λ o, r = o) orgConfig) as H0 by by apply list_elem_of_filter.
        rewrite Hf in H0. by apply not_elem_of_nil in H0.
      - intros Hr. rewrite filter_none; [done|]. by intros x Hx ->. }
    rewrite app_nil. naive_solver.
Qed.

Section checks.
Context `{GoRange}.

(** Errors are collected for the entries with duplicates. *)
Lemma collect_duplicates {A} (names : A → list string) (plugins : gmap string (list string))
    (mk : string * A → list string → error) l errs :
  foldl (λ errs (entry : string * A), match duplicates plugins (entry.1, names entry.2) with
                                      | [] => errs | dupes => errs ++ [mk entry dupes] end) errs l = []
  ↔ errs = [] ∧ ∀ entry, entry ∈ l → duplicates plugins (entry.1, names entry.2) = [].
Proof.
  revert errs. induction l as [|x l IH]; intros errs; cbn [foldl].
  - split; [|by intros []]. intros ->. split; [done|]. by intros ? ?%not_elem_of_nil.
  - rewrite IH. setoid_rewrite elem_of_cons. destruct (duplicates plugins (x.1, names x.2)) eqn:E.
    + naive_solver.
    + rewrite app_nil. naive_solver congruence.
Qed.

Lemma duplicates_nil plugins entry :
  duplicates plugins entry = [] ↔
  (contains_char "/" entry.1 = true → ∀ p, p ∈ entry.2 → p ∉ default [] (plugins !! org_of entry.1)).
Proof.
  unfold duplicates. destruct (contains_char _ _); [rewrite findDuplicatedPluginConfig_nil; naive_solver|].
  split; [by intros ?|done].
Qed.

Lemma validatePluginsDupes_ok plugins : validatePluginsDupes plugins = Ok tt ↔ no_overlap plugins.
Proof.
  unfold validatePluginsDupes. rewrite NewAggregate_Ok.
  etrans; [apply (collect_duplicates id plugins (λ entry dupes, Errorf _ [AStrs dupes; AStr entry.1; AStr _]))|].
  unfold no_overlap. setoid_rewrite duplicates_nil. split.
  - intros [_ Hd] repo l p Hl Hc Hp. apply (Hd (repo, l)); [by apply elem_of_map_range|done|done].
  - intros Hn. split; [done|]. intros [repo l] Hl%elem_of_map_range Hc p Hp. by eapply Hn.
Qed.

Lemma validateExternalPlugins_ok plugins :
  validateExternalPlugins plugins = Ok tt ↔ no_overlap (xp_names <$> plugins).
Proof.
  unfold validateExternalPlugins. cbn zeta.
  assert (∀ (errs : list error) e, match errs with [] => Ok tt | _ => Err e end = Ok tt ↔ errs = []) as ->
    by (by intros []).
  etrans; [apply (collect_duplicates xp_names _ (λ entry dupes, Errorf _ [AStrs dupes; AStr entry.1; AStr _]))|].
  unfold no_overlap. setoid_rewrite duplicates_nil. split.
  - intros [_ Hd] repo l p (l' & <- & Hl)%lookup_fmap_Some Hc Hp.
    apply (Hd (repo, l')); [by apply elem_of_map_range|done|done].
  - intros Hn. split; [done|]. intros [repo l] Hl%elem_of_map_range Hc p Hp. eapply Hn; [|exact Hc|exact Hp].
    apply lookup_fmap_Some. by exists l.
Qed.

Lemma validateBlunderbuss_ok b : validateBlunderbuss b = Ok tt ↔ valid_blunderbuss b.
Proof.
  unfold validateBlunderbuss, valid_blunderbuss.
  destruct (bb_ReviewerCount b) as [n|], (bb_FileWeightCount b) as [m|].
  - rewrite bool_decide_eq_true_2 by eauto. split; [done|]. by intros [[|] _].
  - rewrite bool_decide_eq_false_2 by (by intros [_ []]). case_bool_decide; (split; [try done|]).
    + intros [_ Hn]. assert (1 ≤ n)%Z by eauto. lia.
    + intros _. split; [by right|]. intros k [[= <-]|]; [lia|done].
    + done.
  - rewrite bool_decide_eq_false_2 by (by intros [[] _]). case_bool_decide; (split; [try done|]).
    + intros [_ Hn]. assert (1 ≤ m)%Z by eauto. lia.
    + intros _. split; [by left|]. intros k [|[= <-]]; [done|lia].
    + done.
  - rewrite bool_decide_eq_false_2 by (by intros [[] _]). split; [|done]. split; [by left|]. by intros k [|].
Qed.

Lemma validateSizes_ok s : validateSizes s = Ok tt ↔ valid_sizes s.
Proof. unfold validateSizes, valid_sizes. case_bool_decide; (split; [try done|]); try lia; done. Qed.

Lemma RequireMatchingLabel_validate_ok r : RequireMatchingLabel_validate r = Ok tt ↔ valid_rml r.
Proof.
  unfold RequireMatchingLabel_validate, valid_rml.
  repeat case_bool_decide; destruct (contains_char _ _), (rl_PRs r), (rl_Issues r), (rl_Re r _); cbn [andb negb];
    split; try done; naive_solver.
Qed.

Lemma validateRequireMatchingLabel_ok rs :
  validateRequireMatchingLabel rs = Ok tt ↔ Forall valid_rml rs.
Proof.
  unfold validateRequireMatchingLabel. generalize 0%Z. induction rs as [|r rs IH]; intros i; cbn [validate_rmls].
  - split; [constructor|done].
  - rewrite Forall_cons, <- RequireMatchingLabel_validate_ok.
    destruct (RequireMatchingLabel_validate r) as [[]|e]; [rewrite IH; naive_solver|naive_solver].
Qed.

(** *** Config maps *)

Definition keys_of (keys : gmap ConfigMapID (gset string)) (t : ConfigMapID * string) : Prop :=
  ∃ known, keys !! t.1 = Some known ∧ t.2 ∈ known.

Lemma note_key_ok keys t :
  match note_key keys t with
  | Ok keys' => ¬ keys_of keys t ∧ ∀ t', keys_of keys' t' ↔ t' = t ∨ keys_of keys t'
  | Err _ => keys_of keys t
  end.
Proof.
  unfold note_key, keys_of. destruct t as [id key]. destruct (keys !! id) as [known|] eqn:E; [case_bool_decide as Hk|].
  - by exists known.
  - split; [by intros (? & ? & ?); simplify_eq/=|]. intros [id' key']; cbn.
    destruct (decide (id' = id)) as [->|Hne].
    + rewrite lookup_insert_eq, E. split.
      * intros (k & [= <-] & [->%elem_of_singleton|Hin]%elem_of_union); [by left|right; by eexists].
      * intros [[= ->]|(k & [= <-] & Hin)]; (eexists; split; [done|set_solver]).
    + rewrite lookup_insert_ne by done. naive_solver.
  - split; [by intros (? & ? & ?); simplify_eq/=|]. intros [id' key']; cbn.
    destruct (decide (id' = id)) as [->|Hne].
    + rewrite lookup_insert_eq, E. split.
      * intros (k & [= <-] & ->%elem_of_singleton). by left.
      * intros [[= ->]|(k & ? & _)]; [|done]. eexists; split; [done|set_solver].
    + rewrite lookup_insert_ne by done. naive_solver.
Qed.

Lemma note_keys_ok keys l :
  (∃ keys', rfold note_key keys l = Ok keys') ↔ NoDup l ∧ ∀ t, t ∈ l → ¬ keys_of keys t.
Proof.
  revert keys. induction l as [|t l IH]; intros keys; cbn [rfold].
  - split; [|by eexists]. intros _. split; [constructor|]. by intros ? ?%not_elem_of_nil.
  - pose proof (note_key_ok keys t) as Hn. rewrite NoDup_cons. setoid_rewrite elem_of_cons.
    destruct (note_key keys t) as [keys'|e]; cbn [rbind].
    + rewrite IH. destruct Hn as [Ht Hk]. setoid_rewrite Hk. naive_solver.
    + split; [by intros []|]. naive_solver.
Qed.

(** The targets in the order of the loops. *)
Definition ranged_targets (maps : gmap string ConfigMapSpec) : list (ConfigMapID * string) :=
  entry ← map_range maps; cluster ← map_range (cs_Clusters entry.2); file_targets entry cluster.

Lemma ranged_targets_perm maps : ranged_targets maps ≡ₚ targets maps.
Proof.
  unfold ranged_targets, targets. rewrite map_range_perm. clear. induction (map_to_list maps) as [|entry l IH]; [done|].
  cbn [mbind list_bind]. rewrite IH. apply Permutation_app; [|done]. by rewrite map_range_perm.
Qed.

Lemma note_files keys maps :
  rfold note_file keys (map_range maps) = rfold note_key keys (ranged_targets maps).
Proof.
  unfold ranged_targets. rewrite <- rfold_bind. apply rfold_ext. intros keys' [file config]. unfold note_file.
  rewrite <- rfold_bind. apply rfold_ext. intros keys'' [cluster namespaces]. unfold file_targets. by rewrite <- rfold_fmap.
Qed.

Lemma validateConfigUpdater_ok c :
  (validateConfigUpdater c).2 = Ok tt ↔ NoDup (targets (cu_Maps (ConfigUpdater_SetDefaults c))).
Proof.
  unfold validateConfigUpdater. cbn [snd]. rewrite done_ok, note_files, note_keys_ok, ranged_targets_perm.
  split; [by intros []|]. intros Hn. split; [done|]. intros t _ (known & Hk & _). by rewrite lookup_empty in Hk.
Qed.

(** *** The project manager *)

Lemma validate_columns_ok orgRepo project sets l :
  (∃ sets', rfold (validate_column orgRepo project) sets l = Ok sets') ↔
  Forall valid_column l ∧ NoDup ((λ c, set_of (mc_Labels c)) <$> l) ∧
  ∀ c, c ∈ l → set_of (mc_Labels c) ∉ sets.
Proof.
  revert sets. induction l as [|c l IH]; intros sets; cbn [rfold].
  { split; [|by eexists]. intros _. split_and!; [constructor..|]. by intros ? ?%not_elem_of_nil. }
  rewrite Forall_cons, fmap_cons, NoDup_cons. setoid_rewrite elem_of_cons.
  assert (set_of (mc_Labels c) ∉ (λ c, set_of (mc_Labels c)) <$> l ↔
    ∀ c', c' ∈ l → set_of (mc_Labels c') ≠ set_of (mc_Labels c)) as ->.
  { rewrite list_elem_of_fmap. naive_solver. }
  unfold validate_column, valid_column at 1. cbn zeta.
  case_bool_decide as H1; [split; [by intros []|naive_solver]|].
  case_bool_decide as H2; [split; [by intros []|naive_solver]|].
  case_bool_decide as H3; [split; [by intros []|naive_solver]|].
  case_bool_decide as H4; [split; [by intros []|naive_solver]|].
  cbn [rbind]. rewrite IH. setoid_rewrite elem_of_app. setoid_rewrite list_elem_of_singleton.
  destruct (decide (mc_ID c = None)), (decide (mc_Name c = "")); naive_solver.
Qed.

Lemma validate_project_ok orgRepo entry :
  (∃ u, validate_project orgRepo entry = Ok u) ↔ valid_project entry.2.
Proof.
  destruct entry as [name p]. unfold validate_project, valid_project. cbn.
  case_bool_decide as Hc; [split; [by intros []|naive_solver]|].
  assert (∀ r : result unit, (∃ u, r = Ok u) ↔ r = Ok tt) as -> by (intros [[]|]; naive_solver).
  rewrite done_ok, validate_columns_ok. split; [naive_solver|]. intros (_ & ? & ?). split_and!; [done..|].
  by intros ? _ ?%not_elem_of_nil.
Qed.

Lemma all_entries {A} (m : gmap string A) (P : A → Prop) :
  (∀ entry, entry ∈ map_range m → P entry.2) ↔ map_Forall (λ _, P) m.
Proof.
  unfold map_Forall. split.
  - intros Hm k a Ha. apply (Hm (k, a)). by apply elem_of_map_range.
  - intros Hm [k a] Ha%elem_of_map_range. by eapply Hm.
Qed.

Lemma validate_org_repo_ok entry : (∃ u, validate_org_repo entry = Ok u) ↔ valid_org_repo entry.2.
Proof.
  destruct entry as [name o]. unfold validate_org_repo, valid_org_repo. cbn.
  case_bool_decide as Hc; [split; [by intros []|naive_solver]|].
  assert (∀ r : result unit, (∃ u, r = Ok u) ↔ r = Ok tt) as -> by (intros [[]|]; naive_solver).
  rewrite done_ok, rmap_ok. setoid_rewrite validate_project_ok. rewrite (all_entries _ valid_project). naive_solver.
Qed.

Lemma validateProjectManager_ok pm :
  validateProjectManager pm = Ok tt ↔ map_Forall (λ _, valid_org_repo) (pm_OrgRepos pm).
Proof.
  unfold validateProjectManager. rewrite done_ok, rmap_ok. setoid_rewrite validate_org_repo_ok.
  apply (all_entries _ valid_org_repo).
Qed.
End checks.

(** ** Defaults stay *)

Lemma or_default_twice s d : or_default (or_default s d) d = or_default s d.
Proof. unfold or_default. repeat case_bool_decide; done. Qed.

Lemma default_spec_twice spec : default_spec (default_spec spec) = default_spec spec.
Proof.
  unfold default_spec. cbn. f_equal.
  destruct (bool_decide_reflect (cs_Clusters spec = ∅)) as [Hc|Hc]; by rewrite bool_decide_eq_false_2.
Qed.

Lemma ConfigUpdater_SetDefaults_twice c :
  ConfigUpdater_SetDefaults (ConfigUpdater_SetDefaults c) = ConfigUpdater_SetDefaults c.
Proof.
  unfold ConfigUpdater_SetDefaults. cbn. f_equal. rewrite bool_decide_eq_false_2.
  - rewrite <- map_fmap_compose. apply map_fmap_ext. intros ? spec _. apply default_spec_twice.
  - rewrite fmap_empty_iff. case_bool_decide; [|done]. apply insert_non_empty.
Qed.

Lemma list_fmap_twice {A} (f : A → A) (l : list A) : (∀ a, f (f a) = f a) → f <$> (f <$> l) = f <$> l.
Proof. intros Hf. rewrite <- list_fmap_compose. apply list_fmap_ext. intros ? a _. apply Hf. Qed.

Lemma default_grace_twice r : default_grace (default_grace r) = default_grace r.
Proof. unfold default_grace. cbn. by rewrite or_default_twice. Qed.

(** The fields of a configuration with its defaults set once more. *)
Ltac defaults_twice :=
  unfold setDefaults; cbn;
  assert (∀ b, default_blunderbuss (default_blunderbuss b) = default_blunderbuss b) as Hbb
    by (intros [[] ? [] ? ?]; done);
  rewrite ?or_default_twice, ?ConfigUpdater_SetDefaults_twice, Hbb; clear Hbb;
  rewrite ?(list_fmap_twice default_grace) by apply default_grace_twice;
  rewrite (list_fmap_twice SetDefaults)
    by (intros t; unfold SetDefaults; cbn; f_equal; repeat case_bool_decide; naive_solver);
  f_equal; rewrite <- map_fmap_compose; apply map_fmap_ext; intros ? l _; apply list_fmap_twice;
  intros p; unfold default_endpoint; cbn; by rewrite or_default_twice.

Lemma setDefaults_twice c : setDefaults (setDefaults c) = setDefaults c.
Proof. defaults_twice. Qed.

(** ** Who has which plugins *)

Lemma foldl_handlers {A} (registered : gmap string A) l (hs : gmap string A) p :
  foldl (λ hs p, match registered !! p with Some h => <[p := h]> hs | None => hs end) hs l !! p =
  if bool_decide (p ∈ l) then match registered !! p with Some h => Some h | None => hs !! p end else hs !! p.
Proof.
  revert hs. induction l as [|x l IH]; intros hs; cbn [foldl]; [done|]. rewrite IH.
  destruct (decide (p = x)) as [->|Hne].
  - rewrite (bool_decide_eq_true_2 (x ∈ x :: l)) by set_solver.
    destruct (registered !! x); [rewrite lookup_insert_eq|]; by case_bool_decide.
  - rewrite (bool_decide_ext (p ∈ x :: l) (p ∈ l)) by set_solver.
    destruct (registered !! x); [rewrite lookup_insert_ne by done|]; done.
Qed.

(** A plugin handles the events of a repository if it is registered for them and enabled
    for the repository or its organization. *)
Lemma handlers_for_lookup {A} (registered : gmap string A) c owner repo p :
  handlers_for registered c owner repo !! p =
  if bool_decide (p ∈ getPlugins c owner repo) then registered !! p else None.
Proof.
  unfold handlers_for. rewrite foldl_handlers, lookup_empty. case_bool_decide; [|done]. by destruct (registered !! p).
Qed.

Lemma ValidatePluginsUnknown_ok `{GoRange} pluginHelp c :
  ValidatePluginsUnknown pluginHelp c = Ok tt ↔
  ∀ repo l p, pc_Plugins c !! repo = Some l → p ∈ l → p ∈ pluginHelp.
Proof.
  unfold ValidatePluginsUnknown. rewrite NewAggregate_Ok.
  set (step := λ errs plugin, if bool_decide (plugin ∈ pluginHelp) then errs
                              else errs ++ [Errorf "unknown plugin: %s" [AStr plugin]]).
  assert (∀ l errs, foldl step errs l = [] ↔ errs = [] ∧ ∀ p, p ∈ l → p ∈ pluginHelp) as Hin.
  { induction l as [|x l IH]; intros errs; cbn [foldl].
    - split; [|by intros []]. intros ->. split; [done|]. by intros ? ?%not_elem_of_nil.
    - rewrite IH. setoid_rewrite elem_of_cons. unfold step. case_bool_decide; [naive_solver|].
      rewrite app_nil. naive_solver. }
  assert (∀ l errs, foldl (λ errs (entry : string * list string), foldl step errs entry.2) errs l = [] ↔
    errs = [] ∧ ∀ entry p, entry ∈ l → p ∈ entry.2 → p ∈ pluginHelp) as Hout.
  { induction l as [|x l IH]; intros errs; cbn [foldl].
    - split; [|by intros []]. intros ->. split; [done|]. by intros ? ? ?%not_elem_of_nil.
    - rewrite IH, Hin. setoid_rewrite elem_of_cons. naive_solver. }
  rewrite Hout. split.
  - intros [_ Hp] repo l p Hl. apply (Hp (repo, l)). by apply elem_of_map_range.
  - intros Hp. split; [done|]. intros [repo l] p Hl%elem_of_map_range. by eapply Hp.
Qed.

Section validate.
Context `{GoRange} (Compile : string → result Regexp) (ParseDuration : string → result Z).

Lemma compiled_updater c c' :
  compileRegexpsAndDurations Compile ParseDuration c = Ok c' → pc_ConfigUpdater c' = pc_ConfigUpdater c.
Proof. unfold compileRegexpsAndDurations. intros Hc. ok_inv. done. Qed.

Lemma set_same_updater c : set_ConfigUpdater c (pc_ConfigUpdater c) = c.
Proof. by destruct c. Qed.

Lemma Validate_ok c c' :
  Validate Compile ParseDuration c = Ok c' ↔
  compileRegexpsAndDurations Compile ParseDuration (setDefaults c) = Ok c' ∧ valid c'.
Proof.
  unfold Validate, valid. cbn zeta.
  destruct (compileRegexpsAndDurations _ _ _) as [d|e] eqn:Ec; cbn [rbind]; [|naive_solver].
  apply compiled_updater in Ec.
  assert (ConfigUpdater_SetDefaults (pc_ConfigUpdater d) = pc_ConfigUpdater d) as Eu.
  { rewrite Ec. cbn. apply ConfigUpdater_SetDefaults_twice. }
  pose proof (validateConfigUpdater_ok (pc_ConfigUpdater d)) as Hu.
  unfold validateConfigUpdater in *. cbn [snd] in Hu. rewrite Eu in *. rewrite set_same_updater.
  assert (∀ (m : result unit) (k : result Configuration),
    rbind m (λ _, k) = Ok c' ↔ m = Ok tt ∧ k = Ok c') as Hb by (intros [[]|] k; naive_solver).
  rewrite !Hb, validatePluginsDupes_ok, validateExternalPlugins_ok, validateBlunderbuss_ok, Hu,
    validateSizes_ok, validateRequireMatchingLabel_ok, validateProjectManager_ok.
  unfold validateTrigger. naive_solver.
Qed.

(** *** What a loaded configuration has by default *)

(** [s], or [d] if it is empty. *)
Definition is_default (s d s' : string) : Prop := s ≠ "" ∧ s' = s ∨ s = "" ∧ s' = d.

(** What is left unset in the configuration [np] as it is written has its default in [c]. *)
Record defaulted (np c : Configuration) : Prop := {
  df_endpoints repo : match pc_ExternalPlugins np !! repo, pc_ExternalPlugins c !! repo with
    | Some l, Some l' => Forall2 (λ p q, xp_Name q = xp_Name p ∧ xp_Events q = xp_Events p ∧
        is_default (xp_Endpoint p) ("http://" +:+ xp_Name p) (xp_Endpoint q)) l l'
    | None, None => True
    | _, _ => False
    end;
  df_reviewers : (bb_ReviewerCount (pc_Blunderbuss np) = None → bb_FileWeightCount (pc_Blunderbuss np) = None →
      bb_ReviewerCount (pc_Blunderbuss c) = Some 2%Z) ∧
    (is_Some (bb_ReviewerCount (pc_Blunderbuss np)) ∨ is_Some (bb_FileWeightCount (pc_Blunderbuss np)) →
      pc_Blunderbuss c = pc_Blunderbuss np);
  df_triggers : Forall2 (λ t u,
      tg_Repos u = tg_Repos t ∧ tg_TrustedOrg u = tg_TrustedOrg t ∧
      tg_OnlyOrgMembers u = tg_OnlyOrgMembers t ∧ tg_IgnoreOkToTest u = tg_IgnoreOkToTest t ∧
      (tg_ElideSkippedContexts t = None ∧ tg_ElideSkippedContexts u = Some true ∨
       is_Some (tg_ElideSkippedContexts t) ∧ tg_ElideSkippedContexts u = tg_ElideSkippedContexts t) ∧
      (tg_TrustedOrg t = "" ∧ tg_JoinOrgURL u = tg_JoinOrgURL t ∨
       tg_TrustedOrg t ≠ "" ∧ is_default (tg_JoinOrgURL t)
         ("https://github.com/orgs/" +:+ tg_TrustedOrg t +:+ "/people") (tg_JoinOrgURL u)))
    (pc_Triggers np) (pc_Triggers c);
  df_sig : is_default (sm_Regexp (pc_SigMention np)) default_sig_regexp (sm_Regexp (pc_SigMention c));
  df_labels : ow_LabelsBlackList (pc_Owners np) = None ∧ ow_LabelsBlackList (pc_Owners c) = Some ["approved"; "lgtm"] ∨
    is_Some (ow_LabelsBlackList (pc_Owners np)) ∧
      ow_LabelsBlackList (pc_Owners c) = ow_LabelsBlackList (pc_Owners np);
  df_branch : is_default (cp_BranchRegexp (pc_CherryPickUnapproved np)) "^release-.*$"
    (cp_BranchRegexp (pc_CherryPickUnapproved c));
  df_comment : is_default (cp_Comment (pc_CherryPickUnapproved np)) default_cherry_comment
    (cp_Comment (pc_CherryPickUnapproved c));
  df_grace : Forall2 (λ r r', is_default (rl_GracePeriod r) "5s" (rl_GracePeriod r') ∧
      rl_Regexp r' = rl_Regexp r ∧ rl_MissingLabel r' = rl_MissingLabel r)
    (pc_RequireMatchingLabel np) (pc_RequireMatchingLabel c);
  df_maps : let written := cu_Maps (pc_ConfigUpdater np) in
    let maps := cu_Maps (pc_ConfigUpdater c) in
    maps ≠ ∅ ∧ (written ≠ ∅ → dom maps = dom written) ∧
    map_Forall (λ file spec, cs_Namespaces spec = cs_Namespace spec :: cs_AdditionalNamespaces spec ∧
      cs_Clusters spec ≠ ∅ ∧
      ∀ spec0, written !! file = Some spec0 → cs_Name spec = cs_Name spec0 ∧
        cs_Namespaces spec = cs_Namespace spec0 :: cs_AdditionalNamespaces spec0 ∧
        (cs_Clusters spec0 ≠ ∅ → cs_Clusters spec = cs_Clusters spec0) ∧
        (cs_Clusters spec0 = ∅ → cs_Clusters spec = {["default" := cs_Namespaces spec]})) maps;
  df_rest : pc_Plugins c = pc_Plugins np ∧ pc_Approve c = pc_Approve np ∧ pc_Lgtm c = pc_Lgtm np ∧
    pc_Bugzilla c = pc_Bugzilla np ∧ pc_Size c = pc_Size np ∧ pc_RepoMilestone c = pc_RepoMilestone np }.

Lemma is_default_ok s d : is_default s d (or_default s d).
Proof. unfold is_default, or_default. case_bool_decide; auto. Qed.

Lemma compiled_rmls l rs :
  rmap (compile_rml Compile ParseDuration) (default_grace <$> l) = Ok rs →
  Forall2 (λ r r', (is_default (rl_GracePeriod r) "5s" (rl_GracePeriod r') ∧
    rl_Regexp r' = rl_Regexp r ∧ rl_MissingLabel r' = rl_MissingLabel r) ∧
    Compile (rl_Regexp r') = Ok (rl_Re r') ∧ ParseDuration (rl_GracePeriod r') = Ok (rl_GracePeriodDuration r')) l rs.
Proof.
  intros Hr%rmap_Ok_Forall2%Forall2_fmap_l. eapply Forall2_impl; [exact Hr|]. cbn. intros r r' Hc.
  unfold compile_rml in Hc. destruct (Compile _) eqn:E1; [|done]. destruct (ParseDuration _) eqn:E2; [|done].
  injection Hc as <-. cbn in *. split_and!; [apply is_default_ok|done..].
Qed.

Lemma default_maps_ok u :
  let maps := cu_Maps (ConfigUpdater_SetDefaults u) in
  maps ≠ ∅ ∧ (cu_Maps u ≠ ∅ → dom maps = dom (cu_Maps u)) ∧
  map_Forall (λ file spec, cs_Namespaces spec = cs_Namespace spec :: cs_AdditionalNamespaces spec ∧
    cs_Clusters spec ≠ ∅ ∧
    ∀ spec0, cu_Maps u !! file = Some spec0 → cs_Name spec = cs_Name spec0 ∧
      cs_Namespaces spec = cs_Namespace spec0 :: cs_AdditionalNamespaces spec0 ∧
      (cs_Clusters spec0 ≠ ∅ → cs_Clusters spec = cs_Clusters spec0) ∧
      (cs_Clusters spec0 = ∅ → cs_Clusters spec = {["default" := cs_Namespaces spec]})) maps.
Proof.
  unfold ConfigUpdater_SetDefaults. cbn [cu_Maps].
  set (m := if bool_decide (cu_Maps u = ∅) then _ else _).
  assert (m ≠ ∅ ∧ (cu_Maps u ≠ ∅ → m = cu_Maps u)) as [Hne Hm].
  { unfold m. case_bool_decide; [|done]. split; [apply insert_non_empty|done]. }
  cbn zeta. split_and!.
  - by rewrite fmap_empty_iff.
  - intros Hw. by rewrite dom_fmap_L, Hm.
  - intros file spec (spec1 & <- & Hs)%lookup_fmap_Some. unfold default_spec. cbn. split_and!; [done| |].
    + case_bool_decide; [apply insert_non_empty|done].
    + intros spec0 Hl. assert (m = cu_Maps u) as Em.
      { apply Hm. intros E. by rewrite E, lookup_empty in Hl. }
      rewrite Em in Hs. assert (spec1 = spec0) as -> by congruence. split_and!; [done..| |]; case_bool_decide; done.
Qed.

Lemma compiled_ok np c :
  compileRegexpsAndDurations Compile ParseDuration (setDefaults np) = Ok c →
  defaulted np c ∧
  Compile (sm_Regexp (pc_SigMention c)) = Ok (sm_Re (pc_SigMention c)) ∧
  Compile (cp_BranchRegexp (pc_CherryPickUnapproved c)) = Ok (cp_BranchRe (pc_CherryPickUnapproved c)) ∧
  Compile (ht_CommentRegexp (pc_Heart c)) = Ok (ht_CommentRe (pc_Heart c)) ∧
  Forall (λ r, Compile (rl_Regexp r) = Ok (rl_Re r) ∧
    ParseDuration (rl_GracePeriod r) = Ok (rl_GracePeriodDuration r)) (pc_RequireMatchingLabel c).
Proof.
  unfold compileRegexpsAndDurations. cbn zeta. intros Hc. ok_inv.
  match goal with Hr : rmap _ _ = Ok _ |- _ => apply compiled_rmls in Hr; rename Hr into Hrs end.
  split; [|split_and!; [done..|]].
  - split; cbn.
    + intros repo. rewrite lookup_fmap. destruct (pc_ExternalPlugins np !! repo) as [l|]; [|done]. cbn.
      apply Forall2_fmap_r, Forall_Forall2_diag, Forall_forall. intros p _. cbn. split_and!; [done..|apply is_default_ok].
    + unfold default_blunderbuss. split; [by intros -> ->|]. intros [[rc ->]|[fw Hfw]]; [done|]. rewrite Hfw.
      by destruct (bb_ReviewerCount _).
    + apply Forall2_fmap_r, Forall_Forall2_diag, Forall_forall. intros t _. unfold SetDefaults. cbn.
      split_and!; [done..| |].
      * destruct (tg_ElideSkippedContexts t); cbn; [right|left]; done.
      * unfold is_default. case_bool_decide; destruct (decide (tg_TrustedOrg t = "")), (decide (tg_JoinOrgURL t = "")); naive_solver.
    + apply is_default_ok.
    + destruct (ow_LabelsBlackList (pc_Owners np)); cbn; [right|left]; done.
    + apply is_default_ok.
    + apply is_default_ok.
    + eapply Forall2_impl; [exact Hrs|]. by intros r r' [? _].
    + apply default_maps_ok.
    + done.
  - cbn. eapply Forall2_Forall_r; [exact Hrs|]. apply Forall_forall. by intros r _ r' [_ ?].
Qed.

End validate.


(** The default name of the milestone maintainers is never set. *)
Lemma friendly_name_unset c : pc_RepoMilestone (setDefaults c) = pc_RepoMilestone c.
Proof. done. Qed.
