(* ===== verification/Webhook.v ===== *)
(** * Webhooks (github/webhooks.go, github/hmac.go)

    A request is taken for an event of GitHub only if it carries the signature of
    its payload under the shared secret.  The HMAC is a parameter. *)

From S2P Require Import Prelude Api JobConfig GoText.
#[local] Open Scope go_scope.

(** ** Hexadecimal numbers (encoding/hex) *)

Definition lower_digit (n : nat) : ascii :=
  Ascii.ascii_of_nat (if bool_decide (n < 10) then 48 + n else 87 + n).
Fixpoint EncodeToString (s : string) : string :=
  match s with
  | EmptyString => EmptyString
  | String c s => let n := Ascii.nat_of_ascii c in
                  String (lower_digit (n / 16)) (String (lower_digit (n `mod` 16)) (EncodeToString s))
  end.

Definition from_hex (c : ascii) : option nat :=
  let n := Ascii.nat_of_ascii c in
  if bool_decide (48 ≤ n ≤ 57) then Some (n - 48)
  else if bool_decide (97 ≤ n ≤ 102) then Some (n - 87)
  else if bool_decide (65 ≤ n ≤ 70) then Some (n - 55) else None.

(** [None] is an error: an odd length, or a character that is no digit. *)
Fixpoint DecodeString (s : string) : option string :=
  match s with
  | EmptyString => Some EmptyString
  | String _ EmptyString => None
  | String a (String b s) =>
      match from_hex a, from_hex b, DecodeString s with
      | Some x, Some y, Some s => Some (String (Ascii.ascii_of_nat (x * 16 + y)) s)
      | _, _, _ => None
      end
  end.

(** ** Requests *)

(** A header, by the names in lower case. *)
Definition Header : Type := gmap string string.
Definition header_Get (h : Header) (key : string) : string := default "" (h !! to_lower key).

Record Request := mkRequest { rq_Method : string; rq_Header : Header; rq_Body : result string }.

Definition StatusOK : Z := 200.
Definition StatusBadRequest : Z := 400.
Definition StatusForbidden : Z := 403.
Definition StatusMethodNotAllowed : Z := 405.
Definition StatusInternalServerError : Z := 500.

Section webhook.
(** HMAC-SHA1 of a message under a key *)
Context (hmac_sha1 : string → string → string).

(** [sig[5:]] after the prefix. *)
Definition ValidatePayload (payload sig key : string) : bool :=
  match trim_prefix_go "sha1=" sig with
  | None => false
  | Some sig =>
      match DecodeString sig with
      | None => false
      | Some sb => bool_decide (sb = hmac_sha1 key payload)
      end
  end.

Definition PayloadSignature (payload key : string) : string :=
  "sha1=" +:+ EncodeToString (hmac_sha1 key payload).

(** Event type, GUID and payload of a valid request, or no event; and the status. *)
Definition ValidateWebhook (r : Request) (hmacSecret : string) : option (string * string * string) * Z :=
  let h := header_Get (rq_Header r) in
  if bool_decide (rq_Method r ≠ "POST") then (None, StatusMethodNotAllowed)
  else
    let eventType := h "X-GitHub-Event" in
    if bool_decide (eventType = "") then (None, StatusBadRequest)
    else
      let eventGUID := h "X-GitHub-Delivery" in
      if bool_decide (eventGUID = "") then (None, StatusBadRequest)
      else
        let sig := h "X-Hub-Signature" in
        if bool_decide (sig = "") then (None, StatusForbidden)
        else if bool_decide (h "content-type" ≠ "application/json") then (None, StatusBadRequest)
        else match rq_Body r with
             | Err _ => (None, StatusInternalServerError)
             | Ok payload =>
                 if negb (ValidatePayload payload sig hmacSecret) then (None, StatusForbidden)
                 else (Some (eventType, eventGUID, payload), StatusOK)
             end.
End webhook.

(** ** Lemmas *)

Lemma from_hex_lower n : n < 16 → from_hex (lower_digit n) = Some n.
Proof. intros Hn. do 16 (destruct n as [|n]; [done|]). lia. Qed.

Lemma Decode_Encode s : DecodeString (EncodeToString s) = Some s.
Proof.
  induction s as [|c s IH]; [done|]. cbn -[Nat.div Nat.modulo].
  pose proof (Ascii.nat_ascii_bounded c) as Hc.
  rewrite !from_hex_lower, IH by (apply Nat.Div0.div_lt_upper_bound || apply Nat.mod_upper_bound; lia).
  do 3 f_equal. rewrite (Nat.mul_comm _ 16), <- Nat.div_mod_eq. apply Ascii.ascii_nat_embedding.
Qed.

(** Of a number, only the case of its digits is free. *)
Lemma from_hex_value c n : from_hex c = Some n → n < 16 ∧ ascii_to_lower c = lower_digit n.
Proof.
  destruct c as [[] [] [] [] [] [] [] []]; vm_compute; intros [= <-]; (split; [lia|done]) || done.
Qed.

Lemma Encode_Decode t s : DecodeString t = Some s → to_lower t = EncodeToString s.
Proof.
  revert s. induction t as [t IH] using (well_founded_induction (Wf_nat.well_founded_ltof _ String.length)).
  destruct t as [|a [|b t]]; cbn; [by intros ? [= <-]|done|]. intros s.
  destruct (from_hex a) as [x|] eqn:Ea; [|done]. destruct (from_hex b) as [y|] eqn:Eb; [|done].
  destruct (DecodeString t) as [u|] eqn:Et; [|done]. intros [= <-].
  apply from_hex_value in Ea as [Hx Ea], Eb as [Hy Eb]. cbn -[Nat.div Nat.modulo].
  rewrite Ascii.nat_ascii_embedding by lia.
  assert ((x * 16 + y) / 16 = x) as -> by (symmetry; apply (Nat.div_unique _ _ _ y); lia).
  assert ((x * 16 + y) `mod` 16 = y) as -> by (symmetry; apply (Nat.mod_unique _ _ x); lia).
  rewrite Ea, Eb. do 2 f_equal. apply IH; [|done]. unfold Wf_nat.ltof. cbn. lia.
Qed.

Section facts.
Context (hmac_sha1 : string → string → string).

(** What GitHub signs is accepted, and nothing but the HMAC of the payload is. *)
Lemma ValidatePayload_ok payload sig key :
  ValidatePayload hmac_sha1 payload sig key = true ↔
  ∃ digits, sig = "sha1=" +:+ digits ∧ DecodeString digits = Some (hmac_sha1 key payload).
Proof.
  unfold ValidatePayload. destruct (trim_prefix_go "sha1=" sig) as [t|] eqn:Et.
  - apply trim_prefix_go_Some in Et as ->. split.
    + destruct (DecodeString t) as [sb|] eqn:Es; [|done]. intros ->%bool_decide_eq_true. by exists t.
    + intros (d & Hd & Hs). apply (inj (String.append "sha1=")) in Hd as ->. rewrite Hs. by case_bool_decide.
  - split; [done|]. intros (d & -> & _).
    assert (trim_prefix_go "sha1=" ("sha1=" +:+ d) = Some d) as ?; [by apply trim_prefix_go_Some|congruence].
Qed.

Lemma PayloadSignature_valid payload key :
  ValidatePayload hmac_sha1 payload (PayloadSignature hmac_sha1 payload key) key = true.
Proof. apply ValidatePayload_ok. eexists. split; [done|]. apply Decode_Encode. Qed.

Lemma ValidatePayload_signature payload sig key :
  ValidatePayload hmac_sha1 payload sig key = true → to_lower sig = PayloadSignature hmac_sha1 payload key.
Proof.
  intros (d & -> & Hd)%ValidatePayload_ok. apply Encode_Decode in Hd. unfold PayloadSignature. by rewrite <- Hd.
Qed.

(** The request of an event. *)
Definition delivers (key : string) (r : Request) (eventType eventGUID payload : string) : Prop :=
  rq_Method r = "POST" ∧ rq_Body r = Ok payload ∧
  header_Get (rq_Header r) "X-GitHub-Event" = eventType ∧ eventType ≠ "" ∧
  header_Get (rq_Header r) "X-GitHub-Delivery" = eventGUID ∧ eventGUID ≠ "" ∧
  header_Get (rq_Header r) "content-type" = "application/json" ∧
  ValidatePayload hmac_sha1 payload (header_Get (rq_Header r) "X-Hub-Signature") key = true.

Lemma ValidateWebhook_ok key r eventType eventGUID payload :
  (ValidateWebhook hmac_sha1 r key).1 = Some (eventType, eventGUID, payload) ↔
  delivers key r eventType eventGUID payload.
Proof.
  unfold ValidateWebhook, delivers. cbn zeta.
  assert (ValidatePayload hmac_sha1 payload "" key = false) as He by done.
  repeat case_bool_decide; cbn; [naive_solver..| |naive_solver|].
  - split; [done|]. intros (_ & _ & _ & _ & _ & _ & _ & Hv). congruence.
  - destruct (rq_Body r) as [p|]; [|naive_solver]. destruct (ValidatePayload _ p _ _) eqn:Ev; cbn; [naive_solver|].
    split; [done|]. intros (_ & [= ->] & _ & _ & _ & _ & _ & Hv). congruence.
Qed.

Lemma ValidateWebhook_status key r :
  (ValidateWebhook hmac_sha1 r key).2 = StatusOK ↔ is_Some (ValidateWebhook hmac_sha1 r key).1.
Proof.
  unfold ValidateWebhook. cbn zeta.
  repeat (case_bool_decide; cbn; [by split; [|intros []]|]).
  destruct (rq_Body r); cbn; [|by split; [|intros []]]. destruct (ValidatePayload _ _ _ _); cbn; [done|by split; [|intros []]].
Qed.
End facts.
