(* ===== verification/Hook.v ===== *)
(** * The webhook server (hook/server.go, hook/events.go)

    Each event is handled by a goroutine, which starts one per plugin; a wait group
    counts them for a graceful shutdown.  A goroutine is the list of what it has left
    to do, and a history of the server any interleaving of requests, goroutines and
    changes of the configuration.  What a plugin does when it is called, the decoding
    of payloads and the HTTP client are parameters.  The identifiers of issues and
    comments, which no modelled plugin reads, are left out of the events. *)

From S2P Require Import Prelude Api JobConfig GoText Handler PjUtil GitHub Trigger PluginConfig Webhook.
#[local] Open Scope go_scope.

(** ** Events *)

(** [github.Repo], as far as hook reads it. *)
Record EventRepo := mkEventRepo {
  er_OwnerLogin : string; er_Name : string; er_FullName : string }.
(** [github.Issue] *)
Record EventIssue := mkEventIssue {
  is_Number : Z; is_User : string; is_State : string; is_HTMLURL : string;
  is_Assignees : list string; is_Body : string; is_PullRequest : bool;
  (** none if the event has no list of them *)
  is_Labels : option (list string) }.

Record IssueEvent := mkIssueEvent {
  ie_Action : string; ie_Issue : EventIssue; ie_Repo : EventRepo; ie_Label : string; ie_GUID : string }.
Record IssueCommentEvent := mkIssueCommentEvent {
  ice_Action : string; ice_Issue : EventIssue; ice_Comment : IssueComment; ice_Repo : EventRepo;
  ice_GUID : string }.
Record ReviewCommentEvent := mkReviewCommentEvent {
  rce_Action : string; rce_PullRequest : GitHubPullRequest; rce_Repo : EventRepo;
  rce_Comment : ReviewComment; rce_GUID : string }.
Record StatusEvent := mkStatusEvent {
  se_SHA : string; se_State : string; se_Description : string; se_TargetURL : string;
  se_Context : string; se_Repo : EventRepo; se_GUID : string }.

(** The full name of the repository is beside events whose type has none. *)
Inductive Event :=
| EvIssue (i : IssueEvent)
| EvIssueComment (ic : IssueCommentEvent)
| EvPullRequest (pr : PullRequestEvent) (FullName : string)
| EvReview (re : ReviewEvent) (FullName : string)
| EvReviewComment (rce : ReviewCommentEvent)
| EvPush (pe : PushEvent)
| EvStatus (se : StatusEvent)
| EvGenericComment (ce : GenericCommentEvent).

(** The tables of handlers. *)
Inductive Kind :=
| KIssue | KIssueComment | KPullRequest | KReview | KReviewComment | KPush | KStatus | KGenericComment.
#[export] Instance Kind_eq_dec : EqDecision Kind.
Proof. solve_decision. Defined.

(** [genericCommentAction]: none is the empty string. *)
Definition genericCommentAction (action : string) : option string :=
  if bool_decide (action ∈ ["created"; "opened"; "submitted"]) then Some GenericCommentActionCreated
  else if bool_decide (action = "edited") then Some "edited"
  else if bool_decide (action ∈ ["deleted"; "dismissed"]) then Some "deleted" else None.

Definition comment_of_pr (action body url user : string) (pr : GitHubPullRequest) (org repo guid : string)
    : GenericCommentEvent :=
  mkGenericCommentEvent true action body url (gpr_Number pr) org repo user (gpr_UserLogin pr)
    (gpr_Assignees pr) (gpr_State pr) (gpr_Body pr) (gpr_HTMLURL pr) guid.
Definition comment_of_issue (action body url user : string) (i : EventIssue) (r : EventRepo) (guid : string)
    : GenericCommentEvent :=
  mkGenericCommentEvent (is_PullRequest i) action body url (is_Number i) (er_OwnerLogin r) (er_Name r) user
    (is_User i) (is_Assignees i) (is_State i) (is_Body i) (is_HTMLURL i) guid.

(** The generic comment an event is also handled as. *)
Definition generic_comment (ev : Event) : option GenericCommentEvent :=
  match ev with
  | EvReview re _ =>
      action ← genericCommentAction (rv_Action re);
      Some (comment_of_pr action (rw_Body (rv_Review re)) (rw_HTMLURL (rv_Review re)) (rw_User (rv_Review re))
              (rv_PullRequest re) (rv_Org re) (rv_Repo re) (rv_GUID re))
  | EvReviewComment rce =>
      action ← genericCommentAction (rce_Action rce);
      Some (comment_of_pr action (rm_Body (rce_Comment rce)) (rm_HTMLURL (rce_Comment rce))
              (rm_User (rce_Comment rce)) (rce_PullRequest rce) (er_OwnerLogin (rce_Repo rce))
              (er_Name (rce_Repo rce)) (rce_GUID rce))
  | EvPullRequest pr _ =>
      action ← genericCommentAction (pe_Action pr);
      let p := pe_PullRequest pr in
      Some (comment_of_pr action (gpr_Body p) (gpr_HTMLURL p) (gpr_UserLogin p) p (pe_Org pr) (pe_Repo pr)
              (pe_GUID pr))
  | EvIssue i =>
      action ← genericCommentAction (ie_Action i);
      let s := ie_Issue i in
      Some (comment_of_issue action (is_Body s) (is_HTMLURL s) (is_User s) s (ie_Repo i) (ie_GUID i))
  | EvIssueComment ic =>
      action ← genericCommentAction (ice_Action ic);
      let c := ice_Comment ic in
      Some (comment_of_issue action (ic_Body c) (ic_HTMLURL c) (ic_User c) (ice_Issue ic) (ice_Repo ic)
              (ice_GUID ic))
  | EvPush _ | EvStatus _ | EvGenericComment _ => None
  end.

(** The table an event is looked up in, for which organization and repository, and what
    the comment pruner of the agent is initialized with.  The plugins of a pull request
    are those of its base, its pruner has the repository of the event. *)
Definition event_kind (ev : Event) : Kind :=
  match ev with
  | EvIssue _ => KIssue | EvIssueComment _ => KIssueComment | EvPullRequest _ _ => KPullRequest
  | EvReview _ _ => KReview | EvReviewComment _ => KReviewComment | EvPush _ => KPush
  | EvStatus _ => KStatus | EvGenericComment _ => KGenericComment
  end.
Definition event_repo (ev : Event) : string * string :=
  match ev with
  | EvIssue i => (er_OwnerLogin (ie_Repo i), er_Name (ie_Repo i))
  | EvIssueComment ic => (er_OwnerLogin (ice_Repo ic), er_Name (ice_Repo ic))
  | EvPullRequest pr _ => (gpr_BaseRepoOwner (pe_PullRequest pr), gpr_BaseRepoName (pe_PullRequest pr))
  | EvReview re _ => (gpr_BaseRepoOwner (rv_PullRequest re), gpr_BaseRepoName (rv_PullRequest re))
  | EvReviewComment rce => (gpr_BaseRepoOwner (rce_PullRequest rce), gpr_BaseRepoName (rce_PullRequest rce))
  | EvPush pe => (pu_OwnerName pe, pu_RepoName pe)
  | EvStatus se => (er_OwnerLogin (se_Repo se), er_Name (se_Repo se))
  | EvGenericComment ce => (gc_Org ce, gc_Repo ce)
  end.
Definition event_pruner (ev : Event) : option (string * string * Z) :=
  match ev with
  | EvIssue i => Some (er_OwnerLogin (ie_Repo i), er_Name (ie_Repo i), is_Number (ie_Issue i))
  | EvIssueComment ic => Some (er_OwnerLogin (ice_Repo ic), er_Name (ice_Repo ic), is_Number (ice_Issue ic))
  | EvPullRequest pr _ => Some (pe_Org pr, pe_Repo pr, gpr_Number (pe_PullRequest pr))
  | EvReview re _ => Some (rv_Org re, rv_Repo re, gpr_Number (rv_PullRequest re))
  | EvReviewComment rce =>
      Some (er_OwnerLogin (rce_Repo rce), er_Name (rce_Repo rce), gpr_Number (rce_PullRequest rce))
  | EvGenericComment ce => Some (gc_Org ce, gc_Repo ce, gc_Number ce)
  | EvPush _ | EvStatus _ => None
  end.

(** The full name of the repository that sent the event; a generic comment is sent by none. *)
Definition srcRepo_of (ev : Event) : string :=
  match ev with
  | EvIssue i => er_FullName (ie_Repo i)
  | EvIssueComment ic => er_FullName (ice_Repo ic)
  | EvPullRequest _ n | EvReview _ n => n
  | EvReviewComment rce => er_FullName (rce_Repo rce)
  | EvPush pe => pu_FullName pe
  | EvStatus se => er_FullName (se_Repo se)
  | EvGenericComment _ => ""
  end.

(** [ev.GUID = eventGUID] *)
Definition with_guid (guid : string) (ev : Event) : Event :=
  match ev with
  | EvIssue i => EvIssue (mkIssueEvent (ie_Action i) (ie_Issue i) (ie_Repo i) (ie_Label i) guid)
  | EvIssueComment ic =>
      EvIssueComment (mkIssueCommentEvent (ice_Action ic) (ice_Issue ic) (ice_Comment ic) (ice_Repo ic) guid)
  | EvPullRequest pr n =>
      EvPullRequest (mkPullRequestEvent (pe_Action pr) (pe_Number pr) (pe_PullRequest pr) (pe_Org pr)
                       (pe_Repo pr) (pe_Label pr) (pe_Sender pr) (pe_Changes pr) guid) n
  | EvReview re n =>
      EvReview (mkReviewEvent (rv_Action re) (rv_PullRequest re) (rv_Org re) (rv_Repo re) (rv_Review re) guid) n
  | EvReviewComment rce =>
      EvReviewComment (mkReviewCommentEvent (rce_Action rce) (rce_PullRequest rce) (rce_Repo rce)
                         (rce_Comment rce) guid)
  | EvPush pe =>
      EvPush (mkPushEvent (pu_Ref pe) (pu_After pe) (pu_Deleted pe) (pu_Compare pe) (pu_Commits pe)
                (pu_OwnerName pe) (pu_RepoName pe) (pu_FullName pe) guid)
  | EvStatus se =>
      EvStatus (mkStatusEvent (se_SHA se) (se_State se) (se_Description se) (se_TargetURL se) (se_Context se)
                  (se_Repo se) guid)
  | EvGenericComment ce => EvGenericComment ce
  end.

(** [json.Unmarshal] into the type of each event. *)
Record Decoders := mkDecoders {
  dec_issues : string → result IssueEvent;
  dec_issue_comment : string → result IssueCommentEvent;
  dec_pull_request : string → result (PullRequestEvent * string);
  dec_review : string → result (ReviewEvent * string);
  dec_review_comment : string → result ReviewCommentEvent;
  dec_push : string → result PushEvent;
  dec_status : string → result StatusEvent }.

(** The event of a payload; [None] for a type of event that is not handled. *)
Definition decode (d : Decoders) (eventType payload : string) : result (option Event) :=
  let some (r : result Event) := (let? ev := r in Ok (Some ev)) in
  if bool_decide (eventType = "issues") then some (let? i := dec_issues d payload in Ok (EvIssue i))
  else if bool_decide (eventType = "issue_comment")
  then some (let? ic := dec_issue_comment d payload in Ok (EvIssueComment ic))
  else if bool_decide (eventType = "pull_request")
  then some (let? (pr, n) := dec_pull_request d payload in Ok (EvPullRequest pr n))
  else if bool_decide (eventType = "pull_request_review")
  then some (let? (re, n) := dec_review d payload in Ok (EvReview re n))
  else if bool_decide (eventType = "pull_request_review_comment")
  then some (let? rce := dec_review_comment d payload in Ok (EvReviewComment rce))
  else if bool_decide (eventType = "push") then some (let? pe := dec_push d payload in Ok (EvPush pe))
  else if bool_decide (eventType = "status") then some (let? se := dec_status d payload in Ok (EvStatus se))
  else Ok None.

(** ** Goroutines *)

Section server.
Context `{GoRange} {Handler : Type}.
(** The plugins registered for each kind of event. *)
Variable registered : Kind → gmap string Handler.

(** What is observed: a plugin is called, with the pruner of its agent; a payload is
    dispatched to an external plugin. *)
Inductive Act :=
| Invoke (plugin : string) (h : Handler) (pruner : option (string * string * Z)) (ev : Event)
| Dispatch (p : ExternalPlugin) (payload : string).

(** [WgAdd] and [WgDone] are on the wait group of the server; [Reading] is code that
    first reads the current configuration. *)
Inductive instr :=
| WgAdd
| WgDone
| Go (code : list instr)
| Reading (code : Configuration → list instr)
| Do (a : Act).

(** [s.wg.Add(1); go func() { defer s.wg.Done(); ... }] *)
Definition tracked (a : Act) : list instr := [WgAdd; Go [Do a; WgDone]].

(** The loop over the handlers of an event; [hs] is computed before it. *)
Definition call_handlers (ev : Event) : instr :=
  let '(org, repo) := event_repo ev in
  Reading (λ c, map_range (handlers_for (registered (event_kind ev)) c org repo) ≫=
                λ '(p, h), tracked (Invoke p h (event_pruner ev) ev)).

(** [handleGenericComment] *)
Definition handleGenericComment (ce : GenericCommentEvent) : instr := call_handlers (EvGenericComment ce).

(** [handleIssueEvent] and the like. *)
Definition handle_event (ev : Event) : list instr :=
  call_handlers ev ::
  match generic_comment ev with Some ce => [handleGenericComment ce] | None => [] end ++ [WgDone].

(** [needDemux] *)
Definition wants (eventType : string) (p : ExternalPlugin) : bool :=
  bool_decide (xp_Events p = []) || bool_decide (eventType ∈ xp_Events p).
Definition needDemux (c : Configuration) (eventType srcRepo : string) : list ExternalPlugin :=
  let srcOrg := org_of srcRepo in
  map_range (pc_ExternalPlugins c) ≫= λ '(repo, plugins),
    if bool_decide (repo ≠ srcRepo ∧ repo ≠ srcOrg) then [] else filter (λ p, wants eventType p) plugins.

(** [demuxExternal] *)
Definition demuxExternal (externalPlugins : list ExternalPlugin) (payload : string) : list instr :=
  externalPlugins ≫= λ p, tracked (Dispatch p payload).

Definition demux_external (eventType srcRepo payload : string) : instr :=
  Reading (λ c, match needDemux c eventType srcRepo with
                | [] => []
                | external => [Go (demuxExternal external payload)]
                end).

Definition demuxEvent (d : Decoders) (eventType eventGUID payload : string) : list instr :=
  match decode d eventType payload with
  | Err _ => []
  | Ok None => [demux_external eventType "" payload]
  | Ok (Some ev) =>
      [WgAdd; Go (handle_event (with_guid eventGUID ev)); demux_external eventType (srcRepo_of ev) payload]
  end.

(** [ServeHTTP]: what its goroutine does once the request is validated. *)
Definition ServeHTTP (d : Decoders) (hmac_sha1 : string → string → string) (token : string) (r : Request)
    : list instr * Z :=
  match ValidateWebhook hmac_sha1 r token with
  | (Some (eventType, eventGUID, payload), status) => (demuxEvent d eventType eventGUID payload, status)
  | (None, status) => ([], status)
  end.

(** ** Histories *)

Record Server := mkServer {
  sv_config : Configuration; sv_wg : Z; sv_goroutines : list (list instr); sv_acts : list Act }.

(** One goroutine does its next instruction. *)
Inductive turn : Server → Server → Prop :=
| turn_add c wg gs1 g gs2 acts :
    turn (mkServer c wg (gs1 ++ (WgAdd :: g) :: gs2) acts) (mkServer c (wg + 1) (gs1 ++ g :: gs2) acts)
| turn_done c wg gs1 g gs2 acts :
    turn (mkServer c wg (gs1 ++ (WgDone :: g) :: gs2) acts) (mkServer c (wg - 1) (gs1 ++ g :: gs2) acts)
| turn_go c wg gs1 code g gs2 acts :
    turn (mkServer c wg (gs1 ++ (Go code :: g) :: gs2) acts)
         (mkServer c wg (gs1 ++ g :: gs2 ++ [code]) acts)
| turn_read c wg gs1 code g gs2 acts :
    turn (mkServer c wg (gs1 ++ (Reading code :: g) :: gs2) acts)
         (mkServer c wg (gs1 ++ (code c ++ g) :: gs2) acts)
| turn_do c wg gs1 a g gs2 acts :
    turn (mkServer c wg (gs1 ++ (Do a :: g) :: gs2) acts) (mkServer c wg (gs1 ++ g :: gs2) (acts ++ [a]))
| turn_end c wg gs1 gs2 acts :
    turn (mkServer c wg (gs1 ++ [] :: gs2) acts) (mkServer c wg (gs1 ++ gs2) acts).

Definition receive (code : list instr) (s : Server) : Server :=
  mkServer (sv_config s) (sv_wg s) (sv_goroutines s ++ [code]) (sv_acts s).
Definition set_config (c : Configuration) (s : Server) : Server :=
  mkServer c (sv_wg s) (sv_goroutines s) (sv_acts s).

Inductive server_step (d : Decoders) (hmac_sha1 : string → string → string) (token : string)
    : Server → Server → Prop :=
| step_turn s s' : turn s s' → server_step d hmac_sha1 token s s'
| step_request s r : server_step d hmac_sha1 token s (receive (ServeHTTP d hmac_sha1 token r).1 s)
| step_config s c : server_step d hmac_sha1 token s (set_config c s).

Definition started (c : Configuration) : Server := mkServer c 0 [] [].

(** [GracefulShutdown] returns. *)
Definition shut_down (s : Server) : Prop := sv_wg s = 0%Z.
End server.
Arguments Act : clear implicits.
Arguments instr : clear implicits.
Arguments Server : clear implicits.

(** ** The wait group

    Every goroutine is worth the calls of [Done] it still owes less those of [Add] it
    has still to make, and the counter of the group is what all of them are worth. *)

Section counting.
Context `{GoRange} {Handler : Type}.
Implicit Types (i : instr Handler) (g code : list (instr Handler)) (s : Server Handler).

Fixpoint worth i : Z :=
  match i with
  | WgAdd => -1
  | WgDone => 1
  | Go code => foldr (λ i n, (worth i + n)%Z) 0%Z code
  | Reading _ | Do _ => 0
  end.
Definition balance g : Z := foldr (λ i n, (worth i + n)%Z) 0%Z g.

(** What ends with [Done] owes it until then; the rest owes nothing it has not added. *)
Definition owes g : Z := match last g with Some WgDone => 1 | _ => 0 end.
Fixpoint solvent g : Prop :=
  match g with [] => True | _ :: g' => (owes g ≤ balance g)%Z ∧ solvent g' end.

Fixpoint proper i : Prop :=
  match i with
  | Go code => solvent code ∧ foldr (λ i P, proper i ∧ P) True code
  | Reading k => ∀ c, (solvent (k c) ∧ balance (k c) = 0%Z ∧ owes (k c) = 0%Z) ∧
                      foldr (λ i P, proper i ∧ P) True (k c)
  | _ => True
  end.
Definition all_proper g : Prop := foldr (λ i P, proper i ∧ P) True g.
Definition sound g : Prop := solvent g ∧ all_proper g.

Definition counted s : Prop :=
  sv_wg s = foldr (λ g n, (balance g + n)%Z) 0%Z (sv_goroutines s) ∧ Forall sound (sv_goroutines s).

Lemma balance_cons i g : balance (i :: g) = (worth i + balance g)%Z.
Proof. done. Qed.

Lemma balance_app g1 g2 : balance (g1 ++ g2) = (balance g1 + balance g2)%Z.
Proof. induction g1 as [|i g1 IH]; [done|]. cbn. unfold balance in IH. rewrite IH. unfold balance. lia. Qed.

Lemma all_proper_app g1 g2 : all_proper (g1 ++ g2) ↔ all_proper g1 ∧ all_proper g2.
Proof. induction g1 as [|i g1 IH]; cbn; [naive_solver|]. unfold all_proper in IH. rewrite IH. unfold all_proper. naive_solver. Qed.

Lemma owes_range g : (0 ≤ owes g ≤ 1)%Z.
Proof. unfold owes. destruct (last g) as [[]|]; lia. Qed.

Lemma owes_app g1 g2 : owes (g1 ++ g2) = match g2 with [] => owes g1 | _ => owes g2 end.
Proof. unfold owes. destruct g2 as [|i g2]; [by rewrite app_nil_r|]. rewrite last_app. by destruct (last (i :: g2)) eqn:E; [|apply last_None in E]. Qed.

Lemma solvent_balance g : solvent g → (owes g ≤ balance g)%Z.
Proof. destruct g; [cbn; lia|]. by intros []. Qed.

(** Code that owes nothing runs before the rest. *)
Lemma solvent_app g1 g2 : solvent g1 → owes g1 = 0%Z → solvent g2 → solvent (g1 ++ g2).
Proof.
  intros H1 Ho H2. pose proof (solvent_balance _ H2) as Hb.
  induction g1 as [|i g1 IH]; [done|]. cbn [app solvent]. destruct H1 as [Hi H1]. split.
  - change (i :: g1 ++ g2) with ((i :: g1) ++ g2). rewrite owes_app, balance_app.
    destruct g2; [rewrite Ho in Hi|]; pose proof (owes_range (i :: g1)); cbn in *; lia.
  - apply IH; [done|]. destruct g1 as [|j g1]; [done|]. unfold owes in *. cbn in *. done.
Qed.

Lemma foldr_balance gs1 g gs2 :
  foldr (λ g n, (balance g + n)%Z) 0%Z (gs1 ++ g :: gs2) =
  (balance g + foldr (λ g n, (balance g + n)%Z) 0%Z (gs1 ++ gs2))%Z.
Proof. induction gs1 as [|g1 gs1 IH]; cbn; [done|]. rewrite IH. lia. Qed.

Lemma foldr_balance_snoc gs g :
  foldr (λ g n, (balance g + n)%Z) 0%Z (gs ++ [g]) = (balance g + foldr (λ g n, (balance g + n)%Z) 0%Z gs)%Z.
Proof. by rewrite foldr_balance, app_nil_r. Qed.

Lemma counted_turn s s' : turn s s' → counted s → counted s'.
Proof.
  intros Ht [Hwg Hgs]. unfold counted. destruct Ht; cbn in *;
    rewrite ?foldr_balance in Hwg |- *; apply Forall_app in Hgs as [Hg1 [[Hs Hp] Hg2]%Forall_cons];
    (split; [|try (apply Forall_app; split; [done|])]).
  all: try (rewrite ?balance_cons in Hwg; cbn [worth] in Hwg; lia).
  - apply Forall_cons. split; [|done]. split; [by destruct Hs|by destruct Hp].
  - apply Forall_cons. split; [|done]. split; [by destruct Hs|by destruct Hp].
  - rewrite app_assoc, foldr_balance_snoc. rewrite balance_cons in Hwg. cbn [worth] in Hwg.
    change (foldr _ 0%Z code) with (balance code) in Hwg. lia.
  - destruct Hs as [_ Hs], Hp as [[Hc Hcp] Hp]. apply Forall_cons. split; [done|].
    apply Forall_app. split; [done|]. apply Forall_singleton. done.
  - destruct Hp as [Hc _]. specialize (Hc c) as [(_ & Hb & _) _]. rewrite balance_app, Hb.
    rewrite balance_cons in Hwg. cbn [worth] in Hwg. lia.
  - destruct Hs as [_ Hs], Hp as [Hc Hp]. specialize (Hc c) as [(Hcs & _ & Ho) Hcp]. apply Forall_cons. split; [|done].
    split; [by apply solvent_app|]. apply all_proper_app. by split.
  - apply Forall_cons. split; [|done]. split; [by destruct Hs|by destruct Hp].
  - rewrite Hwg. by rewrite foldr_balance.
  - done.
Qed.

Lemma counted_receive code s : counted s → sound code → balance code = 0%Z → counted (receive code s).
Proof.
  intros [Hwg Hgs] Hc Hb. split; cbn.
  - rewrite foldr_balance_snoc, Hb. done.
  - apply Forall_app. split; [done|]. by apply Forall_singleton.
Qed.

Lemma counted_nonneg s : counted s → (0 ≤ sv_wg s)%Z.
Proof.
  intros [-> Hgs]. induction Hgs as [|g gs [Hs _] _ IH]; cbn; [lia|].
  pose proof (solvent_balance g Hs). pose proof (owes_range g). lia.
Qed.

(** At zero, nobody owes a call of [Done]. *)
Lemma counted_zero s g : counted s → shut_down s → g ∈ sv_goroutines s → last g ≠ Some WgDone.
Proof.
  intros [Hwg Hgs] Hz Hin Hl. unfold shut_down in Hz.
  apply list_elem_of_split in Hin as (gs1 & gs2 & Egs). rewrite Egs in *.
  rewrite foldr_balance in Hwg. apply Forall_app in Hgs as [H1 [[Hs _] H2]%Forall_cons].
  assert (0 ≤ foldr (λ g n, (balance g + n)%Z) 0%Z (gs1 ++ gs2))%Z as Hr.
  { apply (counted_nonneg (mkServer (sv_config s) _ (gs1 ++ gs2) [])). split; [done|]. by apply Forall_app. }
  apply solvent_balance in Hs. unfold owes in Hs. rewrite Hl in Hs. lia.
Qed.

(** Loops that start tracked goroutines. *)
Lemma tracked_loop {A} (l : list A) (f : A → Act Handler) :
  let code := l ≫= λ a, tracked (f a) in
  sound code ∧ balance code = 0%Z ∧ owes code = 0%Z.
Proof.
  cbn zeta. induction l as [|a l [[IHs IHp] [IHb IHo]]]; [done|].
  cbn [mbind list_bind]. set (rest := list_bind _ _ (λ a, tracked (f a)) l) in *.
  change (mbind (λ a, tracked (f a)) l) with rest in *.
  assert (owes (tracked (f a) ++ rest) = 0%Z) as Eo by (rewrite owes_app; destruct rest; done).
  split_and!; [split| |done].
  - apply solvent_app; [|done|done]. cbn. unfold owes, balance. cbn. repeat split; lia.
  - apply all_proper_app. split; [|done]. cbn. repeat split; unfold owes, balance; cbn; lia.
  - rewrite balance_app, IHb. done.
Qed.
End counting.

(** ** What is left to do

    With a configuration that stays, each goroutine has a number of turns left and a
    list of acts; their sum decreases by one per turn, and what is done and left to do
    stays the same up to order. *)

Section pending.
Context `{GoRange} {Handler : Type}.
Implicit Types (i : instr Handler) (g code : list (instr Handler)) (s : Server Handler).

Fixpoint acts_of (c : Configuration) i : list (Act Handler) :=
  match i with
  | Do a => [a]
  | Go code => foldr (λ i l, acts_of c i ++ l) [] code
  | Reading k => foldr (λ i l, acts_of c i ++ l) [] (k c)
  | WgAdd | WgDone => []
  end.
Definition acts_left c g : list (Act Handler) := foldr (λ i l, acts_of c i ++ l) [] g.

Fixpoint turns_of (c : Configuration) i : nat :=
  match i with
  | Go code => 2 + foldr (λ i n, turns_of c i + n) 0 code
  | Reading k => 1 + foldr (λ i n, turns_of c i + n) 0 (k c)
  | WgAdd | WgDone | Do _ => 1
  end.
Definition turns_left c g : nat := 1 + foldr (λ i n, turns_of c i + n) 0 g.

Definition pending s : list (Act Handler) := sv_goroutines s ≫= acts_left (sv_config s).
Definition work s : nat := sum_list_with (turns_left (sv_config s)) (sv_goroutines s).

Lemma acts_left_app c g1 g2 : acts_left c (g1 ++ g2) = acts_left c g1 ++ acts_left c g2.
Proof. induction g1 as [|i g1 IH]; [done|]. cbn. unfold acts_left in IH. by rewrite IH, (assoc_L (++)). Qed.

Lemma turns_app c g1 g2 :
  foldr (λ i n, turns_of c i + n) 0 (g1 ++ g2) =
  foldr (λ i n, turns_of c i + n) 0 g1 + foldr (λ i n, turns_of c i + n) 0 g2.
Proof. induction g1 as [|i g1 IH]; [done|]. cbn. rewrite IH. lia. Qed.

Lemma turn_work s s' : turn s s' → work s = S (work s').
Proof.
  unfold work. destruct 1; cbn [sv_config sv_goroutines];
    rewrite !sum_list_with_app; cbn [sum_list_with]; unfold turns_left; cbn [foldr turns_of];
    rewrite ?sum_list_with_app, ?turns_app; cbn [sum_list_with]; lia.
Qed.

Lemma turn_acts s s' :
  turn s s' → sv_config s' = sv_config s ∧ sv_acts s' ++ pending s' ≡ₚ sv_acts s ++ pending s.
Proof.
  intros Ht. split; [by destruct Ht|]. unfold pending. destruct Ht; cbn [sv_config sv_goroutines sv_acts];
    rewrite !list.bind_app, ?bind_cons, ?acts_left_app; cbn [acts_left foldr acts_of]; try done.
  - rewrite list.bind_app, bind_cons. cbn [mbind list_bind]. rewrite app_nil_r.
    change (foldr _ [] code) with (acts_left c code). change (foldr _ [] g) with (acts_left c g). solve_Permutation.
  - change (foldr _ [] g) with (acts_left c g). solve_Permutation.
Qed.

Lemma turns_acts n s s' :
  nsteps turn n s s' →
  sv_config s' = sv_config s ∧ work s = n + work s' ∧ sv_acts s' ++ pending s' ≡ₚ sv_acts s ++ pending s.
Proof.
  induction 1 as [|n s1 s2 s3 Ht _ (Hc & Hw & Hp)]; [done|].
  pose proof (turn_work _ _ Ht). destruct (turn_acts _ _ Ht) as [Hc' Hp'].
  split_and!; [congruence|lia|by rewrite Hp].
Qed.

(** Whatever goroutine is left can go on: there is nothing to wait for. *)
Lemma turn_exists s g : g ∈ sv_goroutines s → ∃ s', turn s s'.
Proof.
  destruct s as [c wg gs acts]. cbn. intros (gs1 & gs2 & ->)%list_elem_of_split.
  destruct g as [|[] g]; eexists; constructor.
Qed.

Lemma work_zero s : work s = 0 ↔ sv_goroutines s = [].
Proof. unfold work. destruct (sv_goroutines s); [done|]. cbn. unfold turns_left. split; [lia|done]. Qed.

Lemma acts_left_tracked {A} c (l : list A) (f : A → Act Handler) :
  acts_left c (l ≫= λ a, tracked (f a)) = f <$> l.
Proof. induction l as [|a l IH]; [done|]. cbn [mbind list_bind]. change (acts_left c (tracked (f a) ++ l ≫= λ a, tracked (f a)) = f a :: (f <$> l)). by rewrite acts_left_app, IH. Qed.
End pending.

(** ** One event *)

Section event.
Context `{GoRange} {Handler : Type} (registered : Kind → gmap string Handler).
Implicit Types (s : Server Handler).

Definition invocations (c : Configuration) (ev : Event) : list (Act Handler) :=
  (λ '(p, h), Invoke p h (event_pruner ev) ev) <$>
    map_range (handlers_for (registered (event_kind ev)) c (event_repo ev).1 (event_repo ev).2).

Definition event_and_comment (ev : Event) : list Event :=
  ev :: match generic_comment ev with Some ce => [EvGenericComment ce] | None => [] end.

Lemma call_handlers_code c ev :
  ∃ code, call_handlers registered ev = Reading code ∧
    acts_left c (code c) = invocations c ev ∧
    ∀ c', sound (code c') ∧ balance (code c') = 0%Z ∧ owes (code c') = 0%Z.
Proof.
  unfold call_handlers, invocations. destruct (event_repo ev) as [org repo].
  assert (∀ l : list (string * Handler),
    (l ≫= λ '(p, h), tracked (Invoke p h (event_pruner ev) ev)) =
    (l ≫= λ ph, tracked ((λ '(p, h), Invoke p h (event_pruner ev) ev) ph))) as El.
  { intros l. apply list_bind_ext; [|done]. by intros []. }
  eexists. split_and!; [done| |].
  - cbn [fst snd]. rewrite El. apply acts_left_tracked.
  - intros c'. cbn beta. rewrite El. apply tracked_loop.
Qed.

Lemma call_handlers_ok c ev :
  proper (call_handlers registered ev) ∧ worth (call_handlers registered ev) = 0%Z ∧
  acts_of c (call_handlers registered ev) = invocations c ev.
Proof.
  destruct (call_handlers_code c ev) as (code & -> & Ha & Hc). cbn. split_and!; [|done|done].
  intros c'. destruct (Hc c') as ([Hs Hp] & Hb & Ho). done.
Qed.

Lemma handle_event_ok c ev :
  sound (handle_event registered ev) ∧ balance (handle_event registered ev) = 1%Z ∧
  acts_left c (handle_event registered ev) = event_and_comment ev ≫= invocations c.
Proof.
  unfold handle_event, event_and_comment, handleGenericComment.
  destruct (call_handlers_ok c ev) as (Hp & Hw & Ha).
  assert (∀ i : instr Handler, owes [i; WgDone] = 1%Z ∧ owes [@WgDone Handler] = 1%Z ∧
    ∀ j : instr Handler, owes [i; j; WgDone] = 1%Z) as Ho by done.
  destruct (generic_comment ev) as [ce|]; cbn [app].
  - destruct (call_handlers_ok c (EvGenericComment ce)) as (Hp' & Hw' & Ha'). split_and!.
    + split; [|cbn; done]. cbn [solvent]. rewrite !balance_cons, Hw, Hw'. cbn. by split_and!.
    + rewrite !balance_cons, Hw, Hw'. done.
    + cbn [acts_left foldr]. rewrite Ha, Ha'. cbn. done.
  - split_and!.
    + split; [|cbn; done]. cbn [solvent]. rewrite !balance_cons, Hw. cbn. by split_and!.
    + rewrite !balance_cons, Hw. done.
    + cbn [acts_left foldr]. rewrite Ha. cbn. done.
Qed.

(** The repository an event is sent by, for external plugins. *)
Definition sender (o : option Event) : string := from_option srcRepo_of "" o.

Definition dispatches (c : Configuration) (eventType payload : string) (o : option Event)
    : list (Act Handler) :=
  (λ p, Dispatch p payload) <$> needDemux c eventType (sender o).

Lemma demux_external_ok c eventType srcRepo payload :
  let i := demux_external (Handler := Handler) eventType srcRepo payload in
  proper i ∧ worth i = 0%Z ∧ acts_of c i = (λ p, Dispatch p payload) <$> needDemux c eventType srcRepo.
Proof.
  unfold demux_external. cbn zeta. split_and!; [|done|].
  - intros c'. destruct (needDemux c' eventType srcRepo) as [|p ps]; [done|].
    unfold demuxExternal. destruct (tracked_loop (p :: ps) (λ p, @Dispatch Handler p payload)) as ([Hs Hp] & Hb & Ho).
    cbn [foldr]. change (proper (Go ?code)) with (solvent code ∧ all_proper code). split_and!; [| |done..].
    + cbn [solvent]. split; [|done]. rewrite balance_cons.
      change (worth (Go ?code)) with (balance code). rewrite Hb. done.
    + rewrite balance_cons. change (worth (Go ?code)) with (balance code). by rewrite Hb.
  - cbn [acts_of]. destruct (needDemux c eventType srcRepo) as [|p ps]; [done|].
    cbn [foldr]. rewrite app_nil_r. unfold demuxExternal. apply (acts_left_tracked c (p :: ps)).
Qed.

Lemma demuxEvent_ok d c eventType guid payload :
  let code := demuxEvent registered d eventType guid payload in
  sound code ∧ balance code = 0%Z ∧
  acts_left c code =
    match decode d eventType payload with
    | Err _ => []
    | Ok o => (from_option (λ ev, event_and_comment (with_guid guid ev) ≫= invocations c) [] o) ++
              dispatches c eventType payload o
    end.
Proof.
  unfold demuxEvent, dispatches. cbn zeta. destruct (decode d eventType payload) as [[ev|]|e]; [| |done].
  - destruct (demux_external_ok c eventType (srcRepo_of ev) payload) as (Hp & Hw & Ha).
    destruct (handle_event_ok c (with_guid guid ev)) as ([Hs Hp'] & Hb & Ha').
    cbn [from_option sender]. split_and!.
    + split; [|cbn; done]. cbn [solvent]. rewrite !balance_cons, Hw.
      change (worth (Go ?code)) with (balance code). rewrite Hb. by split_and!.
    + rewrite !balance_cons, Hw. change (worth (Go ?code)) with (balance code). by rewrite Hb.
    + cbn [acts_left foldr]. rewrite Ha, app_nil_r. cbn [acts_of app].
      change (foldr _ [] ?code) with (acts_left c code). by rewrite Ha'.
  - destruct (demux_external_ok c eventType "" payload) as (Hp & Hw & Ha). split_and!.
    + split; [|cbn; done]. cbn [solvent]. rewrite balance_cons, Hw. by split_and!.
    + rewrite balance_cons, Hw. done.
    + cbn [acts_left foldr]. by rewrite Ha, app_nil_r.
Qed.

(** ** Who is called *)

Lemma elem_of_invocations c ev a :
  a ∈ invocations c ev ↔ ∃ p h, a = Invoke p h (event_pruner ev) ev ∧
    registered (event_kind ev) !! p = Some h ∧ p ∈ getPlugins c (event_repo ev).1 (event_repo ev).2.
Proof.
  unfold invocations. rewrite list_elem_of_fmap. split.
  - intros ([p h] & -> & Hin%elem_of_map_range). rewrite handlers_for_lookup in Hin. case_bool_decide; [|done]. by exists p, h.
  - intros (p & h & -> & Hr & Hp). exists (p, h). split; [done|]. apply elem_of_map_range.
    rewrite handlers_for_lookup. by rewrite bool_decide_eq_true_2.
Qed.

Lemma elem_of_needDemux c eventType srcRepo p :
  p ∈ needDemux c eventType srcRepo ↔ ∃ repo plugins,
    pc_ExternalPlugins c !! repo = Some plugins ∧ (repo = srcRepo ∨ repo = org_of srcRepo) ∧
    p ∈ plugins ∧ (xp_Events p = [] ∨ eventType ∈ xp_Events p).
Proof.
  unfold needDemux. rewrite list_elem_of_bind. split.
  - intros ([repo plugins] & Hp & Hin%elem_of_map_range). exists repo, plugins.
    case_bool_decide as Hd; [by apply not_elem_of_nil in Hp|].
    apply list_elem_of_filter in Hp as [Hw Hp]. unfold wants in Hw.
    apply orb_True in Hw as [Hw|Hw]; apply bool_decide_unpack in Hw;
      (split_and!; [done| |done|auto]); destruct (decide (repo = srcRepo)), (decide (repo = org_of srcRepo)); tauto.
  - intros (repo & plugins & Hl & Hr & Hp & Hw). exists (repo, plugins). split; [|by apply elem_of_map_range].
    rewrite bool_decide_eq_false_2 by tauto. apply list_elem_of_filter. split; [|done].
    unfold wants. apply orb_True. rewrite !bool_decide_spec. tauto.
Qed.

Context (d : Decoders) (hmac_sha1 : string → string → string) (token : string).

Lemma ServeHTTP_ok c r :
  let code := (ServeHTTP registered d hmac_sha1 token r).1 in
  sound code ∧ balance code = 0%Z ∧
  ∀ a, a ∈ acts_left c code ↔ ∃ eventType guid payload o,
    delivers hmac_sha1 token r eventType guid payload ∧ decode d eventType payload = Ok o ∧
    (a ∈ from_option (λ ev, event_and_comment (with_guid guid ev) ≫= invocations c) [] o ∨
     a ∈ dispatches c eventType payload o).
Proof.
  unfold ServeHTTP. cbn zeta.
  pose proof (ValidateWebhook_ok hmac_sha1 token r) as Hv.
  destruct (ValidateWebhook _ _ _) as [[[[ty guid] payload]|] status]; cbn [fst] in *.
  - destruct (demuxEvent_ok d c ty guid payload) as (Hs & Hb & Ha). split_and!; [done..|]. intros a. rewrite Ha. split.
    + destruct (decode d ty payload) as [o|e] eqn:Ed; [|by intros ?%not_elem_of_nil].
      intros Hin%elem_of_app. exists ty, guid, payload, o. split; [by apply Hv|done].
    + intros (ty' & guid' & payload' & o & Hd & Ed & Hin). apply Hv in Hd as [= -> -> ->]. rewrite Ed.
      by apply elem_of_app.
  - split_and!; [done..|]. intros a. split; [by intros ?%not_elem_of_nil|].
    intros (ty & guid & payload & o & Hd & _). by apply Hv in Hd.
Qed.

Lemma reachable_counted c s : rtc (server_step registered d hmac_sha1 token) (started c) s → counted s.
Proof.
  assert (∀ s1, rtc (server_step registered d hmac_sha1 token) s1 s → counted s1 → counted s) as Hall;
    [|intros Hr; by eapply Hall].
  induction 1 as [|s1 s2 s3 Hst _ IH]; [done|]. intros Hc. apply IH. clear IH. destruct Hst.
  - by eapply counted_turn.
  - destruct (ServeHTTP_ok c r) as (Hs & Hb & _). by apply counted_receive.
  - done.
Qed.

(** What the goroutines of a request do, with the configuration [c]. *)
Definition planned (c : Configuration) (r : Request) (a : Act Handler) : Prop :=
  ∃ eventType guid payload o,
    delivers hmac_sha1 token r eventType guid payload ∧ decode d eventType payload = Ok o ∧
    match a with
    | Invoke p h pruner ev' =>
        ∃ ev, o = Some ev ∧
          (ev' = with_guid guid ev ∨ ∃ ce, generic_comment (with_guid guid ev) = Some ce ∧ ev' = EvGenericComment ce) ∧
          pruner = event_pruner ev' ∧ registered (event_kind ev') !! p = Some h ∧
          p ∈ getPlugins c (event_repo ev').1 (event_repo ev').2
    | Dispatch p sent =>
        sent = payload ∧ ∃ repo plugins, pc_ExternalPlugins c !! repo = Some plugins ∧
          (repo = sender o ∨ repo = org_of (sender o)) ∧ p ∈ plugins ∧
          (xp_Events p = [] ∨ eventType ∈ xp_Events p)
    end.

Lemma planned_ok c r a : a ∈ acts_left c (ServeHTTP registered d hmac_sha1 token r).1 ↔ planned c r a.
Proof.
  destruct (ServeHTTP_ok c r) as (_ & _ & ->). unfold planned, dispatches.
  split; intros (ty & guid & payload & o & Hd & Ed & Ha); exists ty, guid, payload, o; (split_and!; [done..|]).
  - destruct Ha as [Ha|(p & -> & Hp)%list_elem_of_fmap].
    + destruct o as [ev|]; [|by apply not_elem_of_nil in Ha]. cbn [from_option] in Ha.
      apply list_elem_of_bind in Ha as (ev' & (p & h & -> & Hr & Hp)%elem_of_invocations & Hev).
      exists ev. split_and!; [done| |done..]. unfold event_and_comment in Hev. apply elem_of_cons in Hev as [->|Hev]; [by left|right].
      destruct (generic_comment _) as [ce|]; [|by apply not_elem_of_nil in Hev].
      apply list_elem_of_singleton in Hev as ->. by exists ce.
    + split; [done|]. by apply elem_of_needDemux.
  - destruct a as [p h pruner ev'|p sent].
    + left. destruct Ha as (ev & -> & Hev & -> & Hr & Hp). cbn [from_option]. apply list_elem_of_bind. exists ev'. split.
      * apply elem_of_invocations. by exists p, h.
      * unfold event_and_comment. apply elem_of_cons. destruct Hev as [->|(ce & -> & ->)]; [by left|right]. by apply list_elem_of_singleton.
    + right. destruct Ha as (-> & Ha). apply list_elem_of_fmap. exists p. split; [done|]. by apply elem_of_needDemux.
Qed.

(** What a signed event of a type that hook handles is due to, with the configuration [c]:
    the enabled plugins that are registered for it or for the comment it amounts to, and
    the external plugins of its repository and organization that have its type among
    their events or no events. *)
Definition due (c : Configuration) (r : Request) (a : Act Handler) : Prop :=
  ∃ eventType guid payload ev,
    delivers hmac_sha1 token r eventType guid payload ∧ decode d eventType payload = Ok (Some ev) ∧
    match a with
    | Invoke p h pruner ev' =>
        (ev' = with_guid guid ev ∨ ∃ ce, generic_comment (with_guid guid ev) = Some ce ∧ ev' = EvGenericComment ce) ∧
        pruner = event_pruner ev' ∧ registered (event_kind ev') !! p = Some h ∧
        p ∈ getPlugins c (event_repo ev').1 (event_repo ev').2
    | Dispatch p sent =>
        sent = payload ∧ ∃ repo plugins, pc_ExternalPlugins c !! repo = Some plugins ∧
          (repo = srcRepo_of ev ∨ repo = org_of (srcRepo_of ev)) ∧ p ∈ plugins ∧
          (xp_Events p = [] ∨ eventType ∈ xp_Events p)
    end.

(** The request is not signed properly, or its event is of a type that hook handles. *)
Definition handled (r : Request) : Prop :=
  ∀ eventType guid payload, delivers hmac_sha1 token r eventType guid payload → decode d eventType payload ≠ Ok None.

Definition is_call (a : Act Handler) : bool := match a with Invoke _ _ _ _ => true | Dispatch _ _ => false end.

Lemma planned_due c r a : is_call a = true ∨ handled r → planned c r a ↔ due c r a.
Proof.
  intros Hor. split.
  - intros (ty & guid & payload & o & Hd & Ed & Ha). destruct o as [ev|].
    + exists ty, guid, payload, ev. split_and!; [done..|]. destruct a; [|done]. by destruct Ha as (? & [= <-] & ?).
    + destruct Hor as [Hc|Hh]; [|by destruct (Hh ty guid payload Hd)]. destruct a; [|done]. by destruct Ha as (? & ? & _).
  - intros (ty & guid & payload & ev & Hd & Ed & Ha). exists ty, guid, payload, (Some ev). split_and!; [done..|].
    destruct a; [by exists ev|done].
Qed.

(** Each plugin is called once with the event, and once with its comment. *)
Lemma NoDup_invocations c ev : NoDup (event_and_comment ev ≫= invocations c).
Proof.
  assert (∀ ev, NoDup (invocations c ev)) as Hi.
  { intros ev'. unfold invocations. apply (NoDup_fmap_2_strong _).
    - intros [p h] [p' h'] _ _ [= -> ->]. done.
    - apply (NoDup_fmap_1 fst), NoDup_map_range. }
  unfold event_and_comment. cbn [mbind list_bind]. apply NoDup_app. split_and!; [apply Hi| |].
  - intros a (p & h & -> & _)%elem_of_invocations Ha. destruct (generic_comment ev) as [ce|] eqn:Eg.
    + cbn in Ha. rewrite app_nil_r in Ha. apply elem_of_invocations in Ha as (p' & h' & [= _ _ _ ->] & _). done.
    + by apply not_elem_of_nil in Ha.
  - destruct (generic_comment ev); cbn; [rewrite app_nil_r; apply Hi|constructor].
Qed.

Lemma calls_once c r : NoDup (filter is_call (acts_left c (ServeHTTP registered d hmac_sha1 token r).1)).
Proof.
  unfold ServeHTTP. destruct (ValidateWebhook _ _ _) as [[[[ty guid] payload]|] status]; cbn [fst]; [|constructor].
  destruct (demuxEvent_ok d c ty guid payload) as (_ & _ & ->).
  destruct (decode d ty payload) as [o|]; [|constructor]. rewrite filter_app.
  assert (filter is_call (dispatches c ty payload o) = []) as ->.
  { unfold dispatches. induction (needDemux c ty (sender o)) as [|p ps IH]; [done|]. exact IH. }
  rewrite app_nil_r. apply NoDup_filter. destruct o as [ev|]; [apply NoDup_invocations|constructor].
Qed.

(** ** Histories under one configuration *)

(** The requests [rs] come in one after the other, with turns of goroutines between. *)
Inductive history : list Request → Server Handler → Server Handler → Prop :=
| history_nil s : history [] s s
| history_turn rs s1 s2 s3 : history rs s1 s2 → turn s2 s3 → history rs s1 s3
| history_request rs r s1 s2 :
    history rs s1 s2 → history (rs ++ [r]) s1 (receive (ServeHTTP registered d hmac_sha1 token r).1 s2).

Lemma history_reachable rs s s' : history rs s s' → rtc (server_step registered d hmac_sha1 token) s s'.
Proof. induction 1; [done|eapply rtc_r; [done|by constructor]..]. Qed.

Lemma history_acts rs s s' :
  history rs s s' →
  sv_config s' = sv_config s ∧
  sv_acts s' ++ pending s' ≡ₚ sv_acts s ++ pending s ++
    (rs ≫= λ r, acts_left (sv_config s) (ServeHTTP registered d hmac_sha1 token r).1).
Proof.
  induction 1 as [|rs s1 s2 s3 _ [Hc Hp] Ht|rs r s1 s2 _ [Hc Hp]].
  - cbn [mbind list_bind]. by rewrite app_nil_r.
  - apply turn_acts in Ht as [Hc' ->]. by split; [congruence|].
  - split; [done|]. unfold pending in *. unfold receive. cbn [sv_config sv_goroutines sv_acts].
    rewrite !list.bind_app, (assoc_L (++)), Hp, Hc, !bind_cons. cbn [mbind list_bind].
    by rewrite !app_nil_r, <- !(assoc_L (++)).
Qed.

(** What was done for a request: the plugins it is due to were called once each, and, if
    its type is handled, its payload sent to the external plugins it is due to. *)
Definition delivered (c : Configuration) (r : Request) (new : list (Act Handler)) : Prop :=
  (∀ a, is_call a = true → a ∈ new ↔ due c r a) ∧ (handled r → ∀ a, a ∈ new ↔ due c r a) ∧
  NoDup (filter is_call new).

(** Once nobody has anything left to do, exactly what was due has been done. *)
Lemma history_done rs c s :
  history rs (started c) s → sv_goroutines s = [] →
  ∃ news, Forall2 (delivered c) rs news ∧ sv_acts s ≡ₚ concat news.
Proof.
  intros [Hc Hp]%history_acts Hq. unfold pending in Hp. rewrite Hq in Hp. cbn in Hp. rewrite app_nil_r in Hp.
  exists ((λ r, acts_left c (ServeHTTP registered d hmac_sha1 token r).1) <$> rs). split.
  - apply Forall2_fmap_r, Forall_Forall2_diag, Forall_forall. intros r _. split_and!; [| |apply calls_once].
    + intros a Ha. rewrite planned_ok. apply planned_due. by left.
    + intros Hh a. rewrite planned_ok. apply planned_due. by right.
  - rewrite Hp. clear. induction rs as [|r rs IH]; [done|]. cbn. by rewrite IH.
Qed.

Lemma turns_end s :
  ∀ n s', nsteps turn n s s' →
    n ≤ work s ∧ (n < work s → ∃ s'', turn s' s'') ∧ (n = work s → sv_goroutines s' = []).
Proof.
  intros n s' (_ & Hw & _)%turns_acts. split_and!; [lia| |].
  - intros Hn. destruct (sv_goroutines s') as [|g gs] eqn:E.
    + apply work_zero in E. lia.
    + apply (turn_exists s' g). rewrite E. by left.
  - intros ->. apply work_zero. lia.
Qed.
End event.

(** ** Dispatching to an external plugin *)

Inductive HttpCall := Post (endpoint body : string) | Sleep (milliseconds : Z).
(** Status code, status, and what is read of the body. *)
Definition HttpResponse : Type := Z * string * result string.
(** [ha_left]: what the client has not read of the body of the request. *)
Record HttpAnswer := mkHttpAnswer { ha_left : string; ha_result : result HttpResponse }.

Section dispatch.
(** [http.NewRequest], which can fail on the endpoint, and the client. *)
Context (NewRequest : string → result unit) (http_do : list HttpCall → HttpAnswer).

(** The loop of [do]; every try sends the same request, whose body is a buffer.  [last]
    is the outcome of the try before. *)
Fixpoint do_tries (retries : nat) (backoff : Z) (endpoint body : string) (last : result HttpResponse)
    : H HttpCall (result HttpResponse) :=
  match retries with
  | 0 => hret last
  | S retries =>
      let! answer := ask (λ tr, Ok (http_do tr)) (Post endpoint body) in
      match ha_result answer with
      | Ok resp => hret (Ok resp)
      | Err e =>
          let! _ := ask (λ _, Ok tt) (Sleep backoff) in
          do_tries retries (backoff * 2) endpoint (ha_left answer) (Err e)
      end
  end.
Definition maxRetries : nat := 5.
Definition do_request (endpoint body : string) : H HttpCall (result HttpResponse) :=
  do_tries maxRetries 100 endpoint body (Err (errors_New "no try")).

Definition dispatch (endpoint payload : string) : H HttpCall unit :=
  let! _ := lift (NewRequest endpoint) in
  let! answer := do_request endpoint payload in
  let! resp := lift answer in
  let '(code, status, body) := resp in
  let! rb := lift body in
  if bool_decide (code < 200 ∨ code > 299)%Z
  then herr (Errorf "response has status %q and body %q" [AStr status; AStr rb]) else hret tt.

Definition is_post (e : HttpCall) : bool := match e with Post _ _ => true | Sleep _ => false end.
Definition posts (tr : list HttpCall) : nat := length (filter is_post tr).
Definition slept (tr : list HttpCall) : Z :=
  foldr (λ e n, match e with Sleep ms => ms + n | _ => n end)%Z 0%Z tr.

Lemma do_tries_ok retries backoff endpoint body last tr : (0 ≤ backoff)%Z →
  ∃ new r, do_tries retries backoff endpoint body last tr = (tr ++ new, Some (Ok r)) ∧
    posts new ≤ retries ∧ (0 ≤ slept new ≤ backoff * (2 ^ Z.of_nat retries - 1))%Z ∧
    (∀ ep b, Post ep b ∈ new → ep = endpoint) ∧
    match r with
    | Ok resp => (∃ before b, new = before ++ [Post endpoint b] ∧ ha_result (http_do (tr ++ new)) = Ok resp) ∨
                 (retries = 0 ∧ last = Ok resp)
    | Err _ => posts new = retries
    end.
Proof.
  revert backoff body last tr. induction retries as [|retries IH]; intros backoff body last tr Hb.
  { exists [], last. rewrite app_nil_r. cbn. split_and!; [done|done|lia|lia|by intros ? ? ?%not_elem_of_nil|]. destruct last; auto. }
  cbn [do_tries]. unfold hbind at 1, ask at 1. rewrite bind_app. cbn.
  destruct (http_do (tr ++ [Post endpoint body])) as [left [resp|e]] eqn:Ea; cbn.
  - exists [Post endpoint body], (Ok resp). split_and!; [done|change (1 ≤ S retries); lia|done|cbn; nia| |].
    + by intros ? ? [= -> ->]%list_elem_of_singleton.
    + left. exists [], body. by rewrite Ea.
  - unfold hbind, ask. rewrite bind_app. cbn.
    destruct (IH (backoff * 2)%Z left (Err e) ((tr ++ [Post endpoint body]) ++ [Sleep backoff])) as
      (new & r & -> & Hp & Hs & He & Hr); [lia|].
    exists (Post endpoint body :: Sleep backoff :: new), r. split_and!.
    + by rewrite <- !(assoc_L (++)).
    + change (S (posts new) ≤ S retries). lia.
    + change (0 ≤ backoff + slept new)%Z. lia.
    + change (backoff + slept new ≤ backoff * (2 ^ Z.of_nat (S retries) - 1))%Z.
      rewrite Nat2Z.inj_succ, Z.pow_succ_r by lia. nia.
    + intros ep b [[= -> ->]|[?|?]%elem_of_cons]%elem_of_cons; [done|done|by eapply He].
    + destruct r as [resp|]; [|change (S (posts new) = S retries); lia].
      left. destruct Hr as [(before & b & -> & Hr)|[-> [=]]].
      exists (Post endpoint body :: Sleep backoff :: before), b. split; [done|]. rewrite <- Hr. f_equal. f_equal. by rewrite <- !(assoc_L (++)).
Qed.

(** At most five requests, all to the endpoint of the plugin, with 3.1 s of waiting in all;
    without an error the last one was answered with success, which a failed try is not. *)
Lemma dispatch_ok endpoint payload tr :
  ∃ new r, dispatch endpoint payload tr = (tr ++ new, Some r) ∧
    posts new ≤ 5 ∧ (0 ≤ slept new ≤ 3100)%Z ∧ (∀ ep b, Post ep b ∈ new → ep = endpoint) ∧
    (r = Ok tt → ∃ before b code status rb, new = before ++ [Post endpoint b] ∧
       ha_result (http_do (tr ++ new)) = Ok (code, status, Ok rb) ∧ (200 ≤ code ≤ 299)%Z).
Proof.
  unfold dispatch. destruct (NewRequest endpoint) as [[]|e].
  2: { exists [], (Err e). rewrite app_nil_r. split_and!; [done|cbn; lia|done|done|by intros ? ? ?%not_elem_of_nil|done]. }
  erewrite hbind_ok by done.
  destruct (do_tries_ok maxRetries 100 endpoint payload (Err (errors_New "no try")) tr) as
    (new & r & Hrun & Hp & [Hs1 Hs2] & He & Hr); [done|]. unfold do_request. erewrite hbind_ok by exact Hrun.
  exists new. destruct r as [[[code status] [rb|e]]|e].
  2,3: eexists; split_and!; [reflexivity|done..|intros [=]].
  erewrite hbind_ok by done. cbv beta iota. erewrite hbind_ok by done. destruct (bool_decide_reflect (code < 200 ∨ code > 299)%Z).
  { eexists; split_and!; done. }
  eexists. split_and!; [done..|]. intros _. destruct Hr as [(before & b & -> & Hr)|[[=] _]].
  exists before, b, code, status, rb. split_and!; [done..|lia|lia].
Qed.
End dispatch.

(** A try that fails after the payload was read leaves the next ones an empty body. *)
Example retry_without_payload :
  let http_do tr := if bool_decide (posts tr = 1) then mkHttpAnswer "" (Err (errors_New "timeout"))
                    else mkHttpAnswer "" (Ok (200, "200 OK", Ok ""))%Z in
  dispatch (λ _, Ok tt) http_do "http://x" "{}" [] =
    ([Post "http://x" "{}"; Sleep 100; Post "http://x" ""], Some (Ok tt)).
Proof. vm_compute. reflexivity. Qed.

(** ** A server with one plugin and two external ones *)

Module w_hook.
Definition repo : EventRepo := mkEventRepo "o" "r" "o/r".
Definition comment : IssueCommentEvent :=
  mkIssueCommentEvent "created" (mkEventIssue 7 "author" "open" "url" [] "body" true None)
    (mkIssueComment 1 "/lgtm" "alice" "url#1" 0%Z 0%Z) repo "".
Definition decoders : Decoders :=
  mkDecoders (λ _, Err (errors_New "json")) (λ _, Ok comment) (λ _, Err (errors_New "json"))
    (λ _, Err (errors_New "json")) (λ _, Err (errors_New "json")) (λ _, Err (errors_New "json"))
    (λ _, Err (errors_New "json")).
Definition registered (k : Kind) : gmap string nat :=
  match k with KGenericComment => {["lgtm" := 1]} | KIssueComment => {["slow" := 2]} | _ => ∅ end.
Definition all : ExternalPlugin := mkExternalPlugin "all" "http://all" [].
Definition pushes : ExternalPlugin := mkExternalPlugin "pushes" "http://pushes" ["push"].
Definition config : Configuration :=
  mkConfiguration {["o/r" := ["lgtm"; "unknown"]]} {["o" := [pushes; all]]} (mkOwners [] [] None)
    (Approve.mkApproveConfiguration [] false false) []
    (mkBlunderbuss None 0 None false false) (BugzillaOptions.mkBugzilla ∅ ∅) (mkCherryPickUnapproved "" (λ _, false) "")
    (mkConfigUpdater ∅ "" "" false) ∅ (mkHeart [] "" (λ _, false)) [] [] ∅ (mkProjectConfig ∅) (mkProjectManager ∅)
    [] (mkSigMention "" (λ _, false)) (mkSize 0 0 0 0 0) [] (mkOverride false ∅).
Definition hmac (key payload : string) : string := key +:+ payload.
Definition request (eventType : string) : Request :=
  mkRequest "POST" (<["x-github-event" := eventType]> $ <["x-github-delivery" := "guid"]> $
                    <["content-type" := "application/json"]> {["x-hub-signature" := "sha1=6B7b7d"]}) (Ok "{}").
End w_hook.

(** A run of the server, goroutine by goroutine. *)
Section schedule.
Context {Handler : Type}.
Definition take_turn (s : Server Handler) (n : nat) : option (Server Handler) :=
  let '(mkServer c wg gs acts) := s in
  match gs !! n with
  | None => None
  | Some g =>
      let before := take n gs in
      let after := drop (S n) gs in
      Some match g with
           | [] => mkServer c wg (before ++ after) acts
           | WgAdd :: g => mkServer c (wg + 1) (before ++ g :: after) acts
           | WgDone :: g => mkServer c (wg - 1) (before ++ g :: after) acts
           | Go code :: g => mkServer c wg (before ++ g :: after ++ [code]) acts
           | Reading code :: g => mkServer c wg (before ++ (code c ++ g) :: after) acts
           | Do a :: g => mkServer c wg (before ++ g :: after) (acts ++ [a])
           end
  end.
Fixpoint take_turns (ns : list nat) (s : Server Handler) : option (Server Handler) :=
  match ns with [] => Some s | n :: ns => take_turn s n ≫= take_turns ns end.

Lemma take_turn_ok s n s' : take_turn s n = Some s' → turn s s'.
Proof.
  destruct s as [c wg gs acts]. cbn. destruct (gs !! n) as [g|] eqn:Eg; [|done].
  rewrite <- (take_drop_middle gs n g Eg) at 1. destruct g as [|[] g]; intros [= <-]; constructor.
Qed.

Lemma take_turns_ok ns s s' : take_turns ns s = Some s' → nsteps turn (length ns) s s'.
Proof.
  revert s. induction ns as [|n ns IH]; intros s; cbn; [by intros [= ->]; constructor|].
  destruct (take_turn s n) as [s1|] eqn:E; [|done]. intros Hs. econstructor; [by eapply take_turn_ok|by apply IH].
Qed.

Lemma history_turns `{GoRange} registered d hmac_sha1 token rs n (s1 s2 s3 : Server Handler) :
  history registered d hmac_sha1 token rs s1 s2 → nsteps turn n s2 s3 → history registered d hmac_sha1 token rs s1 s3.
Proof. intros Hh Hn. revert Hh. induction Hn as [|n s2 s s3 Ht _ IH]; [done|]. intros Hh. apply IH. by econstructor. Qed.
End schedule.

Module w_server.
Import w_hook.
#[local] Existing Instance listing_order.
Definition requests : list Request := [request "issue_comment"].
Definition s0 : Server nat := receive (ServeHTTP registered decoders hmac "k" (request "issue_comment")).1 (started config).
Definition turns : list nat := [0;0;1;1;1;1;1;1;1;1;0;0]%nat.

Lemma received : history registered decoders hmac "k" requests (started config) s0.
Proof. apply (history_request registered decoders hmac "k" [] _ _ _), history_nil. Qed.

(** After [turns] the counter is zero, so that a shutdown ends, and the event has not
    been dispatched to the external plugin: the goroutine that does so is not counted. *)
Example lost_dispatch :
  ∃ s, history registered decoders hmac "k" requests (started config) s ∧ shut_down s ∧
    sv_acts s = [Invoke "lgtm" 1 (Some ("o", "r", 7%Z))
                   (EvGenericComment (mkGenericCommentEvent true "created" "/lgtm" "url#1" 7 "o" "r" "alice"
                      "author" [] "open" "body" "url" "guid"))] ∧
    pending s = [Dispatch all "{}"].
Proof.
  destruct (take_turns turns s0) as [s|] eqn:Es; [|by vm_compute in Es]. exists s. split.
  - eapply history_turns; [apply received|by eapply take_turns_ok].
  - vm_compute in Es. injection Es as <-. split_and!; reflexivity.
Qed.
End w_server.

(** An event of a type that hook does not handle reaches no external plugin, not even one
    for all events: its repository is not read. *)
Lemma unhandled_not_dispatched `{GoRange} {Handler} (registered : Kind → gmap string Handler) d c ty guid payload :
  pc_ExternalPlugins c !! "" = None → decode d ty payload = Ok None →
  acts_left c (demuxEvent registered d ty guid payload) = [].
Proof.
  intros Hc Hd. destruct (demuxEvent_ok registered d c ty guid payload) as (_ & _ & ->). rewrite Hd. cbn.
  unfold dispatches. destruct (needDemux c ty (sender None)) as [|p ps] eqn:E; [done|]. exfalso.
  assert (p ∈ needDemux c ty "") as Hp by (change "" with (sender None); rewrite E; left).
  apply elem_of_needDemux in Hp as (repo & l & Hl & Hr & _).
  assert (repo = "") as -> by (by destruct Hr). congruence.
Qed.

(** C26. Whatever the schedule of the goroutines, and however the configuration changes meanwhile,
    the counter of the server is never negative, and when it is zero, so that a graceful shutdown
    ends, no goroutine is left that handles an event, runs a plugin or sends to an external one
    (one that has yet to start the sending may be left: it is not counted).
    After any history of requests under one configuration the goroutines come to an end, within a
    number of turns that does not depend on the schedule and without getting stuck.  When they have
    all ended, what has happened for each request is: if its payload is signed, each enabled plugin
    registered for the kind of event was called once with the event, or with the comment it amounts
    to; and if its type is one that hook handles, the payload was dispatched to the external plugins
    of the repository and of its organization that want it.  Nothing else has happened for
    requests of handled types, and no other plugin was called. *)
Theorem hook_spec `{GoRange} {Handler : Type} (registered : Kind → gmap string Handler) d hmac_sha1 token c s :
  (rtc (server_step registered d hmac_sha1 token) (started c) s →
     (0 ≤ sv_wg s)%Z ∧ (shut_down s → ∀ g, g ∈ sv_goroutines s → last g ≠ Some WgDone)) ∧
  (∀ rs, history registered d hmac_sha1 token rs (started c) s →
     (∃ N, ∀ n s', nsteps turn n s s' →
        n ≤ N ∧ (n < N → ∃ s'', turn s' s'') ∧ (n = N → sv_goroutines s' = [])) ∧
     (sv_goroutines s = [] → shut_down s ∧
        ∃ news, Forall2 (delivered registered d hmac_sha1 token c) rs news ∧ sv_acts s ≡ₚ concat news)).
Proof.
  split.
  - intros Hs%reachable_counted. split; [by apply counted_nonneg|]. intros Hz g. by apply counted_zero.
  - intros rs Hh. split; [exists (work s); apply turns_end|]. intros Hq. split; [|by apply history_done].
    apply history_reachable, reachable_counted in Hh as [Hwg _]. unfold shut_down. by rewrite Hwg, Hq.
Qed.

(** One comment, handled to the end: a plugin and an external plugin. *)
Lemma hook_spec_witness :
  ∃ (s : Server nat) news,
    @history listing_order nat w_hook.registered w_hook.decoders w_hook.hmac "k" w_server.requests (started w_hook.config) s ∧
    Forall (handled w_hook.decoders w_hook.hmac "k") w_server.requests ∧
    Forall2 (delivered w_hook.registered w_hook.decoders w_hook.hmac "k" w_hook.config) w_server.requests news ∧
    sv_acts s ≡ₚ concat news ∧ length (sv_acts s) = 2.
Proof.
  destruct (take_turns (w_server.turns ++ [0;0;0;0;0;0;0;0]) w_server.s0) as [s|] eqn:Es; [|by vm_compute in Es].
  assert (@history listing_order nat w_hook.registered w_hook.decoders w_hook.hmac "k" w_server.requests
            (started w_hook.config) s) as Hh.
  { eapply history_turns; [apply w_server.received|by eapply take_turns_ok]. }
  vm_compute in Es. injection Es as <-.
  destruct (proj2 (proj2 (@hook_spec listing_order nat w_hook.registered w_hook.decoders w_hook.hmac "k" w_hook.config _)
              _ Hh) eq_refl) as (_ & news & Hn & Hp).
  eexists _, news. split_and!; [exact Hh| |exact Hn|exact Hp|reflexivity].
  apply Forall_singleton. intros ty guid payload Hd Hdec.
  apply (ValidateWebhook_ok w_hook.hmac "k" (w_hook.request "issue_comment")) in Hd. vm_compute in Hd.
  injection Hd as <- <- <-. vm_compute in Hdec. discriminate Hdec.
Defined.
