(* ===== verification/Override.v ===== *)
(** * The override plugin (plugins/override/override.go)

    A comment [/override context] makes failed contexts of a pull request succeed, if
    its author is an administrator of the repository, or may do so by the
    configuration. *)

From S2P Require Import Prelude Api JobConfig TideConfig PjUtil GoText Handler GitHub RepoOwners Approvers Trigger PluginConfig Samples.
#[local] Open Scope go_scope.

(** ** Commands *)

(** The shortest text that is not empty and is followed by space only. *)
Fixpoint strip_end (s : string) : string :=
  match s with
  | EmptyString => EmptyString
  | String c s' => if all_space s' then String c EmptyString else String c (strip_end s')
  end.

(** [overrideRe] on a line: the second group, if the first, a space and what follows, matched. *)
Definition override_line (line : string) : option (option string) :=
  match trim_prefix_fold "/override" line with
  | Some EmptyString => Some None
  | Some (String " "%char (String c rest)) => Some (Some (strip_end (String c rest)))
  | _ => None
  end.
Definition overrideRe (body : string) : list (option string) := omap override_line (lines body).

(** ** Texts *)

Definition formatList (list : list string) : string :=
  string_join newline ((λ item, " - `" +:+ item +:+ "`") <$> list).

Definition override_description (user : string) : string := "Overridden by " +:+ user.

Section override.
Context `{GoRange} (gh : GitHub) (fresh : Fresh) (config : Config) (options : Override).
(** [repoowners.Client] *)
Context (on_owners : list Call → result RepoOwners).

Definition whoCanUse (org repo : string) : string :=
  let owners := if ov_AllowTopLevelOwners options then ", approvers in top level OWNERS file" else "" in
  let teams :=
    if bool_decide (ov_AllowedGitHubTeams options = ∅) then ""
    else
      let repoRef := org +:+ "/" +:+ repo in
      ", and the following github teams:" +:+ string_join ", "
        (omap (λ '(r, allowedTeams),
           if bool_decide (repoRef = "/" ∨ r = repoRef)
           then Some (r +:+ ": " +:+ string_join " " allowedTeams) else None)
           (map_range (ov_AllowedGitHubTeams options))) in
  "Repo administrators" +:+ owners +:+ teams +:+ ".".

(** ** Who is authorized *)

Definition admin_role : string := "admin".

Definition authorizedUser (org repo user : string) : H Call bool :=
  or_zero false (ask (on_bool gh) (HasPermission org repo user [admin_role])).

Definition authorizedTopLevelOwner (org repo user : string) (pr : GitHubPullRequest) : H Call bool :=
  if ov_AllowTopLevelOwners options then
    or_zero false
      (let! owners := ask on_owners (LoadRepoOwners org repo (gpr_BaseRef pr)) in
       hret (bool_decide (user ∈ default ∅ (TopLevelApprovers owners))))
  else hret false.

(** The members of the teams with the slug, until one is the user. *)
Fixpoint in_teams (slug user : string) (teams : list Team) : H Call bool :=
  match teams with
  | [] => hret false
  | team :: teams =>
      if bool_decide (tm_Slug team = slug) then
        let! members := or_zero [] (ask (on_members gh) (ListTeamMembers (tm_ID team) RoleAll)) in
        if bool_decide (user ∈ members) then hret true else in_teams slug user teams
      else in_teams slug user teams
  end.
Fixpoint in_slugs (slugs : list string) (user : string) (teams : list Team) : H Call bool :=
  match slugs with
  | [] => hret false
  | slug :: slugs =>
      let! found := in_teams slug user teams in
      if found : bool then hret true else in_slugs slugs user teams
  end.

(** Slugs of no team are only logged. *)
Definition authorizedGitHubTeamMember (org repo user : string) : H Call bool :=
  let! teams := attempt (ask (on_team_list gh) (ListTeams org)) in
  match teams with
  | Err _ => hret false
  | Ok teams =>
      in_slugs (default [] (ov_AllowedGitHubTeams options !! (org +:+ "/" +:+ repo))) user teams
  end.

(** ** Handling a comment *)

Definition respond (e : GenericCommentEvent) (resp : string) : H Call unit :=
  ask (on_done gh) (CreateComment (gc_Org e) (gc_Repo e) (gc_Number e)
    (FormatResponseRaw (gc_Body e) (gc_HTMLURL e) (gc_User e) resp)).

(** The getter that [shaGetterFactory] makes: it asks until it has an answer. *)
Definition base_sha (org repo : string) (pr : GitHubPullRequest) (baseSHA : string)
    : H Call (result string) :=
  if bool_decide (baseSHA ≠ "") then hret (Ok baseSHA)
  else attempt (ask (on_name gh) (GetRef org repo ("heads/" +:+ gpr_BaseRef pr))).

Definition presubmitForContext (presubmits : list Presubmit) (context : string) : option Presubmit :=
  head (filter (λ p, ps_Context p = context) presubmits).

(** The ProwJob of a test that is deemed to have succeeded. *)
Definition override_job (e : GenericCommentEvent) (pr : GitHubPullRequest) (baseSHA : string) (pre : Presubmit)
    (tr : list Call) : ProwJob :=
  let now := fresh_time fresh tr in
  with_status (new_presubmit fresh pr baseSHA pre (gc_GUID e) tr)
    (mkProwJobStatus now None (Some now) SuccessState (override_description (gc_User e)) (gc_HTMLURL e)
       "" "" "" None).

Definition override_status (e : GenericCommentEvent) (status : Status) : Status :=
  mkStatus StatusSuccess (s_TargetURL status) (override_description (gc_User e)) (s_Context status).

(** Neither a success nor a context that was not given. *)
Definition overridden (overrides : gset string) (status : Status) : bool :=
  negb (bool_decide (s_State status = StatusSuccess ∨ s_Context status ∉ overrides)).

(** The loop over the statuses: the contexts overridden, and how it ended. *)
Fixpoint override_loop (e : GenericCommentEvent) (pr : GitHubPullRequest) (presubmits : list Presubmit)
    (overrides : gset string) (statuses : list Status) (baseSHA : string) (done : gset string)
    : H Call (gset string * result unit) :=
  let stop resp := (let! r := attempt (respond e resp) in hret (done, r)) in
  match statuses with
  | [] => hret (done, Ok tt)
  | status :: statuses =>
      if negb (overridden overrides status) then override_loop e pr presubmits overrides statuses baseSHA done
      else
        let set_status baseSHA :=
          (let! posted := attempt (ask (on_done gh) (CreateStatus (gc_Org e) (gc_Repo e) (gpr_HeadSHA pr)
                                     (override_status e status))) in
           match posted with
           | Err _ => stop ("Cannot update PR status for context " +:+ s_Context status)
           | Ok _ => override_loop e pr presubmits overrides statuses baseSHA ({[s_Context status]} ∪ done)
           end) in
        match presubmitForContext presubmits (s_Context status) with
        | None => set_status baseSHA
        | Some pre =>
            let! base := base_sha (gc_Org e) (gc_Repo e) pr baseSHA in
            match base with
            | Err _ => stop "Cannot get base ref of PR"
            | Ok baseSHA =>
                let! pj := look (override_job e pr baseSHA pre) in
                let! created := attempt (ask (on_done gh) (CreateProwJob pj)) in
                match created with
                | Err _ => stop ("Failed to create override job for " +:+ s_Context status)
                | Ok _ => set_status baseSHA
                end
            end
        end
  end.

(** [client.presubmits], which asks for the base SHA when the configuration of the
    repository is in the repository; and the SHA if it was asked for. *)
Definition override_presubmits (e : GenericCommentEvent) (pr : GitHubPullRequest)
    : H Call (result (list Presubmit) * string) :=
  let identifier := gc_Org e +:+ "/" +:+ gc_Repo e in
  let! base := if InRepoConfigEnabled config identifier then base_sha (gc_Org e) (gc_Repo e) pr ""
               else hret (Ok "") in
  hret (wrap_err "failed to get presubmits: %v"
          (GetPresubmits config identifier (λ _, base) [λ _, Ok (gpr_HeadSHA pr)]),
        match base with Ok sha => sha | Err _ => "" end).

(** The contexts that have not succeeded. *)
Definition failed_contexts (statuses : list Status) : gset string :=
  set_of (s_Context <$> filter (λ s, s_State s ≠ StatusSuccess) statuses).

Definition unknown_response (unknown contexts : gset string) : string :=
  text ["/override requires a failed status context to operate on.";
        "The following unknown contexts were given:"; formatList (set_list unknown); "";
        "Only the following contexts were expected:"; formatList (set_list contexts)].

(** From the presubmits on; the comment about what was overridden is deferred. *)
Definition override_statuses (e : GenericCommentEvent) (pr : GitHubPullRequest) (overrides : gset string)
    (statuses : list Status) : H Call unit :=
  let! (presubmits, baseSHA) := override_presubmits e pr in
  match presubmits with
  | Err _ => respond e "Failed to get presubmits"
  | Ok presubmits =>
      let! (done, outcome) := override_loop e pr presubmits overrides statuses baseSHA ∅ in
      let! _ := (if bool_decide (done = ∅) then hret tt
                 else or_zero tt (respond e ("Overrode contexts on behalf of " +:+ gc_User e +:+ ": " +:+
                                             string_join ", " (set_list done)))) in
      lift outcome
  end.

Definition unauthorized (e : GenericCommentEvent) : string :=
  gc_User e +:+ " unauthorized: /override is restricted to " +:+ whoCanUse (gc_Org e) (gc_Repo e).

Definition override_handle (e : GenericCommentEvent) : H Call unit :=
  if negb (gc_IsPR e) || bool_decide (gc_IssueState e ≠ "open" ∨ gc_Action e ≠ GenericCommentActionCreated)
  then hret tt
  else match overrideRe (gc_Body e) with
  | [] => hret tt
  | mat =>
      let org := gc_Org e in
      let repo := gc_Repo e in
      let number := gc_Number e in
      let user := gc_User e in
      if bool_decide (None ∈ mat) then
        respond e "/override requires a failed status context to operate on, but none was given"
      else
        let overrides := set_of (omap id mat) in
        let! authorized := authorizedUser org repo user in
        let! authorized := if negb authorized && bool_decide (ov_AllowedGitHubTeams options ≠ ∅)
                           then authorizedGitHubTeamMember org repo user else hret authorized in
        if negb authorized && negb (ov_AllowTopLevelOwners options) then respond e (unauthorized e)
        else
          let! pr := attempt (ask (on_pr gh) (GetPullRequest org repo number)) in
          match pr with
          | Err _ => respond e ("Cannot get PR #" +:+ itoa number +:+ " in " +:+ org +:+ "/" +:+ repo)
          | Ok pr =>
              let! authorized := if authorized : bool then hret true
                                 else authorizedTopLevelOwner org repo user pr in
              if negb authorized then respond e (unauthorized e)
              else
                let! statuses := attempt (ask (on_statuses gh) (ListStatuses org repo (gpr_HeadSHA pr))) in
                match statuses with
                | Err _ => respond e ("Cannot get commit statuses for PR #" +:+ itoa number +:+ " in " +:+ org
                                        +:+ "/" +:+ repo)
                | Ok statuses =>
                    let contexts := failed_contexts statuses in
                    let unknown := overrides ∖ contexts in
                    if bool_decide (unknown ≠ ∅) then respond e (unknown_response unknown contexts)
                    else override_statuses e pr overrides statuses
                end
          end
  end.
End override.

(** ** Who may override what *)

Section spec.
Context `{GoRange} (gh : GitHub) (fresh : Fresh) (config : Config) (options : Override).
Context (on_owners : list Call → result RepoOwners) (e : GenericCommentEvent).

(** The author administers the repository, is in an allowed team, or is a top level
    approver where that counts. *)
Definition authorized (pr : GitHubPullRequest) (tr : list Call) : Prop :=
  answered (on_bool gh) (HasPermission (gc_Org e) (gc_Repo e) (gc_User e) [admin_role]) yes tr ∨
  (∃ team, tm_Slug team ∈ default [] (ov_AllowedGitHubTeams options !! (gc_Org e +:+ "/" +:+ gc_Repo e)) ∧
     answered (on_team_list gh) (ListTeams (gc_Org e)) (λ teams, team ∈ teams) tr ∧
     answered (on_members gh) (ListTeamMembers (tm_ID team) RoleAll) (λ members, gc_User e ∈ members) tr) ∨
  (ov_AllowTopLevelOwners options = true ∧
     answered on_owners (LoadRepoOwners (gc_Org e) (gc_Repo e) (gpr_BaseRef pr))
       (λ owners, gc_User e ∈ default ∅ (TopLevelApprovers owners)) tr).

(** The contexts given in an open pull request's new comment, all of them failed. *)
Definition asked_for (pr : GitHubPullRequest) (overrides : gset string) (statuses : list Status)
    (tr : list Call) : Prop :=
  (gc_IsPR e = true ∧ gc_IssueState e = "open" ∧ gc_Action e = GenericCommentActionCreated ∧
   None ∉ overrideRe (gc_Body e) ∧ (∀ c, c ∈ overrides ↔ Some c ∈ overrideRe (gc_Body e)) ∧
   overrides ⊆ failed_contexts statuses) ∧
  authorized pr tr ∧
  answered (on_pr gh) (GetPullRequest (gc_Org e) (gc_Repo e) (gc_Number e)) (λ p, p = pr) tr ∧
  answered (on_statuses gh) (ListStatuses (gc_Org e) (gc_Repo e) (gpr_HeadSHA pr)) (λ s, s = statuses) tr.

Definition has_base (pr : GitHubPullRequest) (baseSHA : string) (tr : list Call) : Prop :=
  answered (on_name gh) (GetRef (gc_Org e) (gc_Repo e) ("heads/" +:+ gpr_BaseRef pr)) (λ s, s = baseSHA) tr.

Definition configured (pr : GitHubPullRequest) (presubmits : list Presubmit) : Prop :=
  ∃ base, GetPresubmits config (gc_Org e +:+ "/" +:+ gc_Repo e) (λ _, base) [λ _, Ok (gpr_HeadSHA pr)] = Ok presubmits.

(** What is done about a context: its status is set, and a ProwJob recorded if the
    context is that of a presubmit. *)
Definition override_just (tr : list Call) (c : Call) : Prop :=
  ∃ pr overrides statuses status, asked_for pr overrides statuses tr ∧
    status ∈ statuses ∧ s_State status ≠ StatusSuccess ∧ s_Context status ∈ overrides ∧
    match c with
    | CreateStatus org repo ref s =>
        org = gc_Org e ∧ repo = gc_Repo e ∧ ref = gpr_HeadSHA pr ∧ s = override_status e status
    | CreateProwJob pj =>
        ∃ presubmits pre baseSHA tr', configured pr presubmits ∧ pre ∈ presubmits ∧
          ps_Context pre = s_Context status ∧ has_base pr baseSHA tr ∧
          pj = override_job fresh e pr baseSHA pre tr'
    | _ => False
    end.

Notation ok P m := (triple (may_act override_just) P m (λ _ _, True)).

Lemma stable_may_override pr : stable (authorized pr).
Proof. unfold authorized. eauto 8 with prow. Qed.

Lemma stable_asked pr o s : stable (asked_for pr o s).
Proof. unfold asked_for. repeat apply stable_and; try apply stable_may_override; eauto with prow. Qed.

Lemma respond_ok resp P : stable P → triple (may_act override_just) P (respond gh e resp) (λ _, P).
Proof. intros HP. by apply triple_quiet. Qed.

(** A part that is tried keeps what is stable. *)
Lemma tried_ok {A} (f : list Call → result A) q P :
  stable P → action q = false → triple (may_act override_just) P (attempt (ask f q))
    (λ r tr, P tr ∧ match r with Ok a => answered f q (λ x, x = a) tr | Err _ => True end).
Proof.
  intros HP Hq. eapply triple_conseq.
  - apply triple_attempt_result; [exact HP|apply (triple_question P f q HP Hq)].
  - done.
  - intros [a|] tr [Htr Ha]; split; try done. by destruct Ha.
Qed.

Lemma stop_ok resp (done : gset string) P : stable P →
  ok P (let! r := attempt (respond gh e resp) in hret (done, r)).
Proof.
  intros HP. apply (triple_bind _ _ _ _ (λ _, P)).
  - apply triple_attempt; [exact HP|]. eapply triple_conseq; [by apply respond_ok|done|done].
  - intros r. by apply triple_ret.
Qed.

Lemma base_sha_ok pr sha P : stable P →
  triple (may_act override_just) (λ tr, P tr ∧ (sha = "" ∨ has_base pr sha tr))
    (base_sha gh (gc_Org e) (gc_Repo e) pr sha)
    (λ r tr, P tr ∧ match r with Ok base => has_base pr base tr | Err _ => True end).
Proof.
  intros HP. unfold base_sha. case_bool_decide as Hs.
  - apply triple_ret. naive_solver.
  - eapply triple_weaken; [apply (tried_ok (on_name gh) _ P HP); done|]. by intros tr [? _].
Qed.

Lemma override_loop_ok pr presubmits overrides all statuses sha done :
  configured pr presubmits → (∀ s, s ∈ statuses → s ∈ all) →
  ok (λ tr, asked_for pr overrides all tr ∧ (sha = "" ∨ has_base pr sha tr))
    (override_loop gh fresh e pr presubmits overrides statuses sha done).
Proof.
  intros Hc. revert sha done. induction statuses as [|status statuses IH]; intros sha done Hin; [by apply triple_ret|].
  pose proof (stable_asked pr overrides all) as Ha.
  assert (∀ sha, stable (has_base pr sha)) as Hb by (intros; apply stable_answered).
  cbn [override_loop]. destruct (overridden overrides status) eqn:Eo; cbn [negb].
  2: { apply IH. intros. apply Hin. by right. }
  unfold overridden in Eo. apply negb_true_iff, bool_decide_eq_false in Eo.
  assert (status ∈ all ∧ s_State status ≠ StatusSuccess ∧ s_Context status ∈ overrides) as (H1 & H2 & H3).
  { split; [apply Hin; by left|]. destruct (decide (s_Context status ∈ overrides)); tauto. }
  assert (∀ sha, ok (λ tr, asked_for pr overrides all tr ∧ (sha = "" ∨ has_base pr sha tr))
    (let! posted := attempt (ask (on_done gh) (CreateStatus (gc_Org e) (gc_Repo e) (gpr_HeadSHA pr)
                               (override_status e status))) in
     match posted with
     | Err _ => let! r := attempt (respond gh e ("Cannot update PR status for context " +:+ s_Context status)) in
                hret (done, r)
     | Ok _ => override_loop gh fresh e pr presubmits overrides statuses sha ({[s_Context status]} ∪ done)
     end)) as Hset.
  { intros sha'. set (I := λ tr, asked_for pr overrides all tr ∧ (sha' = "" ∨ has_base pr sha' tr)).
    assert (stable I) as HI by (apply stable_and; eauto with prow).
    apply (triple_bind _ _ _ _ (λ _, I)).
    - apply triple_attempt; [exact HI|]. apply triple_ask; [|done]. intros tr [Htr _] _.
      exists pr, overrides, all, status. done.
    - intros []; [apply IH; intros; apply Hin; by right|by apply stop_ok]. }
  destruct (presubmitForContext presubmits (s_Context status)) as [pre|] eqn:Ep; [|apply Hset].
  apply head_Some_elem_of, list_elem_of_filter in Ep as [Ep Hpre].
  eapply triple_bind; [apply (base_sha_ok pr sha _ Ha)|]. intros [base|err]; [|eapply triple_weaken; [by apply (stop_ok _ _ _ Ha)|tauto]].
  eapply triple_bind.
  { apply (triple_look _ _ _ (λ pj tr, (asked_for pr overrides all tr ∧ has_base pr base tr) ∧
      ∃ tr', pj = override_job fresh e pr base pre tr')). intros tr Htr. split; [exact Htr|by exists tr]. }
  intros pj. set (I := λ tr, asked_for pr overrides all tr ∧ has_base pr base tr).
  assert (stable I) as HI by (apply stable_and; eauto with prow).
  apply (triple_bind _ _ _ _ (λ _, I)).
  - eapply triple_conseq; [apply (triple_attempt _ (λ tr, I tr ∧ ∃ tr', pj = override_job fresh e pr base pre tr'))| |].
    + intros tr new [Htr Hpj]. split; [by apply HI|done].
    + apply triple_ask; [|done]. intros tr [[Htr Hbase] (tr' & ->)] _.
      exists pr, overrides, all, status. split_and!; [done..|]. exists presubmits, pre, base, tr'. done.
    + done.
    + by intros a tr [? _].
  - intros []; [|by apply stop_ok]. eapply triple_weaken; [apply Hset|]. intros tr [? ?]. split; [done|by right].
Qed.

Lemma override_presubmits_ok pr P : stable P →
  triple (may_act override_just) P (override_presubmits gh config e pr)
    (λ '(r, sha) tr, P tr ∧ (sha = "" ∨ has_base pr sha tr) ∧
       match r with Ok presubmits => configured pr presubmits | Err _ => True end).
Proof.
  intros HP. unfold override_presubmits.
  apply (triple_bind _ _ _ _ (λ r tr, P tr ∧ match r with Ok base => base = "" ∨ has_base pr base tr | Err _ => True end)).
  - destruct (InRepoConfigEnabled _ _); [|apply triple_ret; naive_solver].
    eapply triple_conseq; [apply (base_sha_ok pr "" P HP)|naive_solver|]. intros [] tr; naive_solver.
  - intros base. apply triple_ret. intros tr [Htr Hb]. split_and!; [done|by destruct base; auto|].
    destruct (GetPresubmits _ _ _ _) as [presubmits|] eqn:Eg; cbn; [by exists base|done].
Qed.

Lemma override_statuses_ok pr overrides statuses :
  ok (asked_for pr overrides statuses) (override_statuses gh fresh config e pr overrides statuses).
Proof.
  pose proof (stable_asked pr overrides statuses) as Ha. unfold override_statuses.
  eapply triple_bind; [by apply override_presubmits_ok|]. intros [[presubmits|err] sha].
  2: { eapply triple_conseq; [by apply (respond_ok _ _ Ha)|by intros tr []|done]. }
  eapply triple_weaken.
  2: { intros tr H'. exact (conj (proj2 (proj2 H')) (conj (proj1 H') (proj1 (proj2 H')))). }
  apply triple_pure. intros Hc. eapply triple_bind; [by apply override_loop_ok|]. intros [done outcome].
  apply (triple_bind _ _ _ _ (λ _ _, True)); [|intros; by apply triple_lift].
  case_bool_decide; [by apply triple_ret|]. apply triple_quiet_zero; [apply stable_const|done].
Qed.

(** Authorization: what it remembers if it is given. *)
Definition in_team (tr : list Call) : Prop :=
  ∃ team, tm_Slug team ∈ default [] (ov_AllowedGitHubTeams options !! (gc_Org e +:+ "/" +:+ gc_Repo e)) ∧
    answered (on_team_list gh) (ListTeams (gc_Org e)) (λ teams, team ∈ teams) tr ∧
    answered (on_members gh) (ListTeamMembers (tm_ID team) RoleAll) (λ members, gc_User e ∈ members) tr.

Lemma stable_in_team : stable in_team.
Proof. unfold in_team. eauto 8 with prow. Qed.

Lemma in_teams_ok all slug teams :
  slug ∈ default [] (ov_AllowedGitHubTeams options !! (gc_Org e +:+ "/" +:+ gc_Repo e)) →
  (∀ t, t ∈ teams → t ∈ all) →
  let P := answered (on_team_list gh) (ListTeams (gc_Org e)) (λ l, l = all) in
  triple (may_act override_just) P (in_teams gh slug (gc_User e) teams) (λ b tr, P tr ∧ (b = true → in_team tr)).
Proof.
  intros Hslug. cbn zeta. set (P := answered (on_team_list gh) _ _).
  assert (stable P) as HP by apply stable_answered.
  induction teams as [|team teams IH]; intros Hin; cbn [in_teams]; [apply triple_ret; naive_solver|].
  assert (∀ t, t ∈ teams → t ∈ all) as Hin' by (intros; apply Hin; by right).
  case_bool_decide as Hs; [|by apply IH].
  eapply triple_bind; [by apply (triple_question_zero P)|]. intros members.
  destruct (bool_decide_reflect (gc_User e ∈ members)) as [Hm|].
  - apply triple_ret. intros tr [Htr Hq]. split; [done|]. intros _. exists team. split_and!; [by rewrite Hs| |].
    + eapply answered_weaken; [exact Htr|]. intros ? ->. apply Hin. by left.
    + destruct Hq as [Hq|[-> _]]; [|by apply not_elem_of_nil in Hm].
      eapply answered_weaken; [exact Hq|]. by intros ? ->.
  - eapply triple_weaken; [by apply IH|]. by intros tr [? _].
Qed.

Lemma in_slugs_ok all slugs :
  (∀ slug, slug ∈ slugs → slug ∈ default [] (ov_AllowedGitHubTeams options !! (gc_Org e +:+ "/" +:+ gc_Repo e))) →
  let P := answered (on_team_list gh) (ListTeams (gc_Org e)) (λ l, l = all) in
  triple (may_act override_just) P (in_slugs gh slugs (gc_User e) all) (λ b tr, P tr ∧ (b = true → in_team tr)).
Proof.
  cbn zeta. induction slugs as [|slug slugs IH]; intros Hin; cbn [in_slugs]; [apply triple_ret; naive_solver|].
  eapply triple_bind; [apply (in_teams_ok all slug all); [apply Hin; by left|done]|]. intros [].
  - apply triple_ret. naive_solver.
  - eapply triple_weaken; [apply IH; intros; apply Hin; by right|]. by intros tr [? _].
Qed.

Lemma authorizedGitHubTeamMember_ok :
  triple (may_act override_just) (λ _, True)
    (authorizedGitHubTeamMember gh options (gc_Org e) (gc_Repo e) (gc_User e)) (λ b tr, b = true → in_team tr).
Proof.
  unfold authorizedGitHubTeamMember. eapply triple_bind; [by apply (tried_ok (on_team_list gh)); [apply stable_const|]|].
  intros [teams|err]; [|by apply triple_ret]. eapply triple_conseq; [by apply in_slugs_ok| |].
  - by intros tr [_ ?].
  - by intros b tr [_ ?].
Qed.

(** The two checks before the pull request is read. *)
Definition early (b : bool) (tr : list Call) : Prop :=
  b = true → answered (on_bool gh) (HasPermission (gc_Org e) (gc_Repo e) (gc_User e) [admin_role]) yes tr ∨ in_team tr.

Lemma stable_early b : stable (early b).
Proof. apply stable_impl, stable_or; [apply stable_answered|apply stable_in_team]. Qed.

Lemma authorizedUser_ok :
  triple (may_act override_just) (λ _, True) (authorizedUser gh (gc_Org e) (gc_Repo e) (gc_User e)) early.
Proof.
  unfold authorizedUser. eapply triple_conseq; [by apply (triple_question_zero (λ _, True)); [apply stable_const|]|done|].
  intros b tr [_ [Hb|[-> _]]] Ht; [|done]. left. eapply answered_weaken; [exact Hb|]. intros ? ->. exact Ht.
Qed.

Lemma authorizedTopLevelOwner_ok pr P : stable P →
  triple (may_act override_just) P (authorizedTopLevelOwner options on_owners (gc_Org e) (gc_Repo e) (gc_User e) pr)
    (λ b tr, P tr ∧ (b = true → authorized pr tr)).
Proof.
  intros HP. unfold authorizedTopLevelOwner. destruct (ov_AllowTopLevelOwners options) eqn:Eo;
    [|apply triple_ret; naive_solver].
  intros tr Htr. unfold or_zero, outcome, hbind, ask. rewrite bind_app. cbn.
  set (q := LoadRepoOwners (gc_Org e) (gc_Repo e) (gpr_BaseRef pr)). exists [q].
  destruct (on_owners (tr ++ [q])) as [owners|err] eqn:Ea; cbn; (split_and!; [done| |]).
  1, 3: intros [|? before] x after Hx Ha; simplify_eq/=; by destruct before.
  - intros b [= <-]. split; [by apply HP|]. intros Hin%bool_decide_eq_true. right. right. split; [done|].
    exists tr, [], owners. done.
  - intros b [= <-]. split; [by apply HP|done].
Qed.

Lemma override_handle_ok : ok (λ _, True) (override_handle gh fresh config options on_owners e).
Proof.
  unfold override_handle.
  destruct (negb (gc_IsPR e)) eqn:Epr; cbn [orb]; [by apply triple_ret|]. apply negb_false_iff in Epr.
  destruct (bool_decide_reflect (gc_IssueState e ≠ "open" ∨ gc_Action e ≠ GenericCommentActionCreated)) as [|Hs]; [by apply triple_ret|].
  assert (gc_IssueState e = "open" ∧ gc_Action e = GenericCommentActionCreated) as [Hstate Hact].
  { destruct (decide (gc_IssueState e = "open")), (decide (gc_Action e = GenericCommentActionCreated)); tauto. }
  destruct (overrideRe (gc_Body e)) as [|m mat'] eqn:Em; [by apply triple_ret|]. rewrite <- Em. clear Em.
  set (mat := overrideRe (gc_Body e)). cbn zeta.
  destruct (bool_decide_reflect (None ∈ mat)) as [|Hnone]; [apply (respond_ok _ (λ _, True)), stable_const|].
  set (overrides := set_of (omap id mat)).
  assert (∀ c, c ∈ overrides ↔ Some c ∈ mat) as Hover.
  { intros c. unfold overrides. rewrite elem_of_set_of, list_elem_of_omap. split; [intros (x & Hx & Ex); cbn in Ex; by subst|by exists (Some c)]. }
  eapply triple_bind; [apply authorizedUser_ok|]. intros admin.
  apply (triple_bind _ _ _ _ early).
  { destruct admin; cbn [negb andb]; [by apply triple_ret|].
    destruct (bool_decide _); [|by apply triple_ret]. eapply triple_conseq; [apply authorizedGitHubTeamMember_ok|done|].
    intros b tr Hb Ht. right. by apply Hb. }
  intros allowed. destruct (negb allowed && negb (ov_AllowTopLevelOwners options)).
  { eapply triple_conseq; [apply (respond_ok _ _ (stable_early allowed))|done|done]. }
  eapply triple_bind; [apply (tried_ok (on_pr gh) _ _ (stable_early allowed)); done|]. intros [pr|err].
  2: { eapply triple_conseq; [apply (respond_ok _ (λ _, True)), stable_const|done|done]. }
  set (P := answered (on_pr gh) (GetPullRequest (gc_Org e) (gc_Repo e) (gc_Number e)) (λ p, p = pr)).
  assert (stable P) as HP by apply stable_answered.
  apply (triple_bind _ _ _ _ (λ b tr, P tr ∧ (b = true → authorized pr tr))).
  { destruct allowed.
    - apply triple_ret. intros tr [He Hp]. split; [exact Hp|]. intros _. destruct (He eq_refl); [by left|right; by left].
    - eapply triple_weaken; [apply (authorizedTopLevelOwner_ok pr P HP)|]. by intros tr [_ ?]. }
  intros []; cbn [negb].
  2: { eapply triple_conseq; [apply (respond_ok _ (λ _, True)), stable_const|done|done]. }
  set (I := λ tr, P tr ∧ (true = true → authorized pr tr)).
  assert (stable I) as HI by (apply stable_and; [done|]; apply stable_impl, stable_may_override).
  eapply triple_bind; [apply (tried_ok (on_statuses gh) _ I HI); done|]. intros [statuses|err].
  2: { eapply triple_conseq; [apply (respond_ok _ (λ _, True)), stable_const|done|done]. }
  destruct (bool_decide_reflect (overrides ∖ failed_contexts statuses ≠ ∅)) as [|Hsub].
  { eapply triple_conseq; [apply (respond_ok _ (λ _, True)), stable_const|done|done]. }
  assert (overrides ⊆ failed_contexts statuses) as Hsub'.
  { intros c Hc. destruct (decide (c ∈ failed_contexts statuses)) as [|Hn]; [done|]. exfalso. apply Hsub.
    intros E. apply (not_elem_of_empty (C := gset string) c). rewrite <- E. by apply elem_of_difference. }
  eapply triple_weaken; [apply override_statuses_ok|]. intros tr [[Hp Ha] Hst]. split_and!; try done. by apply Ha.
Qed.
End spec.

(** ** An override that goes through *)

Section runs.
Context `{GoRange} (gh : GitHub) (fresh : Fresh) (config : Config) (options : Override).
Context (on_owners : list Call → result RepoOwners) (e : GenericCommentEvent).

(** The status a call sets. *)
Definition status_set (c : Call) : option Status :=
  match c with CreateStatus _ _ _ s => Some s | _ => None end.

(** Writes succeed, and the base of the pull request can be read. *)
Definition responsive : Prop :=
  (∀ tr, on_done gh tr = Ok tt) ∧ (∀ tr, ∃ sha, on_name gh tr = Ok sha).

Lemma done_run (tr : list Call) c : responsive → attempt (ask (on_done gh) c) tr = (tr ++ [c], Some (Ok (Ok tt))).
Proof. intros [Hd _]. unfold attempt, outcome, ask. by rewrite Hd. Qed.

Lemma base_sha_run pr sha tr : responsive →
  ∃ new base, base_sha gh (gc_Org e) (gc_Repo e) pr sha tr = (tr ++ new, Some (Ok (Ok base))) ∧
              omap status_set new = [].
Proof.
  intros [_ Hn]. unfold base_sha. case_bool_decide.
  - exists [], sha. by rewrite app_nil_r.
  - set (q := GetRef (gc_Org e) (gc_Repo e) ("heads/" +:+ gpr_BaseRef pr)).
    destruct (Hn (tr ++ [q])) as [s Es]. exists [q], s. unfold attempt, outcome, ask. by rewrite Es.
Qed.

Lemma override_loop_run pr presubmits overrides statuses sha done tr : responsive →
  ∃ new done', override_loop gh fresh e pr presubmits overrides statuses sha done tr =
                 (tr ++ new, Some (Ok (done', Ok tt))) ∧
    omap status_set new = override_status e <$> filter (overridden overrides) statuses.
Proof.
  intros Hr. revert sha done tr. induction statuses as [|status statuses IH]; intros sha done tr.
  { exists [], done. by rewrite app_nil_r. }
  cbn [override_loop filter list_filter]. destruct (overridden overrides status) eqn:Eo; cbn [negb].
  2: { destruct (IH sha done tr) as (new & done' & Hrun & Hs). exists new, done'. by rewrite Hrun. }
  destruct (decide (Is_true true)) as [_|[]]; [|done]. rewrite fmap_cons.
  assert (∀ sha tr, ∃ new done',
    (let! posted := attempt (ask (on_done gh) (CreateStatus (gc_Org e) (gc_Repo e) (gpr_HeadSHA pr) (override_status e status))) in
     match posted with
     | Err _ => let! r := attempt (respond gh e ("Cannot update PR status for context " +:+ s_Context status)) in hret (done, r)
     | Ok _ => override_loop gh fresh e pr presubmits overrides statuses sha ({[s_Context status]} ∪ done)
     end) tr = (tr ++ new, Some (Ok (done', Ok tt))) ∧
    omap status_set new = override_status e status :: (override_status e <$> filter (overridden overrides) statuses)) as Hset.
  { intros sha' tr'. erewrite hbind_ok by (by apply done_run).
    destruct (IH sha' ({[s_Context status]} ∪ done) (tr' ++ [CreateStatus (gc_Org e) (gc_Repo e) (gpr_HeadSHA pr) (override_status e status)]))
      as (new & done' & -> & Hs).
    eexists (_ :: new), done'. rewrite <- (assoc_L (++)). split; [done|]. cbn. f_equal. exact Hs. }
  destruct (presubmitForContext presubmits (s_Context status)) as [pre|]; [|apply Hset].
  destruct (base_sha_run pr sha tr Hr) as (n1 & base & Hb & Hn1). erewrite hbind_ok by exact Hb.
  cbv beta iota. erewrite hbind_ok by done. erewrite hbind_ok by (by apply done_run). cbv beta iota.
  match goal with |- context [(tr ++ n1) ++ [?c]] => destruct (Hset base ((tr ++ n1) ++ [c])) as (new & done' & -> & Hs) end.
  eexists (n1 ++ _ :: new), done'. rewrite <- !(assoc_L (++)). split; [done|].
  rewrite omap_app, Hn1. exact Hs.
Qed.

(** An administrator asks for failed contexts, and nothing goes wrong. *)
Lemma override_handle_run pr statuses overrides :
  responsive → gc_IsPR e = true → gc_IssueState e = "open" → gc_Action e = GenericCommentActionCreated →
  overrideRe (gc_Body e) ≠ [] → None ∉ overrideRe (gc_Body e) →
  (∀ c, c ∈ overrides ↔ Some c ∈ overrideRe (gc_Body e)) → overrides ⊆ failed_contexts statuses →
  (∀ tr, on_bool gh tr = Ok true) → (∀ tr, on_pr gh tr = Ok pr) → (∀ tr, on_statuses gh tr = Ok statuses) →
  (∀ base, ∃ presubmits, GetPresubmits config (gc_Org e +:+ "/" +:+ gc_Repo e) (λ _, Ok base)
                           [λ _, Ok (gpr_HeadSHA pr)] = Ok presubmits) →
  ∃ tr, override_handle gh fresh config options on_owners e [] = (tr, Some (Ok tt)) ∧
    omap status_set tr = override_status e <$> filter (overridden overrides) statuses.
Proof.
  intros Hr Hpr Hst Hac Hne Hnone Hov Hsub Hadmin Hon_pr Hon_st Hpre. unfold override_handle.
  rewrite Hpr. cbn [negb orb]. rewrite (bool_decide_eq_false_2 (_ ∨ _)) by tauto.
  destruct (overrideRe (gc_Body e)) as [|m mat] eqn:Em; [done|]. rewrite <- Em in *. clear Em.
  rewrite (bool_decide_eq_false_2 (None ∈ _)) by done. cbn zeta.
  assert (set_of (omap id (overrideRe (gc_Body e))) = overrides) as ->.
  { apply set_eq. intros c. rewrite elem_of_set_of, list_elem_of_omap, Hov. split; [|by exists (Some c)].
    intros (x & Hx & Ex). cbn in Ex. by subst. }
  erewrite hbind_ok by (unfold authorizedUser, or_zero, outcome, ask; by rewrite Hadmin).
  cbn [negb andb]. erewrite hbind_ok by done. cbn [negb andb].
  erewrite hbind_ok by (apply attempt_run; unfold ask; by rewrite Hon_pr). cbv beta iota.
  erewrite hbind_ok by done. cbn [negb].
  erewrite hbind_ok by (apply attempt_run; unfold ask; by rewrite Hon_st). cbv beta iota.
  rewrite (bool_decide_eq_false_2 (overrides ∖ failed_contexts statuses ≠ ∅)).
  2: { intros Hd. apply Hd. apply (subseteq_empty_difference_L (C := gset string)). done. }
  match goal with |- context [override_statuses _ _ _ _ _ _ _ ?t] => set (tr := t) end.
  assert (omap status_set tr = []) as Htr by done. clearbody tr. unfold override_statuses.
  assert (∃ n1 presubmits sha, override_presubmits gh config e pr tr = (tr ++ n1, Some (Ok (Ok presubmits, sha))) ∧
            omap status_set n1 = []) as (n1 & presubmits & sha & Hrun & Hn1).
  { unfold override_presubmits. destruct (InRepoConfigEnabled _ _).
    - destruct (base_sha_run pr "" tr Hr) as (n1 & base & Hb & Hn1). destruct (Hpre base) as [presubmits Hp].
      exists n1, presubmits, base. erewrite hbind_ok by exact Hb. rewrite Hp. done.
    - destruct (Hpre "") as [presubmits Hp]. exists [], presubmits, "". erewrite hbind_ok by done. rewrite Hp, app_nil_r. done. }
  erewrite hbind_ok by exact Hrun. cbv beta iota.
  destruct (override_loop_run pr presubmits overrides statuses sha ∅ (tr ++ n1) Hr) as (n2 & done' & Hloop & Hn2).
  erewrite hbind_ok by exact Hloop. cbv beta iota.
  assert (∃ n3, (if bool_decide (done' = ∅) then hret tt
      else or_zero tt (respond gh e ("Overrode contexts on behalf of " +:+ gc_User e +:+ ": " +:+
             string_join ", " (set_list done')))) ((tr ++ n1) ++ n2) = (((tr ++ n1) ++ n2) ++ n3, Some (Ok tt)) ∧
      omap status_set n3 = []) as (n3 & Hlast & Hn3).
  { case_bool_decide; [exists []; by rewrite app_nil_r|]. eexists [_].
    unfold or_zero, outcome, respond, ask. by rewrite (proj1 Hr). }
  erewrite hbind_ok by exact Hlast. eexists. split; [done|]. by rewrite !omap_app, Htr, Hn1, Hn2, Hn3, app_nil_r.
Qed.
End runs.

(** C25. A status is set, and a finished ProwJob recorded, only on behalf of someone who
    administers the repository, is in a team allowed to, or is a top level approver where those
    are allowed to; only for contexts of the head of an open pull request that the new comment
    names and that have not succeeded; and to nothing but success with the name of the author.
    ProwJobs are those of configured presubmits of these contexts, at the base as it was read.  If
    an administrator asks for failed contexts only and nothing goes wrong, exactly the statuses of
    these contexts are set, in their order. *)
Theorem override_spec `{GoRange} gh fresh config options on_owners e :
  triple (may_act (override_just gh fresh config options on_owners e)) (λ _, True)
    (override_handle gh fresh config options on_owners e) (λ _ _, True) ∧
  (∀ pr statuses overrides,
     responsive gh → gc_IsPR e = true → gc_IssueState e = "open" → gc_Action e = GenericCommentActionCreated →
     overrideRe (gc_Body e) ≠ [] → None ∉ overrideRe (gc_Body e) →
     (∀ c, c ∈ overrides ↔ Some c ∈ overrideRe (gc_Body e)) → overrides ⊆ failed_contexts statuses →
     (∀ tr, on_bool gh tr = Ok true) → (∀ tr, on_pr gh tr = Ok pr) → (∀ tr, on_statuses gh tr = Ok statuses) →
     (∀ base, ∃ presubmits, GetPresubmits config (gc_Org e +:+ "/" +:+ gc_Repo e) (λ _, Ok base)
                              [λ _, Ok (gpr_HeadSHA pr)] = Ok presubmits) →
     ∃ tr, override_handle gh fresh config options on_owners e [] = (tr, Some (Ok tt)) ∧
       omap status_set tr = override_status e <$> filter (overridden overrides) statuses).
Proof. split; [apply override_handle_ok|apply override_handle_run]. Qed.

(** ** An administrator overrides a test, the only one of three contexts named *)

Module w_override.
Definition statuses : list Status :=
  [mkStatus StatusFailure "target" "failed" "unit"; mkStatus StatusSuccess "" "" "lint";
   mkStatus StatusPending "" "" "e2e"].
Definition hub (admin : bool) : GitHub :=
  let g := w_github [] [] [] in
  with_answers g (λ _, Ok admin) (on_labels g) (on_changes g) (λ _, Ok statuses).
Definition run `{GoRange} (admin : bool) (e : GenericCommentEvent) : list Call :=
  (override_handle (hub admin) w_fresh w_config (mkOverride true ∅) (λ _, Ok sample_owners) e []).1.
Definition comment : GenericCommentEvent := w_comment "Root" (text ["/Override unit  "; "thanks"]).
End w_override.

Lemma override_spec_witness :
  overrideRe (gc_Body w_override.comment) = [Some "unit"] ∧
  ∃ tr, @override_handle listing_order (w_override.hub true) w_fresh w_config (mkOverride true ∅)
          (λ _, Ok sample_owners) w_override.comment [] = (tr, Some (Ok tt)) ∧
    omap status_set tr = [mkStatus StatusSuccess "target" "Overridden by Root" "unit"].
Proof.
  split; [reflexivity|].
  assert ([mkStatus StatusSuccess "target" "Overridden by Root" "unit"] =
          override_status w_override.comment <$> filter (overridden {["unit"]}) w_override.statuses) as -> by reflexivity.
  apply (proj2 (@override_spec listing_order (w_override.hub true) w_fresh w_config (mkOverride true ∅)
                  (λ _, Ok sample_owners) w_override.comment) w_gpr w_override.statuses {["unit"]});
    try reflexivity.
  - split; [done|]. intros tr. cbn. destruct (last tr) as [[]|]; by eexists.
  - discriminate.
  - by intros [[=]|?%not_elem_of_nil]%elem_of_cons.
  - intros c. rewrite elem_of_singleton. change (overrideRe _) with [Some "unit"]. rewrite list_elem_of_singleton. naive_solver.
  - intros c ->%elem_of_singleton. vm_compute. done.
  - intros base. by eexists.
Defined.

(** Top level approvers are kept in lower case, and the author of the comment is compared
    as written: "Root" is not authorized. *)
Example capital_not_authorized :
  omap status_set (@w_override.run listing_order false (w_comment "root" "/override unit")) =
    [mkStatus StatusSuccess "target" "Overridden by root" "unit"] ∧
  omap status_set (@w_override.run listing_order false (w_comment "Root" "/override unit")) = [].
Proof. split; vm_compute; reflexivity. Qed.
