(* ===== verification/LabelSpec.v ===== *)
(** * The labels of an issue, and plugins that keep them

    The labels of an issue as the calls of a handler leave them, for a GitHub that
    answers with them and lets calls succeed; and what it means that a handler brings
    labels into the state it wants, calling only if they are not. *)

From S2P Require Import Prelude Api JobConfig PjUtil GoText Handler GitHub CommentPruner.
#[local] Open Scope go_scope.

(** ** Labels *)

(** Names of labels are compared without case. *)
Definition has_label (label : string) (L : gset string) : bool :=
  bool_decide (set_Exists (λ l, to_lower l = to_lower label) L).
Definition add_label (label : string) (L : gset string) : gset string :=
  if has_label label L then L else {[label]} ∪ L.
Definition remove_label (label : string) (L : gset string) : gset string :=
  filter (λ l, to_lower l ≠ to_lower label) L.
Definition set_label (label : string) (b : bool) (L : gset string) : gset string :=
  if b then add_label label L else remove_label label L.

Lemma has_label_true label L : has_label label L = true ↔ ∃ l, l ∈ L ∧ to_lower l = to_lower label.
Proof. unfold has_label. rewrite bool_decide_eq_true. unfold set_Exists. naive_solver. Qed.

Lemma has_label_false label L : has_label label L = false ↔ ∀ l, l ∈ L → to_lower l ≠ to_lower label.
Proof. rewrite <- not_true_iff_false, has_label_true. naive_solver. Qed.

Lemma HasLabel_ok label l : HasLabel label l = has_label label (set_of l).
Proof.
  apply eq_true_iff_eq. unfold HasLabel. rewrite has_label_true, existsb_exists.
  setoid_rewrite bool_decide_eq_true. setoid_rewrite elem_of_set_of. setoid_rewrite list_elem_of_In. done.
Qed.

Lemma elem_of_remove_label l label L : l ∈ remove_label label L ↔ l ∈ L ∧ to_lower l ≠ to_lower label.
Proof. unfold remove_label. rewrite elem_of_filter. tauto. Qed.

Lemma elem_of_add_label l label L : l ∈ add_label label L ↔ l ∈ L ∨ (l = label ∧ has_label label L = false).
Proof. unfold add_label. destruct (has_label label L); set_solver. Qed.

Lemma has_add_label a b L :
  has_label a (add_label b L) = bool_decide (to_lower a = to_lower b) || has_label a L.
Proof.
  apply eq_true_iff_eq. rewrite orb_true_iff, bool_decide_eq_true, !has_label_true. setoid_rewrite elem_of_add_label.
  split; [naive_solver|]. intros [Hab|(l & Hl & E)]; [|naive_solver].
  destruct (has_label b L) eqn:Eb; [|exists b; naive_solver].
  apply has_label_true in Eb as (l & Hl & E). exists l. split; [by left|congruence].
Qed.

Lemma has_remove_label a b L :
  has_label a (remove_label b L) = negb (bool_decide (to_lower a = to_lower b)) && has_label a L.
Proof.
  apply eq_true_iff_eq. rewrite andb_true_iff, negb_true_iff, bool_decide_eq_false, !has_label_true.
  setoid_rewrite elem_of_remove_label. split.
  - intros (l & [Hl Hb] & Ha). split; [congruence|by exists l].
  - intros [Hab (l & Hl & Ha)]. exists l. split; [split; [done|congruence]|done].
Qed.

Lemma has_set_label a b x L :
  has_label a (set_label b x L) = if bool_decide (to_lower a = to_lower b) then x else has_label a L.
Proof.
  unfold set_label. destruct x; [rewrite has_add_label|rewrite has_remove_label]; by case_bool_decide.
Qed.

(** Nothing changes if the label is as it is wanted. *)
Lemma set_label_id label L : set_label label (has_label label L) L = L.
Proof.
  unfold set_label. destruct (has_label label L) eqn:E; [unfold add_label; by rewrite E|].
  apply set_eq. intros l. rewrite elem_of_remove_label, has_label_false in *. naive_solver.
Qed.

Lemma set_label_change label b L : set_label label b L = L → has_label label L = b.
Proof. intros E. rewrite <- E, has_set_label. by rewrite bool_decide_eq_true_2. Qed.

Lemma set_label_twice label b L : set_label label b (set_label label b L) = set_label label b L.
Proof.
  pose proof (set_label_id label (set_label label b L)) as E.
  by rewrite has_set_label, bool_decide_eq_true_2 in E by done.
Qed.

(** Different labels are set independently. *)
Lemma set_label_comm a b x y L : to_lower a ≠ to_lower b →
  set_label a x (set_label b y L) = set_label b y (set_label a x L).
Proof.
  intros Hab. apply set_eq. intros l. unfold set_label.
  destruct x, y; rewrite ?elem_of_add_label, ?elem_of_remove_label, ?elem_of_add_label, ?elem_of_remove_label,
    ?has_add_label, ?has_remove_label, ?(bool_decide_eq_false_2 (to_lower a = to_lower b)),
    ?(bool_decide_eq_false_2 (to_lower b = to_lower a)) by congruence; cbn; naive_solver congruence.
Qed.

(** Every name of the label is spelled as the label. *)
Definition spelled (label : string) (L : gset string) : Prop :=
  ∀ l, l ∈ L → to_lower l = to_lower label → l = label.

Lemma spelled_has label L : spelled label L → has_label label L = bool_decide (label ∈ L).
Proof.
  intros Hs. apply eq_true_iff_eq. rewrite has_label_true, bool_decide_eq_true. split; [|naive_solver].
  intros (l & Hl & E). by rewrite <- (Hs l Hl E).
Qed.

Lemma spelled_set label a b L : (to_lower a = to_lower label → a = label) → spelled label L → spelled label (set_label a b L).
Proof.
  intros Ha Hs l Hl E. unfold set_label in Hl. destruct b.
  - apply elem_of_add_label in Hl as [Hl|[-> _]]; [by apply Hs|by apply Ha].
  - apply elem_of_remove_label in Hl as [Hl _]. by apply Hs.
Qed.

(** ** What calls do to the labels of an issue *)

Definition issue : Type := string * string * Z.

Definition label_write (c : Call) : option (issue * string) :=
  match c with
  | AddLabel org repo number label | RemoveLabel org repo number label => Some ((org, repo, number), label)
  | _ => None
  end.

Section issue.
Context (gh : GitHub) (at_issue : issue).

Definition label_step (L : gset string) (c : Call) : gset string :=
  match c with
  | AddLabel org repo number label =>
      if bool_decide ((org, repo, number) = at_issue) then add_label label L else L
  | RemoveLabel org repo number label =>
      if bool_decide ((org, repo, number) = at_issue) then remove_label label L else L
  | _ => L
  end.
Definition labels_after (L0 : gset string) (tr : list Call) : gset string := foldl label_step L0 tr.

(** GitHub answers with the labels as they are, and whatever is to be done succeeds. *)
Record faithful (L0 : gset string) : Prop := {
  faithful_labels tr : last tr = Some (GetIssueLabels at_issue.1.1 at_issue.1.2 at_issue.2) →
    ∃ l, on_labels gh tr = Ok l ∧ set_of l = labels_after L0 tr;
  faithful_done tr : on_done gh tr = Ok tt }.

Lemma labels_after_app L0 tr new : labels_after L0 (tr ++ new) = labels_after (labels_after L0 tr) new.
Proof. apply foldl_app. Qed.

Lemma labels_after_nil L : labels_after L [] = L.
Proof. done. Qed.

(** Without writes, labels stay. *)
Lemma labels_after_quiet L new : omap label_write new = [] → labels_after L new = L.
Proof.
  revert L. induction new as [|c new IH]; intros L; [done|]. cbn.
  destruct (label_write c) eqn:Ec; [done|]. intros E. destruct c; cbn in *; try done; by apply IH.
Qed.

(** ** Handlers that bring labels into a state *)

(** The handler [m] leaves the labels as [want] says, and touches only those that it
    [own]s; on labels that are right it makes no call that writes one.  [ok] is what
    it needs of the labels to be so. *)
Class Reconciles (ok : gset string → Prop) (own : string → Prop) (m : H Call unit)
    (want : gset string → gset string) : Prop :=
  reconciles L0 tr : faithful L0 → ok (labels_after L0 tr) →
    ∃ new, m tr = (tr ++ new, Some (Ok tt)) ∧
      labels_after L0 (tr ++ new) = want (labels_after L0 tr) ∧
      (∀ w, w ∈ omap label_write new → w.1 = at_issue ∧ own w.2) ∧
      (want (labels_after L0 tr) = labels_after L0 tr → omap label_write new = []).

(** One label, wanted or not; [exact] if its name is only known as it is spelled. *)
Definition readable (exact : bool) (label : string) (L : gset string) : Prop :=
  if exact then spelled label L else True.
Definition Decides (exact : bool) (label : string) (needed : gset string → bool) (m : H Call unit) : Prop :=
  Reconciles (readable exact label) (λ l, l = label) m (λ L, set_label label (needed L) L).
Definition Drives (exact : bool) (label : string) (needed : bool) : H Call unit → Prop :=
  Decides exact label (λ _, needed).

(** The same, or nothing if there is nothing to do. *)
Definition Idle (m : H Call unit) : Prop := ∀ tr, m tr = (tr, Some (Ok tt)).
Definition Follows (exact : bool) (label : string) (wanted : option bool) (m : H Call unit) : Prop :=
  match wanted with Some needed => Drives exact label needed m | None => Idle m end.

(** Whatever GitHub answers, the handler does not panic and touches only labels that it [own]s. *)
Definition Tame {A} (own : string → Prop) (m : H Call A) : Prop :=
  ∀ tr, ∃ new r, m tr = (tr ++ new, Some r) ∧ ∀ w, w ∈ omap label_write new → w.1 = at_issue ∧ own w.2.

(** Running it again changes nothing, and calls for nothing. *)
Lemma reconciles_twice ok own m want L0 tr tr1 :
  Reconciles ok own m want → (∀ L, ok L → ok (want L)) → (∀ L, ok L → want (want L) = want L) →
  faithful L0 → ok (labels_after L0 tr) → m tr = (tr1, Some (Ok tt)) →
  ∃ new, m tr1 = (tr1 ++ new, Some (Ok tt)) ∧ omap label_write new = [].
Proof.
  intros Hm Hok Hidem Hf HL Hrun. destruct (Hm L0 tr Hf HL) as (n1 & Hrun1 & Hw1 & _).
  rewrite Hrun in Hrun1. injection Hrun1 as ->.
  destruct (Hm L0 (tr ++ n1) Hf) as (n2 & Hrun2 & _ & _ & Hq); [rewrite Hw1; by apply Hok|].
  exists n2. split; [done|]. apply Hq. rewrite Hw1. by apply Hidem.
Qed.

(** One after the other. *)
Lemma reconciles_seq ok1 ok2 own1 own2 m1 m2 want1 want2 :
  Reconciles ok1 own1 m1 want1 → Reconciles ok2 own2 m2 want2 →
  (∀ L, ok1 L → ok2 L → ok2 (want1 L)) →
  (∀ L, ok1 L → ok2 L → want2 (want1 L) = L → want1 L = L ∧ want2 L = L) →
  Reconciles (λ L, ok1 L ∧ ok2 L) (λ l, own1 l ∨ own2 l) (let! _ := m1 in m2) (λ L, want2 (want1 L)).
Proof.
  intros H1 H2 Hok Hquiet L0 tr Hf [HL1 HL2]. destruct (H1 L0 tr Hf HL1) as (n1 & Hr1 & Hw1 & Ho1 & Hq1).
  destruct (H2 L0 (tr ++ n1) Hf) as (n2 & Hr2 & Hw2 & Ho2 & Hq2); [rewrite Hw1; by apply Hok|].
  exists (n1 ++ n2). erewrite hbind_ok by exact Hr1. rewrite (assoc_L (++)). split_and!; [done| | |].
  - by rewrite Hw2, Hw1.
  - intros w. rewrite omap_app. intros [Hw|Hw]%elem_of_app; [destruct (Ho1 w Hw)|destruct (Ho2 w Hw)]; auto.
  - intros E. destruct (Hquiet _ HL1 HL2 E) as [E1 E2]. rewrite omap_app, Hq1, Hq2; [done| |done].
    rewrite Hw1. by rewrite E1.
Qed.

(** Nothing wanted, nothing done. *)
Lemma reconciles_ret own : Reconciles (λ _, True) own (hret tt) id.
Proof.
  intros L0 tr _ _. exists []. rewrite app_nil_r. split_and!; [done..|by intros ? ?%not_elem_of_nil|done].
Qed.
End issue.

(** ** Running a handler against a GitHub that is faithful *)

Lemma faithful_read gh at_issue L0 tr : faithful gh at_issue L0 →
  ∃ l, on_labels gh (tr ++ [GetIssueLabels at_issue.1.1 at_issue.1.2 at_issue.2]) = Ok l ∧
    set_of l = labels_after at_issue L0 tr.
Proof.
  intros Hf. destruct (faithful_labels _ _ _ Hf (tr ++ [GetIssueLabels at_issue.1.1 at_issue.1.2 at_issue.2]))
    as (l & Hl & E); [by rewrite last_snoc|]. exists l. split; [done|]. rewrite E, labels_after_app. done.
Qed.

(** What is done is done, and the calls are those given. *)
Lemma ask_done gh at_issue L0 c tr :
  faithful gh at_issue L0 → ask (on_done gh) c tr = (tr ++ [c], Some (Ok tt)).
Proof. intros Hf. unfold ask. by rewrite (faithful_done _ _ _ Hf). Qed.

Lemma ask_labels gh org repo number L0 tr : faithful gh (org, repo, number) L0 →
  ∃ l, ask (on_labels gh) (GetIssueLabels org repo number) tr =
         (tr ++ [GetIssueLabels org repo number], Some (Ok l)) ∧
    set_of l = labels_after (org, repo, number) L0 tr.
Proof.
  intros Hf. destruct (faithful_read _ _ _ tr Hf) as (l & Hl & E). exists l. split; [|done].
  unfold ask. cbn in Hl. by rewrite Hl.
Qed.

Lemma outcome_run {E A B} (f : result A → result B) (m : H E A) tr tr' r :
  m tr = (tr', Some r) → outcome f m tr = (tr', Some (f r)).
Proof. intros Hm. unfold outcome. by rewrite Hm. Qed.

(** The comments of the bot: pruning ends well and touches no label. *)
Lemma PruneComments_run gh p c tr :
  ∃ new c', PruneComments gh p c tr = (tr ++ new, Some (Ok c')) ∧ omap label_write new = [].
Proof.
  assert (∃ n1 comments, fetch_comments gh c tr = (tr ++ n1, Some (Ok comments)) ∧ omap label_write n1 = [])
    as (n1 & comments & Hf & Hn1).
  { unfold fetch_comments. destruct (ec_comments c) as [comments|].
    - exists [], comments. by rewrite app_nil_r.
    - unfold or_zero, hbind, ask, outcome. rewrite !bind_app. cbn. rewrite bind_app. cbn.
      rewrite <- app_assoc. by eexists [BotName; ListIssueComments (ec_org c) (ec_repo c) (ec_number c)], _. }
  pose proof (prune_spec gh (ec_org c) (ec_repo c) p comments (tr ++ n1)) as Hp.
  destruct (prune_comments _ _ _ _ _ _) as [t o] eqn:Ep. destruct Hp as (-> & remaining & -> & _).
  unfold PruneComments. erewrite hbind_ok by exact Hf. erewrite hbind_ok by exact Ep. unfold hret.
  rewrite <- app_assoc. eexists _, _. split; [done|]. rewrite omap_app, Hn1. cbn.
  clear Ep. induction (filter _ comments) as [|x l IH]; [done|]. cbn. apply IH.
Qed.

(** A handler whose only write is the one that is needed. *)
Definition writes (at_issue : issue) (label : string) (has needed : bool) : list Call :=
  if Bool.eqb has needed then []
  else [(if needed then AddLabel else RemoveLabel) at_issue.1.1 at_issue.1.2 at_issue.2 label].

Lemma label_step_write (at_issue : issue) label needed L :
  label_step at_issue L ((if needed : bool then AddLabel else RemoveLabel) at_issue.1.1 at_issue.1.2 at_issue.2 label) =
  set_label label needed L.
Proof.
  destruct at_issue as [[org repo] number], needed; cbn; rewrite bool_decide_eq_true_2 by done; done.
Qed.

Lemma writes_after (at_issue : issue) label needed L :
  labels_after at_issue L (writes at_issue label (has_label label L) needed) = set_label label needed L.
Proof.
  unfold writes. destruct (Bool.eqb_spec (has_label label L) needed) as [<-|]; [by rewrite set_label_id|].
  apply label_step_write.
Qed.

Lemma label_write_writes (at_issue : issue) label has needed w :
  w ∈ omap label_write (writes at_issue label has needed) → w = (at_issue, label).
Proof.
  unfold writes. destruct at_issue as [[org repo] number], (Bool.eqb has needed), needed; cbn;
    rewrite ?elem_of_nil, ?list_elem_of_singleton; done.
Qed.

Lemma decides_intro gh at_issue exact label needed m :
  (∀ L0 tr, faithful gh at_issue L0 → readable exact label (labels_after at_issue L0 tr) →
    ∃ q1 q2, omap label_write q1 = [] ∧ omap label_write q2 = [] ∧
      m tr = (tr ++ q1 ++ writes at_issue label (has_label label (labels_after at_issue L0 tr))
                           (needed (labels_after at_issue L0 tr)) ++ q2, Some (Ok tt))) →
  Decides gh at_issue exact label needed m.
Proof.
  intros Hm L0 tr Hf HL. destruct (Hm L0 tr Hf HL) as (q1 & q2 & H1 & H2 & Hrun).
  eexists. split; [exact Hrun|]. split_and!.
  - rewrite !labels_after_app, (labels_after_quiet _ _ q1), (labels_after_quiet _ _ q2) by done. apply writes_after.
  - intros w. rewrite !omap_app, H1, H2, app_nil_r. by intros ->%label_write_writes.
  - intros E. rewrite !omap_app, H1, H2, app_nil_r. cbn. unfold writes.
    rewrite (set_label_change _ _ _ E), Bool.eqb_reflx. done.
Qed.

Lemma drives_intro gh at_issue exact label needed m :
  (∀ L0 tr, faithful gh at_issue L0 → readable exact label (labels_after at_issue L0 tr) →
    ∃ q1 q2, omap label_write q1 = [] ∧ omap label_write q2 = [] ∧
      m tr = (tr ++ q1 ++ writes at_issue label (has_label label (labels_after at_issue L0 tr)) needed ++ q2,
              Some (Ok tt))) →
  Drives gh at_issue exact label needed m.
Proof. exact (decides_intro gh at_issue exact label (λ _, needed) m). Qed.

(** The exact comparison, where it is as good. *)
Lemma bool_has label l L : set_of l = L → spelled label L → bool_decide (label ∈ l) = has_label label L.
Proof.
  intros <- Hs. rewrite spelled_has by done. apply bool_decide_ext. by rewrite elem_of_set_of.
Qed.


(** ** Handlers that are tame *)

Section tame.
Context (at_issue : issue) (own : string → Prop).

Lemma tame_outcome {A B} (f : result A → result B) (m : H Call A) :
  Tame at_issue own m → Tame at_issue own (outcome f m).
Proof. intros Hm tr. destruct (Hm tr) as (new & r & Hr & Hw). exists new, (f r). split; [by apply outcome_run|done]. Qed.

Lemma tame_bind {A B} (m : H Call A) (k : A → H Call B) :
  Tame at_issue own m → (∀ a, Tame at_issue own (k a)) → Tame at_issue own (hbind m k).
Proof.
  intros Hm Hk tr. destruct (Hm tr) as (n1 & [a|e] & Hr & Hw).
  - destruct (Hk a (tr ++ n1)) as (n2 & r & Hr2 & Hw2). exists (n1 ++ n2), r.
    erewrite hbind_ok by exact Hr. rewrite Hr2, (assoc_L (++)). split; [done|].
    intros w. rewrite omap_app. intros [?|?]%elem_of_app; auto.
  - exists n1, (Err e). by erewrite hbind_err by exact Hr.
Qed.

Lemma tame_ret {A} (a : A) : Tame at_issue own (hret a).
Proof. intros tr. exists [], (Ok a). rewrite app_nil_r. by split; [|intros ? ?%not_elem_of_nil]. Qed.

Lemma tame_err {A} e : Tame at_issue own (herr (A := A) e).
Proof. intros tr. exists [], (Err e). rewrite app_nil_r. by split; [|intros ? ?%not_elem_of_nil]. Qed.

Lemma tame_look {A} (f : list Call → A) : Tame at_issue own (look f).
Proof. intros tr. exists [], (Ok (f tr)). rewrite app_nil_r. by split; [|intros ? ?%not_elem_of_nil]. Qed.

Lemma tame_ask {A} (f : list Call → result A) c :
  (∀ w, label_write c = Some w → w.1 = at_issue ∧ own w.2) → Tame at_issue own (ask f c).
Proof.
  intros Hc tr. exists [c], (f (tr ++ [c])). split; [done|]. intros w. cbn.
  destruct (label_write c); [|by intros ?%not_elem_of_nil]. rewrite list_elem_of_singleton. intros ->. by apply Hc.
Qed.

Lemma tame_if {A} (b : bool) (m n : H Call A) :
  Tame at_issue own m → Tame at_issue own n → Tame at_issue own (if b then m else n).
Proof. by destruct b. Qed.

Lemma tame_prune gh p c : Tame at_issue own (PruneComments gh p c).
Proof.
  intros tr. destruct (PruneComments_run gh p c tr) as (new & c' & Hr & Hn). exists new, (Ok c').
  split; [done|]. rewrite Hn. by intros ? ?%not_elem_of_nil.
Qed.

Lemma tame_weaken {A} (own' : string → Prop) (m : H Call A) :
  Tame at_issue own' m → (∀ l, own' l → own l) → Tame at_issue own m.
Proof.
  intros Hm Ho tr. destruct (Hm tr) as (new & r & Hr & Hw). exists new, r. split; [done|].
  intros w ?%Hw. naive_solver.
Qed.
End tame.



(** Decomposes a handler up to the calls it makes. *)
Ltac tame :=
  repeat match goal with
    | |- Tame _ _ (hret _) => apply tame_ret
    | |- Tame _ _ (herr _) => apply tame_err
    | |- Tame _ _ (look _) => apply tame_look
    | |- Tame _ _ (PruneComments _ _ _) => apply tame_prune
    | |- Tame _ _ (if _ then _ else _) => apply tame_if
    | |- Tame _ _ (outcome _ _) => apply tame_outcome
    | |- Tame _ _ (or_zero _ _) => apply tame_outcome
    | |- Tame _ _ (with_err _ _) => apply tame_outcome
    | |- Tame _ _ (with_args _ _ _) => apply tame_outcome
    | |- Tame _ _ (attempt _) => apply tame_outcome
    | |- Tame _ _ (hbind _ _) => apply tame_bind; [|intros ?]
    | |- Tame _ _ (ask _ _) => apply tame_ask; intros ? ?; simplify_eq/=; by auto
    end.

(** Plugins for different labels come to the same labels in either order. *)
Lemma drives_comm gh at_issue ea eb a b x y m1 m2 L0 tr :
  Drives gh at_issue ea a x m1 → Drives gh at_issue eb b y m2 → to_lower a ≠ to_lower b →
  faithful gh at_issue L0 → readable ea a (labels_after at_issue L0 tr) → readable eb b (labels_after at_issue L0 tr) →
  ∃ t12 t21, (let! _ := m1 in m2) tr = (t12, Some (Ok tt)) ∧ (let! _ := m2 in m1) tr = (t21, Some (Ok tt)) ∧
    labels_after at_issue L0 t12 = labels_after at_issue L0 t21 ∧
    has_label a (labels_after at_issue L0 t12) = x ∧ has_label b (labels_after at_issue L0 t12) = y.
Proof.
  intros H1 H2 Hab Hf Ha Hb.
  assert (∀ m m' ec ed c d u v, Drives gh at_issue ec c u m → Drives gh at_issue ed d v m' → to_lower c ≠ to_lower d →
    readable ec c (labels_after at_issue L0 tr) → readable ed d (labels_after at_issue L0 tr) →
    ∃ t, (let! _ := m in m') tr = (t, Some (Ok tt)) ∧
      labels_after at_issue L0 t = set_label d v (set_label c u (labels_after at_issue L0 tr))) as Hseq.
  { intros m m' ec ed c d u v Hm Hm' Hcd Hc Hd. destruct (Hm L0 tr Hf Hc) as (n1 & Hr1 & Hw1 & _).
    destruct (Hm' L0 (tr ++ n1) Hf) as (n2 & Hr2 & Hw2 & _).
    { rewrite Hw1. destruct ed; [|done]. by apply spelled_set. }
    eexists. erewrite hbind_ok by exact Hr1. split; [exact Hr2|]. by rewrite Hw2, Hw1. }
  destruct (Hseq m1 m2 ea eb a b x y) as (t12 & Hr & Hl); [done..|].
  destruct (Hseq m2 m1 eb ea b a y x) as (t21 & Hr' & Hl'); [done..|].
  exists t12, t21. split_and!; [done|done| | |]; rewrite Hl, ?Hl'.
  - by rewrite set_label_comm.
  - rewrite !has_set_label. by rewrite bool_decide_eq_false_2, bool_decide_eq_true_2.
  - rewrite has_set_label. by rewrite bool_decide_eq_true_2.
Qed.
