(* ===== verification/LabelPlugins.v ===== *)
(** * Plugins that keep labels (plugins/hold, wip, shrug, stage, lifecycle, docs-no-retest,
    cherrypickunapproved, mergecommitblocker, blockade, require-matching-label,
    external-plugins/needs-rebase)

    Each brings labels of an issue or a pull request into a state that follows from a
    command, the change or the other labels. *)

From S2P Require Import Prelude Api JobConfig PjUtil GoText Handler GitHub CommentPruner Trigger LabelSpec Samples.
#[local] Open Scope go_scope.

(** Labels (labels/labels.go) *)
Definition BlockedPaths : string := "do-not-merge/blocked-paths".
Definition CpApproved : string := "cherry-pick-approved".
Definition CpUnapproved : string := "do-not-merge/cherry-pick-not-approved".
Definition Hold : string := "do-not-merge/hold".
Definition LifecycleActive : string := "lifecycle/active".
Definition LifecycleFrozen : string := "lifecycle/frozen".
Definition LifecycleRotten : string := "lifecycle/rotten".
Definition LifecycleStale : string := "lifecycle/stale".
Definition MergeCommits : string := "do-not-merge/contains-merge-commits".
Definition NeedsRebase : string := "needs-rebase".
Definition Shrug : string := "¯\_(ツ)_/¯".
Definition WorkInProgress : string := "do-not-merge/work-in-progress".

Definition PullRequestActionUnlabeled : string := "unlabeled".
Definition PullRequestActionReadyForReview : string := "ready_for_review".

(** ** Regular expressions *)

(** The text from the start of each line on. *)
Fixpoint after_newlines (s : string) : list string :=
  match s with
  | EmptyString => []
  | String c s => if bool_decide (c = "010"%char) then s :: after_newlines s else after_newlines s
  end.
Definition line_starts (s : string) : list string := s :: after_newlines s.

(** A command and nothing else on a line, with the flag [(?i)]. *)
Definition line_is (command line : string) : bool :=
  match trim_prefix_fold command line with Some rest => all_space rest | None => false end.
Definition has_line (command body : string) : bool := existsb (line_is command) (lines body).

(** One rune that is not of a word; the long s and the Kelvin sign fold to letters. *)
Definition word_byte (c : ascii) : bool :=
  let n := Ascii.nat_of_ascii c in
  bool_decide (48 ≤ n ≤ 57 ∨ 65 ≤ n ≤ 90 ∨ 97 ≤ n ≤ 122 ∨ n = 95).
Definition non_word (s : string) : option string :=
  match s with
  | EmptyString => None
  | String c _ =>
      if word_byte c || bool_decide (is_Some (trim_prefix_go (bytes [197; 191]) s)) ||
         bool_decide (is_Some (trim_prefix_go (bytes [226; 132; 170]) s)) then None else skip_rune s
  end.

(** ** Hold *)

(** [(?mi)^/hold(\s.<any>)?$] *)
Definition hold_re (body : string) : bool :=
  existsb (λ line, match trim_prefix_fold "/hold" line with Some rest => eol_or_space rest | None => false end)
    (lines body).

(** [(?mi)^/(hold\s+cancel|unhold)\s<any>$]: space may reach over lines. *)
Definition hold_cancel_at (s : string) : bool :=
  match trim_prefix_fold "/hold" s with
  | None => false
  | Some rest =>
      let '(space, rest) := span is_space rest in
      negb (bool_decide (space = "")) && line_is "cancel" (first_line rest)
  end.
Definition hold_cancel_re (body : string) : bool :=
  existsb hold_cancel_at (line_starts body) || has_line "/unhold" body.

Section plugins.
Context (gh : GitHub).

Definition hold_handle (e : GenericCommentEvent) : H Call unit :=
  if bool_decide (gc_Action e ≠ GenericCommentActionCreated) then hret tt
  else if negb (hold_cancel_re (gc_Body e)) && negb (hold_re (gc_Body e)) then hret tt
  else
    let needsLabel := negb (hold_cancel_re (gc_Body e)) in
    let org := gc_Org e in
    let repo := gc_Repo e in
    let! issueLabels := with_args "failed to get the labels on %s/%s#%d: %v" [AStr org; AStr repo; AInt (gc_Number e)]
                          (ask (on_labels gh) (GetIssueLabels org repo (gc_Number e))) in
    let hasLabel := HasLabel Hold issueLabels in
    if hasLabel && negb needsLabel then ask (on_done gh) (RemoveLabel org repo (gc_Number e) Hold)
    else if negb hasLabel && needsLabel then ask (on_done gh) (AddLabel org repo (gc_Number e) Hold)
    else hret tt.

(** ** Work in progress *)

(** [(?i)^\W?WIP\W] *)
Definition wip_here (s : string) : bool :=
  match trim_prefix_fold "WIP" s with Some rest => bool_decide (is_Some (non_word rest)) | None => false end.
Definition wip_title (title : string) : bool :=
  wip_here title || match non_word title with Some rest => wip_here rest | None => false end.

(** [handle] of the plugin *)
Definition wip_label (org repo : string) (number : Z) (title : string) (draft hasLabel : bool) : H Call unit :=
  let needsLabel := draft || wip_title title in
  if needsLabel && negb hasLabel then ask (on_done gh) (AddLabel org repo number WorkInProgress)
  else if negb needsLabel && hasLabel then ask (on_done gh) (RemoveLabel org repo number WorkInProgress)
  else hret tt.

Definition wip_handlePullRequest (pe : PullRequestEvent) : H Call unit :=
  if bool_decide (pe_Action pe ∉ [PullRequestActionOpened; PullRequestActionReopened; PullRequestActionEdited;
                                  PullRequestActionReadyForReview]) then hret tt
  else
    let pr := pe_PullRequest pe in
    let org := gpr_BaseRepoOwner pr in
    let repo := gpr_BaseRepoName pr in
    let! currentLabels := with_args "could not get labels for PR %s/%s:%d in WIP plugin: %v"
                            [AStr org; AStr repo; AInt (gpr_Number pr)]
                            (ask (on_labels gh) (GetIssueLabels org repo (gpr_Number pr))) in
    wip_label org repo (gpr_Number pr) (gpr_Title pr) (gpr_Draft pr) (bool_decide (WorkInProgress ∈ currentLabels)).

(** ** Shrug *)

(** If the labels cannot be read, there are none. *)
Definition shrug_handle (e : GenericCommentEvent) : H Call unit :=
  if bool_decide (gc_Action e ≠ GenericCommentActionCreated) then hret tt
  else if negb (has_line "/shrug" (gc_Body e)) && negb (has_line "/unshrug" (gc_Body e)) then hret tt
  else
    let wantShrug := has_line "/shrug" (gc_Body e) in
    let org := gc_Org e in
    let repo := gc_Repo e in
    let! issueLabels := or_zero [] (ask (on_labels gh) (GetIssueLabels org repo (gc_Number e))) in
    let hasShrug := bool_decide (Shrug ∈ issueLabels) in
    if hasShrug && negb wantShrug then
      let! _ := with_args "failed to comment on %s/%s#%d: %v" [AStr org; AStr repo; AInt (gc_Number e)]
        (ask (on_done gh) (CreateComment org repo (gc_Number e)
           (FormatResponseRaw (gc_Body e) (gc_HTMLURL e) (gc_User e) "¯\\\_(ツ)\_/¯"))) in
      ask (on_done gh) (RemoveLabel org repo (gc_Number e) Shrug)
    else if negb hasShrug && wantShrug then ask (on_done gh) (AddLabel org repo (gc_Number e) Shrug)
    else hret tt.

(** ** Stage and lifecycle: one label of a family *)

(** A command: whether it removes, and the member as written. *)
Definition family_line (name : string) (members : list string) (line : string) : option (bool * string) :=
  let after (prefix : string) :=
    rest ← trim_prefix_fold (prefix +:+ name +:+ " ") line;
    head (omap (λ m,
      rest' ← trim_prefix_fold m rest;
      if all_space rest' then Some (String.substring 0 (String.length rest - String.length rest') rest) else None) members) in
  match after "/remove-" with
  | Some m => Some (true, m)
  | None => pair false <$> after "/"
  end.
Definition family_re (name : string) (members : list string) (body : string) : list (bool * string) :=
  omap (family_line name members) (lines body).

(** Those of the family that are set, but for [lbl]; errors are only logged. *)
Fixpoint remove_others (org repo : string) (number : Z) (lbl : string) (current family : list string) : H Call unit :=
  match family with
  | [] => hret tt
  | label :: family =>
      let! _ := (if bool_decide (label ≠ lbl) && HasLabel label current
                 then or_zero tt (ask (on_done gh) (RemoveLabel org repo number label)) else hret tt) in
      remove_others org repo number lbl current family
  end.

(** [handleOne] *)
Definition family_one (name : string) (family : list string) (e : GenericCommentEvent) (mat : bool * string)
    : H Call unit :=
  let '(remove, cmd) := mat in
  let lbl := name +:+ "/" +:+ cmd in
  let org := gc_Org e in
  let repo := gc_Repo e in
  let! current := or_zero [] (ask (on_labels gh) (GetIssueLabels org repo (gc_Number e))) in
  if HasLabel lbl current && remove then ask (on_done gh) (RemoveLabel org repo (gc_Number e) lbl)
  else if negb (HasLabel lbl current) && negb remove then
    let! _ := remove_others org repo (gc_Number e) lbl current family in
    or_zero tt (ask (on_done gh) (AddLabel org repo (gc_Number e) lbl))
  else hret tt.

Fixpoint family_all (name : string) (family : list string) (e : GenericCommentEvent) (mats : list (bool * string))
    : H Call unit :=
  match mats with
  | [] => hret tt
  | mat :: mats => let! _ := family_one name family e mat in family_all name family e mats
  end.

Definition stages : list string := ["alpha"; "beta"; "stable"].
Definition stageLabels : list string := ["stage/alpha"; "stage/beta"; "stage/stable"].
Definition stage_handle (e : GenericCommentEvent) : H Call unit :=
  if bool_decide (gc_Action e ≠ GenericCommentActionCreated) then hret tt
  else family_all "stage" stageLabels e (family_re "stage" stages (gc_Body e)).

Definition lifecycles : list string := ["active"; "frozen"; "stale"; "rotten"].
Definition lifecycleLabels : list string := [LifecycleActive; LifecycleFrozen; LifecycleStale; LifecycleRotten].
Definition lifecycle_handle (e : GenericCommentEvent) : H Call unit :=
  if bool_decide (gc_Action e ≠ GenericCommentActionCreated) then hret tt
  else family_all "lifecycle" lifecycleLabels e (family_re "lifecycle" lifecycles (gc_Body e)).

(** ** Changes of documentation only *)

Definition labelSkipRetest : string := "retest-not-required-docs-only".

(** [path.Split]: what follows the last slash. *)
Definition basename (file : string) : string := default "" (last (split_char "/" file)).
(** A name that the expressions match ends in one of the extensions, and has no line break. *)
Definition has_suffix (suffix s : string) : bool := bool_decide (is_Some (trim_suffix_go suffix s)).
Definition docs_file (file : string) : bool :=
  let base := basename file in
  (existsb (λ ext, has_suffix ext base) [".md"; ".png"; ".svg"; ".dia"] && negb (contains_char "010" base)) ||
  bool_decide (base ∈ ["OWNERS"; "LICENSE"; "SECURITY_CONTACTS"; "OWNERS_ALIASES"]).

Definition docs_handlePR (pe : PullRequestEvent) : H Call unit :=
  let pr := pe_PullRequest pe in
  let owner := gpr_BaseRepoOwner pr in
  let repo := gpr_BaseRepoName pr in
  let num := gpr_Number pr in
  if bool_decide (pe_Action pe ∉ [PullRequestActionOpened; PullRequestActionReopened; PullRequestActionSynchronize])
  then hret tt
  else
    let! changes := with_err "cannot get pull request changes for docs-no-retest plugin: %v"
                      (ask (on_changes gh) (GetPullRequestChanges owner repo num)) in
    let docsOnly := forallb (λ change, docs_file (ch_Filename change)) changes in
    let! labels := with_err "cannot get labels for docs-no-retest plugin: %v"
                     (ask (on_labels gh) (GetIssueLabels owner repo num)) in
    let hasTargetLabel := bool_decide (labelSkipRetest ∈ labels) in
    if docsOnly && negb hasTargetLabel then
      with_args "error adding label to %s/%s#%d: %v" [AStr owner; AStr repo; AInt num]
        (ask (on_done gh) (AddLabel owner repo num labelSkipRetest))
    else if negb docsOnly && hasTargetLabel then
      with_args "error removing label from %s/%s#%d: %v" [AStr owner; AStr repo; AInt num]
        (ask (on_done gh) (RemoveLabel owner repo num labelSkipRetest))
    else hret tt.
End plugins.

(** ** The label that follows *)

(** What an event wants of the label; [None] if the plugin has nothing to do. *)
Definition hold_wanted (e : GenericCommentEvent) : option bool :=
  if bool_decide (gc_Action e ≠ GenericCommentActionCreated) then None
  else if hold_cancel_re (gc_Body e) then Some false
  else if hold_re (gc_Body e) then Some true else None.
Definition wip_wanted (pe : PullRequestEvent) : option bool :=
  if bool_decide (pe_Action pe ∈ [PullRequestActionOpened; PullRequestActionReopened; PullRequestActionEdited;
                                  PullRequestActionReadyForReview])
  then Some (gpr_Draft (pe_PullRequest pe) || wip_title (gpr_Title (pe_PullRequest pe))) else None.
Definition shrug_wanted (e : GenericCommentEvent) : option bool :=
  if bool_decide (gc_Action e ≠ GenericCommentActionCreated) then None
  else if has_line "/shrug" (gc_Body e) then Some true
  else if has_line "/unshrug" (gc_Body e) then Some false else None.
Definition docs_wanted (pe : PullRequestEvent) (changes : list PullRequestChange) : option bool :=
  if bool_decide (pe_Action pe ∈ [PullRequestActionOpened; PullRequestActionReopened; PullRequestActionSynchronize])
  then Some (forallb (λ change, docs_file (ch_Filename change)) changes) else None.

Definition comment_issue (e : GenericCommentEvent) : issue := (gc_Org e, gc_Repo e, gc_Number e).
Definition pr_issue (pe : PullRequestEvent) : issue :=
  (gpr_BaseRepoOwner (pe_PullRequest pe), gpr_BaseRepoName (pe_PullRequest pe), gpr_Number (pe_PullRequest pe)).

Section follows.
Context (gh : GitHub).

Lemma hold_drives e b :
  gc_Action e = GenericCommentActionCreated → negb (hold_cancel_re (gc_Body e)) && negb (hold_re (gc_Body e)) = false →
  b = negb (hold_cancel_re (gc_Body e)) → Drives gh (comment_issue e) false Hold b (hold_handle gh e).
Proof.
  intros Ha Hre ->. apply drives_intro. intros L0 tr Hf _. unfold hold_handle.
  rewrite bool_decide_eq_false_2 by (intros Hn; by apply Hn). rewrite Hre. cbv zeta.
  destruct (ask_labels gh _ _ _ _ tr Hf) as (l & Hl & El).
  unfold with_args. erewrite hbind_ok by (erewrite outcome_run by exact Hl; done). cbv beta.
  rewrite HasLabel_ok, El. exists [GetIssueLabels (gc_Org e) (gc_Repo e) (gc_Number e)], [].
  split_and!; [done|done|].
  destruct (has_label _ _), (hold_cancel_re (gc_Body e)); cbn -[ask]; erewrite ?ask_done by exact Hf;
    rewrite <- ?(assoc_L (++)); done.
Qed.

Lemma hold_follows e : Follows gh (comment_issue e) false Hold (hold_wanted e) (hold_handle gh e).
Proof.
  unfold Follows, hold_wanted. case_bool_decide as Ha.
  { unfold hold_handle. by rewrite bool_decide_eq_true_2. }
  destruct (hold_cancel_re (gc_Body e)) eqn:Ec; [|destruct (hold_re (gc_Body e)) eqn:Eh].
  - apply hold_drives; [done| |]; by rewrite Ec.
  - apply hold_drives; [done| |]; by rewrite Ec, ?Eh.
  - unfold hold_handle. rewrite bool_decide_eq_false_2 by (intros Hn; by apply Hn). by rewrite Ec, Eh.
Qed.
Lemma hold_tame e : Tame (comment_issue e) (λ l, l = Hold) (hold_handle gh e).
Proof. unfold hold_handle. cbv zeta. tame. Qed.

Lemma wip_tame pe : Tame (pr_issue pe) (λ l, l = WorkInProgress) (wip_handlePullRequest gh pe).
Proof. unfold wip_handlePullRequest, wip_label. cbv zeta. tame. Qed.

Lemma shrug_tame e : Tame (comment_issue e) (λ l, l = Shrug) (shrug_handle gh e).
Proof. unfold shrug_handle, with_args. cbv zeta. tame. Qed.

Lemma docs_tame pe : Tame (pr_issue pe) (λ l, l = labelSkipRetest) (docs_handlePR gh pe).
Proof. unfold docs_handlePR. cbv zeta. tame. Qed.

Lemma wip_follows pe :
  Follows gh (pr_issue pe) true WorkInProgress (wip_wanted pe) (wip_handlePullRequest gh pe).
Proof.
  unfold Follows, wip_wanted, wip_handlePullRequest. case_bool_decide as Ha; cycle 1.
  { by rewrite bool_decide_eq_true_2. }
  apply drives_intro. intros L0 tr Hf Hs. rewrite bool_decide_eq_false_2 by (intros Hn; by apply Hn).
  destruct (ask_labels gh _ _ _ _ tr Hf) as (l & Hl & El).
  unfold with_args. erewrite hbind_ok by (erewrite outcome_run by exact Hl; done). cbv beta zeta.
  rewrite (bool_has _ _ _ El Hs). eexists [GetIssueLabels _ _ _], []. unfold wip_label.
  split_and!; [done|done|].
  destruct (has_label _ _), (gpr_Draft _ || _); cbn -[ask]; erewrite ?ask_done by exact Hf;
    rewrite <- ?(assoc_L (++)); done.
Qed.

Lemma shrug_drives e b :
  gc_Action e = GenericCommentActionCreated →
  negb (has_line "/shrug" (gc_Body e)) && negb (has_line "/unshrug" (gc_Body e)) = false →
  b = has_line "/shrug" (gc_Body e) → Drives gh (comment_issue e) true Shrug b (shrug_handle gh e).
Proof.
  intros Ha Hre ->. apply drives_intro. intros L0 tr Hf Hs. unfold shrug_handle.
  rewrite bool_decide_eq_false_2 by (intros Hn; by apply Hn). rewrite Hre. cbv zeta.
  destruct (ask_labels gh _ _ _ _ tr Hf) as (l & Hl & El).
  unfold or_zero. erewrite hbind_ok by (erewrite outcome_run by exact Hl; done). cbv beta.
  rewrite (bool_has _ _ _ El Hs).
  destruct (has_label _ _), (has_line "/shrug" (gc_Body e)); cbn -[ask FormatResponseRaw];
    try (unfold with_args; erewrite hbind_ok by (erewrite outcome_run by (by eapply ask_done); done); cbv beta);
    erewrite ?ask_done by exact Hf; rewrite <- ?(assoc_L (++)).
  1, 3, 4: by eexists [GetIssueLabels _ _ _], [].
  eexists [GetIssueLabels _ _ _; CreateComment _ _ _ _], []. done.
Qed.

Lemma shrug_follows e : Follows gh (comment_issue e) true Shrug (shrug_wanted e) (shrug_handle gh e).
Proof.
  unfold Follows, shrug_wanted. case_bool_decide as Ha.
  { unfold shrug_handle. by rewrite bool_decide_eq_true_2. }
  destruct (has_line "/shrug" (gc_Body e)) eqn:Ec; [|destruct (has_line "/unshrug" (gc_Body e)) eqn:Eh].
  - apply shrug_drives; [done| |]; by rewrite Ec.
  - apply shrug_drives; [done| |]; by rewrite Ec, ?Eh.
  - unfold shrug_handle. rewrite bool_decide_eq_false_2 by (intros Hn; by apply Hn). by rewrite Ec, Eh.
Qed.

(** [GetPullRequestChanges] answers with [changes]. *)
Definition changed (at_issue : issue) (changes : list PullRequestChange) : Prop :=
  ∀ tr, on_changes gh (tr ++ [GetPullRequestChanges at_issue.1.1 at_issue.1.2 at_issue.2]) = Ok changes.

Lemma ask_changes org repo number changes tr : changed (org, repo, number) changes →
  ask (on_changes gh) (GetPullRequestChanges org repo number) tr =
    (tr ++ [GetPullRequestChanges org repo number], Some (Ok changes)).
Proof. intros Hc. specialize (Hc tr). cbn in Hc. unfold ask. by rewrite Hc. Qed.

Lemma docs_follows pe changes : changed (pr_issue pe) changes →
  Follows gh (pr_issue pe) true labelSkipRetest (docs_wanted pe changes) (docs_handlePR gh pe).
Proof.
  intros Hc. unfold Follows, docs_wanted, docs_handlePR. case_bool_decide as Ha; cycle 1.
  { by rewrite bool_decide_eq_true_2. }
  apply drives_intro. intros L0 tr Hf Hs. rewrite bool_decide_eq_false_2 by (intros Hn; by apply Hn). cbv zeta.
  unfold with_err. erewrite hbind_ok by (erewrite outcome_run by (by apply ask_changes); done). cbv beta.
  edestruct (ask_labels gh) as (l & Hl & El); [exact Hf|].
  erewrite hbind_ok by (erewrite outcome_run by exact Hl; done). cbv beta.
  rewrite labels_after_app in El. cbn in El.
  rewrite (bool_has _ _ _ El Hs). eexists [GetPullRequestChanges _ _ _; GetIssueLabels _ _ _], [].
  split_and!; [done|done|].
  destruct (has_label _ _), (forallb _ _); cbn -[ask]; unfold with_args;
    try (erewrite outcome_run by (by eapply ask_done)); rewrite <- ?(assoc_L (++)); done.
Qed.
End follows.

(** ** One label of a family *)

Definition clear_family (family : list string) (L : gset string) : gset string :=
  filter (λ l, to_lower l ∉ to_lower <$> family) L.

(** What a command does to the labels: a label that is set is left alone, and the rest of its family with it. *)
Definition family_step (name : string) (family : list string) (L : gset string) (mat : bool * string) : gset string :=
  let lbl := name +:+ "/" +:+ mat.2 in
  if mat.1 then remove_label lbl L
  else if has_label lbl L then L else add_label lbl (clear_family family L).
Definition family_after (name : string) (family : list string) (mats : list (bool * string)) (L : gset string)
    : gset string := foldl (family_step name family) L mats.

(** At most one label of the family, up to case. *)
Definition at_most_one (family : list string) (L : gset string) : Prop :=
  ∀ a b, a ∈ family → b ∈ family → has_label a L = true → has_label b L = true → to_lower a = to_lower b.

Lemma has_clear_family label family L :
  has_label label (clear_family family L) = bool_decide (to_lower label ∉ to_lower <$> family) && has_label label L.
Proof.
  apply eq_true_iff_eq. unfold clear_family. rewrite andb_true_iff, bool_decide_eq_true, !has_label_true.
  setoid_rewrite elem_of_filter. split.
  - intros (l & [Hf Hl] & E). rewrite <- E. naive_solver.
  - intros [Hf (l & Hl & E)]. exists l. by rewrite E.
Qed.

Lemma family_step_one name family L mat : at_most_one family L → at_most_one family (family_step name family L mat).
Proof.
  intros H1 a b Ha Hb. unfold family_step.
  destruct (mat.1); [rewrite !has_remove_label, !andb_true_iff; intros [_ ?] [_ ?]; by apply H1|].
  destruct (has_label _ L); [by apply H1|]. rewrite !has_add_label, !has_clear_family.
  rewrite !(bool_decide_eq_false_2 (_ ∉ _)) by (intros Hn; apply Hn; by apply list_elem_of_fmap_2).
  rewrite !andb_false_l, !orb_false_r, !bool_decide_eq_true. congruence.
Qed.

Lemma family_after_one name family mats L : at_most_one family L → at_most_one family (family_after name family mats L).
Proof.
  unfold family_after. revert L. induction mats as [|mat mats IH]; intros L HL; [done|].
  by apply IH, family_step_one.
Qed.

(** Removing the others one by one removes those that are there. *)
Lemma remove_others_run gh org repo number lbl current family L0 L tr :
  faithful gh (org, repo, number) L0 → labels_after (org, repo, number) L0 tr = L →
  has_label lbl (set_of current) = false → (∀ a, has_label a L = true → has_label a (set_of current) = true) →
  ∃ new, remove_others gh org repo number lbl current family tr = (tr ++ new, Some (Ok tt)) ∧
    labels_after (org, repo, number) L0 (tr ++ new) = clear_family family L ∧
    (∀ w, w ∈ omap label_write new → w.1 = (org, repo, number) ∧ w.2 ∈ family).
Proof.
  intros Hf. revert L tr. induction family as [|label family IH]; intros L tr HL Hlbl Hcur; cbn [remove_others].
  { exists []. rewrite app_nil_r. split_and!; [done| |by intros ? ?%not_elem_of_nil].
    rewrite HL. apply set_eq. intros l. unfold clear_family. rewrite elem_of_filter. cbn.
    split; [intros ?; split; [apply not_elem_of_nil|done]|by intros []]. }
  assert (∀ L, clear_family (label :: family) L = clear_family family (remove_label label L)) as Hclear.
  { intros L1. apply set_eq. intros l. unfold clear_family. rewrite !elem_of_filter, elem_of_remove_label. cbn.
    rewrite not_elem_of_cons. tauto. }
  destruct (bool_decide (label ≠ lbl) && HasLabel label current) eqn:E.
  - assert (labels_after (org, repo, number) L0 (tr ++ [RemoveLabel org repo number label]) = remove_label label L) as E1.
    { rewrite labels_after_app, HL. cbn. by rewrite bool_decide_eq_true_2. }
    destruct (IH (remove_label label L) (tr ++ [RemoveLabel org repo number label])) as (new & Hrun & Hafter & Hown);
      [done..| |].
    { intros a. rewrite has_remove_label. intros [_ ?]%andb_true_iff. by apply Hcur. }
    exists (RemoveLabel org repo number label :: new). unfold or_zero at 1.
    erewrite hbind_ok by (erewrite outcome_run by (by eapply ask_done); done). cbv beta.
    rewrite Hrun, Hclear, <- Hafter, <- (assoc_L (++)). split_and!; [done..|].
    intros w. cbn. intros [->|Hw]%elem_of_cons; [split; [done|left]|]. destruct (Hown w Hw). split; [done|by right].
  - assert (has_label label L = false) as Hno.
    { destruct (has_label label L) eqn:Eh; [|done]. apply Hcur in Eh as Eh'. rewrite HasLabel_ok, Eh', andb_true_r in E.
      apply bool_decide_eq_false in E. exfalso. apply E. intros ->. congruence. }
    assert (remove_label label L = L) as Hsame.
    { pose proof (set_label_id label L) as Hid. by rewrite Hno in Hid. }
    destruct (IH L tr) as (new & Hrun & Hafter & Hown); [done..|].
    exists new. unfold hbind at 1. rewrite bind_app. cbn -[remove_others]. rewrite Hrun, Hafter, Hclear, Hsame.
    split_and!; [done..|]. intros w Hw. destruct (Hown w Hw). split; [done|by right].
Qed.

Lemma family_one_run gh name family e mat L0 tr :
  faithful gh (comment_issue e) L0 →
  ∃ new, family_one gh name family e mat tr = (tr ++ new, Some (Ok tt)) ∧
    labels_after (comment_issue e) L0 (tr ++ new) =
      family_step name family (labels_after (comment_issue e) L0 tr) mat ∧
    (∀ w, w ∈ omap label_write new → w.1 = comment_issue e ∧ (w.2 ∈ family ∨ w.2 = name +:+ "/" +:+ mat.2)).
Proof.
  intros Hf. destruct mat as [remove cmd]. unfold family_one, family_step. cbn [fst snd]. cbv zeta.
  set (lbl := name +:+ "/" +:+ cmd). destruct (ask_labels gh _ _ _ _ tr Hf) as (l & Hl & El).
  unfold or_zero at 1. erewrite hbind_ok by (erewrite outcome_run by exact Hl; done). cbv beta.
  fold (comment_issue e) in El. rewrite HasLabel_ok, El. set (get := GetIssueLabels (gc_Org e) (gc_Repo e) (gc_Number e)).
  set (L := labels_after (comment_issue e) L0 tr).
  assert (labels_after (comment_issue e) L0 (tr ++ [get]) = L) as EL by (by rewrite labels_after_app).
  destruct (has_label lbl L) eqn:Eh, remove; cbn [andb negb].
  - exists [get; RemoveLabel (gc_Org e) (gc_Repo e) (gc_Number e) lbl].
    rewrite (ask_done gh _ L0) by exact Hf. rewrite <- (assoc_L (++)). split_and!; [done| |].
    + rewrite labels_after_app. fold L. cbn. by rewrite bool_decide_eq_true_2.
    + intros w. cbn. rewrite list_elem_of_singleton. intros ->. by split; [|right].
  - exists [get]. split_and!; [done|done|by intros ? ?%not_elem_of_nil].
  - exists [get]. split_and!; [done| |by intros ? ?%not_elem_of_nil].
    rewrite EL. pose proof (set_label_id lbl L) as Hid. by rewrite Eh in Hid.
  - destruct (remove_others_run gh (gc_Org e) (gc_Repo e) (gc_Number e) lbl l family L0 L (tr ++ [get]))
      as (new & Hrun & Hafter & Hown); [done|done|by rewrite El|by intros a; rewrite El|].
    fold (comment_issue e) in Hafter.
    erewrite hbind_ok by exact Hrun. cbv beta. unfold or_zero.
    erewrite outcome_run by (by eapply ask_done).
    exists (get :: new ++ [AddLabel (gc_Org e) (gc_Repo e) (gc_Number e) lbl]).
    assert ((tr ++ [get]) ++ new ++ [AddLabel (gc_Org e) (gc_Repo e) (gc_Number e) lbl] =
            tr ++ get :: new ++ [AddLabel (gc_Org e) (gc_Repo e) (gc_Number e) lbl]) as E3
      by (by rewrite <- (assoc_L (++))).
    rewrite <- E3, (assoc_L (++)). split_and!; [done| |].
    + rewrite labels_after_app, Hafter. cbn. by rewrite bool_decide_eq_true_2.
    + intros w. cbn. rewrite omap_app. intros [Hw|Hw]%elem_of_app.
      * destruct (Hown w Hw). auto.
      * cbn in Hw. apply list_elem_of_singleton in Hw as ->. auto.
Qed.

Lemma family_all_run gh name family e mats L0 tr :
  faithful gh (comment_issue e) L0 →
  ∃ new, family_all gh name family e mats tr = (tr ++ new, Some (Ok tt)) ∧
    labels_after (comment_issue e) L0 (tr ++ new) =
      family_after name family mats (labels_after (comment_issue e) L0 tr) ∧
    (∀ w, w ∈ omap label_write new →
      w.1 = comment_issue e ∧ (w.2 ∈ family ∨ w.2 ∈ (λ mat, name +:+ "/" +:+ mat.2) <$> mats)).
Proof.
  intros Hf. revert tr. induction mats as [|mat mats IH]; intros tr; cbn [family_all].
  { exists []. rewrite app_nil_r. split_and!; [done..|by intros ? ?%not_elem_of_nil]. }
  destruct (family_one_run gh name family e mat L0 tr Hf) as (n1 & Hr1 & Ha1 & Ho1).
  destruct (IH (tr ++ n1)) as (n2 & Hr2 & Ha2 & Ho2). exists (n1 ++ n2).
  erewrite hbind_ok by exact Hr1. rewrite Hr2, (assoc_L (++)), Ha2, Ha1. split_and!; [done..|].
  intros w. rewrite omap_app. intros [Hw|Hw]%elem_of_app; [destruct (Ho1 w Hw) as [? [?| ->]]|destruct (Ho2 w Hw) as [? [?|?]]];
    (split; [done|]); [by left|right; left|by left|right; by right].
Qed.

(** Labels of the family only, and those of the name. *)
Definition of_name (name : string) (label : string) : Prop := ∃ cmd, label = name +:+ "/" +:+ cmd.

Lemma tame_remove_others gh name org repo number lbl current family :
  Forall (of_name name) family →
  Tame (org, repo, number) (of_name name) (remove_others gh org repo number lbl current family).
Proof.
  induction 1 as [|label family Hl Hfamily IH]; cbn [remove_others]; [apply tame_ret|].
  unfold or_zero. tame. done.
Qed.

Lemma tame_family gh name family e mats :
  Forall (of_name name) family → Tame (comment_issue e) (of_name name) (family_all gh name family e mats).
Proof.
  intros Hfamily. induction mats as [|[remove cmd] mats IH]; cbn [family_all]; [apply tame_ret|].
  assert (of_name name (name +:+ "/" +:+ cmd)) by (by exists cmd).
  unfold family_one. cbv zeta. tame; [by apply tame_remove_others|done].
Qed.

Lemma stageLabels_name : Forall (of_name "stage") stageLabels.
Proof. repeat constructor; by eexists. Qed.
Lemma lifecycleLabels_name : Forall (of_name "lifecycle") lifecycleLabels.
Proof. repeat constructor; by eexists. Qed.

(** The plugins hold, wip, shrug and docs-no-retest each keep one label.  Whatever GitHub
    answers, none of them panics or touches another label or issue.  If GitHub answers with
    the labels as they are and calls succeed, the label is afterwards on the issue if and
    only if it is wanted: for hold and shrug by the command of the comment, a cancellation
    of the hold first; for wip by the title or the draft; for docs-no-retest if all files
    changed are documentation.  No other label changes, no label is written that is as
    wanted, and events of no interest cause no call at all. *)
Theorem label_plugins_spec gh e pe changes :
  (Tame (comment_issue e) (λ l, l = Hold) (hold_handle gh e) ∧
   Follows gh (comment_issue e) false Hold (hold_wanted e) (hold_handle gh e)) ∧
  (Tame (pr_issue pe) (λ l, l = WorkInProgress) (wip_handlePullRequest gh pe) ∧
   Follows gh (pr_issue pe) true WorkInProgress (wip_wanted pe) (wip_handlePullRequest gh pe)) ∧
  (Tame (comment_issue e) (λ l, l = Shrug) (shrug_handle gh e) ∧
   Follows gh (comment_issue e) true Shrug (shrug_wanted e) (shrug_handle gh e)) ∧
  (Tame (pr_issue pe) (λ l, l = labelSkipRetest) (docs_handlePR gh pe) ∧
   (changed gh (pr_issue pe) changes →
    Follows gh (pr_issue pe) true labelSkipRetest (docs_wanted pe changes) (docs_handlePR gh pe))).
Proof.
  split_and!; [apply hold_tame|apply hold_follows|apply wip_tame|apply wip_follows|apply shrug_tame
    |apply shrug_follows|apply docs_tame|apply docs_follows].
Qed.

(** A GitHub that is faithful. *)
Definition honest (at_issue : issue) (L0 : gset string) (files : list string) : GitHub :=
  with_answers (w_github [] [] []) (λ _, Ok false) (λ tr, Ok (elements (labels_after at_issue L0 tr)))
    (λ _, Ok ((λ f, mkChange f 1 0 1 "blob") <$> files)) (λ _, Ok []).

Lemma honest_faithful at_issue L0 files : faithful (honest at_issue L0 files) at_issue L0.
Proof.
  split; [|done]. intros tr _. eexists. split; [done|]. apply set_eq. intros l.
  rewrite elem_of_set_of. apply elem_of_elements.
Qed.

Definition w_opened : PullRequestEvent := mkPullRequestEvent "opened" 1 w_gpr "o" "r" "" "author" None "guid".
Definition w_says (body : string) : GenericCommentEvent :=
  mkGenericCommentEvent true "created" body "url" 1 "o" "r" "someone" "author" [] "open" "" "" "guid".
Definition w_issue : issue := ("o", "r", 1%Z).

(** A pull request that changes documentation only, and a comment that holds it. *)
Lemma label_plugins_witness :
  ∃ t1 t2,
    hold_handle (honest w_issue {["kind/bug"]} ["README.md"]) (w_says "/hold") [] = (t1, Some (Ok tt)) ∧
    labels_after w_issue {["kind/bug"]} t1 = set_label Hold true {["kind/bug"]} ∧
    docs_handlePR (honest w_issue {["kind/bug"]} ["README.md"]) w_opened [] = (t2, Some (Ok tt)) ∧
    labels_after w_issue {["kind/bug"]} t2 = set_label labelSkipRetest true {["kind/bug"]}.
Proof.
  pose proof (honest_faithful w_issue {["kind/bug"]} ["README.md"]) as Hf.
  destruct (label_plugins_spec (honest w_issue {["kind/bug"]} ["README.md"]) (w_says "/hold") w_opened
    [mkChange "README.md" 1 0 1 "blob"]) as ((_ & Hhold) & _ & _ & _ & Hdocs).
  assert (changed (honest w_issue {["kind/bug"]} ["README.md"]) (pr_issue w_opened)
    [mkChange "README.md" 1 0 1 "blob"]) as Hc by (intros tr; reflexivity).
  specialize (Hdocs Hc). change (Drives (honest w_issue {["kind/bug"]} ["README.md"]) w_issue false Hold true
    (hold_handle (honest w_issue {["kind/bug"]} ["README.md"]) (w_says "/hold"))) in Hhold.
  change (Drives (honest w_issue {["kind/bug"]} ["README.md"]) w_issue true labelSkipRetest true
    (docs_handlePR (honest w_issue {["kind/bug"]} ["README.md"]) w_opened)) in Hdocs.
  destruct (Hhold {["kind/bug"]} [] Hf I) as (t1 & E1 & L1 & _).
  destruct (Hdocs {["kind/bug"]} [] Hf) as (t2 & E2 & L2 & _).
  { intros l. cbn. rewrite elem_of_singleton. intros ->. vm_compute. discriminate. }
  exists t1, t2. cbn [app] in *. split_and!; assumption.
Defined.

(** What is a hold and what is not. *)
Example hold_commands :
  hold_wanted (w_says "/hold") = Some true ∧ hold_wanted (w_says "/hold for the release") = Some true ∧
  hold_wanted (w_says "/hold cancel") = Some false ∧ hold_wanted (w_says "/unhold") = Some false ∧
  hold_wanted (w_says "/holder") = None ∧ hold_wanted (w_says "please /hold") = None.
Proof. by vm_compute. Qed.
Example wip_titles :
  wip_title "WIP: fix" = true ∧ wip_title "[wip] fix" = true ∧ wip_title "wiped" = false ∧ wip_title "WIP" = false ∧
  wip_title "fix WIP " = false.
Proof. by vm_compute. Qed.
