(* ===== verification/Lifecycle.v ===== *)
(** * The lifecycle plugin (plugins/lifecycle)

    Closing and reopening an issue or a pull request, and its label of the lifecycle,
    by commands in comments. *)

From S2P Require Import Prelude Api JobConfig PjUtil GoText Handler GitHub Trigger LabelSpec LabelPlugins Samples.
#[local] Open Scope go_scope.

Section lifecycle.
Context (gh : GitHub).

(** A comment that answers a command. *)
Definition answer (e : GenericCommentEvent) (response : string) : H Call unit :=
  ask (on_done gh) (CreateComment (gc_Org e) (gc_Repo e) (gc_Number e)
    (FormatResponseRaw (gc_Body e) (gc_HTMLURL e) (gc_User e) response)).

(** ** Closing (close.go) *)

Definition isActive (org repo : string) (number : Z) : H Call bool :=
  let! labels := with_err "list issue labels error: %v" (ask (on_labels gh) (GetIssueLabels org repo number)) in
  hret (negb (HasLabel "lifecycle/stale" labels || HasLabel "lifecycle/rotten" labels)).

Definition no_close : string := "You can't close an active issue/PR unless you authored it or you are a collaborator.".

Definition handleClose (e : GenericCommentEvent) : H Call unit :=
  if bool_decide (gc_IssueState e ≠ "open" ∨ gc_Action e ≠ GenericCommentActionCreated) then hret tt
  else if negb (has_line "/close" (gc_Body e)) then hret tt
  else
    let isAuthor := bool_decide (gc_IssueAuthor e = gc_User e) in
    let! isCollaborator := or_zero false (ask (on_bool gh) (IsCollaborator (gc_Org e) (gc_Repo e) (gc_User e))) in
    let! active := or_zero true (isActive (gc_Org e) (gc_Repo e) (gc_Number e)) in
    if negb isAuthor && negb isCollaborator && active then answer e no_close
    else if gc_IsPR e then
      let! _ := with_err "Error closing PR: %v" (ask (on_done gh) (ClosePR (gc_Org e) (gc_Repo e) (gc_Number e))) in
      answer e "Closed this PR."
    else
      let! _ := with_err "Error closing issue: %v"
                  (ask (on_done gh) (CloseIssue (gc_Org e) (gc_Repo e) (gc_Number e))) in
      answer e "Closing this issue.".

(** ** Reopening (reopen.go) *)

Definition no_reopen : string := "You can't reopen an issue/PR unless you authored it or you are a collaborator.".

(** Asks, and comments on what came of it; a state that cannot be changed is no error. *)
Definition reopen (e : GenericCommentEvent) (call : Call) (what done : string) : H Call unit :=
  let! reopened := attempt (ask (on_done gh) call) in
  match reopened with
  | Ok _ => answer e done
  | Err err =>
      let! scbc := look (on_locked gh) in
      match scbc with
      | Some message => answer e ("Failed to re-open " +:+ what +:+ ": " +:+ message)
      | None => herr err
      end
  end.

Definition handleReopen (e : GenericCommentEvent) : H Call unit :=
  if bool_decide (gc_IssueState e ≠ "closed" ∨ gc_Action e ≠ GenericCommentActionCreated) then hret tt
  else if negb (has_line "/reopen" (gc_Body e)) then hret tt
  else
    let isAuthor := bool_decide (gc_IssueAuthor e = gc_User e) in
    let! isCollaborator := or_zero false (ask (on_bool gh) (IsCollaborator (gc_Org e) (gc_Repo e) (gc_User e))) in
    if negb isAuthor && negb isCollaborator then answer e no_reopen
    else if gc_IsPR e then reopen e (ReopenPR (gc_Org e) (gc_Repo e) (gc_Number e)) "PR" "Reopened this PR."
    else reopen e (ReopenIssue (gc_Org e) (gc_Repo e) (gc_Number e)) "Issue" "Reopened this issue.".

Definition lifecycleHandleGenericComment (e : GenericCommentEvent) : H Call unit :=
  let! _ := handleReopen e in
  let! _ := handleClose e in
  lifecycle_handle gh e.
End lifecycle.

(** ** Who closes and reopens *)

Definition changes_state (c : Call) : bool :=
  match c with
  | ClosePR _ _ _ | CloseIssue _ _ _ | ReopenPR _ _ _ | ReopenIssue _ _ _ => true
  | _ => false
  end.

(** The author of the comment wrote the issue, or GitHub says he is a collaborator. *)
Definition entitled (gh : GitHub) (e : GenericCommentEvent) (tr : list Call) : Prop :=
  gc_IssueAuthor e = gc_User e ∨
  answered (on_bool gh) (IsCollaborator (gc_Org e) (gc_Repo e) (gc_User e)) yes tr.

(** What is closed is open, and stale if it is not closed by someone who is entitled. *)
Definition may_close (gh : GitHub) (e : GenericCommentEvent) (tr : list Call) (c : Call) : Prop :=
  c = (if gc_IsPR e then ClosePR else CloseIssue) (gc_Org e) (gc_Repo e) (gc_Number e) ∧
  gc_IssueState e = "open" ∧ has_line "/close" (gc_Body e) = true ∧
  (entitled gh e tr ∨
   answered (on_labels gh) (GetIssueLabels (gc_Org e) (gc_Repo e) (gc_Number e))
     (λ labels, HasLabel "lifecycle/stale" labels || HasLabel "lifecycle/rotten" labels = true) tr).
Definition may_reopen (gh : GitHub) (e : GenericCommentEvent) (tr : list Call) (c : Call) : Prop :=
  c = (if gc_IsPR e then ReopenPR else ReopenIssue) (gc_Org e) (gc_Repo e) (gc_Number e) ∧
  gc_IssueState e = "closed" ∧ has_line "/reopen" (gc_Body e) = true ∧ entitled gh e tr.
Definition may_change (gh : GitHub) (e : GenericCommentEvent) (tr : list Call) (c : Call) : Prop :=
  gc_Action e = GenericCommentActionCreated ∧ (may_close gh e tr c ∨ may_reopen gh e tr c).

Section safe.
Context (gh : GitHub) (e : GenericCommentEvent).
Notation allowed := (may changes_state (may_change gh e)).

Lemma answer_ok response P : triple allowed P (answer gh e response) (λ _ _, True).
Proof. apply triple_ask; [by intros ? _ ?|done]. Qed.

Lemma collaborator_ok :
  triple allowed (λ _, True)
    (or_zero false (ask (on_bool gh) (IsCollaborator (gc_Org e) (gc_Repo e) (gc_User e))))
    (λ b tr, b = true → answered (on_bool gh) (IsCollaborator (gc_Org e) (gc_Repo e) (gc_User e)) yes tr).
Proof.
  eapply triple_conseq; [by apply triple_question_zero; [apply (stable_const True)|]|done|].
  intros b tr [_ [Ha|[-> _]]] Hb; [|done]. eapply answered_weaken; [exact Ha|]. by intros ? ->.
Qed.

Lemma isActive_ok P : stable P →
  triple allowed P (or_zero true (isActive gh (gc_Org e) (gc_Repo e) (gc_Number e)))
    (λ b tr, P tr ∧ (b = false → answered (on_labels gh) (GetIssueLabels (gc_Org e) (gc_Repo e) (gc_Number e))
       (λ labels, HasLabel "lifecycle/stale" labels || HasLabel "lifecycle/rotten" labels = true) tr)).
Proof.
  intros HP tr Htr. unfold or_zero, outcome, isActive, with_err, outcome, hbind, ask. rewrite bind_app. cbn.
  eexists [_]. split_and!; [by destruct (on_labels gh _)| |].
  - intros [|? before] c' after Hc Ha; simplify_eq/=. by destruct before.
  - intros b Hb. split; [by apply HP|]. intros ->. exists tr, [].
    destruct (on_labels gh _) as [labels|err] eqn:El; cbn in Hb; [|done]. injection Hb as Hb.
    exists labels. split_and!; [done|done|]. by apply negb_false_iff.
Qed.

Lemma state_call_ok P call : (∀ tr, P tr → changes_state call = true → may_change gh e tr call) →
  triple allowed P (ask (on_done gh) call) (λ _ _, True).
Proof. intros Hc. by apply triple_ask; [intros tr HP Ha; apply Hc|]. Qed.

Lemma handleClose_ok : triple allowed (λ _, True) (handleClose gh e) (λ _ _, True).
Proof.
  unfold handleClose. case_bool_decide as He; [by apply triple_ret|].
  destruct (has_line "/close" (gc_Body e)) eqn:Eline; [|by apply triple_ret]. cbn [negb].
  assert (gc_IssueState e = "open" ∧ gc_Action e = GenericCommentActionCreated) as [Hopen Hact]
    by (split; apply dec_stable; tauto).
  eapply triple_bind; [apply collaborator_ok|]. intros collab. cbn beta.
  eapply triple_bind; [apply isActive_ok|].
  { intros tr new Hc Hb. apply stable_answered. auto. }
  intros active. cbn beta.
  destruct (negb (bool_decide (gc_IssueAuthor e = gc_User e)) && negb collab && active) eqn:Eno;
    [apply answer_ok|].
  assert (∀ tr, ((collab = true → answered (on_bool gh) (IsCollaborator (gc_Org e) (gc_Repo e) (gc_User e)) yes tr) ∧
     (active = false → answered (on_labels gh) (GetIssueLabels (gc_Org e) (gc_Repo e) (gc_Number e))
       (λ labels, HasLabel "lifecycle/stale" labels || HasLabel "lifecycle/rotten" labels = true) tr)) →
     may_change gh e tr ((if gc_IsPR e then ClosePR else CloseIssue) (gc_Org e) (gc_Repo e) (gc_Number e))) as Hmay.
  { intros tr [Hc Ha]. split; [done|]. left. split_and!; [done..|]. unfold entitled.
    destruct (bool_decide (gc_IssueAuthor e = gc_User e)) eqn:Eauthor; [apply bool_decide_eq_true in Eauthor; auto|].
    destruct collab; [auto|]. destruct active; [done|auto]. }
  destruct (gc_IsPR e); (eapply triple_bind; [apply triple_with_err, state_call_ok; auto|];
    intros ?; apply answer_ok).
Qed.

Lemma reopen_ok P call what done : (∀ tr, P tr → may_change gh e tr call) → stable P →
  triple allowed P (reopen gh e call what done) (λ _ _, True).
Proof.
  intros Hc HP. unfold reopen. eapply triple_bind; [apply (triple_attempt _ P); [done|]; apply state_call_ok; auto|].
  intros [[]|err]; cbn beta iota; [apply answer_ok|].
  eapply triple_bind; [by apply (triple_look _ _ _ (λ _ _, True))|]. intros [message|]; [apply answer_ok|apply triple_err].
Qed.

Lemma handleReopen_ok : triple allowed (λ _, True) (handleReopen gh e) (λ _ _, True).
Proof.
  unfold handleReopen. case_bool_decide as He; [by apply triple_ret|].
  destruct (has_line "/reopen" (gc_Body e)) eqn:Eline; [|by apply triple_ret]. cbn [negb].
  assert (gc_IssueState e = "closed" ∧ gc_Action e = GenericCommentActionCreated) as [Hclosed Hact]
    by (split; apply dec_stable; tauto).
  eapply triple_bind; [apply collaborator_ok|]. intros collab. cbn beta.
  destruct (negb (bool_decide (gc_IssueAuthor e = gc_User e)) && negb collab) eqn:Eno; [apply answer_ok|].
  assert (∀ tr, (collab = true → answered (on_bool gh) (IsCollaborator (gc_Org e) (gc_Repo e) (gc_User e)) yes tr) →
     may_change gh e tr ((if gc_IsPR e then ReopenPR else ReopenIssue) (gc_Org e) (gc_Repo e) (gc_Number e))) as Hmay.
  { intros tr Hc. split; [done|]. right. split_and!; [done..|]. unfold entitled.
    destruct (bool_decide (gc_IssueAuthor e = gc_User e)) eqn:Eauthor; [apply bool_decide_eq_true in Eauthor; auto|].
    destruct collab; [auto|done]. }
  destruct (gc_IsPR e); (apply reopen_ok; [done|]; intros tr new Hc Hb; apply stable_answered; auto).
Qed.

(** The labels are no change of the state. *)
Lemma remove_others_ok org repo number lbl current family :
  triple allowed (λ _, True) (remove_others gh org repo number lbl current family) (λ _ _, True).
Proof.
  induction family as [|label family IH]; cbn [remove_others]; [by apply triple_ret|].
  eapply triple_bind; [|intros ?; apply IH].
  apply triple_if; intros _; [by apply triple_quiet_zero|by apply triple_ret].
Qed.

Lemma family_all_ok name family mats :
  triple allowed (λ _, True) (family_all gh name family e mats) (λ _ _, True).
Proof.
  induction mats as [|[remove cmd] mats IH]; cbn [family_all]; [by apply triple_ret|].
  eapply triple_bind; [|intros ?; apply IH]. unfold family_one. cbv zeta.
  eapply triple_bind; [by apply (triple_quiet_zero (λ _, True))|]. intros current. cbn beta.
  apply triple_if; intros _; [by apply (triple_quiet (λ _, True))|].
  apply triple_if; intros _; [|by apply triple_ret].
  eapply triple_bind; [apply remove_others_ok|]. intros ?. by apply (triple_quiet_zero (λ _, True)).
Qed.

Lemma lifecycle_ok : triple allowed (λ _, True) (lifecycleHandleGenericComment gh e) (λ _ _, True).
Proof.
  unfold lifecycleHandleGenericComment. eapply triple_bind; [apply handleReopen_ok|]. intros ?.
  eapply triple_bind; [apply handleClose_ok|]. intros ?. unfold lifecycle_handle.
  apply triple_if; intros _; [by apply triple_ret|apply family_all_ok].
Qed.
End safe.

Lemma lifecycle_tame gh e :
  Tame (comment_issue e) (of_name "lifecycle") (lifecycleHandleGenericComment gh e).
Proof.
  unfold lifecycleHandleGenericComment, handleReopen, handleClose, reopen, isActive, answer, lifecycle_handle,
    or_zero, with_err, attempt. cbv zeta. tame; try apply tame_family, lifecycleLabels_name;
    match goal with |- Tame _ _ (match ?r with _ => _ end) => destruct r; tame end.
  all: match goal with |- Tame _ _ (match ?r with _ => _ end) => destruct r; tame end.
Qed.

(** An issue or a pull request is closed or reopened only on a new comment that says so, in
    the state that the command is for, and only if the author of the comment wrote the issue
    or GitHub has answered that he is a collaborator - or, to close it, if GitHub has answered
    with a label that says the issue is stale or rotten; whatever else GitHub answers.  No
    path panics, and no label is touched but those of the lifecycle. *)
Theorem lifecycle_safe gh e tr :
  ∃ new r, lifecycleHandleGenericComment gh e tr = (tr ++ new, Some r) ∧
    (∀ before c after, new = before ++ c :: after → changes_state c = true → may_change gh e (tr ++ before) c) ∧
    (∀ w, w ∈ omap label_write new → w.1 = comment_issue e ∧ of_name "lifecycle" w.2).
Proof.
  destruct (lifecycle_ok gh e tr I) as (n & E1 & Hs & _).
  destruct (lifecycle_tame gh e tr) as (new & r & Hr & Hw). rewrite Hr in E1. apply app_inv_head in E1 as <-.
  exists new, r. split_and!; done.
Qed.

(** What the commands of a comment are. *)
Definition commands (name : string) (members : list string) (e : GenericCommentEvent) : list (bool * string) :=
  if bool_decide (gc_Action e ≠ GenericCommentActionCreated) then [] else family_re name members (gc_Body e).

(** A comment changes the labels of the stage, or of the lifecycle, as its commands say, in
    order: a command sets its label instead of the others, a removal takes its label off, and
    a label that is set already is left alone.  If there was at most one label of the family
    before, there is at most one afterwards; no other label changes. *)
Theorem family_labels_spec gh e L0 tr :
  faithful gh (comment_issue e) L0 →
  (∃ t, stage_handle gh e tr = (t, Some (Ok tt)) ∧
     labels_after (comment_issue e) L0 t =
       family_after "stage" stageLabels (commands "stage" stages e) (labels_after (comment_issue e) L0 tr) ∧
     (at_most_one stageLabels (labels_after (comment_issue e) L0 tr) →
      at_most_one stageLabels (labels_after (comment_issue e) L0 t))) ∧
  (∃ t, lifecycle_handle gh e tr = (t, Some (Ok tt)) ∧
     labels_after (comment_issue e) L0 t =
       family_after "lifecycle" lifecycleLabels (commands "lifecycle" lifecycles e)
         (labels_after (comment_issue e) L0 tr) ∧
     (at_most_one lifecycleLabels (labels_after (comment_issue e) L0 tr) →
      at_most_one lifecycleLabels (labels_after (comment_issue e) L0 t))).
Proof.
  intros Hf. split.
  - destruct (family_all_run gh "stage" stageLabels e (commands "stage" stages e) L0 tr Hf) as (new & Hr & Ha & _).
    exists (tr ++ new). rewrite Ha. split_and!; [|done|apply family_after_one]. rewrite <- Hr.
    unfold stage_handle, commands. by case_bool_decide.
  - destruct (family_all_run gh "lifecycle" lifecycleLabels e (commands "lifecycle" lifecycles e) L0 tr Hf)
      as (new & Hr & Ha & _).
    exists (tr ++ new). rewrite Ha. split_and!; [|done|apply family_after_one]. rewrite <- Hr.
    unfold lifecycle_handle, commands. by case_bool_decide.
Qed.

(** The two labels at work. *)
Lemma family_labels_witness :
  ∃ t, lifecycle_handle (honest w_issue {["lifecycle/stale"; "kind/bug"]} []) (w_says "/lifecycle frozen") [] = (t, Some (Ok tt)) ∧
    labels_after w_issue {["lifecycle/stale"; "kind/bug"]} t = {["lifecycle/frozen"; "kind/bug"]}.
Proof.
  destruct (family_labels_spec (honest w_issue {["lifecycle/stale"; "kind/bug"]} []) (w_says "/lifecycle frozen")
    {["lifecycle/stale"; "kind/bug"]} [] (honest_faithful w_issue _ _)) as (_ & t & Hr & Ha & _).
  exists t. split; [exact Hr|]. refine (eq_trans Ha _). vm_compute. reflexivity.
Defined.

(** Someone who is not entitled, on an active issue, is told so; on a stale one the issue is closed. *)
Example close_active :
  (lifecycleHandleGenericComment (honest w_issue {["kind/bug"]} []) (w_says "/close") []).1 =
    [IsCollaborator "o" "r" "someone"; GetIssueLabels "o" "r" 1;
     CreateComment "o" "r" 1 (FormatResponseRaw "/close" "url" "someone" no_close)].
Proof. by vm_compute. Qed.
Example close_stale :
  (lifecycleHandleGenericComment (honest w_issue {["lifecycle/stale"]} []) (w_says "/close") []).1 =
    [IsCollaborator "o" "r" "someone"; GetIssueLabels "o" "r" 1; ClosePR "o" "r" 1;
     CreateComment "o" "r" 1 (FormatResponseRaw "/close" "url" "someone" "Closed this PR.")].
Proof. by vm_compute. Qed.
