(* ===== verification/LabelChecks.v ===== *)
(** * Plugins that label what a pull request lacks (plugins/cherrypickunapproved,
    mergecommitblocker, blockade, require-matching-label, external-plugins/needs-rebase)

    Each keeps one label, by the branch, the commits, the changed files, the other
    labels or the mergeability of a pull request, and comments when it sets it. *)

From S2P Require Import Prelude Api JobConfig PjUtil GoText Handler GitHub CommentPruner Trigger PluginConfig TideBlockers Hook LabelSpec LabelPlugins Samples.
#[local] Open Scope go_scope.

Section checks.
Context `{GoRange} (gh : GitHub).

(** ** Cherry-picks that are not approved *)

Definition cherrypick_relevant (pr : PullRequestEvent) : bool :=
  let cpLabelUpdated := bool_decide (pe_Action pr ∈ [PullRequestActionLabeled; PullRequestActionUnlabeled] ∧
                                     pe_Label pr ∈ [CpApproved; CpUnapproved]) in
  bool_decide (pe_Action pr ∈ [PullRequestActionOpened; PullRequestActionReopened]) || cpLabelUpdated.

Definition cherrypick_handlePR (branchRe : Regexp) (commentBody : string) (cp : EventClient) (pr : PullRequestEvent)
    : H Call unit :=
  if negb (cherrypick_relevant pr) then hret tt
  else
    let org := pe_Org pr in
    let repo := pe_Repo pr in
    if negb (branchRe (gpr_BaseRef (pe_PullRequest pr))) then hret tt
    else
      let! issueLabels := ask (on_labels gh) (GetIssueLabels org repo (pe_Number pr)) in
      let hasCherryPickUnapprovedLabel := HasLabel CpUnapproved issueLabels in
      if HasLabel CpApproved issueLabels then
        let! _ := (if hasCherryPickUnapprovedLabel
                   then or_zero tt (ask (on_done gh) (RemoveLabel org repo (pe_Number pr) CpUnapproved))
                   else hret tt) in
        let! _ := PruneComments gh (λ comment, contains (ic_Body comment) commentBody) cp in
        hret tt
      else if hasCherryPickUnapprovedLabel then hret tt
      else
        let! _ := or_zero tt (ask (on_done gh) (AddLabel org repo (pe_Number pr) CpUnapproved)) in
        or_zero tt (ask (on_done gh) (CreateComment org repo (pe_Number pr)
          (FormatSimpleResponse (gpr_UserLogin (pe_PullRequest pr)) commentBody))).

(** ** Merge commits *)

Definition merge_commits_body : string :=
  "Adding label `" +:+ MergeCommits +:+ "` because PR contains merge commits, which are not allowed in this repository." +:+ newline +:+
  "Use `git rebase` to reapply your commits on top of the target branch. Detailed instructions for doing so can be found [here](https://git.k8s.io/community/contributors/guide/github-workflow.md#4-keep-your-branch-in-sync).".

(** The clone, the checkout and the search for merge commits are one call to git. *)
Definition mergecommit_handle (cp : EventClient) (pre : PullRequestEvent) : H Call unit :=
  if bool_decide (pe_Action pre ∉ [PullRequestActionOpened; PullRequestActionReopened; PullRequestActionSynchronize])
  then hret tt
  else
    let pr := pe_PullRequest pre in
    let org := gpr_BaseRepoOwner pr in
    let repo := gpr_BaseRepoName pr in
    let num := gpr_Number pr in
    let! existMergeCommits :=
      ask (on_bool gh) (MergeCommitsExistBetween org repo num (gpr_BaseSHA pr) (gpr_HeadSHA pr)) in
    let! issueLabels := ask (on_labels gh) (GetIssueLabels org repo num) in
    let hasLabel := HasLabel MergeCommits issueLabels in
    if hasLabel && negb existMergeCommits then
      let! _ := ask (on_done gh) (RemoveLabel org repo num MergeCommits) in
      let! _ := PruneComments gh (λ ic, contains (ic_Body ic) merge_commits_body) cp in
      hret tt
    else if negb hasLabel && existMergeCommits then
      let! _ := ask (on_done gh) (AddLabel org repo num MergeCommits) in
      ask (on_done gh) (CreateComment org repo num (FormatSimpleResponse (gpr_UserLogin pr) merge_commits_body))
    else hret tt.

(** ** Blockades *)

Definition blockedPathsBody : string := "Adding label: `" +:+ BlockedPaths +:+ "` because PR changes a protected file.".

(** A compiled [plugins.Blockade]. *)
Record blockade := mkblockade {
  blockRegexps : list Regexp; exceptionRegexps : list Regexp; explanation : string }.

Definition matchesAny (str : string) (regexps : list Regexp) : bool := existsb (λ reg, reg str) regexps.
Definition isBlocked (bd : blockade) (file : string) : bool :=
  matchesAny file (blockRegexps bd) && negb (matchesAny file (exceptionRegexps bd)).

(** [regexp.Compile] *)
Context (Compile : string → result Regexp).

(** Those that do not compile are only logged. *)
Definition compile_all (strs : list string) : list Regexp :=
  omap (λ str, match Compile str with Ok reg => Some reg | Err _ => None end) strs.

Definition compile_blockade (raw : Blockade) : option blockade :=
  let regs := compile_all (bl_BlockRegexps raw) in
  if bool_decide (length regs = 0) then None
  else Some (mkblockade regs (compile_all (bl_ExceptionRegexps raw))
               (if bool_decide (bl_Explanation raw = "") then "Files are protected" else bl_Explanation raw)).
Definition compileApplicableBlockades (org repo : string) (blockades : list Blockade) : list blockade :=
  omap (λ raw, if bool_decide (org ∉ bl_Repos raw ∧ org +:+ "/" +:+ repo ∉ bl_Repos raw) then None
               else compile_blockade raw) blockades.

(** [summary] *)
Definition note_block (change : PullRequestChange) (sum : gmap string (list PullRequestChange)) (b : blockade)
    : gmap string (list PullRequestChange) :=
  if isBlocked b (ch_Filename change)
  then <[explanation b := default [] (sum !! explanation b) ++ [change]]> sum else sum.
Definition calculateBlocks (changes : list PullRequestChange) (blockades : list blockade)
    : gmap string (list PullRequestChange) :=
  foldl (λ sum change, foldl (note_block change) sum blockades) ∅ changes.

Definition summary_string (s : gmap string (list PullRequestChange)) : string :=
  if bool_decide (s = ∅) then ""
  else "#### Reasons for blocking this PR:" +:+ newline +:+
       String.concat "" ((λ '(reason, files),
         "[" +:+ reason +:+ "]" +:+ newline +:+
         String.concat "" ((λ file, "- [" +:+ ch_Filename file +:+ "](" +:+ ch_BlobURL file +:+ ")" +:+ newline +:+ newline)
           <$> files)) <$> map_range s).

Definition blockade_handle (config : list Blockade) (cp : EventClient) (pre : PullRequestEvent) : H Call unit :=
  if bool_decide (pe_Action pre ∉ [PullRequestActionSynchronize; PullRequestActionOpened; PullRequestActionReopened])
  then hret tt
  else
    let org := pe_Org pre in
    let repo := pe_Repo pre in
    let! issueLabels := ask (on_labels gh) (GetIssueLabels org repo (pe_Number pre)) in
    let labelPresent := HasLabel BlockedPaths issueLabels in
    let blockades := compileApplicableBlockades org repo config in
    if bool_decide (length blockades = 0) && negb labelPresent then hret tt
    else
      let! sum := (if bool_decide (length blockades = 0) then hret ∅
                   else
                     let! changes := ask (on_changes gh) (GetPullRequestChanges org repo (pe_Number pre)) in
                     hret (calculateBlocks changes blockades)) in
      let shouldBlock := negb (bool_decide (sum = ∅)) in
      if shouldBlock && negb labelPresent then
        let! _ := ask (on_done gh) (AddLabel org repo (pe_Number pre) BlockedPaths) in
        ask (on_done gh) (CreateComment org repo (pe_Number pre)
          (FormatResponse (gpr_UserLogin (pe_PullRequest pre)) blockedPathsBody (summary_string sum)))
      else if negb shouldBlock && labelPresent then
        let! _ := ask (on_done gh) (RemoveLabel org repo (pe_Number pre) BlockedPaths) in
        let! _ := PruneComments gh (λ ic, contains (ic_Body ic) blockedPathsBody) cp in
        hret tt
      else hret tt.

(** ** Labels that must match *)

(** [event]: an issue has no branch, and only an event of a label one. *)
Record label_event := mklabel_event {
  lv_org : string; lv_repo : string; lv_number : Z; lv_author : string; lv_branch : string; lv_label : string;
  lv_currentLabels : option (list string) }.

Definition config_matches (e : label_event) (cfg : RequireMatchingLabel) : bool :=
  if bool_decide (lv_branch e = "") && negb (rl_Issues cfg) || negb (bool_decide (lv_branch e = "")) && negb (rl_PRs cfg)
  then false
  else if bool_decide (lv_org e ≠ rl_Org cfg ∨ (rl_Repo cfg ≠ "" ∧ rl_Repo cfg ≠ lv_repo e) ∨
                       (rl_Branch cfg ≠ "" ∧ lv_branch e ≠ "" ∧ rl_Branch cfg ≠ lv_branch e)) then false
  else if bool_decide (lv_label e ≠ "") && negb (rl_Re cfg (lv_label e)) then false
  else true.
Definition matchingConfigs (e : label_event) (allConfigs : list RequireMatchingLabel) : list RequireMatchingLabel :=
  List.filter (config_matches e) allConfigs.

(** The body of the loop; the pruner keeps what it has fetched. *)
Definition require_one (e : label_event) (current : list string) (cfg : RequireMatchingLabel) (cp : EventClient)
    : H Call EventClient :=
  let hasMissingLabel := existsb (λ l, bool_decide (l = rl_MissingLabel cfg)) current in
  let hasMatchingLabel := existsb (rl_Re cfg) current in
  let has_comment := negb (bool_decide (rl_MissingComment cfg = "")) in
  if hasMatchingLabel && hasMissingLabel then
    let! _ := or_zero tt (ask (on_done gh) (RemoveLabel (lv_org e) (lv_repo e) (lv_number e) (rl_MissingLabel cfg))) in
    if has_comment then PruneComments gh (λ comment, contains (ic_Body comment) (rl_MissingComment cfg)) cp
    else hret cp
  else if negb hasMatchingLabel && negb hasMissingLabel then
    let! _ := or_zero tt (ask (on_done gh) (AddLabel (lv_org e) (lv_repo e) (lv_number e) (rl_MissingLabel cfg))) in
    let! _ := (if has_comment
               then or_zero tt (ask (on_done gh) (CreateComment (lv_org e) (lv_repo e) (lv_number e)
                      (FormatSimpleResponse (lv_author e) (rl_MissingComment cfg))))
               else hret tt) in
    hret cp
  else hret cp.
Fixpoint require_all (e : label_event) (current : list string) (cfgs : list RequireMatchingLabel) (cp : EventClient)
    : H Call unit :=
  match cfgs with
  | [] => hret tt
  | cfg :: cfgs => let! cp := require_one e current cfg cp in require_all e current cfgs cp
  end.

(** The grace period that is slept is not modelled; after it the labels of the event are stale. *)
Definition require_handle (configs : list RequireMatchingLabel) (cp : EventClient) (e : label_event) : H Call unit :=
  let matchConfigs := matchingConfigs e configs in
  if bool_decide (length matchConfigs = 0) then hret tt
  else
    let! current := (match (if bool_decide (lv_label e = "") then None else lv_currentLabels e) with
                     | Some current => hret current
                     | None => with_err "error getting the issue or pr's labels: %v"
                                 (ask (on_labels gh) (GetIssueLabels (lv_org e) (lv_repo e) (lv_number e)))
                     end) in
    require_all e current matchConfigs cp.

Definition require_actions : list string :=
  [PullRequestActionOpened; PullRequestActionReopened; PullRequestActionLabeled; PullRequestActionUnlabeled].
Definition require_handleIssue (configs : list RequireMatchingLabel) (cp : EventClient) (ie : IssueEvent)
    : H Call unit :=
  if bool_decide (ie_Action ie ∉ require_actions) then hret tt
  else require_handle configs cp
         (mklabel_event (er_OwnerLogin (ie_Repo ie)) (er_Name (ie_Repo ie)) (is_Number (ie_Issue ie))
            (is_User (ie_Issue ie)) "" (ie_Label ie) (is_Labels (ie_Issue ie))).
Definition require_handlePullRequest (configs : list RequireMatchingLabel) (cp : EventClient) (pre : PullRequestEvent)
    : H Call unit :=
  if bool_decide (pe_Action pre ∉ require_actions) then hret tt
  else require_handle configs cp
         (mklabel_event (pe_Org pre) (pe_Repo pre) (gpr_Number (pe_PullRequest pre))
            (gpr_UserLogin (pe_PullRequest pre)) (gpr_BaseRef (pe_PullRequest pre)) (pe_Label pre) None).
End checks.

(** ** The label that follows *)

(** The issue of an event as these plugins name it. *)
Definition event_issue (pe : PullRequestEvent) : issue := (pe_Org pe, pe_Repo pe, pe_Number pe).
Definition labelled_issue (e : label_event) : issue := (lv_org e, lv_repo e, lv_number e).

(** Some blockade blocks some file. *)
Definition blocked (changes : list PullRequestChange) (blockades : list blockade) : bool :=
  existsb (λ change, existsb (λ b, isBlocked b (ch_Filename change)) blockades) changes.

Definition pr_opened (pe : PullRequestEvent) : bool :=
  bool_decide (pe_Action pe ∈ [PullRequestActionOpened; PullRequestActionReopened; PullRequestActionSynchronize]).

(** The files a reason blocks: once per change and blockade with the reason. *)
Definition blocked_by (reason : string) (changes : list PullRequestChange) (blockades : list blockade)
    : list PullRequestChange :=
  change ← changes;
  const change <$> filter (λ b, isBlocked b (ch_Filename change) = true ∧ explanation b = reason) blockades.

Lemma note_block_lookup change bs sum reason :
  default [] (foldl (note_block change) sum bs !! reason) =
    default [] (sum !! reason) ++
    (const change <$> filter (λ b, isBlocked b (ch_Filename change) = true ∧ explanation b = reason) bs).
Proof.
  revert sum. induction bs as [|b bs IH]; intros sum; cbn [foldl]; [by rewrite app_nil_r|].
  rewrite IH, filter_cons. unfold note_block at 1. destruct (isBlocked b _) eqn:Eb.
  - destruct (decide (explanation b = reason)) as [<-|Hne].
    + rewrite lookup_insert_eq, decide_True by done. cbn. by rewrite <- (assoc_L (++)).
    + rewrite lookup_insert_ne, decide_False by naive_solver. done.
  - rewrite decide_False by naive_solver. done.
Qed.

(** The summary has the files of each reason in order. *)
Lemma calculateBlocks_lookup changes bs reason :
  default [] (calculateBlocks changes bs !! reason) = blocked_by reason changes bs.
Proof.
  unfold calculateBlocks. change (blocked_by reason changes bs) with (default [] ((∅ : gmap string (list PullRequestChange)) !! reason) ++ blocked_by reason changes bs).
  generalize (∅ : gmap string (list PullRequestChange)).
  induction changes as [|change changes IH]; intros sum; cbn; [by rewrite app_nil_r|].
  rewrite IH, note_block_lookup, <- (assoc_L (++)). done.
Qed.

Lemma note_block_nonempty change bs sum :
  (∀ r, sum !! r ≠ Some []) → ∀ r, foldl (note_block change) sum bs !! r ≠ Some [].
Proof.
  revert sum. induction bs as [|b bs IH]; intros sum Hs; [done|]. apply IH. intros r.
  unfold note_block. destruct (isBlocked b _); [|done]. rewrite lookup_insert_Some.
  intros [[_ E]|[_ ?]]; [by destruct (default _ _)|by eapply Hs].
Qed.

Lemma calculateBlocks_nonempty changes bs r : calculateBlocks changes bs !! r ≠ Some [].
Proof.
  unfold calculateBlocks. assert (∀ r, (∅ : gmap string (list PullRequestChange)) !! r ≠ Some []) as Hs by done.
  revert r. revert Hs. generalize (∅ : gmap string (list PullRequestChange)).
  induction changes as [|change changes IH]; intros sum Hs; [done|]. cbn. by apply IH, note_block_nonempty.
Qed.

Lemma blocked_by_nil changes bs : (∀ reason, blocked_by reason changes bs = []) ↔ blocked changes bs = false.
Proof.
  unfold blocked, blocked_by. split.
  - intros Hn. apply not_true_iff_false. rewrite existsb_exists. intros (change & Hc & Hb).
    apply existsb_exists in Hb as (b & Hb & Eb). apply list_elem_of_In in Hc, Hb.
    assert (change ∈ (change ← changes;
      const change <$> filter (λ b0, isBlocked b0 (ch_Filename change) = true ∧ explanation b0 = explanation b) bs)) as Hin.
    { apply list_elem_of_bind. exists change. split; [|done]. apply list_elem_of_fmap. exists b.
      split; [done|]. by apply list_elem_of_filter. }
    rewrite Hn in Hin. by apply not_elem_of_nil in Hin.
  - intros Hf reason. apply elem_of_nil_inv. intros x (change & Hx & Hc)%list_elem_of_bind.
    apply list_elem_of_fmap in Hx as (b & -> & [[Hb _] Hin]%list_elem_of_filter).
    apply not_true_iff_false in Hf. apply Hf, existsb_exists. exists change.
    split; [by apply list_elem_of_In|]. apply existsb_exists. exists b. split; [by apply list_elem_of_In|done].
Qed.

(** What the configuration says, without compiling it first: the regular expressions that compile decide. *)
Definition re_matches (Compile : string → result Regexp) (file str : string) : bool :=
  match Compile str with Ok reg => reg file | Err _ => false end.
Definition protects (Compile : string → result Regexp) (org repo file : string) (raw : Blockade) : bool :=
  bool_decide (org ∈ bl_Repos raw ∨ org +:+ "/" +:+ repo ∈ bl_Repos raw) &&
  existsb (re_matches Compile file) (bl_BlockRegexps raw) &&
  negb (existsb (re_matches Compile file) (bl_ExceptionRegexps raw)).
Definition protected (Compile : string → result Regexp) (org repo : string) (config : list Blockade)
    (changes : list PullRequestChange) : bool :=
  existsb (λ change, existsb (protects Compile org repo (ch_Filename change)) config) changes.

Lemma compile_all_matches Compile file strs :
  matchesAny file (compile_all Compile strs) = existsb (re_matches Compile file) strs.
Proof.
  unfold matchesAny, compile_all. induction strs as [|str strs IH]; [done|]. cbn. rewrite <- IH. unfold re_matches.
  by destruct (Compile str).
Qed.

Lemma isBlocked_protects Compile org repo file config :
  existsb (λ b, isBlocked b file) (compileApplicableBlockades Compile org repo config) =
  existsb (protects Compile org repo file) config.
Proof.
  unfold compileApplicableBlockades. induction config as [|raw config IH]; [done|]. cbn. rewrite <- IH.
  unfold protects, compile_blockade. rewrite <- !compile_all_matches.
  destruct (bool_decide_reflect (org ∉ bl_Repos raw ∧ org +:+ "/" +:+ repo ∉ bl_Repos raw)) as [Hno|Hyes].
  { by rewrite (bool_decide_eq_false_2 (org ∈ _ ∨ _)) by tauto. }
  rewrite (bool_decide_eq_true_2 (org ∈ _ ∨ _)) by (apply dec_stable; tauto). cbv zeta.
  case_bool_decide as Hlen; [|done]. apply length_zero_iff_nil in Hlen. by rewrite Hlen.
Qed.

Lemma blocked_protected Compile org repo config changes :
  blocked changes (compileApplicableBlockades Compile org repo config) = protected Compile org repo config changes.
Proof.
  unfold blocked, protected. induction changes as [|change changes IH]; [done|]. cbn. by rewrite IH, isBlocked_protects.
Qed.

Lemma blocked_nil changes : blocked changes [] = false.
Proof. by induction changes. Qed.

(** There is a summary if something is blocked. *)
Lemma calculateBlocks_empty changes bs :
  bool_decide (calculateBlocks changes bs = ∅) = negb (blocked changes bs).
Proof.
  apply eq_true_iff_eq. rewrite bool_decide_eq_true, negb_true_iff, <- blocked_by_nil. split.
  - intros E reason. by rewrite <- calculateBlocks_lookup, E, lookup_empty.
  - intros Hn. apply map_empty. intros reason. specialize (Hn reason). rewrite <- calculateBlocks_lookup in Hn.
    destruct (_ !! reason) as [[|]|] eqn:E; [by apply calculateBlocks_nonempty in E|done|done].
Qed.

Section follows.
Context `{GoRange} (gh : GitHub).

Lemma cherrypick_follows branchRe commentBody cp pr :
  if cherrypick_relevant pr && branchRe (gpr_BaseRef (pe_PullRequest pr))
  then Decides gh (event_issue pr) false CpUnapproved (λ L, negb (has_label CpApproved L))
         (cherrypick_handlePR gh branchRe commentBody cp pr)
  else Idle (cherrypick_handlePR gh branchRe commentBody cp pr).
Proof.
  unfold cherrypick_handlePR. destruct (cherrypick_relevant pr); [|done]. destruct (branchRe _); [|done].
  cbn [andb negb]. apply decides_intro. intros L0 tr Hf _.
  destruct (ask_labels gh _ _ _ _ tr Hf) as (l & Hl & El).
  erewrite hbind_ok by exact Hl. cbv beta zeta. rewrite !HasLabel_ok, El.
  destruct (has_label CpApproved _), (has_label CpUnapproved _); cbn [negb].
  - unfold or_zero. erewrite hbind_ok by (erewrite outcome_run by (by eapply ask_done); done). cbv beta.
    edestruct PruneComments_run as (new & c' & Hp & Hn). erewrite hbind_ok by exact Hp. cbv beta.
    exists [GetIssueLabels (pe_Org pr) (pe_Repo pr) (pe_Number pr)], new. split_and!; [done|done|].
    cbn. unfold hret. by rewrite <- !(assoc_L (++)).
  - cbn. edestruct PruneComments_run as (new & c' & Hp & Hn). erewrite hbind_ok by done.
    erewrite hbind_ok by exact Hp. cbv beta.
    exists [GetIssueLabels (pe_Org pr) (pe_Repo pr) (pe_Number pr)], new. split_and!; [done|done|].
    cbn. unfold hret. by rewrite <- !(assoc_L (++)).
  - exists [GetIssueLabels (pe_Org pr) (pe_Repo pr) (pe_Number pr)], []. done.
  - unfold or_zero. erewrite hbind_ok by (erewrite outcome_run by (by eapply ask_done); done). cbv beta.
    erewrite outcome_run by (by eapply ask_done).
    eexists [GetIssueLabels (pe_Org pr) (pe_Repo pr) (pe_Number pr)], [CreateComment _ _ _ _].
    split_and!; [done|done|]. cbn -[FormatSimpleResponse]. by rewrite <- !(assoc_L (++)).
Qed.

Lemma mergecommit_follows cp pre exist :
  (∀ tr, on_bool gh (tr ++ [MergeCommitsExistBetween (gpr_BaseRepoOwner (pe_PullRequest pre))
     (gpr_BaseRepoName (pe_PullRequest pre)) (gpr_Number (pe_PullRequest pre))
     (gpr_BaseSHA (pe_PullRequest pre)) (gpr_HeadSHA (pe_PullRequest pre))]) = Ok exist) →
  Follows gh (pr_issue pre) false MergeCommits (if pr_opened pre then Some exist else None)
    (mergecommit_handle gh cp pre).
Proof.
  intros Hb. unfold mergecommit_handle, pr_opened. case_bool_decide as Ha; cycle 1.
  { by rewrite bool_decide_eq_true_2. }
  rewrite bool_decide_eq_false_2 by (intros Hn; by apply Hn). cbv zeta.
  apply drives_intro. intros L0 tr Hf _.
  set (q := MergeCommitsExistBetween _ _ _ _ _) in *.
  erewrite hbind_ok by (unfold ask; rewrite Hb; done). cbv beta.
  edestruct (ask_labels gh) as (l & Hl & El); [exact Hf|].
  erewrite hbind_ok by exact Hl. cbv beta. rewrite HasLabel_ok, El, labels_after_app. cbn [labels_after foldl label_step q].
  fold (pr_issue pre). set (L := labels_after (pr_issue pre) L0 tr).
  set (get := GetIssueLabels _ _ _).
  destruct (has_label MergeCommits L), exist; cbn [negb andb].
  - exists [q; get], []. split_and!; [done|done|]. cbn. by rewrite <- !(assoc_L (++)).
  - erewrite hbind_ok by (by eapply ask_done). cbv beta.
    edestruct PruneComments_run as (new & c' & Hp & Hn). erewrite hbind_ok by exact Hp. cbv beta.
    exists [q; get], new. split_and!; [done|done|]. cbn. unfold hret. by rewrite <- !(assoc_L (++)).
  - erewrite hbind_ok by (by eapply ask_done). cbv beta. erewrite ask_done by exact Hf.
    eexists [q; get], [CreateComment _ _ _ _]. split_and!; [done|done|].
    cbn -[FormatSimpleResponse]. by rewrite <- !(assoc_L (++)).
  - exists [q; get], []. split_and!; [done|done|]. cbn. by rewrite <- !(assoc_L (++)).
Qed.

Lemma blockade_follows Compile config cp pre changes :
  changed gh (event_issue pre) changes →
  Follows gh (event_issue pre) false BlockedPaths
    (if pr_opened pre then Some (protected Compile (pe_Org pre) (pe_Repo pre) config changes) else None)
    (blockade_handle gh Compile config cp pre).
Proof.
  intros Hc. unfold blockade_handle, pr_opened. case_bool_decide as Ha; cycle 1.
  { rewrite bool_decide_eq_true_2; [done|]. intros Hn. apply Ha. set_solver. }
  rewrite bool_decide_eq_false_2 by (intros Hn; apply Hn; set_solver). cbv zeta.
  rewrite <- blocked_protected. set (bs := compileApplicableBlockades _ _ _ _). apply drives_intro. intros L0 tr Hf _.
  destruct (ask_labels gh _ _ _ _ tr Hf) as (l & Hl & El).
  erewrite hbind_ok by exact Hl. cbv beta. rewrite HasLabel_ok, El. fold (event_issue pre).
  set (L := labels_after (event_issue pre) L0 tr). set (get := GetIssueLabels _ _ _).
  assert (∃ q sum, omap label_write q = [] ∧ bool_decide (sum = ∅) = negb (blocked changes bs) ∧
    (if bool_decide (length bs = 0) then hret ∅
     else let! changes := ask (on_changes gh) (GetPullRequestChanges (pe_Org pre) (pe_Repo pre) (pe_Number pre)) in
          hret (calculateBlocks changes bs)) (tr ++ [get]) = ((tr ++ [get]) ++ q, Some (Ok sum)))
    as (q & sum & Hq & Hsum & Hrun).
  { case_bool_decide as Hlen.
    - exists [], ∅. rewrite app_nil_r. split_and!; [done| |done].
      rewrite bool_decide_eq_true_2 by done. apply length_zero_iff_nil in Hlen. by rewrite Hlen, blocked_nil.
    - eexists [_], (calculateBlocks changes bs). split_and!; [|apply calculateBlocks_empty|].
      2: by erewrite hbind_ok by (by apply ask_changes). done. }
  destruct (bool_decide (length bs = 0) && negb (has_label BlockedPaths L)) eqn:Enone.
  { apply andb_true_iff in Enone as [Hlen%bool_decide_eq_true Hno%negb_true_iff].
    apply length_zero_iff_nil in Hlen. exists [get], []. rewrite Hno, Hlen.
    by rewrite blocked_nil. }
  clear Enone. erewrite hbind_ok by exact Hrun. cbv beta. rewrite Hsum, negb_involutive.
  destruct (has_label BlockedPaths L), (blocked changes bs); cbn [negb andb].
  - exists (get :: q), []. split_and!; [done|done|]. cbn. by rewrite app_nil_r, <- !(assoc_L (++)).
  - erewrite hbind_ok by (by eapply ask_done). cbv beta.
    edestruct PruneComments_run as (new & c' & Hp & Hn). erewrite hbind_ok by exact Hp. cbv beta.
    exists (get :: q), new. split_and!; [done|done|]. cbn. unfold hret. by rewrite <- !(assoc_L (++)).
  - erewrite hbind_ok by (by eapply ask_done). cbv beta. erewrite ask_done by exact Hf.
    eexists (get :: q), [CreateComment _ _ _ _]. split_and!; [done|done|].
    cbn -[FormatResponse summary_string]. by rewrite <- !(assoc_L (++)).
  - exists (get :: q), []. split_and!; [done|done|]. cbn. by rewrite app_nil_r, <- !(assoc_L (++)).
Qed.
End follows.

(** ** Labels that must match *)

(** No label matches, so that the label of the configuration is wanted. *)
Definition unmatched (L : gset string) (cfg : RequireMatchingLabel) : bool :=
  negb (bool_decide (set_Exists (λ l, rl_Re cfg l = true) L)).
Definition required_after (cfgs : list RequireMatchingLabel) (L : gset string) : gset string :=
  foldl (λ L' cfg, set_label (rl_MissingLabel cfg) (unmatched L cfg) L') L cfgs.
(** The configurations want different labels, and each is only known as it is spelled. *)
Definition apart (cfgs : list RequireMatchingLabel) (L : gset string) : Prop :=
  NoDup (to_lower <$> (rl_MissingLabel <$> cfgs)) ∧ ∀ cfg, cfg ∈ cfgs → spelled (rl_MissingLabel cfg) L.

Lemma unmatched_ok current cfg : unmatched (set_of current) cfg = negb (existsb (rl_Re cfg) current).
Proof.
  unfold unmatched. f_equal. apply eq_true_iff_eq. rewrite bool_decide_eq_true, existsb_exists. unfold set_Exists.
  setoid_rewrite elem_of_set_of. setoid_rewrite list_elem_of_In. done.
Qed.

Lemma missing_ok label current L : set_of current = L → spelled label L →
  existsb (λ l, bool_decide (l = label)) current = has_label label L.
Proof.
  intros <- Hs. rewrite spelled_has by done. apply eq_true_iff_eq. rewrite existsb_exists, bool_decide_eq_true, elem_of_set_of.
  setoid_rewrite bool_decide_eq_true. rewrite list_elem_of_In. naive_solver.
Qed.

Section required.
Context (gh : GitHub) (e : label_event) (current : list string).

Lemma require_one_run cfg cp L0 L tr :
  faithful gh (labelled_issue e) L0 → labels_after (labelled_issue e) L0 tr = L →
  existsb (λ l, bool_decide (l = rl_MissingLabel cfg)) current = has_label (rl_MissingLabel cfg) L →
  ∃ q cp', omap label_write q = [] ∧
    require_one gh e current cfg cp tr =
      (tr ++ writes (labelled_issue e) (rl_MissingLabel cfg) (has_label (rl_MissingLabel cfg) L)
               (unmatched (set_of current) cfg) ++ q, Some (Ok cp')).
Proof.
  intros Hf HL Hm. unfold require_one. rewrite Hm, unmatched_ok.
  destruct (existsb (rl_Re cfg) current), (has_label (rl_MissingLabel cfg) L); cbn [negb andb].
  - unfold or_zero. erewrite hbind_ok by (erewrite outcome_run by (by eapply ask_done); done). cbv beta.
    destruct (negb (bool_decide (rl_MissingComment cfg = ""))).
    + edestruct PruneComments_run as (new & c' & Hp & Hn). rewrite Hp. exists new, c'. split; [done|].
      cbn. by rewrite <- (assoc_L (++)).
    + by exists [], cp.
  - exists [], cp. cbn. by rewrite app_nil_r.
  - exists [], cp. cbn. by rewrite app_nil_r.
  - unfold or_zero. erewrite hbind_ok by (erewrite outcome_run by (by eapply ask_done); done). cbv beta.
    destruct (negb (bool_decide (rl_MissingComment cfg = ""))).
    + erewrite hbind_ok by (erewrite outcome_run by (by eapply ask_done); done).
      eexists [CreateComment _ _ _ _], cp. split; [done|]. unfold hret. cbn -[FormatSimpleResponse].
      by rewrite <- (assoc_L (++)).
    + erewrite hbind_ok by done. by exists [], cp.
Qed.

Lemma require_all_run cfgs cp L0 L tr :
  faithful gh (labelled_issue e) L0 → labels_after (labelled_issue e) L0 tr = L →
  NoDup (to_lower <$> (rl_MissingLabel <$> cfgs)) →
  (∀ cfg, cfg ∈ cfgs →
     existsb (λ l, bool_decide (l = rl_MissingLabel cfg)) current = has_label (rl_MissingLabel cfg) L) →
  ∃ new, require_all gh e current cfgs cp tr = (tr ++ new, Some (Ok tt)) ∧
    labels_after (labelled_issue e) L0 (tr ++ new) =
      foldl (λ L' cfg, set_label (rl_MissingLabel cfg) (unmatched (set_of current) cfg) L') L cfgs ∧
    omap label_write new = (cfg ← cfgs; omap label_write (writes (labelled_issue e) (rl_MissingLabel cfg)
      (has_label (rl_MissingLabel cfg) L) (unmatched (set_of current) cfg))).
Proof.
  intros Hf. revert cp L tr. induction cfgs as [|cfg cfgs IH]; intros cp L tr HL Hnd Hm; cbn [require_all].
  { exists []. by rewrite app_nil_r. }
  cbn in Hnd. apply NoDup_cons in Hnd as [Hni Hnd].
  destruct (require_one_run cfg cp L0 L tr Hf HL) as (q & cp' & Hq & Hrun); [apply Hm; by left|].
  erewrite hbind_ok by exact Hrun. cbv beta. set (w := writes _ _ _ _) in *.
  assert (labels_after (labelled_issue e) L0 (tr ++ w ++ q) =
    set_label (rl_MissingLabel cfg) (unmatched (set_of current) cfg) L) as HL'.
  { rewrite !labels_after_app, HL, (labels_after_quiet _ _ q) by done. apply writes_after. }
  assert (∀ c, c ∈ cfgs → has_label (rl_MissingLabel c) (set_label (rl_MissingLabel cfg)
    (unmatched (set_of current) cfg) L) = has_label (rl_MissingLabel c) L) as Hsame.
  { intros c Hc. rewrite has_set_label, bool_decide_eq_false_2; [done|]. intros E. apply Hni. rewrite <- E.
    by do 2 apply list_elem_of_fmap_2. }
  destruct (IH cp' _ _ HL' Hnd) as (new & Hr & Ha & Hw).
  { intros c Hc. rewrite Hsame by done. apply Hm. by right. }
  exists (w ++ q ++ new). rewrite Hr. rewrite <- !(assoc_L (++)) in *. split_and!; [done..|].
  rewrite !omap_app, Hq, Hw. cbn. f_equal. clear -Hsame. induction cfgs as [|c cfgs IH]; [done|]. cbn.
  rewrite Hsame by (by left). f_equal. apply IH. intros c' Hc'. apply Hsame. by right.
Qed.
End required.

(** Each label is as its configuration wants it. *)
Lemma required_has cfgs L0 L cfg :
  NoDup (to_lower <$> (rl_MissingLabel <$> cfgs)) → cfg ∈ cfgs →
  has_label (rl_MissingLabel cfg)
    (foldl (λ L' cfg, set_label (rl_MissingLabel cfg) (unmatched L0 cfg) L') L cfgs) = unmatched L0 cfg.
Proof.
  revert L. induction cfgs as [|c cfgs IH]; intros L Hnd Hin; [by apply not_elem_of_nil in Hin|].
  cbn in Hnd |- *. apply NoDup_cons in Hnd as [Hni Hnd]. apply elem_of_cons in Hin as [->|Hin]; [|by apply IH].
  clear IH. assert (∀ L, has_label (rl_MissingLabel c) L = unmatched L0 c →
    has_label (rl_MissingLabel c) (foldl (λ L' cfg, set_label (rl_MissingLabel cfg) (unmatched L0 cfg) L') L cfgs) =
    unmatched L0 c) as Hkeep.
  { induction cfgs as [|c' cfgs IH]; intros L' HL'; [done|]. cbn in Hni, Hnd |- *.
    apply not_elem_of_cons in Hni as [Hne Hni]. apply NoDup_cons in Hnd as [_ Hnd]. apply IH; [done..|].
    by rewrite has_set_label, bool_decide_eq_false_2. }
  apply Hkeep. by rewrite has_set_label, bool_decide_eq_true_2.
Qed.

Lemma require_reconciles gh configs cp e :
  lv_label e = "" ∨ lv_currentLabels e = None →
  Reconciles gh (labelled_issue e) (apart (matchingConfigs e configs))
    (λ l, l ∈ rl_MissingLabel <$> matchingConfigs e configs)
    (require_handle gh configs cp e) (required_after (matchingConfigs e configs)).
Proof.
  intros Hread L0 tr Hf [Hnd Hs]. unfold require_handle. cbv zeta.
  set (cfgs := matchingConfigs e configs) in *. case_bool_decide as Hlen.
  { apply length_zero_iff_nil in Hlen. rewrite Hlen. exists []. rewrite app_nil_r.
    split_and!; [done..|by intros ? ?%not_elem_of_nil|done]. }
  assert ((if bool_decide (lv_label e = "") then None else lv_currentLabels e) = None) as ->.
  { case_bool_decide; [done|]. by destruct Hread. }
  edestruct (ask_labels gh) as (l & Hl & El); [exact Hf|]. unfold with_err.
  erewrite hbind_ok by (erewrite outcome_run by exact Hl; done). cbv beta. fold (labelled_issue e) in El.
  set (L := labels_after (labelled_issue e) L0 tr) in *. set (get := GetIssueLabels _ _ _).
  destruct (require_all_run gh e l cfgs cp L0 L (tr ++ [get])) as (new & Hr & Ha & Hw); [done| |done| |].
  { by rewrite labels_after_app. }
  { intros cfg Hc. apply missing_ok; [done|]. by apply Hs. }
  exists (get :: new). rewrite Hr, <- (assoc_L (++)) in *. split_and!; [done| | |].
  - rewrite (assoc_L (++)) in Ha. cbn in Ha. rewrite <- (assoc_L (++)) in Ha. cbn in Ha. rewrite Ha.
    unfold required_after. by rewrite El.
  - intros w. cbn. rewrite Hw. intros (cfg & Hin & Hc)%list_elem_of_bind.
    apply label_write_writes in Hin as ->. split; [done|]. by apply (list_elem_of_fmap_2 rl_MissingLabel).
  - intros E. cbn. rewrite Hw. apply elem_of_nil_inv. intros w (cfg & Hin & Hc)%list_elem_of_bind.
    pose proof (required_has cfgs L L cfg Hnd Hc) as Hhas. unfold required_after in E. rewrite E in Hhas.
    rewrite El, Hhas in Hin. unfold writes in Hin. rewrite Bool.eqb_reflx in Hin. by apply not_elem_of_nil in Hin.
Qed.

(** ** Tameness *)

Section tame_checks.
Context `{GoRange} (gh : GitHub).

Lemma cherrypick_tame branchRe commentBody cp pr :
  Tame (event_issue pr) (λ l, l = CpUnapproved) (cherrypick_handlePR gh branchRe commentBody cp pr).
Proof. unfold cherrypick_handlePR. cbv zeta. tame. Qed.

Lemma mergecommit_tame cp pre : Tame (pr_issue pre) (λ l, l = MergeCommits) (mergecommit_handle gh cp pre).
Proof. unfold mergecommit_handle. cbv zeta. tame. Qed.

Lemma blockade_tame Compile config cp pre :
  Tame (event_issue pre) (λ l, l = BlockedPaths) (blockade_handle gh Compile config cp pre).
Proof. unfold blockade_handle. cbv zeta. tame. Qed.

Lemma require_all_tame e current cfgs cp :
  Tame (labelled_issue e) (λ l, l ∈ rl_MissingLabel <$> cfgs) (require_all gh e current cfgs cp).
Proof.
  revert cp. induction cfgs as [|cfg cfgs IH]; intros cp; cbn [require_all]; [apply tame_ret|].
  apply tame_bind; [|intros cp'; eapply tame_weaken; [apply IH|]; intros l ?; apply elem_of_cons; by right].
  unfold require_one. cbv zeta.
  assert (rl_MissingLabel cfg ∈ rl_MissingLabel <$> cfg :: cfgs) by (apply elem_of_cons; by left). tame.
Qed.

Lemma require_tame configs cp e :
  Tame (labelled_issue e) (λ l, l ∈ rl_MissingLabel <$> matchingConfigs e configs) (require_handle gh configs cp e).
Proof.
  unfold require_handle. cbv zeta. tame; [|apply require_all_tame].
  case_bool_decide; [tame|]. destruct (lv_currentLabels e); tame.
Qed.
End tame_checks.

(** C32. The plugins cherry-pick-unapproved, mergecommitblocker, blockade and
    require-matching-label keep their labels.  Whatever GitHub and git answer, none of them
    panics or touches a label that is not its own, or another issue.  If GitHub answers with
    the labels as they are and calls succeed, then afterwards the label is on the issue if and
    only if: the branch is one for cherry-picks and no label approves; git finds merge commits;
    a changed file is protected by a blockade of the repository and not excepted by it; and,
    for each configuration of require-matching-label that applies, no label matches its
    expression.  No other label changes, and none is written that is as wanted. *)
Theorem label_checks_spec `{GoRange} gh Compile branchRe comment config configs cp pr exist changes e :
  (Tame (event_issue pr) (λ l, l = CpUnapproved) (cherrypick_handlePR gh branchRe comment cp pr) ∧
   if cherrypick_relevant pr && branchRe (gpr_BaseRef (pe_PullRequest pr))
   then Decides gh (event_issue pr) false CpUnapproved (λ L, negb (has_label CpApproved L))
          (cherrypick_handlePR gh branchRe comment cp pr)
   else Idle (cherrypick_handlePR gh branchRe comment cp pr)) ∧
  (Tame (pr_issue pr) (λ l, l = MergeCommits) (mergecommit_handle gh cp pr) ∧
   ((∀ tr, on_bool gh (tr ++ [MergeCommitsExistBetween (gpr_BaseRepoOwner (pe_PullRequest pr))
       (gpr_BaseRepoName (pe_PullRequest pr)) (gpr_Number (pe_PullRequest pr))
       (gpr_BaseSHA (pe_PullRequest pr)) (gpr_HeadSHA (pe_PullRequest pr))]) = Ok exist) →
    Follows gh (pr_issue pr) false MergeCommits (if pr_opened pr then Some exist else None)
      (mergecommit_handle gh cp pr))) ∧
  (Tame (event_issue pr) (λ l, l = BlockedPaths) (blockade_handle gh Compile config cp pr) ∧
   (changed gh (event_issue pr) changes →
    Follows gh (event_issue pr) false BlockedPaths
      (if pr_opened pr then Some (protected Compile (pe_Org pr) (pe_Repo pr) config changes) else None)
      (blockade_handle gh Compile config cp pr))) ∧
  (Tame (labelled_issue e) (λ l, l ∈ rl_MissingLabel <$> matchingConfigs e configs) (require_handle gh configs cp e) ∧
   (lv_label e = "" ∨ lv_currentLabels e = None →
    Reconciles gh (labelled_issue e) (apart (matchingConfigs e configs))
      (λ l, l ∈ rl_MissingLabel <$> matchingConfigs e configs)
      (require_handle gh configs cp e) (required_after (matchingConfigs e configs)))).
Proof.
  split_and!; [apply cherrypick_tame|apply cherrypick_follows|apply mergecommit_tame|apply mergecommit_follows
    |apply blockade_tame|apply blockade_follows|apply require_tame|apply require_reconciles].
Qed.

(** A blockade of a directory but for its documentation. *)
Definition w_blockade : Blockade := mkBlockade ["o/r"] ["^vendor/"] ["docs"; "("] "".
Definition w_Compile (s : string) : result Regexp :=
  if bool_decide (s = "(") then Err (errors_New "missing )")
  else Ok (λ file, match trim_prefix_go "^" s with
                   | Some prefix => bool_decide (is_Some (trim_prefix_go prefix file))
                   | None => contains file s
                   end).
Definition w_needs_sig : RequireMatchingLabel :=
  mkRequireMatchingLabel "o" "r" "" true true "^sig/" (λ l, bool_decide (is_Some (trim_prefix_go "sig/" l)))
    "needs-sig" "please add a sig" "5s" 5.
Definition w_label_event : label_event := mklabel_event "o" "r" 1 "author" "master" "" None.
Definition w_vendored : GitHub := honest w_issue {["kind/bug"]} ["vendor/file"].

(** A pull request that touches the directory and has no label of a sig gets both labels. *)
Lemma label_checks_witness :
  ∃ t1 t2,
    @blockade_handle listing_order w_vendored w_Compile [w_blockade] (NewEventClient "o" "r" 1) w_opened [] =
      (t1, Some (Ok tt)) ∧
    labels_after w_issue {["kind/bug"]} t1 = set_label BlockedPaths true {["kind/bug"]} ∧
    require_handle w_vendored [w_needs_sig] (NewEventClient "o" "r" 1) w_label_event [] = (t2, Some (Ok tt)) ∧
    labels_after w_issue {["kind/bug"]} t2 = {["kind/bug"; "needs-sig"]}.
Proof.
  pose proof (honest_faithful w_issue {["kind/bug"]} ["vendor/file"]) as Hf.
  destruct (@label_checks_spec listing_order w_vendored w_Compile no_regexp "" [w_blockade] [w_needs_sig]
    (NewEventClient "o" "r" 1) w_opened true [mkChange "vendor/file" 1 0 1 "blob"] w_label_event)
    as (_ & _ & (_ & Hb) & _ & Hr).
  specialize (Hb (λ tr, eq_refl)). specialize (Hr (or_introl eq_refl)).
  change (Drives w_vendored w_issue false BlockedPaths true
    (@blockade_handle listing_order w_vendored w_Compile [w_blockade] (NewEventClient "o" "r" 1) w_opened)) in Hb.
  destruct (Hb {["kind/bug"]} [] Hf I) as (t1 & E1 & L1 & _).
  destruct (Hr {["kind/bug"]} [] Hf) as (t2 & E2 & L2 & _).
  { change (matchingConfigs w_label_event [w_needs_sig]) with [w_needs_sig].
    split; [apply NoDup_singleton|]. intros cfg. rewrite list_elem_of_singleton. intros -> l. cbn.
    rewrite elem_of_singleton. intros ->. vm_compute. discriminate. }
  exists t1, t2. cbn [app] in *. split_and!; [exact E1|exact L1|exact E2|]. refine (eq_trans L2 _).
  vm_compute. reflexivity.
Defined.
