(* ===== verification/NeedsRebase.v ===== *)
(** * The needs-rebase plugin (external-plugins/needs-rebase/plugin/plugin.go)

    The label says that a pull request cannot be merged; it follows events of the pull
    request and a search over all of them.  The wait before the question is not
    modelled. *)

From S2P Require Import Prelude Api JobConfig PjUtil GoText Handler GitHub CommentPruner Trigger PluginConfig TideBlockers Hook LabelSpec LabelPlugins Samples.
#[local] Open Scope go_scope.

Definition needsRebaseMessage : string := "PR needs rebase.".

(** A pull request that the search finds. *)
Record FoundPR := mkFoundPR {
  fp_Number : Z; fp_Author : string; fp_Repo : string; fp_Owner : string; fp_Labels : list string;
  fp_Mergeable : string }.
Definition MergeableStateMergeable : string := "MERGEABLE".
Definition MergeableStateUnknown : string := "UNKNOWN".

Section rebase.
Context `{GoRange} (gh : GitHub).

(** ** The GitHub client (github/client.go) *)

(** The loop of [client.IsMergeable]: GitHub may not have found out yet. *)
Fixpoint mergeable_tries (org repo : string) (number : Z) (SHA : string) (tries : nat) : H Call bool :=
  match tries with
  | 0 => herr (Errorf "reached maximum number of retries (%d) checking mergeability" [AInt 3])
  | S tries =>
      let! pr := ask (on_pr gh) (GetPullRequest org repo number) in
      if bool_decide (gpr_HeadSHA pr ≠ SHA) then
        herr (Errorf "pull request head changed while checking mergeability (%s -> %s)"
                [AStr SHA; AStr (gpr_HeadSHA pr)])
      else if gpr_Merged pr then herr (errors_New "pull request was merged while checking mergeability")
      else match gpr_Mergable pr with
           | Some mergeable => hret mergeable
           | None => mergeable_tries org repo number SHA tries
           end
  end.
Definition IsMergeable (org repo : string) (number : Z) (SHA : string) : H Call bool :=
  mergeable_tries org repo number SHA 3.

(** [client.DeleteStaleComments] when no comments are given. *)
Fixpoint delete_stale (org repo : string) (isStale : IssueComment → bool) (comments : list IssueComment)
    : H Call unit :=
  match comments with
  | [] => hret tt
  | comment :: comments =>
      if isStale comment then
        let! deleted := attempt (ask (on_done gh) (DeleteComment org repo (ic_ID comment))) in
        match deleted with
        | Ok _ => delete_stale org repo isStale comments
        | Err _ => herr (Errorf "failed to delete stale comment with ID '%d'" [AInt (ic_ID comment)])
        end
      else delete_stale org repo isStale comments
  end.
Definition DeleteStaleComments (org repo : string) (number : Z) (isStale : IssueComment → bool) : H Call unit :=
  let! comments := with_err "failed to list comments while deleting stale comments. err: %v"
                     (ask (on_comments gh) (ListIssueComments org repo number)) in
  delete_stale org repo isStale comments.

(** ** The plugin *)

Definition shouldPrune (botName : string) (ic : IssueComment) : bool :=
  bool_decide (NormLogin botName = NormLogin (ic_User ic)) && contains (ic_Body ic) needsRebaseMessage.

Definition takeAction (org repo : string) (num : Z) (author : string) (hasLabel mergeable : bool) : H Call unit :=
  if negb mergeable && negb hasLabel then
    let! _ := or_zero tt (ask (on_done gh) (AddLabel org repo num NeedsRebase)) in
    ask (on_done gh) (CreateComment org repo num (FormatSimpleResponse author needsRebaseMessage))
  else if mergeable && hasLabel then
    let! _ := or_zero tt (ask (on_done gh) (RemoveLabel org repo num NeedsRebase)) in
    let! botName := ask (on_name gh) BotName in
    DeleteStaleComments org repo num (shouldPrune botName)
  else hret tt.

(** [handle] *)
Definition rebase_handle (pr : GitHubPullRequest) : H Call unit :=
  if gpr_Merged pr then hret tt
  else
    let org := gpr_BaseRepoOwner pr in
    let repo := gpr_BaseRepoName pr in
    let number := gpr_Number pr in
    let! mergeable := IsMergeable org repo number (gpr_HeadSHA pr) in
    let! issueLabels := ask (on_labels gh) (GetIssueLabels org repo number) in
    takeAction org repo number (gpr_UserLogin pr) (HasLabel NeedsRebase issueLabels) mergeable.

Definition rebase_HandlePullRequestEvent (pre : PullRequestEvent) : H Call unit :=
  if bool_decide (pe_Action pre ∉ [PullRequestActionOpened; PullRequestActionSynchronize; PullRequestActionReopened])
  then hret tt else rebase_handle (pe_PullRequest pre).

Definition rebase_HandleIssueCommentEvent (ice : IssueCommentEvent) : H Call unit :=
  if negb (is_PullRequest (ice_Issue ice)) then hret tt
  else
    let! pr := ask (on_pr gh) (GetPullRequest (er_OwnerLogin (ice_Repo ice)) (er_Name (ice_Repo ice))
                                 (is_Number (ice_Issue ice))) in
    rebase_handle pr.

(** *** All pull requests *)

Definition rebase_query (orgs repos : list string) : string :=
  "archived: false is:pr is:open" +:+
  String.concat "" ((λ org, " org:" +:+ quoted org) <$> orgs) +:+
  String.concat "" ((λ repo, " repo:" +:+ quoted repo) <$> repos).

(** Those whose mergeability GitHub is still finding out are left for later; errors are only logged. *)
Fixpoint rebase_found (prs : list FoundPR) : H Call unit :=
  match prs with
  | [] => hret tt
  | pr :: prs =>
      let! _ := (if bool_decide (fp_Mergeable pr = MergeableStateUnknown) then hret tt
                 else or_zero tt (takeAction (fp_Owner pr) (fp_Repo pr) (fp_Number pr) (fp_Author pr)
                        (existsb (λ label, bool_decide (label = NeedsRebase)) (fp_Labels pr))
                        (bool_decide (fp_Mergeable pr = MergeableStateMergeable)))) in
      rebase_found prs
  end.

(** What GitHub answers to a query at a cursor is a parameter; [None] when [fuel] pages were not the end. *)
Definition rebase_HandleAll (query : string → option string → result (page FoundPR)) (fuel : nat) (config : Configuration)
    : option (H Call unit) :=
  let '(orgs, repos) := EnabledReposForExternalPlugin config NeedsRebase in
  if bool_decide (orgs = [] ∧ repos = []) then Some (hret tt)
  else
    (λ found : result (list FoundPR), match found with Err err => herr err | Ok prs => rebase_found prs end)
    <$> search_all (query (rebase_query orgs repos)) fuel.
End rebase.

(** ** Mergeability *)

(** GitHub has found out whether the pull request, still at [SHA], can be merged. *)
Definition decided (SHA : string) (b : bool) (pr : GitHubPullRequest) : Prop :=
  gpr_HeadSHA pr = SHA ∧ gpr_Merged pr = false ∧ gpr_Mergable pr = Some b.
Definition undecided (SHA : string) (pr : GitHubPullRequest) : Prop :=
  gpr_HeadSHA pr = SHA ∧ gpr_Merged pr = false ∧ gpr_Mergable pr = None.

Section mergeable.
Context (gh : GitHub) (org repo : string) (number : Z) (SHA : string).
Let get : Call := GetPullRequest org repo number.

(** The first answer that is decided is returned, and there is none after it. *)
Lemma mergeable_tries_run tries tr :
  ∃ k r, mergeable_tries gh org repo number SHA tries tr = (tr ++ replicate k get, Some r) ∧ k ≤ tries ∧
    ∀ b, r = Ok b ↔
      ∃ j, j < tries ∧
        (∀ i, i < j → ∃ pr, on_pr gh (tr ++ replicate (S i) get) = Ok pr ∧ undecided SHA pr) ∧
        ∃ pr, on_pr gh (tr ++ replicate (S j) get) = Ok pr ∧ decided SHA b pr.
Proof.
  revert tr. induction tries as [|tries IH]; intros tr; cbn [mergeable_tries].
  { eexists 0, (Err _). rewrite app_nil_r. split_and!; [done|done|]. intros b. split; [done|]. intros (j & ? & _). lia. }
  assert (∀ r : result bool, (∀ b, r = Ok b ↔ ∃ pr, on_pr gh (tr ++ [get]) = Ok pr ∧ decided SHA b pr) →
    (∀ pr, on_pr gh (tr ++ [get]) = Ok pr → ¬ undecided SHA pr) →
    ∀ b, r = Ok b ↔ ∃ j, j < S tries ∧
        (∀ i, i < j → ∃ pr, on_pr gh (tr ++ replicate (S i) get) = Ok pr ∧ undecided SHA pr) ∧
        ∃ pr, on_pr gh (tr ++ replicate (S j) get) = Ok pr ∧ decided SHA b pr) as Hfirst.
  { intros r Hr Hu b. rewrite Hr. split.
    - intros Hpr. exists 0. split_and!; [lia|intros; lia|done].
    - intros ([|j] & _ & Hi & Hpr); [done|]. destruct (Hi 0) as (pr & Hpr0 & Hund); [lia|]. by apply Hu in Hpr0. }
  unfold ask, hbind at 1. rewrite bind_app. fold get. destruct (on_pr gh (tr ++ [get])) as [pr|err] eqn:Epr; cycle 1.
  { exists 1, (Err err). split_and!; [done|lia|]. apply Hfirst; [|done]. by split; [|intros (? & ? & _)]. }
  cbv beta iota. cbn [fst snd]. case_bool_decide as Esha.
  { eexists 1, (Err _). split_and!; [done|lia|]. apply Hfirst; [|intros ? [= <-] (? & _); congruence].
    intros b. split; [done|]. intros (? & [= <-] & ? & _). congruence. }
  destruct (gpr_Merged pr) eqn:Em.
  { eexists 1, (Err _). split_and!; [done|lia|]. apply Hfirst; [|intros ? [= <-] (_ & ? & _); congruence].
    intros b. split; [done|]. intros (? & [= <-] & _ & ? & _). congruence. }
  destruct (gpr_Mergable pr) as [b0|] eqn:Eb.
  { exists 1, (Ok b0). split_and!; [done|lia|]. apply Hfirst; [|intros ? [= <-] (_ & _ & ?); congruence].
    intros b. split; [intros [= ->]; by exists pr|]. intros (? & [= <-] & _ & _ & ?). congruence. }
  destruct (IH (tr ++ [get])) as (k & r & Hrun & Hk & Hr). exists (S k), r.
  split_and!; [by rewrite Hrun, <- (assoc_L (++))|lia|]. intros b. rewrite Hr. split.
  - intros (j & Hj & Hi & Hpr). exists (S j). rewrite <- (assoc_L (++)) in Hpr. split_and!; [lia| |done].
    intros [|i] Hij; [by exists pr|]. specialize (Hi i). rewrite <- (assoc_L (++)) in Hi. apply Hi. lia.
  - intros (j & Hj & Hi & Hpr). destruct j as [|j].
    { destruct Hpr as (pr' & Hpr & _ & _ & ?). cbn in Hpr. congruence. }
    exists j. rewrite <- (assoc_L (++)). split_and!; [lia| |done]. intros i Hij.
    rewrite <- (assoc_L (++)). apply (Hi (S i)). lia.
Qed.

End mergeable.

(** [IsMergeable] asks three times at most, and answers what GitHub has decided of the pull
    request at that commit. *)
Theorem IsMergeable_spec gh org repo number SHA tr :
  let get := GetPullRequest org repo number in
  ∃ k r, IsMergeable gh org repo number SHA tr = (tr ++ replicate k get, Some r) ∧ k ≤ 3 ∧
    ∀ b, r = Ok b ↔
      ∃ j, j < 3 ∧
        (∀ i, i < j → ∃ pr, on_pr gh (tr ++ replicate (S i) get) = Ok pr ∧ undecided SHA pr) ∧
        ∃ pr, on_pr gh (tr ++ replicate (S j) get) = Ok pr ∧ decided SHA b pr.
Proof. apply mergeable_tries_run. Qed.

(** ** The label *)

(** GitHub names the bot and lists the comments. *)
Definition comments_answered (gh : GitHub) : Prop :=
  (∀ tr, ∃ name, on_name gh tr = Ok name) ∧ ∀ tr, ∃ comments, on_comments gh tr = Ok comments.

Lemma delete_stale_run gh at_issue L0 org repo isStale comments tr : faithful gh at_issue L0 →
  ∃ new, delete_stale gh org repo isStale comments tr = (tr ++ new, Some (Ok tt)) ∧ omap label_write new = [].
Proof.
  intros Hf. revert tr. induction comments as [|comment comments IH]; intros tr; cbn [delete_stale].
  { exists []. by rewrite app_nil_r. }
  destruct (isStale comment); [|apply IH].
  erewrite hbind_ok by (by apply attempt_run; eapply ask_done). cbv beta iota.
  destruct (IH (tr ++ [DeleteComment org repo (ic_ID comment)])) as (new & -> & Hn).
  exists (DeleteComment org repo (ic_ID comment) :: new). by rewrite <- (assoc_L (++)).
Qed.

Lemma takeAction_run gh at_issue org repo num author has mergeable L0 tr :
  comments_answered gh → faithful gh at_issue L0 →
  ∃ q, omap label_write q = [] ∧
    takeAction gh org repo num author has mergeable tr =
      (tr ++ writes (org, repo, num) NeedsRebase has (negb mergeable) ++ q, Some (Ok tt)).
Proof.
  intros [Hname Hcomments] Hf. unfold takeAction.
  destruct mergeable, has; cbn [andb negb].
  - unfold or_zero. erewrite hbind_ok by (erewrite outcome_run by (by eapply ask_done); done). cbv beta.
    destruct (Hname ((tr ++ [RemoveLabel org repo num NeedsRebase]) ++ [BotName])) as [name Hn].
    erewrite hbind_ok by (unfold ask; by rewrite Hn). cbv beta. unfold DeleteStaleComments, with_err.
    destruct (Hcomments (((tr ++ [RemoveLabel org repo num NeedsRebase]) ++ [BotName]) ++
      [ListIssueComments org repo num])) as [comments Hc].
    erewrite hbind_ok by (unfold ask; erewrite outcome_run by (by rewrite Hc); done). cbv beta.
    edestruct delete_stale_run as (new & -> & Hq); [exact Hf|].
    exists (BotName :: ListIssueComments org repo num :: new). split; [done|].
    cbn. by rewrite <- !(assoc_L (++)).
  - exists []. unfold hret. cbn. by rewrite app_nil_r.
  - exists []. unfold hret. cbn. by rewrite app_nil_r.
  - unfold or_zero. erewrite hbind_ok by (erewrite outcome_run by (by eapply ask_done); done). cbv beta.
    eexists [CreateComment _ _ _ _]. split; [done|]. erewrite ask_done by exact Hf.
    cbn -[FormatSimpleResponse]. by rewrite <- (assoc_L (++)).
Qed.

Lemma replicate_quiet org repo number k : omap label_write (replicate k (GetPullRequest org repo number)) = [].
Proof. by induction k. Qed.

Lemma rebase_drives gh pr mergeable :
  comments_answered gh →
  (∀ tr, ∃ k, IsMergeable gh (gpr_BaseRepoOwner pr) (gpr_BaseRepoName pr) (gpr_Number pr) (gpr_HeadSHA pr) tr =
     (tr ++ replicate k (GetPullRequest (gpr_BaseRepoOwner pr) (gpr_BaseRepoName pr) (gpr_Number pr)),
      Some (Ok mergeable))) →
  gpr_Merged pr = false →
  Drives gh (gpr_BaseRepoOwner pr, gpr_BaseRepoName pr, gpr_Number pr) false NeedsRebase (negb mergeable)
    (rebase_handle gh pr).
Proof.
  intros Ha Hm Hmerged. apply drives_intro. intros L0 tr Hf _. unfold rebase_handle. rewrite Hmerged. cbv zeta.
  destruct (Hm tr) as [k Hk]. erewrite hbind_ok by exact Hk. cbv beta.
  edestruct (ask_labels gh) as (l & Hl & El); [exact Hf|]. erewrite hbind_ok by exact Hl. cbv beta.
  rewrite HasLabel_ok, El. rewrite labels_after_app, (labels_after_quiet _ _ (replicate _ _))
    by apply replicate_quiet.
  edestruct (takeAction_run gh) as (q & Hq & Hrun); [exact Ha|exact Hf|]. rewrite Hrun.
  eexists (replicate k _ ++ [_]), q. split_and!; [|done|by rewrite <- !(assoc_L (++))].
  by rewrite omap_app, replicate_quiet.
Qed.

(** ** All pull requests *)

(** The change of the label that a pull request found needs. *)
Definition found_write (pr : FoundPR) : option Call :=
  let has := existsb (λ label, bool_decide (label = NeedsRebase)) (fp_Labels pr) in
  if bool_decide (fp_Mergeable pr = MergeableStateUnknown) then None
  else if bool_decide (fp_Mergeable pr = MergeableStateMergeable)
       then (if has then Some (RemoveLabel (fp_Owner pr) (fp_Repo pr) (fp_Number pr) NeedsRebase) else None)
       else (if has then None else Some (AddLabel (fp_Owner pr) (fp_Repo pr) (fp_Number pr) NeedsRebase)).

Definition writes_label (c : Call) : bool := bool_decide (is_Some (label_write c)).

(** Nothing panics, and [calls] are the writes of labels. *)
Definition Writes (m : H Call unit) (calls : list Call) : Prop :=
  ∀ tr, ∃ new r, m tr = (tr ++ new, Some r) ∧ List.filter writes_label new = calls.

Lemma writes_quiet (m : H Call unit) : Tame ("", "", 0%Z) (λ _, False) m → Writes m [].
Proof.
  intros Hm tr. destruct (Hm tr) as (new & r & Hr & Hw). exists new, r. split; [done|].
  clear Hr. induction new as [|c new IH]; [done|]. cbn. unfold writes_label at 1.
  destruct (label_write c) as [w|] eqn:Ec.
  - destruct (Hw w) as [_ []]. cbn. rewrite Ec. by left.
  - cbn. apply IH. intros w Hin. apply Hw. cbn. by rewrite Ec.
Qed.

Lemma writes_zero gh c (k : H Call unit) : writes_label c = true →
  Tame ("", "", 0%Z) (λ _, False) k → Writes (let! _ := or_zero tt (ask (on_done gh) c) in k) [c].
Proof.
  intros Hc Hk tr. destruct (writes_quiet k Hk (tr ++ [c])) as (new & r & Hr & Hw). exists (c :: new), r.
  unfold or_zero. erewrite hbind_ok by (by erewrite outcome_run). cbv beta.
  rewrite Hr, <- (assoc_L (++)). split; [done|]. cbn. by rewrite Hc, Hw.
Qed.

Lemma tame_delete_stale at_issue own gh org repo isStale comments :
  Tame at_issue own (delete_stale gh org repo isStale comments).
Proof.
  induction comments as [|comment comments IH]; cbn [delete_stale]; [apply tame_ret|].
  unfold attempt. tame; [|done]. destruct a; [done|]. tame.
Qed.

Lemma takeAction_writes gh pr :
  Writes (if bool_decide (fp_Mergeable pr = MergeableStateUnknown) then hret tt
          else or_zero tt (takeAction gh (fp_Owner pr) (fp_Repo pr) (fp_Number pr) (fp_Author pr)
                 (existsb (λ label, bool_decide (label = NeedsRebase)) (fp_Labels pr))
                 (bool_decide (fp_Mergeable pr = MergeableStateMergeable))))
    (option_list (found_write pr)).
Proof.
  unfold found_write. destruct (bool_decide (_ = MergeableStateUnknown)); [apply writes_quiet, tame_ret|].
  assert (∀ m calls, Writes m calls → Writes (or_zero tt m) calls) as Hzero.
  { intros m calls Hm tr. destruct (Hm tr) as (new & r & Hr & Hw). unfold or_zero. erewrite outcome_run by exact Hr.
    by eexists new, _. }
  apply Hzero. unfold takeAction. destruct (bool_decide (_ = MergeableStateMergeable)), (existsb _ _); cbn [andb negb].
  - apply writes_zero; [done|]. unfold DeleteStaleComments, with_err. tame. apply tame_delete_stale.
  - apply writes_quiet, tame_ret.
  - apply writes_quiet, tame_ret.
  - apply writes_zero; [done|]. tame.
Qed.

Lemma rebase_found_writes gh prs : Writes (rebase_found gh prs) (omap found_write prs).
Proof.
  induction prs as [|pr prs IH]; cbn [rebase_found]; [apply writes_quiet, tame_ret|]. intros tr.
  assert (∃ n1, (if bool_decide (fp_Mergeable pr = MergeableStateUnknown) then hret tt
          else or_zero tt (takeAction gh (fp_Owner pr) (fp_Repo pr) (fp_Number pr) (fp_Author pr)
                 (existsb (λ label, bool_decide (label = NeedsRebase)) (fp_Labels pr))
                 (bool_decide (fp_Mergeable pr = MergeableStateMergeable)))) tr = (tr ++ n1, Some (Ok tt)) ∧
    List.filter writes_label n1 = option_list (found_write pr)) as (n1 & Hr1 & Hw1).
  { destruct (takeAction_writes gh pr tr) as (n1 & r & Hr & Hw). exists n1. split; [|done]. rewrite Hr. revert Hr.
    destruct (bool_decide (_ = MergeableStateUnknown)); [by intros [= _ <-]|]. unfold or_zero, outcome.
    destruct (takeAction _ _ _ _ _ _ _ _) as [t [[[]|]|]]; cbn; congruence. }
  destruct (IH (tr ++ n1)) as (n2 & r & Hr2 & Hw2). exists (n1 ++ n2), r. erewrite hbind_ok by exact Hr1.
  rewrite Hr2, (assoc_L (++)). split; [done|]. rewrite List.filter_app, Hw1, Hw2. cbn. by destruct (found_write pr).
Qed.

Lemma tame_mergeable at_issue own gh org repo number SHA tries :
  Tame at_issue own (mergeable_tries gh org repo number SHA tries).
Proof.
  induction tries as [|tries IH]; cbn [mergeable_tries]; [apply tame_err|].
  apply tame_bind; [tame|]. intros pr. do 2 (apply tame_if; [apply tame_err|]).
  destruct (gpr_Mergable pr); [apply tame_ret|done].
Qed.

Lemma rebase_tame gh pr :
  Tame (gpr_BaseRepoOwner pr, gpr_BaseRepoName pr, gpr_Number pr) (λ l, l = NeedsRebase) (rebase_handle gh pr).
Proof.
  unfold rebase_handle, takeAction, DeleteStaleComments, or_zero, with_err. cbv zeta.
  apply tame_if; [apply tame_ret|]. apply tame_bind; [apply tame_mergeable|]. intros mergeable.
  tame. apply tame_delete_stale.
Qed.

(** The label needs-rebase follows the mergeability of a pull request.  On an event,
    whatever GitHub answers, the plugin does not panic and touches no other label; and when
    GitHub has decided the mergeability of the pull request at its commit, and otherwise
    answers truthfully, the label is afterwards there if and only if it cannot be merged, and
    is not written if it is as wanted.  In the search over all pull requests, whatever GitHub
    answers on the way, exactly those labels are written that differ from a decided
    mergeability, in the order found, each once: no error keeps the rest from being handled. *)
Theorem needs_rebase_spec gh pr prs :
  Tame (gpr_BaseRepoOwner pr, gpr_BaseRepoName pr, gpr_Number pr) (λ l, l = NeedsRebase) (rebase_handle gh pr) ∧
  (∀ mergeable, comments_answered gh →
     (∀ tr, on_pr gh (tr ++ [GetPullRequest (gpr_BaseRepoOwner pr) (gpr_BaseRepoName pr) (gpr_Number pr)]) = Ok pr) →
     decided (gpr_HeadSHA pr) mergeable pr →
     Drives gh (gpr_BaseRepoOwner pr, gpr_BaseRepoName pr, gpr_Number pr) false NeedsRebase (negb mergeable)
       (rebase_handle gh pr)) ∧
  Writes (rebase_found gh prs) (omap found_write prs).
Proof.
  split_and!; [apply rebase_tame| |apply rebase_found_writes].
  intros mergeable Ha Hpr (Hsha & Hm & Hb). apply rebase_drives; [done| |done]. intros tr. exists 1.
  unfold IsMergeable. cbn [mergeable_tries]. erewrite hbind_ok by (unfold ask; rewrite Hpr; done). cbv beta.
  by rewrite bool_decide_eq_false_2, Hm, Hb by auto.
Qed.

Definition w_conflict : GitHubPullRequest :=
  mkGitHubPullRequest 1 "" "author" "" "master" "o" "r" "" "head" "o/r" (Some false) false "open" "" [] "title" false "base".
Definition w_conflicted : GitHub :=
  let g := honest w_issue {["kind/bug"]} [] in
  mkGitHub (on_done g) (on_name g) (on_bool g) (λ _, Ok w_conflict) (on_prs g) (on_labels g) (on_comments g)
    (on_review_comments g) (on_reviews g) (on_events g) (on_changes g) (on_team_list g) (on_members g) (on_statuses g)
    (on_missing g) (on_commits g) (on_combined g) (on_issues g) (on_milestones g) (on_locked g) (on_no_file g)
    (get_statuses g) (get_changes g).

(** A pull request with a conflict, on an event; and a search that finds three. *)
Lemma needs_rebase_witness :
  (∃ t, rebase_handle w_conflicted w_conflict [] = (t, Some (Ok tt)) ∧
     labels_after w_issue {["kind/bug"]} t = {["kind/bug"; "needs-rebase"]}) ∧
  Writes (rebase_found w_conflicted
    [mkFoundPR 1 "a" "r" "o" [] "CONFLICTING"; mkFoundPR 2 "a" "r" "o" [] "UNKNOWN";
     mkFoundPR 3 "a" "r" "o" ["needs-rebase"] "MERGEABLE"])
    [AddLabel "o" "r" 1 "needs-rebase"; RemoveLabel "o" "r" 3 "needs-rebase"].
Proof.
  destruct (needs_rebase_spec w_conflicted w_conflict
    [mkFoundPR 1 "a" "r" "o" [] "CONFLICTING"; mkFoundPR 2 "a" "r" "o" [] "UNKNOWN";
     mkFoundPR 3 "a" "r" "o" ["needs-rebase"] "MERGEABLE"]) as (_ & Hd & Hw).
  split; [|exact Hw].
  assert (comments_answered w_conflicted) as Ha.
  { split; intros tr; [|by eexists]. cbn. destruct (last tr) as [[]|]; eexists; reflexivity. }
  pose proof (Hd false Ha (λ tr, eq_refl) (conj eq_refl (conj eq_refl eq_refl))) as Hdrives.
  destruct (Hdrives {["kind/bug"]} []) as (t & E & L & _).
  { destruct (honest_faithful w_issue {["kind/bug"]} []) as [Hl Hdone]. split; assumption. }
  { exact I. }
  exists t. split; [exact E|]. refine (eq_trans L _). vm_compute. reflexivity.
Defined.

(** GitHub that needs a moment, and one that never finds out. *)
Definition w_slow (after : nat) : GitHub :=
  let g := w_conflicted in
  mkGitHub (on_done g) (on_name g) (on_bool g)
    (λ tr, Ok (if bool_decide (length tr < after) then w_gpr else w_conflict)) (on_prs g) (on_labels g) (on_comments g)
    (on_review_comments g) (on_reviews g) (on_events g) (on_changes g) (on_team_list g) (on_members g) (on_statuses g)
    (on_missing g) (on_commits g) (on_combined g) (on_issues g) (on_milestones g) (on_locked g) (on_no_file g)
    (get_statuses g) (get_changes g).
Example mergeable_in_time : (IsMergeable (w_slow 3) "o" "r" 1 "head" []).2 = Some (Ok false).
Proof. by vm_compute. Qed.
Example mergeable_too_late :
  IsMergeable (w_slow 4) "o" "r" 1 "head" [] =
    (replicate 3 (GetPullRequest "o" "r" 1),
     Some (Err (Errorf "reached maximum number of retries (%d) checking mergeability" [AInt 3]))).
Proof. by vm_compute. Qed.
