(* ===== verification/Witnesses.v ===== *)
(** * Concrete inputs

    For each property with hypotheses, an input on which they hold, with the
    iteration order of [listing_order]; the data is that of Samples and more
    of the same instance. *)

From S2P Require Import Prelude Api JobConfig BranchProtection TideTypes TideConfig PjUtil GitHub Samples Plank TidePool TideMerge TideBlockers TideStatus TideHistory TideSync TideLoop.

#[local] Existing Instance listing_order.

(** ** Configuration *)

Lemma BranchRequirements_required_witness :
  Forall run_modes_exclusive [w_job "unit"; w_manual "slow"] ∧
  ∃ j, j ∈ [w_job "unit"; w_manual "slow"] ∧ ps_Context j = "unit" ∧ ContextRequired j = true ∧
       (∀ changes forced defaults,
          Presubmit_ShouldRun j "master" changes forced defaults = Ok true).
Proof.
  assert (Forall run_modes_exclusive [w_job "unit"; w_manual "slow"]) as H.
  { repeat constructor; reflexivity. }
  split; [exact H|].
  apply (proj1 (BranchRequirements_required "master" _ ["unit"] ["slow"] [] "unit" H eq_refl)).
  by left.
Defined.

Lemma Intersects_complete_witness :
  Brancher_ShouldRun (w_only "master") "master" = true ∧ Intersects (w_only "master") w_all = true.
Proof.
  split; [reflexivity|].
  apply (Intersects_complete (w_only "master") w_all "master"); [| |reflexivity..].
  - intros b Hb. cbn in *. apply bool_decide_eq_true in Hb as ->. by left.
  - intros b Hb. discriminate Hb.
Defined.

Definition w_protected : Policy :=
  mkPolicy (Some true) (Some (mkContextPolicy (Some ["unit"]) None)) None None None None.

Lemma GetBranchProtection_spec_witness :
  is_Some (bp_Orgs w_bp !! "o") ∧
  merged (job_policy w_bp (required_jobs "master" [w_job "unit"]) ++ configured w_bp "o" "r" "master") w_protected.
Proof.
  assert (is_Some (bp_Orgs w_bp !! "o")) as H by (vm_compute; by eexists).
  split; [exact H|].
  pose proof (GetBranchProtection_spec w_bp "o" "r" "master" [w_job "unit"] H) as (_ & _ & Hm).
  assert (GetBranchProtection w_bp "o" "r" "master" [w_job "unit"] = Ok (Some w_protected)) as E
    by (vm_compute; reflexivity).
  rewrite E in Hm. apply Hm; [intros [_ Hd]; vm_compute in Hd; congruence|].
  intros [_ Hd]. vm_compute in Hd. congruence.
Defined.

Lemma GetBranchProtection_contexts_witness :
  GetBranchProtection w_bp "o" "r" "master" [w_job "unit"] = Ok (Some w_protected) ∧
  contexts_of w_protected =
    contexts_of (bp_Policy w_bp) ∪ contexts_of (org_level w_bp "o") ∪
    contexts_of (repo_level w_bp "o" "r") ∪ contexts_of (branch_level w_bp "o" "r" "master") ∪
    set_of (prow_contexts "master" [w_job "unit"]).
Proof.
  assert (GetBranchProtection w_bp "o" "r" "master" [w_job "unit"] = Ok (Some w_protected)) as H
    by (vm_compute; reflexivity).
  split; [exact H|]. exact (GetBranchProtection_contexts _ _ _ _ _ _ H).
Defined.

Definition w_open : Policy := mkPolicy (Some false) None None None None None.
Definition w_bp_open : BranchProtection := 
  mkBranchProtection w_open false {["o" := mkOrg empty_policy ∅]} false false.

Lemma GetBranchProtection_disabled_witness :
  GetBranchProtection w_bp_open "o" "r" "master" [] = Ok (Some w_open) ∧
  prow_contexts "master" [] = [].
Proof.
  assert (GetBranchProtection w_bp_open "o" "r" "master" [] = Ok (Some w_open)) as H
    by (vm_compute; reflexivity).
  split; [exact H|]. exact (proj1 (GetBranchProtection_disabled _ _ _ _ _ _ H eq_refl)).
Defined.

Definition w_query : TideQuery := mkTideQuery ["o"] [] ["o/x"] [] [] ["lgtm"] ["hold"] "" false.

Lemma OrgExceptionsAndRepos_cover_witness :
  Forall valid_query [w_query] ∧
  ((∃ tq, tq ∈ [w_query] ∧ TideQuery_ForRepo tq "o" "r" = true) ↔
   (full_name "o" "r" ∈ (OrgExceptionsAndRepos [w_query]).2 ∨
    ∃ ex, (OrgExceptionsAndRepos [w_query]).1 !! "o" = Some ex ∧ full_name "o" "r" ∉ ex)).
Proof.
  assert (Forall valid_query [w_query]) as H.
  { constructor; [|constructor]. apply Validate_valid. vm_compute. reflexivity. }
  split; [exact H|].
  exact (OrgExceptionsAndRepos_cover [w_query] "o" "r" _ _ H eq_refl (surjective_pairing _)).
Defined.

Definition w_cp : TideContextPolicy := mkTideContextPolicy None ["unit"] [] [] None.

Lemma GetTideContextPolicy_spec_witness :
  GetTideContextPolicy w_config "o" "r" "master" (λ _, Ok "base") "head" = Ok w_cp ∧
  IsOptional (policy_checker w_cp) "unit" = false.
Proof.
  assert (GetTideContextPolicy w_config "o" "r" "master" (λ _, Ok "base") "head" = Ok w_cp) as H
    by (vm_compute; reflexivity).
  split; [exact H|].
  assert (GetPresubmits w_config (full_name "o" "r") (λ _, Ok "base") [λ _, Ok "head"]
          = Ok [w_job "unit"]) as H2 by (vm_compute; reflexivity).
  refine (proj1 (proj1 (proj2 (GetTideContextPolicy_spec _ _ _ _ _ _ _ _ H H2)) "unit" _)).
  by left.
Defined.

Lemma QueryMap_ForRepo_uncached_witness :
  contains_char "/" "o" = false ∧
  (QueryMap_ForRepo (qm_after [w_query] [("o", "r"); ("o", "r")]) "o" "r").2
  = filter (λ q, TideQuery_ForRepo q "o" "r" = true) [w_query].
Proof.
  assert (contains_char "/" "o" = false) as H by reflexivity. split; [exact H|].
  apply (QueryMap_ForRepo_uncached [w_query] [("o", "r"); ("o", "r")] "o" "r"); [|exact H].
  repeat constructor.
Defined.

(** ** Triggering and aborting *)

Lemma FilterPresubmits_spec_witness :
  FilterPresubmits (CommandFilter "/test slow") (λ _, Ok []) "master" [w_job "unit"; w_manual "slow"]
    = Ok ([w_manual "slow"], []) ∧
  selects (CommandFilter "/test slow") (λ _, Ok []) "master" true (w_manual "slow").
Proof.
  assert (FilterPresubmits (CommandFilter "/test slow") (λ _, Ok []) "master"
            [w_job "unit"; w_manual "slow"] = Ok ([w_manual "slow"], [])) as H
    by reflexivity.
  split; [exact H|].
  refine (proj2 (proj1 (proj1 (FilterPresubmits_spec _ _ _ _ _ _ H) (w_manual "slow")) _)).
  by left.
Defined.

Lemma PresubmitFilter_commands_witness :
  TriggerMatches (w_manual "slow") "/test slow" = true ∧
  ∃ f, PresubmitFilter false (λ _, Ok (∅, ∅)) "/test slow" = Ok f ∧ (f (w_manual "slow")).1.1 = true.
Proof.
  assert (TriggerMatches (w_manual "slow") "/test slow" = true) as H by reflexivity.
  split; [exact H|]. eexists. split; [reflexivity|].
  exact (proj1 (proj1 (PresubmitFilter_commands false (λ _, Ok (∅, ∅)) "/test slow" _
    (w_manual "slow") eq_refl) H)).
Defined.

(** Label values of at most 63 characters. *)
Definition short_enough (s : string) : bool := bool_decide (String.length s ≤ 63).

Lemma NewProwJob_labels_valid_witness :
  pj_Labels (NewProwJob short_enough "id" 0%Z (w_spec "presubmit" "unit" [w_pull 1 "sha"]) ∅ ∅)
    !! PullLabel = Some "1" ∧ short_enough "1" = true.
Proof.
  assert (pj_Labels (NewProwJob short_enough "id" 0%Z
    (w_spec "presubmit" "unit" [w_pull 1 "sha"]) ∅ ∅) !! PullLabel = Some "1") as H
    by (vm_compute; reflexivity).
  split; [exact H|]. exact (NewProwJob_labels_valid _ _ _ _ _ _ _ _ H).
Defined.

Lemma job_identifier_perm_witness :
  [w_pull 1 "a"; w_pull 2 "b"] ≠ [w_pull 2 "b"; w_pull 1 "c"] ∧
  job_identifier (w_pj "batch" "unit" [w_pull 1 "a"; w_pull 2 "b"] "triggered" 0%Z)
  = job_identifier (w_pj "batch" "unit" [w_pull 2 "b"; w_pull 1 "c"] "triggered" 1%Z).
Proof.
  split; [done|].
  apply (job_identifier_perm _ _ (w_refs [w_pull 1 "a"; w_pull 2 "b"])
    (w_refs [w_pull 2 "b"; w_pull 1 "c"])); try reflexivity. cbn. by apply perm_swap.
Defined.

Definition w_old : ProwJob := w_pj "presubmit" "unit" [w_pull 1 "a"] "pending" 1%Z.
Definition w_new : ProwJob := w_pj "presubmit" "unit" [w_pull 1 "b"] "triggered" 2%Z.

Lemma TerminateOlderJobs_spec_witness :
  (TerminateOlderJobs (λ _ : list unit, 5%Z) (λ _, mret (Ok tt)) (λ _ dst, mret (Ok dst))
     [w_old; w_new] []).2 = ([mark_aborted 5%Z w_old; w_new], None) ∧
  abort_candidate w_old = true ∧
  ∃ j q, [w_old; w_new] !! j = Some q ∧ [mark_aborted 5%Z w_old; w_new] !! j = Some q ∧
    abort_candidate q = true ∧ job_identifier q = job_identifier w_old ∧ (start w_old ≤ start q)%Z.
Proof.
  assert ((TerminateOlderJobs (λ _ : list unit, 5%Z) (λ _, mret (Ok tt)) (λ _ dst, mret (Ok dst))
     [w_old; w_new] []).2 = ([mark_aborted 5%Z w_old; w_new], None)) as H
    by (vm_compute; reflexivity).
  split; [exact H|]. split; [reflexivity|].
  refine (proj1 (proj2 (TerminateOlderJobs_spec (λ _ : list unit, 5%Z) (λ _, mret (Ok tt))
    (λ _ dst, mret (Ok dst)) _ _ _ _ H)) 0 w_old eq_refl eq_refl).
  intros tr src dst new E. injection E as <-. done.
Defined.

(** ** Plank *)

Definition w_plank : PlankConfig := mkPlankConfig 0 false 60 60 false.

Lemma triggered_phase_limits_witness :
  spec_MaxConcurrency (pj_Spec w_new) = 1%Z ∧
  let '(tr', (m', _)) := triggered_phase w_plank {["default"]} (λ _, 5%Z) (λ _, Ok "7")
      (λ _, Created "pod") (λ _, Ok w_new) (λ _ _, Ok tt) (λ _, "url") [w_new] ∅ [w_new] ∅ [] in
  ∃ new, tr' = [] ++ new ∧
    (∀ job, num_pending ∅ job +
        Z.of_nat (length (filter (λ e, creates_of job e = true) new)) ≤ num_pending m' job ∧
      (0 < 1 → num_pending m' job ≤ Z.max 1 (num_pending ∅ job)))%Z ∧
    (0 < 0 → total_pending m' ≤ Z.max 0 (total_pending ∅))%Z.
Proof.
  split; [reflexivity|].
  apply (triggered_phase_limits w_plank {["default"]} (λ _, 5%Z) (λ _, Ok "7")
    (λ _, Created "pod") (λ _, Ok w_new) (λ _ _, Ok tt) (λ _, "url") [w_new] ∅ [w_new] ∅ []
    (λ _, 1%Z)).
  intros pj Hin. apply list_elem_of_singleton in Hin as ->. reflexivity.
Defined.

(** An API server that does what it is asked for. *)
Definition w_patched (tr : list Plank.event) : result ProwJob :=
  match last tr with Some (Plank.EvPatch _ dst) => Ok dst | _ => Err (errors_New "not a patch") end.


(** ** Tide *)

Definition w_green : Context := mkContext "unit" "" StatusStateSuccess.
Definition w_pr1 : PullRequest := w_pr 1 "sha1" [w_green].
Definition w_pr2 : PullRequest := w_pr 2 "sha2" [w_green].
Definition w_done (n : Z) (sha : string) : ProwJob :=
  w_pj "presubmit" "unit" [w_pull n sha] "success" 3%Z.
Definition w_batch : ProwJob :=
  w_pj "batch" "unit" [w_pull 1 "sha1"; w_pull 2 "sha2"] "success" 4%Z.
Definition w_required : gmap Z (list Presubmit) :=
  {[1%Z := [w_job "unit"]; 2%Z := [w_job "unit"]]}.
Definition w_sp : subpool :=
  mkSubpool "o" "r" "master" "base" [w_done 1 "sha1"; w_batch] [w_pr1; w_pr2]
    {[1%Z := policy_checker w_cp; 2%Z := policy_checker w_cp]} w_required.
Definition w_no_status (_ _ _ : string) : result (list (string * string * string)) :=
  Err (errors_New "not asked").
Definition w_no_files (_ : PullRequest) : ChangedFilesProvider := λ _, Ok [].

Definition w_pool : gmap string PullRequest := {["o/r#1" := w_pr1]}.
Definition w_divided : gmap string subpool :=
  {["o/r:master" := mkSubpool "o" "r" "master" "base" [] [w_pr1] ∅ ∅]}.

Lemma dividePool_spec_witness :
  dividePool (λ _ _ _, Ok "base") (λ _, Ok []) w_pool
    = Ok w_divided ∧
  prs_of (map_to_list w_divided)
    ≡ₚ (map_to_list w_pool).*2.
Proof.
  assert (dividePool (λ _ _ _, Ok "base") (λ _, Ok []) w_pool
    = Ok w_divided) as H
    by (vm_compute; reflexivity).
  split; [exact H|]. exact (proj1 (dividePool_spec _ _ _ _ H)).
Defined.

Lemma accumulate_spec_witness :
  NoDup (pr_Number <$> [w_pr1; w_pr2]) ∧
  ∃ b, accumulate w_required [w_pr1; w_pr2] [w_done 1 "sha1"; w_batch] = Some b ∧
    bk_successes b = filter (passing w_required [w_done 1 "sha1"; w_batch]) [w_pr1; w_pr2].
Proof.
  assert (NoDup (pr_Number <$> [w_pr1; w_pr2])) as H by (apply (bool_decide_eq_true_1 _); vm_compute; reflexivity).
  split; [exact H|].
  destruct (accumulate_spec w_required [w_pr1; w_pr2] [w_done 1 "sha1"; w_batch])
    as (b & Hb & Hs & _); [|exact H|].
  - repeat constructor; cbn; by eexists.
  - exists b. split; [exact Hb|exact Hs].
Defined.

Lemma pickSmallestPassingNumber_spec_witness :
  pickSmallestPassingNumber w_no_status [w_pr2; w_pr1] (sp_cc w_sp) = Some w_pr1 ∧
  w_pr1 ∈ [w_pr2; w_pr1].
Proof.
  assert (pickSmallestPassingNumber w_no_status [w_pr2; w_pr1] (sp_cc w_sp) = Some w_pr1) as H
    by (vm_compute; reflexivity).
  split; [exact H|].
  assert (Forall (λ pr, 0 < pr_Number pr)%Z [w_pr2; w_pr1]) as Hpos by (repeat constructor).
  pose proof (pickSmallestPassingNumber_spec w_no_status (sp_cc w_sp) [w_pr2; w_pr1] Hpos) as Hs.
  rewrite H in Hs. exact (proj1 Hs).
Defined.

Lemma accumulateBatch_spec_witness :
  accumulateBatch w_config w_no_files w_sp = Some ([w_pr1; w_pr2], []) ∧
  ([w_pr1; w_pr2] = [] ∨
   batch_tested w_config w_no_files (λ s, s = successState) w_sp [w_pr1; w_pr2]).
Proof.
  assert (accumulateBatch w_config w_no_files w_sp = Some ([w_pr1; w_pr2], [])) as H
    by (vm_compute; reflexivity).
  split; [exact H|]. exact (proj1 (accumulateBatch_spec _ _ _ _ _ H)).
Defined.

(** Everything outside answers well: the batch is merged. *)
Lemma syncSubpool_merges_tested_witness :
  pool_ok w_sp ∧
  let '(tr', r) := syncSubpool w_config w_no_status w_no_files short_enough (λ _, Merged)
    (λ _, Ok tt) (λ _, Ok true) (λ _, Ok tt) (λ _, 5%Z) (λ _, "id") w_sp [] [] in
  is_Some r ∧ ∃ new, tr' = [] ++ new ∧ (@nil TideBlockers.Blocker ≠ [] → new = []) ∧
    Forall (λ e, match e with
      | EvMerge _ _ _ _ => ∃ pr method, tested w_config w_no_status w_no_files w_sp pr ∧
                                        e = merge_event w_config w_sp pr method
      | _ => True end) new.
Proof.
  assert (pool_ok w_sp) as H.
  { split.
    - apply (bool_decide_eq_true_1 _); vm_compute; reflexivity.
    - repeat constructor; cbn; done.
    - repeat constructor; cbn; intros _ r [= <-]; done. }
  split; [exact H|].
  apply (syncSubpool_merges_tested w_config w_no_status w_no_files short_enough (λ _, Merged)
    (λ _, Ok tt) (λ _, Ok true) (λ _, Ok tt) (λ _, 5%Z) (λ _, "id") w_sp [] [] H).
  repeat constructor.
Defined.

(** Run on these answers, the pass merges both pull requests of the batch. *)
Example syncSubpool_run :
  filter (λ e, is_merge e = true)
    (syncSubpool w_config w_no_status w_no_files short_enough (λ _, Merged)
       (λ _, Ok tt) (λ _, Ok true) (λ _, Ok tt) (λ _, 5%Z) (λ _, "id") w_sp [] []).1
  = [merge_event w_config w_sp w_pr1 MergeMerge; merge_event w_config w_sp w_pr2 MergeMerge].
Proof. vm_compute. reflexivity. Qed.

Lemma expectedStatus_spec_witness :
  qm_coherent [] (TideQueries_QueryMap []) ∧
  let '(queryMap', (state, desc)) := expectedStatus (λ _, Ok []) (TideQueries_QueryMap []) w_pr1 ∅
    (policy_checker w_cp) (fromIssues []) "base" in
  qm_coherent [] queryMap' ∧
  match (∅ : gmap string PullRequest) !! prKey w_pr1 with
  | Some _ => state = StatusSuccess ∧ desc = statusInPool ∨
      state = StatusPending ∧ ∃ jobs, Ok [] = Ok jobs ∧
        MissingRequiredContexts (policy_checker w_cp) ((λ pj, spec_Context (pj_Spec pj)) <$> jobs) ≠ []
  | None => GetApplicable (fromIssues []) "o" "r" "master" ≠ [] ∧ state = StatusError ∨
      GetApplicable (fromIssues []) "o" "r" "master" = [] ∧ state = StatusPending ∧
        (filter (λ q, TideQuery_ForRepo q "o" "r" = true) [] = [] ∧ desc = "Not mergeable." ∨
         ∃ q, q ∈ filter (λ q, TideQuery_ForRepo q "o" "r" = true) [] ∧
              desc = statusNotInPool (requirementDiff w_pr1 q (policy_checker w_cp)).1 ∧
              ∀ q', q' ∈ filter (λ q, TideQuery_ForRepo q "o" "r" = true) [] →
                ((requirementDiff w_pr1 q (policy_checker w_cp)).2
                   ≤ (requirementDiff w_pr1 q' (policy_checker w_cp)).2)%Z)
  end.
Proof.
  assert (qm_coherent [] (TideQueries_QueryMap [])) as H.
  { split; [reflexivity|]. intros org repo qs _ Hl. discriminate Hl. }
  split; [exact H|].
  exact (expectedStatus_spec (λ _, Ok []) [] (TideQueries_QueryMap []) w_pr1 ∅ (policy_checker w_cp)
    (fromIssues []) "base" H eq_refl).
Defined.

(** ** An iteration of Tide: one query finds both pull requests, whose batch has
    succeeded. *)

Definition w_org_query : TideQuery := mkTideQuery ["o"] [] [] [] [] [] [] "" false.
Definition w_loop_config : Config :=
  mkConfig (cfg_JobConfig w_config)
    (mkTide [w_org_query] ∅ ∅ "" "" "" "" "" "" 1 (tide_ContextOptions w_tide) ∅) w_bp ∅
    (cfg_ProwYAMLGetter w_config) "ns" "pods".
Definition w_search_prs (_ : string) (_ : option string) : result (page PullRequest) :=
  Ok (mkPage [w_pr1; w_pr2] false "").
Definition w_search_issues (_ : string) (_ : option string) : result (page Issue) :=
  Ok (mkPage [] false "").
Definition w_index_of (key : string) : result (list ProwJob) :=
  Ok (filter (λ pj, key ∈ cacheIndexFunc pj) [w_done 1 "sha1"; w_batch]).
Definition w_state : Controller :=
  mkController (mkPoolNotice no_blockers ∅ ∅ ∅) [] (mkHistory ∅ 10%Z).
Definition w_Sync : list event * may_panic (Controller * option error) :=
  Sync w_loop_config w_search_prs w_search_issues 2 (λ _ _ _, Ok "base") w_index_of w_no_status
    w_no_files 0%Z (λ _, "2007-01-01T00:00:00Z") (λ _, "error") short_enough (λ _, Merged)
    (λ _, Ok tt) (λ _, Ok true) (λ _, Ok tt) (λ _, 5%Z) (λ _, "id") w_state [].

Lemma Sync_merges_tested_witness :
  world_ok w_search_prs w_search_issues 2 w_index_of ∧
  ∃ new st' err, w_Sync = ([] ++ new, Some (st', err)) ∧ history_ok (ct_History st') ∧
    (err ≠ None → new = [] ∧ st' = w_state).
Proof.
  assert (world_ok w_search_prs w_search_issues 2 w_index_of) as H.
  { split.
    - intros q. eexists _, _. split; [by apply pages_last|cbn; lia].
    - intros q. eexists _, _. split; [by apply pages_last|cbn; lia].
    - intros q cur p [= <-]. repeat constructor.
    - intros key pjs [= <-]. apply Forall_forall.
      intros pj [Hk Hin]%list_elem_of_filter. split; [done|]. intros _ r.
      apply elem_of_cons in Hin as [->|Hin%list_elem_of_singleton]; [by intros [= <-]|].
      subst pj. by intros [= <-]. }
  split; [exact H|].
  assert (history_ok (ct_History w_state)) as Hh.
  { exists 10, (λ _, []). split_and!; [reflexivity|lia|done]. }
  destruct (Sync_merges_tested w_loop_config w_search_prs w_search_issues 2 (λ _ _ _, Ok "base")
    w_index_of w_no_status w_no_files 0%Z (λ _, "2007-01-01T00:00:00Z") (λ _, "error") short_enough
    (λ _, Merged) (λ _, Ok tt) (λ _, Ok true) (λ _, Ok tt) (λ _, 5%Z) (λ _, "id") H w_state [] Hh)
    as (new & st' & err & E & H1 & H2 & _).
  exists new, st', err. split; [exact E|]. split; [exact H1|exact H2].
Defined.

(** The iteration merges both. *)
Example Sync_run :
  filter (λ e, is_merge e = true) w_Sync.1
  = [EvMerge "o" "r" 1 (mkMergeDetails "" "" "sha1" "merge");
     EvMerge "o" "r" 2 (mkMergeDetails "" "" "sha2" "merge")].
Proof. vm_compute. reflexivity. Qed.
